(* ===== verification/_CoqProject ===== *)
-Q . S2P
Prelude.v
GoText.v
DepInfo.v
TxDag.v
Protos.v
TxFlags.v
RwConflict.v
Committer.v
CommitterSpec.v
CircuitBreaker.v
Utf8.v
Json.v
Base64.v
ShardTypes.v
Shard.v
ShardLoop.v
Registry.v
ShardManager.v
LeaderEndorser.v
Proposal.v
ProtoUtil.v
Interest.v
Endorser.v
PluginEndorser.v
EndorserSpec.v
EndToEnd.v
Height.v
StateDb.v
PvtState.v
RwSetUtil.v
RangeQuery.v
TxOps.v
Mvcc.v
BatchPreparer.v
RwSetBuilder.v
Replay.v
PurgeMgr.v
PurgeSpec.v
PrivateExpiry.v
TxSimulator.v
SimulatedEndorsement.v
MsgValidation.v
TxValidator.v
BlockFlow.v
Policy.v
PolicyManager.v
ConfigTx.v
BlockCutter.v
Blocks.v
KvLedger.v
MsgProcessor.v
BlockWriter.v
RaftMembership.v
RaftChain.v
BlockVerify.v
StateTransfer.v
KeyLevel.v
ValidationFlow.v
