(* ===== verification/Prelude.v ===== *)
(** * A verification development of a peer with sharded endorsement and graph-ordered commit

    The program is a fork of Hyperledger Fabric. Endorsers ask a Raft group of
    the contract (a shard) which earlier transaction a proposal depends on and
    write the answer into the response message; the committer reads it back,
    builds a graph of the block's transactions and processes the block level
    by level. The rest of the path (simulation, endorsement, ordering,
    validation, multi-version concurrency control and the application of a
    block's updates) is Fabric's. Paths below are relative to src/.

    ** How Go is modelled

    Prelude and GoText hold what the models use of Go and its library. A
    function returning a value and an error is an [outcome]: [Ok], [Err] or
    [Panic]; a panic (nil dereference, index out of range, explicit) is never
    confused with an error. A pointer that may be nil is an [option]. Strings
    and byte slices are byte [string]s; integers are [Z] with their wrap-around
    written out where a width matters ([u32], [u64]). A struct is a Record, the
    methods that change it return the new one. A loop over a Go map takes the
    order of the visit as an argument or from the classes MapOrder and KeyOrder,
    and the theorems hold for every order. Goroutines are step relations
    ([lstep], [slstep], [cbstep], [regstep], [kstep], [provider_step]) with the
    sequential function beside them; so are the steps of a cluster of orderers
    ([cluster_step]) and of a manager that commits, restarts and crashes
    ([mgr_step], [crash]). Third-party and generated code is a parameter: the
    protobuf encoders and decoders (Codec, ProposalCodec, TxCodec, RwsetCodec,
    MetadataCodec, ExpiryCodec, UpdatesCodec), Raft, the typed view of a
    configuration (ChannelConfig), the block and private data stores (LedgerStores), the state database (VersionedDB), hashes (Hashing), identities
    (Membership), the ledger behind the committer. What a theorem needs of a
    parameter is a hypothesis of the theorem, and its witness gives an instance.

    ** Endorsement

    - Proposal (core/endorser/msgvalidation.go) unpacks and checks a proposal;
      ProtoUtil (protoutil) makes proposals and transactions and takes them
      apart; Interest (metadata.go, pvtrwset_assembler.go) is what the endorser
      reports of a simulation; PluginEndorser (plugin_endorser.go) keeps the
      plugins.
    - Endorser (endorser.go, chaincode.go, utils.go) is the whole of
      [ProcessProposal] in a monad that lists the effects on other parts.
      EndorserSpec: what an endorsement covers, and the protocol with the shards.
    - DepInfo: the text of the dependency information and its parser. Round
      trips, totality, and that a chaincode can forge it.
    - Shard, ShardLoop, ShardTypes, ShardManager, Registry
      (core/endorser/sharding): the replicated dependency map as a refinement of
      an abstract map of last writers; batching under every interleaving; the
      log entries' JSON (Utf8, Base64, Json); creation of shards and clients.
    - CircuitBreaker, LeaderEndorser: the breaker, the older unsharded leader.
    - EndToEnd composes endorser and committer: endorsed blocks have one level.
      SimulatedEndorsement composes the endorser with the ledger's simulator,
      which refuses the endorser's second request for results.

    ** Simulation

    - TxSimulator (txmgmt/txmgr: query_executor.go, tx_simulator.go,
      collection_val.go): every call a chaincode can make, iterators included.
      A chaincode is a strategy of calls; a run is repeatable on every state that
      agrees on what it read.
    - RwSetBuilder, RwSetUtil (txmgmt/rwsetutil): the read-write sets, well
      formed and independent of map orders, and their messages.
    - RangeQuery (query_results_helper.go, rangequery_validator.go): the hash
      tree over a query's results; validation is sound without collisions.

    ** Ordering

    - BlockCutter (orderer/common/blockcutter): batches keep every message once,
      in order, within the limits.
    - PolicyManager (common/policies/policy.go): the tree of policy managers made
      of a configuration; which policy a path names. ConfigTx (common/configtx):
      configurations as maps and back, updates of them. Only authorised elements
      change, and what one node proposes every node accepts.
    - MsgProcessor (orderer/common/msgprocessor, standard channels): exactly which
      messages are ordered; configuration updates; maintenance mode.
    - Blocks (protoutil/blockutils.go): headers, hashes and metadata; equal tips
      mean equal chains. BlockWriter (orderer/common/multichannel): the blocks an
      orderer writes are a chain that names its last configuration.
    - RaftMembership, RaftChain (orderer/consensus/etcdraft): changes of the
      consenters keep quorums intersecting; the chain over a replicated log. Every
      orderer writes a prefix of one chain through restarts, changes of the leader
      and snapshots; what a snapshot loses; when a leader panics.
    - BlockVerify (orderer/common/cluster/util.go): exactly which sequences of
      blocks of another orderer are accepted.
    - StateTransfer (gossip/state): a peer takes up blocks in order, without gaps.

    ** Validation of endorsements

    - MsgValidation (core/common/validation/msgvalidation.go): exactly which
      envelopes are valid, and that what an endorser accepted and a client
      assembled is valid.
    - TxValidator (core/committer/txvalidator/v20, plugindispatcher): the flags
      for every order of the results, and what a VALID flag means.
    - KeyLevel (core/common/validation/statebased,
      core/handlers/validation/builtin/v20): the default plugin. Exactly when it
      accepts; who signed for a key of an accepted transaction; the entries that
      make later transactions of a block wait for ever or panic.
    - Policy (common/cauthdsl, common/policies, core/policy/application.go):
      evaluation is sound, complete for unambiguous policies, and dependent on
      the order of the signers otherwise; implicit meta policies.
    - ValidationFlow composes the three: who endorsed the keys of a transaction
      that the transaction validator flags VALID.

    ** Commit

    - TxDag, RwConflict, Committer, CommitterSpec (core/committer/committer_impl.go,
      internal/pkg/txflags in TxFlags): levels are longest chains of
      dependencies; every schedule of a level ends in the same graph; the flags
      handed to the ledger, case by case.
    - BlockFlow (gossip/privdata/coordinator.go): storing a block; the
      validator's flags are lost before the ledger sees the block.
    - StateDb, PvtState (txmgmt/statedb/statedb.go, privacyenabledstate), Height
      (internal/version): batches, combined iterators, private and hashed
      state, heights whose bytes sort as they do.
    - TxOps, Mvcc, BatchPreparer (txmgmt/validation): one transaction's writes,
      its validation against state and block, and the block as a whole, which is
      a serial execution of its valid transactions.
    - Replay: a block prepared again from the block store, without validation,
      gives the same updates.
    - PurgeMgr, PurgeSpec, PrivateExpiry (txmgmt/pvtstatepurgemgmt,
      txmgmt/txmgr/lockbased_txmgr.go, core/ledger/pvtdatapolicy): the schedule
      of expiring private data; commits, late private data, restarts and crashes.
      Private data and their hashes live exactly as long as configured.
    - KvLedger (core/ledger/kvledger/kv_ledger.go, history/db.go): the order in
      which a commit writes the stores, and recovery. A crash anywhere in a commit
      leaves a ledger that opens to the state before or after the block.

    ** Fuel

    [level_loop] (TxDag) gets one turn more than the graph has nodes: every turn
    but the last gives a node its level. [update_loop] (RangeQuery) gets one
    turn for each level of the tree and one above, where nothing exceeds the
    degree. [next_loop] (StateDb) gets the number of results left, each turn
    consumes one. [parse] (Json) gets twice the length of the text, each
    character opens at most two calls. [format_go] (GoText) gets the number of
    binary digits. [recurseConfigMap] (ConfigTx) gets one more than the size of
    the map: every path it follows is a longer key. [be_min] (Blocks) gets the 8
    bytes of a 64-bit number, [varint_loop] (KvLedger) ten groups of 7 bits. In each case a theorem shows that the result is reached.

    ** Not modelled

    - Raft, protobuf, gRPC, cryptography and leveldb or CouchDB are packages
      outside the sources or input and output; they are the parameters above.
    - Block files, indexes and ledger snapshots (common/ledger,
      core/ledger/kvledger): file formats and their order of writing. Recovery
      leaves out the private data of old blocks whose commit a crash interrupted.
    - The private data store, the retrieval of private data by gossip, gossip
      itself but for the delivery of blocks, and discovery: storage, and message
      exchange with other peers.
    - Of the orderer: the registry of channels, the system channel, the storage
      and network of Raft, eviction, timers and forwarding to the leader. The
      typed reading of configurations (common/channelconfig).
    - Chaincode processes and the lifecycle; the peer's wiring, operations
      endpoints and command line.
    - Times, metrics and logs, except where a decision depends on a time. The
      texts of formatted errors are reduced to their constant part. *)

From stdpp Require Export base tactics list gmap fin_maps fin_map_dom strings sorting relations.
From Stdlib Require Export ZArith Lia.
From Stdlib Require Import Ascii.

(** ** Outcomes of Go calls

    A Go function that returns [(T, error)] is an [outcome T]: [Ok] for a nil
    error, [Err] with the text of the error, [Panic] when the call panics
    (nil dereference, index out of range, an explicit panic). *)
Inductive outcome (A : Type) : Type :=
| Ok (a : A)
| Err (msg : string)
| Panic (msg : string).
Arguments Ok {A} _.
Arguments Err {A} _.
Arguments Panic {A} _.

#[global] Instance outcome_ret : MRet outcome := λ A, Ok.
#[global] Instance outcome_bind : MBind outcome := λ A B f o,
  match o with
  | Ok a => f a
  | Err e => Err e
  | Panic e => Panic e
  end.

Definition from_option_err {A} (e : string) (o : option A) : outcome A :=
  match o with Some a => Ok a | None => Err e end.

Definition is_ok {A} (o : outcome A) : bool :=
  match o with Ok _ => true | _ => false end.

Definition is_panic {A} (o : outcome A) : bool :=
  match o with Panic _ => true | _ => false end.

(** [errors.WithMessage] and [errors.Wrap]. *)
Definition with_message {A} (msg : string) (o : outcome A) : outcome A :=
  match o with Err e => Err (msg +:+ ": " +:+ e) | _ => o end.

Lemma with_message_Ok {A} msg (o : outcome A) a : with_message msg o = Ok a → o = Ok a.
Proof. by destruct o. Qed.

(** ** Machine integers: values are kept in [Z] and wrapped where Go wraps *)
Definition wrap (w z : Z) : Z := (z mod 2 ^ w)%Z.
Definition u8 (z : Z) : Z := wrap 8 z.
Definition u32 (z : Z) : Z := wrap 32 z.
Definition u64 (z : Z) : Z := wrap 64 z.

(** [int(x)] for a 64-bit [x]: the two's complement reading. *)
Definition i64 (z : Z) : Z :=
  let r := wrap 64 z in if (r <? 2 ^ 63)%Z then r else (r - 2 ^ 64)%Z.

Lemma wrap_small (w z : Z) : (0 ≤ z < 2 ^ w)%Z → wrap w z = z.
Proof. intros. unfold wrap. by apply Z.mod_small. Qed.

Lemma i64_small (z : Z) : (- 2 ^ 63 ≤ z < 2 ^ 63)%Z → i64 z = z.
Proof.
  intros Hz. unfold i64, wrap.
  assert (z mod 2 ^ 64 = if (z <? 0)%Z then (z + 2 ^ 64)%Z else z)%Z as ->.
  { destruct (Z.ltb_spec z 0); [|apply Z.mod_small; lia].
    symmetry. apply (Z.mod_unique _ _ (-1)); lia. }
  destruct (Z.ltb_spec z 0); case_match; lia.
Qed.

(** ** Times are nanoseconds since the Unix epoch *)
Definition second : Z := 1000000000.
Definition unix (t : Z) : Z := (t / second)%Z.

(** A property of finitely many numbers, by evaluation. *)
Lemma forallb_range (P : Z → bool) (n d : Z) :
  forallb P (seqZ 0 n) = true → (0 ≤ d < n)%Z → P d = true.
Proof.
  intros H Hd. rewrite forallb_forall in H. apply H, list_elem_of_In, elem_of_seqZ. lia.
Qed.

(** ** Iteration over Go maps

    [for k := range m] visits every key of [m] exactly once, in an order the
    language leaves open. Every loop over a map takes that order as an
    argument, and the theorems quantify over all of them. *)
Definition range_order {V} (m : gmap string V) (ks : list string) : Prop :=
  ks ≡ₚ (map_to_list m).*1.

Definition keys_of {V} (m : gmap string V) : list string := (map_to_list m).*1.

(** The orders a run of the program meets. A loop over a map is identified by
    where it runs (a label and the ids it works on) and a number that tells
    repetitions apart; [map_range site n m] is the order it visits [m] in. *)
Class MapOrder := {
  map_range {V} : list string → nat → gmap string V → list string;
  map_range_ok {V} site n (m : gmap string V) : range_order m (map_range site n m)
}.

(** A loop whose body may return an error or panic. *)
Fixpoint foldM {A B} (f : B → A → outcome B) (b : B) (l : list A) : outcome B :=
  match l with
  | [] => Ok b
  | x :: l' => match f b x with
               | Ok b' => foldM f b' l'
               | Err e => Err e
               | Panic e => Panic e
               end
  end.

(** ** Tactics *)
Ltac go_simpl := unfold mret, mbind, outcome_ret, outcome_bind in *; simpl in *.

Ltac case_opt :=
  match goal with
  | |- context [match ?x with Some _ => _ | None => _ end] => destruct x eqn:?
  | H : context [match ?x with Some _ => _ | None => _ end] |- _ => destruct x eqn:?
  end.

Section range_order.
Context {V : Type}.
Implicit Types (m : gmap string V) (ks : list string).

Lemma range_order_elem m ks k :
  range_order m ks → k ∈ ks ↔ is_Some (m !! k).
Proof.
  intros Hks. rewrite Hks. rewrite list_elem_of_fmap. split.
  - intros [[k' v] [-> Hin]]. apply elem_of_map_to_list in Hin. eauto.
  - intros [v Hv]. exists (k, v). split; [done|]. by apply elem_of_map_to_list.
Qed.

Lemma range_order_NoDup m ks : range_order m ks → NoDup ks.
Proof. intros Hks. rewrite Hks. apply NoDup_fst_map_to_list. Qed.

Lemma range_order_length m ks : range_order m ks → length ks = size m.
Proof.
  intros Hks. rewrite Hks. rewrite length_fmap. apply length_map_to_list.
Qed.

Lemma keys_of_order m : range_order m (keys_of m).
Proof. unfold range_order, keys_of. reflexivity. Qed.
End range_order.

#[export] Instance sorted_map_order : MapOrder :=
  {| map_range V _ _ m := keys_of m; map_range_ok V _ _ m := keys_of_order m |}.

Lemma foldM_inv {A B} (P : B → Prop) (f : B → A → outcome B) (l : list A) (b b' : B) :
  (∀ x c c', x ∈ l → P c → f c x = Ok c' → P c') → P b → foldM f b l = Ok b' → P b'.
Proof.
  revert b. induction l as [|x l IH]; intros b Hf Hb E; cbn [foldM] in E; [by simplify_eq|].
  destruct (f b x) as [c|e|e] eqn:Ec; [|done..].
  apply (IH c); [intros; eapply Hf; [by right|done..]| |done]. eapply Hf; [by left|done..].
Qed.

Lemma foldM_app {A B} (f : B → A → outcome B) (l l' : list A) (b : B) :
  foldM f b (l ++ l') = match foldM f b l with Ok c => foldM f c l' | Err e => Err e | Panic e => Panic e end.
Proof.
  revert b. induction l as [|x l IH]; intros b; cbn; [done|]. by destruct (f b x).
Qed.

Lemma foldl_ext {A B} (f g : B → A → B) (b : B) (l : list A) :
  (∀ c x, x ∈ l → f c x = g c x) → foldl f b l = foldl g b l.
Proof.
  revert b. induction l as [|x l IH]; intros b H; cbn; [done|]. rewrite H by by left.
  apply IH. intros. apply H. by right.
Qed.

Create HintDb go.
#[export] Hint Resolve range_order_NoDup keys_of_order : go.
