(* ===== verification/GoText.v ===== *)
(** * GoText: the functions of Go's [strings] and [strconv] the program calls

    Go strings are byte sequences, which Stdlib's [string] (8-bit [ascii]
    characters) represents exactly. [contains] and [split] model
    [strings.Contains] and [strings.Split] for a non-empty separator,
    [parse_bool], [parse_int64], [format_uint], [format_int] and [format_bool]
    the [strconv] functions (and the [%d], [%v] verbs of [fmt.Sprintf]). The
    lemmas give the splitting of a string built around a separator and the
    round trip of decimal numbers. *)

From S2P Require Import Prelude.
From Stdlib Require Import Ascii.

#[local] Arguments String.append : simpl nomatch.

(** ** strings.Contains, strings.Split *)
Fixpoint contains (s sub : string) : bool :=
  String.prefix sub s ||
  match s with
  | EmptyString => false
  | String _ s' => contains s' sub
  end.

(** One pass over [s]: [cur] is the piece being read, [skip] the number of
    bytes of the separator just matched that are still to be dropped. *)
Fixpoint split_go (sep s : string) (skip : nat) (cur : string) : list string :=
  match s with
  | EmptyString => [cur]
  | String c s' =>
      match skip with
      | S k => split_go sep s' k cur
      | O =>
          if String.prefix sep s
          then cur :: split_go sep s' (String.length sep - 1) ""
          else split_go sep s' 0 (cur +:+ String c "")
      end
  end.

Definition split (s sep : string) : list string := split_go sep s 0 "".

Fixpoint has_char (c : ascii) (s : string) : bool :=
  match s with
  | EmptyString => false
  | String d s' => Ascii.eqb c d || has_char c s'
  end.

(** [no_start sep a b]: no occurrence of [sep] in [a +:+ b] starts inside [a]. *)
Fixpoint no_start (sep a b : string) : bool :=
  match a with
  | EmptyString => true
  | String _ a' => negb (String.prefix sep (a +:+ b)) && no_start sep a' b
  end.

(** ** strconv.ParseBool: the value Go returns (false on a syntax error) *)
Definition parse_bool (s : string) : bool :=
  bool_decide (s ∈ ["1"; "t"; "T"; "TRUE"; "true"; "True"]).

Definition format_bool (b : bool) : string := if b then "true" else "false".

(** ** Decimal numbers *)
Definition digit_val (c : ascii) : option Z :=
  let n := Z.of_nat (nat_of_ascii c) in
  if (48 <=? n)%Z && (n <=? 57)%Z then Some (n - 48)%Z else None.

Definition digit_char (d : Z) : ascii := ascii_of_nat (48 + Z.to_nat d).

(** Errors of [strconv.ParseUint]/[ParseInt]. *)
Inductive num_error := ErrSyntax | ErrRange.

Definition max_uint64 : Z := 2 ^ 64 - 1.

(** The digit loop of [strconv.ParseUint] at base 10 and 64 bits: [Ok] of the
    value, or the error with the value returned beside it. *)
Fixpoint parse_uint_loop (s : string) (n : Z) : Z * option num_error :=
  match s with
  | EmptyString => (n, None)
  | String c s' =>
      match digit_val c with
      | None => (0%Z, Some ErrSyntax)
      | Some d =>
          if (max_uint64 / 10 + 1 <=? n)%Z then (max_uint64, Some ErrRange)
          else
            let n1 := (n * 10 + d)%Z in
            if (max_uint64 <? n1)%Z then (max_uint64, Some ErrRange)
            else parse_uint_loop s' n1
      end
  end.

Definition parse_uint64 (s : string) : Z * option num_error :=
  match s with
  | EmptyString => (0%Z, Some ErrSyntax)
  | _ => parse_uint_loop s 0
  end.

(** [strconv.ParseInt(s, 10, 64)]. *)
Definition parse_int64 (s : string) : Z * option num_error :=
  match s with
  | EmptyString => (0%Z, Some ErrSyntax)
  | String c rest =>
      let neg := Ascii.eqb c "-" in
      let body := if Ascii.eqb c "+" || neg then rest else s in
      match parse_uint64 body with
      | (_, Some ErrSyntax) => (0%Z, Some ErrSyntax)
      | (un, _) =>
          if negb neg && (2 ^ 63 <=? un)%Z then ((2 ^ 63 - 1)%Z, Some ErrRange)
          else if neg && (2 ^ 63 <? un)%Z then ((- 2 ^ 63)%Z, Some ErrRange)
          else ((if neg then - un else un)%Z, None)
      end
  end.

(** [%d] of an unsigned number. The fuel is the number of binary digits,
    which bounds the number of decimal ones. *)
Fixpoint format_go (fuel : nat) (n : Z) (acc : string) : string :=
  match fuel with
  | O => acc
  | S f =>
      let acc' := String (digit_char (n mod 10)) acc in
      if (n <? 10)%Z then acc' else format_go f (n / 10) acc'
  end.

Definition format_uint (n : Z) : string :=
  format_go (S (Z.to_nat (Z.log2 n))) n "".

Definition format_int (n : Z) : string :=
  if (n <? 0)%Z then "-" +:+ format_uint (- n) else format_uint n.

Example split_ex :
  split "a,b,,c" "," = ["a"; "b"; ""; "c"].
Proof. reflexivity. Qed.
Example split_ex2 :
  split "abab" "ab" = [""; ""; ""].
Proof. reflexivity. Qed.
Example format_ex : format_uint 18446744073709551615 = "18446744073709551615".
Proof. reflexivity. Qed.
Example parse_ex : parse_int64 "9223372036854775808" = (9223372036854775807%Z, Some ErrRange).
Proof. reflexivity. Qed.
Example parse_ex2 : parse_int64 "-42" = ((-42)%Z, None).
Proof. reflexivity. Qed.

(** ** Lemmas on strings *)
Lemma string_app_assoc (a b c : string) : a +:+ (b +:+ c) = (a +:+ b) +:+ c.
Proof. induction a as [|x a IH]; simpl; [done|by rewrite IH]. Qed.

Lemma string_app_nil_r (a : string) : a +:+ "" = a.
Proof. induction a as [|x a IH]; simpl; [done|by rewrite IH]. Qed.

Lemma string_app_inj_length (a a' b b' : string) :
  String.length a = String.length a' → a +:+ b = a' +:+ b' → a = a' ∧ b = b'.
Proof.
  revert a'. induction a as [|c a IH]; intros [|c' a'] Hl E; cbn in *; [done..|].
  injection E as -> E. destruct (IH a') as [-> ->]; [lia|done|done].
Qed.

Lemma string_length_app a b : String.length (a +:+ b) = String.length a + String.length b.
Proof. induction a as [|c a IH]; [done|]. simpl. by rewrite IH. Qed.

Lemma prefix_app (a b : string) : String.prefix a (a +:+ b) = true.
Proof.
  induction a as [|c a IH]; simpl; [by destruct b|].
  destruct (ascii_dec c c); [done|congruence].
Qed.

Lemma contains_prefix (s sub : string) :
  String.prefix sub s = true → contains s sub = true.
Proof. intros H. destruct s; cbn [contains]; by rewrite H. Qed.

Lemma contains_app (a sep b : string) : contains (a +:+ sep +:+ b) sep = true.
Proof.
  induction a as [|c a IH].
  - apply contains_prefix, (prefix_app sep b).
  - cbn [contains String.append]. rewrite IH. apply orb_true_r.
Qed.

(** A character outside the separator closes every match that starts before it. *)
Lemma prefix_stop (sep m x : string) (c : ascii) :
  has_char c sep = false →
  String.prefix sep (m +:+ String c x) = String.prefix sep m.
Proof.
  revert sep. induction m as [|d m IH]; intros [|e sep] H; simpl in *; try done.
  - destruct (Ascii.eqb_spec c e); [done|]. destruct (ascii_dec e c); [congruence|done].
  - apply orb_false_iff in H as [_ H].
    destruct (ascii_dec e d); [|done]. by apply IH.
Qed.

Lemma no_start_of_contains (sep m x : string) (c : ascii) :
  has_char c sep = false → contains m sep = false →
  no_start sep m (String c x) = true.
Proof.
  intros Hc. induction m as [|d m IH]; intros Hm; [done|].
  cbn [contains] in Hm. apply orb_false_iff in Hm as [Hp Hm].
  cbn [no_start]. rewrite (prefix_stop sep (String d m) x c Hc), Hp, (IH Hm). done.
Qed.

Lemma no_start_app (sep a b x : string) :
  no_start sep (a +:+ b) x = no_start sep a (b +:+ x) && no_start sep b x.
Proof.
  induction a as [|c a IH]; [done|].
  cbn [no_start String.append]. rewrite IH, andb_assoc.
  change (String c (a +:+ b) +:+ x) with (String c ((a +:+ b) +:+ x)).
  by rewrite <- string_app_assoc.
Qed.

(** A separator of one character: [a] must not contain it. *)
Lemma no_start_char (c : ascii) (a x : string) :
  no_start (String c "") a x = negb (has_char c a).
Proof.
  induction a as [|d a IH]; [done|].
  cbn [no_start has_char]. rewrite IH, negb_orb. f_equal.
  simpl. destruct (ascii_dec c d), (Ascii.eqb_spec c d); subst; try done.
  by destruct (a +:+ x).
Qed.

Lemma split_go_skip (sep t b cur : string) :
  split_go sep (t +:+ b) (String.length t) cur = split_go sep b 0 cur.
Proof. induction t; [done|]. simpl. done. Qed.

Lemma split_go_app (sep a b cur : string) :
  sep ≠ "" → no_start sep a (sep +:+ b) = true →
  split_go sep (a +:+ sep +:+ b) 0 cur = (cur +:+ a) :: split_go sep b 0 "".
Proof.
  intros Hsep. revert cur. induction a as [|c a IH]; intros cur Ha.
  - rewrite string_app_nil_r. destruct sep as [|d t]; [done|].
    change ("" +:+ String d t +:+ b) with (String d (t +:+ b)).
    cbn [split_go]. change (String d (t +:+ b)) with (String d t +:+ b).
    rewrite prefix_app. f_equal. cbn [String.length]. rewrite Nat.sub_succ, Nat.sub_0_r.
    apply split_go_skip.
  - cbn [no_start] in Ha. apply andb_true_iff in Ha as [Hp Ha].
    apply negb_true_iff in Hp.
    change (String c a +:+ sep +:+ b) with (String c (a +:+ sep +:+ b)).
    cbn [split_go]. change (String c (a +:+ sep +:+ b)) with (String c a +:+ sep +:+ b).
    rewrite Hp, (IH _ Ha), <- string_app_assoc. done.
Qed.

(** Splitting around the first separator. *)
Lemma split_app (sep a b : string) :
  sep ≠ "" → no_start sep a (sep +:+ b) = true →
  split (a +:+ sep +:+ b) sep = a :: split b sep.
Proof. intros. unfold split. by rewrite split_go_app. Qed.

Lemma split_go_none (sep s cur : string) :
  sep ≠ "" → contains s sep = false → split_go sep s 0 cur = [cur +:+ s].
Proof.
  intros Hsep. revert cur. induction s as [|c s IH]; intros cur H.
  - simpl. by rewrite string_app_nil_r.
  - cbn [contains] in H. apply orb_false_iff in H as [Hp Hs].
    cbn [split_go]. rewrite Hp, (IH _ Hs), <- string_app_assoc. done.
Qed.

Lemma split_none (sep s : string) :
  sep ≠ "" → contains s sep = false → split s sep = [s].
Proof. intros. unfold split. by rewrite split_go_none. Qed.

Lemma contains_char (c : ascii) (s : string) :
  contains s (String c "") = has_char c s.
Proof.
  induction s as [|d s IH]; [done|].
  cbn [contains has_char]. rewrite IH. f_equal. simpl.
  destruct (ascii_dec c d), (Ascii.eqb_spec c d); subst; try done.
  by destruct s.
Qed.

(** The pieces of a split at one character. *)
Lemma split_char_cons (c : ascii) (a b : string) :
  has_char c a = false →
  split (a +:+ String c b) (String c "") = a :: split b (String c "").
Proof.
  intros H. change (String c b) with (String c "" +:+ b).
  apply split_app; [done|]. rewrite no_start_char, H. done.
Qed.

Lemma split_char_none (c : ascii) (a : string) :
  has_char c a = false → split a (String c "") = [a].
Proof. intros. apply split_none; [done|]. by rewrite contains_char. Qed.

Lemma split_go_length (sep s cur : string) (k : nat) :
  sep ≠ "" → contains s sep = true → k = 0 → 2 ≤ length (split_go sep s k cur).
Proof.
  intros Hsep. revert cur k. induction s as [|c s IH]; intros cur k H ->.
  - cbn [contains] in H. destruct sep; [done|]. discriminate.
  - cbn [contains] in H. cbn [split_go].
    destruct (String.prefix sep (String c s)) eqn:Hp.
    + simpl. cut (1 ≤ length (split_go sep s (String.length sep - 1) "")); [lia|].
      clear. generalize (String.length sep - 1), "". induction s as [|d s IHs]; intros n cur; [simpl; lia|].
      cbn [split_go]. destruct n; [|apply IHs].
      case_match; [simpl; lia|apply IHs].
    + simpl in H. by apply IH.
Qed.

Lemma split_contains (s sep : string) :
  sep ≠ "" → contains s sep = true → 2 ≤ length (split s sep).
Proof. intros. unfold split. by apply split_go_length. Qed.

(** ** Decimal round trip *)
Lemma digit_val_char (d : Z) : (0 ≤ d < 10)%Z → digit_val (digit_char d) = Some d.
Proof.
  intros H. unfold digit_val, digit_char.
  rewrite nat_ascii_embedding by lia.
  replace (Z.of_nat (48 + Z.to_nat d)) with (48 + d)%Z by lia.
  destruct (Z.leb_spec 48 (48 + d)), (Z.leb_spec (48 + d) 57); try lia.
  simpl. f_equal. lia.
Qed.

Lemma digit_char_not (d : Z) (c : ascii) :
  (0 ≤ d < 10)%Z → digit_val c = None → Ascii.eqb c (digit_char d) = false.
Proof.
  intros H Hc. destruct (Ascii.eqb_spec c (digit_char d)) as [->|]; [|done].
  by rewrite digit_val_char in Hc.
Qed.

Lemma format_go_digits (fuel : nat) (n : Z) (acc : string) (c : ascii) :
  (0 ≤ n)%Z → digit_val c = None → has_char c acc = false →
  has_char c (format_go fuel n acc) = false.
Proof.
  revert n acc. induction fuel as [|f IH]; intros n acc Hn Hc Hacc; [done|].
  assert (has_char c (String (digit_char (n mod 10)) acc) = false).
  { cbn [has_char]. rewrite digit_char_not, Hacc; [done| |done].
    apply Z.mod_pos_bound. lia. }
  cbn [format_go]. case_match; [done|]. apply IH; [|done|done].
  apply Z.div_pos; lia.
Qed.

Lemma format_uint_digits (n : Z) (c : ascii) :
  (0 ≤ n)%Z → digit_val c = None → has_char c (format_uint n) = false.
Proof. intros. by apply format_go_digits. Qed.

Lemma parse_uint_loop_step (c : ascii) (s : string) (a d : Z) :
  digit_val c = Some d → (0 ≤ a)%Z → (0 ≤ d)%Z → (a * 10 + d ≤ max_uint64)%Z →
  parse_uint_loop (String c s) a = parse_uint_loop s (a * 10 + d).
Proof.
  intros Hd Ha Hd0 Hm. cbn [parse_uint_loop]. rewrite Hd. unfold max_uint64 in *.
  replace (a * 10 + d)%Z with (d + a * 10)%Z in * by lia.
  destruct (Z.leb_spec ((2 ^ 64 - 1) / 10 + 1) a) as [Hl|Hl].
  { pose proof (Z.div_mod (2 ^ 64 - 1) 10 ltac:(lia)).
    pose proof (Z.mod_pos_bound (2 ^ 64 - 1) 10 ltac:(lia)). lia. }
  destruct (Z.ltb_spec (2 ^ 64 - 1) (d + a * 10)); [lia|]. done.
Qed.

Lemma parse_format_go (fuel : nat) (n : Z) (acc : string) :
  (0 ≤ n < 2 ^ Z.of_nat fuel)%Z → (n ≤ max_uint64)%Z → fuel ≠ 0 →
  parse_uint_loop (format_go fuel n acc) 0 = parse_uint_loop acc n.
Proof.
  revert n acc. induction fuel as [|f IH]; intros n acc Hn Hm Hf; [done|].
  pose proof (Z.div_mod n 10 ltac:(lia)) as Hdm.
  pose proof (Z.mod_pos_bound n 10 ltac:(lia)) as Hmod.
  pose proof (Z.div_pos n 10 ltac:(lia) ltac:(lia)) as Hdiv.
  cbn [format_go]. destruct (Z.ltb_spec n 10) as [Hlt|Hge].
  - rewrite (Z.mod_small n 10) by lia.
    rewrite (parse_uint_loop_step _ acc 0 n); [f_equal; lia| | | |]; try lia.
    apply digit_val_char. lia.
  - rewrite Nat2Z.inj_succ, Z.pow_succ_r in Hn by lia.
    destruct f as [|f]; [simpl in Hn; lia|].
    rewrite IH; [|split; [done|]| |done].
    + rewrite (parse_uint_loop_step _ acc (n / 10) (n mod 10)); [f_equal; lia| | | |]; try lia.
      by apply digit_val_char.
    + apply Z.div_lt_upper_bound; lia.
    + apply Z.div_le_upper_bound; lia.
Qed.

Lemma format_go_cons (fuel : nat) (n : Z) (acc : string) :
  (0 ≤ n)%Z → fuel ≠ 0 →
  ∃ c s, format_go fuel n acc = String c s ∧ is_Some (digit_val c).
Proof.
  revert n acc. induction fuel as [|f IH]; intros n acc Hn Hf; [done|].
  pose proof (Z.mod_pos_bound n 10 ltac:(lia)) as Hmod.
  cbn [format_go]. destruct (Z.ltb_spec n 10).
  - eexists _, _. split; [done|]. rewrite digit_val_char; eauto.
  - destruct f; [|apply IH; [apply Z.div_pos; lia|done]].
    eexists _, _. split; [done|]. rewrite digit_val_char; eauto.
Qed.

Lemma format_uint_cons (n : Z) :
  (0 ≤ n)%Z → ∃ c s, format_uint n = String c s ∧ is_Some (digit_val c).
Proof. intros. by apply format_go_cons. Qed.

Lemma parse_uint64_format (n : Z) :
  (0 ≤ n ≤ max_uint64)%Z → parse_uint64 (format_uint n) = (n, None).
Proof.
  intros Hn. unfold parse_uint64.
  destruct (format_uint_cons n) as (c & s & E & _); [lia|]. rewrite E, <- E.
  unfold format_uint. rewrite parse_format_go; [done| |lia|done].
  split; [lia|]. rewrite Nat2Z.inj_succ, Z2Nat.id by apply Z.log2_nonneg.
  destruct (decide (n = 0%Z)) as [->|]; [done|]. apply Z.log2_spec. lia.
Qed.

Lemma digit_val_sign (c : ascii) :
  is_Some (digit_val c) → Ascii.eqb c "+" = false ∧ Ascii.eqb c "-" = false.
Proof.
  intros [d Hd]. split.
  - destruct (Ascii.eqb_spec c "+") as [->|]; [discriminate|done].
  - destruct (Ascii.eqb_spec c "-") as [->|]; [discriminate|done].
Qed.

(** [strconv.ParseInt] inverts [%d] on the whole range of [int64]. *)
Lemma parse_int64_format (n : Z) :
  (- 2 ^ 63 ≤ n < 2 ^ 63)%Z → parse_int64 (format_int n) = (n, None).
Proof.
  intros Hn. unfold format_int. destruct (Z.ltb_spec n 0) as [Hneg|Hpos].
  - change ("-" +:+ format_uint (- n)) with (String "-" (format_uint (- n))).
    unfold parse_int64. simpl (Ascii.eqb "-" _). cbn [orb negb andb].
    rewrite parse_uint64_format by (unfold max_uint64; lia).
    destruct (Z.ltb_spec (2 ^ 63) (- n)); [lia|]. f_equal. lia.
  - destruct (format_uint_cons n) as (c & s & E & Hc); [lia|].
    destruct (digit_val_sign c Hc) as [Hp Hm].
    unfold parse_int64. rewrite E, Hp, Hm, <- E. cbn [orb negb andb].
    rewrite parse_uint64_format by (unfold max_uint64; lia).
    destruct (Z.leb_spec (2 ^ 63) n); [lia|]. done.
Qed.

Lemma parse_bool_format (b : bool) : parse_bool (format_bool b) = b.
Proof. by destruct b. Qed.

Lemma has_char_app (c : ascii) (a b : string) :
  has_char c (a +:+ b) = has_char c a || has_char c b.
Proof. induction a as [|d a IH]; [done|]. cbn. by rewrite IH, orb_assoc. Qed.

(** Occurrences of [sep] on either side of a character outside it. *)
Lemma contains_stop (sep m x : string) (c : ascii) :
  sep ≠ "" → has_char c sep = false →
  contains (m +:+ String c x) sep = contains m sep || contains x sep.
Proof.
  intros Hsep Hc. induction m as [|d m IH].
  - destruct sep as [|e sep]; [done|].
    change ("" +:+ String c x) with (String c x). cbn [contains].
    by rewrite (prefix_stop (String e sep) "" x c Hc : String.prefix _ (String c x) = _).
  - change (String d m +:+ String c x) with (String d (m +:+ String c x)).
    cbn [contains]. rewrite IH.
    change (String d (m +:+ String c x)) with (String d m +:+ String c x).
    by rewrite prefix_stop, orb_assoc.
Qed.
