(* ===== verification/DepInfo.v ===== *)
(** * DepInfo: dependency information carried in response messages

    The endorser writes what it knows about a transaction's dependencies into
    the text of the chaincode response ([endorser_message], the [Sprintf] at
    the end of [ProcessProposalSuccessfullyOrError], and [leader_message], the
    one of [processTransaction]); the committer reads it back with
    [ParseDependencyInfo]. This file models both texts and the parser, and
    proves that the parser is total, inverts the two texts, and can be misled
    by a chaincode that writes the marker into its own message. *)

From S2P Require Import Prelude GoText.
From Stdlib Require Import Ascii.

Definition marker : string := "DependencyInfo:".

(** The map filled by the loop over the comma-separated items. *)
Definition infoMap (info : string) : gmap string string :=
  foldl (λ m item,
    match split item "=" with
    | [k; v] => <[k := v]> m
    | _ => m
    end) ∅ (split info ",").

(** The three fields read back from the map; [strconv] errors are dropped. *)
Definition read_info (m : gmap string string) : bool * string * Z :=
  let hasDependency :=
    match m !! "HasDependency" with Some val => parse_bool val | None => false end in
  let dependentTxID :=
    match m !! "DependentTxID" with Some val => val | None => "" end in
  let expiryTime :=
    match m !! "ExpiryTime" with Some val => (parse_int64 val).1 | None => 0%Z end in
  (hasDependency, dependentTxID, expiryTime).

Definition ParseDependencyInfo (responseMsg : string) : outcome (bool * string * Z) :=
  if negb (contains responseMsg marker) then Ok (false, "", 0%Z)
  else
    match split responseMsg marker with
    | _ :: info :: _ => Ok (read_info (infoMap info))
    | _ => Err "invalid dependency info format"
    end.

(** [res.Message] as the sharded endorsement path leaves it. *)
Definition endorser_message (msg : string) (hasDependency : bool) (dependentTxID : string)
    (commitIndex term : Z) : string :=
  msg +:+ "; DependencyInfo:HasDependency=" +:+ format_bool hasDependency +:+
  ",DependentTxID=" +:+ dependentTxID +:+
  ",ShardCommitIndex=" +:+ format_uint commitIndex +:+
  ",ProofTerm=" +:+ format_uint term.

(** [tx.Response.Message] as the leader endorser's [processTransaction] leaves it. *)
Definition leader_message (hasDependency : bool) (dependentTxID : string) (expiry : Z) : string :=
  "DependencyInfo:HasDependency=" +:+ format_bool hasDependency +:+
  ",DependentTxID=" +:+ dependentTxID +:+
  ",ExpiryTime=" +:+ format_int expiry.

(** A transaction id as Fabric computes them: hexadecimal, so free of the
    characters the parser splits on. *)
Definition clean_id (t : string) : bool :=
  negb (has_char "," t) && negb (has_char "=" t) && negb (contains t marker).

Example parse_doc_example :
  ParseDependencyInfo "DependencyInfo:HasDependency=true,DependentTxID=tx123,ExpiryTime=1234567"
  = Ok (true, "tx123", 1234567%Z).
Proof. reflexivity. Qed.

(** ** Lemmas *)
Fixpoint join (sep : string) (items : list string) : string :=
  match items with
  | [] => ""
  | [i] => i
  | i :: rest => i +:+ sep +:+ join sep rest
  end.

Lemma split_join (c : ascii) (items : list string) :
  items ≠ [] → Forall (λ i, has_char c i = false) items →
  split (join (String c "") items) (String c "") = items.
Proof.
  induction items as [|i items IH]; intros Hne Hall; [done|].
  inversion Hall as [|? ? Hi Hrest]; subst. destruct items as [|j items].
  - by apply split_char_none.
  - change (join (String c "") (i :: j :: items))
      with (i +:+ String c (join (String c "") (j :: items))).
    rewrite split_char_cons by done. f_equal. by apply IH.
Qed.

(** One item of the form [k=v]. *)
Lemma split_kv (k v : string) :
  has_char "=" k = false → has_char "=" v = false →
  split (k +:+ "=" +:+ v) "=" = [k; v].
Proof.
  intros Hk Hv. change ("=" +:+ v) with (String "=" v).
  rewrite split_char_cons by done. by rewrite split_char_none.
Qed.

Lemma parse_at (pre rest info : string) (tl : list string) :
  no_start marker pre (marker +:+ rest) = true →
  split rest marker = info :: tl →
  ParseDependencyInfo (pre +:+ marker +:+ rest) = Ok (read_info (infoMap info)).
Proof.
  intros Hpre Hrest. unfold ParseDependencyInfo.
  rewrite contains_app, split_app by done. by rewrite Hrest.
Qed.

Lemma clean_id_spec (t : string) :
  clean_id t = true →
  has_char "," t = false ∧ has_char "=" t = false ∧ contains t marker = false.
Proof.
  unfold clean_id. rewrite !andb_true_iff, !negb_true_iff. tauto.
Qed.

Lemma format_bool_chars (b : bool) :
  has_char "," (format_bool b) = false ∧ has_char "=" (format_bool b) = false ∧
  contains (format_bool b) marker = false.
Proof. by destruct b. Qed.

Lemma contains_no_char (sep s : string) (c : ascii) :
  has_char c sep = true → has_char c s = false → contains s sep = false.
Proof.
  intros Hsep Hs. destruct (contains s sep) eqn:E; [|done]. exfalso.
  induction s as [|d s IH].
  - destruct sep; [done|]. discriminate.
  - cbn [contains] in E. apply orb_true_iff in E as [E|E].
    + clear IH. revert sep E Hsep Hs. generalize (String d s). clear.
      intros s. induction s as [|d s IH]; intros [|e sep] E Hsep Hs; try done.
      simpl in E. destruct (ascii_dec e d) as [->|]; [|done].
      cbn [has_char] in *. apply orb_false_iff in Hs as [Hd Hs].
      rewrite Hd in Hsep. by apply (IH sep).
    + cbn [has_char] in Hs. apply orb_false_iff in Hs as [_ Hs]. by apply IH.
Qed.

Lemma format_int_chars (n : Z) (c : ascii) :
  digit_val c = None → c ≠ "-"%char → has_char c (format_int n) = false.
Proof.
  intros Hc Hm. unfold format_int. destruct (Z.ltb_spec n 0).
  - change ("-" +:+ format_uint (- n)) with (String "-" (format_uint (- n))).
    cbn [has_char]. rewrite format_uint_digits by (done || lia).
    by destruct (Ascii.eqb_spec c "-").
  - by apply format_uint_digits.
Qed.

Definition kv (p : string * string) : string := p.1 +:+ "=" +:+ p.2.
Definition clean_kv (p : string * string) : bool := clean_id p.1 && clean_id p.2.

Lemma clean_kv_spec (p : string * string) :
  clean_kv p = true →
  has_char "," (kv p) = false ∧ contains (kv p) marker = false ∧
  split (kv p) "=" = [p.1; p.2].
Proof.
  unfold clean_kv, kv. rewrite andb_true_iff.
  intros [(Hk1 & Hk2 & Hk3)%clean_id_spec (Hv1 & Hv2 & Hv3)%clean_id_spec].
  change ("=" +:+ p.2) with (String "=" p.2). split_and!.
  - rewrite has_char_app, Hk1. cbn [has_char]. by rewrite Hv1.
  - rewrite contains_stop by done. by rewrite Hk3, Hv3.
  - by apply split_kv.
Qed.

Lemma contains_join (items : list string) :
  Forall (λ i, contains i marker = false) items → contains (join "," items) marker = false.
Proof.
  induction 1 as [|i items Hi Hrest IH]; [done|]. destruct items as [|j items]; [done|].
  change (join "," (i :: j :: items)) with (i +:+ String "," (join "," (j :: items))).
  rewrite contains_stop by done. by rewrite Hi.
Qed.

Lemma infoMap_join (items : list string) :
  items ≠ [] → Forall (λ i, has_char "," i = false) items →
  infoMap (join "," items) =
  foldl (λ m item, match split item "=" with [k; v] => <[k := v]> m | _ => m end) ∅ items.
Proof. intros. unfold infoMap. by rewrite split_join. Qed.

Lemma foldl_kv (kvs : list (string * string)) (m : gmap string string) :
  Forall (λ p, clean_kv p = true) kvs →
  foldl (λ m item, match split item "=" with [k; v] => <[k := v]> m | _ => m end) m (kv <$> kvs)
  = foldl (λ m p, <[p.1 := p.2]> m) m kvs.
Proof.
  revert m. induction kvs as [|p kvs IH]; intros m H; [done|].
  inversion H as [|? ? Hp Hr]; subst. destruct (clean_kv_spec p Hp) as (_ & _ & E).
  rewrite fmap_cons. cbn [foldl]. rewrite E. by apply IH.
Qed.

Lemma Forall_kv (P : string → Prop) (kvs : list (string * string)) :
  (∀ p, clean_kv p = true → P (kv p)) →
  Forall (λ p, clean_kv p = true) kvs → Forall P (kv <$> kvs).
Proof. intros HP H. apply Forall_fmap. eapply Forall_impl; [done|]. intros p Hp. by apply HP. Qed.

(** The parser reads a well-formed list of items after the marker. *)
Lemma parse_items (pre : string) (kvs : list (string * string)) :
  kvs ≠ [] → Forall (λ p, clean_kv p = true) kvs →
  no_start marker pre (marker +:+ join "," (kv <$> kvs)) = true →
  ParseDependencyInfo (pre +:+ marker +:+ join "," (kv <$> kvs))
  = Ok (read_info (foldl (λ m p, <[p.1 := p.2]> m) ∅ kvs)).
Proof.
  intros Hne Hall Hpre.
  rewrite (parse_at _ _ (join "," (kv <$> kvs)) []); [|done|].
  - rewrite infoMap_join, foldl_kv; [done..| |].
    + by destruct kvs.
    + eapply Forall_kv; [|done]. intros p Hp. by destruct (clean_kv_spec p Hp) as (? & ? & ?).
  - apply split_none; [done|]. apply contains_join.
    eapply Forall_kv; [|done]. intros p Hp. by destruct (clean_kv_spec p Hp) as (? & ? & ?).
Qed.

Lemma clean_id_digits (n : Z) : (0 ≤ n)%Z → clean_id (format_uint n) = true.
Proof.
  intros Hn. unfold clean_id.
  rewrite !format_uint_digits by done.
  rewrite (contains_no_char marker _ ":"); [done|done|]. by apply format_uint_digits.
Qed.

Lemma clean_id_int (n : Z) : clean_id (format_int n) = true.
Proof.
  unfold clean_id. rewrite !format_int_chars by done.
  rewrite (contains_no_char marker _ ":"); [done|done|]. by apply format_int_chars.
Qed.

Lemma clean_id_bool (b : bool) : clean_id (format_bool b) = true.
Proof. by destruct b. Qed.

(** ** Properties *)

(** C10: [ParseDependencyInfo] never returns its error: whenever the marker is
    present [strings.Split] yields at least two parts, so the branch that
    reports an invalid format is dead. *)
Theorem ParseDependencyInfo_total (responseMsg : string) :
  ∃ r, ParseDependencyInfo responseMsg = Ok r.
Proof.
  unfold ParseDependencyInfo. destruct (contains responseMsg marker) eqn:E; [|by eexists].
  pose proof (split_contains responseMsg marker ltac:(done) E) as Hlen.
  destruct (split responseMsg marker) as [|a [|info tl]]; simpl in Hlen; [lia|lia|].
  by eexists.
Qed.

(** The committer reads back exactly what the leader endorser wrote: the
    dependency flag, the id of the transaction depended on and the expiry time. *)
Theorem leader_message_roundtrip (hasDependency : bool) (dependentTxID : string) (expiry : Z) :
  clean_id dependentTxID = true → (- 2 ^ 63 ≤ expiry < 2 ^ 63)%Z →
  ParseDependencyInfo (leader_message hasDependency dependentTxID expiry)
  = Ok (hasDependency, dependentTxID, expiry).
Proof.
  intros Hid Hexp.
  set (kvs := [("HasDependency", format_bool hasDependency);
               ("DependentTxID", dependentTxID); ("ExpiryTime", format_int expiry)]).
  assert (leader_message hasDependency dependentTxID expiry
          = "" +:+ marker +:+ join "," (kv <$> kvs)) as ->.
  { unfold leader_message, kvs. cbn. unfold kv. cbn. rewrite <- !string_app_assoc. done. }
  rewrite parse_items; [|done| |done].
  - unfold kvs, read_info. cbn [foldl fst snd]. simplify_map_eq.
    by rewrite parse_bool_format, parse_int64_format.
  - repeat constructor; unfold clean_kv; cbn [fst snd];
      rewrite ?clean_id_bool, ?clean_id_int, ?Hid; done.
Qed.

Lemma leader_message_roundtrip_witness :
  ParseDependencyInfo (leader_message true "9a3f" 1700000000) = Ok (true, "9a3f", 1700000000%Z).
Proof. apply (leader_message_roundtrip true "9a3f" 1700000000); [reflexivity | lia]. Defined.

(** The items the sharded endorsement path writes. *)
Definition endorser_kvs (hasDependency : bool) (dependentTxID : string) (commitIndex term : Z) :
    list (string * string) :=
  [("HasDependency", format_bool hasDependency); ("DependentTxID", dependentTxID);
   ("ShardCommitIndex", format_uint commitIndex); ("ProofTerm", format_uint term)].

Lemma endorser_message_items (msg : string) (h : bool) (d : string) (i t : Z) :
  endorser_message msg h d i t
  = (msg +:+ "; ") +:+ marker +:+ join "," (kv <$> endorser_kvs h d i t).
Proof.
  unfold endorser_message, endorser_kvs. cbn. unfold kv. cbn.
  rewrite <- !string_app_assoc. done.
Qed.

Lemma endorser_kvs_clean (h : bool) (d : string) (i t : Z) :
  clean_id d = true → (0 ≤ i)%Z → (0 ≤ t)%Z →
  Forall (λ p, clean_kv p = true) (endorser_kvs h d i t).
Proof.
  intros. repeat constructor; unfold clean_kv; cbn [fst snd];
    rewrite ?clean_id_bool, ?clean_id_digits; done.
Qed.

Lemma no_start_semicolon (msg rest : string) :
  contains msg marker = false → no_start marker (msg +:+ "; ") (marker +:+ rest) = true.
Proof.
  intros Hmsg. rewrite no_start_app. apply andb_true_iff. split.
  - by apply no_start_of_contains.
  - done.
Qed.

(** The committer reads back the flag and the transaction id the sharded
    endorsement path wrote, and an expiry of 0 (that path writes none), for
    every chaincode message that does not itself contain the marker. *)
Theorem endorser_message_roundtrip (msg : string) (hasDependency : bool)
    (dependentTxID : string) (commitIndex term : Z) :
  contains msg marker = false → clean_id dependentTxID = true →
  (0 ≤ commitIndex)%Z → (0 ≤ term)%Z →
  ParseDependencyInfo (endorser_message msg hasDependency dependentTxID commitIndex term)
  = Ok (hasDependency, dependentTxID, 0%Z).
Proof.
  intros Hmsg Hid Hi Ht. rewrite endorser_message_items.
  rewrite parse_items; [|done|by apply endorser_kvs_clean|by apply no_start_semicolon].
  unfold endorser_kvs, read_info. cbn [foldl fst snd]. simplify_map_eq.
  by rewrite parse_bool_format.
Qed.

Lemma endorser_message_roundtrip_witness :
  ParseDependencyInfo (endorser_message "OK" true "" 7 2) = Ok (true, "", 0%Z).
Proof.
  apply (endorser_message_roundtrip "OK" true "" 7 2); [reflexivity | reflexivity | lia | lia].
Defined.

(** The response message of a chaincode that announces a dependency of its own. *)
Definition forged_message (t : string) : string :=
  marker +:+ "HasDependency=true,DependentTxID=" +:+ t +:+ ",".

(** A chaincode decides what the committer sees: with the marker in its
    response message, its own flag and transaction id are read and the ones
    the endorser appended are ignored, whatever they are. *)
Theorem forged_dependency_wins (t : string) (hasDependency : bool) (dependentTxID : string)
    (commitIndex term : Z) :
  clean_id t = true →
  ParseDependencyInfo (endorser_message (forged_message t) hasDependency dependentTxID commitIndex term)
  = Ok (true, t, 0%Z).
Proof.
  intros Ht. destruct (clean_id_spec t Ht) as (Hc & He & Hm).
  set (items := [kv ("HasDependency", "true"); kv ("DependentTxID", t); "; "]).
  rewrite endorser_message_items. set (own := join "," (kv <$> _)).
  assert ((forged_message t +:+ "; ") +:+ marker +:+ own
          = "" +:+ marker +:+ (join "," items +:+ marker +:+ own)) as ->.
  { unfold forged_message, items. cbn. unfold kv. cbn. rewrite <- !string_app_assoc. done. }
  assert (Hkv : clean_kv ("DependentTxID", t) = true) by exact Ht.
  destruct (clean_kv_spec _ Hkv) as (Hkc & Hkm & Hks).
  rewrite (parse_at _ _ (join "," items) (split own marker)); [|done|].
  - rewrite infoMap_join; [|done|by repeat constructor].
    unfold items. cbn [foldl]. rewrite Hks. by vm_compute.
  - rewrite split_app; [done..|].
    replace (join "," items)
      with (("HasDependency=true,DependentTxID=" +:+ t +:+ ",") +:+ "; ").
    2:{ unfold items. cbn. unfold kv. cbn. rewrite <- !string_app_assoc. done. }
    apply no_start_semicolon.
    change ("HasDependency=true,DependentTxID=" +:+ t +:+ ",")
      with ("HasDependency=true,DependentTxID" +:+ String "=" (t +:+ String "," "")).
    rewrite !contains_stop by done. by rewrite Hm.
Qed.

Lemma forged_dependency_wins_witness :
  ParseDependencyInfo (endorser_message (forged_message "dead") false "beef" 1 1)
  = Ok (true, "dead", 0%Z).
Proof. apply (forged_dependency_wins "dead" false "beef" 1 1). reflexivity. Defined.
