(* ===== verification/TxDag.v ===== *)
(** * TxDag: the dependency graph of a block (core/committer/committer_impl.go)

    [TransactionDAG] is the committer's graph with its maps; every method of
    the Go type is a definition of the same name. The mutex only serialises
    the methods, so each is one state transformer. Loops over Go maps take the
    order of the visit as an argument ([ords k] is the order of the [k]-th loop
    over [dag.Nodes]); the theorems hold for every order.

    [Depth] is the reference notion: the length of the longest dependency
    chain below a transaction, defined when every chain ends inside the block.
    [CalculateLevels] is proved to terminate, to compute [Depth], to give
    level 0 to the transactions that have none, and so not to depend on the
    order in which Go visits its maps. *)

From S2P Require Import Prelude.

Record TransactionDependency := mkTransactionDependency {
  TxID : string;
  DependentTxIDs : list string;
  HasDependency : bool
}.

Record TransactionDAG := mkTransactionDAG {
  Nodes : gmap string TransactionDependency;
  Dependencies : gmap string (list string);
  Levels : gmap string Z;
  ValidationResults : gmap string bool;
  TxIndices : gmap string nat
}.

Definition NewTransactionDAG : TransactionDAG :=
  mkTransactionDAG ∅ ∅ ∅ ∅ ∅.

Definition set_Levels (dag : TransactionDAG) (lv : gmap string Z) : TransactionDAG :=
  mkTransactionDAG (Nodes dag) (Dependencies dag) lv (ValidationResults dag) (TxIndices dag).

Definition AddTransaction (dag : TransactionDAG) (txID : string) (txIndex : nat)
    (hasDependency : bool) (dependentTxID : string) : TransactionDAG :=
  let indices := <[txID := txIndex]> (TxIndices dag) in
  let nodes :=
    match Nodes dag !! txID with
    | Some _ => Nodes dag
    | None => <[txID := mkTransactionDependency txID [] hasDependency]> (Nodes dag)
    end in
  if hasDependency && negb (bool_decide (dependentTxID = "")) then
    let nodes' :=
      alter (λ n, mkTransactionDependency (TxID n) (DependentTxIDs n ++ [dependentTxID])
                    (HasDependency n)) txID nodes in
    let deps :=
      match Dependencies dag !! dependentTxID with
      | Some _ => Dependencies dag
      | None => <[dependentTxID := []]> (Dependencies dag)
      end in
    let deps' := alter (λ l, l ++ [txID]) dependentTxID deps in
    mkTransactionDAG nodes' deps' (Levels dag) (ValidationResults dag) indices
  else
    mkTransactionDAG nodes (Dependencies dag) (Levels dag) (ValidationResults dag) indices.

(** ** CalculateLevels *)

(** The condition of the first pass. *)
Definition is_root (node : TransactionDependency) : bool :=
  negb (HasDependency node) || (length (DependentTxIDs node) =? 0)%nat.

Definition root_step (nodes : gmap string TransactionDependency)
    (lv : gmap string Z) (txID : string) : gmap string Z :=
  match nodes !! txID with
  | Some node => if is_root node then <[txID := 0%Z]> lv else lv
  | None => lv
  end.

(** The inner loop over the dependencies: [None] when it breaks because one
    has no level yet, otherwise the final [maxDepLevel]. *)
Fixpoint dep_scan (lv : gmap string Z) (deps : list string) (maxDepLevel : Z) : option Z :=
  match deps with
  | [] => Some maxDepLevel
  | depTxID :: rest =>
      match lv !! depTxID with
      | Some level => dep_scan lv rest (if (maxDepLevel <? level)%Z then level else maxDepLevel)
      | None => None
      end
  end.

Definition pass_step (nodes : gmap string TransactionDependency)
    (st : gmap string Z * bool) (txID : string) : gmap string Z * bool :=
  let '(lv, changed) := st in
  match lv !! txID with
  | Some _ => (lv, changed)
  | None =>
      match nodes !! txID with
      | Some node =>
          match dep_scan lv (DependentTxIDs node) (-1) with
          | Some maxDepLevel => (<[txID := (maxDepLevel + 1)%Z]> lv, true)
          | None => (lv, changed)
          end
      | None => (lv, changed)
      end
  end.

(** [for changed { ... }]; [k] counts the loops over [dag.Nodes] done so far. *)
Fixpoint level_loop (nodes : gmap string TransactionDependency) (ords : nat → list string)
    (fuel k : nat) (lv : gmap string Z) : option (gmap string Z * nat) :=
  match fuel with
  | O => None
  | S f =>
      let '(lv', changed) := foldl (pass_step nodes) (lv, false) (ords k) in
      if changed then level_loop nodes ords f (S k) lv' else Some (lv', S k)
  end.

Definition fill_step (lv : gmap string Z) (txID : string) : gmap string Z :=
  match lv !! txID with Some _ => lv | None => <[txID := 0%Z]> lv end.

(** A pass that changes something gives at least one more node a level, so one
    pass more than there are nodes is enough fuel. *)
Definition CalculateLevels (ords : nat → list string) (dag : TransactionDAG)
    : option TransactionDAG :=
  let nodes := Nodes dag in
  let lv0 := foldl (root_step nodes) ∅ (ords 0) in
  match level_loop nodes ords (S (size nodes)) 1 lv0 with
  | Some (lv, k) => Some (set_Levels dag (foldl fill_step lv (ords k)))
  | None => None
  end.

(** ** Queries and results *)
Definition level_map_step (dag : TransactionDAG) (m : gmap Z (list string)) (txID : string)
    : gmap Z (list string) :=
  match Levels dag !! txID with
  | Some level =>
      let m' := match m !! level with Some _ => m | None => <[level := []]> m end in
      alter (λ l, l ++ [txID]) level m'
  | None => m
  end.

(** [ord] is the order of the loop over [dag.Levels]. *)
Definition GetTransactionsByLevel (ord : list string) (dag : TransactionDAG)
    : gmap Z (list string) :=
  foldl (level_map_step dag) ∅ ord.

Definition SetValidationResult (dag : TransactionDAG) (txID : string) (isValid : bool)
    : TransactionDAG :=
  mkTransactionDAG (Nodes dag) (Dependencies dag) (Levels dag)
    (<[txID := isValid]> (ValidationResults dag)) (TxIndices dag).

Definition IsValid (dag : TransactionDAG) (txID : string) : bool :=
  match ValidationResults dag !! txID with Some result => result | None => false end.

Definition GetIndexByTxID (dag : TransactionDAG) (txID : string) : option nat :=
  TxIndices dag !! txID.

(** ** The reference: depth of a transaction in the graph *)
Definition max_level (l : list Z) : Z := foldr Z.max (-1)%Z l.

Inductive Depth (nodes : gmap string TransactionDependency) : string → Z → Prop :=
| Depth_root t node :
    nodes !! t = Some node → is_root node = true → Depth nodes t 0
| Depth_dep t node (f : string → Z) :
    nodes !! t = Some node → is_root node = false →
    (∀ d, d ∈ DependentTxIDs node → Depth nodes d (f d)) →
    Depth nodes t (max_level (f <$> DependentTxIDs node) + 1).

Example levels_chain :
  let d1 := AddTransaction NewTransactionDAG "a" 0 false "" in
  let d2 := AddTransaction d1 "b" 1 true "a" in
  let d3 := AddTransaction d2 "c" 2 true "b" in
  let d4 := AddTransaction d3 "d" 3 true "elsewhere" in
  (λ d, map_to_list (Levels d)) <$> CalculateLevels (λ _, ["d"; "c"; "b"; "a"]) d4
  = Some (map_to_list (list_to_map [("a", 0); ("b", 1); ("c", 2); ("d", 0)] : gmap string Z))%Z.
Proof. vm_compute. reflexivity. Qed.

(** ** Lemmas on [dep_scan] and [Depth] *)
Lemma dep_scan_Some (lv : gmap string Z) (deps : list string) (m : Z) (f : string → Z) :
  (∀ d, d ∈ deps → lv !! d = Some (f d)) →
  dep_scan lv deps m = Some (foldr Z.max m (f <$> deps)).
Proof.
  revert m. induction deps as [|d deps IH]; intros m H; [done|].
  cbn [dep_scan]. rewrite (H d) by left. rewrite IH by (intros; apply H; by right).
  f_equal. rewrite fmap_cons. cbn [foldr]. clear. generalize (f <$> deps) as l. intros l.
  replace (if (m <? f d)%Z then f d else m) with (Z.max m (f d))
    by (destruct (Z.ltb_spec m (f d)); lia).
  induction l as [|x l IHl]; simpl; lia.
Qed.

Lemma dep_scan_is_Some (lv : gmap string Z) (deps : list string) (m r : Z) :
  dep_scan lv deps m = Some r → ∀ d, d ∈ deps → is_Some (lv !! d).
Proof.
  revert m. induction deps as [|d deps IH]; intros m H x Hx; [by apply not_elem_of_nil in Hx|].
  cbn [dep_scan] in H. destruct (lv !! d) eqn:E; [|done].
  apply elem_of_cons in Hx as [->|Hx]; [by rewrite E|]. by eapply IH.
Qed.

Lemma max_level_ub (l : list Z) (x : Z) : x ∈ l → (x ≤ max_level l)%Z.
Proof.
  induction l as [|y l IH]; intros H; [by apply not_elem_of_nil in H|].
  cbn. fold (max_level l). apply elem_of_cons in H as [->|H]; [lia|]. specialize (IH H). lia.
Qed.

Lemma max_level_lb (l : list Z) : (-1 ≤ max_level l)%Z.
Proof. induction l as [|y l IH]; cbn; [lia|]. fold (max_level l). lia. Qed.

Section levels.
Context (nodes : gmap string TransactionDependency).

Lemma Depth_node t n : Depth nodes t n → is_Some (nodes !! t).
Proof. destruct 1; eauto. Qed.

Lemma Depth_nonneg t n : Depth nodes t n → (0 ≤ n)%Z.
Proof. destruct 1; [lia|]. pose proof (max_level_lb (f <$> DependentTxIDs node)). lia. Qed.

Lemma Depth_inj t a b : Depth nodes t a → Depth nodes t b → a = b.
Proof.
  intros Ha. revert b. induction Ha as [t node Hn Hr | t node f Hn Hr Hd IH]; intros b Hb.
  - inversion Hb; subst; [done|]. simplify_eq. congruence.
  - inversion Hb as [? node' Hn' Hr' | ? node' g Hn' Hr' Hd']; subst; simplify_eq; [congruence|].
    do 2 f_equal. apply list_fmap_ext. intros i d Hi.
    apply list_elem_of_lookup_2 in Hi. apply IH; auto.
Qed.

(** A transaction of positive depth lies above everything it depends on. *)
Lemma Depth_dep_lt t n node d :
  Depth nodes t n → (0 < n)%Z → nodes !! t = Some node → d ∈ DependentTxIDs node →
  ∃ l, Depth nodes d l ∧ (l < n)%Z.
Proof.
  intros Hd Hpos Hn Hin. inversion Hd as [|? node' f Hn' _ Hdeps]; subst; [lia|].
  simplify_eq. exists (f d). split; [by apply Hdeps|].
  enough (f d ≤ max_level (f <$> DependentTxIDs node))%Z by lia.
  apply max_level_ub, list_elem_of_fmap_2. done.
Qed.

Definition sound (lv : gmap string Z) : Prop := ∀ t l, lv !! t = Some l → Depth nodes t l.
Definition rooted (lv : gmap string Z) : Prop :=
  ∀ t node, nodes !! t = Some node → is_root node = true → is_Some (lv !! t).
Definition closed (lv : gmap string Z) (ks : list string) : Prop :=
  ∀ t node, t ∈ ks → nodes !! t = Some node → lv !! t = None →
    dep_scan lv (DependentTxIDs node) (-1) = None.

Lemma root_fold ks lv :
  sound lv → sound (foldl (root_step nodes) lv ks) ∧
  ∀ t, is_Some (lv !! t) ∨ (t ∈ ks ∧ ∃ node, nodes !! t = Some node ∧ is_root node = true) →
       is_Some (foldl (root_step nodes) lv ks !! t).
Proof.
  revert lv. induction ks as [|k ks IH]; intros lv Hs; cbn [foldl].
  { split; [done|]. intros t [|[H _]]; [done|by apply not_elem_of_nil in H]. }
  assert (Hstep : sound (root_step nodes lv k) ∧
    ∀ t, is_Some (lv !! t) ∨ (t = k ∧ ∃ node, nodes !! t = Some node ∧ is_root node = true) →
         is_Some (root_step nodes lv k !! t)).
  { unfold root_step. destruct (nodes !! k) as [node|] eqn:En.
    2:{ split; [done|]. intros t [?|(-> & ? & ? & ?)]; [done|congruence]. }
    destruct (is_root node) eqn:Er.
    2:{ split; [done|]. intros t [?|(-> & ? & ? & ?)]; [done|congruence]. }
    split.
    - intros t l. destruct (decide (t = k)) as [->|].
      + rewrite lookup_insert_eq. intros [= <-]. by eapply Depth_root.
      + rewrite lookup_insert_ne by done. apply Hs.
    - intros t Ht. destruct (decide (t = k)) as [->|]; [by rewrite lookup_insert_eq|].
      rewrite lookup_insert_ne by done. by destruct Ht as [|[? _]]. }
  destruct Hstep as [Hs' Hk]. destruct (IH _ Hs') as [Hs'' Hks]. split; [done|].
  intros t [Ht|[Hin Hr]]; apply Hks.
  - left. apply Hk. by left.
  - apply elem_of_cons in Hin as [->|Hin]; [left; apply Hk; by right|]. by right.
Qed.

(** What one node's turn in a pass does. *)
Lemma pass_step_inv lv c k lv' c' :
  sound lv → rooted lv → pass_step nodes (lv, c) k = (lv', c') →
  sound lv' ∧ rooted lv' ∧
  ((lv' = lv ∧ c' = c ∧ closed lv [k]) ∨ (c' = true ∧ size lv' = S (size lv))).
Proof.
  intros Hs Hr E. unfold pass_step in E.
  destruct (lv !! k) as [l|] eqn:Ek.
  { simplify_eq. split_and!; [done..|]. left. split_and!; [done..|].
    intros t node ->%list_elem_of_singleton. congruence. }
  destruct (nodes !! k) as [node|] eqn:En.
  2:{ simplify_eq. split_and!; [done..|]. left. split_and!; [done..|].
      intros t node ->%list_elem_of_singleton. congruence. }
  destruct (dep_scan lv (DependentTxIDs node) (-1)) as [m|] eqn:Ed.
  2:{ simplify_eq. split_and!; [done..|]. left. split_and!; [done..|].
      intros t node' ->%list_elem_of_singleton. congruence. }
  simplify_eq.
  set (f := λ d, default 0%Z (lv !! d)).
  assert (Hf : ∀ d, d ∈ DependentTxIDs node → lv !! d = Some (f d)).
  { intros d Hd. destruct (dep_scan_is_Some _ _ _ _ Ed d Hd) as [l Hl].
    unfold f. by rewrite Hl. }
  rewrite (dep_scan_Some _ _ _ f Hf) in Ed. injection Ed as <-.
  split_and!.
  - intros t l. destruct (decide (t = k)) as [->|].
    + rewrite lookup_insert_eq. intros [= <-]. eapply (Depth_dep nodes k node f); [done| |].
      * destruct (is_root node) eqn:Eroot; [|done].
        destruct (Hr k node En Eroot) as [? ?]. congruence.
      * intros d Hd. apply Hs, Hf, Hd.
    + rewrite lookup_insert_ne by done. apply Hs.
  - intros t node' Ht Hroot. destruct (decide (t = k)) as [->|];
      [by rewrite lookup_insert_eq|]. rewrite lookup_insert_ne by done. by eapply Hr.
  - right. split; [done|]. by apply map_size_insert_None.
Qed.

Lemma pass_inv ks lv c lv' c' :
  sound lv → rooted lv → foldl (pass_step nodes) (lv, c) ks = (lv', c') →
  sound lv' ∧ rooted lv' ∧
  ((lv' = lv ∧ c' = c ∧ closed lv ks) ∨ (c' = true ∧ size lv < size lv')).
Proof.
  revert lv c. induction ks as [|k ks IH]; intros lv c Hs Hr E; cbn [foldl] in E.
  { simplify_eq. split_and!; [done..|]. left. split_and!; [done..|].
    intros t node H. by apply not_elem_of_nil in H. }
  destruct (pass_step nodes (lv, c) k) as [lv1 c1] eqn:E1.
  destruct (pass_step_inv _ _ _ _ _ Hs Hr E1) as (Hs1 & Hr1 & H1).
  destruct (IH _ _ Hs1 Hr1 E) as (Hs2 & Hr2 & H2). split_and!; [done..|].
  destruct H1 as [(-> & -> & Hc1)|[-> Hsz1]], H2 as [(-> & -> & Hc2)|[-> Hsz2]].
  - left. split_and!; [done..|]. intros t node [->|Ht]%elem_of_cons ??.
    + by eapply Hc1; [by apply list_elem_of_singleton| |].
    + by eapply Hc2.
  - right. by split.
  - right. split; [done|lia].
  - right. split; [done|lia].
Qed.

Lemma sound_size lv : sound lv → size lv ≤ size nodes.
Proof.
  intros Hs. rewrite <- (size_dom lv), <- (size_dom nodes). apply subseteq_size.
  intros t [l Hl]%elem_of_dom. apply elem_of_dom. by eapply Depth_node, Hs.
Qed.

Lemma level_loop_inv ords fuel k lv :
  (∀ j, range_order nodes (ords j)) → sound lv → rooted lv → size nodes < fuel + size lv →
  ∃ lv' k', level_loop nodes ords fuel k lv = Some (lv', k') ∧
    sound lv' ∧ rooted lv' ∧ closed lv' (ords 0).
Proof.
  intros Hords. revert k lv. induction fuel as [|fuel IH]; intros k lv Hs Hr Hf.
  { pose proof (sound_size lv Hs). lia. }
  cbn [level_loop]. destruct (foldl (pass_step nodes) (lv, false) (ords k)) as [lv1 c1] eqn:E.
  destruct (pass_inv _ _ _ _ _ Hs Hr E) as (Hs1 & Hr1 & [(-> & -> & Hc)|[-> Hsz]]).
  - eexists _, _. split_and!; [done..|]. intros t node Ht. apply Hc.
    apply (range_order_elem nodes _ t (Hords k)). by apply (range_order_elem nodes _ t (Hords 0)).
  - apply IH; [done..|lia].
Qed.

(** Once a pass changes nothing, every transaction that has a depth has it as its level. *)
Lemma closed_complete lv ks t n :
  range_order nodes ks → sound lv → rooted lv → closed lv ks →
  Depth nodes t n → lv !! t = Some n.
Proof.
  intros Hks Hs Hr Hc Hd.
  enough (is_Some (lv !! t)) as [l Hl].
  { rewrite Hl. f_equal. eapply Depth_inj; [by apply Hs|done]. }
  induction Hd as [t node Hn Hroot | t node f Hn Hroot Hd IH]; [by eapply Hr|].
  destruct (lv !! t) eqn:E; [done|].
  assert (Hscan : dep_scan lv (DependentTxIDs node) (-1) = None).
  { eapply Hc; [|done|done]. eapply range_order_elem; eauto. }
  rewrite (dep_scan_Some lv _ (-1) f) in Hscan; [done|].
  intros d Hin. destruct (IH d Hin) as [l Hl]. rewrite Hl. f_equal.
  eapply Depth_inj; [by apply Hs|by apply Hd].
Qed.

Lemma fill_fold lv ks t :
  foldl fill_step lv ks !! t =
  match lv !! t with Some l => Some l | None => if decide (t ∈ ks) then Some 0%Z else None end.
Proof.
  revert lv. induction ks as [|k ks IH]; intros lv; cbn [foldl].
  { destruct (lv !! t); [done|]. by rewrite decide_False by apply not_elem_of_nil. }
  rewrite IH. unfold fill_step. destruct (lv !! k) eqn:Ek.
  - destruct (lv !! t) eqn:Et; [done|]. apply decide_ext. rewrite elem_of_cons.
    split; [by right|]. intros [->|]; [congruence|done].
  - destruct (decide (t = k)) as [->|].
    + rewrite lookup_insert_eq, Ek. rewrite decide_True; [done|]. by left.
    + rewrite lookup_insert_ne by done. destruct (lv !! t); [done|].
      apply decide_ext. rewrite elem_of_cons. naive_solver.
Qed.
End levels.

(** The outcome of [CalculateLevels], shared by the theorems below: it returns,
    and a level is the depth, or 0 where there is none. *)
Lemma CalculateLevels_result (dag : TransactionDAG) (ords : nat → list string) :
  (∀ k, range_order (Nodes dag) (ords k)) →
  ∃ lv, CalculateLevels ords dag = Some (set_Levels dag lv) ∧
    ∀ t n, lv !! t = Some n ↔
      is_Some (Nodes dag !! t) ∧
      (Depth (Nodes dag) t n ∨ (∀ m, ¬ Depth (Nodes dag) t m) ∧ n = 0%Z).
Proof.
  intros Hords. unfold CalculateLevels.
  destruct (root_fold (Nodes dag) (ords 0) ∅) as [Hs0 Hr0].
  { intros t l. by rewrite lookup_empty. }
  assert (Hroot : rooted (Nodes dag) (foldl (root_step (Nodes dag)) ∅ (ords 0))).
  { intros t node Hn Hr. apply Hr0. right. split; [|by eauto].
    eapply range_order_elem; eauto. }
  destruct (level_loop_inv (Nodes dag) ords (S (size (Nodes dag))) 1 _ Hords Hs0 Hroot)
    as (lv & k & -> & Hs & Hr & Hc); [lia|].
  eexists. split; [done|]. intros t n. rewrite fill_fold.
  pose proof (λ m, closed_complete (Nodes dag) lv (ords 0) t m (Hords 0) Hs Hr Hc) as Hcomp.
  destruct (lv !! t) as [l|] eqn:El.
  - split.
    + intros [= <-]. specialize (Hs t l El). split; [by eapply Depth_node|by left].
    + intros [_ [Hd|[Hno _]]]; [by f_equal; eapply Depth_inj; [apply Hs|]|].
      by destruct (Hno l); apply Hs.
  - case_decide as Hin.
    + split.
      * intros [= <-]. split; [by eapply range_order_elem in Hin|].
        right. split; [|done]. intros m Hm. by apply Hcomp in Hm.
      * intros [_ [Hd|[_ ->]]]; [by apply Hcomp in Hd|done].
    + split; [done|]. intros [Hsome _]. destruct Hin. by eapply range_order_elem.
Qed.

(** ** Properties *)

(** C13: C3: [CalculateLevels] terminates for every order in which Go may visit the
    nodes, leaves the rest of the graph alone, and gives each transaction of
    the block the length of its longest dependency chain, or 0 when a chain is
    circular or leaves the block. *)
Theorem CalculateLevels_spec (dag : TransactionDAG) (ords : nat → list string) :
  (∀ k, range_order (Nodes dag) (ords k)) →
  ∃ dag', CalculateLevels ords dag = Some dag' ∧
    dag' = set_Levels dag (Levels dag') ∧
    ∀ t n, Levels dag' !! t = Some n ↔
      is_Some (Nodes dag !! t) ∧
      (Depth (Nodes dag) t n ∨ (∀ m, ¬ Depth (Nodes dag) t m) ∧ n = 0%Z).
Proof.
  intros Hords. destruct (CalculateLevels_result dag ords Hords) as (lv & -> & Hlv).
  by exists (set_Levels dag lv).
Qed.

Definition chain_dag : TransactionDAG :=
  AddTransaction (AddTransaction NewTransactionDAG "a" 0 false "") "b" 1 true "a".

Lemma CalculateLevels_spec_witness :
  ∃ dag', CalculateLevels (λ _, keys_of (Nodes chain_dag)) chain_dag = Some dag' ∧
    Levels dag' !! "b" = Some 1%Z.
Proof.
  destruct (CalculateLevels_spec chain_dag (λ _, keys_of (Nodes chain_dag))) as (dag' & E & _ & _).
  { intros k. apply keys_of_order. }
  exists dag'. split; [exact E|]. vm_compute in E. injection E as <-. reflexivity.
Defined.

(** Peers agree on the levels: two runs of [CalculateLevels] on the same
    graph give the same result whatever the orders in which each visits the
    map of nodes. *)
Theorem CalculateLevels_order_independent (dag : TransactionDAG) (ords ords' : nat → list string) :
  (∀ k, range_order (Nodes dag) (ords k)) → (∀ k, range_order (Nodes dag) (ords' k)) →
  CalculateLevels ords dag = CalculateLevels ords' dag.
Proof.
  intros H H'. destruct (CalculateLevels_result dag ords H) as (lv & -> & Hlv).
  destruct (CalculateLevels_result dag ords' H') as (lv' & -> & Hlv').
  do 2 f_equal. apply map_eq. intros t. apply option_eq. intros n.
  by rewrite Hlv, Hlv'.
Qed.

Lemma CalculateLevels_order_independent_witness :
  CalculateLevels (λ _, ["a"; "b"]) chain_dag = CalculateLevels (λ k, if Nat.even k then ["b"; "a"] else ["a"; "b"]) chain_dag.
Proof.
  apply CalculateLevels_order_independent.
  - intros k. vm_compute. apply perm_swap || reflexivity.
  - intros k. destruct (Nat.even k); vm_compute; (apply perm_swap || reflexivity).
Defined.

(** Levels respect dependencies: everything a transaction at a positive
    level depends on is in the block, at a strictly smaller level. *)
Theorem levels_respect_dependencies (dag dag' : TransactionDAG) (ords : nat → list string)
    (t d : string) (node : TransactionDependency) (n : Z) :
  (∀ k, range_order (Nodes dag) (ords k)) → CalculateLevels ords dag = Some dag' →
  Levels dag' !! t = Some n → (0 < n)%Z →
  Nodes dag' !! t = Some node → d ∈ DependentTxIDs node →
  ∃ l, Levels dag' !! d = Some l ∧ (0 ≤ l < n)%Z.
Proof.
  intros Hords E Ht Hpos Hn Hd. destruct (CalculateLevels_result dag ords Hords) as (lv & E' & Hlv).
  rewrite E' in E. injection E as <-. cbn [Levels Nodes set_Levels] in *.
  apply Hlv in Ht as [_ [Hdep|[_ ->]]]; [|lia].
  destruct (Depth_dep_lt _ _ _ _ _ Hdep Hpos Hn Hd) as (l & Hl & Hlt).
  exists l. split; [|split; [by eapply Depth_nonneg|done]].
  apply Hlv. split; [by eapply Depth_node|by left].
Qed.

Lemma levels_respect_dependencies_witness :
  ∃ dag' l, CalculateLevels (λ _, keys_of (Nodes chain_dag)) chain_dag = Some dag' ∧
    Levels dag' !! "a" = Some l ∧ (0 ≤ l < 1)%Z.
Proof.
  destruct (CalculateLevels (λ _, keys_of (Nodes chain_dag)) chain_dag) as [dag'|] eqn:E;
    [|vm_compute in E; discriminate].
  exists dag'.
  destruct (levels_respect_dependencies chain_dag dag' (λ _, keys_of (Nodes chain_dag)) "b" "a"
    (mkTransactionDependency "b" ["a"] true) 1) as (l & Hl & Hb).
  - intros k. apply keys_of_order.
  - exact E.
  - vm_compute in E. injection E as <-. reflexivity.
  - lia.
  - vm_compute in E. injection E as <-. reflexivity.
  - apply list_elem_of_singleton. reflexivity.
  - exists l. split; [reflexivity|]. split; [exact Hl|exact Hb].
Defined.

(** ** The well-formedness invariant of the graph *)

(** Nodes are stored under their own id, exactly the ids with an index have a
    node, no dependency is the empty id, and [Dependencies] is the reverse of
    the [DependentTxIDs] edges. *)
Record dag_wf (dag : TransactionDAG) : Prop := {
  wf_id : ∀ t node, Nodes dag !! t = Some node → TxID node = t;
  wf_index : ∀ t, is_Some (Nodes dag !! t) ↔ is_Some (TxIndices dag !! t);
  wf_nonempty : ∀ t node, Nodes dag !! t = Some node → "" ∉ DependentTxIDs node;
  wf_edges : ∀ t d,
    (∃ node, Nodes dag !! t = Some node ∧ d ∈ DependentTxIDs node) ↔
    (∃ l, Dependencies dag !! d = Some l ∧ t ∈ l)
}.

Lemma AddTransaction_node (dag : TransactionDAG) (txID : string) (i : nat) (h : bool) (d t : string) :
  Nodes (AddTransaction dag txID i h d) !! t =
  if decide (t = txID) then
    let node := default (mkTransactionDependency txID [] h) (Nodes dag !! txID) in
    Some (if h && negb (bool_decide (d = "")) then
            mkTransactionDependency (TxID node) (DependentTxIDs node ++ [d]) (HasDependency node)
          else node)
  else Nodes dag !! t.
Proof.
  unfold AddTransaction.
  destruct (h && negb (bool_decide (d = ""))); cbn [Nodes];
    destruct (Nodes dag !! txID) as [node|] eqn:E; case_decide; subst; simplify_map_eq; done.
Qed.

Lemma AddTransaction_dependencies (dag : TransactionDAG) (txID : string) (i : nat) (h : bool)
    (d x : string) :
  Dependencies (AddTransaction dag txID i h d) !! x =
  if h && negb (bool_decide (d = "")) && bool_decide (x = d)
  then Some (default [] (Dependencies dag !! d) ++ [txID])
  else Dependencies dag !! x.
Proof.
  unfold AddTransaction.
  destruct (h && negb (bool_decide (d = ""))); cbn [Dependencies andb]; [|done].
  case_bool_decide; subst; destruct (Dependencies dag !! d) eqn:E; simplify_map_eq; done.
Qed.

Lemma AddTransaction_index (dag : TransactionDAG) (txID : string) (i : nat) (h : bool) (d : string) :
  TxIndices (AddTransaction dag txID i h d) = <[txID := i]> (TxIndices dag).
Proof. unfold AddTransaction. by case_match. Qed.

Lemma AddTransaction_edges (dag : TransactionDAG) (txID : string) (i : nat) (h : bool)
    (d t x : string) :
  dag_wf dag →
  (∃ node, Nodes (AddTransaction dag txID i h d) !! t = Some node ∧ x ∈ DependentTxIDs node) ↔
  (∃ l, Dependencies (AddTransaction dag txID i h d) !! x = Some l ∧ t ∈ l).
Proof.
  intros Hwf. pose proof (wf_edges dag Hwf t x) as He.
  rewrite AddTransaction_node, AddTransaction_dependencies.
  destruct (h && negb (bool_decide (d = ""))); cbn [andb].
  2:{ case_decide as Ht; [|exact He]. subst t. rewrite <- He.
      destruct (Nodes dag !! txID) as [node|]; [done|]. simpl. split.
      - intros (? & [= <-] & Hin). by apply not_elem_of_nil in Hin.
      - intros (? & ? & _). done. }
  case_decide as Ht; case_bool_decide as Hx; subst; try exact He.
  - split; intros _; eexists; (split; [done|]); apply elem_of_app; right;
      apply list_elem_of_singleton; done.
  - rewrite <- He. destruct (Nodes dag !! txID) as [node|]; simpl; split.
    + intros (? & [= <-] & [Hin|Hin%list_elem_of_singleton]%elem_of_app); [eauto|done].
    + intros (? & [= <-] & Hin). eexists. split; [done|]. apply elem_of_app. by left.
    + intros (? & [= <-] & Hin%list_elem_of_singleton). done.
    + intros (? & ? & _). done.
  - rewrite He. destruct (Dependencies dag !! d) as [l|]; simpl; split.
    + intros (? & [= <-] & Hin). eexists. split; [done|]. apply elem_of_app. by left.
    + intros (? & [= <-] & [Hin|Hin%list_elem_of_singleton]%elem_of_app); [eauto|done].
    + intros (? & ? & _). done.
    + intros (? & [= <-] & Hin%list_elem_of_singleton). done.
Qed.

Lemma NewTransactionDAG_wf : dag_wf NewTransactionDAG.
Proof.
  split; cbn.
  - intros t node. by rewrite lookup_empty.
  - intros t. rewrite !lookup_empty. by split; intros [].
  - intros t node. by rewrite lookup_empty.
  - intros t d. setoid_rewrite lookup_empty. naive_solver.
Qed.

Lemma AddTransaction_wf (dag : TransactionDAG) (txID : string) (i : nat) (h : bool) (d : string) :
  dag_wf dag → dag_wf (AddTransaction dag txID i h d).
Proof.
  intros Hwf. split.
  - intros t node. rewrite AddTransaction_node. case_decide; [|by apply wf_id]. subst.
    intros [= <-]. destruct (Nodes dag !! txID) as [n|] eqn:E; simpl; case_match; simpl;
      try done; by apply (wf_id dag Hwf).
  - intros t. rewrite AddTransaction_node, AddTransaction_index. case_decide; subst.
    + rewrite lookup_insert_eq. by split.
    + rewrite lookup_insert_ne by done. by apply wf_index.
  - intros t node. rewrite AddTransaction_node. case_decide; [|by apply wf_nonempty]. subst.
    intros [= <-]. assert ("" ∉ DependentTxIDs (default (mkTransactionDependency txID [] h)
      (Nodes dag !! txID))) as Hn.
    { destruct (Nodes dag !! txID) as [n|] eqn:E; simpl; [by eapply wf_nonempty|].
      apply not_elem_of_nil. }
    destruct (h && negb (bool_decide (d = ""))) eqn:Eg; simpl; [|done].
    apply andb_true_iff in Eg as [_ Eg%negb_true_iff%bool_decide_eq_false].
    rewrite not_elem_of_app, list_elem_of_singleton. naive_solver.
  - intros t x. by apply AddTransaction_edges.
Qed.

(** ** Grouping by level *)
Lemma GetTransactionsByLevel_lookup (ord : list string) (dag : TransactionDAG) (l : Z) :
  GetTransactionsByLevel ord dag !! l =
  match filter (λ t, Levels dag !! t = Some l) ord with
  | [] => None
  | ts => Some ts
  end.
Proof.
  unfold GetTransactionsByLevel. induction ord as [|t ord IH] using rev_ind; [done|].
  rewrite foldl_snoc, filter_app. unfold level_map_step at 1.
  set (m := foldl _ _ _) in *. rewrite filter_cons, filter_nil.
  destruct (Levels dag !! t) as [level|] eqn:El.
  2:{ rewrite decide_False by done. by rewrite app_nil_r. }
  destruct (decide (level = l)) as [->|Hne].
  - rewrite decide_True by done. rewrite lookup_alter, decide_True by done.
    destruct (m !! l) eqn:Em; [rewrite Em|rewrite lookup_insert_eq];
      destruct (filter _ ord); by simplify_eq/=.
  - rewrite decide_False by congruence. rewrite app_nil_r, <- IH.
    rewrite lookup_alter_ne by done. destruct (m !! level); [done|].
    by rewrite lookup_insert_ne.
Qed.
