(* ===== verification/Protos.v ===== *)
(** * Protos: the messages the peer exchanges, and their decoder

    The fields of the protobuf messages (package fabric-protos-go) that the
    modelled code reads. A Go pointer that may be nil is an [option], a [bytes]
    field whose nil value is told apart from an empty one too. Decoding is the
    generated protobuf code, a third-party package: it is the class [Codec],
    one function per message type that protoutil's Unmarshal functions and
    [proto.Unmarshal] are called at, [None] standing for a decoding error. No
    theorem assumes anything about it beyond what the theorem states. *)

From S2P Require Import Prelude.

Notation bytes := string (only parsing).

Record Version := mkVersion { ver_BlockNum : Z; ver_TxNum : Z }.

(** ** Envelopes, payloads and transactions *)
Record Envelope := mkEnvelope { env_Payload : bytes; env_Signature : bytes }.

Record Header := mkHeader { hdr_ChannelHeader : bytes; hdr_SignatureHeader : bytes }.

Record Payload := mkPayload { payload_Header : option Header; payload_Data : bytes }.

Record ChannelHeader := mkChannelHeader {
  chdr_Type : Z;
  chdr_ChannelId : string;
  chdr_TxId : string;
  chdr_Epoch : Z;
  chdr_Extension : bytes;
  chdr_Version : Z;
  chdr_Timestamp : option Z;
  chdr_TlsCertHash : option bytes
}.

Record TransactionAction := mkTransactionAction {
  action_Header : bytes;
  action_Payload : bytes
}.

Record Transaction := mkTransaction { tx_Actions : list TransactionAction }.

Record Response := mkResponse {
  resp_Status : Z;
  resp_Message : string;
  resp_Payload : bytes
}.

Record ChaincodeID := mkChaincodeID { ccid_Name : string; ccid_Version : string }.

Record ChaincodeAction := mkChaincodeAction {
  cca_Results : option bytes;
  cca_Events : bytes;
  cca_Response : option Response;
  cca_ChaincodeId : option ChaincodeID
}.

(** ** Read-write sets *)
Record KVRead := mkKVRead { kvr_Key : string; kvr_Version : option Version }.
Record KVWrite := mkKVWrite { kvw_Key : string; kvw_IsDelete : bool; kvw_Value : option bytes }.

(** A nil list of entries deletes a key's metadata; no entries are decoded to a
    nil list. *)
Record KVMetadataEntry := mkKVMetadataEntry { me_Name : string; me_Value : bytes }.
Record KVMetadataWrite := mkKVMetadataWrite { mw_Key : string; mw_Entries : list KVMetadataEntry }.

(** What a range query read: the keys themselves or the top of a hash tree. *)
Record QueryReadsMerkleSummary := mkQueryReadsMerkleSummary {
  ms_MaxDegree : Z;
  ms_MaxLevel : Z;
  ms_MaxLevelHashes : list bytes
}.
Inductive ReadsInfo :=
| NoReadsInfo
| RawReads (kvReads : list KVRead)
| ReadsMerkleHashes (summary : QueryReadsMerkleSummary).

Record RangeQueryInfo := mkRangeQueryInfo {
  rqi_StartKey : string;
  rqi_EndKey : string;
  rqi_ItrExhausted : bool;
  rqi_ReadsInfo : ReadsInfo
}.

Record KVRWSet := mkKVRWSet {
  kv_Reads : list KVRead;
  kv_RangeQueriesInfo : list RangeQueryInfo;
  kv_Writes : list KVWrite;
  kv_MetadataWrites : list KVMetadataWrite
}.

Record KVReadHash := mkKVReadHash { rh_KeyHash : bytes; rh_Version : option Version }.
Record KVWriteHash := mkKVWriteHash {
  wh_KeyHash : bytes;
  wh_IsDelete : bool;
  wh_ValueHash : option bytes;
  wh_IsPurge : bool
}.

Record KVMetadataWriteHash := mkKVMetadataWriteHash { mwh_KeyHash : bytes; mwh_Entries : list KVMetadataEntry }.

Record HashedRWSet := mkHashedRWSet {
  h_HashedReads : list KVReadHash;
  h_HashedWrites : list KVWriteHash;
  h_MetadataWrites : list KVMetadataWriteHash
}.

Record CollectionHashedReadWriteSet := mkCollectionHashedReadWriteSet {
  coll_CollectionName : string;
  coll_HashedRwset : bytes;
  coll_PvtRwsetHash : option bytes
}.

Record NsReadWriteSet := mkNsReadWriteSet {
  ns_Namespace : string;
  ns_Rwset : bytes;
  ns_CollectionHashedRwset : list CollectionHashedReadWriteSet
}.

Record TxReadWriteSet := mkTxReadWriteSet { txrw_NsRwset : list NsReadWriteSet }.

Record CollectionPvtReadWriteSet := mkCollectionPvtReadWriteSet {
  cpw_CollectionName : string;
  cpw_Rwset : bytes
}.
Record NsPvtReadWriteSet := mkNsPvtReadWriteSet {
  npw_Namespace : string;
  npw_CollectionPvtRwset : list CollectionPvtReadWriteSet
}.
Record TxPvtReadWriteSet := mkTxPvtReadWriteSet { tpw_NsPvtRwset : list NsPvtReadWriteSet }.

(** ** Simulation results (core/ledger/ledger_interface.go)

    [PrivateReads]: namespace, collection; [WritesetMetadata]: namespace,
    collection, key, metadata name. *)
Record TxSimulationResults := mkTxSimulationResults {
  sim_Pub : option TxReadWriteSet;
  sim_Pvt : option TxPvtReadWriteSet;
  sim_PrivateReads : gmap string (gmap string unit);
  sim_WritesetMetadata : gmap string (gmap string (gmap string (gmap string bytes)))
}.

(** ** Blocks *)
Record Block := mkBlock {
  blk_Number : option Z;               (* [Header.Number], [None] for a nil header *)
  blk_Data : option (list bytes);      (* [Data.Data] *)
  blk_Metadata : option (list bytes)   (* [Metadata.Metadata] *)
}.

Definition set_Metadata (b : Block) (md : list bytes) : Block :=
  mkBlock (blk_Number b) (blk_Data b) (Some md).

(** ** Decoding *)
Class Codec := {
  unmarshal_Envelope : bytes → option Envelope;
  unmarshal_Payload : bytes → option Payload;
  unmarshal_ChannelHeader : bytes → option ChannelHeader;
  unmarshal_Transaction : bytes → option Transaction;
  unmarshal_ChaincodeAction : bytes → option ChaincodeAction;
  unmarshal_TxReadWriteSet : bytes → option TxReadWriteSet;
  unmarshal_KVRWSet : bytes → option KVRWSet;
  unmarshal_HashedRWSet : bytes → option HashedRWSet
}.

(** ** Validation codes and block metadata slots *)
Definition TxValidationCode_VALID : Z := 0.
Definition TxValidationCode_ENDORSEMENT_POLICY_FAILURE : Z := 10.
Definition TxValidationCode_MVCC_READ_CONFLICT : Z := 11.
Definition TxValidationCode_PHANTOM_READ_CONFLICT : Z := 12.
Definition TxValidationCode_NIL_TXACTION : Z := 16.
Definition TxValidationCode_INVALID_WRITESET : Z := 24.
Definition TxValidationCode_NOT_VALIDATED : Z := 254.
Definition TxValidationCode_INVALID_OTHER_REASON : Z := 255.
Definition BlockMetadataIndex_TRANSACTIONS_FILTER : nat := 2.

(** Following a pointer, indexing a slice. *)
Definition deref {A} (o : option A) : outcome A :=
  match o with
  | Some a => Ok a
  | None => Panic "invalid memory address or nil pointer dereference"
  end.

Definition index {A} (l : list A) (i : nat) : outcome A :=
  match l !! i with
  | Some a => Ok a
  | None => Panic "index out of range"
  end.
