(* ===== verification/TxFlags.v ===== *)
(** * TxFlags: the validation flags of a block (internal/pkg/txflags/validation_flags.go)

    A block carries one byte for each transaction in its metadata. The flags
    are kept as a list of codes; assigning a code truncates it to a byte, and
    an index out of range panics. *)

From S2P Require Import Prelude GoText Protos.
From Stdlib Require Import Ascii.

(** ** The bytes in the metadata *)
Fixpoint bytes_of_flags (l : list Z) : string :=
  match l with
  | [] => ""
  | z :: l' => String (ascii_of_nat (Z.to_nat (u8 z))) (bytes_of_flags l')
  end.

Fixpoint flags_of_bytes (s : string) : list Z :=
  match s with
  | EmptyString => []
  | String c s' => Z.of_nat (nat_of_ascii c) :: flags_of_bytes s'
  end.

(** ** ValidationFlags *)
Notation ValidationFlags := (list Z).

Definition NewWithValues (size : nat) (value : Z) : ValidationFlags := replicate size (u8 value).
Definition NewFlags (size : nat) : ValidationFlags := NewWithValues size TxValidationCode_NOT_VALIDATED.

Definition set_flag (l : ValidationFlags) (i : nat) (code : Z) : outcome (ValidationFlags) :=
  if (i <? length l)%nat then Ok (<[i := u8 code]> l) else Panic "index out of range".

Definition Flag (obj : ValidationFlags) (txIndex : nat) : outcome Z := index obj txIndex.

Definition IsSetTo (obj : ValidationFlags) (txIndex : nat) (flag : Z) : outcome bool :=
  code ← Flag obj txIndex; Ok (bool_decide (code = flag)).

Definition flags_IsValid (obj : ValidationFlags) (txIndex : nat) : outcome bool :=
  IsSetTo obj txIndex TxValidationCode_VALID.

Definition IsInvalid (obj : ValidationFlags) (txIndex : nat) : outcome bool :=
  valid ← flags_IsValid obj txIndex; Ok (negb valid).

(** ** Lemmas *)
Lemma flags_roundtrip (l : list Z) :
  Forall (λ z, 0 ≤ z < 256)%Z l → flags_of_bytes (bytes_of_flags l) = l.
Proof.
  induction 1 as [|z l Hz Hl IH]; [done|]. cbn. rewrite IH. f_equal.
  unfold u8, wrap. rewrite Z.mod_small by lia. rewrite nat_ascii_embedding by lia. lia.
Qed.

Lemma flags_of_bytes_range (s : string) : Forall (λ z, 0 ≤ z < 256)%Z (flags_of_bytes s).
Proof.
  induction s as [|c s IH]; cbn; constructor; [|done]. pose proof (nat_ascii_bounded c). lia.
Qed.

Lemma set_flag_Ok (l l' : ValidationFlags) (i : nat) (code : Z) :
  set_flag l i code = Ok l' ↔ (i < length l)%nat ∧ l' = <[i := u8 code]> l.
Proof. unfold set_flag. destruct (Nat.ltb_spec i (length l)); naive_solver lia. Qed.

Lemma IsInvalid_Ok (l : ValidationFlags) (i : nat) (b : bool) :
  IsInvalid l i = Ok b ↔ ∃ code, l !! i = Some code ∧ b = negb (bool_decide (code = TxValidationCode_VALID)).
Proof. unfold IsInvalid, flags_IsValid, IsSetTo, Flag, index. destruct (l !! i); cbn; naive_solver. Qed.
