(* ===== verification/RwConflict.v ===== *)
(** * RwConflict: read-write set conflicts (core/committer/committer_impl.go)

    [checkRWSetConflicts] and its helpers: the committer's test whether two
    transactions touch a common key. The loop over the first transaction's
    namespaces ranges over a Go map, in the order [ord]. *)

From S2P Require Import Prelude Protos.

(** ** The four pairwise tests: a Go map of the written keys, then a scan *)
Definition key_set (ks : list string) : gset string := list_to_set ks.

Definition hasConflictInKVRWSet (reads : list KVRead) (writes : list KVWrite) : bool :=
  let writeKeys := key_set (kvw_Key <$> writes) in
  existsb (λ r, bool_decide (kvr_Key r ∈ writeKeys)) reads.

Definition hasConflictInHashedRWSet (reads : list KVReadHash) (writes : list KVWriteHash) : bool :=
  let writeKeyHashes := key_set (wh_KeyHash <$> writes) in
  existsb (λ r, bool_decide (rh_KeyHash r ∈ writeKeyHashes)) reads.

Definition hasWriteWriteConflict (writes1 writes2 : list KVWrite) : bool :=
  let writeKeys := key_set (kvw_Key <$> writes1) in
  existsb (λ w, bool_decide (kvw_Key w ∈ writeKeys)) writes2.

Definition hasHashedWriteWriteConflict (writes1 writes2 : list KVWriteHash) : bool :=
  let writeKeyHashes := key_set (wh_KeyHash <$> writes1) in
  existsb (λ w, bool_decide (wh_KeyHash w ∈ writeKeyHashes)) writes2.

(** Two public, two hashed read-write sets. *)
Definition kv_conflict (a b : KVRWSet) : bool :=
  hasConflictInKVRWSet (kv_Reads a) (kv_Writes b) ||
  hasConflictInKVRWSet (kv_Reads b) (kv_Writes a) ||
  hasWriteWriteConflict (kv_Writes a) (kv_Writes b).

Definition hashed_conflict (a b : HashedRWSet) : bool :=
  hasConflictInHashedRWSet (h_HashedReads a) (h_HashedWrites b) ||
  hasConflictInHashedRWSet (h_HashedReads b) (h_HashedWrites a) ||
  hasHashedWriteWriteConflict (h_HashedWrites a) (h_HashedWrites b).

Section with_codec.
Context `{Codec}.

(** ** extractRWSet: the first read-write set of each namespace wins *)
Definition add_ns (m : gmap string NsReadWriteSet) (n : NsReadWriteSet)
    : gmap string NsReadWriteSet :=
  match m !! ns_Namespace n with
  | Some _ => m
  | None => <[ns_Namespace n := n]> m
  end.

Fixpoint extract_actions (actions : list TransactionAction) (rwSets : gmap string NsReadWriteSet)
    : option (gmap string NsReadWriteSet) :=
  match actions with
  | [] => Some rwSets
  | action :: rest =>
      match unmarshal_ChaincodeAction (action_Payload action) with
      | None => None
      | Some cca =>
          match cca_Results cca with
          | None => extract_actions rest rwSets
          | Some results =>
              match unmarshal_TxReadWriteSet results with
              | None => None
              | Some txrw => extract_actions rest (foldl add_ns rwSets (txrw_NsRwset txrw))
              end
          end
      end
  end.

Definition extractRWSet (tx : Transaction) : option (gmap string NsReadWriteSet) :=
  extract_actions (tx_Actions tx) ∅.

(** ** The loop over collections: undecodable ones are skipped *)
Definition coll_pair_conflict (coll1 coll2 : CollectionHashedReadWriteSet) : bool :=
  match unmarshal_HashedRWSet (coll_HashedRwset coll1) with
  | None => false
  | Some h1 =>
      if bool_decide (coll_CollectionName coll1 = coll_CollectionName coll2) then
        match unmarshal_HashedRWSet (coll_HashedRwset coll2) with
        | None => false
        | Some h2 => hashed_conflict h1 h2
        end
      else false
  end.

Definition colls_conflict (cs1 cs2 : list CollectionHashedReadWriteSet) : bool :=
  existsb (λ c1, existsb (coll_pair_conflict c1) cs2) cs1.

(** ** checkRWSetConflicts

    The body of the namespace loop either returns from the function or goes
    on to the next namespace ([None]). *)
Definition check_ns (ns1Map ns2Map : gmap string NsReadWriteSet) (ns : string) : option bool :=
  match ns1Map !! ns, ns2Map !! ns with
  | Some ns1Data, Some ns2Data =>
      match unmarshal_KVRWSet (ns_Rwset ns1Data), unmarshal_KVRWSet (ns_Rwset ns2Data) with
      | Some kvrw1, Some kvrw2 =>
          if kv_conflict kvrw1 kvrw2 then Some true
          else if colls_conflict (ns_CollectionHashedRwset ns1Data) (ns_CollectionHashedRwset ns2Data)
          then Some true else None
      | _, _ => Some false
      end
  | _, _ => None
  end.

Fixpoint check_loop (ns1Map ns2Map : gmap string NsReadWriteSet) (nss : list string) : bool :=
  match nss with
  | [] => false
  | ns :: rest =>
      match check_ns ns1Map ns2Map ns with
      | Some b => b
      | None => check_loop ns1Map ns2Map rest
      end
  end.

(** [ord] gives the order in which Go ranges over the first map. *)
Definition checkRWSetConflicts (ord : gmap string NsReadWriteSet → list string)
    (tx1 tx2 : Transaction) : bool :=
  match extractRWSet tx1 with
  | None => false
  | Some ns1Map =>
      match extractRWSet tx2 with
      | None => false
      | Some ns2Map => check_loop ns1Map ns2Map (ord ns1Map)
      end
  end.
End with_codec.

(** ** What a conflict is *)
Definition overlap {R W} (rk : R → string) (wk : W → string)
    (r1 : list R) (w1 : list W) (r2 : list R) (w2 : list W) : Prop :=
  ∃ k, (k ∈ rk <$> r1 ∧ k ∈ wk <$> w2) ∨ (k ∈ rk <$> r2 ∧ k ∈ wk <$> w1) ∨
       (k ∈ wk <$> w1 ∧ k ∈ wk <$> w2).

Definition kv_overlap (a b : KVRWSet) : Prop :=
  overlap kvr_Key kvw_Key (kv_Reads a) (kv_Writes a) (kv_Reads b) (kv_Writes b).

Definition hashed_overlap (a b : HashedRWSet) : Prop :=
  overlap rh_KeyHash wh_KeyHash (h_HashedReads a) (h_HashedWrites a)
    (h_HashedReads b) (h_HashedWrites b).

Lemma overlap_sym {R W} (rk : R → string) (wk : W → string) r1 w1 r2 w2 :
  overlap rk wk r1 w1 r2 w2 ↔ overlap rk wk r2 w2 r1 w1.
Proof. unfold overlap. naive_solver. Qed.

Lemma existsb_key {A B} (f : A → string) (g : B → string) (l : list A) (l' : list B) :
  existsb (λ a, bool_decide (f a ∈ key_set (g <$> l'))) l = true ↔
  ∃ k, k ∈ f <$> l ∧ k ∈ g <$> l'.
Proof.
  unfold key_set. rewrite existsb_exists. split.
  - intros (a & Hin & Hd%bool_decide_eq_true). exists (f a). split; [|set_solver].
    apply list_elem_of_fmap. exists a. split; [done|]. by apply list_elem_of_In.
  - intros (k & (a & -> & Hin)%list_elem_of_fmap & Hk). exists a.
    split; [by apply list_elem_of_In|]. apply bool_decide_eq_true. set_solver.
Qed.

Lemma kv_conflict_spec (a b : KVRWSet) : kv_conflict a b = true ↔ kv_overlap a b.
Proof.
  unfold kv_conflict, hasConflictInKVRWSet, hasWriteWriteConflict, kv_overlap, overlap.
  rewrite !orb_true_iff, !existsb_key. naive_solver.
Qed.

Lemma hashed_conflict_spec (a b : HashedRWSet) : hashed_conflict a b = true ↔ hashed_overlap a b.
Proof.
  unfold hashed_conflict, hasConflictInHashedRWSet, hasHashedWriteWriteConflict,
    hashed_overlap, overlap.
  rewrite !orb_true_iff, !existsb_key. naive_solver.
Qed.

Section conflict_spec.
Context `{Codec}.

(** Every public read-write set of the map decodes. *)
Definition decodable (m : gmap string NsReadWriteSet) : Prop :=
  ∀ ns n, m !! ns = Some n → is_Some (unmarshal_KVRWSet (ns_Rwset n)).

(** Two namespaces' read-write sets share a written key, in the public state
    or in the hashed state of a collection they both name. *)
Definition ns_overlap (n1 n2 : NsReadWriteSet) : Prop :=
  (∃ k1 k2, unmarshal_KVRWSet (ns_Rwset n1) = Some k1 ∧
            unmarshal_KVRWSet (ns_Rwset n2) = Some k2 ∧ kv_overlap k1 k2) ∨
  (∃ c1 c2 h1 h2, c1 ∈ ns_CollectionHashedRwset n1 ∧ c2 ∈ ns_CollectionHashedRwset n2 ∧
     coll_CollectionName c1 = coll_CollectionName c2 ∧
     unmarshal_HashedRWSet (coll_HashedRwset c1) = Some h1 ∧
     unmarshal_HashedRWSet (coll_HashedRwset c2) = Some h2 ∧ hashed_overlap h1 h2).

Definition tx_overlap (m1 m2 : gmap string NsReadWriteSet) : Prop :=
  ∃ ns n1 n2, m1 !! ns = Some n1 ∧ m2 !! ns = Some n2 ∧ ns_overlap n1 n2.

Lemma colls_conflict_spec cs1 cs2 :
  colls_conflict cs1 cs2 = true ↔
  ∃ c1 c2 h1 h2, c1 ∈ cs1 ∧ c2 ∈ cs2 ∧
    coll_CollectionName c1 = coll_CollectionName c2 ∧
    unmarshal_HashedRWSet (coll_HashedRwset c1) = Some h1 ∧
    unmarshal_HashedRWSet (coll_HashedRwset c2) = Some h2 ∧ hashed_overlap h1 h2.
Proof.
  unfold colls_conflict. rewrite existsb_exists. split.
  - intros (c1 & H1%list_elem_of_In & (c2 & H2%list_elem_of_In & E)%existsb_exists).
    unfold coll_pair_conflict in E. repeat case_match; try done.
    case_bool_decide; [|done]. eexists _, _, _, _. split_and!; [done..|].
    by apply hashed_conflict_spec.
  - intros (c1 & c2 & h1 & h2 & H1 & H2 & En & E1 & E2 & Ho).
    exists c1. split; [by apply list_elem_of_In|]. apply existsb_exists.
    exists c2. split; [by apply list_elem_of_In|]. unfold coll_pair_conflict.
    rewrite E1, E2, bool_decide_eq_true_2 by done. by apply hashed_conflict_spec.
Qed.

Lemma check_ns_spec m1 m2 ns :
  decodable m1 → decodable m2 →
  check_ns m1 m2 ns = Some true ∧
    (∃ n1 n2, m1 !! ns = Some n1 ∧ m2 !! ns = Some n2 ∧ ns_overlap n1 n2) ∨
  check_ns m1 m2 ns = None ∧
    ¬ (∃ n1 n2, m1 !! ns = Some n1 ∧ m2 !! ns = Some n2 ∧ ns_overlap n1 n2).
Proof.
  intros D1 D2. unfold check_ns.
  destruct (m1 !! ns) as [n1|] eqn:E1; [|right; naive_solver].
  destruct (m2 !! ns) as [n2|] eqn:E2; [|right; naive_solver].
  destruct (D1 _ _ E1) as [k1 Hk1], (D2 _ _ E2) as [k2 Hk2]. rewrite Hk1, Hk2.
  destruct (kv_conflict k1 k2) eqn:Ek.
  { left. split; [done|]. eexists _, _. split_and!; [done..|]. left.
    eexists _, _. split_and!; [done..|]. by apply kv_conflict_spec. }
  destruct (colls_conflict _ _) eqn:Ec.
  { left. split; [done|]. eexists _, _. split_and!; [done..|]. right.
    by apply colls_conflict_spec. }
  right. split; [done|]. intros (a & b & [= <-] & [= <-] & [Ho|Ho]).
  - destruct Ho as (? & ? & ? & ? & Ho%kv_conflict_spec). congruence.
  - apply colls_conflict_spec in Ho. congruence.
Qed.

Lemma check_loop_spec m1 m2 nss :
  decodable m1 → decodable m2 →
  check_loop m1 m2 nss = true ↔
  ∃ ns n1 n2, ns ∈ nss ∧ m1 !! ns = Some n1 ∧ m2 !! ns = Some n2 ∧ ns_overlap n1 n2.
Proof.
  intros D1 D2. induction nss as [|ns nss IH]; cbn [check_loop].
  { split; [done|]. intros (? & ? & ? & Hin & _). by apply not_elem_of_nil in Hin. }
  destruct (check_ns_spec m1 m2 ns D1 D2) as [[-> (n1 & n2 & Ho)]|[-> Hno]].
  - split; [|done]. intros _. exists ns, n1, n2. split; [by left|done].
  - rewrite IH. split.
    + intros (ns' & n1 & n2 & Hin & Ho). exists ns', n1, n2. split; [by right|done].
    + intros (ns' & n1 & n2 & [->|Hin]%elem_of_cons & Ho); [naive_solver|].
      by exists ns', n1, n2.
Qed.

Lemma checkRWSetConflicts_overlap ord tx1 tx2 m1 m2 :
  (∀ m, range_order m (ord m)) →
  extractRWSet tx1 = Some m1 → extractRWSet tx2 = Some m2 → decodable m1 → decodable m2 →
  checkRWSetConflicts ord tx1 tx2 = true ↔ tx_overlap m1 m2.
Proof.
  intros Hord E1 E2 D1 D2. unfold checkRWSetConflicts. rewrite E1, E2, check_loop_spec by done.
  unfold tx_overlap. split.
  - intros (ns & n1 & n2 & _ & ?). eauto.
  - intros (ns & n1 & n2 & H1 & H2 & Ho). exists ns, n1, n2. split_and!; [|done..].
    eapply range_order_elem; eauto.
Qed.

Lemma tx_overlap_sym m1 m2 : tx_overlap m1 m2 ↔ tx_overlap m2 m1.
Proof.
  assert (∀ n1 n2, ns_overlap n1 n2 → ns_overlap n2 n1) as Hns.
  { intros n1 n2 [(k1 & k2 & ? & ? & Ho)|(c1 & c2 & h1 & h2 & ? & ? & ? & ? & ? & Ho)].
    - left. exists k2, k1. split_and!; [done..|]. by apply overlap_sym.
    - right. exists c2, c1, h2, h1. split_and!; [done..|]. by apply overlap_sym. }
  unfold tx_overlap. split; intros (ns & n1 & n2 & ? & ? & ?%Hns); eauto 10.
Qed.
End conflict_spec.

(** ** Properties *)

(** On decodable read-write sets [checkRWSetConflicts] answers true exactly
    when the transactions share a key, public or hashed in a common collection,
    that one of them writes and the other reads or writes; the answer depends
    neither on the order in which Go visits the namespaces nor on which of the
    two transactions comes first. *)
Theorem checkRWSetConflicts_spec `{Codec} (ord ord' : gmap string NsReadWriteSet → list string)
    (tx1 tx2 : Transaction) (m1 m2 : gmap string NsReadWriteSet) :
  (∀ m, range_order m (ord m)) → (∀ m, range_order m (ord' m)) →
  extractRWSet tx1 = Some m1 → extractRWSet tx2 = Some m2 → decodable m1 → decodable m2 →
  (checkRWSetConflicts ord tx1 tx2 = true ↔ tx_overlap m1 m2) ∧
  checkRWSetConflicts ord tx1 tx2 = checkRWSetConflicts ord' tx2 tx1.
Proof.
  intros Ho Ho' E1 E2 D1 D2.
  pose proof (checkRWSetConflicts_overlap ord tx1 tx2 m1 m2 Ho E1 E2 D1 D2) as H1.
  split; [exact H1|]. apply eq_true_iff_eq.
  rewrite H1, (checkRWSetConflicts_overlap ord' tx2 tx1 m2 m1) by done. apply tx_overlap_sym.
Qed.

(** A decoder given by tables, for concrete examples. *)
Definition table {A} (l : list (string * A)) (k : string) : option A :=
  (list_to_map l : gmap string A) !! k.

Definition sample_codec (envs : list (string * Envelope)) (pls : list (string * Payload))
    (chs : list (string * ChannelHeader)) (txs : list (string * Transaction))
    (ccas : list (string * ChaincodeAction)) (rws : list (string * TxReadWriteSet))
    (kvs : list (string * KVRWSet)) : Codec := {|
  unmarshal_Envelope := table envs;
  unmarshal_Payload := table pls;
  unmarshal_ChannelHeader := table chs;
  unmarshal_Transaction := table txs;
  unmarshal_ChaincodeAction := table ccas;
  unmarshal_TxReadWriteSet := table rws;
  unmarshal_KVRWSet := table kvs;
  unmarshal_HashedRWSet := λ _, None
|}.

(** Two transactions on the namespaces "cc1" and "cc2"; both write the key "x"
    of "cc1"; the read-write set "bad" does not decode. *)
Definition conflict_codec : Codec :=
  sample_codec [] [] [] []
    [("p1", mkChaincodeAction (Some "r1") "" None None); ("p2", mkChaincodeAction (Some "r2") "" None None);
     ("q1", mkChaincodeAction (Some "s1") "" None None)]
    [("r1", mkTxReadWriteSet [mkNsReadWriteSet "cc1" "w" []]);
     ("r2", mkTxReadWriteSet [mkNsReadWriteSet "cc1" "w" []; mkNsReadWriteSet "cc2" "w" []]);
     ("s1", mkTxReadWriteSet [mkNsReadWriteSet "cc1" "w" []; mkNsReadWriteSet "cc2" "bad" []])]
    [("w", mkKVRWSet [] [] [mkKVWrite "x" false (Some "1")] [])].

Definition tx_with (payload : string) : Transaction := mkTransaction [mkTransactionAction "" payload].

Lemma checkRWSetConflicts_spec_witness :
  @checkRWSetConflicts conflict_codec keys_of (tx_with "p1") (tx_with "p2") = true.
Proof.
  set (m1 := {["cc1" := mkNsReadWriteSet "cc1" "w" []]} : gmap string NsReadWriteSet).
  set (m2 := <["cc2" := mkNsReadWriteSet "cc2" "w" []]> m1).
  assert (D : ∀ ns n, m2 !! ns = Some n → is_Some (table [("w", mkKVRWSet [] [] [mkKVWrite "x" false (Some "1")] [])] (ns_Rwset n))).
  { intros ns n Hn. unfold m2, m1 in Hn. apply lookup_insert_Some in Hn as [[_ <-]|[_ Hn]].
    - vm_compute. eauto.
    - apply lookup_singleton_Some in Hn as [_ <-]. vm_compute. eauto. }
  refine (proj2 (proj1 (@checkRWSetConflicts_spec conflict_codec keys_of keys_of
    (tx_with "p1") (tx_with "p2") m1 m2 _ _ _ _ _ _)) _).
  - intros m. apply keys_of_order.
  - intros m. apply keys_of_order.
  - vm_compute. reflexivity.
  - vm_compute. reflexivity.
  - intros ns n Hn. apply (D ns n). unfold m2. apply lookup_singleton_Some in Hn as [<- <-].
    vm_compute. reflexivity.
  - exact D.
  - exists "cc1". eexists _, _. split; [vm_compute; reflexivity|]. split; [vm_compute; reflexivity|].
    left. eexists _, _. split; [vm_compute; reflexivity|]. split; [vm_compute; reflexivity|].
    exists "x". right. right. split; apply list_elem_of_singleton; reflexivity.
Defined.

(** Without decodability the answer depends on Go's map order: a read-write
    set that does not decode ends the loop with "no conflict", so the same two
    conflicting transactions are a conflict on one peer and none on another. *)
Theorem checkRWSetConflicts_order_dependent :
  ∃ (C : Codec) (ord ord' : gmap string NsReadWriteSet → list string) (tx1 tx2 : Transaction),
    (∀ m, range_order m (ord m)) ∧ (∀ m, range_order m (ord' m)) ∧
    checkRWSetConflicts ord tx1 tx2 = true ∧ checkRWSetConflicts ord' tx1 tx2 = false.
Proof.
  exists conflict_codec, keys_of, (λ m, reverse (keys_of m)), (tx_with "q1"), (tx_with "p2").
  split; [intros m; apply keys_of_order|].
  split; [intros m; unfold range_order; rewrite reverse_Permutation; apply keys_of_order|].
  split; vm_compute; reflexivity.
Qed.
