(* ===== verification/Committer.v ===== *)
(** * Committer: block commit along the dependency graph (core/committer/committer_impl.go)

    [BuildDAGFromBlock] reads the graph off a block; [processBlockWithDAG]
    validates the transactions level by level, rewrites the block's validation
    flags and hands the block to the ledger; [CommitLegacy] is the entry point
    with its fallback. Within a level Go starts one goroutine per transaction,
    bounded by a semaphore: [lstep] is the interleaving semantics of a level,
    [run_level] one sequential schedule of it, and the theorems show that
    every schedule ends in the same graph and none can get stuck.

    The ledger behind [PeerLedgerSupport] is a parameter: a state type [L] and
    its [CommitLegacy]. [simulateVSCC] only sleeps and has no counterpart. *)

From S2P Require Import Prelude GoText DepInfo TxDag Protos TxFlags RwConflict.
From Stdlib Require Import Ascii.

Section committer.
Context `{Codec} `{MapOrder}.

(** ** BuildDAGFromBlock *)
Fixpoint scan_actions (actions : list TransactionAction) (hasDependency : bool)
    (dependentTxID : string) : bool * string :=
  match actions with
  | [] => (hasDependency, dependentTxID)
  | action :: rest =>
      match unmarshal_ChaincodeAction (action_Payload action) with
      | None => scan_actions rest hasDependency dependentTxID
      | Some cca =>
          match cca_Response cca with
          | None => scan_actions rest hasDependency dependentTxID
          | Some resp =>
              if bool_decide (resp_Message resp = "")
              then scan_actions rest hasDependency dependentTxID
              else
                match ParseDependencyInfo (resp_Message resp) with
                | Ok (h, d, _) => if h then (h, d) else scan_actions rest h d
                | _ => scan_actions rest false ""
                end
          end
      end
  end.

Definition add_entry (dag : TransactionDAG) (entry : nat * bytes) : outcome TransactionDAG :=
  let '(i, txEnvelopeBytes) := entry in
  match unmarshal_Envelope txEnvelopeBytes with
  | None => Ok dag
  | Some env =>
      match unmarshal_Payload (env_Payload env) with
      | None => Ok dag
      | Some payload =>
          hdr ← deref (payload_Header payload);
          match unmarshal_ChannelHeader (hdr_ChannelHeader hdr) with
          | None => Ok dag
          | Some chdr =>
              match unmarshal_Transaction (payload_Data payload) with
              | None => Ok dag
              | Some tx =>
                  let '(h, d) := scan_actions (tx_Actions tx) false "" in
                  Ok (AddTransaction dag (chdr_TxId chdr) i h d)
              end
          end
      end
  end.

Definition build_nodes (data : list bytes) : outcome TransactionDAG :=
  foldM add_entry NewTransactionDAG (imap pair data).

Definition BuildDAGFromBlock (block : Block) : outcome TransactionDAG :=
  data ← deref (blk_Data block);
  dag ← build_nodes data;
  match CalculateLevels (λ k, map_range ["levels"] k (Nodes dag)) dag with
  | Some dag' => Ok dag'
  | None => Panic "level loop"
  end.

(** ** One transaction's goroutine *)
Definition decode_tx (raw : bytes) : option Transaction :=
  match unmarshal_Envelope raw with
  | None => None
  | Some env =>
      match unmarshal_Payload (env_Payload env) with
      | None => None
      | Some payload => unmarshal_Transaction (payload_Data payload)
      end
  end.

Definition action_ok (action : TransactionAction) : bool :=
  match unmarshal_ChaincodeAction (action_Payload action) with
  | None => false
  | Some cca =>
      match cca_Response cca with
      | None => false
      | Some resp => (resp_Status resp =? 200)%Z
      end
  end.

(** The loop over the dependencies: false at the first conflict. *)
Fixpoint no_dep_conflict (id : string) (dag : TransactionDAG) (data : list bytes)
    (tx : Transaction) (deps : list string) : outcome bool :=
  match deps with
  | [] => Ok true
  | depTxID :: rest =>
      match GetIndexByTxID dag depTxID with
      | None => no_dep_conflict id dag data tx rest
      | Some depTxIndex =>
          raw ← index data depTxIndex;
          match decode_tx raw with
          | None => no_dep_conflict id dag data tx rest
          | Some depTx =>
              if checkRWSetConflicts (map_range [id; depTxID] (length rest)) tx depTx then Ok false
              else no_dep_conflict id dag data tx rest
          end
      end
  end.

(** The result the goroutine records, [None] when it returns without one. *)
Definition work (level : Z) (dag : TransactionDAG) (data : list bytes) (id : string)
    : outcome (option bool) :=
  match GetIndexByTxID dag id with
  | None => Ok None
  | Some txIndex =>
      raw ← index data txIndex;
      match decode_tx raw with
      | None => Ok (Some false)
      | Some tx =>
          let isValid := forallb action_ok (tx_Actions tx) in
          if (0 <? level)%Z && isValid then
            node ← deref (Nodes dag !! id);
            v ← no_dep_conflict id dag data tx (DependentTxIDs node);
            Ok (Some v)
          else Ok (Some isValid)
      end
  end.

(** The main loop's check before a goroutine is started: true when some
    dependency is not valid and the transaction is skipped. *)
Definition skip_tx (level : Z) (dag : TransactionDAG) (txID : string) : outcome bool :=
  if (0 <? level)%Z then
    node ← deref (Nodes dag !! txID);
    Ok (negb (forallb (IsValid dag) (DependentTxIDs node)))
  else Ok false.

Definition record (dag : TransactionDAG) (id : string) (w : option bool) : TransactionDAG :=
  match w with Some b => SetValidationResult dag id b | None => dag end.

(** ** A level: interleavings of the main loop and the goroutines *)
Record lstate := mkLstate {
  l_todo : list string;        (* transactions the main loop has not reached *)
  l_running : list string;     (* goroutines started and not finished *)
  l_dag : TransactionDAG
}.

Inductive lstep (level limit : Z) (data : list bytes) : lstate → lstate → Prop :=
| lstep_skip t todo running dag :
    skip_tx level dag t = Ok true →
    lstep level limit data (mkLstate (t :: todo) running dag)
      (mkLstate todo running (SetValidationResult dag t false))
| lstep_spawn t todo running dag :
    skip_tx level dag t = Ok false →
    (limit ≤ 0 ∨ Z.of_nat (length running) < limit)%Z →
    lstep level limit data (mkLstate (t :: todo) running dag)
      (mkLstate todo (t :: running) dag)
| lstep_finish t todo before after dag w :
    work level dag data t = Ok w →
    lstep level limit data (mkLstate todo (before ++ t :: after) dag)
      (mkLstate todo (before ++ after) (record dag t w)).

(** One schedule: each transaction runs to its end before the next. *)
Definition run_tx (level : Z) (data : list bytes) (dag : TransactionDAG) (t : string)
    : outcome TransactionDAG :=
  skip ← skip_tx level dag t;
  if (skip : bool) then Ok (SetValidationResult dag t false)
  else
    w ← work level dag data t;
    Ok (record dag t w).

Definition run_level (level : Z) (data : list bytes) (dag : TransactionDAG) (txs : list string)
    : outcome TransactionDAG :=
  foldM (run_tx level data) dag txs.

(** ** All levels in order *)
Definition process_levels (data : list bytes) (dag : TransactionDAG) : outcome TransactionDAG :=
  let txsByLevel := GetTransactionsByLevel (map_range ["byLevel"] 0 (Levels dag)) dag in
  let maxLevel := max_level ((map_to_list txsByLevel).*1) in
  foldM (λ d level,
    match txsByLevel !! level with
    | None => Ok d
    | Some txs => run_level level data d txs
    end) dag (seqZ 0 (maxLevel + 1)).

(** ** The validation flags *)
Definition flag_step (dag : TransactionDAG) (txFilter : list Z) (txID : string)
    : outcome (list Z) :=
  match GetIndexByTxID dag txID with
  | None => Ok txFilter
  | Some txIndex =>
      if IsValid dag txID then Ok txFilter
      else set_flag txFilter txIndex TxValidationCode_MVCC_READ_CONFLICT
  end.

Definition tx_filter (dag : TransactionDAG) (n : nat) : outcome (list Z) :=
  foldM (flag_step dag) (replicate n TxValidationCode_VALID) (map_range ["flags"] 0 (Nodes dag)).

(** [metadata.Metadata] after the update: one empty entry is appended when
    the slice is too short, then the filter slot is assigned. *)
Definition update_metadata (metadata : list bytes) (txFilter : list Z) : outcome (list bytes) :=
  let md :=
    if (length metadata <=? BlockMetadataIndex_TRANSACTIONS_FILTER)%nat
    then metadata ++ [""] else metadata in
  if (BlockMetadataIndex_TRANSACTIONS_FILTER <? length md)%nat
  then Ok (<[BlockMetadataIndex_TRANSACTIONS_FILTER := bytes_of_flags txFilter]> md)
  else Panic "index out of range".

(** The part of [processBlockWithDAG] before the ledger is called. *)
Definition validated_block (block : Block) (dag : TransactionDAG) : outcome Block :=
  data ← deref (blk_Data block);
  dag' ← process_levels data dag;
  metadata ← deref (blk_Metadata block);
  txFilter ← tx_filter dag' (length data);
  md ← update_metadata metadata txFilter;
  Ok (set_Metadata block md).

(** ** LedgerCommitter over an arbitrary ledger *)
Section ledger.
Context {L Pvt Opts : Type} (ledger_CommitLegacy : L → Block → Pvt → Opts → L * option string).

(** The ledger's new state, the block as the call left it, and the result. *)
Definition legacyCommit (l : L) (block : Block) (pvt : Pvt) (opts : Opts)
    : L * Block * outcome unit :=
  let '(l', err) := ledger_CommitLegacy l block pvt opts in
  (l', block, match err with Some e => Err e | None => Ok () end).

Definition processBlockWithDAG (l : L) (block : Block) (pvt : Pvt) (opts : Opts)
    (dag : TransactionDAG) : L * Block * outcome unit :=
  match validated_block block dag with
  | Ok block' => legacyCommit l block' pvt opts
  | Err e => (l, block, Err e)
  | Panic e => (l, block, Panic e)
  end.

Definition CommitLegacy (l : L) (block : Block) (pvt : Pvt) (opts : Opts)
    : L * Block * outcome unit :=
  match BuildDAGFromBlock block with
  | Panic e => (l, block, Panic e)
  | Err _ => legacyCommit l block pvt opts
  | Ok dag =>
      match deref (blk_Number block) with
      | Ok _ =>
          match processBlockWithDAG l block pvt opts dag with
          | (l', block', Err _) => legacyCommit l' block' pvt opts
          | r => r
          end
      | _ => (l, block, Panic "invalid memory address or nil pointer dereference")
      end
  end.
Context (ledger_GetBlockByNumber : L → Z → outcome Block).

(** The blocks that can be read, in the order they are asked for. *)
Fixpoint GetBlocks (l : L) (blockSeqs : list Z) : outcome (list Block) :=
  match blockSeqs with
  | [] => Ok []
  | seqNum :: rest =>
      match ledger_GetBlockByNumber l seqNum with
      | Err _ => GetBlocks l rest
      | Panic e => Panic e
      | Ok blck => blocks ← GetBlocks l rest; Ok (blck :: blocks)
      end
  end.
End ledger.
End committer.

(** ** Lemmas: a level's interleavings *)
Section level_lemmas.
Context `{Codec} `{MapOrder}.

(** Validation results are the only part of the graph a level changes. *)
Definition same_graph (d d' : TransactionDAG) : Prop :=
  Nodes d = Nodes d' ∧ Dependencies d = Dependencies d' ∧
  Levels d = Levels d' ∧ TxIndices d = TxIndices d'.

#[global] Instance same_graph_equiv : Equivalence same_graph.
Proof.
  split.
  - by intros d.
  - intros d d' (? & ? & ? & ?). by repeat split.
  - intros d d' d'' (? & ? & ? & ?) (? & ? & ? & ?). repeat split; congruence.
Qed.

Lemma same_graph_eq d d' :
  same_graph d d' → ValidationResults d = ValidationResults d' → d = d'.
Proof.
  destruct d, d'. intros (? & ? & ? & ?) ?. simpl in *. by subst.
Qed.

Lemma record_graph d t w : same_graph (record d t w) d.
Proof. by destruct w. Qed.

Lemma record_results d t w t' :
  ValidationResults (record d t w) !! t' =
  match w with
  | Some b => if decide (t' = t) then Some b else ValidationResults d !! t'
  | None => ValidationResults d !! t'
  end.
Proof.
  destruct w; [|done]. cbn. case_decide; subst; by simplify_map_eq.
Qed.

Lemma no_dep_conflict_graph id d d' data tx deps :
  same_graph d d' → no_dep_conflict id d data tx deps = no_dep_conflict id d' data tx deps.
Proof.
  intros (_ & _ & _ & E). induction deps as [|x deps IH]; [done|].
  cbn [no_dep_conflict]. unfold GetIndexByTxID. rewrite E, IH. done.
Qed.

Lemma work_graph level d d' data id :
  same_graph d d' → work level d data id = work level d' data id.
Proof.
  intros Hg. pose proof Hg as (En & _ & _ & Ei). unfold work, GetIndexByTxID. rewrite Ei, En.
  destruct (TxIndices d' !! id) as [i|]; [|done]. destruct (index data i) as [raw| |]; [|done..].
  go_simpl. destruct (decode_tx raw) as [tx|]; [|done]. case_match; [|done].
  destruct (Nodes d' !! id) as [node|]; [|done]. cbn. by rewrite (no_dep_conflict_graph id d d').
Qed.

(** The graph came from the block: ids with a node are the ids with an index,
    and every index is one of the block's. *)
Definition dag_of (dag : TransactionDAG) (data : list bytes) : Prop :=
  (∀ t, is_Some (Nodes dag !! t) ↔ is_Some (TxIndices dag !! t)) ∧
  (∀ t i, TxIndices dag !! t = Some i → i < length data).

(** The transactions of one level: distinct, nodes of the graph, none
    depending on another one of them. *)
Definition level_ok (level : Z) (dag : TransactionDAG) (txs : list string) : Prop :=
  NoDup txs ∧ (∀ t, t ∈ txs → is_Some (Nodes dag !! t)) ∧
  ((0 < level)%Z → ∀ t node d, t ∈ txs → Nodes dag !! t = Some node →
     d ∈ DependentTxIDs node → d ∉ txs).

Lemma no_dep_conflict_ok id dag data tx deps :
  dag_of dag data → ∃ b, no_dep_conflict id dag data tx deps = Ok b.
Proof.
  intros [_ Hi]. induction deps as [|d deps [b IH]]; cbn [no_dep_conflict]; [by eexists|].
  unfold GetIndexByTxID. destruct (TxIndices dag !! d) as [i|] eqn:E; [|by eexists].
  apply Hi in E. apply lookup_lt_is_Some in E as [raw Hraw]. unfold index. rewrite Hraw.
  go_simpl. repeat case_match; eauto.
Qed.

Lemma work_ok level dag data t :
  dag_of dag data → is_Some (Nodes dag !! t) → ∃ w, work level dag data t = Ok w.
Proof.
  intros Hd [node Hn]. unfold work, GetIndexByTxID. rewrite Hn.
  destruct (TxIndices dag !! t) as [i|] eqn:E; [|by eexists].
  destruct Hd as [Hni Hi] eqn:?. apply Hi in E. apply lookup_lt_is_Some in E as [raw Hraw].
  unfold index. rewrite Hraw. go_simpl. destruct (decode_tx raw) as [tx|]; [|by eexists].
  case_match; [|by eexists].
  destruct (no_dep_conflict_ok t dag data tx (DependentTxIDs node) Hd) as [b ->]. by eexists.
Qed.

Lemma skip_tx_ok level dag t : is_Some (Nodes dag !! t) → ∃ b, skip_tx level dag t = Ok b.
Proof. intros [node Hn]. unfold skip_tx. rewrite Hn. case_match; by eexists. Qed.

Section one_level.
Context (level limit : Z) (data : list bytes) (dag0 : TransactionDAG) (txs : list string).
Context (Hdag : dag_of dag0 data) (Hlevel : level_ok level dag0 txs).

(** The result a transaction of the level ends with, from the graph the
    level starts with. *)
Definition final (t : string) : option bool :=
  match skip_tx level dag0 t with
  | Ok true => Some false
  | Ok false =>
      match work level dag0 data t with
      | Ok (Some b) => Some b
      | _ => ValidationResults dag0 !! t
      end
  | _ => ValidationResults dag0 !! t
  end.

Definition results_after (done : list string) (d : TransactionDAG) : Prop :=
  ∀ t, ValidationResults d !! t =
    if decide (t ∈ done) then final t else ValidationResults dag0 !! t.

Definition linv (st : lstate) : Prop :=
  ∃ done, txs ≡ₚ done ++ l_running st ++ l_todo st ∧ same_graph (l_dag st) dag0 ∧
    (∀ t, t ∈ l_running st → skip_tx level dag0 t = Ok false) ∧
    results_after done (l_dag st).

Lemma skip_tx_stable done d t :
  (∀ x, x ∈ done → x ∈ txs) → t ∈ txs → same_graph d dag0 → results_after done d →
  skip_tx level d t = skip_tx level dag0 t.
Proof.
  intros Hsub Ht (En & _) Hres. unfold skip_tx. rewrite En.
  destruct (Z.ltb_spec 0 level) as [Hpos|]; [|done].
  destruct (Nodes dag0 !! t) as [node|] eqn:Enode; [|done]. cbn. do 2 f_equal.
  destruct Hlevel as (_ & _ & Hdeps). specialize (Hdeps Hpos t node).
  revert Hdeps. generalize (DependentTxIDs node) as deps.
  induction deps as [|d' deps IH]; intros Hdeps; [done|]. cbn [forallb].
  rewrite IH by (intros; apply Hdeps; [done..|by right]). f_equal.
  unfold IsValid. rewrite (Hres d'), decide_False; [done|].
  intros Hin%Hsub. apply (Hdeps d'); [done..|by left|done].
Qed.

Lemma results_after_record done d t w :
  same_graph d dag0 → results_after done d → t ∉ done →
  (match w with Some b => Some b | None => ValidationResults dag0 !! t end) = final t →
  results_after (t :: done) (record d t w).
Proof.
  intros Hg Hres Hnd Hfin x. rewrite record_results.
  destruct (decide (x = t)) as [->|Hne].
  - rewrite (decide_True (P := t ∈ t :: done)) by left. rewrite <- Hfin.
    destruct w; [done|]. rewrite Hres, decide_False by done. done.
  - rewrite (Hres x). assert (Hiff : x ∈ t :: done ↔ x ∈ done) by (rewrite elem_of_cons; tauto).
    destruct w; apply decide_ext; by rewrite Hiff.
Qed.

Lemma linv_mem done running todo (t : string) :
  txs ≡ₚ done ++ running ++ todo → t ∈ running ++ todo → t ∈ txs ∧ t ∉ done.
Proof.
  intros Hp Ht. destruct Hlevel as (Hnd & _). rewrite Hp in Hnd.
  apply NoDup_app in Hnd as (_ & Hdis & _). split.
  - rewrite Hp. apply elem_of_app. by right.
  - intros Hd. by apply (Hdis t).
Qed.

Lemma linv_sub done running todo (x : string) :
  txs ≡ₚ done ++ running ++ todo → x ∈ done → x ∈ txs.
Proof. intros -> ?. apply elem_of_app. by left. Qed.

Lemma linv_step st st' : linv st → lstep level limit data st st' → linv st'.
Proof.
  intros (done & Hp & Hg & Hrun & Hres) Hstep.
  destruct Hstep as [t todo running d Hskip | t todo running d Hskip _ | t todo bf af d w Hw];
    cbn [l_todo l_running l_dag] in *.
  - destruct (linv_mem _ _ _ t Hp) as [Ht Hnd]; [apply elem_of_app; right; left|].
    rewrite (skip_tx_stable done) in Hskip by (eauto using linv_sub).
    exists (t :: done). split_and!; [|done|done|].
    + rewrite Hp. solve_Permutation.
    + apply (results_after_record done d t (Some false)); [done..|].
      unfold final. by rewrite Hskip.
  - destruct (linv_mem _ _ _ t Hp) as [Ht Hnd]; [apply elem_of_app; right; left|].
    rewrite (skip_tx_stable done) in Hskip by (eauto using linv_sub).
    exists done. split_and!; [|done| |done].
    + rewrite Hp. solve_Permutation.
    + intros x [->|Hx]%elem_of_cons; [done|by apply Hrun].
  - destruct (linv_mem _ _ _ t Hp) as [Ht Hnd].
    { rewrite !elem_of_app, elem_of_cons. tauto. }
    assert (Hst : skip_tx level dag0 t = Ok false).
    { apply Hrun. rewrite elem_of_app, elem_of_cons. tauto. }
    rewrite (work_graph level d dag0) in Hw by done.
    exists (t :: done). split_and!.
    + rewrite Hp. solve_Permutation.
    + etrans; [apply record_graph|done].
    + intros x Hx. apply Hrun. rewrite elem_of_app, elem_of_cons. set_solver.
    + apply results_after_record; [done..|]. unfold final. rewrite Hst, Hw. by destruct w.
Qed.

Lemma linv_init : linv (mkLstate txs [] dag0).
Proof.
  exists []. split_and!; [done|done| |].
  - intros t Ht. by apply not_elem_of_nil in Ht.
  - intros t. by rewrite decide_False by apply not_elem_of_nil.
Qed.

Lemma linv_rtc st :
  rtc (lstep level limit data) (mkLstate txs [] dag0) st → linv st.
Proof.
  intros Hr. apply (rtc_ind_r linv (mkLstate txs [] dag0)) in Hr;
    [done|apply linv_init|]. intros. by eapply linv_step.
Qed.

(** Results of a finished level. *)
Lemma linv_end st :
  linv st → l_todo st = [] → l_running st = [] →
  same_graph (l_dag st) dag0 ∧ results_after txs (l_dag st).
Proof.
  intros (done & Hp & Hg & _ & Hres) Ht Hr. rewrite Ht, Hr, !app_nil_r in Hp.
  split; [done|]. intros t. rewrite (Hres t). apply decide_ext. by rewrite Hp.
Qed.

Lemma linv_progress st :
  linv st → nf (lstep level limit data) st → l_todo st = [] ∧ l_running st = [].
Proof.
  intros (done & Hp & Hg & Hrun & Hres) Hnf. destruct st as [todo running d].
  cbn [l_todo l_running l_dag] in *.
  assert (Hnode : ∀ t, t ∈ running ++ todo → is_Some (Nodes d !! t)).
  { intros t Ht. destruct Hg as (-> & _). apply Hlevel.
    by destruct (linv_mem done running todo t Hp Ht). }
  assert (Hfin : ∀ t r, running = t :: r → False).
  { intros t r ->. destruct (work_ok level dag0 data t) as [w Hw]; [done| |].
    { destruct Hg as (<- & _). apply Hnode. by left. }
    rewrite <- (work_graph level d dag0) in Hw by done.
    destruct Hnf. eexists. by apply (lstep_finish level limit data t todo [] r d w). }
  destruct running as [|t r]; [|by destruct (Hfin t r)].
  split; [|done]. destruct todo as [|t todo]; [done|]. exfalso.
  destruct (skip_tx_ok level d t) as [[] Hs]; [apply Hnode; by left| |];
    apply Hnf; eexists; [by eapply lstep_skip|].
  eapply lstep_spawn; [done|]. simpl. lia.
Qed.

Lemma lstep_sn st : sn (lstep level limit data) st.
Proof.
  remember (2 * length (l_todo st) + length (l_running st)) as n eqn:E.
  revert st E. induction (lt_wf n) as [n _ IH]; intros st ->.
  constructor. intros st' Hstep. eapply IH; [|done].
  destruct Hstep; cbn [l_todo l_running]; rewrite ?length_app; simpl; lia.
Qed.

Lemma run_tx_reach d t todo d' :
  run_tx level data d t = Ok d' →
  rtc (lstep level limit data) (mkLstate (t :: todo) [] d) (mkLstate todo [] d').
Proof.
  unfold run_tx. destruct (skip_tx level d t) as [[]| |] eqn:Es; go_simpl; intros E; simplify_eq.
  - by eapply rtc_once, lstep_skip.
  - destruct (work level d data t) as [w| |] eqn:Ew; go_simpl; simplify_eq.
    eapply rtc_l; [eapply lstep_spawn; [done|simpl; lia]|].
    eapply rtc_once. by apply (lstep_finish level limit data t todo [] [] d w).
Qed.

Lemma run_level_reach d ts d' :
  run_level level data d ts = Ok d' →
  rtc (lstep level limit data) (mkLstate ts [] d) (mkLstate [] [] d').
Proof.
  revert d. induction ts as [|t ts IH]; intros d E; cbn in E; [by simplify_eq|].
  destruct (run_tx level data d t) as [d1| |] eqn:E1; [|done..].
  etrans; [by apply run_tx_reach|]. by apply IH.
Qed.

Lemma run_level_ok ts d :
  (∀ t, t ∈ ts → is_Some (Nodes dag0 !! t)) → same_graph d dag0 →
  ∃ d', run_level level data d ts = Ok d' ∧ same_graph d' dag0.
Proof.
  revert d. induction ts as [|t ts IH]; intros d Hn Hg; [by exists d|].
  destruct (Hn t ltac:(by left)) as [node Hnode]. destruct Hg as (En & ?) eqn:Eg.
  assert (∃ d1, run_tx level data d t = Ok d1 ∧ same_graph d1 dag0) as (d1 & E1 & Hg1).
  { unfold run_tx. destruct (skip_tx_ok level d t) as [[] ->]; [rewrite En; by eexists| |]; go_simpl.
    - by eexists.
    - rewrite (work_graph level d dag0 data t Hg).
      destruct (work_ok level dag0 data t Hdag) as [w ->]; [by eexists|]. go_simpl.
      eexists. split; [done|]. etrans; [apply record_graph|done]. }
  cbn. rewrite E1. apply IH; [|done]. intros x Hx. apply Hn. by right.
Qed.

(** Everything a level can do, in one lemma. *)
Lemma level_runs :
  ∃ dag', run_level level data dag0 txs = Ok dag' ∧
    same_graph dag' dag0 ∧ results_after txs dag' ∧
    ∀ st, rtc (lstep level limit data) (mkLstate txs [] dag0) st →
      nf (lstep level limit data) st → st = mkLstate [] [] dag'.
Proof.
  destruct (run_level_ok txs dag0) as (dag' & E & _); [apply Hlevel|done|].
  pose proof (linv_rtc _ (run_level_reach _ _ _ E)) as Hinv.
  destruct (linv_end _ Hinv) as [Hg Hres]; [done..|]. cbn [l_dag] in *.
  exists dag'. split_and!; [done..|]. intros st Hr Hnf. pose proof (linv_rtc _ Hr) as Hst.
  destruct (linv_progress _ Hst Hnf) as [Ht Hrn].
  destruct (linv_end _ Hst Ht Hrn) as [Hg' Hres']. destruct st as [todo running d].
  cbn in *. subst. f_equal. apply same_graph_eq; [by etrans|].
  apply map_eq. intros t. by rewrite (Hres' t), (Hres t).
Qed.
End one_level.
End level_lemmas.

(** ** Properties *)


Section all_levels.
Context `{Codec} `{MapOrder} (data : list bytes) (dag : TransactionDAG).

(** What [CalculateLevels] guarantees about the levels. *)
Definition leveled : Prop :=
  (∀ t, is_Some (Nodes dag !! t) ↔ is_Some (Levels dag !! t)) ∧
  (∀ t l, Levels dag !! t = Some l → (0 ≤ l)%Z) ∧
  (∀ t l node d, Levels dag !! t = Some l → (0 < l)%Z → Nodes dag !! t = Some node →
     d ∈ DependentTxIDs node → ∃ l', Levels dag !! d = Some l' ∧ (l' < l)%Z).

(** The goroutine's answer, from the block alone. *)
Definition work_verdict (l : Z) (t : string) : bool :=
  match work l dag data t with Ok (Some b) => b | _ => false end.

(** The verdict on [t], given the verdicts [valid] on its dependencies. *)
Definition verdict (valid : string → bool) (l : Z) (node : TransactionDependency) (t : string) : bool :=
  ((l <=? 0)%Z || forallb valid (DependentTxIDs node)) && work_verdict l t.

Context (Hdag : dag_of dag data) (Hlev : leveled).

Let byLevel := GetTransactionsByLevel (map_range ["byLevel"] 0 (Levels dag)) dag.

Lemma byLevel_lookup l txs :
  byLevel !! l = Some txs →
  NoDup txs ∧ ∀ t, t ∈ txs ↔ Levels dag !! t = Some l.
Proof.
  unfold byLevel. rewrite GetTransactionsByLevel_lookup. intros E.
  assert (txs = filter (λ t, Levels dag !! t = Some l) (map_range ["byLevel"] 0 (Levels dag))) as ->.
  { by destruct (filter _ _); simplify_eq. }
  split.
  - apply NoDup_filter. eapply range_order_NoDup, map_range_ok.
  - intros t. rewrite list_elem_of_filter.
    rewrite (range_order_elem (Levels dag) _ t (map_range_ok _ _ _)). naive_solver.
Qed.

Lemma byLevel_none l t : byLevel !! l = None → Levels dag !! t ≠ Some l.
Proof.
  unfold byLevel. rewrite GetTransactionsByLevel_lookup. intros E Ht.
  assert (t ∈ filter (λ t, Levels dag !! t = Some l) (map_range ["byLevel"] 0 (Levels dag))) as Hin.
  { apply list_elem_of_filter. split; [done|].
    apply (range_order_elem (Levels dag) _ t (map_range_ok _ _ _)). eauto. }
  destruct (filter _ _); [by apply not_elem_of_nil in Hin|done].
Qed.

(** The invariant of the loop over levels, before level [k]. *)
Definition levels_inv (k : Z) (D : TransactionDAG) : Prop :=
  same_graph D dag ∧
  ∀ t l node, Levels dag !! t = Some l → Nodes dag !! t = Some node → (l < k)%Z →
    IsValid D t = verdict (IsValid D) l node t.

Lemma verdict_ext l node t (v v' : string → bool) :
  Levels dag !! t = Some l → Nodes dag !! t = Some node →
  (∀ d l', Levels dag !! d = Some l' → (l' < l)%Z → v d = v' d) →
  verdict v l node t = verdict v' l node t.
Proof.
  intros Hl Hn Hv. unfold verdict. f_equal. destruct (Z.leb_spec l 0) as [|Hpos]; [done|]. simpl.
  assert (Hd : ∀ d, d ∈ DependentTxIDs node → v d = v' d).
  { intros d Hd. destruct Hlev as (_ & _ & Hdep).
    destruct (Hdep t l node d Hl Hpos Hn Hd) as (l' & Hl' & Hlt). by eapply Hv. }
  revert Hd. generalize (DependentTxIDs node). induction l0 as [|d ds IH]; intros Hd; [done|].
  cbn. rewrite Hd by left. f_equal. apply IH. intros. apply Hd. by right.
Qed.

Lemma level_ok_at k D txs :
  same_graph D dag → byLevel !! k = Some txs → level_ok k D txs.
Proof.
  intros (En & _) E. destruct (byLevel_lookup k txs E) as [Hnd Hmem].
  destruct Hlev as (Hdom & _ & Hdep). rewrite <- En in Hdom, Hdep. split_and!; [done| |].
  - intros t Ht%Hmem. apply Hdom. eauto.
  - intros Hpos t node d Ht%Hmem Hn Hd Hin%Hmem.
    destruct (Hdep t k node d Ht Hpos Hn Hd) as (l' & Hl' & Hlt). simplify_eq. lia.
Qed.

Lemma dag_of_graph D : same_graph D dag → dag_of D data.
Proof. intros (En & _ & _ & Ei). unfold dag_of. by rewrite En, Ei. Qed.

Lemma final_verdict k D t node :
  same_graph D dag → Levels dag !! t = Some k → Nodes dag !! t = Some node →
  default false (final k data D t) = verdict (IsValid D) k node t.
Proof.
  intros Hg Hl Hn. unfold final, verdict, work_verdict, skip_tx.
  rewrite (work_graph k D dag) by done. destruct Hg as (-> & _ & _ & _). rewrite Hn.
  assert (∃ b, work k dag data t = Ok (Some b)) as [b Hw].
  { destruct (work_ok k dag data t Hdag ltac:(eauto)) as [w Hw]. rewrite Hw.
    destruct w as [b|]; [by eexists|]. exfalso. unfold work, GetIndexByTxID in Hw.
    destruct (proj1 (proj1 Hdag t)) as [i Hi]; [eauto|]. rewrite Hi in Hw.
    unfold index in Hw. destruct (data !! i); go_simpl; [|done].
    destruct (decode_tx _); [|done]. case_match; [|done]. rewrite Hn in Hw. cbn in Hw.
    by destruct (no_dep_conflict _ _ _ _ _). }
  rewrite Hw. destruct (Z.ltb_spec 0 k), (Z.leb_spec k 0); try lia; cbn.
  - by destruct (forallb (IsValid D) (DependentTxIDs node)).
  - done.
Qed.

Lemma level_step_inv k D :
  (0 ≤ k)%Z → levels_inv k D →
  ∃ D', match byLevel !! k with None => Ok D | Some txs => run_level k data D txs end = Ok D' ∧
    levels_inv (k + 1) D'.
Proof.
  intros Hk [Hg Hinv]. destruct (byLevel !! k) as [txs|] eqn:E.
  2:{ exists D. split; [done|]. split; [done|]. intros t l node Hl Hn Hlt.
      apply Hinv; [done..|]. pose proof (byLevel_none k t E).
      destruct (decide (l = k)) as [->|]; [done|lia]. }
  destruct (byLevel_lookup k txs E) as [Hnd Hmem].
  destruct (level_runs k 0 data D txs (dag_of_graph D Hg) (level_ok_at k D txs Hg E))
    as (D' & ER & Hg' & Hres & _).
  exists D'. split; [done|]. split; [by etrans|].
  assert (Hsame : ∀ d l, Levels dag !! d = Some l → (l < k)%Z → IsValid D' d = IsValid D d).
  { intros d l Hl Hlt. unfold IsValid. rewrite (Hres d), decide_False; [done|].
    intros Hd%Hmem. simplify_eq. lia. }
  intros t l node Hl Hn Hlt. destruct (decide (l = k)) as [->|Hne].
  - unfold IsValid at 1. rewrite (Hres t), decide_True by (by apply Hmem).
    change (match final k data D t with Some r => r | None => false end)
      with (default false (final k data D t)).
    rewrite (final_verdict k D t node) by done.
    apply verdict_ext; [done..|]. intros. symmetry. by eapply Hsame.
  - rewrite (Hsame t l) by (done || lia). rewrite (Hinv t l node) by (done || lia).
    apply verdict_ext; [done..|]. intros d l' Hl' ?. symmetry. eapply Hsame; [done|lia].
Qed.

Lemma levels_fold_inv n :
  ∃ D, foldM (λ d level, match byLevel !! level with
                         | None => Ok d | Some txs => run_level level data d txs end)
         dag (seqZ 0 (Z.of_nat n)) = Ok D ∧ levels_inv (Z.of_nat n) D.
Proof.
  induction n as [|n (D & E & Hinv)].
  - exists dag. split; [done|]. split; [done|]. intros t l node Hl _ Hlt.
    destruct Hlev as (_ & Hnn & _). apply Hnn in Hl. lia.
  - rewrite Nat2Z.inj_succ. unfold Z.succ. rewrite seqZ_app by lia.
    rewrite foldM_app, E. rewrite Z.add_0_l. cbn [seqZ foldM].
    destruct (level_step_inv (Z.of_nat n) D ltac:(lia) Hinv) as (D' & E' & Hinv').
    exists D'. split; [|done].
    change (seqZ (Z.of_nat n) 1) with [(0 + Z.of_nat n)%Z]. rewrite Z.add_0_l. cbn. by rewrite E'.
Qed.

(** Every level is reached, and the final verdicts satisfy their equation. *)
Lemma process_levels_result :
  ∃ D, process_levels data dag = Ok D ∧ same_graph D dag ∧
    ∀ t l node, Levels dag !! t = Some l → Nodes dag !! t = Some node →
      IsValid D t = verdict (IsValid D) l node t.
Proof.
  set (m := max_level ((map_to_list byLevel).*1)).
  pose proof (max_level_lb ((map_to_list byLevel).*1)) as Hm. fold m in Hm.
  destruct (levels_fold_inv (Z.to_nat (m + 1))) as (D & E & Hg & Hinv).
  rewrite Z2Nat.id in E, Hinv by lia. exists D. split_and!; [done..|].
  intros t l node Hl Hn. apply Hinv; [done..|].
  enough (l ≤ m)%Z by lia. apply max_level_ub.
  destruct (byLevel !! l) as [txs|] eqn:El; [|by destruct (byLevel_none l t El)].
  apply list_elem_of_fmap. exists (l, txs). split; [done|]. by apply elem_of_map_to_list.
Qed.
End all_levels.

(** ** Lemmas: building the graph *)
Section build.
Context `{Codec} `{MapOrder}.

(** The transaction id under which an entry of the block enters the graph. *)
Definition entry_id (raw : bytes) : option string :=
  match unmarshal_Envelope raw with
  | None => None
  | Some env =>
      match unmarshal_Payload (env_Payload env) with
      | None => None
      | Some payload =>
          match payload_Header payload with
          | None => None
          | Some hdr =>
              match unmarshal_ChannelHeader (hdr_ChannelHeader hdr),
                    unmarshal_Transaction (payload_Data payload) with
              | Some chdr, Some _ => Some (chdr_TxId chdr)
              | _, _ => None
              end
          end
      end
  end.

(** The entry decodes to a payload without a header. *)
Definition nil_header (raw : bytes) : bool :=
  match unmarshal_Envelope raw with
  | None => false
  | Some env =>
      match unmarshal_Payload (env_Payload env) with
      | None => false
      | Some payload => match payload_Header payload with None => true | Some _ => false end
      end
  end.

Lemma add_entry_cases dag i raw :
  (nil_header raw = true ∧ is_panic (add_entry dag (i, raw)) = true) ∨
  (nil_header raw = false ∧
    match entry_id raw with
    | None => add_entry dag (i, raw) = Ok dag
    | Some t => ∃ h d, add_entry dag (i, raw) = Ok (AddTransaction dag t i h d)
    end).
Proof.
  unfold nil_header, entry_id, add_entry.
  destruct (unmarshal_Envelope raw) as [env|]; [|by right].
  destruct (unmarshal_Payload _) as [pl|]; [|by right].
  destruct (payload_Header pl) as [hdr|]; [right|by left]. split; [done|]. cbn.
  destruct (unmarshal_ChannelHeader _) as [chdr|]; [|done].
  destruct (unmarshal_Transaction _) as [tx|]; [|done].
  destruct (scan_actions (tx_Actions tx) false "") as [h d]. eauto.
Qed.

Lemma build_nodes_snoc data raw :
  build_nodes (data ++ [raw]) =
  match build_nodes data with
  | Ok dag => add_entry dag (length data, raw)
  | Err e => Err e
  | Panic e => Panic e
  end.
Proof.
  unfold build_nodes. rewrite imap_app, foldM_app. cbn. rewrite Nat.add_0_r.
  destruct (foldM _ _ _) as [d| |]; [|done..]. by match goal with |- _ = ?r => destruct r end.
Qed.

(** What the graph of a block contains. *)
Record built (data : list bytes) (dag : TransactionDAG) : Prop := {
  built_wf : dag_wf dag;
  built_fresh : ValidationResults dag = ∅;
  built_index : ∀ t i, TxIndices dag !! t = Some i →
    (∃ raw, data !! i = Some raw ∧ entry_id raw = Some t) ∧
    ∀ j raw, data !! j = Some raw → entry_id raw = Some t → j ≤ i;
  built_all : ∀ j raw t, data !! j = Some raw → entry_id raw = Some t →
    is_Some (TxIndices dag !! t)
}.

Lemma built_nil : built [] NewTransactionDAG.
Proof.
  split; [apply NewTransactionDAG_wf|done|..].
  - intros t i. cbn. by rewrite lookup_empty.
  - intros j raw t. by rewrite lookup_nil.
Qed.

Lemma AddTransaction_results dag t i h d :
  ValidationResults (AddTransaction dag t i h d) = ValidationResults dag.
Proof. unfold AddTransaction. by case_match. Qed.

Lemma lookup_snoc_Some' {A} (l : list A) (x y : A) (i : nat) :
  (l ++ [x]) !! i = Some y ↔ (i < length l ∧ l !! i = Some y) ∨ (i = length l ∧ x = y).
Proof. apply lookup_snoc_Some. Qed.

Lemma built_snoc data dag raw :
  built data dag →
  match entry_id raw with
  | None => built (data ++ [raw]) dag
  | Some t => ∀ h d, built (data ++ [raw]) (AddTransaction dag t (length data) h d)
  end.
Proof.
  intros [Hwf Hf Hi Ha]. destruct (entry_id raw) as [t|] eqn:Et.
  - intros h d. split.
    + by apply AddTransaction_wf.
    + by rewrite AddTransaction_results.
    + intros t' i. rewrite AddTransaction_index. destruct (decide (t' = t)) as [->|Hne].
      * rewrite lookup_insert_eq. intros [= <-]. split.
        { exists raw. split; [|done]. apply lookup_snoc_Some'. by right. }
        intros j r [[? _]|[? _]]%lookup_snoc_Some' _; lia.
      * rewrite lookup_insert_ne by done. intros Hti. destruct (Hi t' i Hti) as [(r & Hr & Er) Hmax].
        split; [exists r; split; [|done]; apply lookup_snoc_Some'; left;
                split; [by eapply lookup_lt_Some|done]|].
        intros j r' [[? Hj]|[? <-]]%lookup_snoc_Some' Er'; [by eapply Hmax|congruence].
    + intros j r t' Hj Er. rewrite AddTransaction_index. destruct (decide (t' = t)) as [->|Hne];
        [by rewrite lookup_insert_eq|]. rewrite lookup_insert_ne by done.
      apply lookup_snoc_Some' in Hj as [[? Hj]|[? <-]]; [by eapply Ha|congruence].
  - split; [done|done|..].
    + intros t' i Hti. destruct (Hi t' i Hti) as [(r & Hr & Er) Hmax].
      split; [exists r; split; [|done]; apply lookup_snoc_Some'; left;
              split; [by eapply lookup_lt_Some|done]|].
      intros j r' [[? Hj]|[? <-]]%lookup_snoc_Some' Er'; [by eapply Hmax|congruence].
    + intros j r t' [[? Hj]|[? <-]]%lookup_snoc_Some' Er; [by eapply Ha|congruence].
Qed.

Lemma build_nodes_result data :
  (Exists (λ raw, nil_header raw = true) data ∧ is_panic (build_nodes data) = true) ∨
  (Forall (λ raw, nil_header raw = false) data ∧ ∃ dag, build_nodes data = Ok dag ∧ built data dag).
Proof.
  induction data as [|raw data IH] using rev_ind.
  { right. split; [done|]. exists NewTransactionDAG. split; [done|apply built_nil]. }
  rewrite build_nodes_snoc. destruct IH as [[Hex Hp]|(Hall & dag & E & Hb)].
  { left. split; [apply Exists_app; by left|]. by destruct (build_nodes data). }
  rewrite E. destruct (add_entry_cases dag (length data) raw) as [[Hn Hp]|[Hn Hc]].
  { left. split; [|done]. apply Exists_app. right. by constructor. }
  right. split; [apply Forall_app; split; [done|by repeat constructor]|].
  pose proof (built_snoc data dag raw Hb) as Hb'. destruct (entry_id raw) as [t|].
  - destruct Hc as (h & d & ->). eexists. split; [done|apply Hb'].
  - rewrite Hc. by eexists.
Qed.

Lemma built_dag_of data dag : built data dag → dag_of dag data.
Proof.
  intros [Hwf _ Hi _]. split; [apply Hwf|].
  intros t i Hti. destruct (Hi t i Hti) as [(raw & Hr & _) _]. by eapply lookup_lt_Some.
Qed.

(** The levels [BuildDAGFromBlock] leaves are those [process_levels] expects. *)
Lemma CalculateLevels_leveled ords dag :
  (∀ k, range_order (Nodes dag) (ords k)) →
  ∃ lv, CalculateLevels ords dag = Some (set_Levels dag lv) ∧ leveled (set_Levels dag lv).
Proof.
  intros Hords. destruct (CalculateLevels_result dag ords Hords) as (lv & E & Hlv).
  exists lv. split; [done|]. unfold leveled. cbn. split_and!.
  - intros t. split.
    + intros Hn. destruct (lv !! t) as [l|] eqn:El; [by eexists|].
      exfalso. assert (∀ m, ¬ Depth (Nodes dag) t m) as Hno.
      { intros m Hm. rewrite (proj2 (Hlv t m)) in El; [done|]. split; [done|by left]. }
      rewrite (proj2 (Hlv t 0%Z)) in El; [done|]. split; [done|by right].
    + intros [l Hl]. by apply Hlv in Hl as [? _].
  - intros t l Hl. apply Hlv in Hl as [_ [Hd|[_ ->]]]; [by eapply Depth_nonneg|lia].
  - intros t l node d Hl Hpos Hn Hd. apply Hlv in Hl as [_ [Hdep|[_ ->]]]; [|lia].
    destruct (Depth_dep_lt _ _ _ _ _ Hdep Hpos Hn Hd) as (l' & Hl' & Hlt).
    exists l'. split; [|done]. apply Hlv. split; [by eapply Depth_node|by left].
Qed.

Lemma built_set_Levels data dag lv : built data dag → built data (set_Levels dag lv).
Proof.
  intros [[] ? ? ?]. split; [split|..]; done.
Qed.

Lemma BuildDAG_result block data :
  blk_Data block = Some data →
  Forall (λ raw, nil_header raw = false) data →
  ∃ dag, BuildDAGFromBlock block = Ok dag ∧ built data dag ∧ leveled dag.
Proof.
  intros Ed Hall. unfold BuildDAGFromBlock. rewrite Ed. cbn.
  destruct (build_nodes_result data) as [[Hex _]|(_ & dag & -> & Hb)].
  { exfalso. apply Exists_exists in Hex as (r & Hin & Hr).
    rewrite Forall_forall in Hall. rewrite Hall in Hr; done. }
  cbn. destruct (CalculateLevels_leveled (λ k, map_range ["levels"] k (Nodes dag)) dag)
    as (lv & -> & Hlev); [intros; apply map_range_ok|].
  eexists. split; [done|]. split; [by apply built_set_Levels|done].
Qed.
End build.

(** ** Lemmas: the validation flags *)
Section flags.
Context `{Codec} `{MapOrder}.

Lemma flag_fold dag n ks fl :
  (∀ t i, TxIndices dag !! t = Some i → i < n) → length fl = n →
  ∃ fl', foldM (flag_step dag) fl ks = Ok fl' ∧ length fl' = n ∧
    ∀ i, fl' !! i =
      if decide (Exists (λ t, TxIndices dag !! t = Some i ∧ IsValid dag t = false) ks)
      then Some TxValidationCode_MVCC_READ_CONFLICT else fl !! i.
Proof.
  intros Hn. revert fl. induction ks as [|t ks IH]; intros fl Hlen; cbn [foldM].
  { exists fl. split_and!; [done..|]. intros i. rewrite decide_False; [done|]. by inversion 1. }
  unfold flag_step at 1, GetIndexByTxID, set_flag.
  assert (Hskip : (∀ i, ¬ (TxIndices dag !! t = Some i ∧ IsValid dag t = false)) →
    ∀ i, Exists (λ t, TxIndices dag !! t = Some i ∧ IsValid dag t = false) (t :: ks) ↔
         Exists (λ t, TxIndices dag !! t = Some i ∧ IsValid dag t = false) ks).
  { intros Hno i. rewrite Exists_cons. split; [intros [Hc|]; [by destruct (Hno i)|done]|by right]. }
  destruct (TxIndices dag !! t) as [j|] eqn:Ej.
  2:{ destruct (IH fl Hlen) as (fl' & E & Hl & Hfl). exists fl'. split_and!; [done..|].
      intros i. rewrite Hfl. apply decide_ext. rewrite Hskip; [done|]. naive_solver. }
  destruct (IsValid dag t) eqn:Ev.
  { destruct (IH fl Hlen) as (fl' & E & Hl & Hfl). exists fl'. split_and!; [done..|].
    intros i. rewrite Hfl. apply decide_ext. rewrite Hskip; [done|]. naive_solver. }
  pose proof (Hn t j Ej) as Hj. destruct (Nat.ltb_spec j (length fl)) as [_|]; [|lia].
  destruct (IH (<[j := u8 TxValidationCode_MVCC_READ_CONFLICT]> fl)) as (fl' & E & Hl & Hfl);
    [by rewrite length_insert|]. exists fl'. split_and!; [done..|]. intros i. rewrite Hfl.
  destruct (decide (i = j)) as [->|Hne].
  - rewrite (decide_True (P := Exists _ (t :: ks))) by (by left).
    rewrite list_lookup_insert_eq by lia. by case_decide.
  - rewrite list_lookup_insert_ne by done. apply decide_ext. rewrite Exists_cons.
    split; [by right|]. intros [[? _]|?]; [congruence|done].
Qed.

Lemma tx_filter_result dag n :
  (∀ t i, TxIndices dag !! t = Some i → i < n) →
  (∀ t, is_Some (Nodes dag !! t) ↔ is_Some (TxIndices dag !! t)) →
  ∃ fl, tx_filter dag n = Ok fl ∧ length fl = n ∧
    ∀ i, i < n →
      fl !! i = Some TxValidationCode_VALID ∧
        (∀ t, TxIndices dag !! t = Some i → IsValid dag t = true) ∨
      fl !! i = Some TxValidationCode_MVCC_READ_CONFLICT ∧
        ∃ t, TxIndices dag !! t = Some i ∧ IsValid dag t = false.
Proof.
  intros Hn Hdom. destruct (flag_fold dag n (map_range ["flags"] 0 (Nodes dag))
    (replicate n TxValidationCode_VALID)) as (fl & E & Hl & Hfl); [done|apply length_replicate|].
  exists fl. split_and!; [done..|]. intros i Hi. rewrite Hfl. case_decide as Hex.
  - right. split; [done|]. apply Exists_exists in Hex as (t & _ & Ht). by exists t.
  - left. rewrite lookup_replicate_2 by done. split; [done|]. intros t Ht.
    destruct (IsValid dag t) eqn:Ev; [done|]. destruct Hex. apply Exists_exists. exists t.
    split; [|done]. apply (range_order_elem (Nodes dag) _ t (map_range_ok _ _ _)).
    apply Hdom. eauto.
Qed.

Lemma update_metadata_ok md fl :
  2 ≤ length md →
  ∃ md', update_metadata md fl = Ok md' ∧ md' !! 2 = Some (bytes_of_flags fl) ∧
    ∀ i, i < length md → i ≠ 2 → md' !! i = md !! i.
Proof.
  intros Hlen. unfold update_metadata, BlockMetadataIndex_TRANSACTIONS_FILTER.
  destruct (Nat.leb_spec (length md) 2) as [Hle|Hgt].
  - destruct (Nat.ltb_spec 2 (length (md ++ [""]))) as [_|Hc];
      [|rewrite length_app in Hc; simpl in Hc; lia].
    eexists. split; [done|]. rewrite list_lookup_insert_eq by (rewrite length_app; simpl; lia).
    split; [done|]. intros i Hi Hne. rewrite list_lookup_insert_ne by done.
    by apply lookup_app_l.
  - destruct (Nat.ltb_spec 2 (length md)); [|lia].
    eexists. split; [done|]. rewrite list_lookup_insert_eq by lia.
    split; [done|]. intros i Hi Hne. by rewrite list_lookup_insert_ne.
Qed.

Lemma same_graph_index D dag : same_graph D dag → TxIndices D = TxIndices dag ∧ Nodes D = Nodes dag.
Proof. by intros (? & ? & ? & ?). Qed.

(** From the block's graph to the block handed to the ledger. *)
Lemma validated_block_result block data md dag :
  blk_Data block = Some data → blk_Metadata block = Some md → 2 ≤ length md →
  built data dag → leveled dag →
  ∃ D fl md',
    process_levels data dag = Ok D ∧ same_graph D dag ∧
    validated_block block dag = Ok (set_Metadata block md') ∧
    md' !! 2 = Some (bytes_of_flags fl) ∧ length fl = length data ∧
    (∀ i, i < length md → i ≠ 2 → md' !! i = md !! i) ∧
    (∀ t l node, Levels dag !! t = Some l → Nodes dag !! t = Some node →
      IsValid D t = verdict data dag (IsValid D) l node t) ∧
    ∀ i, i < length data →
      fl !! i = Some TxValidationCode_VALID ∧
        (∀ t, TxIndices dag !! t = Some i → IsValid D t = true) ∨
      fl !! i = Some TxValidationCode_MVCC_READ_CONFLICT ∧
        ∃ t, TxIndices dag !! t = Some i ∧ IsValid D t = false.
Proof.
  intros Ed Em Hlen Hb Hlev. pose proof (built_dag_of data dag Hb) as Hdag.
  destruct (process_levels_result data dag Hdag Hlev) as (D & ED & Hg & Hver).
  destruct (same_graph_index D dag Hg) as [Ei En].
  destruct (tx_filter_result D (length data)) as (fl & Ef & Hl & Hfl).
  { rewrite Ei. apply Hdag. }
  { rewrite Ei, En. apply Hdag. }
  destruct (update_metadata_ok md fl Hlen) as (md' & Emd & H2 & Hrest).
  exists D, fl, md'. rewrite Ei in Hfl. split_and!; try done.
  unfold validated_block. rewrite Ed. cbn. rewrite ED. cbn. rewrite Em. cbn. rewrite Ef. cbn.
  by rewrite Emd.
Qed.
End flags.

