(* ===== verification/CommitterSpec.v ===== *)
(** * CommitterSpec: what committing a block along its graph guarantees

    The properties of core/committer/committer_impl.go, over the lemmas of
    [TxDag], [RwConflict] and [Committer]. [run_of] says that a block's graph
    was built and processed with the flags [fl]; the theorems describe those
    flags, the block handed to the ledger and the ways the commit can fail. *)

From S2P Require Import Prelude GoText DepInfo TxDag Protos TxFlags RwConflict Committer.

Section runs.
Context `{Codec} `{MapOrder}.

(** A run on [block]: its graph [dag], the graph [D] after all levels, and
    the validation flags [fl]. *)
Definition run_of (block : Block) (dag D : TransactionDAG) (fl : list Z) : Prop :=
  BuildDAGFromBlock block = Ok dag ∧
  ∃ data, blk_Data block = Some data ∧ process_levels data dag = Ok D ∧
    tx_filter D (length data) = Ok fl.

Lemma BuildDAG_Ok_inv block dag :
  BuildDAGFromBlock block = Ok dag →
  ∃ data, blk_Data block = Some data ∧ built data dag ∧ leveled dag.
Proof.
  intros E. destruct (blk_Data block) as [data|] eqn:Ed;
    [|unfold BuildDAGFromBlock in E; by rewrite Ed in E].
  exists data. split; [done|].
  destruct (build_nodes_result data) as [[_ Hp]|[Hall _]].
  { unfold BuildDAGFromBlock in E. rewrite Ed in E. cbn in E.
    by destruct (build_nodes data). }
  destruct (BuildDAG_result block data Ed Hall) as (dag' & E' & Hb & Hl).
  rewrite E' in E. injection E as <-. done.
Qed.

Lemma built_index_inj data dag t t' i :
  built data dag → TxIndices dag !! t = Some i → TxIndices dag !! t' = Some i → t = t'.
Proof.
  intros Hb Ht Ht'. destruct (built_index _ _ Hb t i Ht) as [(r & Hr & Er) _].
  destruct (built_index _ _ Hb t' i Ht') as [(r' & Hr' & Er') _]. congruence.
Qed.

(** The flags of a run, by transaction and by position. *)
Lemma run_of_inv block dag D fl :
  run_of block dag D fl →
  ∃ data, blk_Data block = Some data ∧ built data dag ∧ leveled dag ∧ same_graph D dag ∧
    length fl = length data ∧
    (∀ t l node, Levels dag !! t = Some l → Nodes dag !! t = Some node →
      IsValid D t = verdict data dag (IsValid D) l node t) ∧
    (∀ t i, TxIndices dag !! t = Some i →
      fl !! i = Some (if IsValid D t then TxValidationCode_VALID
                      else TxValidationCode_MVCC_READ_CONFLICT)) ∧
    (∀ i, i < length data → (∀ t, TxIndices dag !! t ≠ Some i) →
      fl !! i = Some TxValidationCode_VALID).
Proof.
  intros (EB & data & Ed & EP & EF).
  destruct (BuildDAG_Ok_inv block dag EB) as (data' & Ed' & Hb & Hlev). simplify_eq.
  pose proof (built_dag_of data dag Hb) as Hdag.
  destruct (process_levels_result data dag Hdag Hlev) as (D' & ED & Hg & Hver).
  assert (D' = D) as -> by congruence.
  destruct (same_graph_index D dag Hg) as [Ei En].
  destruct (tx_filter_result D (length data)) as (fl' & Ef & Hl & Hfl).
  { rewrite Ei. apply Hdag. }
  { rewrite Ei, En. apply Hdag. }
  assert (fl' = fl) as -> by congruence. rewrite Ei in Hfl. exists data. split_and!; try done.
  - intros t i Hti. destruct (Hfl i (proj2 Hdag t i Hti)) as [[-> Hv]|[-> (t' & Ht' & Hv)]].
    + by rewrite (Hv t Hti).
    + rewrite (built_index_inj data dag t t' i) by done. by rewrite Hv.
  - intros i Hi Hno. destruct (Hfl i Hi) as [[-> _]|[_ (t & Ht & _)]]; [done|].
    by destruct (Hno t).
Qed.

Lemma run_of_level block dag D fl t i :
  run_of block dag D fl → TxIndices dag !! t = Some i →
  ∃ l node, Levels dag !! t = Some l ∧ Nodes dag !! t = Some node.
Proof.
  intros (data & _ & Hb & Hlev & _)%run_of_inv Hti.
  assert (is_Some (Nodes dag !! t)) as [node Hn] by (apply (wf_index dag (built_wf _ _ Hb)); eauto).
  destruct (proj1 (proj1 Hlev t) ltac:(eauto)) as [l Hl]. eauto.
Qed.

(** A conflicting dependency makes the goroutine answer false. *)
Lemma no_dep_conflict_hit id dag data tx deps d j raw dtx m1 m2 :
  d ∈ deps → TxIndices dag !! d = Some j → data !! j = Some raw → decode_tx raw = Some dtx →
  extractRWSet tx = Some m1 → extractRWSet dtx = Some m2 → decodable m1 → decodable m2 →
  tx_overlap m1 m2 → no_dep_conflict id dag data tx deps ≠ Ok true.
Proof.
  intros Hd Hj Hraw Hdec E1 E2 D1 D2 Ho.
  induction deps as [|x deps IH]; [by apply not_elem_of_nil in Hd|].
  cbn [no_dep_conflict]. unfold GetIndexByTxID.
  apply elem_of_cons in Hd as [->|Hd].
  - rewrite Hj. unfold index. rewrite Hraw. cbn. rewrite Hdec.
    rewrite (proj2 (checkRWSetConflicts_overlap (map_range [id; x] (length deps)) tx dtx m1 m2
      (λ m, map_range_ok _ _ m) E1 E2 D1 D2) Ho). done.
  - specialize (IH Hd). destruct (TxIndices dag !! x) as [k|]; [|done].
    destruct (index data k) as [r| |]; [|done..]. cbn. destruct (decode_tx r); [|done].
    by case_match.
Qed.
End runs.

(** ** Properties *)

(** C6: committing a block whose entries all carry a header computes the flags
    of every transaction. The graph is built and processed, the block handed
    to the ledger carries the flags [fl] in its filter slot and is otherwise
    unchanged; a transaction of the graph is flagged VALID exactly when it is
    at level 0 or all its dependencies are valid, and its own check succeeds;
    otherwise it is flagged MVCC_READ_CONFLICT. *)
Theorem commit_flags_spec `{Codec} `{MapOrder} (block : Block) (data md : list bytes) :
  blk_Data block = Some data → Forall (λ raw, nil_header raw = false) data →
  blk_Metadata block = Some md → 2 ≤ length md →
  ∃ dag D fl md',
    run_of block dag D fl ∧
    validated_block block dag = Ok (set_Metadata block md') ∧
    md' !! 2 = Some (bytes_of_flags fl) ∧
    (∀ i, i < length md → i ≠ 2 → md' !! i = md !! i) ∧
    length fl = length data ∧
    ∀ t i, TxIndices dag !! t = Some i →
      ∃ l node, Levels dag !! t = Some l ∧ Nodes dag !! t = Some node ∧
        IsValid D t = verdict data dag (IsValid D) l node t ∧
        fl !! i = Some (if IsValid D t then TxValidationCode_VALID
                        else TxValidationCode_MVCC_READ_CONFLICT).
Proof.
  intros Ed Hall Em Hlen. destruct (BuildDAG_result block data Ed Hall) as (dag & EB & Hb & Hlev).
  destruct (validated_block_result block data md dag Ed Em Hlen Hb Hlev)
    as (D & fl & md' & EP & Hg & EV & H2 & Hl & Hrest & Hver & _).
  assert (EF : ∃ fl', tx_filter D (length data) = Ok fl' ∧ md' !! 2 = Some (bytes_of_flags fl')).
  { unfold validated_block in EV. rewrite Ed in EV. cbn in EV. rewrite EP in EV. cbn in EV.
    rewrite Em in EV. cbn in EV. destruct (tx_filter D (length data)) as [fl'| |]; [|done..].
    exists fl'. split; [done|]. cbn in EV.
    destruct (update_metadata_ok md fl' Hlen) as (md2 & E2 & H2' & _). rewrite E2 in EV.
    unfold set_Metadata in EV.
    unfold mbind, outcome_bind in EV. injection EV as <-. done. }
  destruct EF as (fl' & EF & H2'). exists dag, D, fl', md'.
  assert (Hrun : run_of block dag D fl') by (split; [done|]; eauto).
  destruct (run_of_inv block dag D fl' Hrun) as (data' & Ed' & _ & _ & _ & Hl' & Hver' & Hfl & _).
  assert (data' = data) as -> by congruence.
  split; [done|]. split; [done|]. split; [done|]. split; [done|]. split; [done|]. intros t i Hti.
  destruct (run_of_level block dag D fl' t i Hrun Hti) as (l & node & Hlv & Hn).
  exists l, node. split_and!; [done..|by apply Hver'|by apply Hfl].
Qed.

(** Invalidation cascades: a transaction at a positive level that is flagged
    VALID depends only on transactions of the same block that are flagged VALID. *)
Theorem valid_needs_valid_dependencies `{Codec} `{MapOrder} (block : Block)
    (dag D : TransactionDAG) (fl : list Z) (t d : string) (i : nat) (l : Z)
    (node : TransactionDependency) :
  run_of block dag D fl →
  TxIndices dag !! t = Some i → fl !! i = Some TxValidationCode_VALID →
  Levels dag !! t = Some l → (0 < l)%Z →
  Nodes dag !! t = Some node → d ∈ DependentTxIDs node →
  ∃ j, TxIndices dag !! d = Some j ∧ fl !! j = Some TxValidationCode_VALID.
Proof.
  intros Hrun Hti Hv Hl Hpos Hn Hd.
  destruct (run_of_inv block dag D fl Hrun) as (data & _ & Hb & Hlev & _ & _ & Hver & Hfl & _).
  rewrite (Hfl t i Hti) in Hv. destruct (IsValid D t) eqn:Et; [|done].
  rewrite (Hver t l node Hl Hn) in Et. unfold verdict in Et.
  apply andb_true_iff in Et as [Hdeps _]. destruct (Z.leb_spec l 0) as [|_]; [lia|]. simpl in Hdeps.
  assert (Hdv : IsValid D d = true).
  { apply forallb_forall with (x := d) in Hdeps; [done|]. by apply list_elem_of_In. }
  destruct Hlev as (Hdom & _ & Hdep). destruct (Hdep t l node d Hl Hpos Hn Hd) as (l' & Hl' & _).
  destruct (proj1 (wf_index dag (built_wf _ _ Hb) d)) as [j Hj]; [apply Hdom; eauto|].
  exists j. split; [done|]. rewrite (Hfl d j Hj), Hdv. done.
Qed.

(** A transaction that really conflicts with what it depends on is never
    committed with it: at a positive level, if its read-write set shares a
    written key with one of its dependencies in the block, it is flagged
    MVCC_READ_CONFLICT even when the dependency is valid and ordered first. *)
Theorem overlapping_dependent_rejected `{Codec} `{MapOrder} (block : Block)
    (dag D : TransactionDAG) (fl : list Z) (data : list bytes) (t d : string) (i j : nat) (l : Z)
    (node : TransactionDependency) (raw draw : bytes) (tx dtx : Transaction)
    (m1 m2 : gmap string NsReadWriteSet) :
  run_of block dag D fl → blk_Data block = Some data →
  TxIndices dag !! t = Some i → TxIndices dag !! d = Some j →
  Levels dag !! t = Some l → (0 < l)%Z →
  Nodes dag !! t = Some node → d ∈ DependentTxIDs node →
  data !! i = Some raw → decode_tx raw = Some tx →
  data !! j = Some draw → decode_tx draw = Some dtx →
  extractRWSet tx = Some m1 → extractRWSet dtx = Some m2 → decodable m1 → decodable m2 →
  tx_overlap m1 m2 →
  fl !! i = Some TxValidationCode_MVCC_READ_CONFLICT.
Proof.
  intros Hrun Ed Hti Hdj Hl Hpos Hn Hd Hr Htx Hdr Hdtx E1 E2 D1 D2 Ho.
  destruct (run_of_inv block dag D fl Hrun) as (data' & Ed' & _ & _ & _ & _ & Hver & Hfl & _).
  simplify_eq. rewrite (Hfl t i Hti). rewrite (Hver t l node Hl Hn).
  assert (work_verdict data dag l t = false) as Hw.
  { unfold work_verdict, work, GetIndexByTxID. rewrite Hti. unfold index. rewrite Hr. cbn.
    rewrite Htx. destruct (Z.ltb_spec 0 l); [|lia]. cbn.
    destruct (forallb action_ok (tx_Actions tx)); [|done]. rewrite Hn. cbn.
    pose proof (no_dep_conflict_hit t dag data tx (DependentTxIDs node) d j draw dtx m1 m2
      Hd Hdj Hdr Hdtx E1 E2 D1 D2 Ho) as Hne.
    destruct (no_dep_conflict _ _ _ _ _) as [[]| |]; done. }
  unfold verdict. rewrite Hw, andb_false_r. done.
Qed.

(** A transaction of the graph one of whose actions does not decode to a
    chaincode action with a response of status 200 is flagged
    MVCC_READ_CONFLICT, whatever its level. The bytes decoded here are the
    action's payload itself, which the client fills with a
    ChaincodeActionPayload, not with the chaincode action nested in it. *)
Theorem failed_action_rejected `{Codec} `{MapOrder} (block : Block)
    (dag D : TransactionDAG) (fl : list Z) (data : list bytes) (t : string) (i : nat)
    (raw : bytes) (tx : Transaction) (action : TransactionAction) :
  run_of block dag D fl → blk_Data block = Some data → TxIndices dag !! t = Some i →
  data !! i = Some raw → decode_tx raw = Some tx → action ∈ tx_Actions tx →
  (∀ cca, unmarshal_ChaincodeAction (action_Payload action) = Some cca →
     resp_Status <$> cca_Response cca ≠ Some 200%Z) →
  fl !! i = Some TxValidationCode_MVCC_READ_CONFLICT.
Proof.
  intros Hrun Ed Hti Hr Htx Ha Hbad.
  destruct (run_of_level block dag D fl t i Hrun Hti) as (l & node & Hl & Hn).
  destruct (run_of_inv block dag D fl Hrun) as (data' & Ed' & _ & _ & _ & _ & Hver & Hfl & _).
  simplify_eq. rewrite (Hfl t i Hti), (Hver t l node Hl Hn).
  assert (forallb action_ok (tx_Actions tx) = false) as Hf.
  { apply not_true_iff_false. rewrite forallb_forall. intros Hall.
    specialize (Hall action (proj1 (list_elem_of_In _ _) Ha)). unfold action_ok in Hall.
    destruct (unmarshal_ChaincodeAction (action_Payload action)) as [cca|]; [|done].
    specialize (Hbad cca eq_refl). destruct (cca_Response cca) as [resp|]; [|done].
    apply Z.eqb_eq in Hall. simpl in Hbad. congruence. }
  assert (work_verdict data dag l t = false) as Hw.
  { unfold work_verdict, work, GetIndexByTxID. rewrite Hti. unfold index. rewrite Hr. cbn.
    rewrite Htx, Hf, andb_false_r. done. }
  unfold verdict. by rewrite Hw, andb_false_r.
Qed.

(** The flags a block arrives with do not matter. Whatever validation codes
    the transaction validator left in the filter slot, the block handed to the
    ledger is the same one, so a transaction already rejected (for instance for
    its endorsement policy) is committed as the graph processing decides. *)
Theorem incoming_flags_ignored `{Codec} `{MapOrder} (block : Block) (dag : TransactionDAG)
    (md : list bytes) (codes : bytes) :
  blk_Metadata block = Some md → 2 < length md →
  validated_block (set_Metadata block (<[2 := codes]> md)) dag = validated_block block dag.
Proof.
  intros Em Hlen. unfold validated_block. cbn [blk_Data blk_Metadata set_Metadata].
  destruct (blk_Data block) as [data|]; [|done]. cbn.
  destruct (process_levels data dag) as [D| |]; [|done..]. cbn. rewrite Em. cbn.
  destruct (tx_filter D (length data)) as [fl| |]; [|done..]. cbn.
  unfold update_metadata, BlockMetadataIndex_TRANSACTIONS_FILTER. rewrite length_insert.
  destruct (Nat.leb_spec (length md) 2) as [|_]; [lia|].
  rewrite length_insert. destruct (Nat.ltb_spec 2 (length md)) as [_|]; [|lia].
  by rewrite list_insert_insert_eq.
Qed.

(** A block with fewer than two metadata entries crashes the committer: one
    entry is appended, and the filter slot is still out of range. *)
Theorem short_metadata_panics `{Codec} `{MapOrder} (block : Block) (dag D : TransactionDAG)
    (fl : list Z) (md : list bytes) :
  run_of block dag D fl → blk_Metadata block = Some md → length md < 2 →
  is_panic (validated_block block dag) = true.
Proof.
  intros (_ & data & Ed & EP & EF) Em Hlen. unfold validated_block. rewrite Ed. cbn.
  rewrite EP. cbn. rewrite Em. cbn. rewrite EF. cbn.
  unfold update_metadata, BlockMetadataIndex_TRANSACTIONS_FILTER.
  destruct (Nat.leb_spec (length md) 2) as [_|]; [|lia].
  destruct (Nat.ltb_spec 2 (length (md ++ [""]))) as [Hc|_]; [|done].
  rewrite length_app in Hc. simpl in Hc. lia.
Qed.

(** A position of the block whose entry has no node in the graph is flagged
    VALID: an entry that does not decode to a transaction, and every occurrence
    but the last of a repeated transaction id. *)
Theorem unindexed_entries_flagged_valid `{Codec} `{MapOrder} (block : Block)
    (dag D : TransactionDAG) (fl : list Z) (data : list bytes) (i : nat) (raw : bytes) :
  run_of block dag D fl → blk_Data block = Some data → data !! i = Some raw →
  (entry_id raw = None ∨
   ∃ j raw', i < j ∧ data !! j = Some raw' ∧ is_Some (entry_id raw) ∧ entry_id raw' = entry_id raw) →
  fl !! i = Some TxValidationCode_VALID.
Proof.
  intros Hrun Ed Hraw Hcase.
  destruct (run_of_inv block dag D fl Hrun) as (data' & Ed' & Hb & _ & _ & _ & _ & _ & Hno).
  assert (data' = data) as -> by congruence.
  apply Hno; [by eapply lookup_lt_Some|]. intros t Hti.
  destruct (built_index _ _ Hb t i Hti) as [(r & Hr & Er) Hlast]. simplify_eq.
  destruct Hcase as [Hn|(j & raw' & Hlt & Hj & _ & Ej)]; [congruence|].
  specialize (Hlast j raw' Hj ltac:(congruence)). lia.
Qed.

(** Building the graph panics exactly when the block has no data or an entry
    decodes to a payload whose header is nil; otherwise it returns a graph. *)
Theorem BuildDAGFromBlock_panics_iff `{Codec} `{MapOrder} (block : Block) :
  match blk_Data block with
  | None => is_panic (BuildDAGFromBlock block) = true
  | Some data =>
      (Exists (λ raw, nil_header raw = true) data ∧ is_panic (BuildDAGFromBlock block) = true) ∨
      (Forall (λ raw, nil_header raw = false) data ∧ ∃ dag, BuildDAGFromBlock block = Ok dag)
  end.
Proof.
  destruct (blk_Data block) as [data|] eqn:Ed.
  2:{ unfold BuildDAGFromBlock. by rewrite Ed. }
  destruct (build_nodes_result data) as [[Hex Hp]|[Hall _]].
  - left. split; [done|]. unfold BuildDAGFromBlock. rewrite Ed. cbn. by destruct (build_nodes data).
  - right. split; [done|].
    destruct (BuildDAG_result block data Ed Hall) as (dag & E & _). by exists dag.
Qed.

(** The ledger is asked to commit the block with the computed flags once;
    only when that call fails is it asked again, in the state the failed call
    left, with the same block. *)
Theorem CommitLegacy_calls `{Codec} `{MapOrder} {L Pvt Opts : Type}
    (commit : L → Block → Pvt → Opts → L * option string) (l : L) (block block' : Block)
    (num : Z) (pvt : Pvt) (opts : Opts) (dag : TransactionDAG) :
  BuildDAGFromBlock block = Ok dag → blk_Number block = Some num →
  validated_block block dag = Ok block' →
  CommitLegacy commit l block pvt opts =
  match commit l block' pvt opts with
  | (l1, None) => (l1, block', Ok ())
  | (l1, Some _) =>
      let '(l2, err) := commit l1 block' pvt opts in
      (l2, block', match err with Some e => Err e | None => Ok () end)
  end.
Proof.
  intros EB En EV. unfold CommitLegacy, processBlockWithDAG, legacyCommit.
  rewrite EB, En, EV. cbn. destruct (commit l block' pvt opts) as [l1 [e|]]; [|done].
  by destruct (commit l1 block' pvt opts).
Qed.

(** ** Witnesses: a block with two transactions, the second depending on the first *)
Definition sample_block (rwset_b : string) : Codec :=
  sample_codec
    [("ea", mkEnvelope "pa" ""); ("eb", mkEnvelope "pb" "")]
    [("pa", mkPayload (Some (mkHeader "ca" "")) "ta"); ("pb", mkPayload (Some (mkHeader "cb" "")) "tb")]
    [("ca", mkChannelHeader 3 "ch" "a" 0 "" 0 None None); ("cb", mkChannelHeader 3 "ch" "b" 0 "" 0 None None)]
    [("ta", tx_with "xa"); ("tb", tx_with "xb")]
    [("xa", mkChaincodeAction (Some "ra") "" (Some (mkResponse 200 "" "")) None);
     ("xb", mkChaincodeAction (Some rwset_b) "" (Some (mkResponse 200 (leader_message true "a" 0) "")) None)]
    [("ra", mkTxReadWriteSet [mkNsReadWriteSet "cc1" "wx" []]);
     ("rb", mkTxReadWriteSet [mkNsReadWriteSet "cc1" "wy" []])]
    [("wx", mkKVRWSet [] [] [mkKVWrite "x" false (Some "1")] []);
     ("wy", mkKVRWSet [] [] [mkKVWrite "y" false (Some "2")] [])].

Definition two_block (md : list bytes) : Block := mkBlock (Some 7%Z) (Some ["ea"; "eb"]) (Some md).

(** The graph and the results the sample block leads to. *)
Definition sample_run (C : Codec) : outcome (TransactionDAG * TransactionDAG * list Z) :=
  dag ← BuildDAGFromBlock (two_block [""; ""; ""]);
  D ← process_levels ["ea"; "eb"] dag;
  fl ← tx_filter D 2;
  Ok (dag, D, fl).

Example sample_flags :
  (λ r, r.2) <$> (match sample_run (sample_block "rb") with Ok r => Some r | _ => None end) = Some [0; 0]%Z ∧
  (λ r, r.2) <$> (match sample_run (sample_block "ra") with Ok r => Some r | _ => None end) = Some [0; 11]%Z.
Proof. split; vm_compute; reflexivity. Qed.

Definition sample_dag (C : Codec) : TransactionDAG :=
  match sample_run C with Ok (dag, _, _) => dag | _ => NewTransactionDAG end.
Definition sample_D (C : Codec) : TransactionDAG :=
  match sample_run C with Ok (_, D, _) => D | _ => NewTransactionDAG end.
Definition sample_fl (C : Codec) : list Z :=
  match sample_run C with Ok (_, _, fl) => fl | _ => [] end.

Lemma sample_run_of (r : string) (md : list bytes) :
  r = "ra" ∨ r = "rb" →
  @run_of (sample_block r) sorted_map_order (two_block md) (sample_dag (sample_block r))
    (sample_D (sample_block r)) (sample_fl (sample_block r)).
Proof.
  intros [-> | ->]; (split; [vm_compute; reflexivity|]); exists ["ea"; "eb"];
    (split; [reflexivity|]); split; vm_compute; reflexivity.
Qed.

Lemma commit_flags_spec_witness :
  ∃ dag, @validated_block (sample_block "rb") sorted_map_order (two_block ["s"; "c"; "f"]) dag
    = Ok (two_block ["s"; "c"; bytes_of_flags [0; 0]%Z]).
Proof.
  destruct (@commit_flags_spec (sample_block "rb") sorted_map_order (two_block ["s"; "c"; "f"])
    ["ea"; "eb"] ["s"; "c"; "f"]) as (dag & D & fl & md' & Hrun & EV & _).
  - reflexivity.
  - repeat constructor.
  - reflexivity.
  - simpl. lia.
  - exists dag. destruct Hrun as [EB _]. vm_compute in EB. injection EB as <-.
    vm_compute. reflexivity.
Defined.


Lemma valid_needs_valid_dependencies_witness :
  ∃ j, sample_fl (sample_block "rb") !! j = Some 0%Z.
Proof.
  destruct (@valid_needs_valid_dependencies (sample_block "rb") sorted_map_order (two_block [])
    (sample_dag (sample_block "rb")) (sample_D (sample_block "rb")) (sample_fl (sample_block "rb"))
    "b" "a" 1 1 (mkTransactionDependency "b" ["a"] true)) as (j & _ & Hj).
  - apply sample_run_of. by right.
  - vm_compute. reflexivity.
  - vm_compute. reflexivity.
  - vm_compute. reflexivity.
  - lia.
  - vm_compute. reflexivity.
  - by apply list_elem_of_singleton.
  - exists j. exact Hj.
Defined.

Lemma overlapping_dependent_rejected_witness :
  sample_fl (sample_block "ra") !! 1 = Some TxValidationCode_MVCC_READ_CONFLICT.
Proof.
  set (m := {["cc1" := mkNsReadWriteSet "cc1" "wx" []]} : gmap string NsReadWriteSet).
  assert (Dm : @decodable (sample_block "ra") m).
  { intros ns n [<- <-]%lookup_singleton_Some. vm_compute. eauto. }
  apply (@overlapping_dependent_rejected (sample_block "ra") sorted_map_order (two_block [])
    (sample_dag (sample_block "ra")) (sample_D (sample_block "ra")) (sample_fl (sample_block "ra"))
    ["ea"; "eb"] "b" "a" 1 0 1 (mkTransactionDependency "b" ["a"] true) "eb" "ea"
    (tx_with "xb") (tx_with "xa") m m).
  - apply sample_run_of. by left.
  - reflexivity.
  - vm_compute. reflexivity.
  - vm_compute. reflexivity.
  - vm_compute. reflexivity.
  - lia.
  - vm_compute. reflexivity.
  - by apply list_elem_of_singleton.
  - reflexivity.
  - vm_compute. reflexivity.
  - reflexivity.
  - vm_compute. reflexivity.
  - vm_compute. reflexivity.
  - vm_compute. reflexivity.
  - exact Dm.
  - exact Dm.
  - exists "cc1". eexists _, _. split; [vm_compute; reflexivity|]. split; [vm_compute; reflexivity|].
    left. eexists _, _. split; [vm_compute; reflexivity|]. split; [vm_compute; reflexivity|].
    exists "x". right. right. split; by apply list_elem_of_singleton.
Defined.

(** The second transaction arrives flagged ENDORSEMENT_POLICY_FAILURE and
    leaves flagged VALID. *)
Lemma incoming_flags_ignored_witness :
  @validated_block (sample_block "rb") sorted_map_order
    (two_block [""; ""; bytes_of_flags [0; TxValidationCode_ENDORSEMENT_POLICY_FAILURE]%Z])
    (sample_dag (sample_block "rb"))
  = Ok (two_block [""; ""; bytes_of_flags [0; 0]%Z]).
Proof.
  pose proof (@incoming_flags_ignored (sample_block "rb") sorted_map_order (two_block [""; ""; ""])
    (sample_dag (sample_block "rb")) [""; ""; ""]
    (bytes_of_flags [0; TxValidationCode_ENDORSEMENT_POLICY_FAILURE]%Z)) as E.
  etransitivity; [apply E; [reflexivity|simpl; lia]|]. vm_compute. reflexivity.
Defined.

Lemma short_metadata_panics_witness :
  is_panic (@validated_block (sample_block "rb") sorted_map_order (two_block [""])
    (sample_dag (sample_block "rb"))) = true.
Proof.
  apply (@short_metadata_panics (sample_block "rb") sorted_map_order (two_block [""])
    (sample_dag (sample_block "rb")) (sample_D (sample_block "rb")) (sample_fl (sample_block "rb")) [""]).
  - apply sample_run_of. by right.
  - reflexivity.
  - simpl. lia.
Defined.

Lemma CommitLegacy_calls_witness :
  @CommitLegacy (sample_block "rb") sorted_map_order nat () () (λ n _ _ _, (S n, None)) 0
    (two_block [""; ""; ""]) () () = (1, two_block [""; ""; bytes_of_flags [0; 0]%Z], Ok ()).
Proof.
  rewrite (@CommitLegacy_calls (sample_block "rb") sorted_map_order nat () () (λ n _ _ _, (S n, None)) 0
    (two_block [""; ""; ""]) (two_block [""; ""; bytes_of_flags [0; 0]%Z]) 7 () ()
    (sample_dag (sample_block "rb"))); [reflexivity|vm_compute; reflexivity|reflexivity|vm_compute; reflexivity].
Defined.

(** The second entry of this block does not decode at all. *)
Definition garbage_block : Block := mkBlock (Some 8%Z) (Some ["ea"; "zz"]) (Some [""; ""; ""]).

Lemma unindexed_entries_flagged_valid_witness :
  ∃ dag D fl, @run_of (sample_block "rb") sorted_map_order garbage_block dag D fl ∧
    fl !! 1 = Some TxValidationCode_VALID.
Proof.
  assert (∃ dag D fl, @run_of (sample_block "rb") sorted_map_order garbage_block dag D fl)
    as (dag & D & fl & Hrun).
  { eexists _, _, _. split; [vm_compute; reflexivity|]. exists ["ea"; "zz"].
    split; [reflexivity|]. split; vm_compute; reflexivity. }
  exists dag, D, fl. split; [exact Hrun|].
  apply (@unindexed_entries_flagged_valid (sample_block "rb") sorted_map_order garbage_block
    dag D fl ["ea"; "zz"] 1 "zz").
  - exact Hrun.
  - reflexivity.
  - reflexivity.
  - left. vm_compute. reflexivity.
Defined.

(** The second entry decodes to a transaction whose action carries no response. *)
Definition no_response_codec : Codec :=
  sample_codec [("ea", mkEnvelope "pa" "")] [("pa", mkPayload (Some (mkHeader "ca" "")) "ta")]
    [("ca", mkChannelHeader 3 "ch" "a" 0 "" 0 None None)] [("ta", tx_with "xa")]
    [("xa", mkChaincodeAction (Some "ra") "" None None)] [] [].

Lemma failed_action_rejected_witness :
  ∃ dag D fl, @run_of no_response_codec sorted_map_order (mkBlock (Some 9%Z) (Some ["ea"]) (Some [])) dag D fl ∧
    fl !! 0 = Some TxValidationCode_MVCC_READ_CONFLICT.
Proof.
  assert (∃ dag D fl, TxIndices dag !! "a" = Some 0 ∧
    @run_of no_response_codec sorted_map_order (mkBlock (Some 9%Z) (Some ["ea"]) (Some [])) dag D fl)
    as (dag & D & fl & Hi & Hrun).
  { eexists _, _, _. split; [|split; [vm_compute; reflexivity|]; exists ["ea"];
      split; [reflexivity|]; split; vm_compute; reflexivity]. reflexivity. }
  exists dag, D, fl. split; [exact Hrun|].
  apply (@failed_action_rejected no_response_codec sorted_map_order (mkBlock (Some 9%Z) (Some ["ea"]) (Some []))
    dag D fl ["ea"] "a" 0 "ea"
    (tx_with "xa") (mkTransactionAction "" "xa")).
  - exact Hrun.
  - reflexivity.
  - exact Hi.
  - reflexivity.
  - vm_compute. reflexivity.
  - by apply list_elem_of_singleton.
  - intros cca E. vm_compute in E. injection E as <-. done.
Defined.
