(* ===== verification/CircuitBreaker.v ===== *)
(** * CircuitBreaker: the breaker in front of the leader (core/endorser/circuit_breaker.go)

    [Execute] holds no lock while the wrapped operation runs, so a call is
    three critical sections with the operation in between: [cb_check] under
    the read lock, [cb_half_open] when an open breaker's timeout has passed,
    [cb_record] with the operation's result. [Execute] composes them for one
    caller; [cbstep] interleaves them for any number of callers.

    Times are nanoseconds. [time.Since] saturates at the largest [Duration],
    which changes no comparison with a [Duration]. [config.MaxRetries],
    [config.RetryInterval] and [retryCount] are kept although no code reads
    them. The metrics pointer may be nil. *)

From S2P Require Import Prelude.

Inductive CircuitState := CircuitClosed | CircuitOpen | CircuitHalfOpen.

#[global] Instance CircuitState_eq_dec : EqDecision CircuitState.
Proof. solve_decision. Defined.

Record CircuitBreakerConfig := mkCircuitBreakerConfig {
  Threshold : Z;
  Timeout : Z;
  MaxRetries : Z;
  RetryInterval : Z
}.

Definition DefaultCircuitBreakerConfig : CircuitBreakerConfig :=
  mkCircuitBreakerConfig 5 (30 * second) 3 (5 * second).

(** The three counters of [Metrics] the breaker adds to. *)
Record CbMetrics := mkCbMetrics {
  LeaderCircuitBreakerOpen : Z;
  LeaderCircuitBreakerHalfOpen : Z;
  LeaderCircuitBreakerClosed : Z
}.

Record CircuitBreaker := mkCircuitBreaker {
  failures : Z;
  lastFailureTime : Z;
  config : CircuitBreakerConfig;
  state : CircuitState;
  metrics : option CbMetrics;
  retryCount : Z
}.

Definition NewCircuitBreaker (config : CircuitBreakerConfig) (metrics : option CbMetrics)
    : CircuitBreaker :=
  mkCircuitBreaker 0 0 config CircuitClosed metrics 0.

Definition add_open (m : CbMetrics) : CbMetrics :=
  mkCbMetrics (LeaderCircuitBreakerOpen m + 1) (LeaderCircuitBreakerHalfOpen m)
    (LeaderCircuitBreakerClosed m).
Definition add_half_open (m : CbMetrics) : CbMetrics :=
  mkCbMetrics (LeaderCircuitBreakerOpen m) (LeaderCircuitBreakerHalfOpen m + 1)
    (LeaderCircuitBreakerClosed m).
Definition add_closed (m : CbMetrics) : CbMetrics :=
  mkCbMetrics (LeaderCircuitBreakerOpen m) (LeaderCircuitBreakerHalfOpen m)
    (LeaderCircuitBreakerClosed m + 1).

Definition count (f : CbMetrics → CbMetrics) (cb : CircuitBreaker) : CircuitBreaker :=
  mkCircuitBreaker (failures cb) (lastFailureTime cb) (config cb) (state cb)
    (f <$> metrics cb) (retryCount cb).

(** ** The critical sections of Execute *)
Inductive admission := Rejected | NeedsHalfOpen | Passed.

Definition cb_check (now : Z) (cb : CircuitBreaker) : admission :=
  match state cb with
  | CircuitOpen =>
      if (now - lastFailureTime cb <? Timeout (config cb))%Z then Rejected else NeedsHalfOpen
  | _ => Passed
  end.

Definition cb_half_open (cb : CircuitBreaker) : CircuitBreaker :=
  count add_half_open
    (mkCircuitBreaker (failures cb) (lastFailureTime cb) (config cb) CircuitHalfOpen (metrics cb) 0).

Definition cb_trip (now failures : Z) (cb : CircuitBreaker) : CircuitBreaker :=
  count add_open (mkCircuitBreaker failures now (config cb) CircuitOpen (metrics cb) (retryCount cb)).

(** [err] is the operation's error, [now] the time it is recorded. *)
Definition cb_record (now : Z) (err : option string) (cb : CircuitBreaker) : CircuitBreaker :=
  match err with
  | Some _ =>
      let failures := i64 (failures cb + 1) in
      if bool_decide (state cb = CircuitHalfOpen) then cb_trip now failures cb
      else if (Threshold (config cb) <=? failures)%Z then cb_trip now failures cb
      else mkCircuitBreaker failures (lastFailureTime cb) (config cb) (state cb) (metrics cb)
             (retryCount cb)
  | None =>
      count add_closed
        (mkCircuitBreaker 0 (lastFailureTime cb) (config cb) CircuitClosed (metrics cb)
           (retryCount cb))
  end.

(** One caller: the operation transforms the caller's own state [A]; [t0] is
    when the call starts and [t1] when the operation has finished. *)
Definition Execute {A} (t0 t1 : Z) (operation : A → A * option string)
    (cb : CircuitBreaker) (a : A) : CircuitBreaker * A * option string :=
  match cb_check t0 cb with
  | Rejected => (count add_open cb, a, Some "circuit breaker is open")
  | adm =>
      let cb := match adm with NeedsHalfOpen => cb_half_open cb | _ => cb end in
      let '(a', err) := operation a in
      (cb_record t1 err cb, a', err)
  end.

Definition GetState (cb : CircuitBreaker) : CircuitState := state cb.

(** ** Concurrent callers

    A caller is idle, past the check of an expired open breaker, or inside
    the operation. Every step advances the clock by any amount. *)
Inductive caller := Idle | Expired | Inside.

Record cbworld := mkCbworld { w_clock : Z; w_cb : CircuitBreaker; w_callers : list caller }.

Inductive cbstep : cbworld → cbworld → Prop :=
| cbstep_reject clock now cb cs i :
    (clock ≤ now)%Z → cs !! i = Some Idle → cb_check now cb = Rejected →
    cbstep (mkCbworld clock cb cs) (mkCbworld now (count add_open cb) cs)
| cbstep_enter clock now cb cs i :
    (clock ≤ now)%Z → cs !! i = Some Idle → cb_check now cb = Passed →
    cbstep (mkCbworld clock cb cs) (mkCbworld now cb (<[i := Inside]> cs))
| cbstep_expired clock now cb cs i :
    (clock ≤ now)%Z → cs !! i = Some Idle → cb_check now cb = NeedsHalfOpen →
    cbstep (mkCbworld clock cb cs) (mkCbworld now cb (<[i := Expired]> cs))
| cbstep_half_open clock now cb cs i :
    (clock ≤ now)%Z → cs !! i = Some Expired →
    cbstep (mkCbworld clock cb cs) (mkCbworld now (cb_half_open cb) (<[i := Inside]> cs))
| cbstep_record clock now cb cs i err :
    (clock ≤ now)%Z → cs !! i = Some Inside →
    cbstep (mkCbworld clock cb cs) (mkCbworld now (cb_record now err cb) (<[i := Idle]> cs)).

(** ** The specification: a breaker counts consecutive failures

    The abstract breaker is either letting calls through after [n]
    consecutive failures, or refusing them since a failure at time [t]. *)
Inductive breaker := Through (n : Z) | Refusing (t : Z).

Definition spec_call (cfg : CircuitBreakerConfig) (t0 t1 : Z) (ok : bool) (b : breaker)
    : breaker * bool :=
  match b with
  | Refusing t =>
      if (t0 - t <? Timeout cfg)%Z then (Refusing t, false)
      else ((if ok then Through 0 else Refusing t1), true)
  | Through n =>
      ((if ok then Through 0
        else if (Threshold cfg <=? n + 1)%Z then Refusing t1 else Through (n + 1)), true)
  end.

Definition abs (cb : CircuitBreaker) : breaker :=
  match state cb with
  | CircuitOpen => Refusing (lastFailureTime cb)
  | _ => Through (failures cb)
  end.

(** The invariant: a closed breaker is below its threshold. *)
Definition cb_ok (cb : CircuitBreaker) : Prop :=
  (0 < Threshold (config cb) < 2 ^ 63)%Z ∧
  (state cb = CircuitClosed → 0 ≤ failures cb < Threshold (config cb))%Z.

(** A sequence of calls by one caller: when each starts and ends, and the
    operation's error. The result lists, per call, whether the operation ran. *)
Definition call := (Z * Z * option string)%type.

Definition run_call (cb : CircuitBreaker) (c : call) : CircuitBreaker * bool * option string :=
  let '(t0, t1, err) := c in Execute t0 t1 (λ _, (true, err)) cb false.

Fixpoint run_calls (cb : CircuitBreaker) (cs : list call) : CircuitBreaker * list bool :=
  match cs with
  | [] => (cb, [])
  | c :: cs' =>
      let '(cb', ran, _) := run_call cb c in
      let '(cb'', rans) := run_calls cb' cs' in (cb'', ran :: rans)
  end.

Fixpoint spec_calls (cfg : CircuitBreakerConfig) (b : breaker) (cs : list call)
    : breaker * list bool :=
  match cs with
  | [] => (b, [])
  | (t0, t1, err) :: cs' =>
      let '(b', ran) := spec_call cfg t0 t1 (bool_decide (err = None)) b in
      let '(b'', rans) := spec_calls cfg b' cs' in (b'', ran :: rans)
  end.

(** ** Lemmas *)
Lemma cb_ok_record now err cb : cb_ok cb → cb_ok (cb_record now err cb).
Proof.
  intros [Ht Hc]. unfold cb_ok, cb_record. destruct err as [e|]; [|split; [done|simpl; lia]].
  case_bool_decide; [split; [done|]; simpl; discriminate|].
  destruct (Z.leb_spec (Threshold (config cb)) (i64 (failures cb + 1))) as [|Hlt];
    [split; [done|]; simpl; discriminate|].
  split; [done|]. simpl. intros E. specialize (Hc E).
  rewrite i64_small in Hlt |- * by lia. lia.
Qed.

Lemma cb_ok_half_open cb : cb_ok cb → cb_ok (cb_half_open cb).
Proof. intros [Ht _]. by split. Qed.

Lemma cb_ok_count f cb : cb_ok cb → cb_ok (count f cb).
Proof. done. Qed.

(** One call against [spec_call]. *)
Lemma Execute_step {A} t0 t1 (op : A → A * option string) cb a :
  cb_ok cb → state cb ≠ CircuitHalfOpen →
  ∃ cb' a' err, Execute t0 t1 op cb a = (cb', a', err) ∧ config cb' = config cb ∧
    cb_ok cb' ∧ state cb' ≠ CircuitHalfOpen ∧
    match spec_call (config cb) t0 t1 (bool_decide ((op a).2 = None)) (abs cb) with
    | (b, true) => abs cb' = b ∧ (a', err) = op a
    | (b, false) => abs cb' = b ∧ a' = a ∧ err = Some "circuit breaker is open"
    end.
Proof.
  intros Hok Hh. unfold Execute, cb_check, abs. destruct (op a) as [a' err] eqn:Eop.
  destruct (state cb) eqn:Es; [| |done].
  - exists (cb_record t1 err cb), a', err. split; [done|].
    pose proof (cb_ok_record t1 err cb Hok) as Hok'.
    destruct Hok as [Ht Hc]. specialize (Hc Es).
    unfold cb_record in *. destruct err as [e|]; cbn [snd spec_call] in *.
    + rewrite (bool_decide_eq_false_2 (state cb = _)) in * by congruence.
      rewrite i64_small in * by lia. rewrite (bool_decide_eq_false_2 (Some e = None)) by done.
      destruct (_ <=? _)%Z; simpl in *; rewrite ?Es in *; split_and!; done.
    + rewrite bool_decide_eq_true_2 by done. split_and!; done.
  - cbn [spec_call]. destruct (Z.ltb_spec (t0 - lastFailureTime cb) (Timeout (config cb))).
    + exists (count add_open cb), a, (Some "circuit breaker is open").
      simpl. rewrite Es. split_and!; done.
    + exists (cb_record t1 err (cb_half_open cb)), a', err. split; [done|].
      pose proof (cb_ok_record t1 err _ (cb_ok_half_open cb Hok)) as Hok'.
      unfold cb_record in *. destruct err as [e|]; cbn [snd].
      * rewrite (bool_decide_eq_false_2 (Some e = None)) by done.
        rewrite (bool_decide_eq_true_2 (state (cb_half_open cb) = _)) in * by done. split_and!; done.
      * rewrite bool_decide_eq_true_2 by done. split_and!; done.
Qed.

(** A sequence of calls, by induction with [Execute_step]. *)
Lemma run_calls_sim cb cs :
  cb_ok cb → state cb ≠ CircuitHalfOpen →
  ∃ cb' rans, run_calls cb cs = (cb', rans) ∧
    spec_calls (config cb) (abs cb) cs = (abs cb', rans) ∧
    cb_ok cb' ∧ state cb' ≠ CircuitHalfOpen.
Proof.
  revert cb. induction cs as [|[[t0 t1] err] cs IH]; intros cb Hok Hh; [by exists cb, []|].
  cbn [run_calls spec_calls run_call].
  destruct (Execute_step t0 t1 (λ _ : bool, (true, err)) cb false Hok Hh)
    as (cb1 & ran & err' & -> & Ecfg & Hok1 & Hh1 & Hs). cbn [snd] in Hs.
  destruct (IH cb1 Hok1 Hh1) as (cb2 & rans & -> & Es & Hok2 & Hh2). rewrite Ecfg in Es.
  destruct (spec_call _ _ _ _ _) as [b []].
  - destruct Hs as [<- [= -> ->]]. rewrite Es. eauto 10.
  - destruct Hs as (<- & -> & _). rewrite Es. eauto 10.
Qed.

Lemma NewCircuitBreaker_ok cfg m : (0 < Threshold cfg < 2 ^ 63)%Z → cb_ok (NewCircuitBreaker cfg m).
Proof. intros H. split; simpl; lia. Qed.

(** A burst of failing calls that the breaker lets through or not. *)
Lemma spec_burst cfg n fs :
  (0 ≤ n < Threshold cfg)%Z → (∀ c, c ∈ fs → ∃ t0 t1 e, c = (t0, t1, Some e)) →
  (n + Z.of_nat (length fs) < Threshold cfg)%Z →
  spec_calls cfg (Through n) fs = (Through (n + Z.of_nat (length fs)), replicate (length fs) true).
Proof.
  revert n. induction fs as [|c fs IH]; intros n Hn Hf Hlen; [by rewrite Z.add_0_r|].
  destruct (Hf c) as (t0 & t1 & e & ->); [left|]. cbn [spec_calls spec_call length replicate] in *.
  rewrite bool_decide_eq_false_2 by done. destruct (Z.leb_spec (Threshold cfg) (n + 1)); [lia|].
  rewrite IH; [do 2 f_equal; lia|lia| |lia]. intros c Hc. apply Hf. by right.
Qed.

Lemma spec_refusing cfg t cs :
  (∀ t0 t1 err, (t0, t1, err) ∈ cs → (t0 - t < Timeout cfg)%Z) →
  spec_calls cfg (Refusing t) cs = (Refusing t, replicate (length cs) false).
Proof.
  induction cs as [|[[t0 t1] err] cs IH]; intros Hc; [done|]. cbn [spec_calls spec_call].
  destruct (Z.ltb_spec (t0 - t) (Timeout cfg)) as [_|Hge].
  - rewrite IH; [done|]. intros a b e Hin. apply (Hc a b e). by right.
  - specialize (Hc t0 t1 err ltac:(left)). lia.
Qed.

Lemma spec_calls_app cfg b xs ys :
  spec_calls cfg b (xs ++ ys) =
  let '(b1, r1) := spec_calls cfg b xs in
  let '(b2, r2) := spec_calls cfg b1 ys in (b2, r1 ++ r2).
Proof.
  revert b. induction xs as [|[[t0 t1] err] xs IH]; intros b; cbn [app spec_calls].
  - by destruct (spec_calls cfg b ys).
  - destruct (spec_call _ _ _ _ _) as [b' ran]. rewrite IH.
    destruct (spec_calls cfg b' xs) as [b1 r1]. by destruct (spec_calls cfg b1 ys).
Qed.

(** Every step of a caller keeps the invariant, and no step changes the configuration. *)
Lemma cbstep_ok w w' :
  cbstep w w' → cb_ok (w_cb w) → cb_ok (w_cb w') ∧ config (w_cb w') = config (w_cb w).
Proof.
  intros Hs Hok. destruct Hs; simpl in *; try done.
  { split; [by apply cb_ok_half_open|done]. }
  split; [by apply cb_ok_record|]. unfold cb_record. by repeat case_match.
Qed.

(** ** Properties *)

(** A new breaker used by one caller refines the abstract breaker. Over
    any sequence of calls, exactly the calls the specification lets through run
    their operation, the breaker ends in the state the specification reaches,
    and between calls it is never half open. *)
Theorem run_calls_refines (cfg : CircuitBreakerConfig) (m : option CbMetrics) (cs : list call) :
  (0 < Threshold cfg < 2 ^ 63)%Z →
  ∃ cb' rans, run_calls (NewCircuitBreaker cfg m) cs = (cb', rans) ∧
    spec_calls cfg (Through 0) cs = (abs cb', rans) ∧ state cb' ≠ CircuitHalfOpen.
Proof.
  intros Hcfg. destruct (run_calls_sim (NewCircuitBreaker cfg m) cs) as (cb' & rans & E & Es & _ & Hh).
  - by apply NewCircuitBreaker_ok.
  - done.
  - eauto.
Qed.

Lemma run_calls_refines_witness :
  ∃ cb rans, run_calls (NewCircuitBreaker (mkCircuitBreakerConfig 2 10 3 5) None)
      [(0, 1, Some "x"); (2, 3, Some "x"); (4, 5, None); (20, 21, None)]%Z = (cb, rans) ∧
    rans = [true; true; false; true].
Proof.
  destruct (run_calls_refines (mkCircuitBreakerConfig 2 10 3 5) None
      [(0, 1, Some "x"); (2, 3, Some "x"); (4, 5, None); (20, 21, None)]%Z)
    as (cb & rans & E & Es & _).
  - simpl. lia.
  - exists cb, rans. split; [exact E|]. vm_compute in Es. congruence.
Defined.

(** The breaker trips, refuses and recovers. From a new breaker, the calls
    up to and including the [Threshold]-th consecutive failure all run their
    operation; every call that starts within [Timeout] of that failure is
    refused; the next call is let through and closes the breaker when its
    operation succeeds, or opens it again when it fails. *)
Theorem breaker_trips_and_recovers (cfg : CircuitBreakerConfig) (m : option CbMetrics)
    (fs cs : list call) (t0 t1 p0 p1 : Z) (e : string) (perr : option string) :
  (0 < Threshold cfg < 2 ^ 63)%Z → Z.of_nat (length fs) = (Threshold cfg - 1)%Z →
  (∀ c, c ∈ fs → ∃ a b e', c = (a, b, Some e')) →
  (∀ a b err, (a, b, err) ∈ cs → (a - t1 < Timeout cfg)%Z) → (Timeout cfg ≤ p0 - t1)%Z →
  ∃ cb', run_calls (NewCircuitBreaker cfg m) (fs ++ [(t0, t1, Some e)] ++ cs ++ [(p0, p1, perr)])
      = (cb', replicate (length fs) true ++ [true] ++ replicate (length cs) false ++ [true]) ∧
    state cb' = match perr with None => CircuitClosed | Some _ => CircuitOpen end.
Proof.
  intros Hcfg Hlen Hf Hc Hp.
  destruct (run_calls_sim (NewCircuitBreaker cfg m) (fs ++ [(t0, t1, Some e)] ++ cs ++ [(p0, p1, perr)]))
    as (cb' & rans & E & Es & _ & Hh); [by apply NewCircuitBreaker_ok|done|].
  exists cb'. rewrite E. change (abs (NewCircuitBreaker cfg m)) with (Through 0) in Es.
  change (config (NewCircuitBreaker cfg m)) with cfg in Es.
  rewrite spec_calls_app, (spec_burst cfg 0 fs) in Es; [|lia|done|lia].
  rewrite spec_calls_app in Es. cbn [spec_calls spec_call] in Es.
  rewrite bool_decide_eq_false_2 in Es by done.
  destruct (Z.leb_spec (Threshold cfg) (0 + Z.of_nat (length fs) + 1)) as [_|]; [|lia].
  rewrite spec_calls_app, spec_refusing in Es by done. cbn [spec_calls spec_call] in Es.
  destruct (Z.ltb_spec (p0 - t1) (Timeout cfg)) as [|_]; [lia|].
  injection Es as Ea Er. split; [by rewrite <- Er|].
  unfold abs in Ea. by destruct (state cb'), perr.
Qed.

Lemma breaker_trips_and_recovers_witness :
  ∃ cb', run_calls (NewCircuitBreaker DefaultCircuitBreakerConfig None)
      (replicate 4 (0, 0, Some "x") ++ [(1, 2, Some "x")] ++ [(3, 4, None)] ++
       [(40 * second, 41 * second, None)])%Z
      = (cb', [true; true; true; true; true; false; true]) ∧ state cb' = CircuitClosed.
Proof.
  apply (breaker_trips_and_recovers DefaultCircuitBreakerConfig None (replicate 4 (0, 0, Some "x"))%Z
    [(3, 4, None)]%Z 1 2 (40 * second) (41 * second) "x" None).
  - simpl. lia.
  - reflexivity.
  - intros c Hc. apply elem_of_replicate in Hc as [-> _]. eauto.
  - intros a b err Hin. apply list_elem_of_singleton in Hin as [= -> -> ->]. reflexivity.
  - vm_compute. discriminate.
Defined.

(** Under any number of concurrent callers and any interleaving of their
    critical sections, a closed breaker has seen fewer than [Threshold]
    failures since the last success. *)
Theorem closed_below_threshold (cfg : CircuitBreakerConfig) (m : option CbMetrics) (n : nat)
    (w : cbworld) :
  (0 < Threshold cfg < 2 ^ 63)%Z →
  rtc cbstep (mkCbworld 0 (NewCircuitBreaker cfg m) (replicate n Idle)) w →
  state (w_cb w) = CircuitClosed → (0 ≤ failures (w_cb w) < Threshold cfg)%Z.
Proof.
  intros Hcfg Hr. assert (cb_ok (w_cb w) ∧ config (w_cb w) = cfg) as [[_ Hok] <-]; [|done].
  remember (mkCbworld 0 _ _) as w0 eqn:E0.
  assert (cb_ok (w_cb w0) ∧ config (w_cb w0) = cfg) as H0.
  { subst w0. split; [|done]. by apply NewCircuitBreaker_ok. }
  clear E0. induction Hr as [w|w w' w'' Hs _ IH]; [done|].
  apply IH. destruct H0 as [H0 <-]. by apply cbstep_ok.
Qed.

Lemma closed_below_threshold_witness :
  ∃ w, rtc cbstep (mkCbworld 0 (NewCircuitBreaker DefaultCircuitBreakerConfig None) [Idle; Idle]) w ∧
    (0 ≤ failures (w_cb w) < 5)%Z.
Proof.
  set (w0 := mkCbworld 0 (NewCircuitBreaker DefaultCircuitBreakerConfig None) (replicate 2 Idle)).
  assert (Hr : rtc cbstep w0 (mkCbworld 0 (cb_record 0 (Some "x")
    (NewCircuitBreaker DefaultCircuitBreakerConfig None)) [Idle; Idle])).
  { eapply rtc_l; [apply (cbstep_enter 0 0 _ _ 0); [lia|reflexivity|reflexivity]|].
    apply rtc_once. apply (cbstep_record 0 0 _ [Inside; Idle] 0 (Some "x")); [lia|reflexivity]. }
  eexists. split; [exact Hr|].
  apply (closed_below_threshold DefaultCircuitBreakerConfig None 2 _ ltac:(simpl; lia) Hr). reflexivity.
Defined.

(** With two callers the timeout of an open breaker is not always waited
    for: one caller can be past the expiry check when the other's probe fails
    and reopens the breaker, and then enters its operation although the last
    failure is more recent than [Timeout]. *)
Theorem probe_race (cfg : CircuitBreakerConfig) (m : option CbMetrics) (t : Z) :
  (0 < Timeout cfg)%Z →
  let cb := mkCircuitBreaker (Threshold cfg) t cfg CircuitOpen m 0 in
  ∃ w, rtc cbstep (mkCbworld t cb [Idle; Idle]) w ∧
    w_callers w = [Idle; Inside] ∧ state (w_cb w) = CircuitHalfOpen ∧
    (w_clock w - lastFailureTime (w_cb w) < Timeout cfg)%Z.
Proof.
  intros Ht cb. set (now := (t + Timeout cfg)%Z).
  assert (Hx : cb_check now cb = NeedsHalfOpen).
  { unfold cb_check. simpl. destruct (Z.ltb_spec (now - t) (Timeout cfg)); [lia|done]. }
  eexists. split; [|split_and!].
  - eapply rtc_l; [apply (cbstep_expired t now _ _ 0); [lia|done|exact Hx]|].
    eapply rtc_l; [apply (cbstep_expired now now _ _ 1); [lia|done|exact Hx]|].
    eapply rtc_l; [apply (cbstep_half_open now now _ _ 0); [lia|done]|].
    eapply rtc_l; [apply (cbstep_record now now _ _ 0 (Some "x")); [lia|done]|].
    apply rtc_once. apply (cbstep_half_open now now _ _ 1); [lia|done].
  - done.
  - done.
  - simpl. lia.
Qed.

Lemma probe_race_witness :
  ∃ w, w_callers w = [Idle; Inside] ∧ state (w_cb w) = CircuitHalfOpen ∧
    (w_clock w - lastFailureTime (w_cb w) < 30 * second)%Z.
Proof.
  destruct (probe_race DefaultCircuitBreakerConfig None 7 ltac:(reflexivity)) as (w & _ & H).
  exists w. exact H.
Defined.
