(* ===== verification/Utf8.v ===== *)
(** * Utf8: Go's reading of a byte string as runes (package unicode/utf8)

    Go code that works on the characters of a string (encoding/json, a range
    loop) decodes it rune by rune. [runes] is that decoding: a valid sequence
    is a [Rune], a byte that does not start one is a [Bad] byte (Go's
    RuneError of width 1). [encode_rune] is [utf8.EncodeRune]. The lemmas show
    that decoding inverts encoding and that a string without bad bytes is the
    encoding of its runes. *)

From S2P Require Import Prelude GoText.
From Stdlib Require Import Ascii.

#[local] Arguments String.append : simpl nomatch.

(** ** Bytes as numbers *)
Definition code (c : ascii) : Z := Z.of_N (N_of_ascii c).
Definition chr (z : Z) : ascii := ascii_of_N (Z.to_N z).

(** ** Encoding *)
Definition RuneError : Z := 65533.

(** The runes that have an encoding: no surrogates, at most U+10FFFF. *)
Definition valid_rune (r : Z) : bool :=
  ((0 <=? r) && (r <? 55296) || (57343 <? r) && (r <=? 1114111))%Z.

Definition encode_valid (r : Z) : string :=
  (if r <? 128 then String (chr r) ""
   else if r <? 2048 then
     String (chr (192 + r / 64)) (String (chr (128 + r mod 64)) "")
   else if r <? 65536 then
     String (chr (224 + r / 4096)) (String (chr (128 + r / 64 mod 64)) (String (chr (128 + r mod 64)) ""))
   else
     String (chr (240 + r / 262144)) (String (chr (128 + r / 4096 mod 64))
       (String (chr (128 + r / 64 mod 64)) (String (chr (128 + r mod 64)) ""))))%Z.

Definition encode_rune (r : Z) : string :=
  encode_valid (if valid_rune r then r else RuneError).

Definition encode_runes (l : list Z) : string := foldr (λ r s, encode_rune r +:+ s) "" l.

(** ** Decoding *)
Inductive rune := Rune (r : Z) | Bad (b : ascii).

#[global] Instance rune_eq_dec : EqDecision rune.
Proof. solve_decision. Defined.

Definition cont (c : ascii) : bool := (128 <=? code c)%Z && (code c <=? 191)%Z.

Definition two (c0 c1 : ascii) : option Z :=
  if ((194 <=? code c0) && (code c0 <=? 223))%Z && cont c1
  then Some ((code c0 - 192) * 64 + (code c1 - 128))%Z else None.

(** The second byte's range depends on the first: no overlong encodings, no
    surrogates. *)
Definition three (c0 c1 c2 : ascii) : option Z :=
  let lo := (if code c0 =? 224 then 160 else 128)%Z in
  let hi := (if code c0 =? 237 then 159 else 191)%Z in
  if ((224 <=? code c0) && (code c0 <=? 239) && (lo <=? code c1) && (code c1 <=? hi))%Z && cont c2
  then Some ((code c0 - 224) * 4096 + (code c1 - 128) * 64 + (code c2 - 128))%Z else None.

Definition four (c0 c1 c2 c3 : ascii) : option Z :=
  let lo := (if code c0 =? 240 then 144 else 128)%Z in
  let hi := (if code c0 =? 244 then 143 else 191)%Z in
  if ((240 <=? code c0) && (code c0 <=? 244) && (lo <=? code c1) && (code c1 <=? hi))%Z
     && cont c2 && cont c3
  then Some ((code c0 - 240) * 262144 + (code c1 - 128) * 4096
             + (code c2 - 128) * 64 + (code c3 - 128))%Z else None.

Fixpoint runes (s : string) : list rune :=
  match s with
  | EmptyString => []
  | String c0 s1 =>
      if (code c0 <? 128)%Z then Rune (code c0) :: runes s1
      else
        match s1 with
        | EmptyString => [Bad c0]
        | String c1 s2 =>
            match two c0 c1 with
            | Some r => Rune r :: runes s2
            | None =>
                match s2 with
                | EmptyString => Bad c0 :: runes s1
                | String c2 s3 =>
                    match three c0 c1 c2 with
                    | Some r => Rune r :: runes s3
                    | None =>
                        match s3 with
                        | EmptyString => Bad c0 :: runes s1
                        | String c3 s4 =>
                            match four c0 c1 c2 c3 with
                            | Some r => Rune r :: runes s4
                            | None => Bad c0 :: runes s1
                            end
                        end
                    end
                end
            end
        end
  end.

(** [utf8.ValidString]. *)
Definition is_rune (x : rune) : bool := match x with Rune _ => true | Bad _ => false end.
Definition valid_string (s : string) : bool := forallb is_rune (runes s).

(** The rune a range loop yields: a bad byte is read as U+FFFD. *)
Definition rune_val (x : rune) : Z := match x with Rune r => r | Bad _ => RuneError end.

(** ** Lemmas *)
Lemma code_range c : (0 ≤ code c < 256)%Z.
Proof. unfold code. pose proof (N_ascii_bounded c). lia. Qed.

Lemma chr_code c : chr (code c) = c.
Proof. unfold chr, code. rewrite N2Z.id. apply ascii_N_embedding. Qed.

Lemma code_chr z : (0 ≤ z < 256)%Z → code (chr z) = z.
Proof. intros Hz. unfold chr, code. rewrite N_ascii_embedding by lia. lia. Qed.

Ltac bools :=
  repeat match goal with
  | H : _ && _ = true |- _ => apply andb_true_iff in H as [? ?]
  | H : (_ <=? _)%Z = true |- _ => apply Z.leb_le in H
  | H : (_ <? _)%Z = true |- _ => apply Z.ltb_lt in H
  | H : (_ <? _)%Z = false |- _ => apply Z.ltb_ge in H
  | H : (_ <=? _)%Z = false |- _ => apply Z.leb_gt in H
  | H : (_ =? _)%Z = true |- _ => apply Z.eqb_eq in H
  | H : (_ =? _)%Z = false |- _ => apply Z.eqb_neq in H
  end.

Lemma valid_rune_range r : valid_rune r = true → (0 ≤ r < 55296 ∨ 57343 < r ≤ 1114111)%Z.
Proof. unfold valid_rune. rewrite orb_true_iff. intros [H|H]; bools; lia. Qed.

Ltac divlia := Z.to_euclidean_division_equations; lia.

Lemma two_code c0 c1 r :
  two c0 c1 = Some r → encode_rune r = String c0 (String c1 "").
Proof.
  unfold two, cont. destruct (_ && _) eqn:E; [|done]. intros [= <-]. bools.
  set (a := code c0) in *. set (b := code c1) in *. set (r := ((a - 192) * 64 + (b - 128))%Z).
  unfold encode_rune, valid_rune.
  rewrite (proj2 (Z.leb_le 0 r)), (proj2 (Z.ltb_lt r 55296)) by lia. simpl.
  unfold encode_valid. rewrite (proj2 (Z.ltb_ge r 128)), (proj2 (Z.ltb_lt r 2048)) by lia.
  replace (192 + r / 64)%Z with a by divlia. replace (128 + r mod 64)%Z with b by divlia.
  subst a b. by rewrite !chr_code.
Qed.

Lemma three_code c0 c1 c2 r :
  three c0 c1 c2 = Some r → encode_rune r = String c0 (String c1 (String c2 "")).
Proof.
  unfold three, cont. destruct (_ && _) eqn:E; [|done]. intros [= <-]. bools.
  set (a := code c0) in *. set (b := code c1) in *. set (c := code c2) in *.
  set (r := ((a - 224) * 4096 + (b - 128) * 64 + (c - 128))%Z).
  assert (2048 ≤ r < 65536 ∧ (r < 55296 ∨ 57343 < r))%Z as [Hr Hs].
  { destruct (Z.eqb_spec a 224), (Z.eqb_spec a 237); lia. }
  assert (128 ≤ b < 192)%Z as Hb by (destruct (Z.eqb_spec a 224), (Z.eqb_spec a 237); lia).
  unfold encode_rune. assert (valid_rune r = true) as ->.
  { unfold valid_rune. rewrite orb_true_iff, !andb_true_iff, !Z.leb_le, !Z.ltb_lt. lia. }
  unfold encode_valid.
  rewrite (proj2 (Z.ltb_ge r 128)), (proj2 (Z.ltb_ge r 2048)), (proj2 (Z.ltb_lt r 65536)) by lia.
  replace (224 + r / 4096)%Z with a by divlia. replace (128 + r / 64 mod 64)%Z with b by divlia.
  replace (128 + r mod 64)%Z with c by divlia. subst a b c. by rewrite !chr_code.
Qed.

Lemma four_code c0 c1 c2 c3 r :
  four c0 c1 c2 c3 = Some r → encode_rune r = String c0 (String c1 (String c2 (String c3 ""))).
Proof.
  unfold four, cont. destruct (_ && _) eqn:E; [|done]. intros [= <-]. bools.
  set (a := code c0) in *. set (b := code c1) in *. set (c := code c2) in *. set (d := code c3) in *.
  set (r := ((a - 240) * 262144 + (b - 128) * 4096 + (c - 128) * 64 + (d - 128))%Z).
  assert (65536 ≤ r ≤ 1114111 ∧ 128 ≤ b < 192)%Z as [Hr Hb].
  { destruct (Z.eqb_spec a 240), (Z.eqb_spec a 244); lia. }
  unfold encode_rune. assert (valid_rune r = true) as ->.
  { unfold valid_rune. rewrite orb_true_iff, !andb_true_iff, !Z.leb_le, !Z.ltb_lt. lia. }
  unfold encode_valid.
  rewrite (proj2 (Z.ltb_ge r 128)), (proj2 (Z.ltb_ge r 2048)), (proj2 (Z.ltb_ge r 65536)) by lia.
  replace (240 + r / 262144)%Z with a by divlia. replace (128 + r / 4096 mod 64)%Z with b by divlia.
  replace (128 + r / 64 mod 64)%Z with c by divlia.
  replace (128 + r mod 64)%Z with d by divlia. subst a b c d. by rewrite !chr_code.
Qed.

Lemma ascii_encode c : (code c < 128)%Z → encode_rune (code c) = String c "".
Proof.
  intros Hc. pose proof (code_range c). unfold encode_rune, valid_rune.
  rewrite (proj2 (Z.leb_le 0 _)), (proj2 (Z.ltb_lt _ 55296)) by lia. simpl.
  unfold encode_valid. rewrite (proj2 (Z.ltb_lt _ 128)) by lia. by rewrite chr_code.
Qed.

(** A string without bad bytes is the encoding of its runes. *)
Lemma encode_runes_of s :
  valid_string s = true → encode_runes (map rune_val (runes s)) = s.
Proof.
  unfold valid_string. remember (String.length s) as n eqn:Hn.
  revert s Hn. induction (lt_wf n) as [n _ IH]. intros s -> Hv.
  assert (IH' : ∀ s', String.length s' < String.length s → forallb is_rune (runes s') = true →
    encode_runes (map rune_val (runes s')) = s') by (intros; eauto).
  destruct s as [|c0 s1]; [done|]. cbn [runes] in *.
  destruct (Z.ltb_spec (code c0) 128) as [Hc|_].
  { cbn in Hv |- *. rewrite IH' by (done || simpl; lia). by rewrite ascii_encode. }
  destruct s1 as [|c1 s2]; [done|]. destruct (two c0 c1) as [r|] eqn:E2.
  { cbn in Hv |- *. rewrite IH' by (done || simpl; lia). by rewrite (two_code _ _ _ E2). }
  destruct s2 as [|c2 s3]; [done|]. destruct (three c0 c1 c2) as [r|] eqn:E3.
  { cbn in Hv |- *. rewrite IH' by (done || simpl; lia). by rewrite (three_code _ _ _ _ E3). }
  destruct s3 as [|c3 s4]; [done|]. destruct (four c0 c1 c2 c3) as [r|] eqn:E4; [|done].
  cbn in Hv |- *. rewrite IH' by (done || simpl; lia). by rewrite (four_code _ _ _ _ _ E4).
Qed.

(** Decoding inverts encoding. *)
Ltac rune_byte z := rewrite (code_chr z) by divlia.

Lemma runes_encode_valid r s :
  valid_rune r = true → runes (encode_valid r +:+ s) = Rune r :: runes s.
Proof.
  intros Hv%valid_rune_range. unfold encode_valid.
  destruct (Z.ltb_spec r 128) as [H1|H1].
  { simpl. rune_byte r. by rewrite (proj2 (Z.ltb_lt r 128)). }
  destruct (Z.ltb_spec r 2048) as [H2|H2].
  { simpl. rune_byte (192 + r / 64)%Z. rewrite (proj2 (Z.ltb_ge _ 128)) by divlia.
    unfold two, cont. rune_byte (192 + r / 64)%Z. rune_byte (128 + r mod 64)%Z.
    rewrite !(proj2 (Z.leb_le _ _)) by divlia. cbn [andb]. do 2 f_equal. divlia. }
  destruct (Z.ltb_spec r 65536) as [H3|H3].
  { simpl. rune_byte (224 + r / 4096)%Z. rewrite (proj2 (Z.ltb_ge _ 128)) by divlia.
    unfold two, three, cont. rune_byte (224 + r / 4096)%Z. rune_byte (128 + r / 64 mod 64)%Z.
    rune_byte (128 + r mod 64)%Z. rewrite (proj2 (Z.leb_gt (224 + r / 4096) 223)) by divlia.
    rewrite andb_false_r. simpl.
    destruct (Z.eqb_spec (224 + r / 4096) 224), (Z.eqb_spec (224 + r / 4096) 237);
      (rewrite !(proj2 (Z.leb_le _ _)) by divlia); cbn [andb]; do 2 f_equal; divlia. }
  simpl. rune_byte (240 + r / 262144)%Z. rewrite (proj2 (Z.ltb_ge _ 128)) by divlia.
  unfold two, three, four, cont. rune_byte (240 + r / 262144)%Z.
  rune_byte (128 + r / 4096 mod 64)%Z. rune_byte (128 + r / 64 mod 64)%Z. rune_byte (128 + r mod 64)%Z.
  rewrite (proj2 (Z.leb_gt (240 + r / 262144) 223)) by divlia. rewrite andb_false_r. simpl.
  rewrite (proj2 (Z.leb_gt (240 + r / 262144) 239)) by divlia. rewrite andb_false_r. simpl.
  destruct (Z.eqb_spec (240 + r / 262144) 240), (Z.eqb_spec (240 + r / 262144) 244);
    (rewrite !(proj2 (Z.leb_le _ _)) by divlia); cbn [andb]; do 2 f_equal; divlia.
Qed.

Lemma encode_rune_valid r : valid_rune r = true → encode_rune r = encode_valid r.
Proof. unfold encode_rune. by intros ->. Qed.

Lemma runes_encode l s :
  Forall (λ r, valid_rune r = true) l → runes (encode_runes l +:+ s) = map Rune l ++ runes s.
Proof.
  induction 1 as [|r l Hr _ IH]; [done|]. cbn [encode_runes foldr map app].
  rewrite encode_rune_valid by done. fold (encode_runes l).
  rewrite <- string_app_assoc, runes_encode_valid by done. by rewrite IH.
Qed.

Lemma runes_valid s :
  Forall (λ x, match x with Rune r => valid_rune r = true | Bad _ => True end) (runes s).
Proof.
  assert (Hv : ∀ r, (0 ≤ r < 55296 ∨ 57343 < r ≤ 1114111)%Z → valid_rune r = true).
  { intros r Hr. unfold valid_rune. rewrite orb_true_iff, !andb_true_iff, !Z.leb_le, !Z.ltb_lt. lia. }
  remember (String.length s) as n eqn:Hn. revert s Hn. induction (lt_wf n) as [n _ IH]. intros s ->.
  destruct s as [|c0 s1]; [constructor|]. cbn [runes].
  assert (IH1 : Forall (λ x, match x with Rune r => valid_rune r = true | Bad _ => True end) (runes s1))
    by (eapply IH; [|done]; simpl; lia).
  destruct (Z.ltb_spec (code c0) 128) as [Hc|_].
  { constructor; [|done]. apply Hv. pose proof (code_range c0). lia. }
  destruct s1 as [|c1 s2]; [by repeat constructor|]. destruct (two c0 c1) as [r|] eqn:E2.
  { constructor; [|eapply IH; [|done]; simpl; lia]. unfold two, cont in E2.
    destruct (_ && _) eqn:E; [|done]. injection E2 as <-. bools. apply Hv. lia. }
  destruct s2 as [|c2 s3]; [by repeat constructor|]. destruct (three c0 c1 c2) as [r|] eqn:E3.
  { constructor; [|eapply IH; [|done]; simpl; lia]. unfold three, cont in E3.
    destruct (_ && _) eqn:E; [|done]. injection E3 as <-. bools. apply Hv.
    destruct (Z.eqb_spec (code c0) 224), (Z.eqb_spec (code c0) 237); lia. }
  destruct s3 as [|c3 s4]; [by repeat constructor|]. destruct (four c0 c1 c2 c3) as [r|] eqn:E4;
    [|by repeat constructor].
  constructor; [|eapply IH; [|done]; simpl; lia]. unfold four, cont in E4.
  destruct (_ && _) eqn:E; [|done]. injection E4 as <-. bools. apply Hv.
  destruct (Z.eqb_spec (code c0) 240), (Z.eqb_spec (code c0) 244); lia.
Qed.
