(* ===== verification/Json.v ===== *)
(** * Json: JSON texts as Go's encoding/json writes and reads them

    A JSON document is a [json] value; numbers keep their literal, as the
    decoder does until it knows the target type. [print] is the compact text
    [json.Marshal] produces (with its HTML escaping and its replacement of
    invalid UTF-8), [parse] the reading of a text by [json.Unmarshal] up to the
    assignment to Go values, which the users of this file do. The nesting limit
    of the scanner (10000) is not modelled. [parse_print] is the round trip. *)

From S2P Require Import Prelude GoText Utf8.
From Stdlib Require Import Ascii.

#[local] Arguments String.append : simpl nomatch.

#[warnings="-register-all"]
Inductive json :=
| JNull
| JBool (b : bool)
| JNum (lit : string)
| JStr (s : string)
| JArr (l : list json)
| JObj (l : list (string * json)).

(** ** Strings *)
Definition hex_digit (d : Z) : Z := (if d <? 10 then 48 + d else 87 + d)%Z.

Definition hex_val (r : Z) : option Z :=
  (if (48 <=? r) && (r <=? 57) then Some (r - 48)
   else if (97 <=? r) && (r <=? 102) then Some (r - 87)
   else if (65 <=? r) && (r <=? 70) then Some (r - 55)
   else None)%Z.

(** [htmlSafeSet]: the ASCII characters that stand for themselves. *)
Definition html_safe (r : Z) : bool :=
  (32 <=? r)%Z && negb (bool_decide (r ∈ [34; 92; 60; 62; 38]%Z)).

Definition quote_rune (r : Z) : list Z :=
  (if r <? 128 then
     if html_safe r then [r]
     else if (r =? 92) || (r =? 34) then [92; r]
     else if r =? 8 then [92; 98]
     else if r =? 12 then [92; 102]
     else if r =? 10 then [92; 110]
     else if r =? 13 then [92; 114]
     else if r =? 9 then [92; 116]
     else [92; 117; 48; 48; hex_digit (r / 16); hex_digit (r mod 16)]
   else if (r =? 8232) || (r =? 8233) then [92; 117; 50; 48; 50; hex_digit (r mod 16)]
   else [r])%Z.

Definition quote_item (x : rune) : list Z :=
  match x with
  | Rune r => quote_rune r
  | Bad _ => [92; 117; 102; 102; 102; 100]%Z
  end.

Definition dquote : ascii := "034".

Definition quote (s : string) : string :=
  String dquote (encode_runes (concat (map quote_item (runes s))) +:+ String dquote "").

(** The scanner's pass over a string literal after its opening quote: the
    bytes up to the closing quote and the rest of the text. *)
Definition is_hex (c : ascii) : bool := if hex_val (code c) is Some _ then true else false.

Definition prepend (x : string) (r : option (string * string)) : option (string * string) :=
  match r with Some (b, rest) => Some (x +:+ b, rest) | None => None end.

Fixpoint scan_string (s : string) : option (string * string) :=
  match s with
  | EmptyString => None
  | String c s' =>
      if Ascii.eqb c dquote then Some ("", s')
      else if Ascii.eqb c "\" then
        match s' with
        | EmptyString => None
        | String e s'' =>
            if bool_decide (code e ∈ [34; 92; 47; 98; 102; 110; 114; 116]%Z)
            then prepend (String c (String e "")) (scan_string s'')
            else if Ascii.eqb e "u" then
              match s'' with
              | String h1 (String h2 (String h3 (String h4 s3))) =>
                  if is_hex h1 && is_hex h2 && is_hex h3 && is_hex h4
                  then prepend (String c (String e (String h1 (String h2 (String h3 (String h4 ""))))))
                         (scan_string s3)
                  else None
              | _ => None
              end
            else None
        end
      else if (code c <? 32)%Z then None
      else prepend (String c "") (scan_string s')
  end.

(** [unquote]: the runes a literal's body stands for. *)
Definition hex4 (a b c d : Z) : option Z :=
  match hex_val a, hex_val b, hex_val c, hex_val d with
  | Some a, Some b, Some c, Some d => Some (((a * 16 + b) * 16 + c) * 16 + d)%Z
  | _, _, _, _ => None
  end.

(** [utf16.DecodeRune]. *)
Definition surrogate (r : Z) : bool := ((55296 <=? r) && (r <? 57344))%Z.
Definition decode_surrogates (r1 r2 : Z) : option Z :=
  (if (55296 <=? r1) && (r1 <? 56320) && (56320 <=? r2) && (r2 <? 57344)
   then Some ((r1 - 55296) * 1024 + (r2 - 56320) + 65536) else None)%Z.

Definition escape (e : Z) : option Z :=
  (if (e =? 34) || (e =? 92) || (e =? 47) then Some e
   else if e =? 98 then Some 8 else if e =? 102 then Some 12 else if e =? 110 then Some 10
   else if e =? 114 then Some 13 else if e =? 116 then Some 9 else None)%Z.

Fixpoint unquote (l : list Z) : option (list Z) :=
  match l with
  | [] => Some []
  | r :: l1 =>
      if (r =? 92)%Z then
        match l1 with
        | [] => None
        | e :: l2 =>
            match escape e with
            | Some v => cons v <$> unquote l2
            | None =>
                if (e =? 117)%Z then
                  match l2 with
                  | a :: b :: c :: d :: l3 =>
                      match hex4 a b c d with
                      | None => None
                      | Some v =>
                          if surrogate v then
                            match l3 with
                            | b0 :: u0 :: a' :: b' :: c' :: d' :: l4 =>
                                match (if ((b0 =? 92) && (u0 =? 117))%Z then hex4 a' b' c' d' else None) with
                                | Some v2 =>
                                    match decode_surrogates v v2 with
                                    | Some w => cons w <$> unquote l4
                                    | None => cons RuneError <$> unquote l3
                                    end
                                | None => cons RuneError <$> unquote l3
                                end
                            | _ => cons RuneError <$> unquote l3
                            end
                          else cons v <$> unquote l3
                      end
                  | _ => None
                  end
                else None
            end
        end
      else cons r <$> unquote l1
  end.

Definition unquote_string (body : string) : option string :=
  encode_runes <$> unquote (map rune_val (runes body)).

(** ** Numbers *)
Definition is_digit (c : ascii) : bool := ((48 <=? code c) && (code c <=? 57))%Z.

Fixpoint scan_digits (s : string) : string * string :=
  match s with
  | String c s' =>
      if is_digit c then let '(d, rest) := scan_digits s' in (String c d, rest) else ("", s)
  | EmptyString => ("", s)
  end.

(** The integer part: 0, or digits that do not start with 0. *)
Definition scan_int (s : string) : option (string * string) :=
  match s with
  | String c s' =>
      if Ascii.eqb c "0" then Some ("0", s')
      else if is_digit c then Some (scan_digits s)
      else None
  | EmptyString => None
  end.

Definition scan_digits1 (s : string) : option (string * string) :=
  match scan_digits s with
  | (EmptyString, _) => None
  | r => Some r
  end.

Definition scan_frac (s : string) : option (string * string) :=
  match s with
  | String c s' =>
      if Ascii.eqb c "." then prepend (String c "") (scan_digits1 s') else Some ("", s)
  | EmptyString => Some ("", s)
  end.

Definition scan_exp (s : string) : option (string * string) :=
  match s with
  | String c s' =>
      if Ascii.eqb c "e" || Ascii.eqb c "E" then
        match s' with
        | String g s'' =>
            if Ascii.eqb g "+" || Ascii.eqb g "-"
            then prepend (String c (String g "")) (scan_digits1 s'')
            else prepend (String c "") (scan_digits1 s')
        | EmptyString => None
        end
      else Some ("", s)
  | EmptyString => Some ("", s)
  end.

Definition scan_unsigned (s : string) : option (string * string) :=
  match scan_int s with
  | None => None
  | Some (i, s1) =>
      match scan_frac s1 with
      | None => None
      | Some (f, s2) => prepend (i +:+ f) (scan_exp s2)
      end
  end.

Definition scan_number (s : string) : option (string * string) :=
  match s with
  | String c s' =>
      if Ascii.eqb c "-" then prepend "-" (scan_unsigned s') else scan_unsigned s
  | EmptyString => None
  end.

(** ** Values *)
Fixpoint skip_ws (s : string) : string :=
  match s with
  | String c s' =>
      if bool_decide (code c ∈ [32; 9; 13; 10]%Z) then skip_ws s' else s
  | EmptyString => s
  end.

(** [s] without the literal [x] it starts with. *)
Fixpoint strip (x s : string) : option string :=
  match x, s with
  | EmptyString, _ => Some s
  | String c x', String d s' => if Ascii.eqb c d then strip x' s' else None
  | _, _ => None
  end.

Fixpoint parse_value (fuel : nat) (s : string) : option (json * string) :=
  match fuel with
  | O => None
  | S fuel =>
      match skip_ws s with
      | EmptyString => None
      | String c s1 =>
          if Ascii.eqb c "{" then
            match skip_ws s1 with
            | String c' s2 =>
                if Ascii.eqb c' "}" then Some (JObj [], s2)
                else
                  match parse_members fuel (skip_ws s1) with
                  | Some (ms, rest) => Some (JObj ms, rest)
                  | None => None
                  end
            | EmptyString => None
            end
          else if Ascii.eqb c "[" then
            match skip_ws s1 with
            | String c' s2 =>
                if Ascii.eqb c' "]" then Some (JArr [], s2)
                else
                  match parse_elements fuel (skip_ws s1) with
                  | Some (vs, rest) => Some (JArr vs, rest)
                  | None => None
                  end
            | EmptyString => None
            end
          else if Ascii.eqb c dquote then
            match scan_string s1 with
            | None => None
            | Some (body, rest) => (λ x, (JStr x, rest)) <$> unquote_string body
            end
          else if Ascii.eqb c "t" then (λ rest, (JBool true, rest)) <$> strip "rue" s1
          else if Ascii.eqb c "f" then (λ rest, (JBool false, rest)) <$> strip "alse" s1
          else if Ascii.eqb c "n" then (λ rest, (JNull, rest)) <$> strip "ull" s1
          else
            match scan_number (String c s1) with
            | None => None
            | Some (lit, rest) => Some (JNum lit, rest)
            end
      end
  end
with parse_elements (fuel : nat) (s : string) : option (list json * string) :=
  match fuel with
  | O => None
  | S fuel =>
      match parse_value fuel s with
      | None => None
      | Some (v, rest) =>
          match skip_ws rest with
          | EmptyString => None
          | String c s1 =>
              if Ascii.eqb c "]" then Some ([v], s1)
              else if Ascii.eqb c "," then
                match parse_elements fuel s1 with
                | Some (vs, rest') => Some (v :: vs, rest')
                | None => None
                end
              else None
          end
      end
  end
with parse_members (fuel : nat) (s : string) : option (list (string * json) * string) :=
  match fuel with
  | O => None
  | S fuel =>
      match skip_ws s with
      | EmptyString => None
      | String q s0 =>
          if negb (Ascii.eqb q dquote) then None
          else
            match scan_string s0 with
            | None => None
            | Some (body, s1) =>
                match unquote_string body, skip_ws s1 with
                | Some k, String c s2 =>
                    if negb (Ascii.eqb c ":") then None
                    else
                      match parse_value fuel s2 with
                      | None => None
                      | Some (v, rest) =>
                          match skip_ws rest with
                          | EmptyString => None
                          | String c' s3 =>
                              if Ascii.eqb c' "}" then Some ([(k, v)], s3)
                              else if Ascii.eqb c' "," then
                                match parse_members fuel s3 with
                                | Some (ms, rest') => Some ((k, v) :: ms, rest')
                                | None => None
                                end
                              else None
                          end
                      end
                | _, _ => None
                end
            end
      end
  end.

(** Each value, element and member of a text takes a character, and at most
    two nested calls, so twice the length is enough fuel. *)
Definition parse (s : string) : option json :=
  match parse_value (2 * String.length s + 2) s with
  | Some (j, rest) => if bool_decide (skip_ws rest = "") then Some j else None
  | None => None
  end.

(** ** Printing *)
Fixpoint concat_sep (sep : string) (l : list string) : string :=
  match l with
  | [] => ""
  | [x] => x
  | x :: l' => x +:+ sep +:+ concat_sep sep l'
  end.

Fixpoint print (j : json) : string :=
  match j with
  | JNull => "null"
  | JBool b => format_bool b
  | JNum lit => lit
  | JStr s => quote s
  | JArr l => "[" +:+ concat_sep "," (map print l) +:+ "]"
  | JObj l => "{" +:+ concat_sep "," (map (λ kv, quote kv.1 +:+ ":" +:+ print kv.2) l) +:+ "}"
  end.

Example parse_print_ex :
  let j := JObj [("a", JArr [JNum "12"; JNum "-3"; JNull; JBool true]); ("b<", JStr "x/y")] in
  parse (print j) = Some j.
Proof. vm_compute. reflexivity. Qed.

(** ** Lemmas: string literals *)

(** What invalid UTF-8 becomes on its way through a JSON text. *)
Definition coerce (s : string) : string := encode_runes (map rune_val (runes s)).

Lemma hex_val_digit d : (0 ≤ d < 16)%Z → hex_val (hex_digit d) = Some d.
Proof.
  intros Hd. unfold hex_digit. destruct (Z.ltb_spec d 10) as [H|H]; unfold hex_val.
  - rewrite !(proj2 (Z.leb_le _ _)) by lia. simpl. f_equal. lia.
  - rewrite (proj2 (Z.leb_gt (87 + d) 57)) by lia. rewrite andb_false_r.
    rewrite !(proj2 (Z.leb_le _ _)) by lia. simpl. f_equal. lia.
Qed.

Lemma hex_digit_range d : (0 ≤ d < 16)%Z → (48 ≤ hex_digit d < 103)%Z.
Proof. intros Hd. unfold hex_digit. case_match; lia. Qed.

Lemma html_safe_spec r :
  html_safe r = true ↔ (32 ≤ r ∧ r ∉ [34; 92; 60; 62; 38])%Z.
Proof. unfold html_safe. by rewrite andb_true_iff, Z.leb_le, negb_true_iff, bool_decide_eq_false. Qed.

(** The forms a quoted rune takes. *)
Inductive quoted (r : Z) : list Z → Prop :=
| quoted_plain : (32 ≤ r)%Z → r ≠ 34%Z → r ≠ 92%Z → quoted r [r]
| quoted_escape e : escape e = Some r → (0 ≤ e < 128)%Z →
    e ∈ [34; 92; 47; 98; 102; 110; 114; 116]%Z → quoted r [92; e]%Z
| quoted_hex a b c d : (0 ≤ a < 16)%Z → (0 ≤ b < 16)%Z → (0 ≤ c < 16)%Z → (0 ≤ d < 16)%Z →
    r = (((a * 16 + b) * 16 + c) * 16 + d)%Z → surrogate r = false →
    quoted r [92; 117; hex_digit a; hex_digit b; hex_digit c; hex_digit d]%Z.

Lemma quote_rune_quoted r : valid_rune r = true → quoted r (quote_rune r).
Proof.
  intros Hv%valid_rune_range. unfold quote_rune.
  destruct (Z.ltb_spec r 128) as [H1|H1].
  2:{ destruct ((r =? 8232)%Z || (r =? 8233)%Z) eqn:E; [|constructor; lia].
      apply orb_true_iff in E. rewrite !Z.eqb_eq in E.
      change 50%Z with (hex_digit 2). change 48%Z with (hex_digit 0).
      apply quoted_hex; try lia; [apply Z.mod_pos_bound; lia| |].
      - destruct E as [-> | ->]; reflexivity.
      - unfold surrogate. destruct E as [-> | ->]; reflexivity. }
  destruct (html_safe r) eqn:Es.
  { apply html_safe_spec in Es as [? Hn]. rewrite !not_elem_of_cons in Hn. constructor; lia. }
  destruct ((r =? 92)%Z || (r =? 34)%Z) eqn:E.
  { apply orb_true_iff in E. rewrite !Z.eqb_eq in E.
    destruct E as [-> | ->]; (apply quoted_escape; [done|lia|set_solver]). }
  repeat match goal with
  | |- context [(r =? ?k)%Z] => destruct (Z.eqb_spec r k) as [->|]; [apply quoted_escape; [done|lia|set_solver]|]
  end.
  change 48%Z with (hex_digit 0). apply quoted_hex; try lia.
  - divlia.
  - apply Z.mod_pos_bound. lia.
  - pose proof (Z.div_mod r 16). lia.
  - unfold surrogate. rewrite (proj2 (Z.leb_gt _ _)) by lia. done.
Qed.

Lemma quote_item_quoted x :
  match x with Rune r => valid_rune r = true | Bad _ => True end →
  quoted (rune_val x) (quote_item x).
Proof.
  destruct x as [r|b]; intros H; [by apply quote_rune_quoted|]. simpl.
  change 102%Z with (hex_digit 15). change 100%Z with (hex_digit 13).
  apply quoted_hex; done || reflexivity.
Qed.

Lemma unquote_quoted r q l : quoted r q → unquote (q ++ l) = cons r <$> unquote l.
Proof.
  intros [H1 H2 H3|e He Hr Hin|a b c d Ha Hb Hc Hd -> Hs]; cbn [app unquote].
  - by rewrite (proj2 (Z.eqb_neq r 92)).
  - by rewrite Z.eqb_refl, He.
  - rewrite Z.eqb_refl. cbn [escape]. unfold hex4. rewrite !hex_val_digit by done. by rewrite Hs.
Qed.

Lemma quoted_valid r q :
  valid_rune r = true → quoted r q → Forall (λ x, valid_rune x = true) q.
Proof.
  assert (Ha : ∀ x, (0 ≤ x < 128)%Z → valid_rune x = true).
  { intros x Hx. unfold valid_rune. rewrite (proj2 (Z.leb_le 0 x)), (proj2 (Z.ltb_lt x 55296)) by lia. done. }
  intros Hv [ | e He Hr Hin | a b c d Hd1 Hd2 Hd3 Hd4 _ _]; repeat constructor; try done.
  - by apply Ha.
  - apply Ha. pose proof (hex_digit_range a Hd1). lia.
  - apply Ha. pose proof (hex_digit_range b Hd2). lia.
  - apply Ha. pose proof (hex_digit_range c Hd3). lia.
  - apply Ha. pose proof (hex_digit_range d Hd4). lia.
Qed.

Lemma rune_val_valid s : Forall (λ r, valid_rune r = true) (map rune_val (runes s)).
Proof.
  apply Forall_map. eapply Forall_impl; [apply runes_valid|]. by intros [r|b].
Qed.

(** The quoted form of a list of runes, and its reading. *)
Lemma quote_items_spec (l : list rune) :
  Forall (λ x, match x with Rune r => valid_rune r = true | Bad _ => True end) l →
  Forall (λ r, valid_rune r = true) (concat (map quote_item l)) ∧
  unquote (concat (map quote_item l)) = Some (map rune_val l).
Proof.
  induction 1 as [|x l Hx _ [IHv IHu]]; [by split|]. cbn [map concat].
  pose proof (quote_item_quoted x Hx) as Hq. split.
  - apply Forall_app. split; [|done]. eapply quoted_valid; [|done]. by destruct x.
  - by rewrite (unquote_quoted _ _ _ Hq), IHu.
Qed.

Lemma unquote_quote s :
  unquote_string (encode_runes (concat (map quote_item (runes s)))) = Some (coerce s).
Proof.
  destruct (quote_items_spec (runes s) (runes_valid s)) as [Hv Hu]. unfold unquote_string.
  pose proof (runes_encode _ "" Hv) as E. rewrite string_app_nil_r, app_nil_r in E.
  rewrite E, map_map, map_id, Hu. done.
Qed.

(** Scanning a quoted string literal. *)
Lemma prepend_prepend a b r : prepend a (prepend b r) = prepend (a +:+ b) r.
Proof. destruct r as [[x y]|]; [|done]. simpl. by rewrite string_app_assoc. Qed.

Definition plain (c : ascii) : bool :=
  (32 <=? code c)%Z && negb (code c =? 34)%Z && negb (code c =? 92)%Z.

Lemma scan_plain c s :
  plain c = true → scan_string (String c s) = prepend (String c "") (scan_string s).
Proof.
  unfold plain. rewrite !andb_true_iff, !negb_true_iff, Z.leb_le, !Z.eqb_neq. intros [[H1 H2] H3].
  cbn [scan_string]. destruct (Ascii.eqb_spec c dquote) as [->|_]; [done|].
  destruct (Ascii.eqb_spec c "\") as [->|_]; [done|].
  by rewrite (proj2 (Z.ltb_ge _ _)).
Qed.

Lemma plain_chr z : (32 ≤ z < 256)%Z → z ≠ 34%Z → z ≠ 92%Z → plain (chr z) = true.
Proof.
  intros. unfold plain. rewrite code_chr by lia.
  rewrite (proj2 (Z.leb_le _ _)), !(proj2 (Z.eqb_neq _ _)) by lia. done.
Qed.

Lemma scan_plain_rune r s :
  valid_rune r = true → (32 ≤ r)%Z → r ≠ 34%Z → r ≠ 92%Z →
  scan_string (encode_valid r +:+ s) = prepend (encode_valid r) (scan_string s).
Proof.
  intros Hv%valid_rune_range H1 H2 H3. unfold encode_valid.
  destruct (Z.ltb_spec r 128); [|destruct (Z.ltb_spec r 2048); [|destruct (Z.ltb_spec r 65536)]];
    cbn [String.append];
    repeat (rewrite scan_plain by (apply plain_chr; divlia)); rewrite ?prepend_prepend; done.
Qed.



Lemma quoted_encode r q s :
  valid_rune r = true → quoted r q →
  scan_string (encode_runes q +:+ s) = prepend (encode_runes q) (scan_string s).
Proof.
  assert (He : ∀ x, (0 ≤ x < 128)%Z → encode_rune x = String (chr x) "").
  { intros x Hx. rewrite <- (code_chr x) at 1 by lia. apply ascii_encode. rewrite code_chr; lia. }
  intros Hv [H1 H2 H3 | e Hesc Hr Hin | a b c d Ha Hb Hc Hd _ _]; cbn [encode_runes foldr].
  - rewrite encode_rune_valid, string_app_nil_r by done. by apply scan_plain_rune.
  - rewrite !He by lia. cbn [String.append scan_string].
    rewrite code_chr by lia. by rewrite bool_decide_eq_true_2.
  - pose proof (hex_digit_range a Ha). pose proof (hex_digit_range b Hb).
    pose proof (hex_digit_range c Hc). pose proof (hex_digit_range d Hd).
    rewrite !He by lia. cbn [String.append scan_string].
    rewrite bool_decide_eq_false_2 by (vm_compute; set_solver).
    unfold is_hex. rewrite !code_chr by lia. rewrite !hex_val_digit by lia. done.
Qed.

Lemma encode_runes_app l l' : encode_runes (l ++ l') = encode_runes l +:+ encode_runes l'.
Proof. induction l as [|r l IH]; [done|]. simpl. by rewrite IH, string_app_assoc. Qed.

Lemma scan_quote s rest :
  scan_string (encode_runes (concat (map quote_item (runes s))) +:+ String dquote rest)
  = Some (encode_runes (concat (map quote_item (runes s))), rest).
Proof.
  induction (runes_valid s) as [|x l Hx Hl IH]; [done|]. cbn [map concat].
  rewrite encode_runes_app, <- string_app_assoc.
  rewrite (quoted_encode (rune_val x)); [|by destruct x|by apply quote_item_quoted].
  rewrite IH. done.
Qed.

(** ** Lemmas: integer literals *)
Fixpoint all_digits (s : string) : bool :=
  match s with EmptyString => true | String c s' => is_digit c && all_digits s' end.

(** What may follow a value inside a document. *)
Definition delim (rest : string) : bool :=
  match rest with
  | EmptyString => true
  | String c _ => bool_decide (code c ∈ [44; 93; 125]%Z)
  end.

Lemma is_digit_char d : (0 ≤ d < 10)%Z → is_digit (digit_char d) = true.
Proof.
  intros Hd. unfold is_digit, digit_char, code, ascii_of_nat.
  rewrite N_ascii_embedding by lia.
  rewrite !(proj2 (Z.leb_le _ _)) by lia. done.
Qed.

Lemma format_go_lead fuel n acc :
  (0 < n < 2 ^ Z.of_nat fuel)%Z → all_digits acc = true →
  ∃ c s, format_go fuel n acc = String c s ∧ is_digit c = true ∧ Ascii.eqb c "0" = false ∧
    all_digits s = true.
Proof.
  revert n acc. induction fuel as [|f IH]; intros n acc Hn Hacc; [simpl in Hn; lia|].
  pose proof (Z.mod_pos_bound n 10 ltac:(lia)) as Hmod.
  cbn [format_go]. destruct (Z.ltb_spec n 10) as [Hlt|Hge].
  - rewrite Z.mod_small by lia. eexists _, _. split; [done|].
    split; [apply is_digit_char; lia|]. split; [|done].
    destruct (Ascii.eqb_spec (digit_char n) "0") as [E|]; [|done].
    pose proof (digit_val_char n ltac:(lia)) as Hd. rewrite E in Hd. vm_compute in Hd. injection Hd. lia.
  - rewrite Nat2Z.inj_succ, Z.pow_succ_r in Hn by lia.
    apply IH.
    + pose proof (Z.div_lt_upper_bound n 10 (2 ^ Z.of_nat f)). pose proof (Z.div_str_pos n 10). lia.
    + cbn [all_digits]. by rewrite is_digit_char, Hacc.
Qed.

Lemma format_uint_lead n :
  (0 < n)%Z → ∃ c s, format_uint n = String c s ∧ is_digit c = true ∧ Ascii.eqb c "0" = false ∧
    all_digits s = true.
Proof.
  intros Hn. apply format_go_lead; [|done]. split; [done|].
  rewrite Nat2Z.inj_succ, Z2Nat.id by apply Z.log2_nonneg. by apply Z.log2_spec.
Qed.

Lemma scan_digits_all s rest :
  all_digits s = true → delim rest = true → scan_digits (s +:+ rest) = (s, rest).
Proof.
  intros Hs Hr. induction s as [|c s IH].
  - destruct rest as [|c rest]; [done|]. simpl in Hr |- *. apply bool_decide_eq_true in Hr.
    unfold is_digit. rewrite !elem_of_cons in Hr.
    destruct Hr as [-> | [-> | [-> | Hr]]]; [done..|]. by apply not_elem_of_nil in Hr.
  - cbn [all_digits] in Hs. apply andb_true_iff in Hs as [Hc Hs].
    cbn [String.append scan_digits]. by rewrite Hc, (IH Hs).
Qed.

Lemma delim_end rest : delim rest = true → scan_frac rest = Some ("", rest) ∧ scan_exp rest = Some ("", rest).
Proof.
  destruct rest as [|c rest]; [done|]. simpl. intros Hr%bool_decide_eq_true.
  assert (Hne : ∀ d : ascii, code d ∉ [44; 93; 125]%Z → Ascii.eqb c d = false).
  { intros d Hd. destruct (Ascii.eqb_spec c d) as [->|]; done. }
  rewrite !Hne by (vm_compute; set_solver). done.
Qed.

Lemma scan_unsigned_format n rest :
  (0 ≤ n)%Z → delim rest = true → scan_unsigned (format_uint n +:+ rest) = Some (format_uint n, rest).
Proof.
  intros Hn Hr. destruct (delim_end rest Hr) as [Ef Ee]. unfold scan_unsigned.
  assert (scan_int (format_uint n +:+ rest) = Some (format_uint n, rest)) as ->.
  { destruct (decide (n = 0%Z)) as [->|Hne]; [done|].
    destruct (format_uint_lead n) as (c & s & E & Hd & H0 & Hs); [lia|].
    rewrite E. cbn [String.append scan_int]. rewrite H0, Hd.
    change (String c (s +:+ rest)) with (String c s +:+ rest).
    rewrite scan_digits_all; [done| |done]. cbn [all_digits]. by rewrite Hd, Hs. }
  rewrite Ef, Ee. simpl. by rewrite !string_app_nil_r.
Qed.

Lemma scan_number_format n rest :
  delim rest = true → scan_number (format_int n +:+ rest) = Some (format_int n, rest).
Proof.
  intros Hr. unfold format_int. destruct (Z.ltb_spec n 0) as [Hn|Hn].
  - change (("-" +:+ format_uint (- n)) +:+ rest) with (String "-" (format_uint (- n) +:+ rest)).
    unfold scan_number. simpl (Ascii.eqb _ _). cbn [orb].
    rewrite scan_unsigned_format by (lia || done). done.
  - destruct (format_uint_cons n Hn) as (c & s & E & Hc).
    destruct (digit_val_sign c Hc) as [_ Hm].
    pose proof (scan_unsigned_format n rest Hn Hr) as Hs. rewrite E in Hs |- *.
    cbn [String.append] in *. unfold scan_number. by rewrite Hm.
Qed.

(** The first character of an integer literal starts no other kind of value. *)
Lemma format_int_first n :
  ∃ c s, format_int n = String c s ∧ skip_ws (format_int n) = format_int n ∧
    Forall (λ d, Ascii.eqb c d = false) ["{"; "["; dquote; "t"; "f"; "n"; "]"; "}"]%char.
Proof.
  assert (H : ∃ c s, format_int n = String c s ∧ (c = "-"%char ∨ is_Some (digit_val c))).
  { unfold format_int. destruct (Z.ltb_spec n 0) as [Hn|Hn].
    - exists "-"%char, (format_uint (- n)). split; [done|by left].
    - destruct (format_uint_cons n Hn) as (c & s & E & Hc). exists c, s. split; [done|by right]. }
  destruct H as (c & s & E & Hc). exists c, s. split; [done|].
  assert (Hne : ∀ d, d ≠ "-"%char → digit_val d = None → Ascii.eqb c d = false).
  { intros d H1 H2. destruct (Ascii.eqb_spec c d) as [->|]; [|done].
    destruct Hc as [?|[? ?]]; [done|congruence]. }
  split; [|repeat constructor; by apply Hne].
  rewrite E. cbn [skip_ws]. rewrite bool_decide_eq_false_2; [done|].
  rewrite !not_elem_of_cons. split_and!; [..|by apply not_elem_of_nil].
  all: intros Ec; destruct Hc as [->|[d Hd]]; [done|].
  all: rewrite <- (chr_code c), Ec in Hd; done.
Qed.

(** ** Lemmas: documents *)
Section json_induction.
Context (P : json → Prop).
Context (HNull : P JNull) (HBool : ∀ b, P (JBool b)) (HNum : ∀ n, P (JNum n)) (HStr : ∀ s, P (JStr s)).
Context (HArr : ∀ l, Forall P l → P (JArr l)) (HObj : ∀ l, Forall (λ kv, P kv.2) l → P (JObj l)).

Fixpoint json_nested_ind (j : json) : P j :=
  match j with
  | JNull => HNull
  | JBool b => HBool b
  | JNum n => HNum n
  | JStr s => HStr s
  | JArr l =>
      HArr l ((fix go l : Forall P l :=
        match l with
        | [] => Forall_nil_2 P
        | x :: l' => Forall_cons_2 P x l' (json_nested_ind x) (go l')
        end) l)
  | JObj l =>
      HObj l ((fix go l : Forall (λ kv, P kv.2) l :=
        match l with
        | [] => Forall_nil_2 _
        | x :: l' => Forall_cons_2 _ x l' (json_nested_ind x.2) (go l')
        end) l)
  end.
End json_induction.

(** The documents Go values of this program print to: numbers are integers. *)
Fixpoint json_ok (j : json) : Prop :=
  match j with
  | JNum lit => ∃ n, lit = format_int n
  | JArr l => foldr (λ x Q, json_ok x ∧ Q) True l
  | JObj l => foldr (λ kv Q, json_ok kv.2 ∧ Q) True l
  | _ => True
  end.

Fixpoint coerce_json (j : json) : json :=
  match j with
  | JStr s => JStr (coerce s)
  | JArr l => JArr (map coerce_json l)
  | JObj l => JObj (map (λ kv, (coerce kv.1, coerce_json kv.2)) l)
  | _ => j
  end.

Fixpoint jsize (j : json) : nat :=
  match j with
  | JArr l => S (foldr (λ x n, S (jsize x) + n) 0 l)
  | JObj l => S (foldr (λ kv n, S (jsize kv.2) + n) 0 l)
  | _ => 1
  end.

(** A text that starts with a character other than white space and closing
    brackets. *)
Definition starts_value (s : string) : bool :=
  match s with
  | EmptyString => false
  | String c _ => negb (bool_decide (code c ∈ [32; 9; 13; 10; 93; 125]%Z))
  end.

Lemma starts_value_spec s :
  starts_value s = true →
  ∃ c s', s = String c s' ∧ (∀ t, skip_ws (s +:+ t) = s +:+ t) ∧
    Ascii.eqb c "]" = false ∧ Ascii.eqb c "}" = false.
Proof.
  destruct s as [|c s]; [done|]. simpl. rewrite negb_true_iff, bool_decide_eq_false.
  intros Hc. exists c, s. rewrite !not_elem_of_cons in Hc. destruct Hc as (?&?&?&?&?&?&?).
  split; [done|]. split; [|split].
  - intros t. simpl. rewrite bool_decide_eq_false_2; [done|]. rewrite !not_elem_of_cons. split_and!; [done..|].
    by apply not_elem_of_nil.
  - destruct (Ascii.eqb_spec c "]") as [->|]; done.
  - destruct (Ascii.eqb_spec c "}") as [->|]; done.
Qed.

Lemma print_starts j : json_ok j → starts_value (print j) = true.
Proof.
  destruct j as [|[]|lit|s|l|l]; try done.
  intros [n ->]. destruct (format_int_first n) as (c & s & E & Hs & Hf). cbn [print]. rewrite E in Hs |- *.
  cbn [starts_value]. rewrite negb_true_iff, bool_decide_eq_false.
  rewrite !Forall_cons in Hf. destruct Hf as (_&_&_&_&_&_&H1&H2&_).
  cbn [skip_ws] in Hs. case_bool_decide as Hw.
  - exfalso. apply (f_equal String.length) in Hs.
    assert (∀ x, String.length (skip_ws x) ≤ String.length x) as Hl.
    { intros x. induction x as [|d x IH]; [done|]. simpl. case_bool_decide; simpl; lia. }
    specialize (Hl s). simpl in Hs. lia.
  - assert (code c ≠ 93 ∧ code c ≠ 125)%Z as [? ?].
    { split; intros Ec; rewrite <- (chr_code c), Ec in H1, H2; done. }
    rewrite !not_elem_of_cons in Hw. rewrite !not_elem_of_cons. destruct Hw as (?&?&?&?&?).
    split_and!; [done..|by apply not_elem_of_nil].
Qed.

(** Reading back a printed value, in front of any text that may follow it. *)
Definition reads (j : json) : Prop :=
  json_ok j → ∀ fuel rest, delim rest = true → jsize j ≤ fuel →
  parse_value fuel (print j +:+ rest) = Some (coerce_json j, rest).

Lemma reads_string s fuel rest :
  parse_value (S fuel) (quote s +:+ rest) = Some (JStr (coerce s), rest).
Proof.
  unfold quote. change (String dquote ?x +:+ rest) with (String dquote (x +:+ rest)).
  cbn [parse_value skip_ws]. rewrite bool_decide_eq_false_2 by (vm_compute; set_solver).
  simpl (Ascii.eqb dquote _). cbn [negb orb]. rewrite <- string_app_assoc.
  change (String dquote "" +:+ rest) with (String dquote rest).
  rewrite scan_quote, unquote_quote. done.
Qed.

Lemma reads_elements l fuel rest :
  Forall reads l → foldr (λ x Q, json_ok x ∧ Q) True l → l ≠ [] →
  foldr (λ x n, S (jsize x) + n) 0 l ≤ fuel →
  parse_elements fuel (concat_sep "," (map print l) +:+ String "]" rest)
  = Some (map coerce_json l, rest).
Proof.
  intros Hl. revert fuel. induction Hl as [|x l Hx Hl IH]; intros fuel Hok Hne Hf; [done|].
  cbn [foldr] in Hok, Hf. destruct Hok as [Hokx Hok]. destruct fuel as [|fuel]; [lia|].
  cbn [parse_elements]. destruct l as [|y l].
  - cbn [map concat_sep]. rewrite (Hx Hokx) by (done || lia). done.
  - change (concat_sep "," (map print (x :: y :: l)))
      with (print x +:+ ("," +:+ concat_sep "," (map print (y :: l)))).
    rewrite <- !string_app_assoc. rewrite (Hx Hokx) by (done || lia).
    change ("," +:+ ?t) with (String "," t). cbn [skip_ws].
    rewrite bool_decide_eq_false_2 by (vm_compute; set_solver). simpl (Ascii.eqb _ _).
    cbn [orb negb]. rewrite IH; [done|done|done|lia].
Qed.

Definition member (kv : string * json) : string := quote kv.1 +:+ ":" +:+ print kv.2.

(** The first member of an object, in front of a comma or the closing brace. *)
Lemma reads_member k v fuel t :
  reads v → json_ok v → jsize v ≤ fuel → delim t = true →
  parse_members (S fuel) (member (k, v) +:+ t) =
  match skip_ws t with
  | EmptyString => None
  | String c' s3 =>
      if Ascii.eqb c' "}" then Some ([(coerce k, coerce_json v)], s3)
      else if Ascii.eqb c' "," then
        match parse_members fuel s3 with
        | Some (ms, rest') => Some ((coerce k, coerce_json v) :: ms, rest')
        | None => None
        end
      else None
  end.
Proof.
  intros Hv Hok Hf Ht. unfold member. cbn [fst snd]. rewrite <- !string_app_assoc. unfold quote.
  change (String dquote ?x +:+ ?y) with (String dquote (x +:+ y)).
  cbn [parse_members skip_ws]. rewrite bool_decide_eq_false_2 by (vm_compute; set_solver).
  simpl (Ascii.eqb dquote _). cbn [negb]. rewrite <- string_app_assoc.
  change (String dquote "" +:+ ?y) with (String dquote y).
  rewrite scan_quote, unquote_quote. change (":" +:+ ?y) with (String ":" y). cbn [skip_ws].
  rewrite bool_decide_eq_false_2 by (vm_compute; set_solver). simpl (Ascii.eqb ":" _). cbn [negb].
  by rewrite (Hv Hok).
Qed.

Lemma reads_members (l : list (string * json)) fuel rest :
  Forall (λ kv, reads kv.2) l → foldr (λ kv Q, json_ok kv.2 ∧ Q) True l → l ≠ [] →
  foldr (λ kv n, S (jsize kv.2) + n) 0 l ≤ fuel →
  parse_members fuel (concat_sep "," (map member l) +:+ String "}" rest)
  = Some (map (λ kv, (coerce kv.1, coerce_json kv.2)) l, rest).
Proof.
  intros Hl. revert fuel. induction Hl as [|[k v] l Hx Hl IH]; intros fuel Hok Hne Hf; [done|].
  cbn [foldr snd] in Hok, Hf, Hx. destruct Hok as [Hokx Hok]. destruct fuel as [|fuel]; [lia|].
  destruct l as [|y l].
  - cbn [map concat_sep]. rewrite reads_member by (done || lia). done.
  - change (concat_sep "," (map member ((k, v) :: y :: l)))
      with (member (k, v) +:+ ("," +:+ concat_sep "," (map member (y :: l)))).
    rewrite <- !string_app_assoc. rewrite reads_member by (done || lia).
    change ("," +:+ ?t) with (String "," t). cbn [skip_ws].
    rewrite bool_decide_eq_false_2 by (vm_compute; set_solver). simpl (Ascii.eqb _ _).
    cbn [orb negb]. rewrite IH; [done|done|done|lia].
Qed.

Lemma concat_sep_starts sep x l t :
  starts_value x = true → starts_value (concat_sep sep (x :: l) +:+ t) = true.
Proof. destruct x as [|c x]; [done|]. intros Hx. by destruct l. Qed.

Lemma reads_all j : reads j.
Proof.
  induction j as [|b|lit|s|l IH|l IH] using json_nested_ind; intros Hok fuel rest Hr Hf;
    (destruct fuel as [|fuel]; [simpl in Hf; lia|]).
  - done.
  - by destruct b.
  - destruct Hok as [n ->]. destruct (format_int_first n) as (c & s & E & Hs & Hc).
    destruct (starts_value_spec (format_int n)) as (c' & s' & E' & Hws & _).
    { change (format_int n) with (print (JNum (format_int n))). apply print_starts. by exists n. }
    cbn [parse_value print]. rewrite Hws. pose proof (scan_number_format n rest Hr) as Hn.
    rewrite E in Hn |- *. cbn [String.append] in Hn |- *.
    rewrite !Forall_cons in Hc. destruct Hc as (-> & -> & -> & -> & -> & -> & _). by rewrite Hn, <- E.
  - by apply reads_string.
  - cbn [print]. destruct l as [|x l]; [done|].
    assert (Hx : starts_value (print x) = true) by (apply print_starts, Hok).
    destruct (starts_value_spec _ (concat_sep_starts "," _ (map print l) "" Hx)) as (c & s & E & Hws & H1 & _).
    rewrite string_app_nil_r in E, Hws. rewrite <- !string_app_assoc.
    change ("[" +:+ ?y) with (String "[" y). cbn [parse_value skip_ws].
    rewrite bool_decide_eq_false_2 by (vm_compute; set_solver). simpl (Ascii.eqb "[" _). cbn iota.
    change (map print (x :: l)) with (print x :: map print l). rewrite Hws.
    destruct (concat_sep "," (print x :: map print l) +:+ "]" +:+ rest) as [|c' s''] eqn:Ec;
      [by rewrite E in Ec|].
    assert (c' = c) as -> by (rewrite E in Ec; by injection Ec). rewrite H1, <- Ec.
    change ("]" +:+ rest) with (String "]" rest).
    pose proof (reads_elements (x :: l) fuel rest IH Hok ltac:(done)) as Hp.
    change (map print (x :: l)) with (print x :: map print l) in Hp. rewrite Hp; [done|].
    cbn [jsize] in Hf. lia.
  - cbn [print]. destruct l as [|[k v] l]; [done|].
    change (map _ ((k, v) :: l)) with (member (k, v) :: map member l).
    destruct (starts_value_spec _ (concat_sep_starts "," (member (k, v)) (map member l) "" eq_refl))
      as (c & s & E & Hws & _ & H1).
    rewrite string_app_nil_r in E, Hws. rewrite <- !string_app_assoc.
    change ("{" +:+ ?y) with (String "{" y). cbn [parse_value skip_ws].
    rewrite bool_decide_eq_false_2 by (vm_compute; set_solver). simpl (Ascii.eqb "{" _). cbn iota.
    rewrite Hws. destruct (concat_sep "," (member (k, v) :: map member l) +:+ "}" +:+ rest) as [|c' s''] eqn:Ec;
      [by rewrite E in Ec|].
    assert (c' = c) as -> by (rewrite E in Ec; by injection Ec). rewrite H1, <- Ec.
    change ("}" +:+ rest) with (String "}" rest).
    pose proof (reads_members ((k, v) :: l) fuel rest IH Hok ltac:(done)) as Hp.
    change (map member ((k, v) :: l)) with (member (k, v) :: map member l) in Hp. rewrite Hp; [done|].
    cbn [jsize] in Hf. lia.
Qed.

Lemma concat_sep_length {A} (f : A → string) (g : A → nat) l :
  Forall (λ x, g x ≤ 2 * String.length (f x)) l →
  foldr (λ x n, S (g x) + n) 0 l ≤ 2 * String.length (concat_sep "," (map f l)) + 1.
Proof.
  induction 1 as [|x l Hx Hl IH]; [simpl; lia|]. destruct l as [|y l].
  - cbn in *. lia.
  - change (concat_sep "," (map f (x :: y :: l))) with (f x +:+ "," +:+ concat_sep "," (map f (y :: l))).
    rewrite !string_length_app. change (String.length ",") with 1.
    change (foldr (λ x n, S (g x) + n) 0 (x :: y :: l))
      with (S (g x) + foldr (λ x n, S (g x) + n) 0 (y :: l)). lia.
Qed.

Lemma jsize_print j : json_ok j → jsize j ≤ 2 * String.length (print j).
Proof.
  induction j as [|b|lit|s|l IH|l IH] using json_nested_ind; intros Hok; try (simpl; lia).
  - destruct b; simpl; lia.
  - destruct Hok as [n ->]. destruct (format_int_first n) as (c & s & E & _).
    cbn [print jsize]. rewrite E. simpl. lia.
  - cbn [print jsize]. rewrite !string_length_app.
    assert (Forall (λ x, jsize x ≤ 2 * String.length (print x)) l) as Hl.
    { cbn [json_ok] in Hok. induction IH as [|x l Hx _ IHl]; [constructor|].
      destruct Hok. constructor; auto. }
    pose proof (concat_sep_length print jsize l Hl). cbn [String.length]. lia.
  - cbn [print jsize]. rewrite !string_length_app.
    assert (Forall (λ kv : string * json, jsize kv.2 ≤ 2 * String.length (member kv)) l) as Hl.
    { cbn [json_ok] in Hok. induction IH as [|x l Hx _ IHl]; [constructor|].
      destruct Hok as [Hokx Hok]. constructor; auto. specialize (Hx Hokx).
      unfold member. rewrite !string_length_app. lia. }
    pose proof (concat_sep_length member (λ kv, jsize kv.2) l Hl). cbn [String.length].
    change (λ kv : string * json, quote kv.1 +:+ ":" +:+ print kv.2) with member. lia.
Qed.

(** Reading back a printed document. *)
Lemma parse_print j : json_ok j → parse (print j) = Some (coerce_json j).
Proof.
  intros Hok. unfold parse. pose proof (jsize_print j Hok).
  pose proof (reads_all j Hok (2 * String.length (print j) + 2) "" eq_refl ltac:(lia)) as E.
  rewrite string_app_nil_r in E. by rewrite E.
Qed.

Lemma coerce_valid s : valid_string s = true → coerce s = s.
Proof. apply encode_runes_of. Qed.
