(* ===== verification/Base64.v ===== *)
(** * Base64: encoding/base64's StdEncoding

    What Go's standard library writes for a byte slice in JSON text, and what
    the state database's keys become when it takes text keys only. *)

From S2P Require Import Prelude GoText Utf8 Json.
From Stdlib Require Import Ascii.

#[local] Arguments String.append : simpl nomatch.

(** ** encoding/base64, StdEncoding *)
Definition b64_char (d : Z) : ascii :=
  (if d <? 26 then chr (65 + d)
   else if d <? 52 then chr (71 + d)
   else if d <? 62 then chr (d - 4)
   else if d =? 62 then chr 43 else chr 47)%Z.

Definition b64_val (c : ascii) : option Z :=
  let z := code c in
  (if (65 <=? z) && (z <=? 90) then Some (z - 65)
   else if (97 <=? z) && (z <=? 122) then Some (z - 71)
   else if (48 <=? z) && (z <=? 57) then Some (z + 4)
   else if z =? 43 then Some 62
   else if z =? 47 then Some 63
   else None)%Z.

Fixpoint b64_encode (s : string) : string :=
  match s with
  | EmptyString => ""
  | String a EmptyString =>
      String (b64_char (code a / 4)) (String (b64_char (code a mod 4 * 16)) "==")
  | String a (String b EmptyString) =>
      String (b64_char (code a / 4)) (String (b64_char (code a mod 4 * 16 + code b / 16))
        (String (b64_char (code b mod 16 * 4)) "="))
  | String a (String b (String c s')) =>
      String (b64_char (code a / 4)) (String (b64_char (code a mod 4 * 16 + code b / 16))
        (String (b64_char (code b mod 16 * 4 + code c / 64)) (String (b64_char (code c mod 64))
          (b64_encode s'))))
  end.

(** Line breaks are skipped wherever they are. *)
Fixpoint drop_newlines (s : string) : string :=
  match s with
  | EmptyString => ""
  | String c s' =>
      if ((code c =? 10) || (code c =? 13))%Z then drop_newlines s' else String c (drop_newlines s')
  end.

Fixpoint b64_quads (s : string) : option string :=
  match s with
  | EmptyString => Some ""
  | String w (String x (String y (String z s'))) =>
      match b64_val w, b64_val x with
      | Some w, Some x =>
          let a := chr (w * 4 + x / 16) in
          if Ascii.eqb y "=" then
            if Ascii.eqb z "=" && bool_decide (s' = "") then Some (String a "") else None
          else
            match b64_val y with
            | None => None
            | Some y =>
                let b := chr (x mod 16 * 16 + y / 4) in
                if Ascii.eqb z "=" then
                  if bool_decide (s' = "") then Some (String a (String b "")) else None
                else
                  match b64_val z with
                  | None => None
                  | Some z =>
                      (λ t, String a (String b (String (chr (y mod 4 * 64 + z)) t))) <$> b64_quads s'
                  end
            end
      | _, _ => None
      end
  | _ => None
  end.

Definition b64_decode (s : string) : option string := b64_quads (drop_newlines s).

(** ** Lemmas: base64 *)
Lemma b64_char_spec d :
  (0 ≤ d < 64)%Z →
  b64_val (b64_char d) = Some d ∧ Ascii.eqb (b64_char d) "=" = false ∧ (32 < code (b64_char d) < 128)%Z.
Proof.
  intros Hd. assert (forallb (λ d, bool_decide (b64_val (b64_char d) = Some d) &&
    negb (Ascii.eqb (b64_char d) "=") && (32 <? code (b64_char d))%Z && (code (b64_char d) <? 128)%Z)
    (seqZ 0 64) = true) as H by (vm_compute; reflexivity).
  apply (forallb_range _ 64 d) in H; [|done].
  rewrite !andb_true_iff, bool_decide_eq_true, negb_true_iff, !Z.ltb_lt in H. naive_solver.
Qed.

(** Strings by three characters at a time, as the encoder works. *)
Lemma string_ind3 (P : string → Prop) :
  P "" → (∀ a, P (String a "")) → (∀ a b, P (String a (String b ""))) →
  (∀ a b c s, P s → P (String a (String b (String c s)))) → ∀ s, P s.
Proof.
  intros H0 H1 H2 H3. fix IH 1. intros [|a [|b [|c s]]]; [done|apply H1|apply H2|apply H3, IH].
Qed.

Lemma b64_plain s : ∀ c, has_char c (b64_encode s) = true → (32 < code c < 128)%Z.
Proof.
  assert (Hc : ∀ c d s, (0 ≤ d < 64)%Z → (has_char c s = true → 32 < code c < 128)%Z →
    has_char c (String (b64_char d) s) = true → (32 < code c < 128)%Z).
  { intros c d s' Hd IH. cbn [has_char]. rewrite orb_true_iff. intros [E|E]; [|auto].
    apply Ascii.eqb_eq in E as ->. by apply b64_char_spec. }
  assert (He : ∀ c, has_char c "==" = true → (32 < code c < 128)%Z).
  { intros c. cbn [has_char]. rewrite !orb_true_iff.
    intros [E|[E|?]]; [..|done]; apply Ascii.eqb_eq in E as ->; by vm_compute. }
  assert (He1 : ∀ c, has_char c "=" = true → (32 < code c < 128)%Z).
  { intros c E. apply He. cbn [has_char] in *. by rewrite E, orb_true_r. }
  induction s as [|a|a b|a b c' s IH] using string_ind3; intros c; cbn [b64_encode]; [done|..];
    pose proof (code_range a); try pose proof (code_range b); try pose proof (code_range c');
    repeat (apply Hc; [divlia|]); auto.
Qed.

Lemma drop_newlines_id s : (∀ c, has_char c s = true → (32 < code c)%Z) → drop_newlines s = s.
Proof.
  induction s as [|d s IH]; intros H; [done|]. cbn [drop_newlines].
  assert (32 < code d)%Z by (apply H; cbn; by rewrite Ascii.eqb_refl).
  rewrite !(proj2 (Z.eqb_neq _ _)) by lia. cbn [orb]. rewrite IH; [done|].
  intros c Hc. apply H. cbn. by rewrite Hc, orb_true_r.
Qed.

Lemma b64_quads_encode s : b64_quads (b64_encode s) = Some s.
Proof.
  induction s as [|a|a b|a b c s IH] using string_ind3; [done|..]; cbn [b64_encode b64_quads];
    pose proof (code_range a); try pose proof (code_range b); try pose proof (code_range c).
  - destruct (b64_char_spec (code a / 4)) as (-> & _); [divlia|].
    destruct (b64_char_spec (code a mod 4 * 16)) as (-> & _); [divlia|]. simpl.
    replace (code a / 4 * 4 + code a mod 4 * 16 / 16)%Z with (code a) by divlia. by rewrite chr_code.
  - destruct (b64_char_spec (code a / 4)) as (-> & _); [divlia|].
    destruct (b64_char_spec (code a mod 4 * 16 + code b / 16)) as (-> & _); [divlia|].
    destruct (b64_char_spec (code b mod 16 * 4)) as (-> & -> & _); [divlia|]. simpl.
    replace (code a / 4 * 4 + (code a mod 4 * 16 + code b / 16) / 16)%Z with (code a) by divlia.
    replace ((code a mod 4 * 16 + code b / 16) mod 16 * 16 + code b mod 16 * 4 / 4)%Z with (code b) by divlia.
    by rewrite !chr_code.
  - destruct (b64_char_spec (code a / 4)) as (-> & _); [divlia|].
    destruct (b64_char_spec (code a mod 4 * 16 + code b / 16)) as (-> & _); [divlia|].
    destruct (b64_char_spec (code b mod 16 * 4 + code c / 64)) as (-> & -> & _); [divlia|].
    destruct (b64_char_spec (code c mod 64)) as (-> & -> & _); [divlia|]. rewrite IH. simpl.
    replace (code a / 4 * 4 + (code a mod 4 * 16 + code b / 16) / 16)%Z with (code a) by divlia.
    replace ((code a mod 4 * 16 + code b / 16) mod 16 * 16 + (code b mod 16 * 4 + code c / 64) / 4)%Z
      with (code b) by divlia.
    replace ((code b mod 16 * 4 + code c / 64) mod 4 * 64 + code c mod 64)%Z with (code c) by divlia.
    by rewrite !chr_code.
Qed.

Lemma b64_decode_encode s : b64_decode (b64_encode s) = Some s.
Proof.
  unfold b64_decode. rewrite drop_newlines_id; [apply b64_quads_encode|].
  intros c Hc. apply (b64_plain s c Hc).
Qed.

#[global] Instance b64_encode_inj : Inj (=) (=) b64_encode.
Proof. intros s s' E. apply (f_equal b64_decode) in E. rewrite !b64_decode_encode in E. congruence. Qed.
