(* ===== verification/ShardTypes.v ===== *)
(** * ShardTypes: the entries of a shard's Raft log (core/endorser/sharding/types.go)

    A log entry is the JSON text of a batch of prepare requests or of an abort.
    [marshal_batch] and [marshal_abort] are what [json.Marshal] writes for
    these structs, [unmarshal_batch] what [json.Unmarshal] stores into a zero
    batch: fields are matched without regard to case, unknown fields are
    skipped, null leaves a string or number as it is and clears a map, slice
    or pointer, and a repeated key updates what the earlier one stored. A
    [[]byte] is base64, with nil as null. *)

From S2P Require Import Prelude GoText Utf8 Json Base64.
From Stdlib Require Import Ascii.

#[local] Arguments String.append : simpl nomatch.

(** ** The structs *)
Notation gobytes := (option string).   (* a [[]byte]: nil or its bytes *)
Notation goset := (option (gmap string gobytes)).   (* a [map[string][]byte]: nil or its entries *)

Record PrepareRequestProto := mkPrepareRequestProto {
  rp_TxID : string;
  rp_ShardID : string;
  rp_ReadSet : goset;
  rp_WriteSet : goset;
  rp_Timestamp : Z
}.

(** [Requests []*PrepareRequestProto]. *)
Record PrepareRequestBatch := mkPrepareRequestBatch {
  Requests : option (list (option PrepareRequestProto))
}.

Record AbortEntry := mkAbortEntry { ab_TxID : string; ab_Timestamp : Z }.

(** ** json.Marshal *)
Definition json_of_bytes (v : gobytes) : json :=
  match v with None => JNull | Some b => JStr (b64_encode b) end.

Definition str_le (a b : string) : Prop := String.leb a b = true.
#[global] Instance str_le_dec a b : Decision (str_le a b).
Proof. unfold str_le. apply _. Defined.

Definition sorted_keys {V} (m : gmap string V) : list string :=
  merge_sort str_le (keys_of m).

Definition json_of_set (m : goset) : json :=
  match m with
  | None => JNull
  | Some m => JObj (map (λ k, (k, json_of_bytes (m !! k ≫= id))) (sorted_keys m))
  end.

Definition json_of_request (r : PrepareRequestProto) : json :=
  JObj [("TxID", JStr (rp_TxID r)); ("ShardID", JStr (rp_ShardID r));
        ("ReadSet", json_of_set (rp_ReadSet r)); ("WriteSet", json_of_set (rp_WriteSet r));
        ("Timestamp", JNum (format_int (rp_Timestamp r)))].

Definition json_of_batch (b : PrepareRequestBatch) : json :=
  JObj [("Requests", match Requests b with
                     | None => JNull
                     | Some l => JArr (map (λ r, match r with None => JNull | Some r => json_of_request r end) l)
                     end)].

Definition json_of_abort (a : AbortEntry) : json :=
  JObj [("TxID", JStr (ab_TxID a)); ("Timestamp", JNum (format_int (ab_Timestamp a)))].

Definition marshal_batch (b : PrepareRequestBatch) : string := print (json_of_batch b).
Definition marshal_abort (a : AbortEntry) : string := print (json_of_abort a).

(** ** json.Unmarshal *)

(** Field names are compared after case folding; besides the ASCII letters
    only U+017F and U+212A fold to an ASCII letter. *)
Definition fold_rune (r : Z) : Z :=
  (if (97 <=? r) && (r <=? 122) then r - 32
   else if r =? 383 then 83
   else if r =? 8490 then 75
   else r)%Z.

Definition fold_name (s : string) : list Z := map (λ x, fold_rune (rune_val x)) (runes s).

Definition names (key name : string) : bool := bool_decide (fold_name key = fold_name name).

Definition type_error {A} : outcome A := Err "json: cannot unmarshal value into Go value".

Definition into_string (old : string) (j : json) : outcome string :=
  match j with JNull => Ok old | JStr s => Ok s | _ => type_error end.

Definition into_int64 (old : Z) (j : json) : outcome Z :=
  match j with
  | JNull => Ok old
  | JNum lit => match parse_int64 lit with (n, None) => Ok n | _ => type_error end
  | _ => type_error
  end.

(** An array of numbers is accepted for a byte slice too. *)
Definition into_byte (j : json) : outcome Z :=
  match j with
  | JNull => Ok 0%Z
  | JNum lit =>
      match parse_int64 lit with
      | (n, None) => if ((0 <=? n) && (n <? 256))%Z then Ok n else type_error
      | _ => type_error
      end
  | _ => type_error
  end.

Definition into_bytes (j : json) : outcome gobytes :=
  match j with
  | JNull => Ok None
  | JStr s => match b64_decode s with Some b => Ok (Some b) | None => Err "illegal base64 data" end
  | JArr l =>
      bs ← foldM (λ acc x, b ← into_byte x; Ok (acc +:+ String (chr b) "")) "" l;
      Ok (Some bs)
  | _ => type_error
  end.

Definition set_member (m : gmap string gobytes) (kv : string * json) : outcome (gmap string gobytes) :=
  match into_bytes kv.2 with
  | Ok v => Ok (<[kv.1 := v]> m)
  | Err e => Err e
  | Panic e => Panic e
  end.

Definition into_set (old : goset) (j : json) : outcome goset :=
  match j with
  | JNull => Ok None
  | JObj ms =>
      m ← foldM set_member (default ∅ old) ms;
      Ok (Some m)
  | _ => type_error
  end.

Definition request_member (r : PrepareRequestProto) (kv : string * json) : outcome PrepareRequestProto :=
  let '(k, j) := kv in
  let '(mkPrepareRequestProto tx sh rs ws ts) := r in
  if names k "TxID" then x ← into_string tx j; Ok (mkPrepareRequestProto x sh rs ws ts)
  else if names k "ShardID" then x ← into_string sh j; Ok (mkPrepareRequestProto tx x rs ws ts)
  else if names k "ReadSet" then x ← into_set rs j; Ok (mkPrepareRequestProto tx sh x ws ts)
  else if names k "WriteSet" then x ← into_set ws j; Ok (mkPrepareRequestProto tx sh rs x ts)
  else if names k "Timestamp" then x ← into_int64 ts j; Ok (mkPrepareRequestProto tx sh rs ws x)
  else Ok r.

Definition zero_request : PrepareRequestProto := mkPrepareRequestProto "" "" None None 0.

(** Into a [*PrepareRequestProto]: a nil pointer gets a new struct. *)
Definition into_request (old : option PrepareRequestProto) (j : json)
    : outcome (option PrepareRequestProto) :=
  match j with
  | JNull => Ok None
  | JObj ms => r ← foldM request_member (default zero_request old) ms; Ok (Some r)
  | _ => type_error
  end.

Fixpoint into_requests (old : list (option PrepareRequestProto)) (l : list json)
    : outcome (list (option PrepareRequestProto)) :=
  match l with
  | [] => Ok []
  | j :: l' =>
      r ← into_request (head old ≫= id) j;
      rs ← into_requests (tail old) l';
      Ok (r :: rs)
  end.

Definition batch_member (b : PrepareRequestBatch) (kv : string * json) : outcome PrepareRequestBatch :=
  let '(k, j) := kv in
  if names k "Requests" then
    match j with
    | JNull => Ok (mkPrepareRequestBatch None)
    | JArr l => rs ← into_requests (default [] (Requests b)) l; Ok (mkPrepareRequestBatch (Some rs))
    | _ => type_error
    end
  else Ok b.

Definition batch_of_json (j : json) : outcome PrepareRequestBatch :=
  match j with
  | JNull => Ok (mkPrepareRequestBatch None)
  | JObj ms => foldM batch_member (mkPrepareRequestBatch None) ms
  | _ => type_error
  end.

Definition unmarshal_batch (data : string) : outcome PrepareRequestBatch :=
  match parse data with
  | Some j => batch_of_json j
  | None => Err "invalid character in JSON text"
  end.

Example batch_ex :
  let b := mkPrepareRequestBatch (Some [Some (mkPrepareRequestProto "t1" "cc" (Some ∅)
             (Some {["a" := Some "xyz"; "b" := Some ""; "c" := None]}) 17)]) in
  unmarshal_batch (marshal_batch b) = Ok b.
Proof. vm_compute. reflexivity. Qed.

Example abort_ex :
  unmarshal_batch (marshal_abort (mkAbortEntry "t1" 17)) = Ok (mkPrepareRequestBatch None).
Proof. vm_compute. reflexivity. Qed.

(** ** Lemmas: the structs' round trip *)
Lemma ascii_valid s : (∀ c, has_char c s = true → (code c < 128)%Z) → valid_string s = true.
Proof.
  induction s as [|d s IH]; intros H; [done|]. unfold valid_string. cbn [runes].
  rewrite (proj2 (Z.ltb_lt _ _)); [|apply H; cbn; by rewrite Ascii.eqb_refl]. cbn.
  apply IH. intros c Hc. apply H. cbn. by rewrite Hc, orb_true_r.
Qed.

Definition set_valid (m : goset) : Prop :=
  ∀ m', m = Some m' → ∀ k, is_Some (m' !! k) → valid_string k = true.

Lemma set_valid_keys m : forallb valid_string (keys_of m) = true → set_valid (Some m).
Proof.
  rewrite forallb_forall. intros Hall m' [= <-] k Hk. apply Hall, list_elem_of_In.
  by apply (range_order_elem m _ k (keys_of_order m)).
Qed.

(** Requests whose strings are valid UTF-8 and whose time is an [int64]. *)
Record request_valid (r : PrepareRequestProto) : Prop := {
  rv_TxID : valid_string (rp_TxID r) = true;
  rv_ShardID : valid_string (rp_ShardID r) = true;
  rv_ReadSet : set_valid (rp_ReadSet r);
  rv_WriteSet : set_valid (rp_WriteSet r);
  rv_Timestamp : (- 2 ^ 63 ≤ rp_Timestamp r < 2 ^ 63)%Z
}.

Lemma json_bytes_ok v :
  json_ok (json_of_bytes v) ∧ coerce_json (json_of_bytes v) = json_of_bytes v ∧
  into_bytes (json_of_bytes v) = Ok v.
Proof.
  destruct v as [b|]; [|done]. cbn. split_and!; [done| |by rewrite b64_decode_encode].
  rewrite coerce_valid; [done|]. apply ascii_valid. intros c Hc. apply (b64_plain b c Hc).
Qed.

Lemma sorted_keys_elem {V} (m : gmap string V) k : k ∈ sorted_keys m ↔ is_Some (m !! k).
Proof.
  unfold sorted_keys. rewrite merge_sort_Permutation. apply range_order_elem, keys_of_order.
Qed.

Lemma set_fold (m : gmap string gobytes) ks (m0 : gmap string gobytes) :
  (∀ k, k ∈ ks → is_Some (m !! k)) →
  ∃ m1, foldM set_member m0
      (map (λ k, (k, json_of_bytes (m !! k ≫= id))) ks) = Ok m1 ∧
    ∀ k, m1 !! k = if decide (k ∈ ks) then m !! k else m0 !! k.
Proof.
  revert m0. induction ks as [|k ks IH]; intros m0 Hks; [by exists m0|].
  destruct (Hks k) as [v Hv]; [left|]. cbn [map foldM]. rewrite Hv. change (Some v ≫= id) with v.
  destruct (json_bytes_ok v) as (_ & _ & Hin). unfold set_member at 1. cbn [fst snd].
  rewrite Hin.
  destruct (IH (<[k := v]> m0)) as (m1 & -> & Hm1); [intros k' ?; apply Hks; by right|].
  exists m1. split; [done|]. intros k'. rewrite Hm1.
  destruct (decide (k' = k)) as [->|Hne].
  - rewrite lookup_insert_eq. rewrite (decide_True (P := k ∈ k :: ks)) by left. by case_decide.
  - rewrite lookup_insert_ne by done. apply decide_ext. rewrite elem_of_cons. naive_solver.
Qed.

Lemma json_set_ok m :
  set_valid m →
  json_ok (json_of_set m) ∧ coerce_json (json_of_set m) = json_of_set m ∧
  into_set None (json_of_set m) = Ok m.
Proof.
  destruct m as [m|]; [|done]. intros Hv. cbn [json_of_set]. split_and!.
  - cbn [json_ok]. induction (sorted_keys m) as [|k ks IH]; [done|]. cbn. split; [|done].
    apply json_bytes_ok.
  - cbn [coerce_json]. f_equal. rewrite map_map. apply map_ext_in.
    intros k Hk%list_elem_of_In%sorted_keys_elem. cbn [fst snd].
    rewrite coerce_valid by (by eapply Hv). f_equal. apply json_bytes_ok.
  - cbn [into_set default]. destruct (set_fold m (sorted_keys m) ∅) as (m1 & E & Hm1).
    { intros k Hk. by apply sorted_keys_elem. }
    rewrite E. cbn. do 2 f_equal. apply map_eq. intros k. rewrite Hm1.
    case_decide as Hk; [done|]. rewrite sorted_keys_elem in Hk.
    rewrite lookup_empty. destruct (m !! k); [|done]. destruct Hk. eauto.
Qed.

(** Decides the comparisons of field names in the goal. *)
Ltac eval_names :=
  repeat match goal with
  | |- context [names ?a ?b] =>
      let v := eval vm_compute in (names a b) in change (names a b) with v; cbn
  end.

Lemma json_request_ok r :
  request_valid r →
  json_ok (json_of_request r) ∧ coerce_json (json_of_request r) = json_of_request r ∧
  into_request None (json_of_request r) = Ok (Some r).
Proof.
  destruct r as [tx sh rs ws ts]. intros [H1 H2 H3 H4 H5].
  cbn [rp_TxID rp_ShardID rp_ReadSet rp_WriteSet rp_Timestamp] in *.
  destruct (json_set_ok rs H3) as (O3 & C3 & I3). destruct (json_set_ok ws H4) as (O4 & C4 & I4).
  unfold json_of_request. cbn [rp_TxID rp_ShardID rp_ReadSet rp_WriteSet rp_Timestamp]. split_and!.
  - cbn. split_and!; eauto.
  - cbn [coerce_json map fst snd]. by rewrite !coerce_valid, C3, C4.
  - revert I3 I4. generalize (json_of_set rs), (json_of_set ws). intros jr jw I3 I4.
    cbn. eval_names. rewrite I3. cbn. eval_names. rewrite I4. cbn. eval_names.
    by rewrite parse_int64_format.
Qed.

Lemma json_requests_ok l :
  Forall (λ r, ∀ r', r = Some r' → request_valid r') l →
  let js := map (λ r, match r with None => JNull | Some r => json_of_request r end) l in
  json_ok (JArr js) ∧ map coerce_json js = js ∧ into_requests [] js = Ok l.
Proof.
  induction 1 as [|r l Hr _ (IHo & IHc & IHi)]; [done|]. cbn [map].
  destruct r as [r|].
  - destruct (json_request_ok r (Hr r eq_refl)) as (O & C & I). split_and!.
    + by split.
    + by rewrite C, IHc.
    + cbn [into_requests]. change (head [] ≫= id) with (@None PrepareRequestProto).
      rewrite I. cbn. by rewrite IHi.
  - split_and!; [by split|by rewrite IHc|]. cbn. by rewrite IHi.
Qed.

(** A marshalled batch is read back as it was. *)
Lemma unmarshal_marshal_batch b :
  (∀ l, Requests b = Some l → Forall (λ r, ∀ r', r = Some r' → request_valid r') l) →
  unmarshal_batch (marshal_batch b) = Ok b.
Proof.
  intros Hb. unfold unmarshal_batch, marshal_batch. destruct b as [[l|]]; [|vm_compute; reflexivity].
  destruct (json_requests_ok l (Hb l eq_refl)) as (O & C & I).
  rewrite parse_print by (split; [exact O|done]). unfold json_of_batch. cbn [Requests].
  cbn [coerce_json map fst snd]. rewrite C. cbn. by rewrite I.
Qed.

(** An abort entry is read as a batch without requests. *)
Lemma unmarshal_abort a : unmarshal_batch (marshal_abort a) = Ok (mkPrepareRequestBatch None).
Proof.
  unfold unmarshal_batch, marshal_abort. rewrite parse_print; [done|].
  cbn. split_and!; eauto.
Qed.

(** Reading a text reports errors but never panics. *)
Lemma foldM_no_panic {A B} (f : B → A → outcome B) l b e :
  (∀ b x e, f b x ≠ Panic e) → foldM f b l ≠ Panic e.
Proof.
  intros Hf. revert b. induction l as [|x l IH]; intros b; [done|]. cbn.
  destruct (f b x) as [b'| |] eqn:E; [apply IH|done|]. by destruct (Hf b x msg).
Qed.

Lemma into_bytes_no_panic j e : into_bytes j ≠ Panic e.
Proof.
  destruct j as [| | |s|l|]; try done; cbn; [by case_match|].
  assert (∀ acc x e, (b ← into_byte x; Ok (acc +:+ String (chr b) "")) ≠ Panic e) as Hs.
  { intros acc [| |lit| | |] e'; try done. cbn. by repeat case_match. }
  destruct (foldM _ "" l) as [| |] eqn:E; [done|done|].
  by destruct (foldM_no_panic _ _ _ _ Hs E).
Qed.

Lemma into_set_no_panic old j e : into_set old j ≠ Panic e.
Proof.
  destruct j as [| | | | |ms]; try done. cbn.
  destruct (foldM set_member _ ms) as [| |] eqn:E; [done|done|].
  apply foldM_no_panic in E; [done|]. intros m kv e'. unfold set_member.
  destruct (into_bytes kv.2) eqn:Eb; [done|done|]. by apply into_bytes_no_panic in Eb.
Qed.

Lemma into_request_no_panic old j e : into_request old j ≠ Panic e.
Proof.
  destruct j as [| | | | |ms]; try done. cbn.
  destruct (foldM request_member _ ms) as [| |] eqn:E; [done|done|].
  apply foldM_no_panic in E; [done|]. intros [tx sh rs ws ts] [k j] e'. unfold request_member.
  assert (Hb : ∀ {A B} (o : outcome A) (f : A → outcome B), (∀ e, o ≠ Panic e) → (∀ a e, f a ≠ Panic e) →
    o ≫= f ≠ Panic e').
  { intros A B [a|x|x] f Ho Hf; [apply Hf|done|]. by destruct (Ho x eq_refl). }
  repeat case_match; try done; apply Hb; try done; intros e''.
  - by destruct j.
  - by destruct j.
  - apply into_set_no_panic.
  - apply into_set_no_panic.
  - unfold into_int64. by repeat case_match.
Qed.

Lemma into_requests_no_panic old l e : into_requests old l ≠ Panic e.
Proof.
  revert old e. induction l as [|j l IH]; intros old e; [done|]. cbn [into_requests].
  destruct (into_request _ j) eqn:E; [|done|by apply into_request_no_panic in E]. cbn.
  destruct (into_requests _ l) eqn:E'; [done|done|]. by apply IH in E'.
Qed.

Lemma unmarshal_batch_no_panic data e : unmarshal_batch data ≠ Panic e.
Proof.
  unfold unmarshal_batch. destruct (parse data) as [j|]; [|done].
  destruct j as [| | | | |ms]; try done. cbn. apply foldM_no_panic. intros b [k j] e'.
  unfold batch_member. case_match; [|done]. destruct j as [| | | |l|]; try done. cbn.
  destruct (into_requests _ l) eqn:E; [done|done|]. by apply into_requests_no_panic in E.
Qed.
