(* ===== verification/Shard.v ===== *)
(** * Shard: a contract's Raft-replicated dependency tracker
    (core/endorser/sharding/shard_leader.go)

    A shard leader batches prepare requests, proposes each batch to Raft and
    applies committed entries to the map from keys to the transaction that
    last wrote them, emitting one proof per request. Raft itself (package
    go.etcd.io/etcd/raft) is the class [Raft]: an opaque node and storage with
    the calls the code makes. Committed entries reach [applyEntry] in the order
    Raft delivers them.

    [applyEntry] and its parts are functions of the leader's state; times and
    map orders are arguments. [slstep] interleaves the goroutines [runRaft] and
    [runBatcher] with the users of the channels. *)

From S2P Require Import Prelude GoText Utf8 Json ShardTypes.

Definition DefaultBatchMaxSize : Z := 20.
Definition DefaultBatchTimeout : Z := 300000000.
Definition DefaultExpiryDuration : Z := 300 * second.
Definition proposeC_cap : nat := Z.to_nat 1000.
Definition commitC_cap : nat := Z.to_nat 1000.
Definition messagesC_cap : nat := 100.

Record TransactionDependencyInfo := mkTransactionDependencyInfo {
  td_Value : gobytes;
  td_DependentTxID : string;
  td_ExpiryTime : Z;
  td_HasDependency : bool
}.

Record PrepareRequest := mkPrepareRequest {
  req_TxID : string;
  req_ShardID : string;
  req_ReadSet : goset;
  req_WriteSet : goset;
  req_Timestamp : Z
}.

Record PrepareProof := mkPrepareProof {
  pf_TxID : string;
  pf_ShardID : string;
  pf_CommitIndex : Z;
  pf_LeaderID : Z;
  pf_Signature : string;
  pf_Term : Z
}.

(** ** etcd's raft package *)
Record Entry := mkEntry { e_Term : Z; e_Index : Z; e_Normal : bool; e_Data : string }.

Class Raft := {
  raft_node : Type;
  raft_storage : Type;
  raft_message : Type;
  raft_snapshot : Type;
  node_Tick : raft_node → raft_node;
  node_Propose : raft_node → string → raft_node * option string;
  node_Advance : raft_node → raft_node;
  node_Step : raft_node → raft_message → raft_node * option string;
  node_Stop : raft_node → raft_node;
  node_Lead : raft_node → Z;
  storage_ApplySnapshot : raft_storage → raft_snapshot → raft_storage;
  storage_Append : raft_storage → list Entry → raft_storage
}.

(** What [node.Ready()] delivers; [rd_Snapshot] is [None] when it is empty. *)
Record Ready `{Raft} := mkReady {
  rd_Snapshot : option raft_snapshot;
  rd_Entries : list Entry;
  rd_Messages : list raft_message;
  rd_CommittedEntries : list Entry
}.

(** ** The dependency map *)

(** The first key, in iteration order, that an earlier transaction wrote. *)
Fixpoint first_hit (vm : gmap string TransactionDependencyInfo) (ks : list string) : option string :=
  match ks with
  | [] => None
  | k :: ks' => match vm !! k with Some d => Some (td_DependentTxID d) | None => first_hit vm ks' end
  end.

(** Ranging over a nil map visits nothing. *)
Definition entries (m : goset) : gmap string gobytes := default ∅ m.

Section leader.
Context `{MapOrder}.

Definition checkDependencies (vm : gmap string TransactionDependencyInfo)
    (req : PrepareRequestProto) : bool * string :=
  match first_hit vm (map_range ["read"; rp_TxID req] 0 (entries (rp_ReadSet req))) with
  | Some t => (true, t)
  | None =>
      match first_hit vm (map_range ["write"; rp_TxID req] 0 (entries (rp_WriteSet req))) with
      | Some t => (true, t)
      | None => (false, "")
      end
  end.

Definition updateDependencyMap (now : Z) (vm : gmap string TransactionDependencyInfo)
    (req : PrepareRequestProto) (hasDep : bool) (depTxID : string) (commitIndex : Z)
    : gmap string TransactionDependencyInfo :=
  let expiryTime := (now + DefaultExpiryDuration)%Z in
  foldl (λ vm key,
    <[key := mkTransactionDependencyInfo (entries (rp_WriteSet req) !! key ≫= id) (rp_TxID req)
               expiryTime hasDep]> vm)
    vm (map_range ["update"; rp_TxID req] 0 (entries (rp_WriteSet req))).

Definition signProof (shardID txID : string) (commitIndex : Z) : string :=
  shardID +:+ ":" +:+ format_uint commitIndex +:+ ":" +:+ txID.

Context `{Raft}.

Record ShardLeader := mkShardLeader {
  sl_shardID : string;
  sl_node : raft_node;
  sl_storage : raft_storage;
  sl_commitIndex : Z;
  sl_variableMap : gmap string TransactionDependencyInfo;
  sl_batchQueue : list PrepareRequest;
  sl_batchTimeout : Z;
  sl_maxBatchSize : Z;
  sl_lastBatchTime : Z;
  sl_proposeC : list PrepareRequest;
  sl_commitC : list PrepareProof;
  sl_messagesC : list (list raft_message);
  sl_requestsHandled : Z
}.

(** [NewShardLeader], given the node [raft.StartNode] returns. *)
Definition NewShardLeader (shardID : string) (node : raft_node) (storage : raft_storage)
    (batchTimeout maxBatchSize now : Z) : ShardLeader :=
  mkShardLeader shardID node storage 0 ∅ [] batchTimeout maxBatchSize now [] [] [] 0.

Definition set_node (sl : ShardLeader) (n : raft_node) : ShardLeader :=
  let '(mkShardLeader a _ c d e f g h i j k l m) := sl in mkShardLeader a n c d e f g h i j k l m.
Definition set_storage (sl : ShardLeader) (s : raft_storage) : ShardLeader :=
  let '(mkShardLeader a b _ d e f g h i j k l m) := sl in mkShardLeader a b s d e f g h i j k l m.
Definition set_commitIndex (sl : ShardLeader) (x : Z) : ShardLeader :=
  let '(mkShardLeader a b c _ e f g h i j k l m) := sl in mkShardLeader a b c x e f g h i j k l m.
Definition set_queue (sl : ShardLeader) (q : list PrepareRequest) : ShardLeader :=
  let '(mkShardLeader a b c d e _ g h i j k l m) := sl in mkShardLeader a b c d e q g h i j k l m.
Definition set_lastBatchTime (sl : ShardLeader) (t : Z) : ShardLeader :=
  let '(mkShardLeader a b c d e f g h _ j k l m) := sl in mkShardLeader a b c d e f g h t j k l m.
Definition set_proposeC (sl : ShardLeader) (q : list PrepareRequest) : ShardLeader :=
  let '(mkShardLeader a b c d e f g h i _ k l m) := sl in mkShardLeader a b c d e f g h i q k l m.
Definition set_commitC (sl : ShardLeader) (q : list PrepareProof) : ShardLeader :=
  let '(mkShardLeader a b c d e f g h i j _ l m) := sl in mkShardLeader a b c d e f g h i j q l m.
Definition set_messagesC (sl : ShardLeader) (q : list (list raft_message)) : ShardLeader :=
  let '(mkShardLeader a b c d e f g h i j k _ m) := sl in mkShardLeader a b c d e f g h i j k q m.

(** ** Applying committed entries *)
Definition proof_for (sl : ShardLeader) (entry : Entry) (txID : string) : PrepareProof :=
  mkPrepareProof txID (sl_shardID sl) (e_Index entry) (node_Lead (sl_node sl))
    (signProof (sl_shardID sl) txID (e_Index entry)) (e_Term entry).

(** One request of a batch: a nil request is dereferenced. The proof is
    dropped when the commit channel is full. *)
Definition apply_request (now : Z) (entry : Entry) (sl : ShardLeader)
    (reqProto : option PrepareRequestProto) : outcome ShardLeader :=
  match reqProto with
  | None => Panic "invalid memory address or nil pointer dereference"
  | Some req =>
      let '(hasDependency, dependentTxID) := checkDependencies (sl_variableMap sl) req in
      let proof := proof_for sl entry (rp_TxID req) in
      let '(mkShardLeader a b c d vm f g h i j commitC l handled) := sl in
      let vm' := updateDependencyMap now vm req hasDependency dependentTxID (e_Index entry) in
      let commitC' := if (length commitC <? commitC_cap)%nat then commitC ++ [proof] else commitC in
      Ok (mkShardLeader a b c d vm' f g h i j commitC' l (i64 (handled + 1)))
  end.

(** [clock i] is the time at which the entry's [i]-th request is applied. *)
Definition applyEntry (clock : nat → Z) (sl : ShardLeader) (entry : Entry) : outcome ShardLeader :=
  let sl := set_commitIndex sl (e_Index entry) in
  match unmarshal_batch (e_Data entry) with
  | Ok batch =>
      foldM (λ sl ir, apply_request (clock ir.1) entry sl ir.2) sl
        (imap pair (default [] (Requests batch)))
  | Err _ => Ok sl
  | Panic e => Panic e
  end.

(** The committed entries of one [Ready], or of a whole log. *)
Definition applyEntries (clock : Z → nat → Z) (sl : ShardLeader) (log : list Entry)
    : outcome ShardLeader :=
  foldM (λ sl entry,
    if e_Normal entry && negb (bool_decide (e_Data entry = ""))
    then applyEntry (clock (e_Index entry)) sl entry else Ok sl) sl log.

(** ** Batching *)
Definition proto_of (req : PrepareRequest) : PrepareRequestProto :=
  mkPrepareRequestProto (req_TxID req) (req_ShardID req) (Some (entries (req_ReadSet req)))
    (Some (entries (req_WriteSet req))) (unix (req_Timestamp req)).

Definition serializeBatch (batch : list PrepareRequest) : string :=
  marshal_batch (mkPrepareRequestBatch (Some (map (λ r, Some (proto_of r)) batch))).

(** The two halves of [flushBatch]: the queue is taken under the lock, the
    proposal made after it is released; Raft's error is only logged. *)
Definition take_batch (now : Z) (sl : ShardLeader) : option (list PrepareRequest * ShardLeader) :=
  match sl_batchQueue sl with
  | [] => None
  | batch => Some (batch, set_lastBatchTime (set_queue sl []) now)
  end.

Definition propose_batch (batch : list PrepareRequest) (sl : ShardLeader) : ShardLeader :=
  set_node sl (node_Propose (sl_node sl) (serializeBatch batch)).1.

Definition flushBatch (now : Z) (sl : ShardLeader) : ShardLeader :=
  match take_batch now sl with
  | None => sl
  | Some (batch, sl') => propose_batch batch sl'
  end.

Definition HandleAbort (now : Z) (sl : ShardLeader) (txID : string) : ShardLeader * outcome unit :=
  let '(n, err) := node_Propose (sl_node sl) (marshal_abort (mkAbortEntry txID (unix now))) in
  (set_node sl n, match err with None => Ok () | Some e => Err e end).

Definition GetRequestsHandled (sl : ShardLeader) : Z := sl_requestsHandled sl.

Definition Step (sl : ShardLeader) (msg : raft_message) : ShardLeader * outcome unit :=
  let '(n, err) := node_Step (sl_node sl) msg in
  (set_node sl n, match err with None => Ok () | Some e => Err e end).

(** ** The goroutines

    [runRaft] is between two events of its select, about to flush, or about to
    propose the batch it took; [runBatcher] is waiting for its ticker or about
    to propose. The two histories record the requests read from the propose
    channel and the batches passed to Raft, in order. *)
Inductive raft_pc := RIdle | RFlush | RPropose (batch : list PrepareRequest).
Inductive batcher_pc := BIdle | BPropose (batch : list PrepareRequest).

Record slworld := mkSlworld {
  sw_sl : ShardLeader;
  sw_raft : raft_pc;
  sw_batcher : batcher_pc;
  sw_received : list PrepareRequest;
  sw_proposed : list (list PrepareRequest)
}.

(** The [Ready] case of [runRaft]: persist, hand over the messages (only when
    the channel has room: the send blocks otherwise), apply, advance. *)
Definition handle_ready (clock : Z → nat → Z) (rd : Ready) (sl : ShardLeader)
    : option (outcome ShardLeader) :=
  let st := match rd_Snapshot rd with
            | Some snap => storage_ApplySnapshot (sl_storage sl) snap
            | None => sl_storage sl
            end in
  let sl := set_storage sl (storage_Append st (rd_Entries rd)) in
  let room := (length (sl_messagesC sl) <? messagesC_cap)%nat in
  match rd_Messages rd, room with
  | _ :: _, false => None
  | msgs, _ =>
      let sl := match msgs with [] => sl | _ => set_messagesC sl (sl_messagesC sl ++ [msgs]) end in
      Some (sl' ← applyEntries clock sl (rd_CommittedEntries rd);
            Ok (set_node sl' (node_Advance (sl_node sl'))))
  end.

Inductive slstep : slworld → slworld → Prop :=
| sl_send sl r rp bp rc pr :
    length (sl_proposeC sl) < proposeC_cap →
    slstep (mkSlworld sl rp bp rc pr) (mkSlworld (set_proposeC sl (sl_proposeC sl ++ [r])) rp bp rc pr)
| sl_tick sl bp rc pr :
    slstep (mkSlworld sl RIdle bp rc pr) (mkSlworld (set_node sl (node_Tick (sl_node sl))) RIdle bp rc pr)
| sl_ready sl sl' clock rd bp rc pr :
    handle_ready clock rd sl = Some (Ok sl') →
    slstep (mkSlworld sl RIdle bp rc pr) (mkSlworld sl' RIdle bp rc pr)
| sl_request sl r rest bp rc pr :
    sl_proposeC sl = r :: rest →
    let queue := sl_batchQueue sl ++ [r] in
    let shouldFlush := (sl_maxBatchSize sl <=? Z.of_nat (length queue))%Z in
    slstep (mkSlworld sl RIdle bp rc pr)
      (mkSlworld (set_queue (set_proposeC sl rest) queue) (if shouldFlush then RFlush else RIdle) bp
         (rc ++ [r]) pr)
| sl_raft_empty sl now bp rc pr :
    take_batch now sl = None →
    slstep (mkSlworld sl RFlush bp rc pr) (mkSlworld sl RIdle bp rc pr)
| sl_raft_take sl sl' now batch bp rc pr :
    take_batch now sl = Some (batch, sl') →
    slstep (mkSlworld sl RFlush bp rc pr) (mkSlworld sl' (RPropose batch) bp rc pr)
| sl_raft_propose sl batch bp rc pr :
    slstep (mkSlworld sl (RPropose batch) bp rc pr)
      (mkSlworld (propose_batch batch sl) RIdle bp rc (pr ++ [batch]))
| sl_batcher_take sl sl' now batch rp rc pr :
    take_batch now sl = Some (batch, sl') →
    slstep (mkSlworld sl rp BIdle rc pr) (mkSlworld sl' rp (BPropose batch) rc pr)
| sl_batcher_propose sl batch rp rc pr :
    slstep (mkSlworld sl rp (BPropose batch) rc pr)
      (mkSlworld (propose_batch batch sl) rp BIdle rc (pr ++ [batch]))
| sl_proof sl p rest rp bp rc pr :
    sl_commitC sl = p :: rest →
    slstep (mkSlworld sl rp bp rc pr) (mkSlworld (set_commitC sl rest) rp bp rc pr)
| sl_messages sl ms rest rp bp rc pr :
    sl_messagesC sl = ms :: rest →
    slstep (mkSlworld sl rp bp rc pr) (mkSlworld (set_messagesC sl rest) rp bp rc pr)
| sl_abort sl now txID rp bp rc pr :
    slstep (mkSlworld sl rp bp rc pr) (mkSlworld (HandleAbort now sl txID).1 rp bp rc pr)
| sl_step sl msg rp bp rc pr :
    slstep (mkSlworld sl rp bp rc pr) (mkSlworld (Step sl msg).1 rp bp rc pr).
End leader.

(** ** The specification of the dependency map

    The transaction that last wrote a key, and the value it wrote, over the
    requests in the order they were committed. *)
Definition writes (req : PrepareRequestProto) (k : string) : option gobytes := entries (rp_WriteSet req) !! k.

Definition last_writer (reqs : list PrepareRequestProto) (k : string) : option (gobytes * string) :=
  foldl (λ acc req, match writes req k with Some v => Some (v, rp_TxID req) | None => acc end) None reqs.

(** The requests an entry carries; [None] when one of them is nil. *)
Definition entry_requests (entry : Entry) : option (list PrepareRequestProto) :=
  if e_Normal entry && negb (bool_decide (e_Data entry = "")) then
    match unmarshal_batch (e_Data entry) with
    | Ok batch => mapM id (default [] (Requests batch))
    | _ => Some []
    end
  else Some [].

Definition log_requests (log : list Entry) : option (list PrepareRequestProto) :=
  @concat _ <$> mapM entry_requests log.

(** The replicated state: what the map holds apart from expiry times. *)
Definition view (vm : gmap string TransactionDependencyInfo) : gmap string (gobytes * string * bool) :=
  (λ d, (td_Value d, td_DependentTxID d, td_HasDependency d)) <$> vm.

(** A request depends on an earlier one when they share a key the earlier one
    wrote; it becomes the last writer of the keys it writes. *)
Definition spec_depends (st : gmap string (gobytes * string * bool)) (req : PrepareRequestProto) : bool :=
  negb (bool_decide ((dom (entries (rp_ReadSet req)) ∪ dom (entries (rp_WriteSet req))) ∩ dom st
                     =@{gset string} ∅)).

Definition spec_request (st : gmap string (gobytes * string * bool)) (req : PrepareRequestProto)
    : gmap string (gobytes * string * bool) :=
  ((λ v, (v, rp_TxID req, spec_depends st req)) <$> entries (rp_WriteSet req)) ∪ st.

Definition info (d : TransactionDependencyInfo) : gobytes * string := (td_Value d, td_DependentTxID d).

(** ** Lemmas: the dependency map *)
Lemma first_hit_Some vm ks t :
  first_hit vm ks = Some t → ∃ k d, k ∈ ks ∧ vm !! k = Some d ∧ td_DependentTxID d = t.
Proof.
  induction ks as [|k ks IH]; [done|]. cbn [first_hit].
  destruct (vm !! k) as [d|] eqn:E; intros Ht.
  - simplify_eq. exists k, d. split; [left|done].
  - destruct (IH Ht) as (k' & d & ? & ? & ?). exists k', d. split; [by right|done].
Qed.

Lemma first_hit_None vm ks : first_hit vm ks = None ↔ ∀ k, k ∈ ks → vm !! k = None.
Proof.
  induction ks as [|k ks IH]; cbn [first_hit].
  - split; [|done]. intros _ k Hk. by apply not_elem_of_nil in Hk.
  - destruct (vm !! k) as [d|] eqn:E.
    + split; [done|]. intros Hall. rewrite (Hall k) in E by left. done.
    + rewrite IH. setoid_rewrite elem_of_cons. naive_solver.
Qed.

Section leader_lemmas.
Context `{MapOrder} `{Raft}.

Definition hits (vm : gmap string TransactionDependencyInfo) (m : goset) : Prop :=
  ∃ k, is_Some (entries m !! k) ∧ is_Some (vm !! k).

Lemma first_hit_range vm (m : goset) site n :
  match first_hit vm (map_range site n (entries m)) with
  | Some t => ∃ k d, is_Some (entries m !! k) ∧ vm !! k = Some d ∧ td_DependentTxID d = t
  | None => ¬ hits vm m
  end.
Proof.
  assert (Hm : ∀ k, k ∈ map_range site n (entries m) ↔ is_Some (entries m !! k))
    by (intros; apply range_order_elem, map_range_ok).
  destruct (first_hit _ _) as [t|] eqn:E.
  - apply first_hit_Some in E as (k & d & Hk & Hd & Ht). exists k, d. split; [by apply Hm|done].
  - rewrite first_hit_None in E. intros (k & Hk & [d Hd]). apply Hm in Hk. rewrite E in Hd by done. done.
Qed.

(** Updating writes every key of the write set, whatever the order. *)
Lemma update_fold f ks (vm : gmap string TransactionDependencyInfo) k :
  foldl (λ vm key, <[key := f key]> vm) vm ks !! k =
  if decide (k ∈ ks) then Some (f k) else vm !! k.
Proof.
  revert vm. induction ks as [|k' ks IH]; intros vm; [done|]. cbn [foldl]. rewrite IH.
  destruct (decide (k = k')) as [->|Hne].
  - rewrite lookup_insert_eq, (decide_True (P := k' ∈ k' :: ks)) by left. by case_decide.
  - rewrite lookup_insert_ne by done. apply decide_ext. rewrite elem_of_cons. naive_solver.
Qed.

Lemma updateDependencyMap_lookup now vm req hasDep dep idx k :
  updateDependencyMap now vm req hasDep dep idx !! k =
  match writes req k with
  | Some v => Some (mkTransactionDependencyInfo v (rp_TxID req) (now + DefaultExpiryDuration) hasDep)
  | None => vm !! k
  end.
Proof.
  unfold updateDependencyMap, writes.
  rewrite (update_fold (λ key, mkTransactionDependencyInfo (entries (rp_WriteSet req) !! key ≫= id)
    (rp_TxID req) (now + DefaultExpiryDuration) hasDep)).
  case_decide as Hk; rewrite (range_order_elem _ _ k (map_range_ok _ _ _)) in Hk.
  - destruct Hk as [v Hv]. by rewrite Hv.
  - destruct (entries (rp_WriteSet req) !! k); [|done]. destruct Hk. eauto.
Qed.

Lemma checkDependencies_depends vm req :
  (checkDependencies vm req).1 = spec_depends (view vm) req.
Proof.
  assert (spec_depends (view vm) req = true ↔ hits vm (rp_ReadSet req) ∨ hits vm (rp_WriteSet req)) as Hs.
  { unfold spec_depends, hits. rewrite negb_true_iff, bool_decide_eq_false.
    setoid_rewrite <- elem_of_dom. unfold view. rewrite dom_fmap_L. split.
    - intros Hne. apply set_choose_L in Hne as [k Hk]. set_solver.
    - intros [(k & ? & ?)|(k & ? & ?)] E; set_solver. }
  unfold checkDependencies.
  pose proof (first_hit_range vm (rp_ReadSet req) ["read"; rp_TxID req] 0) as Hr.
  pose proof (first_hit_range vm (rp_WriteSet req) ["write"; rp_TxID req] 0) as Hw.
  destruct (first_hit vm _) as [t|].
  { destruct Hr as (k & d & Hk & Hd & _). symmetry. apply Hs. left. exists k. eauto. }
  destruct (first_hit vm _) as [t|].
  { destruct Hw as (k & d & Hk & Hd & _). symmetry. apply Hs. right. exists k. eauto. }
  simpl. symmetry. apply not_true_iff_false. rewrite Hs. tauto.
Qed.

Lemma update_view now vm req dep idx :
  view (updateDependencyMap now vm req (checkDependencies vm req).1 dep idx) = spec_request (view vm) req.
Proof.
  apply map_eq. intros k. unfold view at 1. rewrite lookup_fmap, updateDependencyMap_lookup.
  unfold spec_request. rewrite lookup_union, !lookup_fmap, checkDependencies_depends. unfold writes.
  destruct (entries (rp_WriteSet req) !! k); simpl; [by destruct (_ !! k)|].
  unfold view. rewrite lookup_fmap. by destruct (vm !! k).
Qed.

(** The proofs of a list of requests, and what the channel keeps of them. *)
Lemma apply_request_ok now entry sl req :
  ∃ sl', apply_request now entry sl (Some req) = Ok sl' ∧
    view (sl_variableMap sl') = spec_request (view (sl_variableMap sl)) req ∧
    sl_shardID sl' = sl_shardID sl ∧ sl_node sl' = sl_node sl ∧ sl_commitIndex sl' = sl_commitIndex sl ∧
    sl_requestsHandled sl' = i64 (sl_requestsHandled sl + 1) ∧
    (length (sl_commitC sl) ≤ commitC_cap →
     sl_commitC sl' = take commitC_cap (sl_commitC sl ++ [proof_for sl entry (rp_TxID req)]) ∧
     length (sl_commitC sl') ≤ commitC_cap).
Proof.
  unfold apply_request. pose proof (update_view now (sl_variableMap sl) req
    (checkDependencies (sl_variableMap sl) req).2 (e_Index entry)) as Hv.
  destruct (checkDependencies (sl_variableMap sl) req) as [h dep].
  destruct sl as [a b c d vm f g h' i j cc l n]. cbn [sl_variableMap fst snd] in *.
  eexists. split; [done|]. cbn [sl_variableMap sl_shardID sl_node sl_commitIndex sl_requestsHandled sl_commitC].
  split_and!; [done..|]. intros Hlen. destruct (Nat.ltb_spec (length cc) commitC_cap) as [Hlt|Hge].
  - rewrite take_ge by (rewrite length_app; simpl; lia). rewrite length_app. simpl. split; [done|lia].
  - rewrite take_app_le, take_ge by lia. done.
Qed.

(** What applying a list of requests of one entry does to the leader. *)
Record applied (sl sl' : ShardLeader) (reqs : list PrepareRequestProto) (proofs : list PrepareProof)
    : Prop := {
  ap_view : view (sl_variableMap sl') = foldl spec_request (view (sl_variableMap sl)) reqs;
  ap_shardID : sl_shardID sl' = sl_shardID sl;
  ap_node : sl_node sl' = sl_node sl;
  ap_handled : sl_requestsHandled sl' = foldl (λ n _, i64 (n + 1)) (sl_requestsHandled sl) reqs;
  ap_commitC : length (sl_commitC sl) ≤ commitC_cap →
    sl_commitC sl' = take commitC_cap (sl_commitC sl ++ proofs) ∧ length (sl_commitC sl') ≤ commitC_cap
}.

Lemma applied_nil sl sl' :
  sl_variableMap sl' = sl_variableMap sl → sl_shardID sl' = sl_shardID sl → sl_node sl' = sl_node sl →
  sl_requestsHandled sl' = sl_requestsHandled sl → sl_commitC sl' = sl_commitC sl → applied sl sl' [] [].
Proof.
  intros E1 E2 E3 E4 E5. split; try done; [by rewrite E1|].
  intros Hlen. rewrite app_nil_r, E5, take_ge by lia. done.
Qed.

Lemma take_app_take {A} n (l l' : list A) : take n (take n l ++ l') = take n (l ++ l').
Proof.
  destruct (decide (length l ≤ n)) as [Hle|Hgt]; [by rewrite (take_ge l) by lia|].
  rewrite !take_app_le by (rewrite ?length_take; lia). by rewrite take_take, Nat.min_id.
Qed.

Lemma applied_trans sl1 sl2 sl3 r1 r2 p1 p2 :
  applied sl1 sl2 r1 p1 → applied sl2 sl3 r2 p2 → applied sl1 sl3 (r1 ++ r2) (p1 ++ p2).
Proof.
  intros [V1 S1 N1 H1 C1] [V2 S2 N2 H2 C2]. split.
  - by rewrite foldl_app, V2, V1.
  - congruence.
  - congruence.
  - by rewrite foldl_app, H2, H1.
  - intros Hlen. destruct (C1 Hlen) as [E1 L1]. destruct (C2 L1) as [E2 L2]. split; [|done].
    by rewrite E2, E1, take_app_take, app_assoc.
Qed.

Lemma proof_for_applied sl sl' reqs proofs entry t :
  applied sl sl' reqs proofs → proof_for sl' entry t = proof_for sl entry t.
Proof. intros [_ E1 E2 _ _]. unfold proof_for. by rewrite E1, E2. Qed.

Lemma apply_requests_ok (clock : nat → Z) entry l reqs sl :
  mapM id l.*2 = Some reqs →
  ∃ sl', foldM (λ sl ir, apply_request (clock ir.1) entry sl ir.2) sl l = Ok sl' ∧
    applied sl sl' reqs (map (λ r, proof_for sl entry (rp_TxID r)) reqs).
Proof.
  revert sl reqs. induction l as [|[i r] l IH]; intros sl reqs E.
  { injection E as <-. exists sl. split; [done|]. by apply applied_nil. }
  apply mapM_Some in E. cbn [fmap list_fmap snd] in E.
  apply Forall2_cons_inv_l in E as (req & reqs' & Er & E%mapM_Some & ->). unfold id in Er. subst r.
  destruct (apply_request_ok (clock i) entry sl req) as (sl1 & E1 & V & S & N & _ & Hd & C).
  assert (A1 : applied sl sl1 [req] [proof_for sl entry (rp_TxID req)]) by done.
  destruct (IH sl1 reqs' E) as (sl2 & E2 & A2). exists sl2. cbn [foldM fst snd]. rewrite E1. split; [done|].
  assert (map (λ r, proof_for sl1 entry (rp_TxID r)) reqs' = map (λ r, proof_for sl entry (rp_TxID r)) reqs')
    as Ep by (apply map_ext; intros; by eapply proof_for_applied).
  rewrite Ep in A2. exact (applied_trans _ _ _ _ _ _ _ A1 A2).
Qed.

(** The proofs a log leads to. *)
Definition log_proofs (sl : ShardLeader) (log : list Entry) : list PrepareProof :=
  concat (map (λ e, map (λ r, proof_for sl e (rp_TxID r)) (default [] (entry_requests e))) log).

Lemma applyEntries_step clock sl entry reqs :
  entry_requests entry = Some reqs →
  ∃ sl', (if e_Normal entry && negb (bool_decide (e_Data entry = ""))
          then applyEntry (clock (e_Index entry)) sl entry else Ok sl) = Ok sl' ∧
    applied sl sl' reqs (map (λ r, proof_for sl entry (rp_TxID r)) reqs).
Proof.
  unfold entry_requests, applyEntry. destruct (_ && _).
  2:{ intros [= <-]. exists sl. split; [done|]. by apply applied_nil. }
  assert (applied sl (set_commitIndex sl (e_Index entry)) [] []) as A0 by (destruct sl; by apply applied_nil).
  destruct (unmarshal_batch (e_Data entry)) as [b|e|e] eqn:Eb.
  - intros E. destruct (apply_requests_ok (clock (e_Index entry)) entry (imap pair (default [] (Requests b)))
      reqs (set_commitIndex sl (e_Index entry))) as (sl' & E' & A').
    { rewrite <- E. f_equal. clear. apply list_eq. intros i.
      rewrite list_lookup_fmap, list_lookup_imap. by destruct (_ !! i). }
    exists sl'. split; [done|].
    assert (map (λ r, proof_for (set_commitIndex sl (e_Index entry)) entry (rp_TxID r)) reqs
      = map (λ r, proof_for sl entry (rp_TxID r)) reqs) as Ep
      by (apply map_ext; intros; by eapply proof_for_applied).
    rewrite Ep in A'. exact (applied_trans _ _ _ _ _ _ _ A0 A').
  - intros [= <-]. eauto.
  - exfalso. revert Eb. unfold unmarshal_batch. by apply unmarshal_batch_no_panic.
Qed.

Lemma applyEntries_ok clock sl log reqs :
  log_requests log = Some reqs →
  ∃ sl', applyEntries clock sl log = Ok sl' ∧ applied sl sl' reqs (log_proofs sl log).
Proof.
  unfold log_requests, applyEntries. intros (rss & E & ->)%fmap_Some. apply mapM_Some in E.
  revert sl. induction E as [|entry rs log rss Ee E IH]; intros sl.
  { exists sl. split; [done|]. by apply applied_nil. }
  destruct (applyEntries_step clock sl entry rs Ee) as (sl1 & E1 & A1). cbn [foldM]. rewrite E1.
  destruct (IH sl1) as (sl2 & E2 & A2). exists sl2. split; [done|].
  unfold log_proofs. cbn [map concat]. rewrite Ee. cbn [default].
  assert (log_proofs sl1 log = log_proofs sl log) as Ep.
  { unfold log_proofs. f_equal. apply map_ext. intros e. apply map_ext. intros r.
    by eapply proof_for_applied. }
  rewrite Ep in A2. exact (applied_trans _ _ _ _ _ _ _ A1 A2).
Qed.
End leader_lemmas.

(** ** Lemmas: last writers *)
Lemma spec_requests_writer st reqs k :
  (λ x : gobytes * string * bool, x.1) <$> foldl spec_request st reqs !! k =
  foldl (λ acc req, match writes req k with Some v => Some (v, rp_TxID req) | None => acc end)
    ((λ x, x.1) <$> st !! k) reqs.
Proof.
  revert st. induction reqs as [|req reqs IH]; intros st; [done|]. cbn [foldl]. rewrite IH. f_equal.
  unfold spec_request, writes. rewrite lookup_union, lookup_fmap.
  destruct (entries (rp_WriteSet req) !! k); simpl; [by destruct (st !! k)|]. by destruct (st !! k).
Qed.

Section fresh.
Context `{MapOrder} `{Raft}.

(** A leader that has applied [log] since it was created. *)
Definition after_log (sl : ShardLeader) (log : list Entry) : Prop :=
  ∃ shardID node storage timeout size now clock,
    applyEntries clock (NewShardLeader shardID node storage timeout size now) log = Ok sl.

Lemma after_log_view sl log reqs :
  after_log sl log → log_requests log = Some reqs →
  view (sl_variableMap sl) = foldl spec_request ∅ reqs.
Proof.
  intros (id & n & s & t & z & now & clock & E) Hr.
  destruct (applyEntries_ok clock (NewShardLeader id n s t z now) log reqs Hr) as (sl' & E' & A).
  assert (sl' = sl) as -> by congruence. exact (ap_view _ _ _ _ A).
Qed.

Lemma after_log_writer sl log reqs k :
  after_log sl log → log_requests log = Some reqs → info <$> sl_variableMap sl !! k = last_writer reqs k.
Proof.
  intros Ha Hr. pose proof (spec_requests_writer ∅ reqs k) as Hw.
  rewrite <- (after_log_view sl log reqs Ha Hr), lookup_empty in Hw. unfold view in Hw.
  rewrite lookup_fmap in Hw. unfold last_writer. simpl in Hw. rewrite <- Hw.
  by destruct (sl_variableMap sl !! k).
Qed.
End fresh.

(** ** Properties *)


(** Replicas agree. Two replicas that have applied the same log, with
    their own clocks, map iteration orders and Raft nodes, hold the same
    dependencies for every key and reach the same verdict on every request. *)
Theorem replicas_agree (M1 M2 : MapOrder) (R1 R2 : Raft) (sl1 : @ShardLeader R1) (sl2 : @ShardLeader R2)
    (log : list Entry) (reqs : list PrepareRequestProto) :
  log_requests log = Some reqs → @after_log M1 R1 sl1 log → @after_log M2 R2 sl2 log →
  view (sl_variableMap sl1) = view (sl_variableMap sl2) ∧
  ∀ req, (@checkDependencies M1 (sl_variableMap sl1) req).1
       = (@checkDependencies M2 (sl_variableMap sl2) req).1.
Proof.
  intros Hr H1 H2.
  assert (view (sl_variableMap sl1) = view (sl_variableMap sl2)) as Ev.
  { by rewrite (@after_log_view M1 R1 sl1 log reqs H1 Hr), (@after_log_view M2 R2 sl2 log reqs H2 Hr). }
  split; [done|]. intros req. by rewrite !checkDependencies_depends, Ev.
Qed.

(** The dependency reported for a request is real. After a log, a request
    has a dependency exactly when some key it reads or writes was written by an
    earlier request, whatever has expired since; the transaction named is then
    the last writer of such a key. *)
Theorem checkDependencies_last_writer `{MapOrder} `{Raft} (sl : ShardLeader) (log : list Entry)
    (reqs : list PrepareRequestProto) (req : PrepareRequestProto) :
  after_log sl log → log_requests log = Some reqs →
  let touches k := is_Some (entries (rp_ReadSet req) !! k) ∨ is_Some (entries (rp_WriteSet req) !! k) in
  match checkDependencies (sl_variableMap sl) req with
  | (true, t) => ∃ k v, touches k ∧ last_writer reqs k = Some (v, t)
  | (false, t) => t = "" ∧ ∀ k, touches k → last_writer reqs k = None
  end.
Proof.
  intros Ha Hr touches. assert (Hw : ∀ k, info <$> sl_variableMap sl !! k = last_writer reqs k)
    by (intros; by apply (after_log_writer sl log)).
  unfold checkDependencies.
  pose proof (first_hit_range (sl_variableMap sl) (rp_ReadSet req) ["read"; rp_TxID req] 0) as H1.
  pose proof (first_hit_range (sl_variableMap sl) (rp_WriteSet req) ["write"; rp_TxID req] 0) as H2.
  destruct (first_hit _ _) as [t|].
  { destruct H1 as (k & d & Hk & Hd & <-). exists k, (td_Value d). split; [by left|].
    by rewrite <- Hw, Hd. }
  destruct (first_hit _ _) as [t|].
  { destruct H2 as (k & d & Hk & Hd & <-). exists k, (td_Value d). split; [by right|].
    by rewrite <- Hw, Hd. }
  split; [done|]. intros k Hk. rewrite <- Hw. destruct (sl_variableMap sl !! k) eqn:E; [|done].
  destruct Hk; [destruct H1|destruct H2]; exists k; eauto.
Qed.

(** What is proposed is what is applied. The entry a batch is serialized to
    carries, once committed, exactly the requests of the batch in their order,
    for requests with valid UTF-8 ids and keys. *)
Theorem serializeBatch_applied (batch : list PrepareRequest) (term index : Z) :
  Forall (λ r, request_valid (proto_of r)) batch →
  entry_requests (mkEntry term index true (serializeBatch batch)) = Some (map proto_of batch).
Proof.
  intros Hb. unfold entry_requests. cbn [e_Normal e_Data].
  rewrite bool_decide_eq_false_2 by done. cbn [negb andb]. unfold serializeBatch.
  rewrite unmarshal_marshal_batch.
  - cbn [Requests default]. apply mapM_Some. clear Hb. induction batch; by constructor.
  - intros l [= <-]. apply Forall_map. eapply Forall_impl; [exact Hb|]. by intros r Hr r' [= <-].
Qed.

(** An abort changes nothing. The entry [HandleAbort] proposes is applied
    as a batch without requests: the leader's dependency map, channels and
    counters stay as they are, and the keys of the aborted transaction keep
    naming it as their last writer. *)
Theorem abort_is_noop `{MapOrder} `{Raft} (clock : nat → Z) (sl : ShardLeader) (term index now : Z)
    (txID : string) :
  applyEntry clock sl (mkEntry term index true (marshal_abort (mkAbortEntry txID (unix now))))
  = Ok (set_commitIndex sl index).
Proof. unfold applyEntry. cbn [e_Data e_Index]. by rewrite unmarshal_abort. Qed.

(** ** Witnesses *)

(** A Raft node that accepts every proposal and remembers it. *)
Definition toy_raft : Raft := {|
  raft_node := list string; raft_storage := list Entry; raft_message := unit; raft_snapshot := unit;
  node_Tick n := n; node_Propose n d := (n ++ [d], None); node_Advance n := n;
  node_Step n _ := (n, None); node_Stop n := n; node_Lead _ := 1%Z;
  storage_ApplySnapshot s _ := s; storage_Append s es := s ++ es |}.

Definition toy_req (t : string) (rs ws : gmap string gobytes) : PrepareRequest :=
  mkPrepareRequest t "cc" (Some rs) (Some ws) 5000000000.

(** Transaction [t1] writes key [a]; [t2] reads it and writes [b]. *)
Definition toy_batch : list PrepareRequest :=
  [toy_req "t1" ∅ {["a" := Some "1"]}; toy_req "t2" {["a" := Some "1"]} {["b" := None]}].
Definition toy_log : list Entry := [mkEntry 1 2 true (serializeBatch toy_batch)].
Definition toy_reqs : list PrepareRequestProto := map proto_of toy_batch.
Definition toy_leader : @ShardLeader toy_raft :=
  @NewShardLeader toy_raft "cc" [] [] DefaultBatchTimeout DefaultBatchMaxSize 0.
Definition toy_end : @ShardLeader toy_raft :=
  match @applyEntries sorted_map_order toy_raft (λ _ _, 7%Z) toy_leader toy_log with
  | Ok sl => sl
  | _ => toy_leader
  end.

(** The same log on a replica whose clock is ahead. *)
Definition toy_late : @ShardLeader toy_raft :=
  match @applyEntries sorted_map_order toy_raft (λ _ _, 9000000000%Z) toy_leader toy_log with
  | Ok sl => sl
  | _ => toy_leader
  end.

Lemma toy_log_requests : log_requests toy_log = Some toy_reqs.
Proof. vm_compute. reflexivity. Qed.

Lemma toy_after : @after_log sorted_map_order toy_raft toy_end toy_log.
Proof.
  exists "cc", ([] : @raft_node toy_raft), ([] : @raft_storage toy_raft),
    DefaultBatchTimeout, DefaultBatchMaxSize, 0%Z, (λ _ _, 7%Z).
  vm_compute. reflexivity.
Qed.

Lemma toy_after_late : @after_log sorted_map_order toy_raft toy_late toy_log.
Proof.
  exists "cc", ([] : @raft_node toy_raft), ([] : @raft_storage toy_raft),
    DefaultBatchTimeout, DefaultBatchMaxSize, 0%Z, (λ _ _, 9000000000%Z).
  vm_compute. reflexivity.
Qed.


Lemma replicas_agree_witness :
  sl_variableMap toy_end ≠ sl_variableMap toy_late ∧
  view (sl_variableMap toy_end) = view (sl_variableMap toy_late).
Proof.
  split; [by vm_compute|].
  apply (replicas_agree sorted_map_order sorted_map_order toy_raft toy_raft toy_end toy_late toy_log toy_reqs).
  - exact toy_log_requests.
  - exact toy_after.
  - exact toy_after_late.
Defined.

Lemma checkDependencies_last_writer_witness :
  ∃ k v, last_writer toy_reqs k = Some (v, "t2").
Proof.
  pose proof (@checkDependencies_last_writer sorted_map_order toy_raft toy_end toy_log toy_reqs
    (proto_of (toy_req "t3" {["b" := None]} ∅)) toy_after toy_log_requests) as H.
  assert (@checkDependencies sorted_map_order (sl_variableMap toy_end)
    (proto_of (toy_req "t3" {["b" := None]} ∅)) = (true, "t2")) as E by (vm_compute; reflexivity).
  rewrite E in H. destruct H as (k & v & _ & H). exists k, v. exact H.
Defined.

Lemma serializeBatch_applied_witness :
  entry_requests (mkEntry 1 2 true (serializeBatch toy_batch)) = Some toy_reqs.
Proof.
  apply (serializeBatch_applied toy_batch 1 2).
  repeat apply Forall_cons_2; [| |apply Forall_nil_2]; split.
  all: first [apply set_valid_keys; vm_compute; reflexivity | split; vm_compute; congruence
             | vm_compute; reflexivity].
Defined.
