(* ===== verification/ShardLoop.v ===== *)
(** * ShardLoop: the goroutines of a shard leader (core/endorser/sharding/shard_leader.go)

    Invariants of [slstep], the interleaving of [runRaft], [runBatcher] and the
    users of a leader's channels: no prepare request is lost or proposed twice,
    batches respect the configured size, and a flush is always possible. *)

From S2P Require Import Prelude GoText ShardTypes Shard.

Section loop.
Context `{MapOrder} `{Raft}.

(** ** What one step leaves alone *)
Lemma apply_request_batching now entry sl r sl' :
  apply_request now entry sl r = Ok sl' →
  sl_batchQueue sl' = sl_batchQueue sl ∧ sl_maxBatchSize sl' = sl_maxBatchSize sl.
Proof.
  unfold apply_request. destruct r as [req|]; [|done]. destruct (checkDependencies _ _).
  destruct sl. by intros [= <-].
Qed.

Lemma applyEntries_batching clock sl log sl' :
  applyEntries clock sl log = Ok sl' →
  sl_batchQueue sl' = sl_batchQueue sl ∧ sl_maxBatchSize sl' = sl_maxBatchSize sl.
Proof.
  apply (foldM_inv (λ s, sl_batchQueue s = sl_batchQueue sl ∧ sl_maxBatchSize s = sl_maxBatchSize sl));
    [|done].
  intros entry s s' _ Hs. case_match; [|by intros [= <-]]. unfold applyEntry.
  assert (sl_batchQueue (set_commitIndex s (e_Index entry)) = sl_batchQueue sl ∧
    sl_maxBatchSize (set_commitIndex s (e_Index entry)) = sl_maxBatchSize sl) as Hs' by (by destruct s).
  destruct (unmarshal_batch _); [|by intros [= <-]|done].
  apply (foldM_inv (λ s, sl_batchQueue s = sl_batchQueue sl ∧ sl_maxBatchSize s = sl_maxBatchSize sl));
    [|done].
  intros [i r] c c' _ Hc E. cbn [fst snd] in E. apply apply_request_batching in E. naive_solver congruence.
Qed.

Lemma handle_ready_batching clock rd sl sl' :
  handle_ready clock rd sl = Some (Ok sl') →
  sl_batchQueue sl' = sl_batchQueue sl ∧ sl_maxBatchSize sl' = sl_maxBatchSize sl.
Proof.
  unfold handle_ready. set (st := storage_Append _ _).
  set (sl0 := set_storage sl st). assert (sl_batchQueue sl0 = sl_batchQueue sl ∧
    sl_maxBatchSize sl0 = sl_maxBatchSize sl) as [<- <-] by (by destruct sl).
  assert (Hn : ∀ s n, sl_batchQueue (set_node s n) = sl_batchQueue s ∧
    sl_maxBatchSize (set_node s n) = sl_maxBatchSize s) by (by intros []).
  assert (Hm : ∀ s m, sl_batchQueue (set_messagesC s m) = sl_batchQueue s ∧
    sl_maxBatchSize (set_messagesC s m) = sl_maxBatchSize s) by (by intros []).
  destruct (rd_Messages rd) as [|msg msgs].
  - destruct (applyEntries clock sl0 _) as [s| |] eqn:E; [|done..].
    apply applyEntries_batching in E. cbn. intros [= <-].
    destruct (Hn s (node_Advance (sl_node s))). naive_solver congruence.
  - destruct (_ <? _)%nat; [|done].
    destruct (applyEntries clock _ _) as [s| |] eqn:E; [|done..].
    apply applyEntries_batching in E. cbn. intros [= <-].
    destruct (Hn s (node_Advance (sl_node s))), (Hm sl0 (sl_messagesC sl0 ++ [msg :: msgs])).
    naive_solver congruence.
Qed.

Lemma take_batch_spec now sl batch sl' :
  take_batch now sl = Some (batch, sl') →
  batch = sl_batchQueue sl ∧ batch ≠ [] ∧ sl_batchQueue sl' = [] ∧ sl_maxBatchSize sl' = sl_maxBatchSize sl.
Proof.
  unfold take_batch. destruct (sl_batchQueue sl) as [|r q] eqn:E; [done|].
  intros [= <- <-]. destruct sl. done.
Qed.

(** ** The invariant *)
Definition in_raft (rp : raft_pc) : list PrepareRequest := match rp with RPropose b => b | _ => [] end.
Definition in_batcher (bp : batcher_pc) : list PrepareRequest := match bp with BPropose b => b | BIdle => [] end.

Definition sized (sl : ShardLeader) (b : list PrepareRequest) : Prop :=
  b ≠ [] ∧ (Z.of_nat (length b) ≤ sl_maxBatchSize sl)%Z.

Record batching (w : slworld) : Prop := {
  bt_conserved : sw_received w ≡ₚ
    concat (sw_proposed w) ++ in_raft (sw_raft w) ++ in_batcher (sw_batcher w) ++ sl_batchQueue (sw_sl w);
  bt_queue : (Z.of_nat (length (sl_batchQueue (sw_sl w))) ≤ sl_maxBatchSize (sw_sl w))%Z;
  bt_idle : sw_raft w = RIdle →
    (Z.of_nat (length (sl_batchQueue (sw_sl w))) < sl_maxBatchSize (sw_sl w))%Z;
  bt_raft : ∀ b, sw_raft w = RPropose b → sized (sw_sl w) b ∧ sl_batchQueue (sw_sl w) = [];
  bt_batcher : ∀ b, sw_batcher w = BPropose b → sized (sw_sl w) b;
  bt_proposed : Forall (sized (sw_sl w)) (sw_proposed w);
  bt_pos : (0 < sl_maxBatchSize (sw_sl w))%Z
}.

(** A step that changes neither the queue nor the goroutines' positions. *)
Lemma batching_same sl sl' rp bp rc pr :
  sl_batchQueue sl' = sl_batchQueue sl → sl_maxBatchSize sl' = sl_maxBatchSize sl →
  batching (mkSlworld sl rp bp rc pr) → batching (mkSlworld sl' rp bp rc pr).
Proof.
  intros Eq Em [H1 H2 H3 H4 H5 H6 H7]. unfold sized in *.
  split; cbn [sw_sl sw_raft sw_batcher sw_received sw_proposed] in *; unfold sized; rewrite ?Eq, ?Em; done.
Qed.

Lemma batching_request sl r rest bp rc pr :
  sl_proposeC sl = r :: rest → batching (mkSlworld sl RIdle bp rc pr) →
  let queue := sl_batchQueue sl ++ [r] in
  let shouldFlush := (sl_maxBatchSize sl <=? Z.of_nat (length queue))%Z in
  batching (mkSlworld (set_queue (set_proposeC sl rest) queue) (if shouldFlush then RFlush else RIdle) bp
    (rc ++ [r]) pr).
Proof.
  intros _ [H1 H2 H3 H4 H5 H6 H7] queue shouldFlush.
  assert (sl_maxBatchSize (set_queue (set_proposeC sl rest) queue) = sl_maxBatchSize sl ∧
    sl_batchQueue (set_queue (set_proposeC sl rest) queue) = queue) as [Em Eq] by (by destruct sl).
  specialize (H3 eq_refl). cbn in *.
  assert (length queue = S (length (sl_batchQueue sl))) as Hlen by (unfold queue; rewrite length_app; simpl; lia).
  split; cbn [sw_sl sw_raft sw_batcher sw_received sw_proposed]; unfold sized; rewrite ?Em, ?Eq.
  - rewrite H1. unfold queue. by destruct shouldFlush; simpl; rewrite !app_assoc.
  - lia.
  - unfold shouldFlush. intros Hf. destruct (Z.leb_spec (sl_maxBatchSize sl) (Z.of_nat (length queue))); done.
  - intros b. by destruct shouldFlush.
  - done.
  - done.
  - done.
Qed.

Lemma batching_raft_take sl sl' now batch bp rc pr :
  take_batch now sl = Some (batch, sl') → batching (mkSlworld sl RFlush bp rc pr) →
  batching (mkSlworld sl' (RPropose batch) bp rc pr).
Proof.
  intros (-> & Hne & Eq & Em)%take_batch_spec [H1 H2 H3 H4 H5 H6 H7]. cbn in *. unfold sized in *.
  split; cbn [sw_sl sw_raft sw_batcher sw_received sw_proposed in_raft in_batcher]; unfold sized; rewrite ?Em, ?Eq.
  - rewrite H1. solve_Permutation.
  - simpl. lia.
  - done.
  - intros b [= <-]. done.
  - done.
  - done.
  - done.
Qed.

Lemma batching_batcher_take sl sl' now batch rp rc pr :
  take_batch now sl = Some (batch, sl') → batching (mkSlworld sl rp BIdle rc pr) →
  batching (mkSlworld sl' rp (BPropose batch) rc pr).
Proof.
  intros (-> & Hne & Eq & Em)%take_batch_spec [H1 H2 H3 H4 H5 H6 H7]. cbn in *. unfold sized in *.
  split; cbn [sw_sl sw_raft sw_batcher sw_received sw_proposed in_raft in_batcher]; unfold sized; rewrite ?Em, ?Eq.
  - rewrite H1. solve_Permutation.
  - simpl. lia.
  - intros Hr. specialize (H3 Hr). destruct (sl_batchQueue sl); [done|]. simpl in *. lia.
  - intros b Hb. by destruct (H4 b Hb) as [? ?].
  - intros b [= <-]. done.
  - done.
  - done.
Qed.

Lemma batching_propose sl batch rp rp' bp bp' rc pr :
  (rp = RPropose batch ∧ rp' = RIdle ∧ bp' = bp ∨
   bp = BPropose batch ∧ bp' = BIdle ∧ rp' = rp) →
  batching (mkSlworld sl rp bp rc pr) →
  batching (mkSlworld (propose_batch batch sl) rp' bp' rc (pr ++ [batch])).
Proof.
  intros Hc [H1 H2 H3 H4 H5 H6 H7].
  assert (sl_maxBatchSize (propose_batch batch sl) = sl_maxBatchSize sl ∧
    sl_batchQueue (propose_batch batch sl) = sl_batchQueue sl) as [Em Eq] by (by destruct sl).
  assert (Hp : Forall (sized sl) (pr ++ [batch])).
  { apply Forall_app. split; [done|]. apply Forall_singleton.
    destruct Hc as [(-> & _)|(-> & _)]; [by apply H4|by apply H5]. }
  cbn in *. unfold sized in *.
  split; cbn [sw_sl sw_raft sw_batcher sw_received sw_proposed]; unfold sized; rewrite ?Em, ?Eq; try done.
  - rewrite H1, concat_app. destruct Hc as [(-> & -> & ->)|(-> & -> & ->)]; simpl;
      rewrite app_nil_r; solve_Permutation.
  - intros Hr. destruct Hc as [(-> & _)|(_ & _ & ->)]; [|by apply H3].
    destruct (H4 batch eq_refl) as [_ ->]. done.
  - intros b Hb. destruct Hc as [(_ & -> & _)|(_ & _ & ->)]; [done|auto].
  - intros b Hb. destruct Hc as [(_ & _ & ->)|(_ & -> & _)]; [auto|done].
Qed.

Lemma batching_step w w' : slstep w w' → batching w → batching w'.
Proof.
  intros Hs Hb. destruct Hs.
  - by apply (batching_same sl); [destruct sl..|].
  - by apply (batching_same sl); [destruct sl..|].
  - match goal with E : handle_ready _ _ _ = _ |- _ => apply handle_ready_batching in E as [? ?] end.
    by apply (batching_same sl).
  - by apply batching_request.
  - destruct Hb as [C1 C2 C3 C4 C5 C6 C7]. split; try done. intros _. cbn in *.
    unfold take_batch in *. by destruct (sl_batchQueue sl).
  - by eapply batching_raft_take.
  - eapply batching_propose; [|done]. by left.
  - by eapply batching_batcher_take.
  - eapply batching_propose; [|done]. by right.
  - by apply (batching_same sl); [destruct sl..|].
  - by apply (batching_same sl); [destruct sl..|].
  - apply (batching_same sl); [..|done]; unfold HandleAbort; destruct (node_Propose _ _); by destruct sl.
  - apply (batching_same sl); [..|done]; unfold Step; destruct (node_Step _ _); by destruct sl.
Qed.

(** The world a leader starts in. *)
Definition start (sl : ShardLeader) : slworld := mkSlworld sl RIdle BIdle [] [].

Lemma batching_reachable shardID node storage timeout size now w :
  (0 < size)%Z → rtc slstep (start (NewShardLeader shardID node storage timeout size now)) w → batching w.
Proof.
  intros Hsize Hr. assert (Hi : batching (start (NewShardLeader shardID node storage timeout size now))).
  { split; simpl; try done; lia. }
  revert Hi. induction Hr as [|w1 w2 w3 Hs _ IH]; [done|]. intros Hb. apply IH. by eapply batching_step.
Qed.
End loop.

(** ** Properties *)


(** Any position of the two goroutines leads, by their own steps, to one where
    everything received has been proposed. *)
Lemma flush_reachable `{MapOrder} `{Raft} w :
  batching w →
  ∃ w', rtc slstep w w' ∧ sw_received w' = sw_received w ∧ sw_received w' ≡ₚ concat (sw_proposed w').
Proof.
  assert (Hidle : ∀ sl rp rc pr, (∀ b, rp ≠ RPropose b) → batching (mkSlworld sl rp BIdle rc pr) →
    ∃ w', rtc slstep (mkSlworld sl rp BIdle rc pr) w' ∧ sw_received w' = rc ∧ rc ≡ₚ concat (sw_proposed w')).
  { intros sl rp rc pr Hrp Hb. pose proof (bt_conserved _ Hb) as Hc. cbn in Hc.
    destruct (take_batch 0 sl) as [[batch sl']|] eqn:E.
    - exists (mkSlworld (propose_batch batch sl') rp BIdle rc (pr ++ [batch])). split.
      + eapply rtc_l; [by eapply sl_batcher_take|]. apply rtc_once, sl_batcher_propose.
      + split; [done|]. cbn. apply take_batch_spec in E as (-> & _). rewrite Hc, concat_app. simpl.
        rewrite app_nil_r. destruct rp; [done..|by destruct (Hrp batch)].
    - exists (mkSlworld sl rp BIdle rc pr). split; [done|]. split; [done|]. cbn. rewrite Hc.
      unfold take_batch in E. destruct (sl_batchQueue sl); [|done]. rewrite !app_nil_r.
      destruct rp; simpl; [by rewrite ?app_nil_r..|by destruct (Hrp batch)]. }
  assert (Hb : ∀ sl rp bp rc pr, (∀ b, rp ≠ RPropose b) → batching (mkSlworld sl rp bp rc pr) →
    ∃ w', rtc slstep (mkSlworld sl rp bp rc pr) w' ∧ sw_received w' = rc ∧ rc ≡ₚ concat (sw_proposed w')).
  { intros sl rp [|batch] rc pr Hrp Hb; [by apply Hidle|].
    destruct (Hidle (propose_batch batch sl) rp rc (pr ++ [batch]) Hrp) as (w' & Hr & Hw).
    { eapply batching_step; [|done]. apply sl_batcher_propose. }
    exists w'. split; [|done]. eapply rtc_l; [apply sl_batcher_propose|done]. }
  intros Hw0. destruct w as [sl rp bp rc pr]. destruct rp as [| |batch].
  - destruct (Hb sl RIdle bp rc pr) as (w' & Hr & E & Hp); [done|done|]. exists w'. split_and!; [done..|by rewrite E].
  - destruct (Hb sl RFlush bp rc pr) as (w' & Hr & E & Hp); [done|done|]. exists w'. split_and!; [done..|by rewrite E].
  - destruct (Hb (propose_batch batch sl) RIdle bp rc (pr ++ [batch])) as (w' & Hr & E & Hp); [done| |].
    { eapply batching_step; [|done]. apply sl_raft_propose. }
    exists w'. split_and!; [|done|by rewrite E]. eapply rtc_l; [apply sl_raft_propose|done].
Qed.

(** No request is stranded. From every reachable state the goroutines can,
    by their own steps and without new requests, reach one in which everything
    read from the propose channel has been proposed to Raft. *)
Theorem requests_get_proposed `{MapOrder} `{Raft} (shardID : string) (node : raft_node)
    (storage : raft_storage) (timeout size now : Z) (w : slworld) :
  (0 < size)%Z → rtc slstep (start (NewShardLeader shardID node storage timeout size now)) w →
  ∃ w', rtc slstep w w' ∧ sw_received w' = sw_received w ∧ sw_received w' ≡ₚ concat (sw_proposed w').
Proof. intros Hsize Hr. by apply flush_reachable, (batching_reachable _ _ _ _ _ _ _ Hsize Hr). Qed.

(** ** Witnesses: one request is sent, read, batched by the ticker and proposed *)
Definition toy_r : PrepareRequest := toy_req "t1" ∅ {["a" := Some "1"]}.
Definition toy_sent : @ShardLeader toy_raft := @set_proposeC toy_raft toy_leader [toy_r].
Definition toy_queued : @ShardLeader toy_raft :=
  @set_queue toy_raft (@set_proposeC toy_raft toy_sent []) [toy_r].

Lemma toy_run :
  rtc (@slstep sorted_map_order toy_raft) (@start toy_raft toy_leader)
    (@mkSlworld toy_raft toy_queued RIdle BIdle [toy_r] []).
Proof.
  eapply rtc_l.
  { apply (@sl_send sorted_map_order toy_raft toy_leader toy_r RIdle BIdle [] []). cbn.
    unfold proposeC_cap. lia. }
  apply rtc_once.
  apply (@sl_request sorted_map_order toy_raft toy_sent toy_r [] BIdle [] []). reflexivity.
Qed.


Lemma requests_get_proposed_witness :
  ∃ w', rtc (@slstep sorted_map_order toy_raft) (@start toy_raft toy_leader) w' ∧
    [toy_r] ≡ₚ concat (sw_proposed w').
Proof.
  destruct (@requests_get_proposed sorted_map_order toy_raft "cc" [] [] DefaultBatchTimeout
    DefaultBatchMaxSize 0 (@mkSlworld toy_raft toy_queued RIdle BIdle [toy_r] [])) as (w' & Hr & E & Hp).
  - reflexivity.
  - exact toy_run.
  - exists w'. split; [etransitivity; [exact toy_run|exact Hr]|]. rewrite E in Hp. exact Hp.
Defined.
