(* ===== verification/Registry.v ===== *)
(** * Registry: double-checked creation under a read-write lock

    Two components keep a map of lazily created objects behind a
    [sync.RWMutex] and use the same protocol: look the key up under the read
    lock; when it is missing, take the write lock, look it up again, create the
    object and store it. These are [ShardManager.GetOrCreateShard] and
    [Transport.getClient] (core/endorser/sharding). [regstep] interleaves any
    number of callers of such a registry; creation is a parameter: [makes k n r]
    says that the [n]-th creation may give [r] for key [k], [None] standing for
    an error. *)

From S2P Require Import Prelude.

Section registry.
Context {K : Type} `{Countable K} {V : Type} (makes : K → nat → option V → Prop).

(** A caller has not looked yet, found the key missing, or has its result. *)
Inductive regcaller := Looking (k : K) | Missed (k : K) | Done (k : K) (r : option V).

Record registry := mkRegistry {
  reg_map : gmap K V;
  reg_created : list (K * V);   (* the creations, in order *)
  reg_callers : list regcaller
}.

Inductive regstep : registry → registry → Prop :=
| reg_hit m cr cs i k v :
    cs !! i = Some (Looking k) → m !! k = Some v →
    regstep (mkRegistry m cr cs) (mkRegistry m cr (<[i := Done k (Some v)]> cs))
| reg_miss m cr cs i k :
    cs !! i = Some (Looking k) → m !! k = None →
    regstep (mkRegistry m cr cs) (mkRegistry m cr (<[i := Missed k]> cs))
| reg_second_hit m cr cs i k v :
    cs !! i = Some (Missed k) → m !! k = Some v →
    regstep (mkRegistry m cr cs) (mkRegistry m cr (<[i := Done k (Some v)]> cs))
| reg_create m cr cs i k v :
    cs !! i = Some (Missed k) → m !! k = None → makes k (length cr) (Some v) →
    regstep (mkRegistry m cr cs)
      (mkRegistry (<[k := v]> m) (cr ++ [(k, v)]) (<[i := Done k (Some v)]> cs))
| reg_fail m cr cs i k :
    cs !! i = Some (Missed k) → m !! k = None → makes k (length cr) None →
    regstep (mkRegistry m cr cs) (mkRegistry m cr (<[i := Done k None]> cs)).

(** The map holds exactly the created objects, one per key, and a caller's
    object is the one in the map. *)
Record reg_inv (r : registry) : Prop := {
  ri_nodup : NoDup (reg_created r).*1;
  ri_map : ∀ k v, reg_map r !! k = Some v ↔ (k, v) ∈ reg_created r;
  ri_done : ∀ i k v, reg_callers r !! i = Some (Done k (Some v)) → reg_map r !! k = Some v
}.

Lemma reg_inv_callers m cr cs i c :
  reg_inv (mkRegistry m cr cs) → (∀ k v, c = Done k (Some v) → m !! k = Some v) →
  reg_inv (mkRegistry m cr (<[i := c]> cs)).
Proof.
  intros [H1 H2 H3] Hc. split; try done. intros j k v. cbn.
  destruct (decide (i = j)) as [->|Hne].
  - intros Hj. destruct (decide (j < length cs)).
    + rewrite list_lookup_insert_eq in Hj by done. injection Hj as ->. by apply Hc.
    + rewrite list_insert_ge in Hj by lia. by apply (H3 j).
  - rewrite list_lookup_insert_ne by done. apply H3.
Qed.

Lemma reg_inv_step r r' : regstep r r' → reg_inv r → reg_inv r'.
Proof.
  intros Hs Hi. destruct Hs as [m cr cs i k v Hc Hm|m cr cs i k Hc Hm|m cr cs i k v Hc Hm
    |m cr cs i k v Hc Hm Hk|m cr cs i k Hc Hm Hk]; try (apply reg_inv_callers; [done|by intros ?? [= <- <-]]);
    try (by apply reg_inv_callers).
  assert (Hnew : ∀ v', (k, v') ∉ cr).
  { intros v' Hin. apply (ri_map _ Hi) in Hin. cbn in Hin. congruence. }
  apply (reg_inv_callers (<[k := v]> m) (cr ++ [(k, v)]) cs).
  - destruct Hi as [H1 H2 H3]. cbn in *. split; cbn.
    + rewrite fmap_app. apply NoDup_app. split; [done|]. split; [|apply NoDup_singleton].
      intros k' Hin ->%list_elem_of_singleton. apply list_elem_of_fmap in Hin as ([k'' v'] & E & Hin).
      cbn in E. subst k''. by apply Hnew in Hin.
    + intros k' v'. rewrite elem_of_app, list_elem_of_singleton.
      destruct (decide (k = k')) as [<-|Hne].
      * rewrite lookup_insert_eq. split; [intros [= ->]; by right|].
        intros [Hin|[= ->]]; [by apply Hnew in Hin|done].
      * rewrite lookup_insert_ne by done. rewrite H2. naive_solver.
    + intros j k' v' Hj. specialize (H3 j k' v' Hj).
      destruct (decide (k = k')) as [<-|]; [congruence|]. by rewrite lookup_insert_ne.
  - intros k' v' [= <- <-]. by rewrite lookup_insert_eq.
Qed.

Lemma reg_inv_reachable ks r :
  rtc regstep (mkRegistry ∅ [] (Looking <$> ks)) r → reg_inv r.
Proof.
  intros Hr. assert (Hi : reg_inv (mkRegistry ∅ [] (Looking <$> ks))).
  { split; cbn; [constructor| |].
    - intros k v. rewrite lookup_empty. split; [done|]. intros Hin. by apply not_elem_of_nil in Hin.
    - intros i k v. rewrite list_lookup_fmap. by destruct (ks !! i). }
  revert Hi. induction Hr as [|r1 r2 r3 Hs _ IH]; [done|]. intros Hi. apply IH. by eapply reg_inv_step.
Qed.
End registry.
