(* ===== verification/ShardManager.v ===== *)
(** * ShardManager: the shards of an endorser and their transport
    (core/endorser/sharding/shard_manager.go, transport_grpc.go)

    One shard per contract, created on first use. The configuration file
    [sharding.json] and the environment variable [CORE_PEER_ADDRESS] are
    arguments; the file's text is decoded with [Json]. Starting a Raft node
    ([raft.StartNode]) and dialling a peer ([grpc.Dial]) are parameters.
    [GetOrCreateShard] and [getClient] are given for one caller; concurrent
    callers follow [Registry]. *)

From S2P Require Import Prelude GoText Utf8 Json ShardTypes Shard Registry.

(** ** Configuration *)
Record ShardConfig := mkShardConfig {
  cfg_ShardID : string;
  cfg_ReplicaNodes : list string;
  cfg_ReplicaID : Z
}.

(** Into a [[]string]: null clears it, null elements are empty strings. *)
Definition into_strings (j : json) : outcome (list string) :=
  match j with
  | JNull => Ok []
  | JArr l => foldM (λ acc x, s ← into_string "" x; Ok (acc ++ [s])) [] l
  | _ => type_error
  end.

(** [file] is the text of the file, [None] when it cannot be opened. The
    decoder reads one value and ignores what follows it. *)
Definition loadShardingConfig (file : option string) : outcome (gmap string (list string)) :=
  match file with
  | None => Err "no such file or directory"
  | Some text =>
      match parse_value (2 * String.length text + 2) text with
      | Some (JNull, _) => Ok ∅
      | Some (JObj ms, _) => foldM (λ m kv, l ← into_strings kv.2; Ok (<[kv.1 := l]> m)) ∅ ms
      | Some _ => type_error
      | None => Err "invalid character in JSON text"
      end
  end.

(** The loop that looks for this peer among the replicas: the position of the
    first entry equal to its address, from 1. *)
Fixpoint replica_id (myAddr : string) (replicas : list string) (i : Z) : option Z :=
  match replicas with
  | [] => None
  | nodeAddr :: rest =>
      if bool_decide (nodeAddr = myAddr) then Some (u64 (i + 1)) else replica_id myAddr rest (i + 1)
  end.

Definition default_nodes : list string := ["localhost:7051"; "localhost:7052"; "localhost:7053"].

(** The configuration [GetOrCreateShard] builds; [env] is the value of
    [CORE_PEER_ADDRESS], empty when unset. *)
Definition shard_config (contractName env : string) (file : option string) : ShardConfig :=
  match loadShardingConfig file with
  | Ok externalConfig =>
      match externalConfig !! contractName with
      | Some replicas =>
          let myAddr := if bool_decide (env = "") then "localhost:7051" else env in
          mkShardConfig contractName replicas (default 1%Z (replica_id myAddr replicas 0))
      | None => mkShardConfig contractName default_nodes 1
      end
  | _ => mkShardConfig contractName default_nodes 1
  end.

(** ** The manager *)
Section manager.
Context `{MapOrder} {L : Type} (newLeader : ShardConfig → outcome L).

Record ShardManager := mkShardManager {
  sm_shards : gmap string L;
  sm_config : gmap string ShardConfig
}.

(** Shards that cannot be created are left out. *)
Definition add_shard (shards : gmap string L) (shardID : string) (cfg : ShardConfig)
    : outcome (gmap string L) :=
  match newLeader cfg with
  | Ok shard => Ok (<[shardID := shard]> shards)
  | Err _ => Ok shards
  | Panic e => Panic e
  end.

Definition NewShardManager (configs : option (gmap string ShardConfig)) : outcome ShardManager :=
  let configs := default ∅ configs in
  shards ← foldM (λ m id, match configs !! id with Some c => add_shard m id c | None => Ok m end)
             ∅ (map_range ["shards"] 0 configs);
  Ok (mkShardManager shards configs).

Definition GetOrCreateShard (contractName env : string) (file : option string) (sm : ShardManager)
    : outcome L * ShardManager :=
  match sm_shards sm !! contractName with
  | Some shard => (Ok shard, sm)
  | None =>
      match newLeader (shard_config contractName env file) with
      | Ok shard => (Ok shard, mkShardManager (<[contractName := shard]> (sm_shards sm)) (sm_config sm))
      | Err e => (Err e, sm)
      | Panic e => (Panic e, sm)
      end
  end.

Definition Shutdown (stop : L → L) (sm : ShardManager) : ShardManager :=
  mkShardManager (foldl (λ m id, alter stop id m) (sm_shards sm)
    (map_range ["shutdown"] 0 (sm_shards sm))) (sm_config sm).

Definition GetShardMetrics (requestsHandled : L → Z) (sm : ShardManager) : gmap string Z :=
  foldl (λ m id, match sm_shards sm !! id with Some s => <[id := requestsHandled s]> m | None => m end)
    ∅ (map_range ["metrics"] 0 (sm_shards sm)).
End manager.
Arguments ShardManager : clear implicits.

(** A leader on the Raft node [raft.StartNode] gives for the configuration:
    the replica's id, and the peers 1..n whatever their addresses. *)
Section leaders.
Context `{Raft} (StartNode : Z → list Z → raft_node * raft_storage).

Definition peer_ids (nodes : list string) : list Z := imap (λ i _, u64 (Z.of_nat i + 1)) nodes.

Definition start_leader (batchTimeout maxBatchSize now : Z) (cfg : ShardConfig) : outcome ShardLeader :=
  let '(node, storage) := StartNode (cfg_ReplicaID cfg) (peer_ids (cfg_ReplicaNodes cfg)) in
  Ok (NewShardLeader (cfg_ShardID cfg) node storage batchTimeout maxBatchSize now).
End leaders.

(** ** The transport *)
Section transport.
Context {C M : Type} (Dial : string → outcome C).

Record Transport := mkTransport {
  t_nodeID : Z;
  t_address : string;
  t_peers : gmap Z string;
  t_clients : gmap Z C
}.

Definition NewTransport (nodeID : Z) (address : string) (peers : gmap Z string) : Transport :=
  mkTransport nodeID address peers ∅.

Definition getClient (nodeID : Z) (t : Transport) : outcome C * Transport :=
  match t_clients t !! nodeID with
  | Some client => (Ok client, t)
  | None =>
      match t_peers t !! nodeID with
      | None => (Err ("unknown peer " +:+ format_uint nodeID), t)
      | Some addr =>
          match Dial addr with
          | Ok client =>
              (Ok client, mkTransport (t_nodeID t) (t_address t) (t_peers t)
                            (<[nodeID := client]> (t_clients t)))
          | Err e => (Err e, t)
          | Panic e => (Panic e, t)
          end
      end
  end.

(** [send]: nothing is sent without a client, and errors are only logged. The
    result is what goes on the wire, to which client. *)
Definition send (msg_To : M → Z) (msg_Marshal : M → outcome string) (msg : M) (t : Transport)
    : option (C * string) * Transport :=
  match getClient (msg_To msg) t with
  | (Ok client, t') =>
      match msg_Marshal msg with
      | Ok data => (Some (client, data), t')
      | _ => (None, t')
      end
  | (_, t') => (None, t')
  end.
End transport.

(** The gRPC handler [Transport.Step]: errors travel in the response. *)
Definition handle_step `{Raft} (msg_Unmarshal : string → raft_message + string) (data : string)
    (leader : ShardLeader) : ShardLeader * (bool * string) :=
  match msg_Unmarshal data with
  | inl msg =>
      match Step leader msg with
      | (leader', Err e) => (leader', (false, e))
      | (leader', _) => (leader', (true, ""))
      end
  | inr e => (leader, (false, e))
  end.

(** ** Lemmas *)
Lemma replica_id_spec myAddr replicas i :
  (0 ≤ i)%Z → (i + Z.of_nat (length replicas) < 2 ^ 64)%Z →
  match replica_id myAddr replicas i with
  | Some n => ∃ k, replicas !! k = Some myAddr ∧ n = (i + Z.of_nat k + 1)%Z
  | None => myAddr ∉ replicas
  end.
Proof.
  revert i. induction replicas as [|a l IH]; intros i Hi Hlen; cbn [replica_id].
  { by apply not_elem_of_nil. }
  cbn [length] in Hlen. case_bool_decide as E.
  - exists 0. subst a. split; [done|]. unfold u64. rewrite wrap_small by lia. lia.
  - specialize (IH (i + 1)%Z ltac:(lia) ltac:(lia)). destruct (replica_id myAddr l (i + 1)) as [n|].
    + destruct IH as (k & Hk & ->). exists (S k). split; [done|]. lia.
    + rewrite not_elem_of_cons. split; [congruence|done].
Qed.

Definition file_lists (file : option string) (contractName : string) (replicas : list string) : Prop :=
  ∃ m, loadShardingConfig file = Ok m ∧ m !! contractName = Some replicas.

Lemma shard_config_listed contractName env file replicas :
  file_lists file contractName replicas → env ≠ "" →
  shard_config contractName env file
  = mkShardConfig contractName replicas (default 1%Z (replica_id env replicas 0)).
Proof.
  intros (m & E & Em) He. unfold shard_config. rewrite E, Em. by rewrite bool_decide_eq_false_2.
Qed.

(** ** Properties *)

(** The replicas a configuration file lists for a contract get the ids
    1..n: two peers at different listed addresses get different Raft ids, all
    of them among the peers the node is started with. *)
Theorem replica_ids_distinct (contractName env1 env2 : string) (file : option string)
    (replicas : list string) :
  file_lists file contractName replicas → (Z.of_nat (length replicas) < 2 ^ 63)%Z →
  env1 ≠ "" → env2 ≠ "" → env1 ∈ replicas → env2 ∈ replicas → env1 ≠ env2 →
  let cfg1 := shard_config contractName env1 file in
  let cfg2 := shard_config contractName env2 file in
  cfg_ReplicaID cfg1 ≠ cfg_ReplicaID cfg2 ∧
  cfg_ReplicaID cfg1 ∈ peer_ids (cfg_ReplicaNodes cfg1) ∧ cfg_ReplicaNodes cfg1 = cfg_ReplicaNodes cfg2.
Proof.
  intros Hf Hlen H1 H2 Hin1 Hin2 Hne. cbv zeta. rewrite !(shard_config_listed _ _ _ replicas) by done. cbn.
  pose proof (replica_id_spec env1 replicas 0 ltac:(lia) ltac:(lia)) as R1.
  pose proof (replica_id_spec env2 replicas 0 ltac:(lia) ltac:(lia)) as R2.
  destruct (replica_id env1 replicas 0) as [n1|]; [|done].
  destruct (replica_id env2 replicas 0) as [n2|]; [|done].
  destruct R1 as (k1 & Hk1 & ->), R2 as (k2 & Hk2 & ->). cbn. split; [|split; [|done]].
  - intros E. assert (k1 = k2) as -> by lia. congruence.
  - unfold peer_ids. apply list_elem_of_lookup. exists k1. rewrite list_lookup_imap, Hk1. cbn.
    apply lookup_lt_Some in Hk1. unfold u64. rewrite wrap_small by lia. done.
Qed.

Definition toy_file : option string :=
  Some (print (JObj [("fabcar", JArr [JStr "h1:7051"; JStr "h2:7051"; JStr "h3:7051"])])).

Lemma replica_ids_distinct_witness :
  cfg_ReplicaID (shard_config "fabcar" "h1:7051" toy_file)
  ≠ cfg_ReplicaID (shard_config "fabcar" "h3:7051" toy_file).
Proof.
  apply (replica_ids_distinct "fabcar" "h1:7051" "h3:7051" toy_file ["h1:7051"; "h2:7051"; "h3:7051"]).
  - eexists. split; vm_compute; reflexivity.
  - simpl. lia.
  - discriminate.
  - discriminate.
  - left.
  - right. right. left.
  - discriminate.
Defined.

(** A peer that the file does not list joins the contract's Raft group
    under the id of the first replica. *)
Theorem unlisted_peer_takes_first_id (contractName env1 env2 : string) (file : option string)
    (first : string) (rest : list string) :
  file_lists file contractName (first :: rest) → (Z.of_nat (length (first :: rest)) < 2 ^ 63)%Z →
  env1 ≠ "" → env2 ≠ "" → env1 = first → env2 ∉ first :: rest →
  cfg_ReplicaID (shard_config contractName env2 file) = cfg_ReplicaID (shard_config contractName env1 file).
Proof.
  intros Hf Hlen H1 H2 -> Hout. rewrite !(shard_config_listed _ _ _ (first :: rest)) by done. cbn [cfg_ReplicaID].
  pose proof (replica_id_spec env2 (first :: rest) 0 ltac:(lia) ltac:(lia)) as R2.
  destruct (replica_id env2 (first :: rest) 0) as [n2|].
  - destruct R2 as (k & Hk & _). destruct Hout. by eapply list_elem_of_lookup_2.
  - cbn [replica_id]. by rewrite bool_decide_eq_true_2.
Qed.

Lemma unlisted_peer_takes_first_id_witness :
  cfg_ReplicaID (shard_config "fabcar" "h9:7051" toy_file)
  = cfg_ReplicaID (shard_config "fabcar" "h1:7051" toy_file).
Proof.
  apply (unlisted_peer_takes_first_id "fabcar" "h1:7051" "h9:7051" toy_file "h1:7051" ["h2:7051"; "h3:7051"]).
  - eexists. split; vm_compute; reflexivity.
  - simpl. lia.
  - discriminate.
  - discriminate.
  - reflexivity.
  - set_solver.
Defined.

(** The creations of concurrent [GetOrCreateShard] calls: the [n]-th leader
    created is the object [n], of the configuration of its contract. *)
Definition makes_shard (env : string) (file : option string) (contractName : string) (n : nat)
    (r : option (nat * ShardConfig)) : Prop :=
  r = Some (n, shard_config contractName env file).

(** Concurrent calls share a shard. However the calls of
    [GetOrCreateShard] interleave, two of them that return for the same
    contract return the same leader, and every contract has at most one leader
    created. *)
Theorem GetOrCreateShard_unique (env : string) (file : option string) (contracts : list string)
    (r : registry) (i j : nat) (contractName : string) (s1 s2 : nat * ShardConfig) :
  rtc (regstep (makes_shard env file)) (mkRegistry ∅ [] (Looking <$> contracts)) r →
  reg_callers r !! i = Some (Done contractName (Some s1)) →
  reg_callers r !! j = Some (Done contractName (Some s2)) →
  s1 = s2 ∧ NoDup (reg_created r).*1 ∧ (contractName, s1) ∈ reg_created r.
Proof.
  intros Hr Hi Hj. destruct (reg_inv_reachable _ contracts r Hr) as [H1 H2 H3].
  pose proof (H3 i _ _ Hi) as E1. pose proof (H3 j _ _ Hj) as E2.
  split; [congruence|]. split; [done|]. by apply H2.
Qed.

Lemma GetOrCreateShard_unique_witness :
  ∃ r : registry, reg_callers r = [Done "cc" (Some (0, shard_config "cc" "" None));
    Done "cc" (Some (0, shard_config "cc" "" None))] ∧ NoDup (reg_created r).*1.
Proof.
  set (s := (0, shard_config "cc" "" None)).
  assert (Hr : rtc (regstep (makes_shard "" None)) (mkRegistry ∅ [] (Looking <$> ["cc"; "cc"]))
    (mkRegistry {["cc" := s]} [("cc", s)] [Done "cc" (Some s); Done "cc" (Some s)])).
  { eapply rtc_l; [apply (reg_miss _ ∅ [] [Looking "cc"; Looking "cc"] 0 "cc"); reflexivity|].
    eapply rtc_l; [apply (reg_miss _ ∅ [] [Missed "cc"; Looking "cc"] 1 "cc"); reflexivity|].
    eapply rtc_l; [apply (reg_create _ ∅ [] [Missed "cc"; Missed "cc"] 1 "cc" s); reflexivity|].
    apply rtc_once. apply (reg_second_hit _ _ _ [Missed "cc"; Done "cc" (Some s)] 0 "cc" s); reflexivity. }
  exists (mkRegistry {["cc" := s]} [("cc", s)] [Done "cc" (Some s); Done "cc" (Some s)]).
  split; [reflexivity|].
  apply (GetOrCreateShard_unique "" None ["cc"; "cc"] _ 0 1 "cc" s s Hr); reflexivity.
Defined.
