(* ===== verification/LeaderEndorser.v ===== *)
(** * LeaderEndorser: the leader endorser's own dependency map and the health checks
    (core/endorser/transaction_processor.go, endorser.go)

    Before sharding, one endorser kept the dependency map itself: transactions
    arrive on [TxChannel], [processTransaction] records each and rewrites its
    response message, and a ticker removes expired entries. The map, the
    channels and the health status are the fields of [Endorser]; the random
    transaction id ([util.GenerateUUID]) and the times are arguments. *)

From S2P Require Import Prelude GoText DepInfo Protos ShardTypes Shard CircuitBreaker.

Inductive EndorserRole := NormalEndorser | LeaderEndorser.

#[global] Instance EndorserRole_eq_dec : EqDecision EndorserRole.
Proof. solve_decision. Defined.

Record DependencyInfo := mkDependencyInfo {
  di_Value : gobytes;
  di_DependentTxID : string;
  di_HasDependency : bool
}.

Record ProposalResponse := mkProposalResponse {
  pr_Version : Z;
  pr_Response : option Response;
  pr_Payload : bytes;
  pr_Endorsement : option bytes
}.

Notation VarMap := (gmap string TransactionDependencyInfo).

(** ** cleanupExpiredDependencies: one tick

    The expired keys are collected under the read lock and deleted under the
    write lock; the map may have changed in between. *)
Definition expired (now : Z) (d : TransactionDependencyInfo) : bool := (td_ExpiryTime d <? now)%Z.

Definition entriesToRemove `{MapOrder} (now : Z) (vm : VarMap) : list string :=
  filter (λ key, from_option (expired now) false (vm !! key) = true) (map_range ["cleanup"] 0 vm).

Definition remove_entries (keys : list string) (vm : VarMap) : VarMap := foldl (λ m k, delete k m) vm keys.

Definition cleanup_tick `{MapOrder} (now : Z) (vm : VarMap) : VarMap :=
  remove_entries (entriesToRemove now vm) vm.

Section leader_endorser.
Context `{Codec}.

(** ** extractDependencyInfo *)
Definition note_read (vm : VarMap) (d : DependencyInfo) (read : KVRead) : DependencyInfo :=
  match vm !! kvr_Key read with
  | Some info => mkDependencyInfo (td_Value info) (td_DependentTxID info) true
  | None => d
  end.

Definition extractDependencyInfo (vm : VarMap) (tx : ProposalResponse) : outcome DependencyInfo :=
  match unmarshal_ChaincodeAction (pr_Payload tx) with
  | None => Err "proto: cannot parse ChaincodeAction"
  | Some cca =>
      match unmarshal_KVRWSet (default "" (cca_Results cca)) with
      | None => Err "proto: cannot parse KVRWSet"
      | Some rw => Ok (foldl (note_read vm) (mkDependencyInfo None "" false) (kv_Reads rw))
      end
  end.

(** ** processTransaction

    [txID] is the generated id, [now1] and [now2] the two times read. The map
    is updated before the response is touched. *)
Definition processTransaction (txID : string) (now1 now2 expiry : Z) (tx : ProposalResponse) (vm : VarMap)
    : outcome ProposalResponse * VarMap :=
  match extractDependencyInfo vm tx with
  | Ok depInfo =>
      let vm' := <[txID := mkTransactionDependencyInfo (di_Value depInfo) (di_DependentTxID depInfo)
                             (now1 + expiry) (di_HasDependency depInfo)]> vm in
      match pr_Response tx with
      | None => (Panic "invalid memory address or nil pointer dereference", vm')
      | Some res =>
          let msg := leader_message (di_HasDependency depInfo) (di_DependentTxID depInfo)
                       (unix (now2 + expiry)) in
          (Ok (mkProposalResponse (pr_Version tx)
                 (Some (mkResponse (resp_Status res) msg (resp_Payload res)))
                 (pr_Payload tx) (pr_Endorsement tx)), vm')
      end
  | Err e => (Err e, vm)
  | Panic e => (Panic e, vm)
  end.

(** ** The leader's loop: transactions and cleanup ticks in any order

    Processed transactions go to the response channel, failed ones are only
    logged. *)
Inductive leader_event :=
| LeTx (txID : string) (now1 now2 : Z) (tx : ProposalResponse)
| LeCleanup (now : Z).

Definition leader_step `{MapOrder} (expiry : Z) (st : VarMap * list ProposalResponse) (e : leader_event)
    : outcome (VarMap * list ProposalResponse) :=
  let '(vm, out) := st in
  match e with
  | LeTx txID now1 now2 tx =>
      match processTransaction txID now1 now2 expiry tx vm with
      | (Ok tx', vm') => Ok (vm', out ++ [tx'])
      | (Err _, vm') => Ok (vm', out)
      | (Panic e, _) => Panic e
      end
  | LeCleanup now => Ok (cleanup_tick now vm, out)
  end.

Definition leader_run `{MapOrder} (expiry : Z) (es : list leader_event) : outcome (VarMap * list ProposalResponse) :=
  foldM (leader_step expiry) (∅, []) es.
End leader_endorser.

(** ** Health checks *)
Record HealthStatus := mkHealthStatus {
  hs_IsHealthy : bool;
  hs_LastCheckTime : Z;
  hs_dependencyMapSize : Z;
  hs_leaderConnectivity : option string;   (* [None]: not reported *)
  hs_channels : string
}.

Record HealthState := mkHealthState {
  h_Role : EndorserRole;
  h_mapSize : nat;                       (* entries of the dependency map *)
  h_channels : bool;                     (* both transaction channels exist *)
  h_LastLeaderCheck : Z;
  h_LeaderCheckError : option string;
  h_breaker : option CircuitBreaker;
  h_status : HealthStatus
}.

(** The dial wrapped by the breaker: a success records the time. *)
Definition dial_leader (now : Z) (dial : option string) (last : Z) : Z * option string :=
  match dial with
  | Some e => (last, Some ("failed to connect to leader: " +:+ e))
  | None => (now, None)
  end.

(** [t0] is the time of the call, [t1] the time the dial ends. *)
Definition checkLeaderConnectivity (t0 t1 : Z) (dial : option string) (h : HealthState)
    : HealthState * option string :=
  if (t0 - h_LastLeaderCheck h <? 30 * second)%Z then (h, h_LeaderCheckError h)
  else
    match h_breaker h with
    | None => (h, None)
    | Some cb =>
        let '(cb', last, err) := Execute t0 t1 (dial_leader t1 dial) cb (h_LastLeaderCheck h) in
        (mkHealthState (h_Role h) (h_mapSize h) (h_channels h) last (h_LeaderCheckError h) (Some cb')
           (h_status h), err)
    end.

Definition performHealthCheck (t0 t1 : Z) (dial : option string) (h : HealthState) : HealthState :=
  let '(h1, conn) :=
    if bool_decide (h_Role h = NormalEndorser) then
      let '(h', err) := checkLeaderConnectivity t0 t1 dial h in
      (mkHealthState (h_Role h') (h_mapSize h') (h_channels h') (h_LastLeaderCheck h') err (h_breaker h')
         (h_status h'), Some err)
    else (h, None) in
  let healthy := match conn with Some (Some _) => false | _ => true end && h_channels h in
  let status := mkHealthStatus healthy t0 (Z.of_nat (h_mapSize h))
                  ((λ err, default "ok" err) <$> conn)
                  (if h_channels h then "ok" else "transaction channels not initialized") in
  mkHealthState (h_Role h1) (h_mapSize h1) (h_channels h1) (h_LastLeaderCheck h1) (h_LeaderCheckError h1)
    (h_breaker h1) status.

Definition GetHealthStatus (h : HealthState) : HealthStatus := h_status h.

(** ** Lemmas *)
Lemma remove_entries_lookup keys vm k :
  remove_entries keys vm !! k = if decide (k ∈ keys) then None else vm !! k.
Proof.
  unfold remove_entries. revert vm. induction keys as [|k' keys IH]; intros vm; [done|].
  cbn [foldl]. rewrite IH. destruct (decide (k = k')) as [->|Hne].
  - rewrite lookup_delete_eq, (decide_True (P := k' ∈ k' :: keys)) by left. by case_decide.
  - rewrite lookup_delete_ne by done. apply decide_ext. rewrite elem_of_cons. naive_solver.
Qed.

Lemma entriesToRemove_elem `{MapOrder} now vm k :
  k ∈ entriesToRemove now vm ↔ ∃ d, vm !! k = Some d ∧ expired now d = true.
Proof.
  unfold entriesToRemove. rewrite list_elem_of_filter, (range_order_elem vm _ k (map_range_ok _ _ _)).
  split.
  - intros [He [d Hd]]. rewrite Hd in He. eauto.
  - intros (d & Hd & He). rewrite Hd. eauto.
Qed.

(** No entry of the leader's map names a transaction. *)
Definition nameless (vm : VarMap) : Prop := map_Forall (λ _ d, td_DependentTxID d = "" ∧ td_Value d = None) vm.

Lemma nameless_cleanup `{MapOrder} now vm : nameless vm → nameless (cleanup_tick now vm).
Proof.
  intros Hv k d. unfold cleanup_tick. rewrite remove_entries_lookup. case_decide; [done|]. apply Hv.
Qed.

Lemma extract_nameless `{Codec} vm tx d :
  nameless vm → extractDependencyInfo vm tx = Ok d → di_DependentTxID d = "" ∧ di_Value d = None.
Proof.
  intros Hv. unfold extractDependencyInfo. destruct (unmarshal_ChaincodeAction _) as [cca|]; [|done].
  destruct (unmarshal_KVRWSet _) as [rw|]; [|done]. intros [= <-].
  assert (Hd : di_DependentTxID (mkDependencyInfo None "" false) = "" ∧
    di_Value (mkDependencyInfo None "" false) = None) by done.
  revert Hd. generalize (mkDependencyInfo None "" false).
  induction (kv_Reads rw) as [|r rs IH]; intros d Hd; [done|]. cbn [foldl]. apply IH.
  unfold note_read. destruct (vm !! kvr_Key r) as [i|] eqn:E; [|done]. by apply Hv in E.
Qed.

Lemma processTransaction_nameless `{Codec} txID now1 now2 expiry tx vm r vm' :
  nameless vm → processTransaction txID now1 now2 expiry tx vm = (r, vm') →
  nameless vm' ∧
  ∀ tx', r = Ok tx' → ∃ res h t, pr_Response tx' = Some res ∧ resp_Message res = leader_message h "" t.
Proof.
  intros Hv. unfold processTransaction.
  destruct (extractDependencyInfo vm tx) as [d|e|e] eqn:E; [|by intros [= <- <-]..].
  apply extract_nameless in E as [Ed Ev]; [|done].
  assert (Hv' : nameless (<[txID := mkTransactionDependencyInfo (di_Value d) (di_DependentTxID d)
    (now1 + expiry) (di_HasDependency d)]> vm)) by (by apply map_Forall_insert_2).
  destruct (pr_Response tx) as [res|]; intros [= <- <-]; (split; [done|]); [|done].
  intros tx' [= <-]. cbn. rewrite Ed. eauto.
Qed.

(** ** Properties *)

(** The leader endorser never names a dependency. Whatever transactions it
    processes and whatever expires in between, every response it sends carries
    dependency information with an empty transaction id: entries are stored
    under freshly generated ids, with the id of what they depend on, which is
    never set. *)
Theorem leader_names_no_transaction `{Codec} `{MapOrder} (expiry : Z) (es : list leader_event)
    (vm : gmap string TransactionDependencyInfo) (out : list ProposalResponse) (tx : ProposalResponse) :
  leader_run expiry es = Ok (vm, out) → tx ∈ out →
  ∃ res h t, pr_Response tx = Some res ∧ resp_Message res = leader_message h "" t.
Proof.
  intros E Htx. set (good := λ tx, ∃ res h t, pr_Response tx = Some res ∧ resp_Message res = leader_message h "" t).
  change (good tx).
  assert (nameless vm ∧ Forall good out) as [_ Hall]; [|rewrite Forall_forall in Hall; by apply Hall].
  refine (foldM_inv (λ st, nameless st.1 ∧ Forall good st.2) _ _ _ _ _ _ E); [|split; [done|constructor]].
  intros [txID now1 now2 tx'|now] [v o] [v' o'] _ [Hn Ho]; cbn [leader_step fst snd].
  - destruct (processTransaction _ _ _ _ _ _) as [r v1] eqn:Er.
    apply processTransaction_nameless in Er as [Hn' Hr]; [|done].
    destruct r as [tx1|e|e]; [|by intros [= <- <-]|done]. intros [= <- <-]. split; [done|].
    apply Forall_app. split; [done|]. apply Forall_singleton. by apply Hr.
  - intros [= <- <-]. split; [by apply nameless_cleanup|done].
Qed.

(** A cleanup tick removes exactly the expired entries. *)
Theorem cleanup_tick_spec `{MapOrder} (now : Z) (vm : gmap string TransactionDependencyInfo) (k : string) :
  cleanup_tick now vm !! k =
  match vm !! k with
  | Some d => if (td_ExpiryTime d <? now)%Z then None else Some d
  | None => None
  end.
Proof.
  unfold cleanup_tick. rewrite remove_entries_lookup. case_decide as Hk; rewrite entriesToRemove_elem in Hk.
  - destruct Hk as (d & -> & He). unfold expired in He. by rewrite He.
  - destruct (vm !! k) as [d|]; [|done]. destruct (td_ExpiryTime d <? now)%Z eqn:E; [|done].
    destruct Hk. exists d. done.
Qed.

(** A sequence of health checks: start and end times, the dial's error. *)
Definition run_checks (h : HealthState) (cs : list (Z * Z * option string)) : list HealthState :=
  (fix go h cs := match cs with
   | [] => []
   | (t0, t1, dial) :: cs' => let h' := performHealthCheck t0 t1 dial h in h' :: go h' cs'
   end) h cs.

(** An unreachable leader is always reported. When every dial fails and the
    last successful one is 30 seconds old, every health check of a normal
    endorser with a breaker reports it unhealthy, whether the breaker dials or
    is open. *)
Theorem unreachable_leader_unhealthy (h : HealthState) (cs : list (Z * Z * option string)) :
  h_Role h = NormalEndorser → is_Some (h_breaker h) →
  Forall (λ c, (30 * second ≤ c.1.1 - h_LastLeaderCheck h)%Z ∧ is_Some c.2) cs →
  Forall (λ h', hs_IsHealthy (h_status h') = false) (run_checks h cs).
Proof.
  intros Hr Hb Hcs. revert h Hr Hb Hcs. induction cs as [|[[t0 t1] dial] cs IH]; intros h Hr [cb Hb] Hcs;
    [constructor|].
  apply Forall_cons in Hcs as [[Ht [e He]] Hcs]. cbn in Ht, He. subst dial. cbn [run_checks].
  assert (∃ cb' err, performHealthCheck t0 t1 (Some e) h =
    mkHealthState NormalEndorser (h_mapSize h) (h_channels h) (h_LastLeaderCheck h) (Some err) (Some cb')
      (mkHealthStatus false t0 (Z.of_nat (h_mapSize h)) (Some err)
        (if h_channels h then "ok" else "transaction channels not initialized"))) as (cb' & err & E).
  { unfold performHealthCheck. rewrite bool_decide_eq_true_2 by done. unfold checkLeaderConnectivity.
    destruct (Z.ltb_spec (t0 - h_LastLeaderCheck h) (30 * second)); [lia|]. rewrite Hb.
    unfold Execute. destruct (cb_check t0 cb); cbn; rewrite Hr; eauto. }
  rewrite E. constructor; [done|]. apply IH; [done|by eexists|]. exact Hcs.
Qed.
