(* ===== verification/Proposal.v ===== *)
(** * Proposal: unpacking and validating a signed proposal (core/endorser/msgvalidation.go)

    [UnpackProposal] decodes the layers of a signed proposal, [Validate] checks
    its headers, transaction id and signature. Decoding the protobuf messages,
    marshalling the non-transient payload, SHA-256 and the membership service
    provider are parameters. The texts of formatted errors are reduced to
    their constant part. *)

From S2P Require Import Prelude GoText Protos.

Record SignatureHeader := mkSignatureHeader { sh_Creator : bytes; sh_Nonce : bytes }.
Record ProposalMsg := mkProposalMsg { prop_Header : bytes; prop_Payload : bytes }.
Record SignedProposal := mkSignedProposal {
  sp_ProposalBytes : option bytes;
  sp_Signature : option bytes
}.
Record ChaincodeHeaderExtension := mkChaincodeHeaderExtension { che_ChaincodeId : option ChaincodeID }.
Record ChaincodeProposalPayload := mkChaincodeProposalPayload {
  cpp_Input : bytes;
  cpp_TransientMap : gmap string bytes
}.
Record ChaincodeInput := mkChaincodeInput { ci_Args : list bytes }.
Record ChaincodeSpec := mkChaincodeSpec {
  cs_Type : Z;
  cs_ChaincodeId : option ChaincodeID;
  cs_Input : option ChaincodeInput
}.
Record ChaincodeInvocationSpec := mkChaincodeInvocationSpec { cis_ChaincodeSpec : option ChaincodeSpec }.

(** What the proposal code calls of other packages. *)
Class ProposalCodec := {
  unmarshal_Proposal : bytes → option ProposalMsg;
  unmarshal_Header : bytes → option Header;
  unmarshal_PChannelHeader : bytes → option ChannelHeader;
  unmarshal_SignatureHeader : bytes → option SignatureHeader;
  unmarshal_ChaincodeHeaderExtension : bytes → option ChaincodeHeaderExtension;
  unmarshal_ChaincodeProposalPayload : bytes → option ChaincodeProposalPayload;
  unmarshal_ChaincodeInvocationSpec : bytes → option ChaincodeInvocationSpec;
  marshal_ChaincodeProposalPayload : ChaincodeProposalPayload → outcome bytes;
  sha256 : bytes → bytes;
  hex_encode : bytes → string
}.

(** An identity the MSP deserialized. *)
Record Identity := mkIdentity {
  id_MSPIdentifier : string;
  id_Validate : outcome unit;
  id_Verify : bytes → bytes → outcome unit
}.

Record UnpackedProposal := mkUnpackedProposal {
  up_ChaincodeName : string;
  up_ChannelHeader : ChannelHeader;
  up_Input : ChaincodeInput;
  up_Proposal : ProposalMsg;
  up_SignatureHeader : SignatureHeader;
  up_SignedProposal : SignedProposal;
  up_ProposalHash : bytes
}.

Definition up_ChannelID (up : UnpackedProposal) : string := chdr_ChannelId (up_ChannelHeader up).
Definition up_TxID (up : UnpackedProposal) : string := chdr_TxId (up_ChannelHeader up).

Definition HeaderType_CONFIG : Z := 1.
Definition HeaderType_ENDORSER_TRANSACTION : Z := 3.

Section proposal.
Context `{ProposalCodec}.

Definition decoded {A} (what : string) (o : option A) : outcome A :=
  from_option_err ("error unmarshalling " +:+ what) o.

Definition UnpackProposal (signedProp : SignedProposal) : outcome UnpackedProposal :=
  prop ← decoded "Proposal" (unmarshal_Proposal (default "" (sp_ProposalBytes signedProp)));
  hdr ← decoded "Header" (unmarshal_Header (prop_Header prop));
  chdr ← decoded "ChannelHeader" (unmarshal_PChannelHeader (hdr_ChannelHeader hdr));
  shdr ← decoded "SignatureHeader" (unmarshal_SignatureHeader (hdr_SignatureHeader hdr));
  ext ← decoded "ChaincodeHeaderExtension" (unmarshal_ChaincodeHeaderExtension (chdr_Extension chdr));
  ccid ← from_option_err "ChaincodeHeaderExtension.ChaincodeId is nil" (che_ChaincodeId ext);
  if bool_decide (ccid_Name ccid = "") then Err "ChaincodeHeaderExtension.ChaincodeId.Name is empty"
  else
    cpp ← decoded "ChaincodeProposalPayload" (unmarshal_ChaincodeProposalPayload (prop_Payload prop));
    cis ← decoded "ChaincodeInvocationSpec" (unmarshal_ChaincodeInvocationSpec (cpp_Input cpp));
    spec ← from_option_err "chaincode invocation spec did not contain chaincode spec" (cis_ChaincodeSpec cis);
    input ← from_option_err "chaincode input did not contain any input" (cs_Input spec);
    match marshal_ChaincodeProposalPayload (mkChaincodeProposalPayload (cpp_Input cpp) ∅) with
    | Ok ppBytes =>
        Ok (mkUnpackedProposal (ccid_Name ccid) chdr input prop shdr signedProp
              (sha256 (hdr_ChannelHeader hdr +:+ hdr_SignatureHeader hdr +:+ ppBytes)))
    | Err e => Err ("could not marshal non-transient portion of payload: " +:+ e)
    | Panic e => Panic e
    end.

(** [protoutil.ComputeTxID]. *)
Definition ComputeTxID (nonce creator : bytes) : string := hex_encode (sha256 (nonce +:+ creator)).

Definition Validate (deserialize : bytes → option Identity) (up : UnpackedProposal) : outcome unit :=
  let chdr := up_ChannelHeader up in
  let shdr := up_SignatureHeader up in
  if negb (bool_decide (chdr_Type chdr = HeaderType_ENDORSER_TRANSACTION) ||
           bool_decide (chdr_Type chdr = HeaderType_CONFIG)) then Err "invalid header type"
  else if negb (bool_decide (chdr_Epoch chdr = 0%Z)) then Err "epoch is non-zero"
  else if bool_decide (sh_Nonce shdr = "") then Err "nonce is empty"
  else if bool_decide (sh_Creator shdr = "") then Err "creator is empty"
  else if negb (bool_decide (up_TxID up = ComputeTxID (sh_Nonce shdr) (sh_Creator shdr)))
       then Err "incorrectly computed txid"
  else
    match sp_ProposalBytes (up_SignedProposal up), sp_Signature (up_SignedProposal up) with
    | None, _ => Err "empty proposal bytes"
    | Some _, None => Err "empty signature bytes"
    | Some proposalBytes, Some signature =>
        match deserialize (sh_Creator shdr) with
        | None => Err "access denied: creator org unknown, creator is malformed"
        | Some creator =>
            let genericAuthError := "access denied: creator org " +:+ id_MSPIdentifier creator in
            match id_Validate creator with
            | Ok _ =>
                match id_Verify creator proposalBytes signature with
                | Ok _ => Ok ()
                | Err _ => Err genericAuthError
                | Panic e => Panic e
                end
            | Err _ => Err genericAuthError
            | Panic e => Panic e
            end
        end
    end.
End proposal.

(** ** Lemmas *)
Lemma bind_Ok {A B} (o : outcome A) (f : A → outcome B) b :
  o ≫= f = Ok b ↔ ∃ a, o = Ok a ∧ f a = Ok b.
Proof. destruct o; naive_solver. Qed.

Lemma decoded_Ok {A} what (o : option A) a : decoded what o = Ok a ↔ o = Some a.
Proof. unfold decoded, from_option_err. destruct o; naive_solver. Qed.

Lemma from_option_err_Ok {A} e (o : option A) a : from_option_err e o = Ok a ↔ o = Some a.
Proof. destruct o; cbn; naive_solver. Qed.

(** ** Properties *)

(** An unpacked proposal is complete: it is the decoding of the signed
    bytes, its chaincode name is not empty, and its hash covers the two headers
    as they were signed and the payload without its transient data, so two
    proposals that differ only in transient data have the same hash. *)
Theorem UnpackProposal_sound `{ProposalCodec} (sp : SignedProposal) (up : UnpackedProposal) :
  UnpackProposal sp = Ok up →
  up_SignedProposal up = sp ∧ up_ChaincodeName up ≠ "" ∧
  unmarshal_Proposal (default "" (sp_ProposalBytes sp)) = Some (up_Proposal up) ∧
  ∃ hdr cpp ppBytes,
    unmarshal_Header (prop_Header (up_Proposal up)) = Some hdr ∧
    unmarshal_PChannelHeader (hdr_ChannelHeader hdr) = Some (up_ChannelHeader up) ∧
    unmarshal_SignatureHeader (hdr_SignatureHeader hdr) = Some (up_SignatureHeader up) ∧
    unmarshal_ChaincodeProposalPayload (prop_Payload (up_Proposal up)) = Some cpp ∧
    marshal_ChaincodeProposalPayload (mkChaincodeProposalPayload (cpp_Input cpp) ∅) = Ok ppBytes ∧
    up_ProposalHash up = sha256 (hdr_ChannelHeader hdr +:+ hdr_SignatureHeader hdr +:+ ppBytes).
Proof.
  unfold UnpackProposal. intros E.
  apply bind_Ok in E as (prop & Hp%decoded_Ok & E). apply bind_Ok in E as (hdr & Hh%decoded_Ok & E).
  apply bind_Ok in E as (chdr & Hc%decoded_Ok & E). apply bind_Ok in E as (shdr & Hs%decoded_Ok & E).
  apply bind_Ok in E as (ext & _ & E). apply bind_Ok in E as (ccid & _ & E).
  case_bool_decide as Hn; [done|].
  apply bind_Ok in E as (cpp & Hcpp%decoded_Ok & E). apply bind_Ok in E as (cis & _ & E).
  apply bind_Ok in E as (spec & _ & E). apply bind_Ok in E as (input & _ & E).
  destruct (marshal_ChaincodeProposalPayload _) as [pp| |] eqn:Em; [|done..]. injection E as <-.
  cbn. split_and!; [done..|]. exists hdr, cpp, pp. done.
Qed.

(** A proposal is accepted exactly when its header is of an admitted type
    with epoch zero, nonce and creator are present and hash to its transaction
    id, and the creator's identity is known, valid, and signed the proposal. *)
Theorem Validate_iff `{ProposalCodec} (deserialize : bytes → option Identity) (up : UnpackedProposal) :
  Validate deserialize up = Ok () ↔
  (chdr_Type (up_ChannelHeader up) = HeaderType_ENDORSER_TRANSACTION ∨
   chdr_Type (up_ChannelHeader up) = HeaderType_CONFIG) ∧
  chdr_Epoch (up_ChannelHeader up) = 0%Z ∧
  sh_Nonce (up_SignatureHeader up) ≠ "" ∧ sh_Creator (up_SignatureHeader up) ≠ "" ∧
  up_TxID up = ComputeTxID (sh_Nonce (up_SignatureHeader up)) (sh_Creator (up_SignatureHeader up)) ∧
  ∃ pb sig creator,
    sp_ProposalBytes (up_SignedProposal up) = Some pb ∧ sp_Signature (up_SignedProposal up) = Some sig ∧
    deserialize (sh_Creator (up_SignatureHeader up)) = Some creator ∧
    id_Validate creator = Ok () ∧ id_Verify creator pb sig = Ok ().
Proof.
  unfold Validate. destruct (bool_decide _ || bool_decide _) eqn:Et; cbn [negb].
  2:{ apply orb_false_iff in Et as [E1%bool_decide_eq_false E2%bool_decide_eq_false]. naive_solver. }
  apply orb_true_iff in Et. rewrite !bool_decide_eq_true in Et.
  case_bool_decide; cbn [negb]; [|naive_solver]. case_bool_decide; [naive_solver|].
  case_bool_decide; [naive_solver|]. case_bool_decide; cbn [negb]; [|naive_solver].
  assert (Hno : ∀ (o : outcome unit) (P : Prop), o ≠ Ok () → ¬ P → o = Ok () ↔ P) by tauto.
  destruct (sp_ProposalBytes (up_SignedProposal up)) as [pb|]; [|naive_solver].
  destruct (sp_Signature (up_SignedProposal up)) as [sig|]; [|naive_solver].
  destruct (deserialize _) as [creator|]; [|naive_solver].
  destruct (id_Validate creator) as [[]|e|e] eqn:Ev.
  2,3: apply Hno; [done|]; intros (_ & _ & _ & _ & _ & pb' & sig' & c & ? & ? & ? & ? & ?); congruence.
  destruct (id_Verify creator pb sig) as [[]|e|e] eqn:Es.
  2,3: apply Hno; [done|]; intros (_ & _ & _ & _ & _ & pb' & sig' & c & ? & ? & ? & ? & ?); congruence.
  split; [|done]. intros _. split_and!; try done. exists pb, sig, creator. done.
Qed.
