(* ===== verification/ProtoUtil.v ===== *)
(** * ProtoUtil: building and taking apart proposals and transactions
      (protoutil/proputils.go, txutils.go, commonutils.go, signeddata.go)

    The client side of the protocol (a proposal is created and signed, the
    endorsers' responses become a signed transaction) and the peer side (the
    action of a transaction is extracted from its envelope). The protobuf
    messages' encoding is the parameter [TxCodec]; the current time and the
    random nonce are arguments. *)

From S2P Require Import Prelude GoText Utf8 Base64 Protos Proposal.

(** ** Messages *)
Record Endorsement := mkEndorsement { en_Endorser : bytes; en_Signature : bytes }.
Record ChaincodeEndorsedAction := mkChaincodeEndorsedAction {
  cea_ProposalResponsePayload : option bytes;
  cea_Endorsements : list Endorsement
}.
Record ChaincodeActionPayload := mkChaincodeActionPayload {
  cap_ChaincodeProposalPayload : bytes;
  cap_Action : option ChaincodeEndorsedAction
}.
Record ProposalResponsePayload := mkProposalResponsePayload {
  prp_ProposalHash : bytes;
  prp_Extension : option bytes
}.
(** [peer.ProposalResponse]. *)
Record PeerResponse := mkPeerResponse {
  rsp_Response : option Response;
  rsp_Payload : option bytes;
  rsp_Endorsement : option Endorsement
}.
Record Signer := mkSigner { Sign : bytes → outcome bytes; Serialize_id : outcome bytes }.
Record SignedData := mkSignedData { sd_Data : bytes; sd_Identity : bytes; sd_Signature : bytes }.
Record ConfigSignature := mkConfigSignature { csg_SignatureHeader : bytes; csg_Signature : bytes }.
Record ConfigUpdateEnvelope := mkConfigUpdateEnvelope {
  cue_ConfigUpdate : bytes;
  cue_Signatures : list ConfigSignature
}.

Class TxCodec := {
  marshal_ChaincodeAction : ChaincodeAction → outcome bytes;
  marshal_ProposalResponsePayload : ProposalResponsePayload → outcome bytes;
  unmarshal_ProposalResponsePayload : bytes → option ProposalResponsePayload;
  marshal_ChaincodeActionPayload : ChaincodeActionPayload → outcome bytes;
  unmarshal_ChaincodeActionPayload : bytes → option ChaincodeActionPayload;
  marshal_Transaction : Transaction → outcome bytes;
  marshal_Payload : Payload → outcome bytes;
  marshal_Header : Header → outcome bytes;
  marshal_ChannelHeader : ChannelHeader → outcome bytes;
  marshal_SignatureHeader : SignatureHeader → outcome bytes;
  marshal_ChaincodeHeaderExtension : ChaincodeHeaderExtension → outcome bytes;
  marshal_ChaincodeInvocationSpec : ChaincodeInvocationSpec → outcome bytes;
  marshal_Proposal : ProposalMsg → outcome bytes;
  TimestampProto : Z → outcome Z
}.

Definition HeaderType_CONFIG_UPDATE : Z := 2.
Definition HeaderType_ORDERER_TRANSACTION : Z := 4.
Definition ChaincodeSpec_GOLANG : Z := 1.

(** [MarshalOrPanic]. *)
Definition or_panic {A} (o : outcome A) : outcome A :=
  match o with Err e => Panic e | _ => o end.

Section protoutil.
Context `{Codec} `{ProposalCodec} `{TxCodec}.

(** ** Proposals (proputils.go) *)
Definition CreateChaincodeProposalWithTxIDNonceAndTransient (now : Z) (txid : string) (typ : Z) (channelID : string)
    (cis : ChaincodeInvocationSpec) (nonce creator : bytes) (transientMap : gmap string bytes)
    : outcome (ProposalMsg * string) :=
  spec ← deref (cis_ChaincodeSpec cis);
  ccHdrExtBytes ← with_message "error marshaling ChaincodeHeaderExtension"
    (marshal_ChaincodeHeaderExtension (mkChaincodeHeaderExtension (cs_ChaincodeId spec)));
  cisBytes ← with_message "error marshaling ChaincodeInvocationSpec" (marshal_ChaincodeInvocationSpec cis);
  ccPropPayloadBytes ← with_message "error marshaling ChaincodeProposalPayload"
    (marshal_ChaincodeProposalPayload (mkChaincodeProposalPayload cisBytes transientMap));
  timestamp ← with_message "error validating Timestamp" (TimestampProto now);
  chdr ← or_panic (marshal_ChannelHeader (mkChannelHeader typ channelID txid 0 ccHdrExtBytes 0 (Some timestamp) None));
  shdr ← or_panic (marshal_SignatureHeader (mkSignatureHeader creator nonce));
  hdrBytes ← marshal_Header (mkHeader chdr shdr);
  Ok (mkProposalMsg hdrBytes ccPropPayloadBytes, txid).

(** [nonce] is what [getRandomNonce] returns. *)
Definition CreateChaincodeProposalWithTransient (now : Z) (nonce : outcome bytes) (typ : Z) (channelID : string)
    (cis : ChaincodeInvocationSpec) (creator : bytes) (transientMap : gmap string bytes)
    : outcome (ProposalMsg * string) :=
  nonce ← nonce;
  CreateChaincodeProposalWithTxIDNonceAndTransient now (ComputeTxID nonce creator) typ channelID cis nonce creator
    transientMap.

Definition CreateChaincodeProposal (now : Z) (nonce : outcome bytes) (typ : Z) (channelID : string)
    (cis : ChaincodeInvocationSpec) (creator : bytes) : outcome (ProposalMsg * string) :=
  CreateChaincodeProposalWithTransient now nonce typ channelID cis creator ∅.

Definition CreateChaincodeProposalWithTxIDAndTransient (now : Z) (nonce : outcome bytes) (typ : Z) (channelID : string)
    (cis : ChaincodeInvocationSpec) (creator : bytes) (txid : string) (transientMap : gmap string bytes)
    : outcome (ProposalMsg * string) :=
  nonce ← nonce;
  let txid := if bool_decide (txid = "") then ComputeTxID nonce creator else txid in
  CreateChaincodeProposalWithTxIDNonceAndTransient now txid typ channelID cis nonce creator transientMap.

Definition lscc_spec (args : list bytes) : ChaincodeInvocationSpec :=
  mkChaincodeInvocationSpec (Some (mkChaincodeSpec ChaincodeSpec_GOLANG (Some (mkChaincodeID "lscc" ""))
    (Some (mkChaincodeInput args)))).

Definition CreateGetChaincodesProposal (now : Z) (nonce : outcome bytes) (channelID : string) (creator : bytes)
    : outcome (ProposalMsg * string) :=
  CreateChaincodeProposal now nonce HeaderType_ENDORSER_TRANSACTION channelID (lscc_spec ["getchaincodes"]) creator.

Definition CreateGetInstalledChaincodesProposal (now : Z) (nonce : outcome bytes) (creator : bytes)
    : outcome (ProposalMsg * string) :=
  CreateChaincodeProposal now nonce HeaderType_ENDORSER_TRANSACTION "" (lscc_spec ["getinstalledchaincodes"]) creator.

Definition GetBytesProposalResponsePayload (hash : bytes) (response : Response) (result event : option bytes)
    (ccid : ChaincodeID) : outcome bytes :=
  cActBytes ← with_message "error marshaling ChaincodeAction"
    (marshal_ChaincodeAction (mkChaincodeAction result (default "" event) (Some response) (Some ccid)));
  with_message "error marshaling ProposalResponsePayload"
    (marshal_ProposalResponsePayload (mkProposalResponsePayload hash (Some cActBytes))).

Definition CheckTxID (txid : string) (nonce creator : bytes) : outcome unit :=
  let computedTxID := ComputeTxID nonce creator in
  if bool_decide (txid = computedTxID) then Ok ()
  else Err ("invalid txid. got [" +:+ txid +:+ "], expected [" +:+ computedTxID +:+ "]").

Definition InvokedChaincodeName (proposalBytes : bytes) : outcome string :=
  proposal ← from_option_err "could not unmarshal proposal" (unmarshal_Proposal proposalBytes);
  proposalPayload ← from_option_err "could not unmarshal chaincode proposal payload"
    (unmarshal_ChaincodeProposalPayload (prop_Payload proposal));
  cis ← from_option_err "could not unmarshal chaincode invocation spec"
    (unmarshal_ChaincodeInvocationSpec (cpp_Input proposalPayload));
  spec ← from_option_err "chaincode spec is nil" (cis_ChaincodeSpec cis);
  id ← from_option_err "chaincode id is nil" (cs_ChaincodeId spec);
  Ok (ccid_Name id).

(** ** Transactions (txutils.go, proputils.go) *)
Definition GetEnvelopeFromBlock (data : bytes) : outcome Envelope := decoded "Envelope" (unmarshal_Envelope data).

Definition GetPayloads (txActions : TransactionAction) : outcome (ChaincodeActionPayload * ChaincodeAction) :=
  ccPayload ← decoded "ChaincodeActionPayload" (unmarshal_ChaincodeActionPayload (action_Payload txActions));
  prp ← from_option_err "no payload in ChaincodeActionPayload" (cap_Action ccPayload ≫= cea_ProposalResponsePayload);
  pRespPayload ← decoded "ProposalResponsePayload" (unmarshal_ProposalResponsePayload prp);
  extension ← from_option_err "response payload is missing extension" (prp_Extension pRespPayload);
  respPayload ← decoded "ChaincodeAction" (unmarshal_ChaincodeAction extension);
  Ok (ccPayload, respPayload).

Definition GetActionFromEnvelopeMsg (env : Envelope) : outcome ChaincodeAction :=
  payl ← decoded "Payload" (unmarshal_Payload (env_Payload env));
  tx ← decoded "Transaction" (unmarshal_Transaction (payload_Data payl));
  match tx_Actions tx with
  | [] => Err "at least one TransactionAction required"
  | action :: _ => '(_, respPayload) ← GetPayloads action; Ok respPayload
  end.

Definition GetActionFromEnvelope (envBytes : bytes) : outcome ChaincodeAction :=
  env ← GetEnvelopeFromBlock envBytes;
  GetActionFromEnvelopeMsg env.

Definition GetBytesProposalPayloadForTx (payload : ChaincodeProposalPayload) : outcome bytes :=
  with_message "error marshaling ChaincodeProposalPayload"
    (marshal_ChaincodeProposalPayload (mkChaincodeProposalPayload (cpp_Input payload) ∅)).

(** The response of [r] must be a success. *)
Definition successful (r : PeerResponse) : outcome unit :=
  res ← deref (rsp_Response r);
  if (resp_Status res <? 200)%Z || (400 <=? resp_Status res)%Z
  then Err ("proposal response was not successful, error code " +:+ format_int (resp_Status res)
            +:+ ", msg " +:+ resp_Message res)
  else Ok ().

Fixpoint check_responses (a1 : bytes) (resps : list PeerResponse) : outcome unit :=
  match resps with
  | [] => Ok ()
  | r :: resps =>
      _ ← successful r;
      let a := default "" (rsp_Payload r) in
      if bool_decide (a1 = a) then check_responses a1 resps
      else Err ("ProposalResponsePayloads do not match (base64): '" +:+ b64_encode a +:+ "' vs '"
                +:+ b64_encode a1 +:+ "'")
  end.

(** The endorsements, one for each endorser. *)
Definition unique_endorsements (resps : list PeerResponse) : list Endorsement :=
  (foldl (λ '(used, es) r,
     match rsp_Endorsement r with
     | None => (used, es)
     | Some e => if decide (en_Endorser e ∈ used) then (used, es) else ({[en_Endorser e]} ∪ used, es ++ [e])
     end) ((∅ : gset string), []) resps).2.

Definition CreateSignedTx (proposal : option ProposalMsg) (signer : option Signer) (resps : list PeerResponse)
    : outcome Envelope :=
  match resps, signer with
  | [], _ => Err "at least one proposal response is required"
  | _, None => Err "signer is required when creating a signed transaction"
  | r0 :: rest, Some signer =>
      proposal ← deref proposal;
      hdr ← decoded "Header" (unmarshal_Header (prop_Header proposal));
      pPayl ← decoded "ChaincodeProposalPayload" (unmarshal_ChaincodeProposalPayload (prop_Payload proposal));
      signerBytes ← Serialize_id signer;
      shdr ← decoded "SignatureHeader" (unmarshal_SignatureHeader (hdr_SignatureHeader hdr));
      if negb (bool_decide (signerBytes = sh_Creator shdr))
      then Err "signer must be the same as the one referenced in the header"
      else
      _ ← successful r0;
      _ ← check_responses (default "" (rsp_Payload r0)) rest;
      let endorsements := unique_endorsements resps in
      if (length endorsements =? 0)%nat then Err "no endorsements"
      else
      let cea := mkChaincodeEndorsedAction (rsp_Payload r0) endorsements in
      propPayloadBytes ← GetBytesProposalPayloadForTx pPayl;
      capBytes ← with_message "error marshaling ChaincodeActionPayload"
        (marshal_ChaincodeActionPayload (mkChaincodeActionPayload propPayloadBytes (Some cea)));
      let taa := mkTransactionAction (hdr_SignatureHeader hdr) capBytes in
      txBytes ← with_message "error unmarshalling Transaction" (marshal_Transaction (mkTransaction [taa]));
      paylBytes ← with_message "error marshaling Payload" (marshal_Payload (mkPayload (Some hdr) txBytes));
      sig ← Sign signer paylBytes;
      Ok (mkEnvelope paylBytes sig)
  end.

Definition GetSignedProposal (prop : option ProposalMsg) (signer : option Signer) : outcome SignedProposal :=
  match prop, signer with
  | Some prop, Some signer =>
      propBytes ← marshal_Proposal prop;
      signature ← Sign signer propBytes;
      Ok (mkSignedProposal (Some propBytes) (Some signature))
  | _, _ => Err "nil arguments"
  end.

(** The hash endorsers sign, of the headers and the payload that goes into the
    transaction. A field a message does not carry is empty. *)
Definition has_parts (header : Header) (ccPropPayl : bytes) : bool :=
  negb (bool_decide (hdr_ChannelHeader header = "") || bool_decide (hdr_SignatureHeader header = "") ||
        bool_decide (ccPropPayl = "")).

Definition GetProposalHash2 (header : Header) (ccPropPayl : bytes) : outcome bytes :=
  if negb (has_parts header ccPropPayl) then Err "nil arguments"
  else Ok (sha256 (hdr_ChannelHeader header +:+ hdr_SignatureHeader header +:+ ccPropPayl)).

Definition GetProposalHash1 (header : Header) (ccPropPayl : bytes) : outcome bytes :=
  if negb (has_parts header ccPropPayl) then Err "nil arguments"
  else
    cpp ← decoded "ChaincodeProposalPayload" (unmarshal_ChaincodeProposalPayload ccPropPayl);
    ppBytes ← GetBytesProposalPayloadForTx cpp;
    Ok (sha256 (hdr_ChannelHeader header +:+ hdr_SignatureHeader header +:+ ppBytes)).

Definition GetOrComputeTxIDFromEnvelope (txEnvelopBytes : bytes) : outcome string :=
  txEnvelope ← with_message "error getting txID from envelope" (decoded "Envelope" (unmarshal_Envelope txEnvelopBytes));
  txPayload ← with_message "error getting txID from payload"
    (decoded "Payload" (unmarshal_Payload (env_Payload txEnvelope)));
  header ← from_option_err "error getting txID from header: payload header is nil" (payload_Header txPayload);
  chdr ← with_message "error getting txID from channel header"
    (decoded "ChannelHeader" (unmarshal_ChannelHeader (hdr_ChannelHeader header)));
  if negb (bool_decide (chdr_TxId chdr = "")) then Ok (chdr_TxId chdr)
  else
    sighdr ← with_message "error getting nonce and creator for computing txID"
      (decoded "SignatureHeader" (unmarshal_SignatureHeader (hdr_SignatureHeader header)));
    Ok (ComputeTxID (sh_Nonce sighdr) (sh_Creator sighdr)).

(** ** Envelopes (commonutils.go) *)
Definition MakeChannelHeader (now headerType version : Z) (chainID : string) (epoch : Z) : ChannelHeader :=
  mkChannelHeader headerType chainID "" epoch "" version (Some (unix now * second)%Z) None.

Definition MakePayloadHeader (ch : ChannelHeader) (sh : SignatureHeader) : outcome Header :=
  c ← or_panic (marshal_ChannelHeader ch);
  s ← or_panic (marshal_SignatureHeader sh);
  Ok (mkHeader c s).

Definition NewSignatureHeader (nonce : outcome bytes) (id : Signer) : outcome SignatureHeader :=
  creator ← Serialize_id id;
  nonce ← with_message "error generating random nonce" nonce;
  Ok (mkSignatureHeader creator nonce).

(** [dataMsg] is the result of marshalling the message. *)
Definition CreateSignedEnvelopeWithTLSBinding (now : Z) (nonce : outcome bytes) (txType : Z) (channelID : string)
    (signer : option Signer) (dataMsg : outcome bytes) (msgVersion epoch : Z) (tlsCertHash : option bytes)
    : outcome Envelope :=
  let ch := MakeChannelHeader now txType msgVersion channelID epoch in
  let ch := mkChannelHeader (chdr_Type ch) (chdr_ChannelId ch) (chdr_TxId ch) (chdr_Epoch ch) (chdr_Extension ch)
              (chdr_Version ch) (chdr_Timestamp ch) tlsCertHash in
  sh ← match signer with
       | Some signer => NewSignatureHeader nonce signer
       | None => Ok (mkSignatureHeader "" "")
       end;
  data ← with_message "error marshaling" dataMsg;
  header ← MakePayloadHeader ch sh;
  paylBytes ← or_panic (marshal_Payload (mkPayload (Some header) data));
  sig ← match signer with Some signer => Sign signer paylBytes | None => Ok "" end;
  Ok (mkEnvelope paylBytes sig).

Definition UnmarshalEnvelopeOfType {A} (unmarshal : bytes → option A) (envelope : Envelope) (headerType : Z)
    : outcome (ChannelHeader * A) :=
  payload ← decoded "Payload" (unmarshal_Payload (env_Payload envelope));
  header ← from_option_err "envelope must have a Header" (payload_Header payload);
  chdr ← decoded "ChannelHeader" (unmarshal_ChannelHeader (hdr_ChannelHeader header));
  if negb (bool_decide (chdr_Type chdr = headerType)) then Err "invalid type"
  else message ← from_option_err "error unmarshalling message for type" (unmarshal (payload_Data payload));
       Ok (chdr, message).

Definition ExtractEnvelope (block : Block) (index : Z) : outcome Envelope :=
  data ← from_option_err "block data is nil" (blk_Data block);
  if (index <? 0)%Z || (Z.of_nat (length data) <=? index)%Z then Err "envelope index out of bounds"
  else
    marshaledEnvelope ← Protos.index data (Z.to_nat index);
    with_message ("block data does not carry an envelope at index " +:+ format_int index)
      (GetEnvelopeFromBlock marshaledEnvelope).

Definition IsConfigBlock (block : Block) : bool :=
  match blk_Data block with
  | Some [marshaledEnvelope] =>
      let hdr :=
        envelope ← unmarshal_Envelope marshaledEnvelope;
        payload ← unmarshal_Payload (env_Payload envelope);
        header ← payload_Header payload;
        unmarshal_ChannelHeader (hdr_ChannelHeader header) in
      match hdr with
      | Some hdr => bool_decide (chdr_Type hdr = HeaderType_CONFIG) ||
                    bool_decide (chdr_Type hdr = HeaderType_ORDERER_TRANSACTION)
      | None => false
      end
  | _ => false
  end.

(** ** Signed data (signeddata.go) *)
Definition EnvelopeAsSignedData (env : option Envelope) : outcome (list SignedData) :=
  env ← from_option_err "No signatures for nil Envelope" env;
  payload ← decoded "Payload" (unmarshal_Payload (env_Payload env));
  header ← from_option_err "Missing Header" (payload_Header payload);
  shdr ← from_option_err "GetSignatureHeaderFromBytes failed" (unmarshal_SignatureHeader (hdr_SignatureHeader header));
  Ok [mkSignedData (env_Payload env) (sh_Creator shdr) (env_Signature env)].

Fixpoint config_signed_data (configUpdate : bytes) (sigs : list ConfigSignature) : outcome (list SignedData) :=
  match sigs with
  | [] => Ok []
  | configSig :: sigs =>
      sigHeader ← decoded "SignatureHeader" (unmarshal_SignatureHeader (csg_SignatureHeader configSig));
      rest ← config_signed_data configUpdate sigs;
      Ok (mkSignedData (csg_SignatureHeader configSig +:+ configUpdate) (sh_Creator sigHeader) (csg_Signature configSig)
          :: rest)
  end.

Definition ConfigUpdateEnvelopeAsSignedData (ce : option ConfigUpdateEnvelope) : outcome (list SignedData) :=
  ce ← from_option_err "No signatures for nil SignedConfigItem" ce;
  config_signed_data (cue_ConfigUpdate ce) (cue_Signatures ce).
End protoutil.

(** ** What the encoding guarantees

    A message decodes to what was encoded, an empty byte field coming back as
    a nil one; the transient map may be left out; an action with a response
    and a payload with an extension are not empty. *)
Definition unset (b : option bytes) : option bytes := match b with Some "" => None | _ => b end.

Record tx_codec_laws `{Codec} `{ProposalCodec} `{TxCodec} : Prop := {
  law_Header h b : marshal_Header h = Ok b → unmarshal_Header b = Some h;
  law_ChannelHeader h b : marshal_ChannelHeader h = Ok b → chdr_TlsCertHash h = unset (chdr_TlsCertHash h) →
    unmarshal_ChannelHeader b = Some h ∧ unmarshal_PChannelHeader b = Some h;
  law_SignatureHeader h b : marshal_SignatureHeader h = Ok b → unmarshal_SignatureHeader b = Some h;
  law_HeaderExtension e b : marshal_ChaincodeHeaderExtension e = Ok b → unmarshal_ChaincodeHeaderExtension b = Some e;
  law_InvocationSpec s b : marshal_ChaincodeInvocationSpec s = Ok b → unmarshal_ChaincodeInvocationSpec b = Some s;
  law_ProposalPayload p b : marshal_ChaincodeProposalPayload p = Ok b → unmarshal_ChaincodeProposalPayload b = Some p;
  law_Proposal p b : marshal_Proposal p = Ok b → unmarshal_Proposal b = Some p;
  law_Transaction t b : marshal_Transaction t = Ok b → unmarshal_Transaction b = Some t;
  law_Payload p b : marshal_Payload p = Ok b → unmarshal_Payload b = Some p;
  law_ChaincodeAction a b : marshal_ChaincodeAction a = Ok b → unmarshal_ChaincodeAction b =
    Some (mkChaincodeAction (unset (cca_Results a)) (cca_Events a) (cca_Response a) (cca_ChaincodeId a));
  law_ResponsePayload p b : marshal_ProposalResponsePayload p = Ok b → unmarshal_ProposalResponsePayload b =
    Some (mkProposalResponsePayload (prp_ProposalHash p) (unset (prp_Extension p)));
  law_ActionPayload p b : marshal_ChaincodeActionPayload p = Ok b → unmarshal_ChaincodeActionPayload b =
    Some (mkChaincodeActionPayload (cap_ChaincodeProposalPayload p)
      ((λ a, mkChaincodeEndorsedAction (unset (cea_ProposalResponsePayload a)) (cea_Endorsements a)) <$> cap_Action p));
  law_no_transient i t b : marshal_ChaincodeProposalPayload (mkChaincodeProposalPayload i t) = Ok b →
    ∃ b', marshal_ChaincodeProposalPayload (mkChaincodeProposalPayload i ∅) = Ok b';
  law_action_not_empty a b : marshal_ChaincodeAction a = Ok b → is_Some (cca_Response a) → b ≠ "";
  law_payload_not_empty p b x : marshal_ProposalResponsePayload p = Ok b → prp_Extension p = Some x → x ≠ "" → b ≠ ""
}.

(** ** Lemmas *)
Lemma or_panic_Ok {A} (o : outcome A) a : or_panic o = Ok a → o = Ok a.
Proof. by destruct o. Qed.

Lemma deref_Ok {A} (o : option A) a : deref o = Ok a ↔ o = Some a.
Proof. destruct o; cbn; naive_solver. Qed.

(** Take apart a run that ended well. *)
Ltac ok_inv :=
  repeat match goal with
  | H : _ ≫= _ = Ok _ |- _ => apply bind_Ok in H as (? & ? & H)
  | H : with_message _ _ = Ok _ |- _ => apply with_message_Ok in H
  | H : or_panic _ = Ok _ |- _ => apply or_panic_Ok in H
  | H : decoded _ _ = Ok _ |- _ => apply decoded_Ok in H
  | H : deref _ = Ok _ |- _ => apply deref_Ok in H
  | H : from_option_err _ _ = Ok _ |- _ => apply from_option_err_Ok in H
  end.

Section laws.
Context `{Codec} `{ProposalCodec} `{TxCodec}.

Lemma unset_nonempty (b : bytes) : b ≠ "" → unset (Some b) = Some b.
Proof. by destruct b. Qed.

Lemma successful_Ok r :
  successful r = Ok () ↔ ∃ res, rsp_Response r = Some res ∧ (200 ≤ resp_Status res < 400)%Z.
Proof.
  unfold successful. destruct (rsp_Response r) as [res|]; cbn; [|split; [done|by intros (? & ? & _)]].
  destruct (Z.ltb_spec (resp_Status res) 200), (Z.leb_spec 400 (resp_Status res)); cbn;
    (split; [intros [=]|intros (? & [= <-] & ?)]); try lia; eauto.
Qed.

Lemma check_responses_Ok a1 resps :
  check_responses a1 resps = Ok () ↔
  ∀ r, r ∈ resps → successful r = Ok () ∧ default "" (rsp_Payload r) = a1.
Proof.
  induction resps as [|r resps IH]; cbn [check_responses].
  - split; [|done]. intros _ r Hr. by apply elem_of_nil in Hr.
  - destruct (successful r) as [[]|?|?] eqn:Es; cbn.
    2,3: split; [done|]; intros Hall; destruct (Hall r) as [? _]; [by left|congruence].
    case_bool_decide as Ha.
    + rewrite IH. split; [intros Hall r' [->|Hr]%elem_of_cons; [done|by apply Hall]|].
      intros Hall r' Hr. apply Hall. by right.
    + split; [done|]. intros Hall. destruct (Hall r) as [_ ?]; [by left|congruence].
Qed.

(** The endorsements of the responses [resps], after those of earlier ones. *)
Definition keeps_endorsers (resps : list PeerResponse) (es : list Endorsement) : Prop :=
  NoDup (en_Endorser <$> es) ∧
  (∀ e, e ∈ es → ∃ r, r ∈ resps ∧ rsp_Endorsement r = Some e) ∧
  (∀ r e, r ∈ resps → rsp_Endorsement r = Some e → en_Endorser e ∈ en_Endorser <$> es).

Lemma unique_endorsements_keeps resps : keeps_endorsers resps (unique_endorsements resps).
Proof.
  unfold unique_endorsements.
  set (P := λ (l : list PeerResponse) (st : gset string * list Endorsement),
    keeps_endorsers l st.2 ∧ ∀ x, x ∈ st.1 ↔ x ∈ en_Endorser <$> st.2).
  match goal with |- context [foldl ?f ?z resps] => assert (P resps (foldl f z resps)) as [? _]; [|done] end.
  induction resps as [|r resps IH] using rev_ind.
  - cbn. split; [split_and!|]; cbn; [constructor|set_solver..].
  - rewrite foldl_snoc. destruct (foldl _ _ resps) as [used es]. destruct IH as [(Hn & Hfrom & Hto) Hused].
    cbn [fst snd] in *.
    assert (∀ e, e ∈ es → ∃ r', r' ∈ resps ++ [r] ∧ rsp_Endorsement r' = Some e) as Hfrom'.
    { intros e He. destruct (Hfrom e He) as (r' & ? & ?). exists r'. rewrite elem_of_app. auto. }
    assert (∀ es' : list Endorsement, (∀ x, x ∈ en_Endorser <$> es → x ∈ en_Endorser <$> es') →
      (∀ e, rsp_Endorsement r = Some e → en_Endorser e ∈ en_Endorser <$> es') →
      ∀ r' e, r' ∈ resps ++ [r] → rsp_Endorsement r' = Some e → en_Endorser e ∈ en_Endorser <$> es') as Hto'.
    { intros es' Hsub Hlast r' e [Hr'|Hr']%elem_of_app He; [by eapply Hsub, Hto|].
      apply list_elem_of_singleton in Hr' as ->. by apply Hlast. }
    destruct (rsp_Endorsement r) as [e|] eqn:Er; [destruct (decide (en_Endorser e ∈ used)) as [Hin|Hin]|].
    + split; [split_and!; [done..|]|done]. apply Hto'; [done|]. intros ? [= <-]. by apply Hused.
    + split; [split_and!|]; cbn [fst snd]; rewrite ?fmap_app.
      * apply NoDup_app. split_and!; [done| |apply NoDup_singleton].
        intros x Hx ->%list_elem_of_singleton. by apply Hin, Hused.
      * intros e' [He|He]%elem_of_app; [by apply Hfrom'|]. apply list_elem_of_singleton in He as ->.
        exists r. rewrite elem_of_app, list_elem_of_singleton. auto.
      * rewrite <-fmap_app. apply Hto'; rewrite fmap_app; [intros x Hx; apply elem_of_app; by left|].
        intros ? [= <-]. apply elem_of_app. right. by apply list_elem_of_singleton.
      * intros x. rewrite elem_of_union, elem_of_singleton, elem_of_app, Hused. cbn. rewrite list_elem_of_singleton.
        apply (comm or).
    + split; [split_and!; [done..|]|done]. by apply Hto'.
Qed.

(** The transaction an endorsed proposal becomes, taken apart. *)
Lemma CreateSignedTx_inv prop signer resps env :
  CreateSignedTx prop signer resps = Ok env →
  ∃ p sg r0 rest hdr shdr pPayl propPayload capBytes txBytes,
    prop = Some p ∧ signer = Some sg ∧ resps = r0 :: rest ∧
    unmarshal_Header (prop_Header p) = Some hdr ∧
    unmarshal_ChaincodeProposalPayload (prop_Payload p) = Some pPayl ∧
    unmarshal_SignatureHeader (hdr_SignatureHeader hdr) = Some shdr ∧
    Serialize_id sg = Ok (sh_Creator shdr) ∧
    (∀ r, r ∈ resps → successful r = Ok () ∧ default "" (rsp_Payload r) = default "" (rsp_Payload r0)) ∧
    unique_endorsements resps ≠ [] ∧
    GetBytesProposalPayloadForTx pPayl = Ok propPayload ∧
    marshal_ChaincodeActionPayload (mkChaincodeActionPayload propPayload
      (Some (mkChaincodeEndorsedAction (rsp_Payload r0) (unique_endorsements resps)))) = Ok capBytes ∧
    marshal_Transaction (mkTransaction [mkTransactionAction (hdr_SignatureHeader hdr) capBytes]) = Ok txBytes ∧
    marshal_Payload (mkPayload (Some hdr) txBytes) = Ok (env_Payload env) ∧
    Sign sg (env_Payload env) = Ok (env_Signature env).
Proof.
  unfold CreateSignedTx. destruct resps as [|r0 rest]; [done|]. destruct signer as [sg|]; [|done].
  intros E. ok_inv. case_bool_decide; cbn [negb] in E; [|done]. ok_inv.
  destruct (Nat.eqb_spec (length (unique_endorsements (r0 :: rest))) 0) as [|Hne]; [done|]. ok_inv. injection E as <-.
  subst. do 10 eexists. split_and!; try done.
  - repeat match goal with u : unit |- _ => destruct u end.
    intros r [->|Hr]%elem_of_cons; [done|]. by eapply check_responses_Ok.
  - intros E'. by rewrite E' in Hne.
Qed.
End laws.

(** ** Properties *)

(** C33: A transaction made of endorsed responses can only be made by the
    proposal's creator from successful responses that agree on their payload;
    its envelope carries the action the endorsers computed, with the
    endorsements of every endorser once, under the proposal's transaction id. *)
Theorem signed_tx_roundtrip `{Codec} `{ProposalCodec} `{TxCodec} (prop : ProposalMsg) (signer : Signer)
    (r0 : PeerResponse) (rest : list PeerResponse) (env : Envelope)
    (hash : bytes) (res : Response) (result event : option bytes) (ccid : ChaincodeID) (prp : bytes) :
  tx_codec_laws →
  GetBytesProposalResponsePayload hash res result event ccid = Ok prp → rsp_Payload r0 = Some prp →
  CreateSignedTx (Some prop) (Some signer) (r0 :: rest) = Ok env →
  GetActionFromEnvelopeMsg env = Ok (mkChaincodeAction (unset result) (default "" event) (Some res) (Some ccid)) ∧
  (∀ r, r ∈ r0 :: rest → default "" (rsp_Payload r) = prp ∧
     ∃ rr, rsp_Response r = Some rr ∧ (200 ≤ resp_Status rr < 400)%Z) ∧
  ∃ hdr shdr payl tx action cap es,
    unmarshal_Header (prop_Header prop) = Some hdr ∧ unmarshal_Payload (env_Payload env) = Some payl ∧
    payload_Header payl = Some hdr ∧
    unmarshal_SignatureHeader (hdr_SignatureHeader hdr) = Some shdr ∧ Serialize_id signer = Ok (sh_Creator shdr) ∧
    Sign signer (env_Payload env) = Ok (env_Signature env) ∧
    unmarshal_Transaction (payload_Data payl) = Some tx ∧ tx_Actions tx = [action] ∧
    unmarshal_ChaincodeActionPayload (action_Payload action) = Some cap ∧
    cap_Action cap = Some (mkChaincodeEndorsedAction (Some prp) es) ∧
    es ≠ [] ∧ keeps_endorsers (r0 :: rest) es.
Proof.
  intros L Hprp Hr0 E.
  apply CreateSignedTx_inv in E as (p & sg & r0' & rest' & hdr & shdr & pPayl & pp & capBytes & txBytes & [= <-] & [= <-]
    & [= <- <-] & Hhdr & Hpl & Hsh & Hser & Hall & Hne & Hpp & Hcap & Htx & Hpayl & Hsig).
  unfold GetBytesProposalResponsePayload in Hprp. ok_inv. rename x into act, H2 into Hact.
  assert (act ≠ "") as Hact0 by (by eapply (law_action_not_empty L)).
  assert (prp ≠ "") as Hprp0 by (by eapply (law_payload_not_empty L)).
  apply (law_ActionPayload L) in Hcap. apply (law_Transaction L) in Htx. apply (law_Payload L) in Hpayl.
  apply (law_ResponsePayload L) in Hprp. apply (law_ChaincodeAction L) in Hact.
  cbn -[unset] in Hcap, Hprp, Hact. rewrite Hr0, unset_nonempty in Hcap by done. rewrite unset_nonempty in Hprp by done.
  split_and!.
  - unfold GetActionFromEnvelopeMsg, GetPayloads, decoded. rewrite Hpayl. cbn. rewrite Htx. cbn. rewrite Hcap. cbn.
    rewrite Hprp. cbn. by rewrite Hact.
  - intros r Hr. destruct (Hall r Hr) as [Hs Heq]. rewrite Hr0 in Heq. split; [done|]. by apply successful_Ok.
  - do 7 eexists. split_and!; try done; cbn; try done. apply unique_endorsements_keeps.
Qed.

(** A proposal created and signed by a client is unpacked to what the
    client asked for and named, whatever its transient data, and is accepted
    when the creator's certificate is valid and verifies the signature. *)
Theorem proposal_roundtrip `{Codec} `{ProposalCodec} `{TxCodec} (now typ : Z) (channelID txid : string)
    (cis : ChaincodeInvocationSpec) (spec : ChaincodeSpec) (id : ChaincodeID) (input : ChaincodeInput)
    (nonce creator : bytes) (transient : gmap string bytes) (signer : Signer) (prop : ProposalMsg) (sp : SignedProposal) :
  tx_codec_laws →
  cis_ChaincodeSpec cis = Some spec → cs_ChaincodeId spec = Some id → ccid_Name id ≠ "" → cs_Input spec = Some input →
  CreateChaincodeProposalWithTransient now (Ok nonce) typ channelID cis creator transient = Ok (prop, txid) →
  GetSignedProposal (Some prop) (Some signer) = Ok sp →
  ∃ up pb sig, UnpackProposal sp = Ok up ∧ sp = mkSignedProposal (Some pb) (Some sig) ∧
    up_ChaincodeName up = ccid_Name id ∧ up_Input up = input ∧ up_ChannelID up = channelID ∧ up_TxID up = txid ∧
    InvokedChaincodeName pb = Ok (ccid_Name id) ∧ CheckTxID txid nonce creator = Ok () ∧
    ∀ deserialize ident,
      typ = HeaderType_ENDORSER_TRANSACTION → nonce ≠ "" → creator ≠ "" →
      deserialize creator = Some ident → id_Validate ident = Ok () → id_Verify ident pb sig = Ok () →
      Validate deserialize up = Ok ().
Proof.
  intros L Hspec Hid Hname Hin Hc Hs. 
  unfold CreateChaincodeProposalWithTransient, CreateChaincodeProposalWithTxIDNonceAndTransient in Hc.
  ok_inv. injection Hc as <- <-.
  match goal with Hn : Ok nonce = Ok _ |- _ => injection Hn as <- end.
  match goal with Hsp : cis_ChaincodeSpec cis = Some ?x |- _ =>
    assert_fails (constr_eq x spec); rewrite Hspec in Hsp; injection Hsp as <- end.
  unfold GetSignedProposal in Hs. ok_inv. injection Hs as <-.
  match goal with Hm : marshal_ChaincodeProposalPayload _ = Ok _ |- _ =>
    pose proof (law_no_transient L _ _ _ Hm) as [b0 Hnt]; apply (law_ProposalPayload L) in Hm as Hcpp end.
  match goal with Hm : marshal_ChannelHeader _ = Ok _ |- _ => apply (law_ChannelHeader L) in Hm as [_ Hch]; [|done] end.
  match goal with Hm : marshal_SignatureHeader _ = Ok _ |- _ => apply (law_SignatureHeader L) in Hm as Hsh end.
  match goal with Hm : marshal_Header _ = Ok _ |- _ => apply (law_Header L) in Hm as Hhd end.
  match goal with Hm : marshal_Proposal _ = Ok _ |- _ => apply (law_Proposal L) in Hm as Hpr end.
  match goal with Hm : marshal_ChaincodeHeaderExtension _ = Ok _ |- _ => apply (law_HeaderExtension L) in Hm as Hex end.
  match goal with Hm : marshal_ChaincodeInvocationSpec _ = Ok _ |- _ => apply (law_InvocationSpec L) in Hm as Hci end.
  eexists _, _, _. split.
  { unfold UnpackProposal, decoded. cbn. rewrite Hpr. cbn. rewrite Hhd. cbn. rewrite Hch. cbn.
    rewrite Hsh. cbn. rewrite Hex. cbn. rewrite Hid. cbn. rewrite bool_decide_false by done. rewrite Hcpp. cbn.
    rewrite Hci. cbn. rewrite Hspec. cbn. rewrite Hin. cbn. by rewrite Hnt. }
  cbn. split_and!; try done.
  - unfold InvokedChaincodeName. rewrite Hpr. cbn. rewrite Hcpp. cbn. rewrite Hci. cbn. rewrite Hspec. cbn. by rewrite Hid.
  - unfold CheckTxID. by rewrite bool_decide_true.
  - intros deserialize ident -> Hn Hcr Hd Hv Hver. unfold Validate. cbn.
    rewrite (bool_decide_false (nonce = "")), (bool_decide_false (creator = "")) by done.
    rewrite (bool_decide_true (ComputeTxID nonce creator = _)) by done. cbn. by rewrite Hd, Hv, Hver.
Qed.

(** ** A concrete exchange: one encoding for each message *)
#[local] Instance ChaincodeID_eq_dec : EqDecision ChaincodeID.
Proof. solve_decision. Defined.
#[local] Instance ChaincodeInput_eq_dec : EqDecision ChaincodeInput.
Proof. solve_decision. Defined.
#[local] Instance ChaincodeSpec_eq_dec : EqDecision ChaincodeSpec.
Proof. solve_decision. Defined.
#[local] Instance ChaincodeInvocationSpec_eq_dec : EqDecision ChaincodeInvocationSpec.
Proof. solve_decision. Defined.
#[local] Instance ChaincodeHeaderExtension_eq_dec : EqDecision ChaincodeHeaderExtension.
Proof. solve_decision. Defined.
#[local] Instance ChaincodeProposalPayload_eq_dec : EqDecision ChaincodeProposalPayload.
Proof. solve_decision. Defined.
#[local] Instance Header_eq_dec : EqDecision Header.
Proof. solve_decision. Defined.
#[local] Instance ChannelHeader_eq_dec : EqDecision ChannelHeader.
Proof. solve_decision. Defined.
#[local] Instance SignatureHeader_eq_dec : EqDecision SignatureHeader.
Proof. solve_decision. Defined.
#[local] Instance ProposalMsg_eq_dec : EqDecision ProposalMsg.
Proof. solve_decision. Defined.
#[local] Instance Response_eq_dec : EqDecision Response.
Proof. solve_decision. Defined.
#[local] Instance ChaincodeAction_eq_dec : EqDecision ChaincodeAction.
Proof. solve_decision. Defined.
#[local] Instance ProposalResponsePayload_eq_dec : EqDecision ProposalResponsePayload.
Proof. solve_decision. Defined.
#[local] Instance Endorsement_eq_dec : EqDecision Endorsement.
Proof. solve_decision. Defined.
#[local] Instance ChaincodeEndorsedAction_eq_dec : EqDecision ChaincodeEndorsedAction.
Proof. solve_decision. Defined.
#[local] Instance ChaincodeActionPayload_eq_dec : EqDecision ChaincodeActionPayload.
Proof. solve_decision. Defined.
#[local] Instance TransactionAction_eq_dec : EqDecision TransactionAction.
Proof. solve_decision. Defined.
#[local] Instance Transaction_eq_dec : EqDecision Transaction.
Proof. solve_decision. Defined.
#[local] Instance Payload_eq_dec : EqDecision Payload.
Proof. solve_decision. Defined.

Definition enc1 {A} `{EqDecision A} (b : bytes) (m x : A) : outcome bytes :=
  if decide (x = m) then Ok b else Err "unknown message".
Definition dec1 {A} (b : bytes) (m : A) (s : bytes) : option A := if decide (s = b) then Some m else None.

Lemma dec1_enc1 {A} `{EqDecision A} (b s : bytes) (m x : A) : enc1 b m x = Ok s → x = m ∧ s = b ∧ dec1 b m s = Some x.
Proof. unfold enc1, dec1. destruct (decide (x = m)) as [->|]; [|done]. intros [= <-]. by rewrite decide_True. Qed.

Definition toy_id : ChaincodeID := mkChaincodeID "cc" "1".
Definition toy_input : ChaincodeInput := mkChaincodeInput ["put"; "k"].
Definition toy_spec : ChaincodeSpec := mkChaincodeSpec ChaincodeSpec_GOLANG (Some toy_id) (Some toy_input).
Definition toy_cis : ChaincodeInvocationSpec := mkChaincodeInvocationSpec (Some toy_spec).
Definition toy_chdr : ChannelHeader :=
  mkChannelHeader HeaderType_ENDORSER_TRANSACTION "ch" "nalice" 0 "e" 0 (Some 7%Z) None.
Definition toy_shdr : SignatureHeader := mkSignatureHeader "alice" "n".
Definition toy_hdr : Header := mkHeader "c" "s".
Definition toy_res : Response := mkResponse 200 "OK" "".
Definition toy_action : ChaincodeAction := mkChaincodeAction (Some "r") "" (Some toy_res) (Some toy_id).
Definition toy_cap : ChaincodeActionPayload :=
  mkChaincodeActionPayload "p" (Some (mkChaincodeEndorsedAction (Some "R") [mkEndorsement "peer0" "sig0"])).
Definition toy_ptx : Transaction := mkTransaction [mkTransactionAction "s" "A"].

#[local] Instance toy_codec : Codec := {|
  unmarshal_Envelope _ := None;
  unmarshal_Payload := dec1 "Y" (mkPayload (Some toy_hdr) "T");
  unmarshal_ChannelHeader := dec1 "c" toy_chdr;
  unmarshal_Transaction := dec1 "T" toy_ptx;
  unmarshal_ChaincodeAction := dec1 "a" toy_action;
  unmarshal_TxReadWriteSet _ := None;
  unmarshal_KVRWSet _ := None;
  unmarshal_HashedRWSet _ := None
|}.
#[local] Instance toy_proposal_codec : ProposalCodec := {|
  unmarshal_Proposal := dec1 "P" (mkProposalMsg "h" "p");
  unmarshal_Header := dec1 "h" toy_hdr;
  unmarshal_PChannelHeader := dec1 "c" toy_chdr;
  unmarshal_SignatureHeader := dec1 "s" toy_shdr;
  unmarshal_ChaincodeHeaderExtension := dec1 "e" (mkChaincodeHeaderExtension (Some toy_id));
  unmarshal_ChaincodeProposalPayload := dec1 "p" (mkChaincodeProposalPayload "i" ∅);
  unmarshal_ChaincodeInvocationSpec := dec1 "i" toy_cis;
  marshal_ChaincodeProposalPayload := enc1 "p" (mkChaincodeProposalPayload "i" ∅);
  sha256 b := b;
  hex_encode b := b
|}.
#[local] Instance toy_tx_codec : TxCodec := {|
  marshal_ChaincodeAction := enc1 "a" toy_action;
  marshal_ProposalResponsePayload := enc1 "R" (mkProposalResponsePayload "hash" (Some "a"));
  unmarshal_ProposalResponsePayload := dec1 "R" (mkProposalResponsePayload "hash" (Some "a"));
  marshal_ChaincodeActionPayload := enc1 "A" toy_cap;
  unmarshal_ChaincodeActionPayload := dec1 "A" toy_cap;
  marshal_Transaction := enc1 "T" toy_ptx;
  marshal_Payload := enc1 "Y" (mkPayload (Some toy_hdr) "T");
  marshal_Header := enc1 "h" toy_hdr;
  marshal_ChannelHeader := enc1 "c" toy_chdr;
  marshal_SignatureHeader := enc1 "s" toy_shdr;
  marshal_ChaincodeHeaderExtension := enc1 "e" (mkChaincodeHeaderExtension (Some toy_id));
  marshal_ChaincodeInvocationSpec := enc1 "i" toy_cis;
  marshal_Proposal := enc1 "P" (mkProposalMsg "h" "p");
  TimestampProto t := Ok t
|}.

Lemma toy_laws : tx_codec_laws.
Proof.
  split; intros *; cbn; intros E; apply dec1_enc1 in E as (Em & -> & E'); try done.
  1-3: by rewrite E', Em.
  injection Em as -> ->. by exists "p".
Qed.

Definition toy_signer : Signer := mkSigner (λ b, Ok ("sig:" +:+ b)) (Ok "alice").
Definition toy_response : PeerResponse := mkPeerResponse (Some toy_res) (Some "R") (Some (mkEndorsement "peer0" "sig0")).

Lemma signed_tx_roundtrip_witness :
  ∃ env, CreateSignedTx (Some (mkProposalMsg "h" "p")) (Some toy_signer) [toy_response; toy_response] = Ok env ∧
    GetActionFromEnvelopeMsg env = Ok toy_action.
Proof.
  eexists. split; [vm_compute; reflexivity|].
  exact (proj1 (signed_tx_roundtrip (mkProposalMsg "h" "p") toy_signer toy_response [toy_response] _
    "hash" toy_res (Some "r") None toy_id "R" toy_laws eq_refl eq_refl eq_refl)).
Defined.

Lemma proposal_roundtrip_witness :
  ∃ up sp, GetSignedProposal (Some (mkProposalMsg "h" "p")) (Some toy_signer) = Ok sp ∧ UnpackProposal sp = Ok up ∧
    up_ChaincodeName up = "cc" ∧ up_TxID up = "nalice".
Proof.
  destruct (proposal_roundtrip 7 HeaderType_ENDORSER_TRANSACTION "ch" "nalice" toy_cis toy_spec toy_id toy_input "n" "alice" ∅
    toy_signer (mkProposalMsg "h" "p") (mkSignedProposal (Some "P") (Some "sig:P")) toy_laws eq_refl eq_refl)
    as (up & pb & sig & Hup & _ & Hname & _ & _ & Htx & _); [done|done|vm_compute; reflexivity|vm_compute; reflexivity|].
  by exists up, (mkSignedProposal (Some "P") (Some "sig:P")).
Defined.
