(* ===== verification/Interest.v ===== *)
(** * Interest: what an endorser tells discovery and gossip about a simulation
    (core/endorser/metadata.go, pvtrwset_assembler.go, endorser.go)

    [buildChaincodeInterest] lists the chaincodes, collections and key-level
    policies whose endorsement a transaction needs; [AssemblePvtRWSet] packs the
    private read-write set with the configurations of the collections it
    touches. Key-level policies are decoded by a parameter; the collection
    configurations come from the ledger, another parameter. *)

From S2P Require Import Prelude GoText Protos.

Definition VALIDATION_PARAMETER : string := "VALIDATION_PARAMETER".

Section interest.
Context `{MapOrder} {Policy : Type} (unmarshal_SignaturePolicy : bytes → outcome Policy).
Context (IsSysCC : string → bool).

(** ** metadata.go *)
Record metadataPolicies := mkMetadataPolicies {
  sbePolicies : gmap string (list Policy);
  policyRequired : gmap string (gmap string bool)
}.

(** [mp.policyRequired[ns][coll] = required], with a new inner map if needed. *)
Definition mp_add (mp : metadataPolicies) (ns coll : string) (required : bool) : metadataPolicies :=
  mkMetadataPolicies (sbePolicies mp)
    (<[ns := <[coll := required]> (default ∅ (policyRequired mp !! ns))]> (policyRequired mp)).

Definition requireChaincodePolicy (mp : metadataPolicies) (ns : string) : bool :=
  default false (default ∅ (policyRequired mp !! ns) !! "").

(** One key's metadata: a key-level policy, or the need of the collection's. *)
Definition note_key (ns coll : string) (mp : metadataPolicies) (stateMetadata : gmap string bytes)
    : outcome metadataPolicies :=
  match stateMetadata !! VALIDATION_PARAMETER with
  | Some policyBytes =>
      policy ← unmarshal_SignaturePolicy policyBytes;
      Ok (mkMetadataPolicies (<[ns := default [] (sbePolicies mp !! ns) ++ [policy]]> (sbePolicies mp))
            (policyRequired mp))
  | None => Ok (mp_add mp ns coll true)
  end.

Definition note_collection (ns : string) (cmap : gmap string (gmap string (gmap string bytes)))
    (mp : metadataPolicies) (coll : string) : outcome metadataPolicies :=
  let kmap := default ∅ (cmap !! coll) in
  foldM (λ mp key, note_key ns coll mp (default ∅ (kmap !! key))) mp (map_range ["keys"; ns; coll] 0 kmap).

Definition note_namespace (metadata : gmap string (gmap string (gmap string (gmap string bytes))))
    (mp : metadataPolicies) (ns : string) : outcome metadataPolicies :=
  let cmap := default ∅ (metadata !! ns) in
  let mp := mkMetadataPolicies (sbePolicies mp) (<[ns := {["" := false]}]> (policyRequired mp)) in
  foldM (note_collection ns cmap) mp (map_range ["colls"; ns] 0 cmap).

Definition parseWritesetMetadata (metadata : gmap string (gmap string (gmap string (gmap string bytes))))
    : outcome metadataPolicies :=
  foldM (note_namespace metadata) (mkMetadataPolicies ∅ ∅) (map_range ["metadata"] 0 metadata).

(** ** buildChaincodeInterest *)
Record ChaincodeCall := mkChaincodeCall {
  call_Name : string;
  call_CollectionNames : list string;
  call_NoPrivateReads : bool;
  call_DisregardNamespacePolicy : bool;
  call_KeyPolicies : list Policy
}.

Definition note_public (mp : metadataPolicies) (nsrws : NsReadWriteSet) : metadataPolicies :=
  if IsSysCC (ns_Namespace nsrws) then mp
  else match policyRequired mp !! ns_Namespace nsrws with
       | Some _ => mp
       | None => mp_add mp (ns_Namespace nsrws) "" true
       end.

Definition note_private (reads : gmap string (gmap string unit)) (mp : metadataPolicies) (cc : string)
    : metadataPolicies :=
  foldl (λ mp coll, mp_add mp cc coll true) mp
    (map_range ["private"; cc] 0 (default ∅ (reads !! cc))).

(** [PrivateReads.Exists]. *)
Definition read_private (reads : gmap string (gmap string unit)) (cc coll : string) : bool :=
  match default ∅ (reads !! cc) !! coll with Some _ => true | None => false end.

(** The call for one chaincode and collection; [None] where the loop continues. *)
Definition call_for (simResult : TxSimulationResults) (mp : metadataPolicies) (cc coll : string)
    : option ChaincodeCall :=
  if bool_decide (coll = "") then
    match default [] (sbePolicies mp !! cc) with
    | [] => if requireChaincodePolicy mp cc then Some (mkChaincodeCall cc [] false false []) else None
    | keyPolicies => Some (mkChaincodeCall cc [] false (negb (requireChaincodePolicy mp cc)) keyPolicies)
    end
  else Some (mkChaincodeCall cc [coll] (negb (read_private (sim_PrivateReads simResult) cc coll)) false []).

Definition calls_of (simResult : TxSimulationResults) (mp : metadataPolicies) (cc : string) : list ChaincodeCall :=
  if IsSysCC cc then []
  else omap (call_for simResult mp cc) (map_range ["calls"; cc] 0 (default ∅ (policyRequired mp !! cc))).

Definition interest_policies (simResult : TxSimulationResults) : outcome metadataPolicies :=
  mp ← parseWritesetMetadata (sim_WritesetMetadata simResult);
  let mp := foldl note_public mp (from_option txrw_NsRwset [] (sim_Pub simResult)) in
  Ok (foldl (note_private (sim_PrivateReads simResult)) mp
        (map_range ["reads"] 0 (sim_PrivateReads simResult))).

Definition buildChaincodeInterest (simResult : TxSimulationResults) : outcome (list ChaincodeCall) :=
  mp ← interest_policies simResult;
  Ok (concat (map (calls_of simResult mp) (map_range ["interest"] 0 (policyRequired mp)))).
End interest.

(** ** pvtrwset_assembler.go *)
Section assembler.
Context `{MapOrder} {Config : Type} (static_name : Config → option string).
Context (AllCollectionsConfigPkg : string → string → outcome (option (list Config))).

Record TxPvtReadWriteSetWithConfigInfo := mkTxPvtReadWriteSetWithConfigInfo {
  tpc_PvtRwset : TxPvtReadWriteSet;
  tpc_CollectionConfigs : gmap string (list Config);
  tpc_EndorsedAt : Z
}.

Definition add_config (channelName : string) (m : gmap string (list Config)) (pvtRwset : NsPvtReadWriteSet)
    : outcome (gmap string (list Config)) :=
  let namespace := npw_Namespace pvtRwset in
  match m !! namespace with
  | Some _ => Ok m
  | None =>
      match AllCollectionsConfigPkg channelName namespace with
      | Ok (Some colCP) => Ok (<[namespace := colCP]> m)
      | Ok None => Err "no collection config for chaincode"
      | Err e => Err ("error while retrieving collection config for chaincode: " +:+ e)
      | Panic e => Panic e
      end
  end.

(** The collections a namespace's private writes name. *)
Definition touched (privData : TxPvtReadWriteSet) (ns : string) : list string :=
  concat (map (λ n, if bool_decide (npw_Namespace n = ns)
                    then map cpw_CollectionName (npw_CollectionPvtRwset n) else [])
    (tpw_NsPvtRwset privData)).

Definition keep_config (privData : TxPvtReadWriteSet) (ns : string) (conf : Config) : bool :=
  match static_name conf with
  | Some name => bool_decide (name ∈ touched privData ns)
  | None => false
  end.

Definition trimCollectionConfigs (privData : TxPvtReadWriteSet) (configs : gmap string (list Config))
    : gmap string (list Config) :=
  foldl (λ m ns, match configs !! ns with
                 | Some cs => <[ns := filter (λ c, keep_config privData ns c = true) cs]> m
                 | None => m
                 end) ∅ (map_range ["trim"] 0 configs).

Definition AssemblePvtRWSet (channelName : string) (privData : TxPvtReadWriteSet)
    : outcome TxPvtReadWriteSetWithConfigInfo :=
  configs ← foldM (add_config channelName) ∅ (tpw_NsPvtRwset privData);
  Ok (mkTxPvtReadWriteSetWithConfigInfo privData (trimCollectionConfigs privData configs) 0).
End assembler.

(** ** Lemmas *)
Section interest_lemmas.
Context `{MapOrder} {Policy : Type}.
Implicit Types (mp : metadataPolicies (Policy := Policy)).

(** The endorsement policy of [coll] (of the chaincode for the empty name) is required. *)
Definition required mp (ns coll : string) : Prop := default ∅ (policyRequired mp !! ns) !! coll = Some true.

Lemma required_add mp ns coll ns' coll' :
  required mp ns coll ∨ (ns = ns' ∧ coll = coll') → required (mp_add mp ns' coll' true) ns coll.
Proof.
  unfold required, mp_add. cbn. intros Hr. destruct (decide (ns' = ns)) as [->|Hne].
  - rewrite lookup_insert_eq. cbn. destruct (decide (coll' = coll)) as [->|Hc]; [by rewrite lookup_insert_eq|].
    rewrite lookup_insert_ne by done. naive_solver.
  - rewrite lookup_insert_ne by done. naive_solver.
Qed.

Lemma required_public (IsSysCC : string → bool) mp ns coll l :
  required mp ns coll → required (foldl (note_public IsSysCC) mp l) ns coll.
Proof.
  revert mp. induction l as [|n l IH]; intros mp Hr; [done|]. cbn [foldl]. apply IH. unfold note_public.
  repeat case_match; try done. by apply required_add; left.
Qed.

Lemma required_private reads mp ns coll l :
  required mp ns coll → required (foldl (note_private reads) mp l) ns coll.
Proof.
  revert mp. induction l as [|cc l IH]; intros mp Hr; [done|]. cbn [foldl]. apply IH. unfold note_private.
  revert mp Hr. induction (map_range _ _ _) as [|c cs IHc]; intros mp Hr; [done|]. cbn [foldl].
  apply IHc. by apply required_add; left.
Qed.

Lemma note_private_required reads mp cc coll :
  read_private reads cc coll = true → required (note_private reads mp cc) cc coll.
Proof.
  unfold read_private, note_private. destruct (default ∅ (reads !! cc) !! coll) as [u|] eqn:E; [|done].
  intros _. assert (Hin : coll ∈ map_range ["private"; cc] 0 (default ∅ (reads !! cc))).
  { apply (range_order_elem _ _ coll (map_range_ok _ _ _)). eauto. }
  revert mp. induction (map_range _ _ _) as [|c cs IH]; intros mp; [by apply not_elem_of_nil in Hin|].
  cbn [foldl]. apply elem_of_cons in Hin as [<-|Hin]; [|by apply IH].
  assert (Hr : required (mp_add mp cc coll true) cc coll) by (apply required_add; by right).
  clear IH. revert Hr. generalize (mp_add mp cc coll true). induction cs as [|c' cs IH]; intros mp' Hr; [done|].
  cbn [foldl]. apply IH. by apply required_add; left.
Qed.

Lemma private_required reads mp l cc coll :
  cc ∈ l → read_private reads cc coll = true → required (foldl (note_private reads) mp l) cc coll.
Proof.
  intros Hin Hr. revert mp. induction l as [|c l IH]; intros mp; [by apply not_elem_of_nil in Hin|].
  cbn [foldl]. apply elem_of_cons in Hin as [<-|Hin]; [|by apply IH].
  by apply required_private, note_private_required.
Qed.

Lemma public_required (IsSysCC : string → bool) mp l ns :
  policyRequired mp !! ns = None → (∃ n, n ∈ l ∧ ns_Namespace n = ns) → IsSysCC ns = false →
  required (foldl (note_public IsSysCC) mp l) ns "".
Proof.
  revert mp. induction l as [|n l IH]; intros mp Hnone (n' & Hin & En) Hsys; [by apply not_elem_of_nil in Hin|].
  cbn [foldl]. destruct (decide (ns_Namespace n = ns)) as [E|Hne].
  - apply required_public. unfold note_public. rewrite E, Hsys, Hnone. apply required_add. by right.
  - apply IH; [|exists n'; apply elem_of_cons in Hin as [->|]; done|done].
    unfold note_public. repeat case_match; try done. cbn. by rewrite lookup_insert_ne.
Qed.

(** The metadata's own namespaces are the only ones it mentions. *)
Lemma note_collection_dom (dec : bytes → outcome Policy) ns cmap mp coll mp' :
  note_collection dec ns cmap mp coll = Ok mp' →
  ∀ k, k ≠ ns → policyRequired mp' !! k = policyRequired mp !! k.
Proof.
  intros E k Hk. revert E. apply (foldM_inv (λ m, policyRequired m !! k = policyRequired mp !! k)); [|done].
  intros key m m' _ Hm. unfold note_key. case_match.
  - destruct (dec _) as [p| |]; [|done..]. cbn. by intros [= <-].
  - intros [= <-]. cbn. by rewrite lookup_insert_ne.
Qed.

Lemma parse_dom (dec : bytes → outcome Policy) metadata mp ns :
  parseWritesetMetadata dec metadata = Ok mp → metadata !! ns = None → policyRequired mp !! ns = None.
Proof.
  intros E Hn. revert E. apply (foldM_inv (λ m, policyRequired m !! ns = None)); [|done].
  intros k m m' Hin Hm E. apply (range_order_elem _ _ k (map_range_ok _ _ _)) in Hin as [x Hx].
  assert (Hne : ns ≠ k) by (intros ->; congruence). unfold note_namespace in E.
  rewrite <- Hm. transitivity ((<[k := {["" := false]}]> (policyRequired m)) !! ns); [|by rewrite lookup_insert_ne].
  revert E. apply (foldM_inv (λ m1, policyRequired m1 !! ns = (<[k := {["" := false]}]> (policyRequired m)) !! ns)); [|done].
  intros coll m1 m2 _ H1 E. rewrite <- H1. by eapply note_collection_dom.
Qed.

(** A required policy leads to a call. *)
Lemma required_call (IsSysCC : string → bool) simResult mp ns coll :
  required mp ns coll → IsSysCC ns = false →
  ∃ c, call_for simResult mp ns coll = Some c ∧
    c ∈ concat (map (calls_of IsSysCC simResult mp) (map_range ["interest"] 0 (policyRequired mp))).
Proof.
  intros Hr Hs. unfold required in Hr.
  destruct (policyRequired mp !! ns) as [inner|] eqn:Ei; cbn in Hr; [|by rewrite lookup_empty in Hr].
  assert (∃ c, call_for simResult mp ns coll = Some c) as [c Hc].
  { unfold call_for. case_bool_decide as Ec; [|eauto]. subst coll.
    assert (requireChaincodePolicy mp ns = true) as ->.
    { unfold requireChaincodePolicy. rewrite Ei. cbn. by rewrite Hr. }
    destruct (default [] _); eauto. }
  exists c. split; [done|]. apply list_elem_of_In, in_concat.
  exists (calls_of IsSysCC simResult mp ns). split.
  - apply in_map, list_elem_of_In, (range_order_elem _ _ ns (map_range_ok _ _ _)). eauto.
  - apply list_elem_of_In. unfold calls_of. rewrite Hs. apply list_elem_of_omap. exists coll. split; [|done].
    apply (range_order_elem _ _ coll (map_range_ok _ _ _)). rewrite Ei. cbn. eauto.
Qed.
End interest_lemmas.

(** ** Properties *)

(** The interest drops no requirement. Every non-system chaincode with
    public reads or writes and no key metadata gets a call that requires its
    endorsement policy, and every private collection read gets a call for that
    collection that says so. *)
Theorem interest_covers `{MapOrder} {Policy : Type} (dec : bytes → outcome Policy)
    (IsSysCC : string → bool) (simResult : TxSimulationResults) (calls : list ChaincodeCall) :
  buildChaincodeInterest dec IsSysCC simResult = Ok calls →
  (∀ n, n ∈ from_option txrw_NsRwset [] (sim_Pub simResult) → IsSysCC (ns_Namespace n) = false →
     sim_WritesetMetadata simResult !! ns_Namespace n = None →
     ∃ c, c ∈ calls ∧ call_Name c = ns_Namespace n ∧ call_CollectionNames c = [] ∧
       call_DisregardNamespacePolicy c = false) ∧
  (∀ cc coll, read_private (sim_PrivateReads simResult) cc coll = true → coll ≠ "" → IsSysCC cc = false →
     ∃ c, c ∈ calls ∧ call_Name c = cc ∧ call_CollectionNames c = [coll] ∧ call_NoPrivateReads c = false).
Proof.
  unfold buildChaincodeInterest, interest_policies.
  destruct (parseWritesetMetadata dec _) as [mp0| |] eqn:E0; [|done..]. cbn. intros [= <-].
  set (mp1 := foldl (note_public IsSysCC) mp0 _).
  set (mp := foldl (note_private _) mp1 _). split.
  - intros n Hn Hsys Hmd. assert (Hr : required mp (ns_Namespace n) "").
    { apply required_private, (public_required IsSysCC mp0); [by eapply parse_dom| |done]. by exists n. }
    destruct (required_call IsSysCC simResult mp _ _ Hr Hsys) as (c & Hc & Hin).
    exists c. split; [done|]. unfold call_for in Hc. rewrite bool_decide_eq_true_2 in Hc by done.
    assert (requireChaincodePolicy mp (ns_Namespace n) = true) as Hq.
    { unfold requireChaincodePolicy. by rewrite Hr. }
    rewrite Hq in Hc. destruct (default [] _); injection Hc as <-; done.
  - intros cc coll Hread Hne Hsys. assert (Hr : required mp cc coll).
    { apply (private_required (sim_PrivateReads simResult) mp1); [|done]. apply (range_order_elem _ _ cc (map_range_ok _ _ _)).
      unfold read_private in Hread. destruct (sim_PrivateReads simResult !! cc); [eauto|].
      cbn in Hread. by rewrite lookup_empty in Hread. }
    destruct (required_call IsSysCC simResult mp _ _ Hr Hsys) as (c & Hc & Hin).
    exists c. split; [done|]. unfold call_for in Hc. rewrite bool_decide_eq_false_2 in Hc by done.
    injection Hc as <-. cbn. by rewrite Hread.
Qed.

Section assembler_lemmas.
Context `{MapOrder} {Config : Type} (static_name : Config → option string).

Lemma trim_lookup privData configs ns :
  trimCollectionConfigs static_name privData configs !! ns =
  (λ cs, filter (λ c, keep_config static_name privData ns c = true) cs) <$> configs !! ns.
Proof.
  unfold trimCollectionConfigs.
  assert (Hg : ∀ ks (m0 : gmap string (list Config)), foldl (λ m ns, match configs !! ns with
      | Some cs => <[ns := filter (λ c, keep_config static_name privData ns c = true) cs]> m
      | None => m end) m0 ks !! ns =
    if decide (ns ∈ ks) then match configs !! ns with
      | Some cs => Some (filter (λ c, keep_config static_name privData ns c = true) cs)
      | None => m0 !! ns end else m0 !! ns).
  { induction ks as [|k ks IH]; intros m0; [done|]. cbn [foldl]. rewrite IH.
    destruct (decide (ns = k)) as [->|Hne].
    - rewrite (decide_True (P := k ∈ k :: ks)) by left.
      destruct (configs !! k); [|by case_decide]. rewrite lookup_insert_eq. by case_decide.
    - destruct (configs !! k); [rewrite lookup_insert_ne by done|]; apply decide_ext; rewrite elem_of_cons; naive_solver. }
  rewrite Hg, lookup_empty. case_decide as Hk; [by destruct (configs !! ns)|].
  rewrite (range_order_elem _ _ ns (map_range_ok _ _ _)) in Hk. destruct (configs !! ns); [|done].
  destruct Hk. eauto.
Qed.

Context (pkg : string → string → outcome (option (list Config))).

Lemma configs_fold ch l m0 m :
  foldM (add_config pkg ch) m0 l = Ok m →
  ∀ ns, m !! ns = match m0 !! ns with
                  | Some cs => Some cs
                  | None => if decide (ns ∈ map npw_Namespace l)
                            then match pkg ch ns with Ok o => o | _ => None end else None
                  end ∧ ((ns ∈ map npw_Namespace l) → is_Some (m !! ns)).
Proof.
  revert m0. induction l as [|n l IH]; intros m0 E ns; cbn [foldM map] in *.
  { injection E as <-. split; [by destruct (m0 !! ns)|]. intros Hin. by apply not_elem_of_nil in Hin. }
  destruct (add_config pkg ch m0 n) as [m1| |] eqn:E1; [|done..]. destruct (IH m1 E ns) as [IH1 IH2].
  unfold add_config in E1. destruct (m0 !! npw_Namespace n) as [cs0|] eqn:E0.
  { injection E1 as <-. split.
    - rewrite IH1. destruct (m0 !! ns) eqn:En; [done|]. apply decide_ext. rewrite elem_of_cons. naive_solver.
    - intros [->|Hin]%elem_of_cons; [|by apply IH2]. rewrite IH1, E0. eauto. }
  destruct (pkg ch (npw_Namespace n)) as [[cs|]| |] eqn:Ep; try done. injection E1 as <-.
  destruct (decide (ns = npw_Namespace n)) as [->|Hne].
  - rewrite lookup_insert_eq in IH1. rewrite IH1, E0, Ep. split; [|eauto].
    by rewrite decide_True by left.
  - rewrite lookup_insert_ne in IH1 by done. split.
    + rewrite IH1. destruct (m0 !! ns); [done|]. apply decide_ext. rewrite elem_of_cons. naive_solver.
    + intros [->|Hin]%elem_of_cons; [done|by apply IH2].
Qed.
End assembler_lemmas.

(** The private data is packed with exactly the configurations it needs:
    there is one entry per namespace of the private read-write set, holding the
    static collection configurations, among those the ledger knows, of the
    collections the namespace's private writes name. *)
Theorem AssemblePvtRWSet_trims `{MapOrder} {Config : Type} (static_name : Config → option string)
    (pkg : string → string → outcome (option (list Config))) (channelName : string)
    (privData : TxPvtReadWriteSet) (r : TxPvtReadWriteSetWithConfigInfo) :
  AssemblePvtRWSet static_name pkg channelName privData = Ok r →
  tpc_PvtRwset r = privData ∧
  ∀ ns, (ns ∈ map npw_Namespace (tpw_NsPvtRwset privData) →
      ∃ all cs, pkg channelName ns = Ok (Some all) ∧ tpc_CollectionConfigs r !! ns = Some cs ∧
        cs `sublist_of` all ∧
        ∀ c, c ∈ cs ↔ c ∈ all ∧ ∃ name, static_name c = Some name ∧ name ∈ touched privData ns) ∧
    (ns ∉ map npw_Namespace (tpw_NsPvtRwset privData) → tpc_CollectionConfigs r !! ns = None).
Proof.
  unfold AssemblePvtRWSet. destruct (foldM _ _ _) as [m| |] eqn:E; [|done..]. cbn. intros [= <-].
  split; [done|]. intros ns. cbn. rewrite trim_lookup.
  destruct (configs_fold pkg channelName _ _ _ E ns) as [Hm Hs]. rewrite lookup_empty in Hm. split.
  - intros Hin. destruct (Hs Hin) as [cs Hcs]. rewrite Hcs in Hm |- *. rewrite decide_True in Hm by done.
    destruct (pkg channelName ns) as [[all|]| |]; [|done..]. injection Hm as ->. eexists all, _.
    split; [done|]. split; [done|]. split; [apply sublist_filter|]. intros c.
    rewrite list_elem_of_filter. unfold keep_config.
    destruct (static_name c) as [name|]; [|naive_solver]. rewrite bool_decide_eq_true. naive_solver.
  - intros Hout. rewrite decide_False in Hm by done. by rewrite Hm.
Qed.
