(* ===== verification/Endorser.v ===== *)
(** * Endorser: endorsing a proposal (core/endorser/endorser.go, chaincode.go, utils.go)

    [ProcessProposal] unpacks and checks a signed proposal, simulates it,
    asks the contract's shard for a dependency proof and endorses the result.
    What the endorser calls is the class [Support] (the interfaces [Support],
    [PrivateDataDistributor] and protobuf code) over a [Simulator]; the shard is
    seen through [Shards], by what the two channel operations give within the
    prepare timeout. The effects an endorser has on other parts of the peer are
    listed in order: [M A] is the list of them with the outcome. *)

From S2P Require Import Prelude GoText DepInfo Protos ShardTypes Shard LeaderEndorser Proposal ProtoUtil Interest.

(** ** Effects *)
Inductive effect :=
| EMetric (counter : string)
| EDistribute (channel tx : string) (height : Z)
| ESubmit (shard : string) (req : PrepareRequest)
| EAbort (shard tx : string).

Definition M (A : Type) : Type := (list effect * outcome A)%type.

#[global] Instance M_ret : MRet M := λ A a, ([], Ok a).
#[global] Instance M_bind : MBind M := λ A B f m,
  match m with
  | (w, Ok a) => let '(w', r) := f a in (w ++ w', r)
  | (w, Err e) => (w, Err e)
  | (w, Panic e) => (w, Panic e)
  end.

Definition lift {A} (o : outcome A) : M A := ([], o).
Definition tell (e : effect) : M unit := ([e], Ok ()).
Definition fail {A} (e : string) : M A := ([], Err e).

(** A failing call is counted and its error returned. *)
Definition counted {A} (counter : string) (o : outcome A) : M A :=
  match o with Err e => ([EMetric counter], Err e) | _ => ([], o) end.

(** ** What the endorser relies on *)
Class Simulator := {
  simulator : Type;
  sim_GetTxSimulationResults : simulator → outcome TxSimulationResults * simulator;
  sim_Done : simulator → simulator
}.

Record ChaincodeEndorsementInfo := mkChaincodeEndorsementInfo {
  cei_Version : string;
  cei_EndorsementPlugin : string
}.

(** The [ChaincodeSpec] of a deployment, with its id. *)
Record DeploymentChaincode := mkDeploymentChaincode {
  dc_ChaincodeId : option ChaincodeID;
  dc_Input : option ChaincodeInput
}.

Record ChaincodeDeploymentSpec := mkChaincodeDeploymentSpec {
  cds_ChaincodeSpec : option DeploymentChaincode;
  cds_CodePackage : bytes
}.

(** The parameters of one simulation. *)
Record TransactionParams `{Simulator} := mkTransactionParams {
  tp_ChannelID : string;
  tp_TxID : string;
  tp_SignedProp : SignedProposal;
  tp_Proposal : ProposalMsg;
  tp_TXSimulator : option simulator
}.

Definition set_TXSimulator `{Simulator} (tp : TransactionParams) (sim : option simulator) : TransactionParams :=
  mkTransactionParams _ (tp_ChannelID tp) (tp_TxID tp) (tp_SignedProp tp) (tp_Proposal tp) sim.

Class Support `{Simulator} := {
  event : Type;
  policy : Type;
  collection_config : Type;
  sup_GetTxSimulator : string → string → outcome simulator;
  sup_GetHistoryQueryExecutor : string → outcome unit;
  sup_GetTransactionByID : string → string → outcome unit;
  sup_IsSysCC : string → bool;
  sup_Execute : TransactionParams → string → ChaincodeInput
    → outcome (option Response * option event) * option simulator;
  sup_ExecuteLegacyInit : TransactionParams → string → string → option ChaincodeInput
    → outcome unit * option simulator;
  sup_ChaincodeEndorsementInfo : string → string → option simulator → outcome ChaincodeEndorsementInfo;
  sup_CheckACL : string → SignedProposal → outcome unit;
  sup_EndorseWithPlugin : string → string → bytes → SignedProposal → outcome (option bytes * bytes);
  sup_GetLedgerHeight : string → outcome Z;
  sup_DistributePrivateData : string → string
    → TxPvtReadWriteSetWithConfigInfo (Config := collection_config) → Z → outcome unit;
  sup_AllCollectionsConfigPkg : simulator → string → string → outcome (option (list collection_config));
  sup_static_name : collection_config → option string;
  unmarshal_SignaturePolicy : bytes → outcome policy;
  unmarshal_ChaincodeDeploymentSpec : bytes → outcome ChaincodeDeploymentSpec;
  marshal_event : event → outcome bytes;
  marshal_pub : option TxReadWriteSet → outcome bytes
}.

(** What became of a prepare request within the timeout. *)
Inductive shard_reply := SubmitTimeout | ProofTimeout | GotProof (p : PrepareProof).

Record Shards := mkShards {
  sh_GetOrCreateShard : string → outcome unit;
  sh_reply : string → PrepareRequest → shard_reply
}.

Definition shim_ERRORTHRESHOLD : Z := 400.
Definition shim_ERROR : Z := 500.

(** ** utils.go *)
Definition acquireTxSimulator (chainID chaincodeName : string) : bool :=
  negb (bool_decide (chainID = "")) && negb (bool_decide (chaincodeName ∈ ["qscc"; "cscc"])).

Section endorser.
Context `{MapOrder} `{Codec} `{ProposalCodec} `{TxCodec} `{Support}.

Definition CreateCCEventBytes (ccevent : option event) : outcome (option bytes) :=
  match ccevent with
  | None => Ok None
  | Some ev => b ← marshal_event ev; Ok (Some b)
  end.

Definition version_bytes (v : option Version) : string :=
  match v with
  | Some v => format_uint (ver_BlockNum v) +:+ "-" +:+ format_uint (ver_TxNum v)
  | None => ""
  end.

(** The keys of one read-write set under a prefix: every write with its value,
    every read that is not already there with its version. *)
Definition add_writes (prefix : string) (deps : gmap string gobytes) (ws : list KVWrite) : gmap string gobytes :=
  foldl (λ d w, <[prefix +:+ kvw_Key w := kvw_Value w]> d) deps ws.

Definition add_read (prefix : string) (deps : gmap string gobytes) (r : KVRead) : gmap string gobytes :=
  let key := prefix +:+ kvr_Key r in
  match deps !! key with
  | Some _ => deps
  | None => <[key := Some (version_bytes (kvr_Version r))]> deps
  end.

Definition add_rwset (prefix : string) (deps : gmap string gobytes) (rw : KVRWSet) : gmap string gobytes :=
  foldl (add_read prefix) (add_writes prefix deps (kv_Writes rw)) (kv_Reads rw).

Definition add_public (deps : gmap string gobytes) (n : NsReadWriteSet) : gmap string gobytes :=
  if sup_IsSysCC (ns_Namespace n) then deps
  else match unmarshal_KVRWSet (ns_Rwset n) with
       | None => deps
       | Some rw => add_rwset (ns_Namespace n +:+ ":") deps rw
       end.

Definition add_collection (ns : string) (deps : gmap string gobytes) (c : CollectionPvtReadWriteSet)
    : gmap string gobytes :=
  match unmarshal_KVRWSet (cpw_Rwset c) with
  | None => deps
  | Some rw => add_rwset (ns +:+ ":" +:+ cpw_CollectionName c +:+ ":") deps rw
  end.

Definition add_private (deps : gmap string gobytes) (n : NsPvtReadWriteSet) : gmap string gobytes :=
  if sup_IsSysCC (npw_Namespace n) then deps
  else foldl (add_collection (npw_Namespace n)) deps (npw_CollectionPvtRwset n).

Definition extractTransactionDependencies (simResult : TxSimulationResults) : gmap string gobytes :=
  let deps := foldl add_public ∅ (from_option txrw_NsRwset [] (sim_Pub simResult)) in
  foldl add_private deps (from_option tpw_NsPvtRwset [] (sim_Pvt simResult)).

(** ** chaincode.go *)
Definition is_deploy (chaincodeName : string) (args : list bytes) : bool :=
  bool_decide (chaincodeName = "lscc") && (3 <=? length args)%nat &&
  match args with a :: _ => bool_decide (a ∈ ["deploy"; "upgrade"]) | [] => false end.

(** The chaincode runs on the simulator of [tp]: what it leaves there is in the
    result. *)
Definition callChaincode (tp : TransactionParams) (input : ChaincodeInput) (chaincodeName : string)
    : M (Response * option event * TransactionParams) :=
  let '(r, sim) := sup_Execute tp chaincodeName input in
  let tp := set_TXSimulator tp sim in
  '(res, ccevent) ← counted "SimulationFailure" r;
  res ← lift (deref res);
  if (shim_ERRORTHRESHOLD <=? resp_Status res)%Z then mret (res, None, tp)
  else if negb (is_deploy chaincodeName (ci_Args input)) then mret (res, ccevent, tp)
  else
    cds ← counted "SimulationFailure" (unmarshal_ChaincodeDeploymentSpec (default "" (ci_Args input !! 2)));
    spec ← lift (deref (cds_ChaincodeSpec cds));
    id ← lift (deref (dc_ChaincodeId spec));
    if sup_IsSysCC (ccid_Name id) then
      counted "SimulationFailure"
        (Err ("attempting to deploy a system chaincode " +:+ ccid_Name id +:+ "/" +:+ tp_ChannelID tp))
    else if negb (bool_decide (cds_CodePackage cds = "")) then
      counted "SimulationFailure" (Err "lscc upgrade/deploy should not include a code packages")
    else
      let '(r, sim) := sup_ExecuteLegacyInit tp (ccid_Name id) (ccid_Version id) (dc_Input spec) in
      _ ← counted "InitFailed" r;
      mret (res, ccevent, set_TXSimulator tp sim).

(** The private part of a simulation is distributed to the collections' members. *)
Definition distribute (channelID txID chaincodeName : string) (s : simulator) (pvt : TxPvtReadWriteSet)
    : M simulator :=
  if bool_decide (chaincodeName = "lscc") then
    counted "SimulationFailure" (Err "Private data is forbidden to be used in instantiate")
  else
    let assembled := AssemblePvtRWSet sup_static_name (sup_AllCollectionsConfigPkg s) channelID pvt in
    let s := sim_Done s in
    data ← counted "SimulationFailure" (with_message "failed to obtain collections config" assembled);
    height ← counted "SimulationFailure"
      (with_message ("failed to obtain ledger height for channel '" +:+ channelID +:+ "'")
         (sup_GetLedgerHeight channelID));
    let data := mkTxPvtReadWriteSetWithConfigInfo (tpc_PvtRwset data) (tpc_CollectionConfigs data) height in
    _ ← tell (EDistribute channelID txID height);
    _ ← counted "SimulationFailure" (sup_DistributePrivateData channelID txID data height);
    mret s.

(** The simulator is released when the function returns. *)
Definition simulateProposal (tp : TransactionParams) (chaincodeName : string) (input : ChaincodeInput)
    : M (Response * option bytes * option event * option (list (ChaincodeCall (Policy := policy)))
         * TransactionParams) :=
  '(res, ccevent, tp) ← callChaincode tp input chaincodeName;
  match tp_TXSimulator tp with
  | None => mret (res, None, ccevent, None, tp)
  | Some s =>
      let '(r, s) := sim_GetTxSimulationResults s in
      simResult ← counted "SimulationFailure" r;
      s ← match sim_Pvt simResult with
          | None => mret s
          | Some pvt => distribute (tp_ChannelID tp) (tp_TxID tp) chaincodeName s pvt
          end;
      ccInterest ← lift (buildChaincodeInterest unmarshal_SignaturePolicy sup_IsSysCC simResult);
      pubSimResBytes ← counted "SimulationFailure" (marshal_pub (sim_Pub simResult));
      mret (res, Some pubSimResBytes, ccevent, Some ccInterest, set_TXSimulator tp (Some (sim_Done s)))
  end.

(** ** endorser.go *)

(** The [ProposalResponse] the endorser returns. *)
Record EndorserResponse := mkEndorserResponse {
  er_Version : Z;
  er_Response : Response;
  er_Payload : option bytes;
  er_Endorsement : option bytes;
  er_Interest : option (list (ChaincodeCall (Policy := policy)))
}.

Definition plain_response (res : Response) : EndorserResponse := mkEndorserResponse 0 res None None None.

(** The signature of a proof is recomputed from its fields. *)
Definition verifyProof (proof : option PrepareProof) : bool :=
  match proof with
  | None => false
  | Some proof =>
      negb (bool_decide (pf_TxID proof = "") || bool_decide (pf_ShardID proof = "")) &&
      bool_decide (pf_Signature proof =
        pf_ShardID proof +:+ ":" +:+ format_uint (pf_CommitIndex proof) +:+ ":" +:+ pf_TxID proof)
  end.

(** All dependencies go to the write set. *)
Definition prepare_request (up : UnpackedProposal) (dependencies : gmap string gobytes) (now : Z)
    : PrepareRequest :=
  mkPrepareRequest (up_TxID up) (up_ChaincodeName up) (Some ∅) (Some dependencies) now.

(** Submitting the request and waiting for the proof. *)
Definition ask_shard (shards : Shards) (req : PrepareRequest) : M PrepareProof :=
  let shard := req_ShardID req in
  _ ← lift (with_message "failed to get shard for contract" (sh_GetOrCreateShard shards shard));
  match sh_reply shards shard req with
  | SubmitTimeout => fail "timeout submitting to shard"
  | ProofTimeout =>
      _ ← tell (ESubmit shard req);
      _ ← tell (EAbort shard (req_TxID req));
      fail "timeout waiting for dependency resolution from shard"
  | GotProof proof =>
      _ ← tell (ESubmit shard req);
      if verifyProof (Some proof) then mret proof
      else
        _ ← tell (EAbort shard (req_TxID req));
        fail "invalid proof from shard"
  end.

(** The simulator for the proposal, if it is to have one. *)
Definition acquire (up : UnpackedProposal) : outcome (option simulator) :=
  if acquireTxSimulator (up_ChannelID up) (up_ChaincodeName up) then
    txSim ← sup_GetTxSimulator (up_ChannelID up) (up_TxID up);
    _ ← sup_GetHistoryQueryExecutor (up_ChannelID up);
    Ok (Some txSim)
  else Ok None.

(** The part after the shard has answered: payload, endorsement and message. *)
Definition endorse (up : UnpackedProposal) (cd : ChaincodeEndorsementInfo) (res : Response)
    (simulationResult : option bytes) (ccevent : option event)
    (ccInterest : option (list (ChaincodeCall (Policy := policy)))) (proof : PrepareProof)
    : M EndorserResponse :=
  let hasDependency := (1 <? pf_CommitIndex proof)%Z in
  let dependentTxID := "" in
  cceventBytes ← lift (with_message "failed to marshal chaincode event" (CreateCCEventBytes ccevent));
  prpBytes ← lift (with_message "failed to create the proposal response"
    (GetBytesProposalResponsePayload (up_ProposalHash up) res simulationResult cceventBytes
       (mkChaincodeID (up_ChaincodeName up) (cei_Version cd))));
  if (shim_ERROR <=? resp_Status res)%Z then
    mret (mkEndorserResponse 0 res (Some prpBytes) None ccInterest)
  else if bool_decide (up_ChannelID up = "") then mret (plain_response res)
  else if (shim_ERRORTHRESHOLD <=? resp_Status res)%Z then
    _ ← tell (EMetric "EndorsementsFailed");
    mret (plain_response res)
  else
    '(endorsement, mPrpBytes) ← counted "EndorsementsFailed" (with_message "endorsing with plugin failed"
      (sup_EndorseWithPlugin (cei_EndorsementPlugin cd) (up_ChannelID up) prpBytes (up_SignedProposal up)));
    let message := endorser_message (resp_Message res) hasDependency dependentTxID
                     (pf_CommitIndex proof) (pf_Term proof) in
    mret (mkEndorserResponse 1 (mkResponse (resp_Status res) message (resp_Payload res))
            (Some mPrpBytes) endorsement ccInterest).

(** A nil simulator is a nil interface: calling it panics. *)
Definition second_results (sim : option simulator) : outcome TxSimulationResults :=
  match sim with
  | None => Panic "invalid memory address or nil pointer dereference"
  | Some s => (sim_GetTxSimulationResults s).1
  end.

Definition ProcessProposalSuccessfullyOrError (shards : Shards) (now : Z) (up : UnpackedProposal)
    : M EndorserResponse :=
  sim ← lift (acquire up);
  let tp := mkTransactionParams _ (up_ChannelID up) (up_TxID up) (up_SignedProposal up) (up_Proposal up) sim in
  cdLedger ← lift (with_message ("make sure the chaincode " +:+ up_ChaincodeName up
                                 +:+ " has been successfully defined on channel " +:+ up_ChannelID up
                                 +:+ " and try again")
    (sup_ChaincodeEndorsementInfo (up_ChannelID up) (up_ChaincodeName up) sim));
  '(res, simulationResult, ccevent, ccInterest, tp) ←
    match simulateProposal tp (up_ChaincodeName up) (up_Input up) with
    | (w, r) => (w, with_message "error in simulation" r)
    end;
  if (shim_ERROR <=? resp_Status res)%Z then mret (plain_response res)
  else
    simResults ← lift (with_message "error getting simulation results" (second_results (tp_TXSimulator tp)));
    let dependencies := extractTransactionDependencies simResults in
    proof ← ask_shard shards (prepare_request up dependencies now);
    endorse up cdLedger res simulationResult ccevent ccInterest proof.

Definition preProcess (deserialize : bytes → option Identity) (up : UnpackedProposal) : M unit :=
  _ ← counted "ProposalValidationFailed" (with_message "error validating proposal" (Validate deserialize up));
  if bool_decide (up_ChannelID up = "") then mret ()
  else
    match sup_GetTransactionByID (up_ChannelID up) (up_TxID up) with
    | Ok _ => ([EMetric "DuplicateTxsFailure"],
               Err ("duplicate transaction found [" +:+ up_TxID up +:+ "]. Creator ["
                    +:+ hex_encode (sh_Creator (up_SignatureHeader up)) +:+ "]"))
    | Panic e => ([], Panic e)
    | Err _ =>
        if sup_IsSysCC (up_ChaincodeName up) then mret ()
        else counted "ProposalACLCheckFailed" (sup_CheckACL (up_ChannelID up) (up_SignedProposal up))
    end.

Definition error_response (msg : string) : EndorserResponse := plain_response (mkResponse 500 msg "").

(** The response and the gRPC error, if any. [channels] gives the identity
    deserializer of a channel, [localMSP] the peer's own. *)
Definition ProcessProposal (shards : Shards) (channels : string → option (bytes → option Identity))
    (localMSP : bytes → option Identity) (now : Z) (signedProp : SignedProposal)
    : list effect * outcome (EndorserResponse * option string) :=
  _ ← tell (EMetric "ProposalsReceived");
  match UnpackProposal signedProp with
  | Panic e => ([], Panic e)
  | Err e => ([EMetric "ProposalValidationFailed"], Ok (error_response e, Some e))
  | Ok up =>
      match (if bool_decide (up_ChannelID up = "") then Some localMSP else channels (up_ChannelID up)) with
      | None => mret (error_response ("channel '" +:+ up_ChannelID up +:+ "' not found"), None)
      | Some deserialize =>
          match preProcess deserialize up with
          | (w, Err e) => (w, Ok (error_response e, Some e))
          | (w, Panic e) => (w, Panic e)
          | (w, Ok _) =>
              let '(w', r) :=
                match ProcessProposalSuccessfullyOrError shards now up with
                | (w', Err e) => (w' ++ [EMetric "ProposalDuration"], Ok (error_response e, None))
                | (w', Panic e) => (w' ++ [EMetric "ProposalDuration"], Panic e)
                | (w', Ok pResp) =>
                    (w' ++ (if bool_decide (is_Some (er_Endorsement pResp)) || bool_decide (up_ChannelID up = "")
                            then [EMetric "SuccessfulProposals"] else []) ++ [EMetric "ProposalDuration"],
                     Ok (pResp, None))
                end in
              (w ++ w', r)
          end
      end
  end.
End endorser.
