(* ===== verification/PluginEndorser.v ===== *)
(** * PluginEndorser: endorsement plugins by name and channel (core/endorser/plugin_endorser.go)

    A plugin is created by its factory the first time a channel needs it,
    initialised with the channel's state and the peer's signing identity, and
    kept. Factories, plugins and the stores are parameters. The lock protocol
    around the map of channels is that of Registry; here the calls run one
    after the other. *)

From S2P Require Import Prelude GoText Protos Proposal Interest Endorser Registry.

Section plugins.
Context {Factory Plugin Query Store Signer : Type}.

(** What a plugin is initialised with. *)
Inductive Dependency := DepChannelState (query : Query) (store : Store) | DepSigner (s : Signer).

(** [PluginSupport] and the plugin API: [New] may give a different instance
    each time it is called, so it is told how many were made before. *)
Record PluginSupport := mkPluginSupport {
  ps_PluginFactoryByName : string → option Factory;
  ps_New : Factory → nat → Plugin;
  ps_Init : Plugin → list Dependency → outcome Plugin;
  ps_NewQueryCreator : string → outcome Query;
  ps_StoreForChannel : string → option Store;
  ps_Signer : Signer;
  ps_Endorse : Plugin → bytes → SignedProposal → outcome (option bytes * bytes)
}.

Record pluginsByChannel := mkPluginsByChannel {
  pbc_pluginFactory : Factory;
  pbc_channels2Plugins : gmap string Plugin
}.

Record PluginEndorser := mkPluginEndorser {
  pe_made : nat;                                        (* instances the factories have made *)
  pe_pluginChannelMapping : gmap string pluginsByChannel
}.

Context (ps : PluginSupport).

Definition NewPluginEndorser : PluginEndorser := mkPluginEndorser 0 ∅.

Definition init_dependencies (channel : string) : outcome (list Dependency) :=
  if bool_decide (channel = "") then Ok [DepSigner (ps_Signer ps)]
  else
    query ← with_message "failed obtaining channel state" (ps_NewQueryCreator ps channel);
    match ps_StoreForChannel ps channel with
    | None => Err ("transient store for channel " +:+ channel +:+ " was not initialized")
    | Some store => Ok [DepChannelState query store; DepSigner (ps_Signer ps)]
    end.

Definition initPlugin (plugin : Plugin) (channel : string) : outcome Plugin :=
  dependencies ← init_dependencies channel;
  ps_Init ps plugin dependencies.

(** The result, the number of instances made and the new map of channels. *)
Definition createPluginIfAbsent (made : nat) (pbc : pluginsByChannel) (channel : string)
    : outcome Plugin * nat * pluginsByChannel :=
  match pbc_channels2Plugins pbc !! channel with
  | Some plugin => (Ok plugin, made, pbc)
  | None =>
      let pluginInstance := ps_New ps (pbc_pluginFactory pbc) made in
      match initPlugin pluginInstance channel with
      | Ok plugin =>
          (Ok plugin, S made,
           mkPluginsByChannel (pbc_pluginFactory pbc) (<[channel := plugin]> (pbc_channels2Plugins pbc)))
      | r => (r, S made, pbc)
      end
  end.

Definition getOrCreatePluginChannelMapping (pe : PluginEndorser) (plugin : string) (pf : Factory)
    : pluginsByChannel :=
  match pe_pluginChannelMapping pe !! plugin with
  | Some pbc => pbc
  | None => mkPluginsByChannel pf ∅
  end.

Definition getOrCreatePlugin (pe : PluginEndorser) (plugin channel : string) : outcome Plugin * PluginEndorser :=
  match ps_PluginFactoryByName ps plugin with
  | None => (Err ("plugin with name " +:+ plugin +:+ " wasn't found"), pe)
  | Some pf =>
      let pbc := getOrCreatePluginChannelMapping pe plugin pf in
      let '(r, made, pbc') := createPluginIfAbsent (pe_made pe) pbc channel in
      (r, mkPluginEndorser made (<[plugin := pbc']> (pe_pluginChannelMapping pe)))
  end.

Definition EndorseWithPlugin (pe : PluginEndorser) (pluginName channelID : string) (prpBytes : bytes)
    (signedProposal : SignedProposal) : outcome (option bytes * bytes) * PluginEndorser :=
  let '(r, pe') := getOrCreatePlugin pe pluginName channelID in
  match with_message ("plugin with name " +:+ pluginName +:+ " could not be used") r with
  | Ok plugin => (ps_Endorse ps plugin prpBytes signedProposal, pe')
  | Err e => (Err e, pe')
  | Panic e => (Panic e, pe')
  end.

(** ** The plugins kept *)
Definition plugin_at (pe : PluginEndorser) (name channel : string) : option Plugin :=
  pe_pluginChannelMapping pe !! name ≫= λ pbc, pbc_channels2Plugins pbc !! channel.

(** Every plugin kept came from the factory of its name and was initialised for
    its channel. *)
Definition plugins_ok (pe : PluginEndorser) : Prop :=
  ∀ name pbc, pe_pluginChannelMapping pe !! name = Some pbc →
    ps_PluginFactoryByName ps name = Some (pbc_pluginFactory pbc) ∧
    ∀ channel p, pbc_channels2Plugins pbc !! channel = Some p →
      ∃ n, initPlugin (ps_New ps (pbc_pluginFactory pbc) n) channel = Ok p.

Lemma plugins_ok_new : plugins_ok NewPluginEndorser.
Proof. intros name pbc Hn. cbn in Hn. by rewrite lookup_empty in Hn. Qed.

Lemma createPluginIfAbsent_cases made pbc channel r made' pbc' :
  createPluginIfAbsent made pbc channel = (r, made', pbc') →
  (∃ p, pbc_channels2Plugins pbc !! channel = Some p ∧ r = Ok p ∧ made' = made ∧ pbc' = pbc) ∨
  (pbc_channels2Plugins pbc !! channel = None ∧ made' = S made ∧
   r = initPlugin (ps_New ps (pbc_pluginFactory pbc) made) channel ∧
   ((∃ p, r = Ok p ∧ pbc' = mkPluginsByChannel (pbc_pluginFactory pbc)
                             (<[channel := p]> (pbc_channels2Plugins pbc))) ∨
    (∀ p, r ≠ Ok p) ∧ pbc' = pbc)).
Proof.
  unfold createPluginIfAbsent. destruct (_ !! channel) as [p|]; [intros [= <- <- <-]; eauto 10|].
  destruct (initPlugin _ _); intros [= <- <- <-]; right; split_and!; eauto.
Qed.

Lemma getOrCreatePlugin_ok pe name channel r pe' :
  plugins_ok pe → getOrCreatePlugin pe name channel = (r, pe') → plugins_ok pe'.
Proof.
  intros Hok. unfold getOrCreatePlugin. destruct (ps_PluginFactoryByName ps name) as [pf|] eqn:Ef;
    [|by intros [= <- <-]].
  set (pbc := getOrCreatePluginChannelMapping pe name pf).
  assert (ps_PluginFactoryByName ps name = Some (pbc_pluginFactory pbc) ∧
    ∀ c p, pbc_channels2Plugins pbc !! c = Some p →
      ∃ n, initPlugin (ps_New ps (pbc_pluginFactory pbc) n) c = Ok p) as [Hf Hp].
  { unfold pbc, getOrCreatePluginChannelMapping.
    destruct (pe_pluginChannelMapping pe !! name) as [pbc0|] eqn:E; [by apply (Hok name)|].
    split; [done|]. cbn. intros c p. by rewrite lookup_empty. }
  destruct (createPluginIfAbsent _ pbc channel) as [[r0 made'] pbc'] eqn:Ec. intros [= <- <-].
  intros name' pbc2. cbn. rewrite lookup_insert_Some. intros [[<- <-]|[_ ?]]; [|by apply (Hok name')].
  apply createPluginIfAbsent_cases in Ec as
    [(p & _ & _ & _ & ->)|(_ & _ & Hr & [(p & Hrp & ->)|[_ ->]])]; [done| |done].
  split; [done|]. cbn. intros c p'. rewrite lookup_insert_Some.
  intros [[<- <-]|[_ ?]]; [|by apply Hp]. exists (pe_made pe). congruence.
Qed.

(** A run of calls. *)
Fixpoint endorse_all (pe : PluginEndorser) (calls : list (string * string * bytes * SignedProposal))
    : list (outcome (option bytes * bytes)) * PluginEndorser :=
  match calls with
  | [] => ([], pe)
  | (name, channel, prp, sp) :: rest =>
      let '(r, pe') := EndorseWithPlugin pe name channel prp sp in
      let '(rs, pe'') := endorse_all pe' rest in
      (r :: rs, pe'')
  end.

Lemma EndorseWithPlugin_state pe name channel prp sp :
  (EndorseWithPlugin pe name channel prp sp).2 = (getOrCreatePlugin pe name channel).2.
Proof.
  unfold EndorseWithPlugin. destruct (getOrCreatePlugin _ _ _) as [r pe'].
  by destruct (with_message _ r).
Qed.

Lemma endorse_all_ok pe calls rs pe' :
  plugins_ok pe → endorse_all pe calls = (rs, pe') → plugins_ok pe'.
Proof.
  revert pe rs. induction calls as [|[[[name channel] prp] sp] rest IH]; intros pe rs Hok; cbn;
    [by intros [= <- <-]|].
  destruct (EndorseWithPlugin _ _ _ _ _) as [r pe1] eqn:E1.
  destruct (endorse_all pe1 rest) as [rs1 pe2] eqn:E2. intros [= <- <-]. eapply IH; [|done].
  pose proof (EndorseWithPlugin_state pe name channel prp sp) as Hst. rewrite E1 in Hst. cbn in Hst.
  eapply getOrCreatePlugin_ok; [done|]. rewrite Hst. apply surjective_pairing.
Qed.

(** After a successful creation the plugin stays. *)
Lemma getOrCreatePlugin_keeps pe name channel name' channel' p :
  plugin_at pe name channel = Some p →
  plugin_at (getOrCreatePlugin pe name' channel').2 name channel = Some p.
Proof.
  unfold plugin_at. intros Hp. apply bind_Some in Hp as (pbc & Hn & Hp).
  unfold getOrCreatePlugin. destruct (ps_PluginFactoryByName ps name') as [pf|]; [|cbn; by rewrite Hn].
  destruct (createPluginIfAbsent _ _ channel') as [[r made'] pbc'] eqn:Ec. cbn.
  destruct (decide (name' = name)) as [->|Hne]; [|by rewrite lookup_insert_ne, Hn].
  rewrite lookup_insert_eq. cbn. unfold getOrCreatePluginChannelMapping in Ec. rewrite Hn in Ec.
  apply createPluginIfAbsent_cases in Ec as
    [(q & _ & _ & _ & ->)|(Hnone & _ & _ & [(q & _ & ->)|[_ ->]])]; [done| |done].
  cbn. rewrite lookup_insert_ne; [done|]. congruence.
Qed.

Lemma endorse_all_keeps calls pe rs pe' name channel p :
  plugin_at pe name channel = Some p → endorse_all pe calls = (rs, pe') →
  plugin_at pe' name channel = Some p.
Proof.
  revert pe rs. induction calls as [|[[[n c] prp] sp] rest IH]; intros pe rs Hp; cbn; [by intros [= <- <-]|].
  destruct (EndorseWithPlugin _ _ _ _ _) as [r pe1] eqn:E1.
  destruct (endorse_all pe1 rest) as [rs1 pe2] eqn:E2. intros [= <- <-]. eapply IH; [|done].
  pose proof (EndorseWithPlugin_state pe n c prp sp) as Hst. rewrite E1 in Hst. cbn in Hst. subst pe1.
  by apply getOrCreatePlugin_keeps.
Qed.

Lemma getOrCreatePlugin_stored pe name channel p pe' :
  getOrCreatePlugin pe name channel = (Ok p, pe') → plugin_at pe' name channel = Some p.
Proof.
  unfold getOrCreatePlugin. destruct (ps_PluginFactoryByName ps name) as [pf|]; [|done].
  destruct (createPluginIfAbsent _ _ channel) as [[r made'] pbc'] eqn:Ec. intros [= -> <-].
  unfold plugin_at. cbn. rewrite lookup_insert_eq. cbn.
  apply createPluginIfAbsent_cases in Ec as
    [(q & Hq & [= <-] & _ & ->)|(_ & _ & _ & [(q & [= <-] & ->)|[Hno _]])];
    [done| |by destruct (Hno p)].
  cbn. by rewrite lookup_insert_eq.
Qed.

Lemma EndorseWithPlugin_kept pe name channel p prp sp :
  plugins_ok pe → plugin_at pe name channel = Some p →
  (EndorseWithPlugin pe name channel prp sp).1 = ps_Endorse ps p prp sp.
Proof.
  intros Hok (pbc & Hn & Hp)%bind_Some. destruct (Hok name pbc Hn) as [Hf _].
  unfold EndorseWithPlugin, getOrCreatePlugin, getOrCreatePluginChannelMapping, createPluginIfAbsent.
  by rewrite Hf, Hn, Hp.
Qed.
End plugins.

(** Endorsing with a plugin. However many calls came before, a call for a
    plugin and channel is answered by an instance of that plugin's factory
    initialised with that channel's dependencies, and by the same instance as
    long as the peer runs; a plugin that failed to initialise is not kept. *)
Theorem EndorseWithPlugin_spec {Factory Plugin Query Store Signer : Type}
    (ps : @PluginSupport Factory Plugin Query Store Signer) calls rs pe name channel prp sp e payload :
  endorse_all ps NewPluginEndorser calls = (rs, pe) →
  (EndorseWithPlugin ps pe name channel prp sp).1 = Ok (e, payload) →
  ∃ f n p, ps_PluginFactoryByName ps name = Some f ∧ initPlugin ps (ps_New ps f n) channel = Ok p ∧
    ps_Endorse ps p prp sp = Ok (e, payload) ∧
    ∀ calls' rs' pe', endorse_all ps (EndorseWithPlugin ps pe name channel prp sp).2 calls' = (rs', pe') →
      plugin_at pe' name channel = Some p ∧
      ∀ prp' sp', (EndorseWithPlugin ps pe' name channel prp' sp').1 = ps_Endorse ps p prp' sp'.
Proof.
  intros Hcalls He. pose proof (endorse_all_ok ps _ _ _ _ (plugins_ok_new ps) Hcalls) as Hok.
  pose proof (EndorseWithPlugin_state ps pe name channel prp sp) as Hst.
  destruct (getOrCreatePlugin ps pe name channel) as [r pe1] eqn:Eg. cbn in Hst. rewrite Hst.
  unfold EndorseWithPlugin in He. rewrite Eg in He. destruct r as [p|e'|e']; [|done..]. cbn in He.
  pose proof (getOrCreatePlugin_ok ps _ _ _ _ _ Hok Eg) as Hok1.
  pose proof (getOrCreatePlugin_stored ps _ _ _ _ _ Eg) as Hat.
  destruct (proj1 (bind_Some _ _ _) Hat) as (pbc & Hn & Hp).
  destruct (Hok1 _ _ Hn) as [Hf Hinit]. destruct (Hinit _ _ Hp) as [n Hi].
  exists (pbc_pluginFactory pbc), n, p. split_and!; [done..|]. intros calls' rs' pe' Hcalls'.
  pose proof (endorse_all_keeps ps _ _ _ _ _ _ _ Hat Hcalls') as Hat'. split; [done|].
  intros. apply EndorseWithPlugin_kept; [|done]. by eapply endorse_all_ok.
Qed.

(** ** Witness: instances are numbered, and the second fails to initialise *)
Definition toy_plugins : @PluginSupport unit nat unit unit unit :=
  mkPluginSupport
    (λ name, if bool_decide (name = "escc") then Some () else None)
    (λ _ n, n)
    (λ p deps, if bool_decide (p = 1) then Err "not ready" else Ok p)
    (λ _, Ok ()) (λ _, Some ()) ()
    (λ p prp _, Ok (Some (format_uint (Z.of_nat p)), prp)).

Definition toy_signed : SignedProposal := mkSignedProposal None None.

(** A call that fails, one that succeeds, and one on another channel. *)
Definition toy_calls : list (string * string * bytes * SignedProposal) :=
  [("escc", "c1", "x", toy_signed); ("escc", "c2", "x", toy_signed); ("escc", "c2", "x", toy_signed)].

Lemma EndorseWithPlugin_spec_witness :
  ∃ p, ∀ calls' rs' pe',
    endorse_all toy_plugins
      (EndorseWithPlugin toy_plugins (endorse_all toy_plugins NewPluginEndorser toy_calls).2
         "escc" "c2" "y" toy_signed).2 calls' = (rs', pe') →
    plugin_at pe' "escc" "c2" = Some p ∧
    ∀ prp' sp', (EndorseWithPlugin toy_plugins pe' "escc" "c2" prp' sp').1
                = ps_Endorse toy_plugins p prp' sp'.
Proof.
  destruct (EndorseWithPlugin_spec toy_plugins toy_calls
    (endorse_all toy_plugins NewPluginEndorser toy_calls).1
    (endorse_all toy_plugins NewPluginEndorser toy_calls).2 "escc" "c2" "y" toy_signed (Some "2") "y")
    as (f & n & p & _ & _ & _ & Hp).
  - vm_compute. reflexivity.
  - vm_compute. reflexivity.
  - exists p. exact Hp.
Defined.
