(* ===== verification/EndorserSpec.v ===== *)
(** * EndorserSpec: what the endorser promises

    Inversion lemmas for the effect monad, the endorser's protocol with the
    shards, what an endorsement covers and what the ledger's simulator makes of
    it. *)

From S2P Require Import Prelude GoText DepInfo Protos ShardTypes Shard LeaderEndorser Proposal ProtoUtil Interest Endorser.

(** ** The effect monad *)
Lemma M_bind_Ok {A B} (m : M A) (f : A → M B) w b :
  m ≫= f = (w, Ok b) → ∃ w1 a w2, m = (w1, Ok a) ∧ f a = (w2, Ok b) ∧ w = w1 ++ w2.
Proof.
  destruct m as [w1 [a|e|e]]; unfold mbind, M_bind; [|done|done].
  destruct (f a) as [w2 r] eqn:E. intros [= <- ->]. eauto 10.
Qed.

Lemma lift_Ok {A} (o : outcome A) w a : lift o = (w, Ok a) → o = Ok a ∧ w = [].
Proof. unfold lift. by intros [= <- ->]. Qed.

Lemma counted_Ok {A} c (o : outcome A) w a : counted c o = (w, Ok a) → o = Ok a ∧ w = [].
Proof. destruct o; cbn; intros [= <- ?]; by subst. Qed.

Lemma pair_message_Ok {A} msg (m : M A) w a :
  (match m with (w, r) => (w, with_message msg r) end) = (w, Ok a) → m = (w, Ok a).
Proof. destruct m as [w' r]. intros [= -> ?]. f_equal. by eapply with_message_Ok. Qed.

Lemma mret_Ok {A} (a b : A) w : (mret a : M A) = (w, Ok b) → a = b ∧ w = [].
Proof. unfold mret, M_ret. by intros [= <- ->]. Qed.

Ltac minv H :=
  repeat first
    [ apply M_bind_Ok in H; let w := fresh "w" in let a := fresh "a" in let w' := fresh "w" in
      let E := fresh "E" in destruct H as (w & a & w' & E & H & ->);
      repeat first [ apply lift_Ok in E as [E ->] | apply counted_Ok in E as [E ->]
                   | apply with_message_Ok in E ]
    | match type of H with (match ?p with (_, _) => _ end) = _ => is_var p; destruct p end ].

(** Effects on shards. *)
Definition to_shard (e : effect) : bool :=
  match e with ESubmit _ _ | EAbort _ _ => true | _ => false end.
Definition shard_effects (w : list effect) : list effect := filter (λ e, to_shard e = true) w.

Definition quiet {A} (m : M A) : Prop := shard_effects m.1 = [].

Lemma shard_effects_app w w' : shard_effects (w ++ w') = shard_effects w ++ shard_effects w'.
Proof. apply filter_app. Qed.

Lemma shard_effects_submit c req w : shard_effects (ESubmit c req :: w) = ESubmit c req :: shard_effects w.
Proof. done. Qed.

Lemma quiet_bind {A B} (m : M A) (f : A → M B) : quiet m → (∀ a, quiet (f a)) → quiet (m ≫= f).
Proof.
  unfold quiet, mbind, M_bind. destruct m as [w [a|e|e]]; cbn [fst]; [|done|done].
  intros Hm Hf. specialize (Hf a). destruct (f a) as [w' r]. cbn [fst] in *.
  by rewrite shard_effects_app, Hm, Hf.
Qed.

Lemma quiet_lift {A} (o : outcome A) : quiet (lift o).
Proof. done. Qed.
Lemma quiet_ret {A} (a : A) : quiet (mret a : M A).
Proof. done. Qed.
Lemma quiet_counted {A} c (o : outcome A) : quiet (counted c o).
Proof. by destruct o. Qed.
Lemma quiet_metric c : quiet (tell (EMetric c)).
Proof. done. Qed.
Lemma quiet_message {A} msg (m : M A) :
  quiet m → quiet (match m with (w, r) => (w, with_message msg r) end).
Proof. by destruct m. Qed.

Create HintDb quiet.
#[export] Hint Resolve quiet_lift quiet_ret quiet_counted quiet_metric quiet_message : quiet.

Ltac quiet_tac :=
  repeat first
    [ solve [eauto with quiet]
    | apply quiet_bind
    | progress intros
    | match goal with
      | |- quiet (match ?x with _ => _ end) => destruct x
      | |- quiet (if ?x then _ else _) => destruct x
      | |- quiet (let '_ := ?x in _) => destruct x
      end
    | done ].

Section spec.
Context `{MapOrder} `{Codec} `{ProposalCodec} `{TxCodec} `{Support}.

Lemma quiet_callChaincode tp input name : quiet (callChaincode tp input name).
Proof.
  unfold callChaincode. quiet_tac.
Qed.

Lemma quiet_distribute c tx name s pvt : quiet (distribute c tx name s pvt).
Proof. unfold distribute. quiet_tac. Qed.

Lemma quiet_simulateProposal tp name input : quiet (simulateProposal tp name input).
Proof.
  unfold simulateProposal. apply quiet_bind; [apply quiet_callChaincode|].
  intros [[res ev] tp']. destruct (tp_TXSimulator tp') as [s|]; [|done].
  destruct (sim_GetTxSimulationResults s) as [r s']. apply quiet_bind; [apply quiet_counted|].
  intros sr. apply quiet_bind; [|quiet_tac].
  destruct (sim_Pvt sr); [apply quiet_distribute|done].
Qed.

Lemma quiet_endorse up cd res sr ev ci proof : quiet (endorse up cd res sr ev ci proof).
Proof. unfold endorse. quiet_tac. Qed.

(** ** A run of the endorsement *)
Definition params (up : UnpackedProposal) (sim : option simulator) : TransactionParams :=
  mkTransactionParams _ (up_ChannelID up) (up_TxID up) (up_SignedProposal up) (up_Proposal up) sim.

(** The part before the shard is asked. *)
Record simulation := mkSimulation {
  sn_info : ChaincodeEndorsementInfo;
  sn_response : Response;
  sn_public : option bytes;
  sn_event : option event;
  sn_interest : option (list (ChaincodeCall (Policy := policy)));
  sn_params : TransactionParams
}.

Definition simulated (up : UnpackedProposal) (s : simulation) : Prop :=
  ∃ sim w, acquire up = Ok sim ∧
    sup_ChaincodeEndorsementInfo (up_ChannelID up) (up_ChaincodeName up) sim = Ok (sn_info s) ∧
    simulateProposal (params up sim) (up_ChaincodeName up) (up_Input up)
    = (w, Ok (sn_response s, sn_public s, sn_event s, sn_interest s, sn_params s)).

Lemma simulated_unique up s s' : simulated up s → simulated up s' → s = s'.
Proof.
  intros (sim & w & Ha & Hc & Hs) (sim' & w' & Ha' & Hc' & Hs').
  destruct s, s'; cbn in *. congruence.
Qed.

Lemma M_bind_split {A B} (m : M A) (f : A → M B) w o :
  quiet m → m ≫= f = (w, o) →
  (shard_effects w = [] ∧ ∀ r, o ≠ Ok r) ∨
  ∃ w1 a w2, m = (w1, Ok a) ∧ shard_effects w1 = [] ∧ f a = (w2, o) ∧ w = w1 ++ w2.
Proof.
  unfold quiet, mbind, M_bind. destruct m as [w1 [a|e|e]]; cbn [fst]; intros Hq.
  - destruct (f a) as [w2 r] eqn:E. intros [= <- <-]. right. eauto 10.
  - intros [= <- <-]. by left.
  - intros [= <- <-]. by left.
Qed.

Definition rest_of_run (shards : Shards) (now : Z) (up : UnpackedProposal) (s : simulation)
    (results : TxSimulationResults) : M EndorserResponse :=
  proof ← ask_shard shards (prepare_request up (extractTransactionDependencies results) now);
  endorse up (sn_info s) (sn_response s) (sn_public s) (sn_event s) (sn_interest s) proof.

Lemma run_cases shards now up w o :
  ProcessProposalSuccessfullyOrError shards now up = (w, o) →
  (shard_effects w = [] ∧ ∀ r, o ≠ Ok r) ∨
  ∃ s, simulated up s ∧
    ((shim_ERROR ≤ resp_Status (sn_response s))%Z ∧ shard_effects w = [] ∧
       o = Ok (plain_response (sn_response s)) ∨
     (resp_Status (sn_response s) < shim_ERROR)%Z ∧
     ∃ results w0 w1, second_results (tp_TXSimulator (sn_params s)) = Ok results ∧ shard_effects w0 = [] ∧
       rest_of_run shards now up s results = (w1, o) ∧ w = w0 ++ w1).
Proof.
  unfold ProcessProposalSuccessfullyOrError. intros Hrun.
  apply M_bind_split in Hrun as [?|(w1 & sim & w2 & Ha & Hq1 & Hrun & ->)]; [by left| |done].
  apply lift_Ok in Ha as [Ha ->].
  apply M_bind_split in Hrun as [?|(w1 & cd & w3 & Hc & Hq2 & Hrun & ->)]; [by left| |done].
  apply lift_Ok in Hc as [Hc%with_message_Ok ->].
  apply M_bind_split in Hrun as [?|(w1 & [[[[res sr] ev] ci] tp] & w4 & Hs & Hq3 & Hrun & ->)];
    [by left| |apply quiet_message, quiet_simulateProposal].
  apply pair_message_Ok in Hs. rewrite !app_nil_l.
  assert (simulated up (mkSimulation cd res sr ev ci tp)) as Hsim by (exists sim, w1; auto).
  destruct (Z.leb_spec shim_ERROR (resp_Status res)).
  - right. eexists; split; [exact Hsim|]. left. cbn.
    injection Hrun as <- <-. by rewrite app_nil_r.
  - apply M_bind_split in Hrun as [[? ?]|(w5 & results & w6 & Hr & Hq4 & Hrun & ->)]; [| |done].
    { left. by rewrite shard_effects_app, Hq3. }
    apply lift_Ok in Hr as [Hr%with_message_Ok ->].
    right. eexists; split; [exact Hsim|]. right. split; [done|]. exists results, w1, w6. auto.
Qed.

Lemma ask_shard_cases shards req w o :
  ask_shard shards req = (w, o) →
  (w = [] ∧ ∀ p, o ≠ Ok p) ∨
  (∃ p, sh_reply shards (req_ShardID req) req = GotProof p ∧ verifyProof (Some p) = true ∧
     w = [ESubmit (req_ShardID req) req] ∧ o = Ok p) ∨
  (w = [ESubmit (req_ShardID req) req; EAbort (req_ShardID req) (req_TxID req)] ∧ ∃ e, o = Err e).
Proof.
  unfold ask_shard, mbind, M_bind, lift, tell, fail, mret, M_ret.
  destruct (sh_GetOrCreateShard shards _) as [[]|e|e]; cbn [with_message];
    [|intros [= <- <-]; by left..].
  destruct (sh_reply shards _ _) as [| |p]; [intros [= <- <-]; by left|..].
  - intros [= <- <-]. right; right. eauto.
  - destruct (verifyProof (Some p)) eqn:E; intros [= <- <-]; right; [left|right]; eauto 10.
Qed.


(** The run from the shard on, when it ends in an endorsement. *)
Lemma rest_endorsed shards now up s results w r :
  rest_of_run shards now up s results = (w, Ok r) → er_Version r = 1%Z →
  ∃ proof evb prp payload,
    (resp_Status (sn_response s) < shim_ERRORTHRESHOLD)%Z ∧
    sh_reply shards (up_ChaincodeName up)
      (prepare_request up (extractTransactionDependencies results) now) = GotProof proof ∧
    verifyProof (Some proof) = true ∧
    CreateCCEventBytes (sn_event s) = Ok evb ∧
    GetBytesProposalResponsePayload (up_ProposalHash up) (sn_response s) (sn_public s) evb
      (mkChaincodeID (up_ChaincodeName up) (cei_Version (sn_info s))) = Ok prp ∧
    sup_EndorseWithPlugin (cei_EndorsementPlugin (sn_info s)) (up_ChannelID up) prp (up_SignedProposal up)
      = Ok (er_Endorsement r, payload) ∧
    er_Payload r = Some payload ∧ er_Interest r = sn_interest s ∧
    er_Response r = mkResponse (resp_Status (sn_response s))
      (endorser_message (resp_Message (sn_response s)) (1 <? pf_CommitIndex proof)%Z ""
         (pf_CommitIndex proof) (pf_Term proof))
      (resp_Payload (sn_response s)).
Proof.
  unfold rest_of_run. intros Hrun Hv. minv Hrun.
  apply ask_shard_cases in E as [[_ Hno]|[(p & Hp & Hpv & -> & [= ->])|[_ [e ?]]]]; [by destruct (Hno a)| |done].
  unfold endorse in Hrun. minv Hrun.
  destruct (Z.leb_spec shim_ERROR (resp_Status (sn_response s)));
    [by apply mret_Ok in Hrun as [<- _]|].
  case_bool_decide; [by apply mret_Ok in Hrun as [<- _]|].
  destruct (Z.leb_spec shim_ERRORTHRESHOLD (resp_Status (sn_response s))).
  { minv Hrun. by apply mret_Ok in Hrun as [<- _]. }
  minv Hrun. apply mret_Ok in Hrun as [<- _]. cbn.
  do 4 eexists. split_and!; eauto.
Qed.

Lemma endorsed_run shards now up w r :
  ProcessProposalSuccessfullyOrError shards now up = (w, Ok r) → er_Version r = 1%Z →
  ∃ s results w1, simulated up s ∧ second_results (tp_TXSimulator (sn_params s)) = Ok results ∧
    rest_of_run shards now up s results = (w1, Ok r).
Proof.
  intros [[Hq Hno]|(s & Hsim & [(Hst & Hq & [= ->])|(Hst & results & w0 & w1 & Hr & Hq & Hrun & ->)])]%run_cases Hv;
    [by destruct (Hno r)|done|eauto 10].
Qed.

(** C21: what an endorsement is: the chaincode answered below 400, the proof
    verified, the plugin endorsed the payload computed from the chaincode's own
    response, and the response returned carries the proof's commit index and
    term in its message, with no dependency named. *)
Theorem endorsement_sound shards now up w r :
  ProcessProposalSuccessfullyOrError shards now up = (w, Ok r) → er_Version r = 1%Z →
  ∃ s results proof evb prp payload,
    simulated up s ∧ (resp_Status (sn_response s) < shim_ERRORTHRESHOLD)%Z ∧
    second_results (tp_TXSimulator (sn_params s)) = Ok results ∧
    sh_reply shards (up_ChaincodeName up)
      (prepare_request up (extractTransactionDependencies results) now) = GotProof proof ∧
    verifyProof (Some proof) = true ∧
    CreateCCEventBytes (sn_event s) = Ok evb ∧
    GetBytesProposalResponsePayload (up_ProposalHash up) (sn_response s) (sn_public s) evb
      (mkChaincodeID (up_ChaincodeName up) (cei_Version (sn_info s))) = Ok prp ∧
    sup_EndorseWithPlugin (cei_EndorsementPlugin (sn_info s)) (up_ChannelID up) prp (up_SignedProposal up)
      = Ok (er_Endorsement r, payload) ∧
    er_Payload r = Some payload ∧ er_Interest r = sn_interest s ∧
    er_Response r = mkResponse (resp_Status (sn_response s))
      (endorser_message (resp_Message (sn_response s)) (1 <? pf_CommitIndex proof)%Z ""
         (pf_CommitIndex proof) (pf_Term proof))
      (resp_Payload (sn_response s)).
Proof.
  intros Hrun Hv. destruct (endorsed_run _ _ _ _ _ Hrun Hv) as (s & results & w1 & Hs & Hr & Hrest).
  destruct (rest_endorsed _ _ _ _ _ _ _ Hrest Hv) as (proof & evb & prp & payload & Hres).
  exists s, results, proof, evb, prp, payload. naive_solver.
Qed.

(** The parts of a response that do not depend on the shard's proof. *)
Definition covered (r : EndorserResponse) :=
  (er_Version r, er_Payload r, er_Endorsement r, er_Interest r,
   resp_Status (er_Response r), resp_Payload (er_Response r)).

Lemma endorse_covered up cd res sr ev ci p p' w w' r r' :
  endorse up cd res sr ev ci p = (w, Ok r) → endorse up cd res sr ev ci p' = (w', Ok r') →
  covered r = covered r'.
Proof.
  unfold endorse. intros Hr Hr'. minv Hr. minv Hr'. simplify_eq.
  destruct (shim_ERROR <=? resp_Status res)%Z; [|case_bool_decide];
    [..|destruct (shim_ERRORTHRESHOLD <=? resp_Status res)%Z]; minv Hr; minv Hr';
    apply mret_Ok in Hr as [<- _]; apply mret_Ok in Hr' as [<- _]; unfold covered; cbn; congruence.
Qed.

(** An endorsement says nothing of the proof: whatever the shards answer,
    the payload signed, the signature and the interest are the same, and only
    the unsigned message differs. *)
Theorem endorsement_ignores_proof shards shards' now now' up w w' r r' :
  ProcessProposalSuccessfullyOrError shards now up = (w, Ok r) →
  ProcessProposalSuccessfullyOrError shards' now' up = (w', Ok r') →
  covered r = covered r'.
Proof.
  intros [[_ Hno]|(s & Hsim & Hrun)]%run_cases; [by destruct (Hno r)|].
  intros [[_ Hno]|(s' & Hsim' & Hrun')]%run_cases; [by destruct (Hno r')|].
  pose proof (simulated_unique _ _ _ Hsim Hsim') as <-.
  destruct Hrun as [(Hst & _ & [= ->])|(Hst & results & w0 & w1 & Hr & _ & Hrun & _)],
    Hrun' as [(Hst' & _ & [= ->])|(Hst' & results' & w0' & w1' & Hr' & _ & Hrun' & _)];
    [done|lia..|].
  apply M_bind_Ok in Hrun as (? & p & ? & _ & Hrun & _).
  apply M_bind_Ok in Hrun' as (? & p' & ? & _ & Hrun' & _).
  eapply endorse_covered; eassumption.
Qed.

(** ** Checks before the simulation *)

(** A proposal is processed exactly when it is valid and, on a channel, its
    transaction id is unknown to the ledger and, unless it invokes a system
    chaincode, the channel's policy admits it. *)
Theorem preProcess_iff deserialize up :
  (preProcess deserialize up).2 = Ok () ↔
  Validate deserialize up = Ok () ∧
  (up_ChannelID up ≠ "" →
   (∃ e, sup_GetTransactionByID (up_ChannelID up) (up_TxID up) = Err e) ∧
   (sup_IsSysCC (up_ChaincodeName up) = false →
    sup_CheckACL (up_ChannelID up) (up_SignedProposal up) = Ok ())).
Proof.
  unfold preProcess, mbind, M_bind.
  destruct (Validate deserialize up) as [[]|e|e]; cbn; [|naive_solver..].
  case_bool_decide; [naive_solver|].
  destruct (sup_GetTransactionByID _ _); [naive_solver| |naive_solver].
  destruct (sup_IsSysCC _); [naive_solver|].
  destruct (sup_CheckACL _ _) as [[]|e'|e']; naive_solver.
Qed.

(** ** The dependencies of a simulation *)
Definition names (rw : KVRWSet) (key : string) : Prop :=
  (∃ w, w ∈ kv_Writes rw ∧ kvw_Key w = key) ∨ (∃ r, r ∈ kv_Reads rw ∧ kvr_Key r = key).

Definition touches (simResult : TxSimulationResults) (k : string) : Prop :=
  (∃ n rw key, n ∈ from_option txrw_NsRwset [] (sim_Pub simResult) ∧
     sup_IsSysCC (ns_Namespace n) = false ∧ unmarshal_KVRWSet (ns_Rwset n) = Some rw ∧
     names rw key ∧ k = ns_Namespace n +:+ ":" +:+ key) ∨
  (∃ n c rw key, n ∈ from_option tpw_NsPvtRwset [] (sim_Pvt simResult) ∧
     sup_IsSysCC (npw_Namespace n) = false ∧ c ∈ npw_CollectionPvtRwset n ∧
     unmarshal_KVRWSet (cpw_Rwset c) = Some rw ∧
     names rw key ∧ k = npw_Namespace n +:+ ":" +:+ cpw_CollectionName c +:+ ":" +:+ key).

(** A fold whose steps add known keys. *)
Lemma foldl_adds {A V} (f : gmap string V → A → gmap string V) (P : A → Prop) (k : string)
    (l : list A) (d : gmap string V) :
  (∀ d a, is_Some (f d a !! k) ↔ is_Some (d !! k) ∨ P a) →
  is_Some (foldl f d l !! k) ↔ is_Some (d !! k) ∨ ∃ a, a ∈ l ∧ P a.
Proof.
  intros Hf. revert d. induction l as [|a l IH]; intros d; cbn.
  - split; [by left|]. intros [?|(a & Ha & _)]; [done|]. by apply not_elem_of_nil in Ha.
  - rewrite IH, Hf. setoid_rewrite elem_of_cons. naive_solver.
Qed.

Lemma add_writes_keys prefix d ws k :
  is_Some (add_writes prefix d ws !! k) ↔
  is_Some (d !! k) ∨ ∃ w, w ∈ ws ∧ k = prefix +:+ kvw_Key w.
Proof.
  apply foldl_adds. intros d' w. rewrite lookup_insert_is_Some'. naive_solver.
Qed.

Lemma add_reads_keys prefix d rs k :
  is_Some (foldl (add_read prefix) d rs !! k) ↔
  is_Some (d !! k) ∨ ∃ r, r ∈ rs ∧ k = prefix +:+ kvr_Key r.
Proof.
  apply foldl_adds. intros d' r. unfold add_read.
  destruct (d' !! (prefix +:+ kvr_Key r)) eqn:E; [|rewrite lookup_insert_is_Some'; naive_solver].
  split; [by left|]. intros [?| ->]; [done|]. by rewrite E.
Qed.

Lemma add_rwset_keys prefix d rw k :
  is_Some (add_rwset prefix d rw !! k) ↔ is_Some (d !! k) ∨ ∃ key, names rw key ∧ k = prefix +:+ key.
Proof.
  unfold add_rwset. rewrite add_reads_keys, add_writes_keys. unfold names. naive_solver.
Qed.

Lemma add_decoded_keys prefix d b k :
  is_Some (match unmarshal_KVRWSet b with None => d | Some rw => add_rwset prefix d rw end !! k) ↔
  is_Some (d !! k) ∨ ∃ rw key, unmarshal_KVRWSet b = Some rw ∧ names rw key ∧ k = prefix +:+ key.
Proof.
  destruct (unmarshal_KVRWSet b) as [rw|].
  - rewrite add_rwset_keys. split; [intros [?|(key & ? & ?)]|intros [?|(rw' & key & [= <-] & ? & ?)]]; eauto 10.
  - split; [by left|]. by intros [?|(rw' & key & ? & _)].
Qed.

(** The request sent to the shard names exactly the keys the simulation read
    or wrote outside system chaincodes, public and private, under their
    namespace and collection. *)
Theorem extractTransactionDependencies_keys simResult k :
  is_Some (extractTransactionDependencies simResult !! k) ↔ touches simResult k.
Proof.
  unfold extractTransactionDependencies, touches.
  rewrite (foldl_adds add_private (λ n, sup_IsSysCC (npw_Namespace n) = false ∧
    ∃ c, c ∈ npw_CollectionPvtRwset n ∧ ∃ rw key, unmarshal_KVRWSet (cpw_Rwset c) = Some rw ∧
      names rw key ∧ k = npw_Namespace n +:+ ":" +:+ cpw_CollectionName c +:+ ":" +:+ key)).
  2:{ intros d n. unfold add_private. destruct (sup_IsSysCC _); [naive_solver|].
      rewrite (foldl_adds _ (λ c, ∃ rw key, unmarshal_KVRWSet (cpw_Rwset c) = Some rw ∧
        names rw key ∧ k = npw_Namespace n +:+ ":" +:+ cpw_CollectionName c +:+ ":" +:+ key)); [naive_solver|].
      intros d' c. unfold add_collection. rewrite add_decoded_keys.
      assert (∀ a b x y key, (a +:+ b +:+ x +:+ y) +:+ key = a +:+ b +:+ x +:+ y +:+ key) as Hassoc
        by (intros; by rewrite <- !string_app_assoc).
      by setoid_rewrite Hassoc. }
  rewrite (foldl_adds add_public (λ n, sup_IsSysCC (ns_Namespace n) = false ∧
    ∃ rw key, unmarshal_KVRWSet (ns_Rwset n) = Some rw ∧ names rw key ∧ k = ns_Namespace n +:+ ":" +:+ key)).
  2:{ intros d n. unfold add_public. destruct (sup_IsSysCC _); [naive_solver|].
      rewrite add_decoded_keys. setoid_rewrite <- string_app_assoc. naive_solver. }
  rewrite lookup_empty. pose proof (@is_Some_None gobytes). naive_solver.
Qed.
End spec.

(** ** Proofs *)
Lemma verifyProof_signed p :
  pf_TxID p ≠ "" → pf_ShardID p ≠ "" →
  pf_Signature p = signProof (pf_ShardID p) (pf_TxID p) (pf_CommitIndex p) →
  verifyProof (Some p) = true.
Proof.
  intros Ht Hs Hsig. unfold verifyProof. rewrite !bool_decide_eq_false_2 by done.
  cbn. by apply bool_decide_eq_true.
Qed.

Lemma log_proofs_verify `{Raft} (sl : ShardLeader) log reqs :
  log_requests log = Some reqs → Forall (λ r, rp_TxID r ≠ "") reqs → sl_shardID sl ≠ "" →
  Forall (λ p, verifyProof (Some p) = true) (log_proofs sl log).
Proof.
  intros (rss & Hm & ->)%fmap_Some Hall Hid. apply Forall_forall. intros p Hp.
  unfold log_proofs in Hp. apply list_elem_of_In, in_concat in Hp as (ps & Hps & Hp).
  apply in_map_iff in Hps as (e & <- & He). apply in_map_iff in Hp as (r & <- & Hr).
  apply list_elem_of_In in He. apply list_elem_of_In in Hr.
  destruct (entry_requests e) as [rs|] eqn:Ee; [|by apply not_elem_of_nil in Hr].
  apply verifyProof_signed; [|done|done]. cbn in *.
  apply mapM_Some in Hm. apply list_elem_of_lookup in He as [i Hi].
  destruct (Forall2_lookup_l _ _ _ _ _ Hm Hi) as (rs' & Hi' & Ers). simplify_eq.
  rewrite Forall_forall in Hall. apply Hall. apply list_elem_of_In, in_concat.
  exists rs. split; apply list_elem_of_In; [|done]. by eapply list_elem_of_lookup_2.
Qed.

(** Shard and endorser agree on proofs: every proof a shard leader sends
    while applying a log whose requests have transaction ids passes the
    endorser's check. *)
Theorem shard_proofs_verify `{MapOrder} `{Raft} (clock : Z → nat → Z) (sl sl' : ShardLeader) log reqs :
  log_requests log = Some reqs → Forall (λ r, rp_TxID r ≠ "") reqs → sl_shardID sl ≠ "" →
  length (sl_commitC sl) ≤ commitC_cap →
  Forall (λ p, verifyProof (Some p) = true) (sl_commitC sl) →
  applyEntries clock sl log = Ok sl' →
  Forall (λ p, verifyProof (Some p) = true) (sl_commitC sl').
Proof.
  intros Hr Hne Hid Hlen Hc E. destruct (applyEntries_ok clock sl log reqs Hr) as (sl'' & E' & A).
  assert (sl'' = sl') as -> by congruence. assert (Hcc := proj1 (ap_commitC _ _ _ _ A Hlen)). rewrite Hcc.
  apply Forall_take, Forall_app. split; [done|]. by apply (log_proofs_verify sl log reqs).
Qed.

(** ** Witnesses *)

(** A peer with one chaincode that reads and writes key k. *)
Definition toy_results : TxSimulationResults :=
  mkTxSimulationResults (Some (mkTxReadWriteSet [mkNsReadWriteSet "cc" "rw" []])) None ∅ ∅.

Definition toy_simulator : Simulator := {|
  simulator := TxSimulationResults;
  sim_GetTxSimulationResults s := (Ok s, s);
  sim_Done s := s
|}.

Definition toy_codec : Codec := {|
  unmarshal_Envelope _ := None; unmarshal_Payload _ := None; unmarshal_ChannelHeader _ := None;
  unmarshal_Transaction _ := None; unmarshal_ChaincodeAction _ := None;
  unmarshal_TxReadWriteSet _ := None; unmarshal_HashedRWSet _ := None;
  unmarshal_KVRWSet _ := Some (mkKVRWSet [mkKVRead "k" (Some (mkVersion 1 0))] [] [mkKVWrite "k" false (Some "v")] [])
|}.

Definition toy_support : @Support toy_simulator := {|
  event := unit; policy := unit; collection_config := string;
  sup_GetTxSimulator _ _ := Ok (toy_results : @simulator toy_simulator);
  sup_GetHistoryQueryExecutor _ := Ok ();
  sup_GetTransactionByID _ _ := Err "not found";
  sup_IsSysCC _ := false;
  sup_Execute tp _ _ := (Ok (Some (mkResponse 200 "OK" ""), None), @tp_TXSimulator toy_simulator tp);
  sup_ExecuteLegacyInit tp _ _ _ := (Ok (), @tp_TXSimulator toy_simulator tp);
  sup_ChaincodeEndorsementInfo _ _ _ := Ok (mkChaincodeEndorsementInfo "1.0" "escc");
  sup_CheckACL _ _ := Ok ();
  sup_EndorseWithPlugin _ _ prp _ := Ok (Some ("sig:" +:+ prp), prp);
  sup_GetLedgerHeight _ := Ok 7%Z;
  sup_DistributePrivateData _ _ _ _ := Ok ();
  sup_AllCollectionsConfigPkg _ _ _ := Ok None;
  sup_static_name c := Some c;
  unmarshal_SignaturePolicy _ := Ok ();
  unmarshal_ChaincodeDeploymentSpec _ := Err "none";
  marshal_event _ := Ok "";
  marshal_pub _ := Ok "pub"
|}.

Definition toy_tx_codec : TxCodec := {|
  marshal_ChaincodeAction a := Ok (from_option resp_Message "" (cca_Response a));
  marshal_ProposalResponsePayload p := Ok (prp_ProposalHash p +:+ "|" +:+ default "" (prp_Extension p));
  unmarshal_ProposalResponsePayload _ := None;
  marshal_ChaincodeActionPayload _ := Err "unknown"; unmarshal_ChaincodeActionPayload _ := None;
  marshal_Transaction _ := Err "unknown"; marshal_Payload _ := Err "unknown"; marshal_Header _ := Err "unknown";
  marshal_ChannelHeader _ := Err "unknown"; marshal_SignatureHeader _ := Err "unknown";
  marshal_ChaincodeHeaderExtension _ := Err "unknown"; marshal_ChaincodeInvocationSpec _ := Err "unknown";
  marshal_Proposal _ := Err "unknown"; TimestampProto t := Ok t
|}.

Definition toy_proof (i : Z) : PrepareProof := mkPrepareProof "t0" "cc" i 1 (signProof "cc" "t0" i) 2.

Definition toy_shards (reply : shard_reply) : Shards := mkShards (λ _, Ok ()) (λ _ _, reply).

Definition toy_up : UnpackedProposal :=
  mkUnpackedProposal "cc" (mkChannelHeader 3 "ch" "t1" 0 "" 0 None None) (mkChaincodeInput []) (mkProposalMsg "" "")
    (mkSignatureHeader "" "") (mkSignedProposal (Some "") None) "hash".

#[local] Existing Instance toy_simulator.
#[local] Existing Instance toy_codec.
#[local] Existing Instance toy_support.
#[local] Existing Instance toy_tx_codec.

Definition toy_submitted (now : Z) : list effect :=
  [ESubmit "cc" (mkPrepareRequest "t1" "cc" (Some ∅) (Some {["cc:k" := Some "v"]}) now)].


Definition toy_interest : list (ChaincodeCall (Policy := policy)) := [mkChaincodeCall "cc" [] false false []].

Definition toy_endorsed (i : Z) : EndorserResponse :=
  mkEndorserResponse 1
    (mkResponse 200 (endorser_message "OK" (1 <? i)%Z "" i 2) "")
    (Some "hash|OK") (Some "sig:hash|OK") (Some toy_interest).

Lemma endorsement_sound_witness :
  ∃ s results proof evb prp payload,
    simulated toy_up s ∧ (resp_Status (sn_response s) < shim_ERRORTHRESHOLD)%Z ∧
    second_results (tp_TXSimulator (sn_params s)) = Ok results ∧
    GotProof (toy_proof 3) = GotProof proof ∧
    verifyProof (Some proof) = true ∧
    CreateCCEventBytes (sn_event s) = Ok evb ∧
    GetBytesProposalResponsePayload "hash" (sn_response s) (sn_public s) evb
      (mkChaincodeID "cc" (cei_Version (sn_info s))) = Ok prp ∧
    sup_EndorseWithPlugin (cei_EndorsementPlugin (sn_info s)) "ch" prp (up_SignedProposal toy_up)
      = Ok (Some "sig:hash|OK", payload) ∧
    Some "hash|OK" = Some payload ∧ Some toy_interest = sn_interest s ∧
    mkResponse 200 (endorser_message "OK" true "" 3 2) "" = mkResponse (resp_Status (sn_response s))
      (endorser_message (resp_Message (sn_response s)) (1 <? pf_CommitIndex proof)%Z ""
         (pf_CommitIndex proof) (pf_Term proof))
      (resp_Payload (sn_response s)).
Proof.
  apply (endorsement_sound (toy_shards (GotProof (toy_proof 3))) 5 toy_up (toy_submitted 5) (toy_endorsed 3));
    vm_compute; reflexivity.
Defined.

Lemma endorsement_ignores_proof_witness :
  covered (toy_endorsed 1) = covered (toy_endorsed 9) ∧
  er_Response (toy_endorsed 1) ≠ er_Response (toy_endorsed 9).
Proof.
  split; [|done].
  apply (endorsement_ignores_proof (toy_shards (GotProof (toy_proof 1))) (toy_shards (GotProof (toy_proof 9)))
           5 6 toy_up (toy_submitted 5) (toy_submitted 6)); vm_compute; reflexivity.
Defined.

Lemma shard_proofs_verify_witness :
  length (sl_commitC toy_end) = 2 ∧ Forall (λ p, verifyProof (Some p) = true) (sl_commitC toy_end).
Proof.
  split; [vm_compute; reflexivity|].
  apply (@shard_proofs_verify sorted_map_order toy_raft (λ _ _, 7%Z) toy_leader toy_end toy_log toy_reqs).
  - exact toy_log_requests.
  - repeat constructor; done.
  - done.
  - simpl. lia.
  - constructor.
  - vm_compute. reflexivity.
Defined.
