(* ===== verification/EndToEnd.v ===== *)
(** * EndToEnd: from the endorsers' messages to the committer's graph

    The committer orders a block by the dependency information it finds in the
    response messages; the endorsers write that information. Put together, the
    sharded endorsement path never names a transaction, so every block it
    produces is processed as one level. *)

From S2P Require Import Prelude GoText DepInfo TxDag Protos TxFlags RwConflict Committer CommitterSpec.
From S2P Require Import ShardTypes Shard LeaderEndorser Proposal ProtoUtil Interest Endorser EndorserSpec.

(** A message the committer reads no transaction id from. *)
Definition silent (m : string) : Prop := ∃ h x, ParseDependencyInfo m = Ok (h, "", x).

Lemma unmarked_silent m : contains m marker = false → silent m.
Proof. intros Hm. exists false, 0%Z. unfold ParseDependencyInfo. by rewrite Hm. Qed.

Lemma endorser_message_silent msg h i t :
  contains msg marker = false → (0 ≤ i)%Z → (0 ≤ t)%Z → silent (endorser_message msg h "" i t).
Proof.
  intros Hmsg Hi Ht. unfold silent. rewrite endorser_message_items.
  rewrite parse_items; [|done|by apply endorser_kvs_clean|by apply no_start_semicolon].
  unfold endorser_kvs, read_info. cbn [foldl fst snd]. simplify_map_eq. eauto.
Qed.

(** The messages of a block. *)
Definition block_message `{Codec} (data : list bytes) (m : string) : Prop :=
  ∃ raw tx action cca resp, raw ∈ data ∧ decode_tx raw = Some tx ∧ action ∈ tx_Actions tx ∧
    unmarshal_ChaincodeAction (action_Payload action) = Some cca ∧
    cca_Response cca = Some resp ∧ resp_Message resp = m.

Definition unconnected (dag : TransactionDAG) : Prop :=
  ∀ t node, Nodes dag !! t = Some node → DependentTxIDs node = [].

Section flat.
Context `{Codec} `{MapOrder}.

Lemma scan_actions_silent actions h :
  (∀ action cca resp, action ∈ actions →
     unmarshal_ChaincodeAction (action_Payload action) = Some cca → cca_Response cca = Some resp →
     resp_Message resp = "" ∨ silent (resp_Message resp)) →
  (scan_actions actions h "").2 = "".
Proof.
  revert h. induction actions as [|a actions IH]; intros h Hs; [done|]. cbn [scan_actions].
  assert (∀ h, (scan_actions actions h "").2 = "") as IH'
    by (intros; apply IH; intros a' cca resp Ha; apply (Hs a'); by right).
  destruct (unmarshal_ChaincodeAction _) as [cca|] eqn:Ec; [|done].
  destruct (cca_Response cca) as [resp|] eqn:Er; [|done].
  destruct (Hs a cca resp ltac:(by left) Ec Er) as [->|(h' & x & E)].
  { by rewrite bool_decide_eq_true_2. }
  case_bool_decide; [done|]. rewrite E. by destruct h'.
Qed.

Lemma AddTransaction_unconnected dag t i h :
  unconnected dag → unconnected (AddTransaction dag t i h "").
Proof.
  intros Hd t' node. unfold AddTransaction. rewrite bool_decide_eq_true_2 by done.
  rewrite andb_false_r. cbn [Nodes]. destruct (Nodes dag !! t); [apply Hd|].
  rewrite lookup_insert_Some. intros [[_ <-]|[_ ?]]; [done|by eapply Hd].
Qed.

Lemma add_entry_unconnected dag dag' i raw :
  (∀ m, block_message [raw] m → m = "" ∨ silent m) →
  add_entry dag (i, raw) = Ok dag' → unconnected dag → unconnected dag'.
Proof.
  intros Hm. unfold add_entry. destruct (unmarshal_Envelope raw) as [env|] eqn:Ee; [|naive_solver].
  destruct (unmarshal_Payload _) as [pl|] eqn:Ep; [|naive_solver].
  destruct (payload_Header pl) as [hdr|]; [|done]. cbn.
  destruct (unmarshal_ChannelHeader _) as [chdr|]; [|naive_solver].
  destruct (unmarshal_Transaction _) as [tx|] eqn:Et; [|naive_solver].
  destruct (scan_actions (tx_Actions tx) false "") as [h d] eqn:Es. intros [= <-] Hd.
  assert (d = "") as ->; [|by apply AddTransaction_unconnected].
  change d with ((h, d).2). rewrite <- Es. apply scan_actions_silent.
  intros a cca resp Ha Hc Hr. apply Hm. exists raw, tx, a, cca, resp. split_and!; try done; [by left|].
  unfold decode_tx. by rewrite Ee, Ep.
Qed.

Lemma build_nodes_unconnected data dag :
  (∀ m, block_message data m → m = "" ∨ silent m) → build_nodes data = Ok dag → unconnected dag.
Proof.
  revert dag. induction data as [|raw data IH] using rev_ind; intros dag Hm.
  { intros [= <-]. by intros t node Hn. }
  assert (∀ l m, l ⊆ data ++ [raw] → block_message l m → m = "" ∨ silent m) as Hsub.
  { intros l m Hl (raw' & tx & a & cca & resp & Hraw & ?). apply Hm. exists raw', tx, a, cca, resp.
    split; [by apply Hl|done]. }
  rewrite build_nodes_snoc. destruct (build_nodes data) as [dag0| |] eqn:E0; [|done..]. intros E.
  eapply add_entry_unconnected; [|exact E|apply IH; [|done]]; intros m; apply Hsub; set_solver.
Qed.
End flat.

(** A message the sharded endorsement path returned, for a chaincode whose own
    message has no marker and a shard that numbers its log from 0 up. *)
Definition from_endorser `{MapOrder} `{Codec} `{TxCodec} `{Support} (m : string) : Prop :=
  ∃ shards now up w r,
    ProcessProposalSuccessfullyOrError shards now up = (w, Ok r) ∧ er_Version r = 1%Z ∧
    resp_Message (er_Response r) = m ∧
    (∀ s, simulated up s → contains (resp_Message (sn_response s)) marker = false) ∧
    (∀ c req p, sh_reply shards c req = GotProof p → (0 ≤ pf_CommitIndex p)%Z ∧ (0 ≤ pf_Term p)%Z).

Section theorem.
Context `{MapOrder} `{Codec} `{TxCodec} `{Support}.

Lemma from_endorser_silent m : from_endorser m → silent m.
Proof.
  intros (shards & now & up & w & r & Hrun & Hv & <- & Hmark & Hnum).
  destruct (endorsed_run _ _ _ _ _ Hrun Hv) as (s & results & w1 & Hs & _ & Hrest).
  destruct (rest_endorsed _ _ _ _ _ _ _ Hrest Hv) as (p & evb & prp & pl & _ & Hp & _ & _ & _ & _ & _ & _ & ->).
  destruct (Hnum _ _ _ Hp). apply endorser_message_silent; [by apply Hmark|done..].
Qed.

(** C40: blocks of endorsed transactions are flat. When every response message
    in a block comes from the sharded endorsement path, or carries no
    dependency information, the committer's graph has no edge and all its
    transactions are at level 0: whatever the transactions read and write,
    they are validated in parallel. *)
Theorem endorsed_blocks_flat (block : Block) (data : list bytes) (dag : TransactionDAG) :
  blk_Data block = Some data →
  (∀ m, block_message data m → from_endorser m ∨ contains m marker = false) →
  BuildDAGFromBlock block = Ok dag →
  unconnected dag ∧ ∀ t l, Levels dag !! t = Some l → l = 0%Z.
Proof.
  intros Ed Hm. unfold BuildDAGFromBlock. rewrite Ed. cbn.
  destruct (build_nodes data) as [d| |] eqn:E; [|done..].
  assert (unconnected d) as Hd.
  { eapply build_nodes_unconnected; [|done]. intros m Hmsg. right.
    destruct (Hm m Hmsg); [by apply from_endorser_silent|by apply unmarked_silent]. }
  cbn. destruct (CalculateLevels_result d (λ k, map_range ["levels"] k (Nodes d))) as (lv & -> & Hlv);
    [intros; apply map_range_ok|].
  intros [= <-]. split; [exact Hd|]. cbn. intros t l Hl.
  apply Hlv in Hl as [[node Hn] [Hdep|[_ ->]]]; [|done].
  eapply Depth_inj; [exact Hdep|]. eapply Depth_root; [exact Hn|].
  unfold is_root. rewrite (Hd t node Hn). by rewrite orb_true_r.
Qed.
End theorem.

(** ** Witness: two transactions that write the same key *)
Definition flat_codec : Codec :=
  sample_codec
    [("ea", mkEnvelope "pa" ""); ("eb", mkEnvelope "pb" "")]
    [("pa", mkPayload (Some (mkHeader "ca" "")) "ta"); ("pb", mkPayload (Some (mkHeader "cb" "")) "tb")]
    [("ca", mkChannelHeader 3 "ch" "a" 0 "" 0 None None); ("cb", mkChannelHeader 3 "ch" "b" 0 "" 0 None None)]
    [("ta", tx_with "xa"); ("tb", tx_with "xb")]
    [("xa", mkChaincodeAction (Some "ra") "" (Some (mkResponse 200 "OK" "")) None);
     ("xb", mkChaincodeAction (Some "ra") "" (Some (mkResponse 200 (endorser_message "OK" true "" 9 2) "")) None)]
    [("ra", mkTxReadWriteSet [mkNsReadWriteSet "cc" "rw" []])]
    [("rw", mkKVRWSet [] [] [mkKVWrite "k" false (Some "v")] [])].

#[local] Existing Instance toy_simulator.
#[local] Existing Instance flat_codec.
#[local] Existing Instance toy_support.
#[local] Existing Instance toy_tx_codec.

Definition flat_block : Block := mkBlock (Some 1%Z) (Some ["ea"; "eb"]) (Some []).
Definition flat_dag : TransactionDAG :=
  match BuildDAGFromBlock flat_block with Ok d => d | _ => NewTransactionDAG end.

Lemma toy_from_endorser : from_endorser (endorser_message "OK" true "" 9 2).
Proof.
  exists (toy_shards (GotProof (toy_proof 9))), 5%Z, toy_up, (toy_submitted 5), (toy_endorsed 9).
  split_and!; [vm_compute; reflexivity|done|done| |].
  - intros s (sim & w & Ha & Hc & Hs). vm_compute in Ha. simplify_eq. vm_compute in Hs.
    destruct s. injection Hs as _ <- _ _ _ _. reflexivity.
  - intros c req p [= <-]. done.
Qed.

Lemma endorsed_blocks_flat_witness :
  unconnected flat_dag ∧ ∀ t l, Levels flat_dag !! t = Some l → l = 0%Z.
Proof.
  apply (endorsed_blocks_flat flat_block ["ea"; "eb"] flat_dag).
  - reflexivity.
  - intros m (raw & tx & a & cca & resp & Hraw & Hd & Ha & Hc & Hr & <-).
    repeat (apply elem_of_cons in Hraw as [->|Hraw]); [| |by apply not_elem_of_nil in Hraw].
    all: vm_compute in Hd; injection Hd as <-; apply elem_of_cons in Ha as [->|Ha];
      [|by apply not_elem_of_nil in Ha]; vm_compute in Hc; injection Hc as <-; injection Hr as <-.
    + right. reflexivity.
    + left. exact toy_from_endorser.
  - vm_compute. reflexivity.
Defined.
