(* ===== verification/Height.v ===== *)
(** * Height: transaction heights and their order-preserving encoding
      (core/ledger/internal/version/version.go, common/ledger/util/util.go)

    A height is a block number and a transaction number. In the databases it is
    stored as two variable-length numbers that sort like the numbers they
    encode. Bytes are numbers below 256. *)

From S2P Require Import Prelude GoText.

(** ** Variable-length numbers (common/ledger/util/util.go) *)

(** [binary.BigEndian.PutUint64] and [Uint64]. *)
Fixpoint be_bytes (k : nat) (n : Z) : list Z :=
  match k with
  | O => []
  | S k' => Z.land (Z.shiftr n (8 * Z.of_nat k')) 255 :: be_bytes k' n
  end.

Fixpoint be_val (l : list Z) : Z :=
  match l with
  | [] => 0
  | b :: l' => b * 256 ^ Z.of_nat (length l') + be_val l'
  end.

(** [proto.DecodeVarint]: seven bits per byte, at most ten bytes; [(0, 0)] on
    a truncated or overlong number. *)
Fixpoint ConsumeVarint (b : list Z) (i : nat) (v : Z) : option (Z * nat) :=
  match b with
  | [] => None
  | y :: b' =>
      let v' := u64 (v + Z.shiftl y (7 * Z.of_nat i)) in
      if (9 <=? i)%nat then (if (y <? 2)%Z then Some (v', S i) else None)
      else if (y <? 128)%Z then Some (v', S i)
      else ConsumeVarint b' (S i) (u64 (v' - Z.shiftl 128 (7 * Z.of_nat i)))
  end.

Definition DecodeVarint (b : list Z) : Z * nat := default (0%Z, 0) (ConsumeVarint b 0 0).

(** The first byte of the encoding is the number of bytes that follow; one byte
    holds it, being at most 8. *)
Definition EncodeOrderPreservingVarUint64 (number : Z) : list Z :=
  let bytes := be_bytes 8 number in
  let '(startingIndex, size) :=
    match list_find (λ b, b ≠ 0%Z) bytes with
    | Some (i, _) => (i, 8 - i)
    | None => (0, 0)
    end in
  Z.of_nat size :: take size (drop startingIndex bytes).

Definition DecodeOrderPreservingVarUint64 (bytes : list Z) : outcome (Z * nat) :=
  let '(s, numBytes) := DecodeVarint bytes in
  if negb (numBytes =? 1)%nat then
    Err ("number of consumed bytes from DecodeVarint is invalid, expected 1, but got "
         +:+ format_uint (Z.of_nat numBytes))
  else if (8 <? s)%Z then
    Err ("decoded size from DecodeVarint is invalid, expected <=8, but got " +:+ format_uint s)
  else if (Z.of_nat (length bytes) - 1 <? s)%Z then
    Err ("decoded size (" +:+ format_uint s +:+ ") from DecodeVarint is more than available bytes ("
         +:+ format_int (Z.of_nat (length bytes) - 1) +:+ ")")
  else
    let size := Z.to_nat s in
    let decodedBytes := replicate (8 - size) 0%Z ++ take size (drop 1 bytes) in
    Ok (be_val decodedBytes, S size).

(** ** Heights (core/ledger/internal/version/version.go) *)
Record Height := mkHeight { BlockNum : Z; TxNum : Z }.

#[global] Instance Height_eq_dec : EqDecision Height.
Proof. solve_decision. Defined.

Definition NewHeight (blockNum txNum : Z) : Height := mkHeight blockNum txNum.

Definition NewHeightFromBytes (b : list Z) : outcome (Height * nat) :=
  '(blockNum, n1) ← DecodeOrderPreservingVarUint64 b;
  '(txNum, n2) ← DecodeOrderPreservingVarUint64 (drop n1 b);
  Ok (NewHeight blockNum txNum, n1 + n2).

Definition ToBytes (h : Height) : list Z :=
  EncodeOrderPreservingVarUint64 (BlockNum h) ++ EncodeOrderPreservingVarUint64 (TxNum h).

(** The difference of the two unsigned numbers is read as a signed one. *)
Definition Compare (h h1 : Height) : Z :=
  let sign res := if (0 <? res)%Z then 1%Z else (-1)%Z in
  if negb (BlockNum h =? BlockNum h1)%Z then sign (i64 (u64 (BlockNum h - BlockNum h1)))
  else if negb (TxNum h =? TxNum h1)%Z then sign (i64 (u64 (TxNum h - TxNum h1)))
  else 0%Z.

Definition AreSame (h1 h2 : option Height) : bool :=
  match h1, h2 with
  | None, None => true
  | None, Some _ | Some _, None => false
  | Some h1, Some h2 => (Compare h1 h2 =? 0)%Z
  end.

(** ** Byte order *)
Fixpoint bytes_compare (a b : list Z) : comparison :=
  match a, b with
  | [], [] => Eq
  | [], _ => Lt
  | _, [] => Gt
  | x :: a', y :: b' => match (x ?= y)%Z with Eq => bytes_compare a' b' | c => c end
  end.

(** ** Lemmas *)
Definition is_byte (b : Z) : Prop := (0 ≤ b < 256)%Z.
Definition is_u64 (n : Z) : Prop := (0 ≤ n < 2 ^ 64)%Z.

Lemma pow256_pos (k : nat) : (0 < 256 ^ Z.of_nat k)%Z.
Proof. apply Z.pow_pos_nonneg; lia. Qed.

Lemma pow256_S (k : nat) : (256 ^ Z.of_nat (S k) = 256 * 256 ^ Z.of_nat k)%Z.
Proof. rewrite Nat2Z.inj_succ, Z.pow_succ_r by lia. done. Qed.

Lemma be_byte (n : Z) (k : nat) :
  Z.land (Z.shiftr n (8 * Z.of_nat k)) 255 = ((n / 256 ^ Z.of_nat k) mod 256)%Z.
Proof.
  change 255%Z with (Z.ones 8). rewrite Z.land_ones, Z.shiftr_div_pow2 by lia.
  rewrite Z.pow_mul_r by lia. done.
Qed.

Lemma length_be_bytes k n : length (be_bytes k n) = k.
Proof. induction k as [|k IH]; cbn [be_bytes length]; [done|]. by rewrite IH. Qed.

Lemma be_bytes_byte k n : Forall is_byte (be_bytes k n).
Proof.
  induction k as [|k IH]; cbn [be_bytes]; constructor; [|done].
  rewrite be_byte. apply Z.mod_pos_bound. lia.
Qed.

Lemma be_val_bytes k n : be_val (be_bytes k n) = (n mod 256 ^ Z.of_nat k)%Z.
Proof.
  induction k as [|k IH]; cbn [be_bytes be_val]; [by rewrite Z.mod_1_r|].
  rewrite IH, length_be_bytes, be_byte, pow256_S, (Z.mul_comm 256).
  rewrite Z.rem_mul_r by (pose proof (pow256_pos k); lia). lia.
Qed.

Lemma be_val_bound l : Forall is_byte l → (0 ≤ be_val l < 256 ^ Z.of_nat (length l))%Z.
Proof.
  induction 1 as [|b l [H1 H2] _ IH]; cbn [be_val length]; [done|].
  rewrite pow256_S. nia.
Qed.

Lemma be_val_zeros k l : be_val (replicate k 0%Z ++ l) = be_val l.
Proof. induction k; [done|]. cbn [replicate app be_val]. lia. Qed.

(** Lists of the same length compare like the numbers they spell. *)
Lemma bytes_compare_be a b x y :
  Forall is_byte a → Forall is_byte b → length a = length b → be_val a ≠ be_val b →
  bytes_compare (a ++ x) (b ++ y) = (be_val a ?= be_val b)%Z.
Proof.
  intros Ha. revert b. induction Ha as [|u a Hu Ha IH]; intros b Hb Hlen Hne.
  { by destruct b. }
  destruct Hb as [|v b Hv Hb]; [done|]. cbn [app bytes_compare be_val] in *. injection Hlen as Hlen.
  pose proof (be_val_bound a Ha). pose proof (be_val_bound b Hb). rewrite Hlen in *.
  pose proof (pow256_pos (length b)). unfold is_byte in *.
  destruct (Z.compare_spec u v) as [->|Hlt|Hgt].
  - rewrite IH by (done || nia). symmetry.
    destruct (Z.compare_spec (be_val a) (be_val b)); [nia|apply Z.compare_lt_iff|apply Z.compare_gt_iff]; nia.
  - symmetry. apply Z.compare_lt_iff. nia.
  - symmetry. apply Z.compare_gt_iff. nia.
Qed.

(** The encoding is the length and the significant bytes. *)
Lemma encode_significant n :
  is_u64 n →
  ∃ s, EncodeOrderPreservingVarUint64 n = Z.of_nat (length s) :: s ∧ length s ≤ 8 ∧
    Forall is_byte s ∧ be_val s = n ∧ (s = [] ∨ 256 ^ (Z.of_nat (length s) - 1) ≤ n)%Z.
Proof.
  intros Hn. unfold EncodeOrderPreservingVarUint64.
  pose proof (be_bytes_byte 8 n) as Hb. pose proof (length_be_bytes 8 n) as Hlen.
  pose proof (be_val_bytes 8 n) as Hv. rewrite Z.mod_small in Hv by done.
  set (l := be_bytes 8 n) in *. clearbody l.
  destruct (list_find (λ b, b ≠ 0%Z) l) as [[i x]|] eqn:E.
  - apply list_find_Some in E as (Hi & Hx & Hz). pose proof (lookup_lt_Some _ _ _ Hi).
    exists (drop i l). assert (length (drop i l) = 8 - i) as Hd by (rewrite length_drop; lia).
    assert (take i l = replicate i 0%Z) as Ht.
    { apply list_eq. intros j. destruct (decide (j < i)).
      - rewrite lookup_take_lt, lookup_replicate_2 by done.
        destruct (l !! j) as [y|] eqn:Ey; [|apply lookup_ge_None in Ey; lia].
        f_equal. destruct (decide (y = 0%Z)); [done|]. by destruct (Hz j y Ey).
      - rewrite !lookup_ge_None_2; [done|..]; rewrite ?length_replicate, ?length_take; lia. }
    assert (be_val (drop i l) = n) as Hdn.
    { rewrite <- Hv. transitivity (be_val (take i l ++ drop i l));
        [by rewrite Ht, be_val_zeros|by rewrite take_drop]. }
    rewrite Hd, take_ge by lia. split_and!; [done|lia|by apply Forall_drop|done|]. right.
    rewrite (drop_S _ _ _ Hi) in Hdn, Hd. cbn [be_val length] in Hdn, Hd.
    assert (is_byte x) as Hxb by (rewrite Forall_lookup in Hb; by apply (Hb i)).
    pose proof (be_val_bound (drop (S i) l) ltac:(by apply Forall_drop)) as Hbound.
    replace (Z.of_nat (8 - i) - 1)%Z with (Z.of_nat (length (drop (S i) l))) by lia.
    unfold is_byte in Hxb. nia.
  - apply list_find_None in E. exists []. cbn. split_and!; [done|lia|constructor| |by left].
    assert (l = replicate 8 0%Z) as Hl.
    { apply list_eq. intros j. destruct (decide (j < 8)).
      - rewrite lookup_replicate_2 by done.
        destruct (l !! j) as [y|] eqn:Ey; [|apply lookup_ge_None in Ey; lia].
        rewrite Forall_lookup in E. f_equal. destruct (decide (y = 0%Z)); [done|]. by destruct (E j y Ey).
      - rewrite !lookup_ge_None_2; [done|..]; rewrite ?length_replicate; lia. }
    rewrite Hl in Hv. by vm_compute in Hv.
Qed.

Lemma DecodeVarint_small b l : (0 ≤ b < 128)%Z → DecodeVarint (b :: l) = (b, 1).
Proof.
  intros Hb. unfold DecodeVarint. cbn [ConsumeVarint Nat.leb].
  replace (Z.shiftl b (7 * Z.of_nat 0)) with b by (symmetry; apply Z.shiftl_0_r).
  rewrite (proj2 (Z.ltb_lt b 128)) by lia. cbn. unfold u64. by rewrite wrap_small by lia.
Qed.

Lemma decode_sized s rest :
  length s ≤ 8 →
  DecodeOrderPreservingVarUint64 (Z.of_nat (length s) :: s ++ rest) = Ok (be_val s, S (length s)).
Proof.
  intros Hs. unfold DecodeOrderPreservingVarUint64. rewrite DecodeVarint_small by lia.
  cbn [Nat.eqb negb length]. rewrite length_app.
  rewrite (proj2 (Z.ltb_ge 8 _)), (proj2 (Z.ltb_ge _ (Z.of_nat (length s)))) by lia.
  rewrite Nat2Z.id, skipn_cons, drop_0. by rewrite take_app_length, be_val_zeros.
Qed.

(** Encodings sort like the numbers, whatever follows them. *)
Lemma encode_compare m n x y :
  is_u64 m → is_u64 n → (m < n)%Z →
  bytes_compare (EncodeOrderPreservingVarUint64 m ++ x) (EncodeOrderPreservingVarUint64 n ++ y) = Lt.
Proof.
  intros Hm Hn Hlt. destruct (encode_significant m Hm) as (s & -> & _ & Hs & <- & Hsm).
  destruct (encode_significant n Hn) as (t & -> & _ & Ht & <- & Htn). cbn [app bytes_compare].
  pose proof (be_val_bound s Hs). pose proof (be_val_bound t Ht).
  destruct (Z.compare_spec (Z.of_nat (length s)) (Z.of_nat (length t))) as [E|?|Hgt]; [|done|].
  - rewrite bytes_compare_be by (done || lia). by apply Z.compare_lt_iff.
  - exfalso. destruct Hsm as [->|Hsm]; [cbn in Hgt; lia|].
    assert (256 ^ Z.of_nat (length t) ≤ 256 ^ (Z.of_nat (length s) - 1))%Z
      by (apply Z.pow_le_mono_r; lia). lia.
Qed.

Definition height_ok (h : Height) : Prop := is_u64 (BlockNum h) ∧ is_u64 (TxNum h).

(** Heights in the order of the ledger. *)
Definition height_lt (h h1 : Height) : Prop :=
  (BlockNum h < BlockNum h1 ∨ BlockNum h = BlockNum h1 ∧ TxNum h < TxNum h1)%Z.

Lemma encode_decode n rest :
  is_u64 n →
  DecodeOrderPreservingVarUint64 (EncodeOrderPreservingVarUint64 n ++ rest)
  = Ok (n, length (EncodeOrderPreservingVarUint64 n)).
Proof.
  intros Hn. destruct (encode_significant n Hn) as (s & -> & Hlen & _ & <- & _).
  cbn [app length]. by apply decode_sized.
Qed.

Lemma sign_i64_ne z : (if (0 <? i64 z)%Z then 1%Z else (-1)%Z) ≠ 0%Z.
Proof. by case_match. Qed.

(** Heights are the same exactly when they are equal. *)
Lemma AreSame_iff (a b : option Height) : AreSame a b = true ↔ a = b.
Proof.
  destruct a as [a|], b as [b|]; cbn; try done. rewrite Z.eqb_eq. unfold Compare.
  destruct (Z.eqb_spec (BlockNum a) (BlockNum b)) as [E1|E1]; cbn [negb].
  - destruct (Z.eqb_spec (TxNum a) (TxNum b)) as [E2|E2]; cbn [negb].
    + split; [|done]. intros _. destruct a, b. cbn in *. by subst.
    + split; [intros Hc; by apply sign_i64_ne in Hc|]. intros [= ->]. done.
  - split; [intros Hc; by apply sign_i64_ne in Hc|]. intros [= ->]. done.
Qed.

(** Within 2^63 of each other, heights compare as in the ledger. *)
Lemma Compare_spec (h h1 : Height) :
  (- 2 ^ 63 < BlockNum h - BlockNum h1 < 2 ^ 63)%Z → (- 2 ^ 63 < TxNum h - TxNum h1 < 2 ^ 63)%Z →
  Compare h h1 = match (BlockNum h ?= BlockNum h1)%Z with
                 | Eq => match (TxNum h ?= TxNum h1)%Z with Eq => 0 | Lt => -1 | Gt => 1 end
                 | Lt => -1
                 | Gt => 1
                 end%Z.
Proof.
  assert (Hi : ∀ z, (- 2 ^ 63 < z < 2 ^ 63)%Z → i64 (u64 z) = z).
  { intros z Hz. transitivity (i64 z); [|by apply i64_small; lia].
    unfold i64, u64, wrap. by rewrite Zmod_mod. }
  intros Hb Ht. unfold Compare. rewrite !Hi by done.
  destruct (Z.compare_spec (BlockNum h) (BlockNum h1)) as [E|?|?].
  - rewrite E, Z.eqb_refl. cbn [negb].
    destruct (Z.compare_spec (TxNum h) (TxNum h1)) as [E'|?|?].
    + by rewrite E', Z.eqb_refl.
    + rewrite (proj2 (Z.eqb_neq _ _)) by lia. cbn. case_match; lia.
    + rewrite (proj2 (Z.eqb_neq _ _)) by lia. cbn. case_match; lia.
  - rewrite (proj2 (Z.eqb_neq _ _)) by lia. cbn. case_match; lia.
  - rewrite (proj2 (Z.eqb_neq _ _)) by lia. cbn. case_match; lia.
Qed.

(** Further apart they do not: the difference wraps. *)
Example Compare_wraps : Compare (mkHeight (2 ^ 63) 0) (mkHeight 0 0) = (-1)%Z.
Proof. reflexivity. Qed.

(** ** Properties *)

(** Stored heights are read back: the bytes of a height, followed by
    anything, decode to that height and the number of bytes it takes. *)
Theorem height_roundtrip (h : Height) (rest : list Z) :
  height_ok h → NewHeightFromBytes (ToBytes h ++ rest) = Ok (h, length (ToBytes h)).
Proof.
  intros [Hb Ht]. unfold NewHeightFromBytes, ToBytes. rewrite <- app_assoc, encode_decode by done. cbn.
  rewrite drop_app_length, encode_decode by done. cbn. rewrite length_app. by destruct h.
Qed.

Lemma height_roundtrip_witness :
  NewHeightFromBytes (ToBytes (mkHeight 258 7) ++ [1%Z]) = Ok (mkHeight 258 7, 5).
Proof. apply (height_roundtrip (mkHeight 258 7) [1%Z]). split; split; vm_compute; congruence. Defined.

(** The databases keep heights in ledger order: the bytes of an earlier
    height sort before those of a later one, whatever follows either. *)
Theorem height_bytes_ordered (h h1 : Height) (x y : list Z) :
  height_ok h → height_ok h1 → height_lt h h1 →
  bytes_compare (ToBytes h ++ x) (ToBytes h1 ++ y) = Lt.
Proof.
  intros [Hb Ht] [Hb1 Ht1] Hlt. unfold ToBytes. rewrite <- !app_assoc.
  destruct Hlt as [?|[E ?]]; [by apply encode_compare|]. rewrite <- E.
  assert (∀ l u v, bytes_compare (l ++ u) (l ++ v) = bytes_compare u v) as Hpre.
  { intros l u v. induction l as [|b l IH]; cbn; [done|]. by rewrite Z.compare_refl. }
  rewrite Hpre. by apply encode_compare.
Qed.

Lemma height_bytes_ordered_witness :
  bytes_compare (ToBytes (mkHeight 255 9) ++ []) (ToBytes (mkHeight 256 0) ++ []) = Lt.
Proof.
  apply (height_bytes_ordered (mkHeight 255 9) (mkHeight 256 0) [] []).
  - split; split; vm_compute; congruence.
  - split; split; vm_compute; congruence.
  - left. vm_compute. reflexivity.
Defined.
