(* ===== verification/StateDb.v ===== *)
(** * StateDb: versioned values, update batches and range scans
      (core/ledger/kvledger/txmgmt/statedb/statedb.go, validation/combined_iterator.go)

    An [UpdateBatch] collects a block's writes by namespace and key; its
    iterator scans a key range in sorted order. The combined iterator shows a
    range of the database as it will be once the batch is applied. The database
    itself is the class [VersionedDB]; what the code relies on of it, as the
    interface documents, is [holds]: a database that answers holds a map. *)

From S2P Require Import Prelude GoText Protos Height.

(** ** Order of keys *)
#[global] Instance string_le_dec (a b : string) : Decision (a ≤ b)%string := _.

Definition key_lt (a b : string) : Prop := (a ≤ b)%string ∧ a ≠ b.
#[global] Instance key_lt_dec a b : Decision (key_lt a b) := _.

Definition sorted_keys_of {V} (m : gmap string V) : list string := merge_sort String.le (keys_of m).

(** A key is in the range from [s] to [e], [e] excluded and unbounded when
    empty. *)
Definition in_range (s e k : string) : Prop := (s ≤ k)%string ∧ (e = "" ∨ key_lt k e).
#[global] Instance in_range_dec s e k : Decision (in_range s e k) := _.

(** ** Values *)
Record VersionedValue := mkVersionedValue {
  vv_Value : option bytes;
  vv_Metadata : option bytes;
  vv_Version : option Height
}.

#[global] Instance VersionedValue_eq_dec : EqDecision VersionedValue.
Proof. solve_decision. Defined.

Definition IsDelete (vv : VersionedValue) : bool := bool_decide (vv_Value vv = None).

Record VersionedKV := mkVersionedKV { vkv_ns : string; vkv_key : string; vkv_value : VersionedValue }.

(** What an iterator has left: each call of [Next] takes one entry, an error
    ends it, and the empty list is exhausted. *)
Notation iterator := (list (outcome VersionedKV)).

Definition itr_next (it : iterator) : outcome (option VersionedKV) * iterator :=
  match it with
  | [] => (Ok None, [])
  | Ok kv :: it' => (Ok (Some kv), it')
  | Err e :: it' => (Err e, it')
  | Panic e :: it' => (Panic e, it')
  end.

(** ** Update batches *)
Record UpdateBatch := mkUpdateBatch {
  ContainsPostOrderWrites : bool;
  Updates : gmap string (gmap string VersionedValue)
}.

Definition NewUpdateBatch : UpdateBatch := mkUpdateBatch false ∅.

Definition GetUpdates (batch : UpdateBatch) (ns : string) : gmap string VersionedValue :=
  default ∅ (Updates batch !! ns).

Definition Get (batch : UpdateBatch) (ns key : string) : option VersionedValue :=
  match Updates batch !! ns with
  | None => None
  | Some nsUpdates => nsUpdates !! key
  end.

Definition Exists (batch : UpdateBatch) (ns key : string) : bool :=
  match Updates batch !! ns with
  | None => false
  | Some nsUpdates => bool_decide (is_Some (nsUpdates !! key))
  end.

Definition Update (batch : UpdateBatch) (ns key : string) (vv : VersionedValue) : UpdateBatch :=
  mkUpdateBatch (ContainsPostOrderWrites batch)
    (<[ns := <[key := vv]> (default ∅ (Updates batch !! ns))]> (Updates batch)).

Definition PutValAndMetadata (batch : UpdateBatch) (ns key : string) (value metadata : option bytes)
    (version : option Height) : outcome UpdateBatch :=
  match value with
  | None => Panic "Nil value not allowed. Instead call 'Delete' function"
  | Some _ => Ok (Update batch ns key (mkVersionedValue value metadata version))
  end.

Definition Put (batch : UpdateBatch) (ns key : string) (value : option bytes) (version : option Height)
    : outcome UpdateBatch :=
  PutValAndMetadata batch ns key value None version.

Definition Delete (batch : UpdateBatch) (ns key : string) (version : option Height) : UpdateBatch :=
  Update batch ns key (mkVersionedValue None None version).

Definition Merge `{MapOrder} (batch toMerge : UpdateBatch) : UpdateBatch :=
  let batch := mkUpdateBatch (ContainsPostOrderWrites batch || ContainsPostOrderWrites toMerge) (Updates batch) in
  foldl (λ b ns, foldl (λ b key,
           match Get toMerge ns key with Some vv => Update b ns key vv | None => b end)
           b (map_range ["merge"; ns] 0 (GetUpdates toMerge ns)))
    batch (map_range ["merge"] 0 (Updates toMerge)).

(** [sort.SearchStrings] on a sorted slice. *)
Definition search_strings (keys : list string) (x : string) : nat :=
  match list_find (λ k, x ≤ k)%string keys with
  | Some (i, _) => i
  | None => length keys
  end.

(** [GetRangeScanIterator]: the entries the iterator returns, one by one. *)
Definition newNsIterator (ns startKey endKey : string) (batch : UpdateBatch) : iterator :=
  match Updates batch !! ns with
  | None => []
  | Some nsUpdates =>
      let sortedKeys := sorted_keys_of nsUpdates in
      let nextIndex := if bool_decide (startKey = "") then 0 else search_strings sortedKeys startKey in
      let lastIndex := if bool_decide (endKey = "") then length sortedKeys
                       else search_strings sortedKeys endKey in
      omap (λ key, (λ vv, Ok (mkVersionedKV ns key vv)) <$> nsUpdates !! key)
        (drop nextIndex (take lastIndex sortedKeys))
  end.

(** ** The database *)
Class VersionedDB := {
  vdb : Type;
  vdb_GetState : vdb → string → string → outcome (option VersionedValue);
  vdb_GetVersion : vdb → string → string → outcome (option Height);
  vdb_GetStateRangeScanIterator : vdb → string → string → string → outcome iterator;
  vdb_ApplyUpdates : vdb → UpdateBatch → option Height → outcome vdb;
  vdb_ValidateKeyValue : vdb → string → option bytes → outcome unit;
  vdb_BytesKeySupported : bool;
  (* [BulkOptimizable.LoadCommittedVersions], for a database that has it *)
  vdb_LoadCommittedVersions : option (vdb → list (string * string) → outcome vdb)
}.

(** The entries of a namespace in a key range, in order. *)
Definition range_of (ns startKey endKey : string) (m : gmap string VersionedValue) : list VersionedKV :=
  omap (λ k, mkVersionedKV ns k <$> m !! k) (filter (in_range startKey endKey) (sorted_keys_of m)).

(** What the namespace holds after the updates: a nil value deletes. *)
Definition overlay (updates m : gmap string VersionedValue) : gmap string VersionedValue :=
  filter (λ p, vv_Value p.2 ≠ None) (updates ∪ m).

Definition lookup_ns (m : gmap string (gmap string VersionedValue)) (ns : string) : gmap string VersionedValue :=
  default ∅ (m !! ns).

(** A database that answers and holds [m], as the interface documents it. *)
Record holds `{VersionedDB} (db : vdb) (m : gmap string (gmap string VersionedValue)) : Prop := {
  holds_state ns k : vdb_GetState db ns k = Ok (lookup_ns m ns !! k);
  holds_version ns k : vdb_GetVersion db ns k = Ok (lookup_ns m ns !! k ≫= vv_Version);
  holds_range ns s e : vdb_GetStateRangeScanIterator db ns s e = Ok (map Ok (range_of ns s e (lookup_ns m ns)))
}.

(** ** combined_iterator.go *)
Section combined.
Context `{VersionedDB}.

Record combinedIterator := mkCombinedIterator {
  ci_dbItr : iterator;
  ci_updatesItr : iterator;
  ci_dbItem : option VersionedKV;
  ci_updatesItem : option VersionedKV;
  ci_endKeyServed : bool
}.

Context (db : vdb) (updates : UpdateBatch) (ns endKey : string) (includeEndKey : bool).

Definition newCombinedIterator (startKey : string) : outcome combinedIterator :=
  dbItr ← vdb_GetStateRangeScanIterator db ns startKey endKey;
  let updatesItr := newNsIterator ns startKey endKey updates in
  let '(r, dbItr) := itr_next dbItr in
  dbItem ← r;
  let '(r, updatesItr) := itr_next updatesItr in
  updatesItem ← r;
  Ok (mkCombinedIterator dbItr updatesItr dbItem updatesItem false).

Definition compareKeys (item1 item2 : option VersionedKV) : comparison :=
  match item1, item2 with
  | None, None => Eq
  | None, Some _ => Gt
  | Some _, None => Lt
  | Some i1, Some i2 => String.compare (vkv_key i1) (vkv_key i2)
  end.

Definition set_served (itr : combinedIterator) : combinedIterator :=
  mkCombinedIterator (ci_dbItr itr) (ci_updatesItr itr) (ci_dbItem itr) (ci_updatesItem itr) true.

(** The end key is served without its metadata. *)
Definition serveEndKeyIfNeeded (itr : combinedIterator) : outcome (option VersionedKV) * combinedIterator :=
  if negb includeEndKey || ci_endKeyServed itr then (Ok None, itr)
  else
    let r := match Get updates ns endKey with
             | Some vv => Ok (Some vv)
             | None => vdb_GetState db ns endKey
             end in
    match r with
    | Err e => (Err e, itr)
    | Panic e => (Panic e, itr)
    | Ok None => (Ok None, set_served itr)
    | Ok (Some vv) =>
        if IsDelete vv then (Ok None, set_served itr)
        else (Ok (Some (mkVersionedKV ns endKey (mkVersionedValue (vv_Value vv) None (vv_Version vv)))),
              set_served itr)
    end.

(** One turn of [Next]: the item selected, and the iterator moved past it. *)
Definition select (itr : combinedIterator) : outcome (option VersionedKV * combinedIterator) :=
  let '(moveDB, moveUpdates, item) :=
    match compareKeys (ci_dbItem itr) (ci_updatesItem itr) with
    | Lt => (true, false, ci_dbItem itr)
    | Eq => (true, true, ci_updatesItem itr)
    | Gt => (false, true, ci_updatesItem itr)
    end in
  let '(rdb, dbItr) := if (moveDB : bool) then itr_next (ci_dbItr itr) else (Ok (ci_dbItem itr), ci_dbItr itr) in
  dbItem ← rdb;
  let '(rup, updatesItr) :=
    if (moveUpdates : bool) then itr_next (ci_updatesItr itr) else (Ok (ci_updatesItem itr), ci_updatesItr itr) in
  updatesItem ← rup;
  Ok (item, mkCombinedIterator dbItr updatesItr dbItem updatesItem (ci_endKeyServed itr)).

(** A deleted item is passed over. Each turn moves an iterator, so their
    lengths bound the recursion. *)
Fixpoint next_loop (fuel : nat) (itr : combinedIterator) : outcome (option VersionedKV) * combinedIterator :=
  match fuel with
  | O => (Panic "next loop", itr)
  | S fuel =>
      match ci_dbItem itr, ci_updatesItem itr with
      | None, None => serveEndKeyIfNeeded itr
      | _, _ =>
          match select itr with
          | Err e => (Err e, itr)
          | Panic e => (Panic e, itr)
          | Ok (None, itr') => (Panic "invalid memory address or nil pointer dereference", itr')
          | Ok (Some kv, itr') =>
              if IsDelete (vkv_value kv) then next_loop fuel itr' else (Ok (Some kv), itr')
          end
      end
  end.

Definition next_fuel (itr : combinedIterator) : nat :=
  S (S (S (length (ci_dbItr itr) + length (ci_updatesItr itr)))).

Definition combined_Next (itr : combinedIterator) : outcome (option VersionedKV) * combinedIterator :=
  next_loop (next_fuel itr) itr.

(** All that [Next] returns until it returns nil. *)
Fixpoint drain (fuel : nat) (itr : combinedIterator) : iterator :=
  match fuel with
  | O => [Panic "drain"]
  | S fuel =>
      match combined_Next itr with
      | (Ok None, _) => []
      | (Ok (Some kv), itr') => Ok kv :: drain fuel itr'
      | (Err e, _) => [Err e]
      | (Panic e, _) => [Panic e]
      end
  end.

Definition combined_items (startKey : string) : outcome iterator :=
  itr ← newCombinedIterator startKey;
  Ok (drain (S (next_fuel itr)) itr).
End combined.

(** ** Lemmas: order of keys *)
#[global] Instance key_lt_trans : Transitive key_lt.
Proof.
  intros a b c [Hab Nab] [Hbc Nbc]. split; [by transitivity b|]. intros ->.
  apply Nab. by apply (anti_symm String.le).
Qed.

Lemma key_lt_irrefl a : ¬ key_lt a a.
Proof. by intros [_ ?]. Qed.

Lemma key_lt_asym a b : key_lt a b → ¬ key_lt b a.
Proof. intros ? ?. by apply (key_lt_irrefl a), (transitivity (y := b)). Qed.

Lemma key_not_lt a b : ¬ key_lt a b ↔ (b ≤ a)%string.
Proof.
  split.
  - intros Hn. destruct (total String.le a b) as [Hab|?]; [|done].
    destruct (decide (a = b)) as [->|Hne]; [done|]. by destruct Hn.
  - intros Hba [Hab Hne]. apply Hne. by apply (anti_symm String.le).
Qed.

Lemma key_not_le a b : ¬ (a ≤ b)%string ↔ key_lt b a.
Proof.
  rewrite <- (key_not_lt b a). split; [|tauto]. intros Hn. by destruct (decide (key_lt b a)).
Qed.

Lemma key_le_lt_trans a b c : (a ≤ b)%string → key_lt b c → key_lt a c.
Proof.
  intros Hab Hbc. destruct (decide (a = b)) as [->|Hne]; [done|]. transitivity b; [by split|done].
Qed.

Lemma key_compare a b :
  match String.compare a b with Lt => key_lt a b | Eq => a = b | Gt => key_lt b a end.
Proof.
  assert (∀ a b, String.compare a b = Lt → key_lt a b) as Hlt.
  { clear. intros a b E. split.
    - unfold String.le, String.leb. by rewrite E.
    - intros ->. pose proof (String.compare_antisym b b) as Ha. by rewrite E in Ha. }
  destruct (String.compare a b) eqn:E; [by apply String.compare_eq_iff|by apply Hlt|].
  apply Hlt. by rewrite String.compare_antisym, E.
Qed.

Lemma sorted_keys_of_elem {V} (m : gmap string V) k : k ∈ sorted_keys_of m ↔ is_Some (m !! k).
Proof. unfold sorted_keys_of. rewrite merge_sort_Permutation. apply range_order_elem, keys_of_order. Qed.

Lemma sorted_keys_of_sorted {V} (m : gmap string V) : StronglySorted key_lt (sorted_keys_of m).
Proof.
  assert (NoDup (sorted_keys_of m)) as Hnd.
  { unfold sorted_keys_of. rewrite merge_sort_Permutation. eapply range_order_NoDup, keys_of_order. }
  assert (StronglySorted String.le (sorted_keys_of m)) as Hs by apply (StronglySorted_merge_sort _).
  induction (sorted_keys_of m) as [|k ks IH]; [constructor|].
  apply StronglySorted_cons in Hs as [Hk Hs]. apply NoDup_cons in Hnd as [Hni Hnd].
  apply StronglySorted_cons. split; [|by apply IH]. rewrite Forall_forall in *.
  intros x Hx. split; [by apply Hk|]. by intros ->.
Qed.

Lemma search_strings_cons k ks x :
  search_strings (k :: ks) x = if decide (x ≤ k)%string then 0 else S (search_strings ks x).
Proof.
  unfold search_strings. cbn. case_decide; [done|].
  by destruct (list_find _ ks) as [[i y]|].
Qed.

(** The index arithmetic of the iterator selects the range. *)
Lemma search_range ks s e :
  StronglySorted key_lt ks →
  drop (search_strings ks s) (take (if bool_decide (e = "") then length ks else search_strings ks e) ks)
  = filter (in_range s e) ks.
Proof.
  induction ks as [|k ks IH]; intros Hs; [by rewrite take_nil, drop_nil|].
  apply StronglySorted_cons in Hs as [Hk Hs]. specialize (IH Hs). rewrite Forall_forall in Hk.
  rewrite filter_cons, !search_strings_cons. cbn [length].
  assert (key_lt k e ∨ e = "" ↔ ¬ (e ≤ k)%string ∨ e = "") as He by (rewrite <- key_not_le; tauto).
  destruct (decide (in_range s e k)) as [[Hsk Hke]|Hn].
  - rewrite decide_True by done. rewrite drop_0.
    assert ((if bool_decide (e = "") then S (length ks)
             else if decide (e ≤ k)%string then 0 else S (search_strings ks e))
            = S (if bool_decide (e = "") then length ks else search_strings ks e)) as ->.
    { case_bool_decide; [done|]. rewrite decide_False; [done|]. apply key_not_le. tauto. }
    cbn [take]. f_equal. rewrite <- IH.
    destruct ks as [|k' ks]; [by rewrite take_nil, drop_nil|]. rewrite !search_strings_cons.
    rewrite (decide_True (P := (s ≤ k')%string)); [by rewrite drop_0|].
    transitivity k; [done|]. by apply Hk; left.
  - assert (e ≠ "" → (e ≤ k)%string → filter (in_range s e) ks = []) as Hnone.
    { intros Hne Hek. apply elem_of_nil_inv. intros x [[_ [?|Hxe]] Hx]%list_elem_of_filter; [done|].
      apply (key_lt_irrefl x). transitivity e; [done|]. eapply key_le_lt_trans; [done|by apply Hk]. }
    destruct (decide (s ≤ k)%string) as [Hsk|Hsk].
    + assert (e ≠ "" ∧ (e ≤ k)%string) as [Hne Hek].
      { split; [intros ->; apply Hn; split; tauto|]. destruct (decide (e ≤ k)%string); [done|].
        exfalso. apply Hn. split; [done|]. right. by apply key_not_le. }
      rewrite bool_decide_eq_false_2, decide_True, Hnone by done. done.
    + case_bool_decide; [by rewrite <- IH|].
      destruct (decide (e ≤ k)%string); [by rewrite Hnone|]. by rewrite <- IH.
Qed.

(** ** Lemmas: ranges *)
Lemma range_of_elem ns s e m x :
  x ∈ range_of ns s e m ↔ vkv_ns x = ns ∧ in_range s e (vkv_key x) ∧ m !! vkv_key x = Some (vkv_value x).
Proof.
  unfold range_of. rewrite list_elem_of_omap. split.
  - intros (k & [Hr Hk]%list_elem_of_filter & (vv & Hv & ->)%fmap_Some). done.
  - intros (<- & Hr & Hm). exists (vkv_key x). split.
    + apply list_elem_of_filter. split; [done|]. apply sorted_keys_of_elem. eauto.
    + rewrite Hm. by destruct x.
Qed.

Definition kv_lt (x y : VersionedKV) : Prop := key_lt (vkv_key x) (vkv_key y).

#[global] Instance kv_lt_trans : Transitive kv_lt.
Proof. intros x y z. unfold kv_lt. apply transitivity. Qed.

Lemma range_of_sorted ns s e m : StronglySorted kv_lt (range_of ns s e m).
Proof.
  unfold range_of. pose proof (sorted_keys_of_sorted m) as Hs.
  induction (sorted_keys_of m) as [|k ks IH]; [constructor|].
  apply StronglySorted_cons in Hs as [Hk Hs]. specialize (IH Hs). rewrite filter_cons.
  case_decide; [|done]. cbn. destruct (m !! k) as [vv|]; [|done]. cbn. apply StronglySorted_cons.
  split; [|done]. apply Forall_forall. intros x (k' & [_ Hk']%list_elem_of_filter & (v & _ & ->)%fmap_Some)%list_elem_of_omap.
  rewrite Forall_forall in Hk. by apply Hk.
Qed.

#[global] Instance kv_lt_antisymm : AntiSymm eq kv_lt.
Proof. intros x y Hxy Hyx. by destruct (key_lt_asym _ _ Hxy). Qed.

(** Sorted lists with the same entries are equal. *)
Lemma kv_sorted_unique l l' :
  StronglySorted kv_lt l → StronglySorted kv_lt l' → (∀ x, x ∈ l ↔ x ∈ l') → l = l'.
Proof.
  assert (∀ l, StronglySorted kv_lt l → NoDup l) as Hnd.
  { clear. induction 1 as [|x l Hs IH Hx]; constructor; [|done]. intros Hin.
    rewrite Forall_forall in Hx. by apply (key_lt_irrefl (vkv_key x)), (Hx x). }
  intros Hl Hl' Heq. apply (StronglySorted_unique kv_lt); [done|done|].
  apply NoDup_Permutation; auto.
Qed.

(** The batch's iterator scans the range. *)
Lemma newNsIterator_range ns s e batch :
  newNsIterator ns s e batch = map Ok (range_of ns s e (GetUpdates batch ns)).
Proof.
  unfold newNsIterator, range_of, GetUpdates. destruct (Updates batch !! ns) as [m|]; [cbn [default]|done].
  assert ((if bool_decide (s = "") then 0 else search_strings (sorted_keys_of m) s)
          = search_strings (sorted_keys_of m) s) as ->.
  { case_bool_decide as Hs; [rewrite Hs|done]. destruct (sorted_keys_of m) as [|k ks]; [done|].
    rewrite search_strings_cons, decide_True; [done|]. by destruct k. }
  rewrite search_range by apply sorted_keys_of_sorted. change (id m) with m.
  induction (filter _ (sorted_keys_of m)) as [|k ks IH]; [done|]. cbn.
  destruct (m !! k); [|done]. cbn. by rewrite IH.
Qed.

(** ** Lemmas: the combined iterator *)
Section combined_lemmas.
Context `{VersionedDB} (db : vdb) (updates : UpdateBatch) (ns endKey : string) (includeEndKey : bool).

(** The iterator stands at two sorted lists of which it has looked at the heads. *)
Record at_lists (itr : combinedIterator) (dl ul : list VersionedKV) : Prop := {
  at_db : ci_dbItem itr = head dl ∧ ci_dbItr itr = map Ok (tail dl);
  at_updates : ci_updatesItem itr = head ul ∧ ci_updatesItr itr = map Ok (tail ul);
  at_db_sorted : StronglySorted kv_lt dl;
  at_updates_sorted : StronglySorted kv_lt ul
}.

(** The entries the two lists stand for together. *)
Definition visible (dl ul : list VersionedKV) (x : VersionedKV) : Prop :=
  x ∈ ul ∨ x ∈ dl ∧ vkv_key x ∉ map vkv_key ul.

(** Taking the first item of the database's list, of both, of the batch's. *)
Lemma visible_db d dr ul y :
  Forall (kv_lt d) ul → visible (d :: dr) ul y ↔ y = d ∨ visible dr ul y.
Proof.
  intros Hu. unfold visible. rewrite elem_of_cons.
  assert (vkv_key d ∉ map vkv_key ul).
  { intros (z & Hz & Hin)%list_elem_of_fmap. rewrite Forall_forall in Hu.
    specialize (Hu z Hin). unfold kv_lt in Hu. rewrite Hz in Hu. by apply key_lt_irrefl in Hu. }
  naive_solver.
Qed.

Lemma visible_both d dr u ur y :
  vkv_key d = vkv_key u → Forall (kv_lt d) dr → visible (d :: dr) (u :: ur) y ↔ y = u ∨ visible dr ur y.
Proof.
  intros E Hd. unfold visible. cbn [map]. rewrite !elem_of_cons. split.
  - intros [[->|?]|[[->|?] Hni]]; [by left|by right; left| |].
    + destruct Hni. by left.
    + right; right. tauto.
  - intros [->|[?|[Hin Hni]]]; [by left; left|by left; right|].
    right. split; [by right|]. intros [Ek|?]; [|done]. rewrite Forall_forall in Hd.
    specialize (Hd y Hin). unfold kv_lt in Hd. rewrite E, Ek in Hd. by apply key_lt_irrefl in Hd.
Qed.

Lemma visible_updates dl u ur y :
  Forall (kv_lt u) dl → visible dl (u :: ur) y ↔ y = u ∨ visible dl ur y.
Proof.
  intros Hd. unfold visible. cbn [map]. rewrite !elem_of_cons. split; [tauto|].
  intros [->|[?|[Hin Hni]]]; [by left; left|by left; right|].
  right. split; [done|]. intros [Ek|?]; [|done]. rewrite Forall_forall in Hd.
  specialize (Hd y Hin). unfold kv_lt in Hd. rewrite Ek in Hd. by apply key_lt_irrefl in Hd.
Qed.

Lemma visible_after x dl ul y : Forall (kv_lt x) dl → Forall (kv_lt x) ul → visible dl ul y → kv_lt x y.
Proof. rewrite !Forall_forall. intros Hd Hu [Hin|[Hin _]]; auto. Qed.

Lemma kv_lt_Forall x y l : kv_lt x y → Forall (kv_lt y) l → Forall (kv_lt x) (y :: l).
Proof.
  intros Hxy Hl. constructor; [done|]. eapply Forall_impl; [done|]. intros z ?. by transitivity y.
Qed.

Lemma itr_next_map l : itr_next (map Ok l : iterator) = (Ok (head l), map Ok (tail l)).
Proof. by destruct l. Qed.

Lemma select_spec itr dl ul :
  at_lists itr dl ul → dl ≠ [] ∨ ul ≠ [] →
  ∃ x itr' dl' ul', select itr = Ok (Some x, itr') ∧ at_lists itr' dl' ul' ∧
    length dl' + length ul' < length dl + length ul ∧ ci_endKeyServed itr' = ci_endKeyServed itr ∧
    (∀ y, visible dl ul y ↔ y = x ∨ visible dl' ul' y) ∧
    (∀ y, visible dl' ul' y → kv_lt x y).
Proof.
  intros [[Ed Edr] [Eu Eur] Hds Hus] Hne. unfold select. rewrite Ed, Edr, Eu, Eur.
  destruct dl as [|d dr], ul as [|u ur]; [naive_solver|..]; cbn [head tail compareKeys].
  - apply StronglySorted_cons in Hus as [Hu1 Hu2]. rewrite itr_next_map.
    exists u, (mkCombinedIterator [] (map Ok (tail ur)) None (head ur) (ci_endKeyServed itr)), [], ur.
    split_and!; [done|by split|cbn; lia|done|intros; by apply visible_updates|].
    intros y. by apply visible_after.
  - apply StronglySorted_cons in Hds as [Hd1 Hd2]. rewrite itr_next_map.
    exists d, (mkCombinedIterator (map Ok (tail dr)) [] (head dr) None (ci_endKeyServed itr)), dr, [].
    split_and!; [done|by split|cbn; lia|done|intros; by apply visible_db|].
    intros y. by apply visible_after.
  - pose proof (key_compare (vkv_key d) (vkv_key u)) as Hc.
    pose proof (proj1 (StronglySorted_cons _ _ _) Hds) as [Hd1 Hd2].
    pose proof (proj1 (StronglySorted_cons _ _ _) Hus) as [Hu1 Hu2].
    destruct (String.compare _ _); rewrite ?itr_next_map.
    + assert (Forall (kv_lt u) dr) by (unfold kv_lt in *; by rewrite <- Hc).
      exists u, (mkCombinedIterator (map Ok (tail dr)) (map Ok (tail ur)) (head dr) (head ur) (ci_endKeyServed itr)), dr, ur.
      split_and!; [done|by split|cbn; lia|done|intros; by apply visible_both|].
      intros y. by apply visible_after.
    + exists d, (mkCombinedIterator (map Ok (tail dr)) (map Ok ur) (head dr) (Some u) (ci_endKeyServed itr)), dr, (u :: ur).
      assert (Forall (kv_lt d) (u :: ur)) by (by apply kv_lt_Forall).
      split_and!; [done|by split|cbn; lia|done|intros; by apply visible_db|].
      intros y. by apply visible_after.
    + exists u, (mkCombinedIterator (map Ok dr) (map Ok (tail ur)) (Some d) (head ur) (ci_endKeyServed itr)), (d :: dr), ur.
      assert (Forall (kv_lt u) (d :: dr)) by (by apply kv_lt_Forall).
      split_and!; [done|by split|cbn; lia|done|intros; by apply visible_updates|].
      intros y. by apply visible_after.
Qed.

Definition alive (x : VersionedKV) : Prop := vv_Value (vkv_value x) ≠ None.

Lemma IsDelete_alive x : IsDelete (vkv_value x) = false ↔ alive x.
Proof. unfold IsDelete, alive. by rewrite bool_decide_eq_false. Qed.

Lemma next_loop_spec fuel itr dl ul :
  at_lists itr dl ul → length dl + length ul < fuel →
  (∃ x itr' dl' ul', next_loop db updates ns endKey includeEndKey fuel itr = (Ok (Some x), itr') ∧
     at_lists itr' dl' ul' ∧ length dl' + length ul' < length dl + length ul ∧
     ci_endKeyServed itr' = ci_endKeyServed itr ∧ alive x ∧
     (∀ y, alive y → visible dl ul y ↔ y = x ∨ visible dl' ul' y) ∧
     (∀ y, visible dl' ul' y → kv_lt x y)) ∨
  (∃ itr', next_loop db updates ns endKey includeEndKey fuel itr
           = serveEndKeyIfNeeded db updates ns endKey includeEndKey itr' ∧
     at_lists itr' [] [] ∧ ci_endKeyServed itr' = ci_endKeyServed itr ∧
     ∀ y, alive y → ¬ visible dl ul y).
Proof.
  revert itr dl ul. induction fuel as [|fuel IH]; intros itr dl ul Hat Hf; [lia|].
  destruct (decide (dl = [] ∧ ul = [])) as [[-> ->]|Hne].
  { right. exists itr. cbn [next_loop]. rewrite (proj1 (at_db _ _ _ Hat)), (proj1 (at_updates _ _ _ Hat)).
    split_and!; [done..|]. intros y _ [Hin|[Hin _]]; by apply not_elem_of_nil in Hin. }
  assert (dl ≠ [] ∨ ul ≠ []) as Hne' by (destruct dl, ul; naive_solver).
  destruct (select_spec itr dl ul Hat Hne') as (x & itr1 & dl1 & ul1 & Es & Hat1 & Hlen & Hserved & Hvis & Hlt).
  assert (next_loop db updates ns endKey includeEndKey (S fuel) itr =
    if IsDelete (vkv_value x) then next_loop db updates ns endKey includeEndKey fuel itr1
    else (Ok (Some x), itr1)) as E.
  { cbn [next_loop]. rewrite Es, (proj1 (at_db _ _ _ Hat)), (proj1 (at_updates _ _ _ Hat)).
    destruct dl, ul; naive_solver. }
  rewrite E. clear E. destruct (IsDelete (vkv_value x)) eqn:Ex.
  - assert (∀ y, alive y → y ≠ x) as Hyx.
    { intros y Hy ->. apply IsDelete_alive in Hy. congruence. }
    destruct (IH itr1 dl1 ul1 Hat1 ltac:(lia)) as
      [(x2 & itr2 & dl2 & ul2 & -> & ? & ? & ? & ? & Hv2 & ?)|(itr2 & -> & ? & ? & Hno)].
    + left. exists x2, itr2, dl2, ul2. split_and!; [done|done|lia|congruence|done| |done].
      intros y Hy. rewrite Hvis, <- Hv2 by done. specialize (Hyx y Hy). tauto.
    + right. exists itr2. split_and!; [done|done|congruence|]. intros y Hy. rewrite Hvis.
      intros [?|?]; [by apply (Hyx y)|by apply (Hno y)].
  - left. exists x, itr1, dl1, ul1. apply IsDelete_alive in Ex. split_and!; eauto.
Qed.

(** What is served after the last entry of the range. *)
Definition end_items : iterator :=
  match (serveEndKeyIfNeeded db updates ns endKey includeEndKey (mkCombinedIterator [] [] None None false)).1 with
  | Ok None => []
  | Ok (Some kv) => [Ok kv]
  | Err e => [Err e]
  | Panic e => [Panic e]
  end.

Lemma serve_fst itr :
  ci_endKeyServed itr = false →
  (serveEndKeyIfNeeded db updates ns endKey includeEndKey itr).1
  = (serveEndKeyIfNeeded db updates ns endKey includeEndKey (mkCombinedIterator [] [] None None false)).1.
Proof.
  intros Hs. unfold serveEndKeyIfNeeded. rewrite Hs. cbn. destruct includeEndKey; [|done]. cbn.
  destruct (Get updates ns endKey) as [vv|]; [by destruct (IsDelete vv)|].
  destruct (vdb_GetState db ns endKey) as [[vv|]|e|e]; [by destruct (IsDelete vv)|done..].
Qed.

Lemma serve_some itr kv itr' :
  serveEndKeyIfNeeded db updates ns endKey includeEndKey itr = (Ok (Some kv), itr') → itr' = set_served itr.
Proof.
  unfold serveEndKeyIfNeeded. destruct (negb _ || _); [done|].
  destruct (Get updates ns endKey) as [vv|]; [destruct (IsDelete vv); by intros [= _ <-]|].
  destruct (vdb_GetState db ns endKey) as [[vv|]|e|e]; [|done..]. destruct (IsDelete vv); by intros [= _ <-].
Qed.

Lemma drain_spec fuel itr dl ul :
  at_lists itr dl ul → length dl + length ul + 1 < fuel → ci_endKeyServed itr = false →
  ∃ L, drain db updates ns endKey includeEndKey fuel itr = map Ok L ++ end_items ∧
    StronglySorted kv_lt L ∧ ∀ x, x ∈ L ↔ alive x ∧ visible dl ul x.
Proof.
  revert itr dl ul. induction fuel as [|fuel IH]; intros itr dl ul Hat Hf Hs; [lia|].
  cbn [drain]. unfold combined_Next.
  assert (length dl + length ul < next_fuel itr) as Hnf.
  { destruct Hat as [[_ Ed] [_ Eu] _ _]. unfold next_fuel. rewrite Ed, Eu, !length_map.
    destruct dl, ul; cbn; lia. }
  destruct (next_loop_spec (next_fuel itr) itr dl ul Hat Hnf) as
    [(x & itr1 & dl1 & ul1 & -> & Hat1 & Hlen & Hserved & Hx & Hvis & Hlt)|(itr1 & -> & Hat1 & Hserved & Hno)].
  - destruct (IH itr1 dl1 ul1 Hat1 ltac:(lia) ltac:(congruence)) as (L & -> & HL & Hin).
    exists (x :: L). split; [done|]. split.
    + apply StronglySorted_cons. split; [|done]. apply Forall_forall. intros y [_ Hy]%Hin. by apply Hlt.
    + intros y. rewrite elem_of_cons, Hin. split.
      * intros [->|[Hy ?]]; [split; [done|]; apply Hvis; [done|by left]|]. split; [done|]. apply Hvis; tauto.
      * intros [Hy Hv]. apply Hvis in Hv as [?|?]; tauto.
  - exists []. cbn [map app]. split; [|split; [constructor|]].
    2:{ intros x. split; [by intros ?%not_elem_of_nil|]. intros [Hx Hv]. by destruct (Hno x Hx). }
    pose proof (serve_fst itr1 ltac:(congruence)) as Hfst. unfold end_items. rewrite <- Hfst.
    destruct (serveEndKeyIfNeeded db updates ns endKey includeEndKey itr1) as [[[kv|]|e|e] itr2] eqn:Ee; [|done..].
    cbn [fst]. f_equal. apply serve_some in Ee as ->.
    destruct fuel as [|fuel]; [lia|]. cbn [drain]. unfold combined_Next.
    destruct Hat1 as [[Ed Edr] [Eu Eur] _ _].
    unfold next_fuel, set_served. cbn [next_loop ci_dbItem ci_updatesItem ci_dbItr ci_updatesItr].
    rewrite Ed, Eu. unfold serveEndKeyIfNeeded. cbn [ci_endKeyServed]. by rewrite orb_true_r.
Qed.
End combined_lemmas.

(** The end key of a range that was not read to its end. *)
Definition end_entry (ns endKey : string) (includeEndKey : bool) (m : gmap string VersionedValue) : list VersionedKV :=
  if includeEndKey then
    match m !! endKey with
    | Some vv => [mkVersionedKV ns endKey (mkVersionedValue (vv_Value vv) None (vv_Version vv))]
    | None => []
    end
  else [].

Lemma Get_updates batch ns key : Get batch ns key = GetUpdates batch ns !! key.
Proof. unfold Get, GetUpdates. by destruct (Updates batch !! ns). Qed.

Lemma overlay_lookup u m k vv :
  overlay u m !! k = Some vv ↔ vv_Value vv ≠ None ∧ (u !! k = Some vv ∨ u !! k = None ∧ m !! k = Some vv).
Proof.
  unfold overlay. rewrite map_lookup_filter_Some. cbn. rewrite lookup_union_Some_raw. tauto.
Qed.

Lemma range_of_key ns s e m k :
  k ∈ map vkv_key (range_of ns s e m) ↔ in_range s e k ∧ is_Some (m !! k).
Proof.
  rewrite list_elem_of_fmap. split.
  - intros (x & -> & (_ & Hr & Hx)%range_of_elem). eauto.
  - intros [Hr [vv Hv]]. exists (mkVersionedKV ns k vv). split; [done|]. by apply range_of_elem.
Qed.

Lemma visible_overlay ns s e u m x :
  alive x ∧ visible (range_of ns s e m) (range_of ns s e u) x ↔ x ∈ range_of ns s e (overlay u m).
Proof.
  unfold visible. rewrite range_of_key, !range_of_elem, overlay_lookup. unfold alive.
  rewrite (eq_None_not_Some (u !! vkv_key x)). tauto.
Qed.

Lemma end_items_entry `{VersionedDB} (db : vdb) m updates ns endKey includeEndKey :
  holds db m →
  end_items db updates ns endKey includeEndKey
  = map Ok (end_entry ns endKey includeEndKey (overlay (GetUpdates updates ns) (lookup_ns m ns))).
Proof.
  intros Hdb. unfold end_items, serveEndKeyIfNeeded, end_entry. destruct includeEndKey; [cbn|done].
  rewrite Get_updates, (holds_state _ _ Hdb).
  set (o := match GetUpdates updates ns !! endKey with
            | Some vv => Some vv | None => lookup_ns m ns !! endKey end).
  assert (overlay (GetUpdates updates ns) (lookup_ns m ns) !! endKey
          = o ≫= λ vv, if IsDelete vv then None else Some vv) as ->.
  { apply option_eq. intros vv. rewrite overlay_lookup, bind_Some. unfold o, IsDelete. split.
    - intros [Hv [->|[-> ->]]]; exists vv; by rewrite bool_decide_eq_false_2.
    - intros (w & Hw & Hvw). case_bool_decide; simplify_eq. destruct (GetUpdates updates ns !! endKey); naive_solver. }
  unfold o. destruct (GetUpdates updates ns !! endKey) as [vv|]; cbn; [by destruct (IsDelete vv)|].
  destruct (lookup_ns m ns !! endKey) as [vv|]; cbn; [by destruct (IsDelete vv)|done].
Qed.

(** The combined iterator shows the range as the batch will leave it: the
    entries of the database overlaid with the batch, in key order, without the
    deleted ones, and then the end key when it is to be included. *)
Theorem combined_items_spec `{VersionedDB} (db : vdb) (m : gmap string (gmap string VersionedValue))
    (updates : UpdateBatch) (ns startKey endKey : string) (includeEndKey : bool) :
  holds db m →
  let after := overlay (GetUpdates updates ns) (lookup_ns m ns) in
  combined_items db updates ns endKey includeEndKey startKey
  = Ok (map Ok (range_of ns startKey endKey after ++ end_entry ns endKey includeEndKey after)).
Proof.
  intros Hdb after. unfold combined_items, newCombinedIterator.
  rewrite (holds_range _ _ Hdb), newNsIterator_range. cbn [mbind outcome_bind].
  set (dl := range_of ns startKey endKey (lookup_ns m ns)).
  set (ul := range_of ns startKey endKey (GetUpdates updates ns)).
  rewrite !itr_next_map. cbn [mbind outcome_bind]. f_equal.
  set (itr := mkCombinedIterator _ _ _ _ _).
  assert (at_lists itr dl ul) as Hat by (split; [done|done|apply range_of_sorted..]).
  assert (length dl + length ul + 1 < S (next_fuel itr)) as Hf.
  { unfold next_fuel. cbn. rewrite !length_map. destruct dl, ul; cbn; lia. }
  destruct (drain_spec db updates ns endKey includeEndKey _ itr dl ul Hat Hf eq_refl) as (L & -> & HL & Hin).
  rewrite map_app. f_equal.
  - f_equal. apply kv_sorted_unique; [done|apply range_of_sorted|]. intros x.
    rewrite Hin. apply visible_overlay.
  - by apply end_items_entry.
Qed.

(** ** A database in memory *)
Definition apply_batch (m : gmap string (gmap string VersionedValue)) (b : UpdateBatch)
    : gmap string (gmap string VersionedValue) :=
  merge (λ u d, match u with
                | Some u => Some (overlay u (default ∅ d))
                | None => d
                end) (Updates b) m.

Definition mem_db : VersionedDB := {|
  vdb := gmap string (gmap string VersionedValue);
  vdb_GetState m ns k := Ok (lookup_ns m ns !! k);
  vdb_GetVersion m ns k := Ok (lookup_ns m ns !! k ≫= vv_Version);
  vdb_GetStateRangeScanIterator m ns s e := Ok (map Ok (range_of ns s e (lookup_ns m ns)));
  vdb_ApplyUpdates m b _ := Ok (apply_batch m b);
  vdb_ValidateKeyValue _ _ _ := Ok ();
  vdb_BytesKeySupported := true;
  vdb_LoadCommittedVersions := None
|}.

Lemma mem_holds (m : gmap string (gmap string VersionedValue)) : holds (m : @vdb mem_db) m.
Proof. by split. Qed.

Definition vv_at (v : string) (b t : Z) : VersionedValue := mkVersionedValue (Some v) None (Some (mkHeight b t)).

(** Keys a, b and c in the database; the batch deletes b and writes bb. *)
Definition toy_state : gmap string (gmap string VersionedValue) :=
  {["cc" := {["a" := vv_at "1" 1 0; "b" := vv_at "2" 1 1; "c" := vv_at "3" 1 2]}]}.
Definition toy_updates : UpdateBatch :=
  Delete (Update NewUpdateBatch "cc" "bb" (vv_at "4" 2 0)) "cc" "b" (Some (mkHeight 2 0)).

Lemma combined_items_spec_witness :
  combined_items (H := mem_db) toy_state toy_updates "cc" "c" true "a"
  = Ok (map Ok [mkVersionedKV "cc" "a" (vv_at "1" 1 0); mkVersionedKV "cc" "bb" (vv_at "4" 2 0);
                mkVersionedKV "cc" "c" (vv_at "3" 1 2)]).
Proof.
  rewrite (combined_items_spec (H := mem_db) toy_state toy_state toy_updates "cc" "a" "c" true (mem_holds toy_state)).
  vm_compute. reflexivity.
Defined.
