(* ===== verification/PvtState.v ===== *)
(** * PvtState: public, private and hashed state in one database
      (core/ledger/kvledger/txmgmt/privacyenabledstate/types.go, db.go and
       optimization.go, core/ledger/util/util.go)

    Private data and its hashes are kept in the versioned database under
    namespaces derived from the chaincode's and the collection's name. A hint
    remembers which chaincodes ever stored metadata, so that looking metadata up
    can skip the database. The database and the bookkeeping database are the
    classes [VersionedDB] and [Bookkeeper]; SHA-256 is the class [Hashing]. *)

From S2P Require Import Prelude GoText Utf8 Base64 Protos Height StateDb.
From Stdlib Require Import Ascii.

Class Hashing := { ComputeHash : bytes → bytes }.

Definition ComputeStringHash `{Hashing} (input : string) : bytes := ComputeHash input.

(** ** Updates of private data and of hashes, by chaincode and collection *)
Notation UpdateMap := (gmap string UpdateBatch).

Definition getOrCreateNsBatch (b : UpdateMap) (ns : string) : UpdateBatch := default NewUpdateBatch (b !! ns).

Definition um_PutValAndMetadata (b : UpdateMap) (ns coll key : string) (value metadata : option bytes)
    (version : option Height) : outcome UpdateMap :=
  batch ← PutValAndMetadata (getOrCreateNsBatch b ns) coll key value metadata version;
  Ok (<[ns := batch]> b).

Definition um_Put (b : UpdateMap) (ns coll key : string) (value : option bytes) (version : option Height)
    : outcome UpdateMap :=
  um_PutValAndMetadata b ns coll key value None version.

Definition um_Delete (b : UpdateMap) (ns coll key : string) (version : option Height) : UpdateMap :=
  <[ns := Delete (getOrCreateNsBatch b ns) coll key version]> b.

Definition um_Get (b : UpdateMap) (ns coll key : string) : option VersionedValue :=
  match b !! ns with
  | None => None
  | Some nsBatch => Get nsBatch coll key
  end.

Definition um_Contains (b : UpdateMap) (ns coll key : string) : bool :=
  match b !! ns with
  | None => false
  | Some nsBatch => Exists nsBatch coll key
  end.

(** The three nested loops over an [UpdateMap]: what they visit, in order. *)
Definition um_entries `{MapOrder} (b : UpdateMap) : list (string * string * string * VersionedValue) :=
  ns ← map_range ["um"] 0 b;
  match b !! ns with
  | None => []
  | Some nsBatch =>
      coll ← map_range ["um"; ns] 0 (Updates nsBatch);
      omap (λ key, (λ vv, (ns, coll, key, vv)) <$> GetUpdates nsBatch coll !! key)
        (map_range ["um"; ns; coll] 0 (GetUpdates nsBatch coll))
  end.

Definition ToCompositeKeyMap `{MapOrder} (b : UpdateMap) : gmap (string * string * string) VersionedValue :=
  foldl (λ m '(ns, coll, key, vv), <[(ns, coll, key) := vv]> m) ∅ (um_entries b).

Record PvtUpdateBatch := mkPvtUpdateBatch {
  PubUpdates : UpdateBatch;
  HashUpdates : UpdateMap;
  PvtUpdates : UpdateMap
}.

(** ** Derived namespaces *)
Definition nsJoiner : string := "$$".
Definition pvtDataPrefix : string := "p".
Definition hashDataPrefix : string := "h".

Definition derivePvtDataNs (namespace collection : string) : string :=
  namespace +:+ nsJoiner +:+ pvtDataPrefix +:+ collection.

Definition deriveHashedDataNs (namespace collection : string) : string :=
  namespace +:+ nsJoiner +:+ hashDataPrefix +:+ collection.

Definition decodeHashedDataNsColl (hashedDataNs : string) : outcome (string * string) :=
  match split hashedDataNs (nsJoiner +:+ hashDataPrefix) with
  | [ns; coll] => Ok (ns, coll)
  | _ => Err ("not a valid hashedDataNs [" +:+ hashedDataNs +:+ "]")
  end.

Definition isPvtdataNs (namespace : string) : bool := contains namespace (nsJoiner +:+ pvtDataPrefix).
Definition isHashedDataNs (namespace : string) : bool := contains namespace (nsJoiner +:+ hashDataPrefix).

(** ** The database with its metadata hint *)
Class Bookkeeper := {
  bookkeeper : Type;
  bk_GetIterator : bookkeeper → outcome (list string);
  bk_WriteBatch : bookkeeper → list string → outcome bookkeeper
}.

Section db.
Context `{VersionedDB} `{Bookkeeper} `{MapOrder} `{Hashing}.

Record metadataHint := mkMetadataHint { mh_cache : gset string; mh_bookkeeper : bookkeeper }.

Record DB := mkDB { db_VersionedDB : vdb; db_metadataHint : metadataHint }.

Definition newMetadataHint (bk : bookkeeper) : outcome metadataHint :=
  keys ← bk_GetIterator bk;
  Ok (mkMetadataHint (list_to_set keys) bk).

Definition metadataEverUsedFor (h : metadataHint) (namespace : string) : bool :=
  bool_decide (namespace ∈ mh_cache h).

Definition with_metadata (m : gmap string VersionedValue) : bool :=
  existsb (λ p, bool_decide (vv_Metadata p.2 ≠ None)) (map_to_list m).

Definition filterNamespacesThatHasMetadata (updates : PvtUpdateBatch) : gmap string bool :=
  let add (m : gmap string bool) ns := <[ns := true]> m in
  let m := foldl (λ m ns, if with_metadata (GetUpdates (PubUpdates updates) ns) then add m ns else m)
             ∅ (map_range ["GetUpdatedNamespaces"] 0 (Updates (PubUpdates updates))) in
  foldl (λ m '(ns, _, _, vv), if bool_decide (vv_Metadata vv ≠ None) then add m ns else m)
    m (um_entries (HashUpdates updates)).

(** The hint's cache changes even if the bookkeeper fails. *)
Definition setMetadataUsedFlag (h : metadataHint) (updates : PvtUpdateBatch) : metadataHint * outcome unit :=
  let nss := map_range ["setMetadataUsedFlag"] 0 (filterNamespacesThatHasMetadata updates) in
  let new := filter (.∉ mh_cache h) nss in
  let cache := list_to_set new ∪ mh_cache h in
  match bk_WriteBatch (mh_bookkeeper h) new with
  | Ok bk => (mkMetadataHint cache bk, Ok ())
  | Err e => (mkMetadataHint cache (mh_bookkeeper h), Err e)
  | Panic e => (mkMetadataHint cache (mh_bookkeeper h), Panic e)
  end.

(** Keys of the hashed namespaces, text only if the database needs text. *)
Definition keyHashStr (keyHash : bytes) : string :=
  if vdb_BytesKeySupported then keyHash else b64_encode keyHash.

Definition db_GetState (s : DB) (ns key : string) : outcome (option VersionedValue) :=
  vdb_GetState (db_VersionedDB s) ns key.

Definition db_GetVersion (s : DB) (ns key : string) : outcome (option Height) :=
  vdb_GetVersion (db_VersionedDB s) ns key.

Definition GetPrivateData (s : DB) (namespace collection key : string) : outcome (option VersionedValue) :=
  db_GetState s (derivePvtDataNs namespace collection) key.

Definition GetValueHash (s : DB) (namespace collection : string) (keyHash : bytes)
    : outcome (option VersionedValue) :=
  db_GetState s (deriveHashedDataNs namespace collection) (keyHashStr keyHash).

Definition GetPrivateDataHash (s : DB) (namespace collection key : string) : outcome (option VersionedValue) :=
  GetValueHash s namespace collection (ComputeStringHash key).

Definition GetKeyHashVersion (s : DB) (namespace collection : string) (keyHash : bytes)
    : outcome (option Height) :=
  db_GetVersion s (deriveHashedDataNs namespace collection) (keyHashStr keyHash).

Definition GetPrivateDataRangeScanIterator (s : DB) (namespace collection startKey endKey : string)
    : outcome iterator :=
  vdb_GetStateRangeScanIterator (db_VersionedDB s) (derivePvtDataNs namespace collection) startKey endKey.

Definition metadata_of (r : outcome (option VersionedValue)) : outcome (option bytes) :=
  vv ← r;
  match vv with
  | None => Ok None
  | Some vv => Ok (vv_Metadata vv)
  end.

Definition GetStateMetadata (s : DB) (namespace key : string) : outcome (option bytes) :=
  if negb (metadataEverUsedFor (db_metadataHint s) namespace) then Ok None
  else metadata_of (db_GetState s namespace key).

Definition GetPrivateDataMetadataByHash (s : DB) (namespace collection : string) (keyHash : bytes)
    : outcome (option bytes) :=
  if negb (metadataEverUsedFor (db_metadataHint s) namespace) then Ok None
  else metadata_of (GetValueHash s namespace collection keyHash).

Definition IsBulkOptimizable : bool :=
  match vdb_LoadCommittedVersions with Some _ => true | None => false end.

Definition LoadCommittedVersionsOfPubAndHashedKeys (s : DB) (pubKeys : list (string * string))
    (hashedKeys : list (string * string * string)) : outcome DB :=
  match vdb_LoadCommittedVersions with
  | None => Ok s
  | Some load =>
      vdb' ← load (db_VersionedDB s)
        (pubKeys ++ map (λ '(ns, coll, keyHash), (deriveHashedDataNs ns coll, keyHashStr keyHash)) hashedKeys);
      Ok (mkDB vdb' (db_metadataHint s))
  end.

Definition addPvtUpdates (pub : UpdateBatch) (pvt : UpdateMap) : UpdateBatch :=
  foldl (λ b '(ns, coll, key, vv), Update b (derivePvtDataNs ns coll) key vv) pub (um_entries pvt).

Definition addHashedUpdates (pub : UpdateBatch) (hashed : UpdateMap) (base64Key : bool) : UpdateBatch :=
  foldl (λ b '(ns, coll, key, vv),
           Update b (deriveHashedDataNs ns coll) (if base64Key then b64_encode key else key) vv)
    pub (um_entries hashed).

(** The public batch itself is extended, so the hint sees the derived
    namespaces as well. *)
Definition ApplyPrivacyAwareUpdates (s : DB) (updates : PvtUpdateBatch) (height : option Height)
    : DB * outcome unit :=
  let combinedUpdates := addPvtUpdates (PubUpdates updates) (PvtUpdates updates) in
  let combinedUpdates := addHashedUpdates combinedUpdates (HashUpdates updates) (negb vdb_BytesKeySupported) in
  let updates := mkPvtUpdateBatch combinedUpdates (HashUpdates updates) (PvtUpdates updates) in
  let '(hint, r) := setMetadataUsedFlag (db_metadataHint s) updates in
  match r with
  | Ok _ =>
      match vdb_ApplyUpdates (db_VersionedDB s) combinedUpdates height with
      | Ok vdb' => (mkDB vdb' hint, Ok ())
      | Err e => (mkDB (db_VersionedDB s) hint, Err e)
      | Panic e => (mkDB (db_VersionedDB s) hint, Panic e)
      end
  | r => (mkDB (db_VersionedDB s) hint, r)
  end.
End db.

(** ** Lemmas: what the loops visit, what the updates hold *)
Lemma Get_Update b ns k vv ns' k' :
  Get (Update b ns k vv) ns' k' = if decide ((ns', k') = (ns, k)) then Some vv else Get b ns' k'.
Proof.
  unfold Get, Update. cbn. destruct (decide (ns' = ns)) as [->|Hns].
  - rewrite lookup_insert_eq. destruct (decide (k' = k)) as [->|Hk].
    + by rewrite lookup_insert_eq, decide_True.
    + rewrite lookup_insert_ne by done. rewrite decide_False by congruence. by destruct (Updates b !! ns).
  - rewrite lookup_insert_ne by done. by rewrite decide_False by congruence.
Qed.

Section entries.
Context `{MapOrder}.

Lemma um_entries_elem b ns coll key vv :
  (ns, coll, key, vv) ∈ um_entries b ↔ um_Get b ns coll key = Some vv.
Proof.
  unfold um_entries, um_Get. rewrite list_elem_of_bind. split.
  - intros (ns' & Hin & _). destruct (b !! ns') as [nb|] eqn:Hb; [|by apply not_elem_of_nil in Hin].
    apply list_elem_of_bind in Hin as (coll' & Hin & _).
    apply list_elem_of_omap in Hin as (key' & _ & E). apply fmap_Some in E as (vv' & Hvv & [= -> -> -> ->]).
    by rewrite Hb, Get_updates.
  - destruct (b !! ns) as [nb|] eqn:Hb; [|done]. rewrite Get_updates. intros Hg. exists ns. split.
    + rewrite Hb. apply list_elem_of_bind. exists coll. split.
      * apply list_elem_of_omap. exists key. rewrite Hg. split; [|done].
        eapply range_order_elem; [apply map_range_ok|]. by eexists.
      * eapply range_order_elem; [apply map_range_ok|]. unfold GetUpdates in Hg.
        destruct (Updates nb !! coll); [by eexists|]. cbn in Hg. by rewrite lookup_empty in Hg.
    + eapply range_order_elem; [apply map_range_ok|]. by eexists.
Qed.

(** Updates at the places [f] of some entries. *)
Lemma fold_Update_Get {E} (f : E → string * string) (v : E → VersionedValue) (l : list E) b N K :
  (∀ e e', e ∈ l → e' ∈ l → f e = f e' → v e = v e') →
  (∀ e, e ∈ l → f e = (N, K) →
     Get (foldl (λ b e, Update b (f e).1 (f e).2 (v e)) b l) N K = Some (v e)) ∧
  ((∀ e, e ∈ l → f e ≠ (N, K)) → Get (foldl (λ b e, Update b (f e).1 (f e).2 (v e)) b l) N K = Get b N K).
Proof.
  revert b. induction l as [|x l IH] using rev_ind; intros b Hv; cbn.
  - split; [|done]. intros e He. by apply not_elem_of_nil in He.
  - rewrite foldl_app. cbn. rewrite Get_Update. destruct (IH b) as [IH1 IH2].
    { intros e e' He He'. apply Hv; apply elem_of_app; by left. }
    split.
    + intros e He Hf. destruct (f x) as [n k] eqn:Hx. cbn. case_decide as Hd.
      * f_equal. apply Hv; [apply elem_of_app; right; by left|done|congruence].
      * apply IH1; [|done]. apply elem_of_app in He as [He|He%list_elem_of_singleton]; [done|]. subst e. congruence.
    + intros Hn. rewrite decide_False.
      * apply IH2. intros e He. apply Hn. apply elem_of_app. by left.
      * assert (f x ≠ (N, K)) by (apply Hn; apply elem_of_app; right; by left). destruct (f x). cbn. congruence.
Qed.
End entries.

(** ** Derived namespaces do not clash *)
Definition plain_ns (ns : string) : Prop := has_char "$"%char ns = false.

Lemma dollar_inj a b x y : plain_ns a → plain_ns b → a +:+ String "$"%char x = b +:+ String "$"%char y → a = b ∧ x = y.
Proof.
  unfold plain_ns. revert b. induction a as [|c a IH]; intros [|d b] Ha Hb E; cbn in *.
  - by injection E.
  - injection E as <- _. done.
  - injection E as -> _. done.
  - apply orb_false_iff in Ha as [_ Ha]. apply orb_false_iff in Hb as [_ Hb].
    injection E as -> E. destruct (IH b Ha Hb E) as [-> ->]. done.
Qed.

Lemma derivePvtDataNs_inj ns coll ns' coll' :
  plain_ns ns → plain_ns ns' → derivePvtDataNs ns coll = derivePvtDataNs ns' coll' → ns = ns' ∧ coll = coll'.
Proof. intros H1 H2 E. apply dollar_inj in E as [-> E]; [|done..]. unfold pvtDataPrefix, hashDataPrefix in E. by simplify_eq/=. Qed.

Lemma deriveHashedDataNs_inj ns coll ns' coll' :
  plain_ns ns → plain_ns ns' → deriveHashedDataNs ns coll = deriveHashedDataNs ns' coll' → ns = ns' ∧ coll = coll'.
Proof. intros H1 H2 E. apply dollar_inj in E as [-> E]; [|done..]. unfold pvtDataPrefix, hashDataPrefix in E. by simplify_eq/=. Qed.

Lemma derived_disjoint ns coll ns' coll' :
  plain_ns ns → plain_ns ns' → derivePvtDataNs ns coll ≠ deriveHashedDataNs ns' coll'.
Proof. intros H1 H2 E. apply dollar_inj in E as [-> E]; done. Qed.

Lemma derived_not_plain a x : ¬ plain_ns (a +:+ String "$"%char x).
Proof. unfold plain_ns. rewrite has_char_app. cbn. by rewrite orb_true_r. Qed.

Lemma keyHashStr_inj `{VersionedDB} k k' : keyHashStr k = keyHashStr k' → k = k'.
Proof. unfold keyHashStr. case_match; [done|]. apply b64_encode_inj. Qed.

(** ** Applying a block's updates *)
Notation state := (gmap string (gmap string VersionedValue)).

(** No key of a database holds a nil value. *)
Definition alive_state (m : state) : Prop :=
  ∀ ns k vv, lookup_ns m ns !! k = Some vv → vv_Value vv ≠ None.

(** What an update leaves at its key: a nil value deletes. *)
Definition after (upd old : option VersionedValue) : option VersionedValue :=
  match upd with
  | None => old
  | Some vv => if IsDelete vv then None else Some vv
  end.

Lemma lookup_overlay (u m : gmap string VersionedValue) k :
  overlay u m !! k = match u !! k with
                     | Some vv => after (Some vv) None
                     | None => m !! k ≫= λ vv, after (Some vv) None
                     end.
Proof.
  assert (∀ vv, after (Some vv) None = (guard (vv_Value vv ≠ None);; Some vv)) as Ha.
  { intros vv. unfold after, IsDelete. case_bool_decide; case_guard; cbn; congruence. }
  unfold overlay. rewrite map_lookup_filter, lookup_union.
  destruct (u !! k) as [vv|], (m !! k) as [vv'|]; cbn -[after]; by rewrite ?Ha.
Qed.

Lemma apply_batch_lookup m b ns k :
  alive_state m → lookup_ns (apply_batch m b) ns !! k = after (Get b ns k) (lookup_ns m ns !! k).
Proof.
  intros Hm. unfold lookup_ns, apply_batch, Get. rewrite lookup_merge.
  specialize (Hm ns k). unfold lookup_ns in Hm.
  destruct (Updates b !! ns) as [u|]; cbn; [|by destruct (m !! ns)].
  rewrite lookup_overlay. destruct (u !! k) as [vv|]; [done|].
  destruct (default ∅ (m !! ns) !! k) as [vv|]; [|done]. cbn. unfold IsDelete.
  by rewrite bool_decide_false by by apply Hm.
Qed.

Lemma apply_batch_alive m b : alive_state m → alive_state (apply_batch m b).
Proof.
  intros Hm ns k vv. rewrite apply_batch_lookup by done. unfold after, IsDelete.
  destruct (Get b ns k) as [vv'|]; [|apply Hm]. case_bool_decide; [done|]. by intros [= <-].
Qed.

Record plain_updates (u : PvtUpdateBatch) : Prop := {
  plain_pub ns : is_Some (Updates (PubUpdates u) !! ns) → plain_ns ns;
  plain_hash ns : is_Some (HashUpdates u !! ns) → plain_ns ns;
  plain_pvt ns : is_Some (PvtUpdates u !! ns) → plain_ns ns
}.

Section apply.
Context `{VersionedDB} `{Bookkeeper} `{MapOrder} `{Hashing}.

Definition combined (u : PvtUpdateBatch) : UpdateBatch :=
  addHashedUpdates (addPvtUpdates (PubUpdates u) (PvtUpdates u)) (HashUpdates u) (negb vdb_BytesKeySupported).

Lemma um_Get_ns b ns coll k vv : um_Get b ns coll k = Some vv → is_Some (b !! ns).
Proof. unfold um_Get. by destruct (b !! ns). Qed.

Definition add_updates (D : string → string → string) (key_of : string → string) (pub : UpdateBatch)
    (um : UpdateMap) : UpdateBatch :=
  foldl (λ b '(ns, coll, key, vv), Update b (D ns coll) (key_of key) vv) pub (um_entries um).

Lemma add_updates_Get D key_of pub um N K :
  (∀ ns, is_Some (um !! ns) → plain_ns ns) →
  (∀ ns coll ns' coll', plain_ns ns → plain_ns ns' → D ns coll = D ns' coll' → ns = ns' ∧ coll = coll') →
  Inj (=) (=) key_of →
  (∀ ns coll k, plain_ns ns → N = D ns coll → K = key_of k →
     Get (add_updates D key_of pub um) N K
     = match um_Get um ns coll k with Some vv => Some vv | None => Get pub N K end) ∧
  ((∀ ns coll, plain_ns ns → N ≠ D ns coll) → Get (add_updates D key_of pub um) N K = Get pub N K).
Proof.
  intros Hp HD Hk.
  set (f := λ e : string * string * string * VersionedValue, let '(ns, coll, key, _) := e in (D ns coll, key_of key)).
  set (v := λ e : string * string * string * VersionedValue, e.2).
  destruct (fold_Update_Get f v (um_entries um) pub N K) as [Hin Hout].
  { intros [[[n c] k] x] [[[n' c'] k'] x'] He He' [= E ->%Hk]. apply um_entries_elem in He, He'.
    apply HD in E as [-> ->]; [cbn; congruence|eapply Hp, um_Get_ns; done..]. }
  assert (add_updates D key_of pub um = foldl (λ b e, Update b (f e).1 (f e).2 (v e)) pub (um_entries um)) as ->.
  { apply foldl_ext. by intros b [[[ns coll] key] vv] _. }
  split.
  - intros ns coll k Hns -> ->. destruct (um_Get um ns coll k) as [vv|] eqn:E.
    + by apply (Hin (ns, coll, k, vv)); [apply um_entries_elem|].
    + apply Hout. intros [[[n c] k'] x] He [= E' ->%Hk]. apply um_entries_elem in He.
      apply HD in E' as [-> ->]; [congruence|by eapply Hp, um_Get_ns|done].
  - intros Hn. apply Hout. intros [[[n c] k] x] He [= E' _]. apply um_entries_elem in He.
    eapply Hn; [by eapply Hp, um_Get_ns|done].
Qed.

Lemma combined_add u :
  combined u = add_updates deriveHashedDataNs keyHashStr
    (add_updates derivePvtDataNs id (PubUpdates u) (PvtUpdates u)) (HashUpdates u).
Proof. unfold combined, addHashedUpdates, keyHashStr. by destruct vdb_BytesKeySupported. Qed.

#[local] Instance keyHashStr_Inj : Inj (=) (=) keyHashStr.
Proof. intros k k'. apply keyHashStr_inj. Qed.

Lemma pub_derived_None u a x k : plain_updates u → Get (PubUpdates u) (a +:+ String "$"%char x) k = None.
Proof.
  intros Hu. unfold Get. destruct (Updates (PubUpdates u) !! _) eqn:E; [|done].
  exfalso. eapply derived_not_plain, (plain_pub _ Hu). by rewrite E.
Qed.

(** The combined batch keeps the three kinds of updates apart. *)
Lemma combined_Get u ns coll k :
  plain_updates u → plain_ns ns →
  Get (combined u) ns k = Get (PubUpdates u) ns k ∧
  Get (combined u) (derivePvtDataNs ns coll) k = um_Get (PvtUpdates u) ns coll k ∧
  Get (combined u) (deriveHashedDataNs ns coll) (keyHashStr k) = um_Get (HashUpdates u) ns coll k.
Proof.
  intros Hu Hns. rewrite combined_add. split_and!.
  - rewrite (proj2 (add_updates_Get deriveHashedDataNs _ _ _ _ _ (plain_hash _ Hu) deriveHashedDataNs_inj _)).
    2:{ intros ns' coll' _ ->. exact (derived_not_plain ns' _ Hns). }
    apply (proj2 (add_updates_Get derivePvtDataNs id _ _ _ _ (plain_pvt _ Hu) derivePvtDataNs_inj _)).
    intros ns' coll' _ ->. exact (derived_not_plain ns' _ Hns).
  - rewrite (proj2 (add_updates_Get deriveHashedDataNs _ _ _ _ _ (plain_hash _ Hu) deriveHashedDataNs_inj _)).
    2:{ intros ns' coll' Hns' E. by eapply derived_disjoint in E. }
    rewrite (proj1 (add_updates_Get derivePvtDataNs id _ _ _ _ (plain_pvt _ Hu) derivePvtDataNs_inj _) ns coll k) by done.
    destruct (um_Get _ _ _ _); [done|]. by apply pub_derived_None.
  - rewrite (proj1 (add_updates_Get deriveHashedDataNs _ _ _ _ _ (plain_hash _ Hu) deriveHashedDataNs_inj _) ns coll k) by done.
    destruct (um_Get (HashUpdates u) _ _ _); [done|].
    rewrite (proj2 (add_updates_Get derivePvtDataNs id _ _ _ _ (plain_pvt _ Hu) derivePvtDataNs_inj _)).
    + by apply pub_derived_None.
    + intros ns' coll' Hns' E. symmetry in E. by eapply derived_disjoint in E.
Qed.

Lemma add_updates_Get_inv D key_of pub um N K vv :
  Get (add_updates D key_of pub um) N K = Some vv →
  (∃ ns coll k, um_Get um ns coll k = Some vv ∧ N = D ns coll ∧ K = key_of k) ∨ Get pub N K = Some vv.
Proof.
  unfold add_updates. assert (∀ e, e ∈ um_entries um → um_Get um e.1.1.1 e.1.1.2 e.1.2 = Some e.2) as He.
  { intros [[[ns coll] k] x]. apply um_entries_elem. }
  induction (um_entries um) as [|[[[ns coll] k] x] l IH] using rev_ind; [by right|].
  rewrite foldl_app. cbn. rewrite Get_Update. case_decide as Hd.
  - intros [= <-]. left. exists ns, coll, k. injection Hd as -> ->. split; [|done].
    apply (He (ns, coll, k, x)), elem_of_app. right. by left.
  - apply IH. intros e Hin. apply He, elem_of_app. by left.
Qed.

(** ** The metadata hint *)
Lemma with_metadata_iff m : with_metadata m = true ↔ ∃ k vv, m !! k = Some vv ∧ vv_Metadata vv ≠ None.
Proof.
  unfold with_metadata. rewrite existsb_exists. split.
  - intros ([k vv] & Hin%list_elem_of_In%elem_of_map_to_list & Hb%bool_decide_eq_true). eauto.
  - intros (k & vv & Hk & Hm). exists (k, vv). split; [by apply list_elem_of_In, elem_of_map_to_list|].
    by apply bool_decide_eq_true.
Qed.

Lemma fold_flag {E} (P : E → bool) (n : E → string) l (m : gmap string bool) ns :
  is_Some (foldl (λ m e, if P e then <[n e := true]> m else m) m l !! ns) ↔
  is_Some (m !! ns) ∨ ∃ e, e ∈ l ∧ P e = true ∧ n e = ns.
Proof.
  revert m. induction l as [|x l IH]; intros m; cbn.
  - split; [by left|]. intros [?|(e & He & _)]; [done|]. by apply not_elem_of_nil in He.
  - rewrite IH. destruct (P x) eqn:Hx.
    + destruct (decide (n x = ns)) as [<-|Hne].
      * rewrite lookup_insert_eq. split; [|by left]. intros _. right. exists x. split; [by left|done].
      * rewrite lookup_insert_ne by done. split; (intros [?|(e & He & ?)]; [by left|right; exists e]);
          [split; [by right|done]|]. apply elem_of_cons in He as [->|He]; [naive_solver|done].
    + split; (intros [?|(e & He & ?)]; [by left|right; exists e]); [split; [by right|done]|].
      apply elem_of_cons in He as [->|He]; [naive_solver congruence|done].
Qed.

Lemma filter_metadata_spec u ns :
  is_Some (filterNamespacesThatHasMetadata u !! ns) ↔
  (∃ k vv, Get (PubUpdates u) ns k = Some vv ∧ vv_Metadata vv ≠ None) ∨
  (∃ coll k vv, um_Get (HashUpdates u) ns coll k = Some vv ∧ vv_Metadata vv ≠ None).
Proof.
  unfold filterNamespacesThatHasMetadata.
  set (m1 := foldl _ ∅ _).
  assert (∀ l m, foldl (λ m '(ns, _, _, vv), if bool_decide (vv_Metadata vv ≠ None) then <[ns := true]> m else m) m l
    = foldl (λ (m : gmap string bool) (e : string * string * string * VersionedValue),
        if bool_decide (vv_Metadata e.2 ≠ None) then <[e.1.1.1 := true]> m else m) m l) as Hl.
  { intros l m. apply foldl_ext. by intros ? [[[? ?] ?] ?] _. }
  rewrite Hl, fold_flag. unfold m1. rewrite (fold_flag _ id). f_equiv.
  - rewrite lookup_empty. split.
    + intros [[? [=]]|(n & _ & Hw & <-)]. apply with_metadata_iff in Hw as (k & vv & Hk & ?).
      exists k, vv. by rewrite Get_updates.
    + intros (k & vv & Hk & Hm). right. exists ns. rewrite Get_updates in Hk. split_and!; [|by apply with_metadata_iff; eauto|done].
      eapply range_order_elem; [apply map_range_ok|]. unfold GetUpdates in Hk.
      destruct (Updates (PubUpdates u) !! ns); [by eexists|]. cbn in Hk. by rewrite lookup_empty in Hk.
  - split.
    + intros ([[[n c] k] vv] & Hin%um_entries_elem & Hm%bool_decide_eq_true & Hn). cbn in *. subst. eauto.
    + intros (c & k & vv & Hg & Hm). exists (ns, c, k, vv). split_and!; [by apply um_entries_elem|by apply bool_decide_eq_true|done].
Qed.

Lemma setMetadataUsedFlag_cache h u ns :
  ns ∈ mh_cache (setMetadataUsedFlag h u).1 ↔ ns ∈ mh_cache h ∨ is_Some (filterNamespacesThatHasMetadata u !! ns).
Proof.
  assert (ns ∈ list_to_set (C := gset string) (filter (.∉ mh_cache h)
    (map_range ["setMetadataUsedFlag"] 0 (filterNamespacesThatHasMetadata u))) ∪ mh_cache h ↔
    ns ∈ mh_cache h ∨ is_Some (filterNamespacesThatHasMetadata u !! ns)) as He.
  { rewrite elem_of_union, elem_of_list_to_set, list_elem_of_filter.
    rewrite (range_order_elem _ _ ns (map_range_ok _ _ _)). destruct (decide (ns ∈ mh_cache h)); naive_solver. }
  unfold setMetadataUsedFlag. by destruct (bk_WriteBatch _ _).
Qed.

(** Every chaincode with metadata in its public or hashed state is known. *)
Definition hint_sound (s : DB) (m : state) : Prop :=
  ∀ ns coll k vv, plain_ns ns → vv_Metadata vv ≠ None →
    lookup_ns m ns !! k = Some vv ∨ lookup_ns m (deriveHashedDataNs ns coll) !! k = Some vv →
    ns ∈ mh_cache (db_metadataHint s).

(** What the interface of the database promises of [ApplyUpdates]. *)
Definition applies : Prop := ∀ db m b h,
  holds db m → ∃ db', vdb_ApplyUpdates db b h = Ok db' ∧ holds db' (apply_batch m b).

Lemma Apply_inv s u h s' m :
  applies → holds (db_VersionedDB s) m → ApplyPrivacyAwareUpdates s u h = (s', Ok ()) →
  holds (db_VersionedDB s') (apply_batch m (combined u)) ∧
  db_metadataHint s' = (setMetadataUsedFlag (db_metadataHint s)
    (mkPvtUpdateBatch (combined u) (HashUpdates u) (PvtUpdates u))).1.
Proof.
  intros Happ Hdb. unfold ApplyPrivacyAwareUpdates. fold (combined u).
  destruct (setMetadataUsedFlag _ _) as [hint [[]|?|?]]; [|done..].
  destruct (Happ _ _ (combined u) h Hdb) as (db' & -> & Hdb'). by intros [= <-].
Qed.

Lemma hint_sound_apply s u h s' m :
  applies → holds (db_VersionedDB s) m → alive_state m → plain_updates u → hint_sound s m →
  ApplyPrivacyAwareUpdates s u h = (s', Ok ()) → hint_sound s' (apply_batch m (combined u)).
Proof.
  intros Happ Hdb Hm Hu Hs E. destruct (Apply_inv _ _ _ _ _ Happ Hdb E) as [_ Hh].
  intros ns coll k vv Hns Hmd. rewrite Hh, setMetadataUsedFlag_cache, filter_metadata_spec. cbn [PubUpdates HashUpdates].
  rewrite !apply_batch_lookup by done. unfold after. intros [Hl|Hl].
  - destruct (Get (combined u) ns k) as [vv'|] eqn:Hg; [|left; eapply (Hs ns coll); eauto].
    destruct (IsDelete vv'); [done|]. injection Hl as <-. right. left. eauto.
  - destruct (Get (combined u) (deriveHashedDataNs ns coll) k) as [vv'|] eqn:Hg; [|left; eapply (Hs ns coll); eauto].
    destruct (IsDelete vv'); [done|]. injection Hl as <-. right. right. rewrite combined_add in Hg.
    apply add_updates_Get_inv in Hg as [(n & c & k' & Hg & E1 & _)|Hg].
    + apply deriveHashedDataNs_inj in E1 as [-> ->]; [by eauto|done|by eapply (plain_hash _ Hu), um_Get_ns].
    + exfalso. apply add_updates_Get_inv in Hg as [(n & c & k' & Hg & E1 & _)|Hg].
      * symmetry in E1. eapply derived_disjoint in E1; [done|by eapply (plain_pvt _ Hu), um_Get_ns|done].
      * pose proof (pub_derived_None u ns (String "$"%char ("h" +:+ coll)) k Hu) as Hn. assert (Some vv' = None) as [=] by (etrans; [symmetry; exact Hg|exact Hn]).
Qed.

Lemma hint_transparent s m ns coll k :
  holds (db_VersionedDB s) m → hint_sound s m → plain_ns ns →
  GetStateMetadata s ns k = metadata_of (db_GetState s ns k) ∧
  GetPrivateDataMetadataByHash s ns coll k = metadata_of (GetValueHash s ns coll k).
Proof.
  intros Hdb Hs Hns. unfold GetStateMetadata, GetPrivateDataMetadataByHash, metadataEverUsedFor, GetValueHash, db_GetState.
  rewrite !(holds_state _ _ Hdb). case_bool_decide as Hc; [done|]. cbn. split.
  - destruct (lookup_ns m ns !! k) as [vv|] eqn:Hl; [|done].
    destruct (vv_Metadata vv) as [md|] eqn:Hmd; [|done]. exfalso. apply Hc.
    eapply (Hs ns coll k vv); [done|congruence|by left].
  - destruct (lookup_ns m (deriveHashedDataNs ns coll) !! keyHashStr k) as [vv|] eqn:Hl; [|done].
    destruct (vv_Metadata vv) as [md|] eqn:Hmd; [|done]. exfalso. apply Hc.
    eapply (Hs ns coll _ vv); [done|congruence|by right].
Qed.

(** Blocks applied one after another. *)
Fixpoint apply_all (s : DB) (us : list (PvtUpdateBatch * option Height)) : option DB :=
  match us with
  | [] => Some s
  | (u, h) :: us =>
      match ApplyPrivacyAwareUpdates s u h with
      | (s', Ok _) => apply_all s' us
      | _ => None
      end
  end.

Lemma apply_all_sound s us s' m :
  applies → holds (db_VersionedDB s) m → alive_state m → hint_sound s m →
  Forall (λ u, plain_updates u.1) us → apply_all s us = Some s' →
  ∃ m', holds (db_VersionedDB s') m' ∧ hint_sound s' m'.
Proof.
  intros Happ. revert s m. induction us as [|[u h] us IH]; intros s m Hdb Hm Hs Hu E; cbn in E.
  - injection E as <-. eauto.
  - apply Forall_cons in Hu as [Hu Hus].
    destruct (ApplyPrivacyAwareUpdates s u h) as [s1 [[]|?|?]] eqn:E1; [|done..].
    destruct (Apply_inv _ _ _ _ _ Happ Hdb E1) as [Hdb1 _].
    eapply IH; [exact Hdb1|by apply apply_batch_alive| |done..]. by eapply hint_sound_apply.
Qed.
End apply.

(** Once a block's updates are applied, every public key, private key and
    key hash reads as the block's last update of it, or as before when the
    block leaves it alone; the three kinds of data do not disturb each other. *)
Theorem ApplyPrivacyAwareUpdates_spec `{VersionedDB} `{Bookkeeper} `{MapOrder} `{Hashing}
    (s s' : DB) (u : PvtUpdateBatch) (h : option Height) (m : state) (ns coll k : string) :
  applies → holds (db_VersionedDB s) m → alive_state m → plain_updates u → plain_ns ns →
  ApplyPrivacyAwareUpdates s u h = (s', Ok ()) →
  db_GetState s' ns k = (old ← db_GetState s ns k; Ok (after (Get (PubUpdates u) ns k) old)) ∧
  GetPrivateData s' ns coll k = (old ← GetPrivateData s ns coll k; Ok (after (um_Get (PvtUpdates u) ns coll k) old)) ∧
  GetValueHash s' ns coll k = (old ← GetValueHash s ns coll k; Ok (after (um_Get (HashUpdates u) ns coll k) old)).
Proof.
  intros Happ Hdb Hm Hu Hns E. destruct (Apply_inv _ _ _ _ _ Happ Hdb E) as [Hdb' _].
  destruct (combined_Get u ns coll k Hu Hns) as (H1' & H2' & H3').
  unfold GetPrivateData, GetValueHash, db_GetState. rewrite !(holds_state _ _ Hdb'), !(holds_state _ _ Hdb).
  cbn [mbind outcome_bind]. by rewrite !apply_batch_lookup, H1', H2', H3' by done.
Qed.

(** However many blocks were applied, looking metadata up through the hint
    gives what the database holds, for public keys and for key hashes. *)
Theorem metadata_hint_transparent `{VersionedDB} `{Bookkeeper} `{MapOrder} `{Hashing}
    (s s' : DB) (us : list (PvtUpdateBatch * option Height)) (m : state) (ns coll k : string) :
  applies → holds (db_VersionedDB s) m → alive_state m → hint_sound s m →
  Forall (λ u, plain_updates u.1) us → apply_all s us = Some s' → plain_ns ns →
  GetStateMetadata s' ns k = metadata_of (db_GetState s' ns k) ∧
  GetPrivateDataMetadataByHash s' ns coll k = metadata_of (GetValueHash s' ns coll k).
Proof.
  intros Happ Hdb Hm Hs Hu E Hns. destruct (apply_all_sound _ _ _ _ Happ Hdb Hm Hs Hu E) as (m' & Hdb' & Hs').
  by apply (hint_transparent s' m').
Qed.

Lemma no_start_plain ns sep x : plain_ns ns → no_start (String "$"%char sep) ns x = true.
Proof.
  unfold plain_ns. induction ns as [|c ns IH]; intros Hns; [done|].
  cbn [has_char] in Hns. apply orb_false_iff in Hns as [Hc Hns]. cbn [no_start]. rewrite IH by done.
  change (String c ns +:+ x) with (String c (ns +:+ x)). cbn [String.prefix].
  destruct (ascii_dec "$" c) as [<-|]; [by rewrite Ascii.eqb_refl in Hc|done].
Qed.

(** The chaincode and the collection are recovered from the name of a
    hashed namespace. *)
Theorem hashed_ns_roundtrip (ns coll : string) :
  plain_ns ns → contains coll (nsJoiner +:+ hashDataPrefix) = false →
  decodeHashedDataNsColl (deriveHashedDataNs ns coll) = Ok (ns, coll) ∧
  isHashedDataNs (deriveHashedDataNs ns coll) = true ∧
  (contains coll (nsJoiner +:+ pvtDataPrefix) = false → isPvtdataNs (deriveHashedDataNs ns coll) = false).
Proof.
  intros Hns Hcoll. unfold decodeHashedDataNsColl, deriveHashedDataNs, isHashedDataNs, isPvtdataNs.
  rewrite (string_app_assoc nsJoiner). split_and!.
  - rewrite split_app by (done || by apply no_start_plain). by rewrite split_none.
  - apply contains_app.
  - intros Hp. induction ns as [|c ns IH]; cbn -[contains]; [by cbn; destruct coll|].
    unfold plain_ns in *. cbn [has_char] in Hns. apply orb_false_iff in Hns as [Hc Hns].
    change (String c ns +:+ (nsJoiner +:+ hashDataPrefix) +:+ coll)
      with (String c (ns +:+ (nsJoiner +:+ hashDataPrefix) +:+ coll)).
    cbn [contains]. rewrite IH by done. change (nsJoiner +:+ pvtDataPrefix) with "$$p". cbn [String.prefix].
    destruct (ascii_dec "$" c) as [<-|]; [by rewrite Ascii.eqb_refl in Hc|done].
Qed.

(** ** A small ledger in memory *)
Definition mem_bk : Bookkeeper := {|
  bookkeeper := list string;
  bk_GetIterator l := Ok l;
  bk_WriteBatch l new := Ok (new ++ l)
|}.
Definition toy_hashing : Hashing := {| ComputeHash b := "#" +:+ b |}.

#[local] Existing Instance mem_db.
#[local] Existing Instance mem_bk.
#[local] Existing Instance toy_hashing.

Definition toy_db : DB := mkDB (∅ : @vdb mem_db) (mkMetadataHint ∅ ([] : @bookkeeper mem_bk)).

(** A block writes a public key with metadata, a private key and its hash. *)
Definition toy_block1 : PvtUpdateBatch :=
  mkPvtUpdateBatch
    (Update NewUpdateBatch "cc" "a" (mkVersionedValue (Some "1") (Some "policy") (Some (mkHeight 1 0))))
    {["cc" := Update NewUpdateBatch "coll" "#b" (vv_at "#2" 1 0)]}
    {["cc" := Update NewUpdateBatch "coll" "b" (vv_at "2" 1 0)]}.
Lemma apply_batch_ns m b ns :
  lookup_ns (apply_batch m b) ns =
  match Updates b !! ns with Some u => overlay u (lookup_ns m ns) | None => lookup_ns m ns end.
Proof.
  unfold lookup_ns, apply_batch. rewrite lookup_merge.
  destruct (Updates b !! ns), (m !! ns); done.
Qed.

Lemma mem_applies : applies.
Proof.
  intros db m b h Hdb. exists (apply_batch db b). split; [done|].
  assert (∀ ns, lookup_ns (apply_batch db b) ns = lookup_ns (apply_batch m b) ns) as Heq.
  { intros ns. rewrite !apply_batch_ns. assert (lookup_ns db ns = lookup_ns m ns) as ->; [|done].
    apply map_eq. intros k. pose proof (holds_state _ _ Hdb ns k) as E. cbn in E. congruence. }
  split; intros; cbn; by rewrite Heq.
Qed.

Lemma plain_by {V} (m : gmap string V) :
  forallb (λ k, negb (has_char "$"%char k)) (keys_of m) = true → ∀ ns, is_Some (m !! ns) → plain_ns ns.
Proof.
  intros Hf ns Hns. rewrite forallb_forall in Hf. apply negb_true_iff, Hf, list_elem_of_In.
  by eapply range_order_elem; [apply keys_of_order|].
Qed.

Lemma toy_block1_plain : plain_updates toy_block1.
Proof. split; apply plain_by; reflexivity. Qed.

Lemma empty_alive : alive_state ∅.
Proof. intros ns k vv. unfold lookup_ns. rewrite lookup_empty. cbn. by rewrite lookup_empty. Qed.

Lemma ApplyPrivacyAwareUpdates_spec_witness :
  ∃ s', ApplyPrivacyAwareUpdates toy_db toy_block1 (Some (mkHeight 1 0)) = (s', Ok ()) ∧
    GetPrivateData s' "cc" "coll" "b" = Ok (Some (vv_at "2" 1 0)) ∧
    GetValueHash s' "cc" "coll" "#b" = Ok (Some (vv_at "#2" 1 0)).
Proof.
  eexists. split; [reflexivity|].
  split; etrans; [refine (proj1 (proj2 (ApplyPrivacyAwareUpdates_spec toy_db _ toy_block1 (Some (mkHeight 1 0)) ∅
      "cc" "coll" "b" mem_applies (mem_holds ∅) empty_alive toy_block1_plain eq_refl eq_refl)))|reflexivity|
    refine (proj2 (proj2 (ApplyPrivacyAwareUpdates_spec toy_db _ toy_block1 (Some (mkHeight 1 0)) ∅
      "cc" "coll" "#b" mem_applies (mem_holds ∅) empty_alive toy_block1_plain eq_refl eq_refl)))|reflexivity].
Defined.

Lemma metadata_hint_transparent_witness :
  ∃ s', apply_all toy_db [(toy_block1, None)] = Some s' ∧
    GetStateMetadata s' "cc" "a" = metadata_of (db_GetState s' "cc" "a") ∧
    GetStateMetadata s' "cc" "a" = Ok (Some "policy").
Proof.
  eexists. split; [reflexivity|]. split; [|reflexivity].
  refine (proj1 (metadata_hint_transparent toy_db _ [(toy_block1, None)] ∅ "cc" "coll" "a"
    mem_applies (mem_holds ∅) empty_alive _ _ eq_refl eq_refl)).
  - intros ns coll k vv _ _ [E|E]; unfold lookup_ns in E; rewrite lookup_empty in E; cbn in E; by rewrite lookup_empty in E.
  - by repeat constructor; apply toy_block1_plain.
Defined.

Lemma hashed_ns_roundtrip_witness :
  decodeHashedDataNsColl (deriveHashedDataNs "cc" "coll") = Ok ("cc", "coll").
Proof. by apply hashed_ns_roundtrip. Defined.
