(* ===== verification/RwSetUtil.v ===== *)
(** * RwSetUtil: read-write sets and their messages
      (core/ledger/kvledger/txmgmt/rwsetutil/rwset_proto_util.go,
       core/ledger/kvledger/txmgmt/statemetadata/metadata.go)

    The structures the ledger works with and their conversion to and from the
    messages of a transaction. Encoding is the generated protobuf code, the
    class [RwsetCodec]. *)

From S2P Require Import Prelude GoText Protos Height StateDb PvtState.

Class RwsetCodec := {
  marshal_KVRWSet : KVRWSet → outcome bytes;
  marshal_HashedRWSet : HashedRWSet → outcome bytes;
  marshal_TxReadWriteSet : TxReadWriteSet → outcome bytes;
  marshal_TxPvtReadWriteSet : TxPvtReadWriteSet → outcome bytes;
  unmarshal_TxPvtReadWriteSet : bytes → option TxPvtReadWriteSet;
  marshal_KVMetadataWrite : KVMetadataWrite → outcome bytes;
  unmarshal_KVMetadataWrite : bytes → option KVMetadataWrite;
  marshal_QueryReads : list KVRead → outcome bytes
}.

(** [proto.Unmarshal]'s error. *)
Definition decoded {A} (o : option A) : outcome A := from_option_err "proto: cannot parse invalid wire-format data" o.

#[global] Instance Version_eq_dec : EqDecision Version.
Proof. solve_decision. Defined.
#[global] Instance KVRead_eq_dec : EqDecision KVRead.
Proof. solve_decision. Defined.
#[global] Instance KVWrite_eq_dec : EqDecision KVWrite.
Proof. solve_decision. Defined.
#[global] Instance KVMetadataEntry_eq_dec : EqDecision KVMetadataEntry.
Proof. solve_decision. Defined.
#[global] Instance KVMetadataWrite_eq_dec : EqDecision KVMetadataWrite.
Proof. solve_decision. Defined.
#[global] Instance QueryReadsMerkleSummary_eq_dec : EqDecision QueryReadsMerkleSummary.
Proof. solve_decision. Defined.
#[global] Instance ReadsInfo_eq_dec : EqDecision ReadsInfo.
Proof. solve_decision. Defined.
#[global] Instance RangeQueryInfo_eq_dec : EqDecision RangeQueryInfo.
Proof. solve_decision. Defined.
#[global] Instance KVRWSet_eq_dec : EqDecision KVRWSet.
Proof. solve_decision. Defined.
#[global] Instance KVReadHash_eq_dec : EqDecision KVReadHash.
Proof. solve_decision. Defined.
#[global] Instance KVWriteHash_eq_dec : EqDecision KVWriteHash.
Proof. solve_decision. Defined.
#[global] Instance KVMetadataWriteHash_eq_dec : EqDecision KVMetadataWriteHash.
Proof. solve_decision. Defined.
#[global] Instance HashedRWSet_eq_dec : EqDecision HashedRWSet.
Proof. solve_decision. Defined.

(** ** Reads, writes and versions *)
Definition newProtoVersion (height : option Height) : option Version :=
  (λ h, mkVersion (BlockNum h) (TxNum h)) <$> height.

Definition NewVersion (protoVersion : option Version) : option Height :=
  (λ v, mkHeight (ver_BlockNum v) (ver_TxNum v)) <$> protoVersion.

Definition NewKVRead (key : string) (version : option Height) : KVRead :=
  mkKVRead key (newProtoVersion version).

(** [len] of a byte slice that may be nil. *)
Definition blen (b : option bytes) : nat := from_option String.length 0 b.

Definition newKVWrite (key : string) (value : option bytes) : KVWrite :=
  mkKVWrite key (blen value =? 0)%nat value.

Definition IsKVWriteDelete (kvWrite : KVWrite) : bool :=
  kvw_IsDelete kvWrite || (blen (kvw_Value kvWrite) =? 0)%nat.

Section hashing.
Context `{Hashing}.

Definition newPvtKVReadHash (key : string) (version : option Height) : KVReadHash :=
  mkKVReadHash (ComputeStringHash key) (newProtoVersion version).

Definition newPvtKVWriteAndHash (key : string) (value : option bytes) : KVWrite * KVWriteHash :=
  let kvWrite := newKVWrite key value in
  let keyHash := ComputeStringHash key in
  let valueHash := if kvw_IsDelete kvWrite then None else Some (ComputeHash (default "" value)) in
  (kvWrite, mkKVWriteHash keyHash (kvw_IsDelete kvWrite) valueHash false).

Definition hashOfZeroLengthByteArray : bytes := ComputeHash "".

Definition IsKVWriteHashDelete (w : KVWriteHash) : bool :=
  wh_IsDelete w || (blen (wh_ValueHash w) =? 0)%nat ||
  bool_decide (default "" (wh_ValueHash w) = hashOfZeroLengthByteArray).
End hashing.

(** ** Public read-write sets *)
Record CollHashedRwSet := mkCollHashedRwSet {
  ch_CollectionName : string;
  ch_HashedRwSet : HashedRWSet;
  ch_PvtRwSetHash : option bytes
}.
Record NsRwSet := mkNsRwSet {
  nrw_NameSpace : string;
  nrw_KvRwSet : KVRWSet;
  nrw_CollHashedRwSets : list CollHashedRwSet
}.
Record TxRwSet := mkTxRwSet { NsRwSets : list NsRwSet }.

(** ** Private read-write sets *)
Record CollPvtRwSet := mkCollPvtRwSet { cp_CollectionName : string; cp_KvRwSet : KVRWSet }.
Record NsPvtRwSet := mkNsPvtRwSet { np_NameSpace : string; np_CollPvtRwSets : list CollPvtRwSet }.
Record TxPvtRwSet := mkTxPvtRwSet { tp_NsPvtRwSet : list NsPvtRwSet }.

Definition ns_getPvtDataHash (nsRwSet : NsRwSet) (coll : string) : option bytes :=
  match list_find (λ c, ch_CollectionName c = coll) (nrw_CollHashedRwSets nsRwSet) with
  | Some (_, c) => ch_PvtRwSetHash c
  | None => None
  end.

Definition GetPvtDataHash (txRwSet : TxRwSet) (ns coll : string) : option bytes :=
  match list_find (λ n, nrw_NameSpace n = ns) (NsRwSets txRwSet) with
  | Some (_, n) => ns_getPvtDataHash n coll
  | None => None
  end.

Definition NumCollections (txRwSet : option TxRwSet) : nat :=
  match txRwSet with
  | None => 0
  | Some t => foldl (λ n ns, n + length (nrw_CollHashedRwSets ns)) 0 (NsRwSets t)
  end.

(** A loop that converts a list element by element, up to the first error. *)
Fixpoint mapO {A B} (f : A → outcome B) (l : list A) : outcome (list B) :=
  match l with
  | [] => Ok []
  | x :: l => y ← f x; ys ← mapO f l; Ok (y :: ys)
  end.

Section convert.
Context `{Codec} `{RwsetCodec}.

(** ** To messages *)
Definition coll_toProtoMsg (c : CollHashedRwSet) : outcome CollectionHashedReadWriteSet :=
  b ← marshal_HashedRWSet (ch_HashedRwSet c);
  Ok (mkCollectionHashedReadWriteSet (ch_CollectionName c) b (ch_PvtRwSetHash c)).

Definition ns_toProtoMsg (n : NsRwSet) : outcome NsReadWriteSet :=
  b ← marshal_KVRWSet (nrw_KvRwSet n);
  colls ← mapO coll_toProtoMsg (nrw_CollHashedRwSets n);
  Ok (mkNsReadWriteSet (nrw_NameSpace n) b colls).

Definition tx_toProtoMsg (t : TxRwSet) : outcome TxReadWriteSet :=
  nss ← mapO ns_toProtoMsg (NsRwSets t);
  Ok (mkTxReadWriteSet nss).

Definition ToProtoBytes (t : TxRwSet) : outcome bytes :=
  protoMsg ← tx_toProtoMsg t;
  marshal_TxReadWriteSet protoMsg.

Definition collPvt_ToProtoMsg (c : CollPvtRwSet) : outcome CollectionPvtReadWriteSet :=
  b ← marshal_KVRWSet (cp_KvRwSet c);
  Ok (mkCollectionPvtReadWriteSet (cp_CollectionName c) b).

Definition nsPvt_toProtoMsg (n : NsPvtRwSet) : outcome NsPvtReadWriteSet :=
  colls ← mapO collPvt_ToProtoMsg (np_CollPvtRwSets n);
  Ok (mkNsPvtReadWriteSet (np_NameSpace n) colls).

Definition txPvt_ToProtoMsg (t : TxPvtRwSet) : outcome TxPvtReadWriteSet :=
  nss ← mapO nsPvt_toProtoMsg (tp_NsPvtRwSet t);
  Ok (mkTxPvtReadWriteSet nss).

Definition txPvt_ToProtoBytes (t : TxPvtRwSet) : outcome bytes :=
  protoMsg ← txPvt_ToProtoMsg t;
  marshal_TxPvtReadWriteSet protoMsg.

(** ** From messages *)
Definition collHashedRwSetFromProtoMsg (p : CollectionHashedReadWriteSet) : outcome CollHashedRwSet :=
  h ← decoded (unmarshal_HashedRWSet (coll_HashedRwset p));
  Ok (mkCollHashedRwSet (coll_CollectionName p) h (coll_PvtRwsetHash p)).

Definition nsRwSetFromProtoMsg (p : NsReadWriteSet) : outcome NsRwSet :=
  kv ← decoded (unmarshal_KVRWSet (ns_Rwset p));
  colls ← mapO collHashedRwSetFromProtoMsg (ns_CollectionHashedRwset p);
  Ok (mkNsRwSet (ns_Namespace p) kv colls).

Definition TxRwSetFromProtoMsg (p : TxReadWriteSet) : outcome TxRwSet :=
  nss ← mapO nsRwSetFromProtoMsg (txrw_NsRwset p);
  Ok (mkTxRwSet nss).

Definition FromProtoBytes (protoBytes : option bytes) : outcome TxRwSet :=
  protoMsg ← decoded (unmarshal_TxReadWriteSet (default "" protoBytes));
  TxRwSetFromProtoMsg protoMsg.

Definition CollPvtRwSetFromProtoMsg (p : CollectionPvtReadWriteSet) : outcome CollPvtRwSet :=
  kv ← decoded (unmarshal_KVRWSet (cpw_Rwset p));
  Ok (mkCollPvtRwSet (cpw_CollectionName p) kv).

Definition nsPvtRwSetFromProtoMsg (p : NsPvtReadWriteSet) : outcome NsPvtRwSet :=
  colls ← mapO CollPvtRwSetFromProtoMsg (npw_CollectionPvtRwset p);
  Ok (mkNsPvtRwSet (npw_Namespace p) colls).

Definition TxPvtRwSetFromProtoMsg (p : TxPvtReadWriteSet) : outcome TxPvtRwSet :=
  nss ← mapO nsPvtRwSetFromProtoMsg (tpw_NsPvtRwset p);
  Ok (mkTxPvtRwSet nss).

Definition txPvt_FromProtoBytes (protoBytes : bytes) : outcome TxPvtRwSet :=
  protoMsg ← decoded (unmarshal_TxPvtReadWriteSet protoBytes);
  TxPvtRwSetFromProtoMsg protoMsg.

(** ** statemetadata *)
Definition Serialize (metadataEntries : list KVMetadataEntry) : outcome bytes :=
  marshal_KVMetadataWrite (mkKVMetadataWrite "" metadataEntries).

Definition Deserialize (metadataBytes : option bytes) : outcome (option (gmap string bytes)) :=
  match metadataBytes with
  | None => Ok None
  | Some b =>
      metadata ← decoded (unmarshal_KVMetadataWrite b);
      Ok (Some (foldl (λ m e, <[me_Name e := me_Value e]> m) ∅ (mw_Entries metadata)))
  end.
End convert.

(** ** Round trip

    An empty byte field is not written, so it is read back as nil. *)
Definition norm_bytes (b : option bytes) : option bytes := match b with Some "" => None | _ => b end.

Definition norm_KVRWSet (k : KVRWSet) : KVRWSet :=
  mkKVRWSet (kv_Reads k) (kv_RangeQueriesInfo k)
    (map (λ w, mkKVWrite (kvw_Key w) (kvw_IsDelete w) (norm_bytes (kvw_Value w))) (kv_Writes k)) (kv_MetadataWrites k).

Definition norm_HashedRWSet (h : HashedRWSet) : HashedRWSet :=
  mkHashedRWSet (h_HashedReads h)
    (map (λ w, mkKVWriteHash (wh_KeyHash w) (wh_IsDelete w) (norm_bytes (wh_ValueHash w)) (wh_IsPurge w)) (h_HashedWrites h))
    (h_MetadataWrites h).

Definition norm_NsRwSet (n : NsRwSet) : NsRwSet :=
  mkNsRwSet (nrw_NameSpace n) (norm_KVRWSet (nrw_KvRwSet n))
    (map (λ c, mkCollHashedRwSet (ch_CollectionName c) (norm_HashedRWSet (ch_HashedRwSet c)) (ch_PvtRwSetHash c))
      (nrw_CollHashedRwSets n)).

Definition norm_TxRwSet (t : TxRwSet) : TxRwSet := mkTxRwSet (map norm_NsRwSet (NsRwSets t)).

Definition norm_NsPvtRwSet (n : NsPvtRwSet) : NsPvtRwSet :=
  mkNsPvtRwSet (np_NameSpace n)
    (map (λ c, mkCollPvtRwSet (cp_CollectionName c) (norm_KVRWSet (cp_KvRwSet c))) (np_CollPvtRwSets n)).

Definition norm_TxPvtRwSet (t : TxPvtRwSet) : TxPvtRwSet := mkTxPvtRwSet (map norm_NsPvtRwSet (tp_NsPvtRwSet t)).

(** What the protobuf encoding of the inner messages promises. *)
Record codec_inverse `{Codec} `{RwsetCodec} : Prop := {
  inv_KVRWSet k b : marshal_KVRWSet k = Ok b → unmarshal_KVRWSet b = Some (norm_KVRWSet k);
  inv_HashedRWSet h b : marshal_HashedRWSet h = Ok b → unmarshal_HashedRWSet b = Some (norm_HashedRWSet h)
}.

Lemma mapO_roundtrip {A B C} (f : A → outcome B) (g : B → outcome C) (n : A → C) l l' :
  (∀ x y, f x = Ok y → g y = Ok (n x)) → mapO f l = Ok l' → mapO g l' = Ok (map n l).
Proof.
  intros Hfg. revert l'. induction l as [|x l IH]; intros l' E; cbn in E; [by injection E as <-|].
  destruct (f x) as [y|?|?] eqn:Ey; cbn in E; [|done..].
  destruct (mapO f l) as [ys|?|?] eqn:Eys; cbn in E; [|done..]. injection E as <-.
  cbn. rewrite (Hfg _ _ Ey). cbn. by rewrite (IH _ eq_refl).
Qed.

(** A public read-write set written to messages and read back is the same
    set, up to empty values, which come back as nil; so is a private one. *)
Theorem rwset_roundtrip `{Codec} `{RwsetCodec} (t : TxRwSet) (p : TxReadWriteSet) (t' : TxPvtRwSet) (p' : TxPvtReadWriteSet) :
  codec_inverse → tx_toProtoMsg t = Ok p → txPvt_ToProtoMsg t' = Ok p' →
  TxRwSetFromProtoMsg p = Ok (norm_TxRwSet t) ∧ TxPvtRwSetFromProtoMsg p' = Ok (norm_TxPvtRwSet t').
Proof.
  intros Hc. unfold tx_toProtoMsg, TxRwSetFromProtoMsg, txPvt_ToProtoMsg, TxPvtRwSetFromProtoMsg.
  destruct (mapO ns_toProtoMsg _) as [nss|?|?] eqn:E; cbn; [|done..]. intros [= <-].
  destruct (mapO nsPvt_toProtoMsg _) as [pss|?|?] eqn:E'; cbn; [|done..]. intros [= <-]. cbn. split.
  - erewrite mapO_roundtrip; [done| |exact E]. clear E. intros n y. unfold ns_toProtoMsg, nsRwSetFromProtoMsg.
    destruct (marshal_KVRWSet _) as [b|?|?] eqn:Eb; cbn; [|done..].
    destruct (mapO coll_toProtoMsg _) as [cs|?|?] eqn:Ec; cbn; [|done..]. intros [= <-]. cbn.
    rewrite (inv_KVRWSet Hc _ _ Eb). cbn. erewrite mapO_roundtrip; [done| |exact Ec].
    intros c z. unfold coll_toProtoMsg, collHashedRwSetFromProtoMsg.
    destruct (marshal_HashedRWSet _) as [b'|?|?] eqn:Eb'; cbn; [|done..]. intros [= <-]. cbn.
    by rewrite (inv_HashedRWSet Hc _ _ Eb').
  - erewrite mapO_roundtrip; [done| |exact E']. clear E E'. intros n y. unfold nsPvt_toProtoMsg, nsPvtRwSetFromProtoMsg.
    destruct (mapO collPvt_ToProtoMsg _) as [cs|?|?] eqn:Ec; cbn; [|done..]. intros [= <-]. cbn.
    erewrite mapO_roundtrip; [done| |exact Ec]. intros c z. unfold collPvt_ToProtoMsg, CollPvtRwSetFromProtoMsg.
    destruct (marshal_KVRWSet _) as [b'|?|?] eqn:Eb'; cbn; [|done..]. intros [= <-]. cbn.
    by rewrite (inv_KVRWSet Hc _ _ Eb').
Qed.

(** ** A codec for two messages *)
Definition toy_kv : KVRWSet := mkKVRWSet [mkKVRead "a" None] [] [mkKVWrite "a" false (Some "1"); mkKVWrite "b" true (Some "")] [].
Definition toy_hashed : HashedRWSet := mkHashedRWSet [] [mkKVWriteHash "#c" false (Some "#2") false] [].

Definition toy_rw_codec : RwsetCodec := {|
  marshal_KVRWSet k := if decide (k = toy_kv) then Ok "kv" else Err "unknown";
  marshal_HashedRWSet h := if decide (h = toy_hashed) then Ok "hashed" else Err "unknown";
  marshal_TxReadWriteSet _ := Ok "";
  marshal_TxPvtReadWriteSet _ := Ok "";
  unmarshal_TxPvtReadWriteSet _ := None;
  marshal_KVMetadataWrite _ := Ok "";
  unmarshal_KVMetadataWrite _ := None;
  marshal_QueryReads _ := Ok ""
|}.
Definition toy_rw_decoder : Codec := {|
  unmarshal_Envelope _ := None; unmarshal_Payload _ := None; unmarshal_ChannelHeader _ := None;
  unmarshal_Transaction _ := None; unmarshal_ChaincodeAction _ := None; unmarshal_TxReadWriteSet _ := None;
  unmarshal_KVRWSet b := if decide (b = "kv") then Some (norm_KVRWSet toy_kv) else None;
  unmarshal_HashedRWSet b := if decide (b = "hashed") then Some (norm_HashedRWSet toy_hashed) else None
|}.

Definition toy_tx : TxRwSet := mkTxRwSet [mkNsRwSet "cc" toy_kv [mkCollHashedRwSet "coll" toy_hashed (Some "##")]].
Definition toy_pvt : TxPvtRwSet := mkTxPvtRwSet [mkNsPvtRwSet "cc" [mkCollPvtRwSet "coll" toy_kv]].

Lemma rwset_roundtrip_witness :
  ∃ p, tx_toProtoMsg (H0 := toy_rw_codec) toy_tx = Ok p ∧
    TxRwSetFromProtoMsg (H := toy_rw_decoder) p = Ok (norm_TxRwSet toy_tx).
Proof.
  eexists. split; [reflexivity|].
  refine (proj1 (rwset_roundtrip (H := toy_rw_decoder) (H0 := toy_rw_codec) toy_tx _ toy_pvt _ _ eq_refl eq_refl)).
  split; intros ? ?; cbn; (case_decide; [|done]); intros [= <-]; subst; reflexivity.
Defined.
