(* ===== verification/RangeQuery.v ===== *)
(** * RangeQuery: summaries of range queries and their validation
      (core/ledger/kvledger/txmgmt/rwsetutil/query_results_helper.go,
       core/ledger/kvledger/txmgmt/validation/rangequery_validator.go)

    While a chaincode iterates over a key range the results are collected; when
    there are many, they are hashed in groups and the hashes arranged in a tree
    of bounded degree, of which only the top level is recorded. The validator
    runs the query again and compares. The hash function and the marshalling of
    reads are parameters. *)

From S2P Require Import Prelude GoText Utf8 Base64 Protos Height StateDb PvtState RwSetUtil.

Section merkle.
Context (hashFunc : bytes → outcome bytes) (serializeKVReads : list KVRead → outcome bytes).

(** ** The tree *)
Definition leafLevel : Z := 1.

Record merkleTree := mkMerkleTree {
  mt_tree : gmap Z (list bytes);
  mt_maxLevel : Z;
  mt_maxDegree : Z
}.

Definition newMerkleTree (maxDegree : Z) : outcome merkleTree :=
  if (maxDegree <? 2)%Z then
    Err ("maxDegree [" +:+ format_uint maxDegree +:+ "] should not be less than 2 in the merkle tree")
  else Ok (mkMerkleTree ∅ 1 maxDegree).

Definition level (m : merkleTree) (l : Z) : list bytes := default [] (mt_tree m !! l).

Definition computeCombinedHash (hashes : list bytes) : outcome bytes :=
  hashFunc (foldl String.append "" hashes).

(** A level's nodes give way to one node at the next level. *)
Definition move_up (m : merkleTree) (l : Z) (h : bytes) : gmap Z (list bytes) :=
  <[(l + 1)%Z := level m (l + 1) ++ [h]]> (delete l (mt_tree m)).

Definition exceeds (m : merkleTree) (hashes : list bytes) : bool :=
  (mt_maxDegree m <? u32 (Z.of_nat (length hashes)))%Z.

Fixpoint update_loop (fuel : nat) (m : merkleTree) (currentLevel : Z) : outcome merkleTree :=
  match fuel with
  | O => Panic "update loop"
  | S fuel =>
      let currentLevelHashes := level m currentLevel in
      if negb (exceeds m currentLevelHashes) then Ok m
      else
        nextLevelHash ← computeCombinedHash currentLevelHashes;
        let nextLevel := (currentLevel + 1)%Z in
        update_loop fuel
          (mkMerkleTree (move_up m currentLevel nextLevelHash) (Z.max nextLevel (mt_maxLevel m)) (mt_maxDegree m))
          nextLevel
  end.

(** Above the highest level nothing exceeds the degree, so that one turn per
    level is enough. *)
Definition mt_update (m : merkleTree) (nextLeafLevelHash : bytes) : outcome merkleTree :=
  update_loop (S (S (Z.to_nat (mt_maxLevel m))))
    (mkMerkleTree (<[leafLevel := level m leafLevel ++ [nextLeafLevelHash]]> (mt_tree m))
       (mt_maxLevel m) (mt_maxDegree m))
    leafLevel.

#[local] Arguments mt_update : simpl never.

Definition done_level (m : merkleTree) (l : Z) : outcome merkleTree :=
  match level m l with
  | [] => Ok m
  | [h] => Ok (mkMerkleTree (move_up m l h) (mt_maxLevel m) (mt_maxDegree m))
  | hashes =>
      h ← computeCombinedHash hashes;
      Ok (mkMerkleTree (move_up m l h) (mt_maxLevel m) (mt_maxDegree m))
  end.

Definition mt_done (m : merkleTree) : outcome merkleTree :=
  m ← foldM done_level m (seqZ leafLevel (mt_maxLevel m - leafLevel));
  let finalHashes := level m (mt_maxLevel m) in
  if exceeds m finalHashes then
    combinedHash ← computeCombinedHash finalHashes;
    Ok (mkMerkleTree (<[(mt_maxLevel m + 1)%Z := [combinedHash]]> (delete (mt_maxLevel m) (mt_tree m)))
          (mt_maxLevel m + 1) (mt_maxDegree m))
  else Ok m.

Definition getSummery (m : merkleTree) : QueryReadsMerkleSummary :=
  mkQueryReadsMerkleSummary (mt_maxDegree m) (mt_maxLevel m) (level m (mt_maxLevel m)).

Definition isEmpty (m : merkleTree) : bool :=
  (mt_maxLevel m =? 1)%Z && (length (level m (mt_maxLevel m)) =? 0)%nat.

(** ** The results helper; a nil slice of pending results is an empty one *)
Record RangeQueryResultsHelper := mkRangeQueryResultsHelper {
  rh_pendingResults : list KVRead;
  rh_mt : option merkleTree;
  rh_maxDegree : Z;
  rh_hashingEnabled : bool
}.

Definition NewRangeQueryResultsHelper (enableHashing : bool) (maxDegree : Z) : outcome RangeQueryResultsHelper :=
  if enableHashing then
    mt ← newMerkleTree maxDegree;
    Ok (mkRangeQueryResultsHelper [] (Some mt) maxDegree true)
  else Ok (mkRangeQueryResultsHelper [] None maxDegree false).

Definition processPendingResults (helper : RangeQueryResultsHelper) : outcome RangeQueryResultsHelper :=
  b ← serializeKVReads (rh_pendingResults helper);
  hash ← hashFunc b;
  mt ← deref (rh_mt helper);
  mt' ← mt_update mt hash;
  Ok (mkRangeQueryResultsHelper [] (Some mt') (rh_maxDegree helper) (rh_hashingEnabled helper)).

Definition AddResult (helper : RangeQueryResultsHelper) (kvRead : KVRead) : outcome RangeQueryResultsHelper :=
  let pending := rh_pendingResults helper ++ [kvRead] in
  let helper := mkRangeQueryResultsHelper pending (rh_mt helper) (rh_maxDegree helper) (rh_hashingEnabled helper) in
  if rh_hashingEnabled helper && (rh_maxDegree helper <? u32 (Z.of_nat (length pending)))%Z
  then processPendingResults helper
  else Ok helper.

(** The pending results and the summary, when there is one. *)
Definition helper_Done (helper : RangeQueryResultsHelper)
    : outcome (list KVRead * option QueryReadsMerkleSummary) :=
  if negb (rh_hashingEnabled helper) then Ok (rh_pendingResults helper, None)
  else
    mt ← deref (rh_mt helper);
    if isEmpty mt then Ok (rh_pendingResults helper, None)
    else
      helper ← (if (length (rh_pendingResults helper) =? 0)%nat then Ok helper else processPendingResults helper);
      mt ← deref (rh_mt helper);
      mt' ← mt_done mt;
      Ok (rh_pendingResults helper, Some (getSummery mt')).

Definition GetMerkleSummary (helper : RangeQueryResultsHelper) : option QueryReadsMerkleSummary :=
  if rh_hashingEnabled helper then getSummery <$> rh_mt helper else None.

(** ** rangequery_validator.go *)
Definition raw_reads (rqInfo : RangeQueryInfo) : list KVRead :=
  match rqi_ReadsInfo rqInfo with RawReads l => l | _ => [] end.

Definition convertToVersionHeight (v : option Version) : outcome Height :=
  v ← deref v;
  Ok (mkHeight (ver_BlockNum v) (ver_TxNum v)).

Fixpoint results_loop (rqResults : list KVRead) (result : option VersionedKV) (itr : iterator) : outcome bool :=
  match rqResults with
  | [] => Ok (match result with None => true | Some _ => false end)
  | kvRead :: rest =>
      match result with
      | None => Ok false
      | Some kv =>
          if negb (bool_decide (vkv_key kv = kvr_Key kvRead)) then Ok false
          else
            h ← convertToVersionHeight (kvr_Version kvRead);
            if negb (AreSame (vv_Version (vkv_value kv)) (Some h)) then Ok false
            else
              let '(r, itr) := itr_next itr in
              result ← r;
              results_loop rest result itr
      end
  end.

Definition results_validate (rqInfo : RangeQueryInfo) (itr : iterator) : outcome bool :=
  let '(r, itr) := itr_next itr in
  result ← r;
  results_loop (raw_reads rqInfo) result itr.

Definition merkleSummariesEqual (ms : QueryReadsMerkleSummary) (anotherMS : option QueryReadsMerkleSummary) : bool :=
  match anotherMS with
  | None => false
  | Some other =>
      (ms_MaxDegree ms =? ms_MaxDegree other)%Z && (ms_MaxLevel ms =? ms_MaxLevel other)%Z &&
      bool_decide (ms_MaxLevelHashes ms = ms_MaxLevelHashes other)
  end.

(** The loop over the results: [lastMatchedIndex] counts the hashes compared. *)
Fixpoint hash_loop (inMerkle : QueryReadsMerkleSummary) (helper : RangeQueryResultsHelper)
    (lastMatchedIndex : Z) (itr : iterator) : outcome bool :=
  match itr with
  | [] =>
      '(_, merkle) ← helper_Done helper;
      Ok (merkleSummariesEqual inMerkle merkle)
  | Err e :: _ => Err e
  | Panic e :: _ => Panic e
  | Ok result :: itr =>
      helper ← AddResult helper (NewKVRead (vkv_key result) (vv_Version (vkv_value result)));
      merkle ← deref (GetMerkleSummary helper);
      if (ms_MaxLevel merkle <? ms_MaxLevel inMerkle)%Z then hash_loop inMerkle helper lastMatchedIndex itr
      else if (lastMatchedIndex =? Z.of_nat (length (ms_MaxLevelHashes merkle)) - 1)%Z then
        hash_loop inMerkle helper lastMatchedIndex itr
      else if (length (ms_MaxLevelHashes inMerkle) <? length (ms_MaxLevelHashes merkle))%nat then Ok false
      else
        let i := Z.to_nat (lastMatchedIndex + 1) in
        h ← index (ms_MaxLevelHashes merkle) i;
        h' ← index (ms_MaxLevelHashes inMerkle) i;
        if negb (bool_decide (h = h')) then Ok false
        else hash_loop inMerkle helper (lastMatchedIndex + 1) itr
  end.

Definition hash_validate (inMerkle : QueryReadsMerkleSummary) (itr : iterator) : outcome bool :=
  helper ← NewRangeQueryResultsHelper true (ms_MaxDegree inMerkle);
  hash_loop inMerkle helper (-1) itr.

Definition read_of (kv : VersionedKV) : KVRead := NewKVRead (vkv_key kv) (vv_Version (vkv_value kv)).

(** ** What a simulation records of a query's results *)
Definition add_results (helper : RangeQueryResultsHelper) (reads : list KVRead) : outcome RangeQueryResultsHelper :=
  foldM AddResult helper reads.

Definition summarize (maxDegree : Z) (reads : list KVRead)
    : outcome (list KVRead * option QueryReadsMerkleSummary) :=
  helper ← NewRangeQueryResultsHelper true maxDegree;
  helper ← add_results helper reads;
  helper_Done helper.

(** ** Which reads a hash stands for *)
Unset Elimination Schemes.
Inductive stands : bytes → list KVRead → Prop :=
| stands_leaf h b reads : serializeKVReads reads = Ok b → hashFunc b = Ok h → stands h reads
| stands_node h hs rss : Forall2 stands hs rss → computeCombinedHash hs = Ok h → stands h (concat rss).
Set Elimination Schemes.

Lemma stands_ind (P : bytes → list KVRead → Prop) :
  (∀ h b reads, serializeKVReads reads = Ok b → hashFunc b = Ok h → P h reads) →
  (∀ h hs rss, Forall2 (λ h r, stands h r ∧ P h r) hs rss → computeCombinedHash hs = Ok h → P h (concat rss)) →
  ∀ h reads, stands h reads → P h reads.
Proof.
  intros Hleaf Hnode. fix IH 3. intros h reads [h' b r Hb Hh|h' hs rss Hall Hh]; [by eapply Hleaf|].
  apply (Hnode h' hs rss); [|done]. clear Hh.
  induction Hall as [|x r hs rss Hx Hall IHall]; constructor; auto.
Qed.

Definition spans (hs : list bytes) (reads : list KVRead) : Prop :=
  ∃ rss, Forall2 stands hs rss ∧ reads = concat rss.

(** The nodes of a tree from the top level down. *)
Fixpoint flat (f : Z → list bytes) (n : nat) : list bytes :=
  match n with
  | O => []
  | S k => f (Z.of_nat n) ++ flat f k
  end.

Record wf (m : merkleTree) : Prop := {
  wf_degree : (2 ≤ mt_maxDegree m)%Z;
  wf_top : (1 ≤ mt_maxLevel m)%Z;
  wf_out l : (l < 1 ∨ mt_maxLevel m < l)%Z → level m l = []
}.

Definition nodes (m : merkleTree) : list bytes := flat (level m) (Z.to_nat (mt_maxLevel m)).
Definition top (m : merkleTree) : list bytes := level m (mt_maxLevel m).

Lemma spans_app hs hs' r r' : spans hs r → spans hs' r' → spans (hs ++ hs') (r ++ r').
Proof.
  intros (rss & H1 & ->) (rss' & H2 & ->). exists (rss ++ rss').
  split; [by apply Forall2_app|]. by rewrite concat_app.
Qed.

Lemma spans_app_inv hs hs' r : spans (hs ++ hs') r → ∃ r1 r2, spans hs r1 ∧ spans hs' r2 ∧ r = r1 ++ r2.
Proof.
  intros (rss & H & ->). apply Forall2_app_inv_l in H as (r1 & r2 & H1 & H2 & ->).
  exists (concat r1), (concat r2). split_and!; [by exists r1|by exists r2|by rewrite concat_app].
Qed.

Lemma spans_one h r : stands h r → spans [h] r.
Proof. intros H. exists [r]. split; [by repeat constructor|]. cbn. by rewrite app_nil_r. Qed.

Lemma spans_nil r : spans [] r → r = [].
Proof. intros (rss & H & ->). apply Forall2_nil_inv_l in H. by subst. Qed.

Lemma spans_combine hs h r : spans hs r → computeCombinedHash hs = Ok h → spans [h] r.
Proof. intros (rss & H & ->) Hh. apply spans_one. by eapply stands_node. Qed.

(** ** One level gives way to a node of the next *)
Lemma flat_nil f n : (∀ l, (1 ≤ l ≤ Z.of_nat n)%Z → f l = []) → flat f n = [].
Proof.
  induction n as [|n IH]; intros H; [done|]. cbn [flat]. rewrite H, IH; [done| |lia].
  intros l Hl. apply H. lia.
Qed.

Lemma flat_ext f g n : (∀ l, (1 ≤ l ≤ Z.of_nat n)%Z → f l = g l) → flat f n = flat g n.
Proof.
  induction n as [|n IH]; intros H; [done|]. cbn [flat]. rewrite H by lia. f_equal. apply IH.
  intros l Hl. apply H. lia.
Qed.

Lemma flat_move f g n l h :
  (1 ≤ l < Z.of_nat n)%Z → (∀ k, k ≠ l → k ≠ (l + 1)%Z → g k = f k) → g l = [] →
  g (l + 1)%Z = f (l + 1)%Z ++ [h] → (∀ k, (1 ≤ k < l)%Z → f k = []) →
  ∃ A, flat f n = A ++ f l ∧ flat g n = A ++ [h].
Proof.
  induction n as [|n IH]; intros Hl Hother Hg Hnext Hbelow; [lia|]. cbn [flat].
  destruct (decide (l + 1 = Z.of_nat (S n))%Z) as [E|].
  - exists (f (l + 1)%Z). rewrite <-E, Hnext. destruct n as [|n]; [lia|]. cbn [flat].
    replace (Z.of_nat (S n)) with l by lia.
    rewrite (flat_nil f n), (flat_nil g n), Hg, !app_nil_r; [done|..]; intros k Hk.
    + rewrite Hother by lia. apply Hbelow. lia.
    + apply Hbelow. lia.
  - destruct IH as (A & HA & HA'); [lia|done..|]. exists (f (Z.of_nat (S n)) ++ A).
    rewrite HA, HA', (Hother (Z.of_nat (S n))) by lia. by rewrite <-!app_assoc.
Qed.

Lemma level_move_up m l h M D k :
  level (mkMerkleTree (move_up m l h) M D) k =
  if decide (k = l + 1)%Z then level m (l + 1) ++ [h] else if decide (k = l) then [] else level m k.
Proof.
  unfold level at 1, move_up. cbn [mt_tree].
  destruct (decide (k = l + 1)%Z) as [->|]; [by rewrite lookup_insert_eq|].
  rewrite lookup_insert_ne by done. destruct (decide (k = l)) as [->|]; [by rewrite lookup_delete_eq|].
  by rewrite lookup_delete_ne.
Qed.

Lemma wf_move m l h M :
  wf m → (1 ≤ l ≤ mt_maxLevel m)%Z → M = Z.max (l + 1) (mt_maxLevel m) →
  wf (mkMerkleTree (move_up m l h) M (mt_maxDegree m)).
Proof.
  intros [Hd Ht Ho] Hl ->. split; cbn; [done|lia|]. intros k Hk. rewrite level_move_up.
  rewrite !decide_False by lia. apply Ho. lia.
Qed.

Lemma nodes_move m l h M :
  wf m → (1 ≤ l ≤ mt_maxLevel m)%Z → M = Z.max (l + 1) (mt_maxLevel m) →
  (∀ k, (1 ≤ k < l)%Z → level m k = []) →
  ∃ A, nodes m = A ++ level m l ∧ nodes (mkMerkleTree (move_up m l h) M (mt_maxDegree m)) = A ++ [h].
Proof.
  intros [Hd Ht Ho] Hl -> Hbelow. unfold nodes. cbn [mt_maxLevel].
  replace (flat (level m) (Z.to_nat (mt_maxLevel m)))
    with (flat (level m) (Z.to_nat (Z.max (l + 1) (mt_maxLevel m)))).
  - apply flat_move; [lia|..|done]; intros; rewrite level_move_up; repeat (rewrite decide_False by lia); [done|..].
    + by rewrite decide_True.
    + by rewrite decide_True.
  - destruct (Z.max_spec (l + 1) (mt_maxLevel m)) as [[? ->]|[? ->]]; [done|].
    destruct (decide (l + 1 = mt_maxLevel m)%Z) as [->|]; [done|].
    replace (Z.to_nat (l + 1)) with (S (Z.to_nat (mt_maxLevel m))) by lia. cbn [flat].
    rewrite Ho; [done|lia].
Qed.
(** ** What an update does to the top of the tree: nothing, one more node, or
       a new level with one node *)
Definition grow (m m' : merkleTree) : Prop :=
  (mt_maxLevel m' = mt_maxLevel m ∧ (top m' = top m ∨ ∃ x, top m' = top m ++ [x])) ∨
  (mt_maxLevel m' = (mt_maxLevel m + 1)%Z ∧ ∃ x, top m' = [x]).

Definition raised (m m' : merkleTree) : Prop :=
  m' = m ∨ (mt_maxLevel m' = (mt_maxLevel m + 1)%Z ∧ ∃ x, top m' = [x]).

Lemma grow_proper m1 m m' : mt_maxLevel m1 = mt_maxLevel m → top m1 = top m → grow m1 m' → grow m m'.
Proof. unfold grow. by intros -> ->. Qed.

Lemma exceeds_one m h : wf m → exceeds m [h] = false.
Proof. intros [Hd _ _]. unfold exceeds. cbn. apply Z.ltb_ge. cbv [u32 wrap]. rewrite Z.mod_small; lia. Qed.

Lemma update_loop_one fuel m l h m' :
  wf m → level m l = [h] → update_loop fuel m l = Ok m' → m' = m.
Proof.
  intros Hwf Hl. destruct fuel as [|fuel]; cbn [update_loop]; [done|].
  rewrite Hl, exceeds_one by done. cbn. by intros [= ->].
Qed.

Lemma update_loop_wf fuel m l m' :
  update_loop fuel m l = Ok m' → wf m → (1 ≤ l ≤ mt_maxLevel m)%Z →
  wf m' ∧ mt_maxDegree m' = mt_maxDegree m.
Proof.
  revert m l. induction fuel as [|fuel IH]; intros m l; cbn [update_loop]; [done|].
  destruct (exceeds m (level m l)); cbn; [|by intros [= ->]].
  destruct (computeCombinedHash (level m l)) as [h|?|?]; cbn; [|done..]. intros E Hwf Hl.
  eapply IH in E; [done|by apply wf_move|cbn; lia].
Qed.

Lemma update_loop_spans fuel m l m' r :
  update_loop fuel m l = Ok m' → wf m → (1 ≤ l ≤ mt_maxLevel m)%Z →
  (∀ k, (1 ≤ k < l)%Z → level m k = []) → spans (nodes m) r → spans (nodes m') r.
Proof.
  revert m l. induction fuel as [|fuel IH]; intros m l; cbn [update_loop]; [done|].
  destruct (exceeds m (level m l)); cbn; [|by intros [= ->]].
  destruct (computeCombinedHash (level m l)) as [h|?|?] eqn:Hh; cbn; [|done..].
  intros E Hwf Hl Hbelow Hr.
  destruct (nodes_move m l h _ Hwf Hl eq_refl Hbelow) as (A & HA & HA').
  eapply IH in E; [done|by apply wf_move|cbn; lia|..].
  - intros k Hk. rewrite level_move_up, decide_False by lia.
    destruct (decide (k = l)); [done|]. apply Hbelow. lia.
  - rewrite HA'. rewrite HA in Hr. apply spans_app_inv in Hr as (r1 & r2 & H1 & H2 & ->).
    apply spans_app; [done|]. by eapply spans_combine.
Qed.

Lemma update_loop_grow fuel m l m' :
  update_loop fuel m l = Ok m' → wf m → (1 ≤ l ≤ mt_maxLevel m)%Z →
  (l < mt_maxLevel m → grow m m')%Z ∧ (l = mt_maxLevel m → raised m m').
Proof.
  revert m l. induction fuel as [|fuel IH]; intros m l; cbn [update_loop]; [done|].
  destruct (exceeds m (level m l)); cbn.
  2:{ intros [= ->] _ _. split; intros; left; auto. }
  destruct (computeCombinedHash (level m l)) as [h|?|?]; cbn; [|done..]. intros E Hwf Hl.
  pose proof (wf_move m l h _ Hwf Hl eq_refl) as Hwf'. split; intros Hlt.
  - destruct (IH _ _ E Hwf' ltac:(cbn; lia)) as [H1 H2]. cbn [mt_maxLevel] in H1, H2.
    rewrite Z.max_r in * by lia.
    destruct (decide (l + 1 = mt_maxLevel m)%Z) as [Hn|].
    + destruct (H2 Hn) as [->|[? ?]]; [|by right]. left. split; [done|]. right. exists h.
      unfold top. cbn [mt_maxLevel]. by rewrite level_move_up, decide_True, Hn.
    + eapply grow_proper; [..|apply H1; lia]; [done|].
      unfold top. cbn [mt_maxLevel]. by rewrite level_move_up, !decide_False by lia.
  - assert (level (mkMerkleTree (move_up m l h) (Z.max (l + 1) (mt_maxLevel m)) (mt_maxDegree m)) (l + 1) = [h])
      as Hone.
    { rewrite level_move_up, decide_True by done. rewrite (wf_out _ Hwf (l + 1)) by lia. done. }
    apply update_loop_one with (h := h) in E as ->; [|done..]. right. cbn [mt_maxLevel].
    rewrite Z.max_l by lia. split; [lia|]. exists h. unfold top. cbn [mt_maxLevel].
    rewrite Z.max_l in * by lia. done.
Qed.

Lemma level_push m h M D k :
  level (mkMerkleTree (<[leafLevel := level m leafLevel ++ [h]]> (mt_tree m)) M D) k =
  if decide (k = 1%Z) then level m 1 ++ [h] else level m k.
Proof.
  unfold level at 1, leafLevel. cbn [mt_tree].
  destruct (decide (k = 1%Z)) as [->|]; [by rewrite lookup_insert_eq|by rewrite lookup_insert_ne].
Qed.

Lemma flat_push f g n h :
  (1 ≤ n)%nat → g 1%Z = f 1%Z ++ [h] → (∀ k, k ≠ 1%Z → g k = f k) → flat g n = flat f n ++ [h].
Proof.
  intros Hn Hg Hother. induction n as [|n IH]; [lia|]. cbn [flat].
  destruct n as [|n]; [change (Z.of_nat 1) with 1%Z; cbn [flat]; by rewrite Hg, !app_nil_r|].
  rewrite IH, Hother by lia. by rewrite <-!app_assoc.
Qed.

Lemma mt_update_spec m h m' r r' :
  mt_update m h = Ok m' → wf m → spans (nodes m) r → stands h r' →
  wf m' ∧ mt_maxDegree m' = mt_maxDegree m ∧ spans (nodes m') (r ++ r') ∧ grow m m'.
Proof.
  unfold mt_update. set (m1 := mkMerkleTree _ _ _). intros E Hwf Hr Hh. pose proof Hwf as [Hd Ht Ho].
  assert (wf m1) as Hwf1.
  { split; [done|done|]. intros k Hk. unfold m1. rewrite level_push, decide_False by (cbn in Hk; lia). by apply Ho. }
  assert (spans (nodes m1) (r ++ r')) as Hs.
  { unfold nodes. rewrite (flat_push (level m) (level m1) _ h); [|cbn; lia|..].
    - apply spans_app; [done|by apply spans_one].
    - unfold m1. by rewrite level_push, decide_True.
    - intros k Hk. unfold m1. by rewrite level_push, decide_False. }
  assert (1 ≤ leafLevel ≤ mt_maxLevel m1)%Z as Hl by (unfold leafLevel; cbn; lia).
  destruct (update_loop_wf _ _ _ _ E Hwf1 Hl) as [Hwf' Hd'].
  destruct (update_loop_grow _ _ _ _ E Hwf1 Hl) as [Hlt Heq].
  split_and!; [done|done| |].
  - eapply update_loop_spans; [done..| |done]. unfold leafLevel. lia.
  - destruct (decide (1 < mt_maxLevel m)%Z) as [Hk|Hk].
    + apply (grow_proper m1); [done| |by apply Hlt]. unfold top, m1. cbn [mt_maxLevel]. by rewrite level_push, decide_False by lia.
    + assert (mt_maxLevel m = 1%Z) as Hone by lia.
      destruct Heq as [->|[? ?]]; [cbn; done| |by right]. left. split; [done|]. right. exists h.
      unfold top, m1. cbn [mt_maxLevel]. by rewrite level_push, decide_True, Hone.
Qed.

(** ** Completing the tree *)
Definition ext (m m' : merkleTree) : Prop :=
  (mt_maxLevel m < mt_maxLevel m')%Z ∨ (mt_maxLevel m = mt_maxLevel m' ∧ top m `prefix_of` top m').

#[local] Instance ext_preorder : PreOrder ext.
Proof.
  split; [by right|]. intros m1 m2 m3 [H|[H P]] [H'|[H' P']]; [left; lia..|].
  right. split; [congruence|by etrans].
Qed.

Lemma grow_ext m m' : grow m m' → ext m m'.
Proof.
  intros [[? [E|[x E]]]|[? _]]; [right|right|left; lia]; rewrite E; (split; [congruence|]); [done|by eexists].
Qed.

Lemma done_level_spec m l m' r :
  done_level m l = Ok m' → wf m → (1 ≤ l < mt_maxLevel m)%Z →
  (∀ k, (1 ≤ k < l)%Z → level m k = []) → spans (nodes m) r →
  wf m' ∧ mt_maxDegree m' = mt_maxDegree m ∧ mt_maxLevel m' = mt_maxLevel m ∧ ext m m' ∧
  (∀ k, (1 ≤ k < l + 1)%Z → level m' k = []) ∧ spans (nodes m') r.
Proof.
  intros E Hwf Hl Hbelow Hr.
  assert (∀ h, (∀ s, spans (level m l) s → spans [h] s) →
    m' = mkMerkleTree (move_up m l h) (mt_maxLevel m) (mt_maxDegree m) →
    wf m' ∧ mt_maxDegree m' = mt_maxDegree m ∧ mt_maxLevel m' = mt_maxLevel m ∧ ext m m' ∧
    (∀ k, (1 ≤ k < l + 1)%Z → level m' k = []) ∧ spans (nodes m') r) as Hmove.
  { intros h Hh ->. assert (mt_maxLevel m = Z.max (l + 1) (mt_maxLevel m)) as HM by lia.
    destruct (nodes_move m l h (mt_maxLevel m) Hwf ltac:(lia) HM Hbelow) as (A & HA & HA').
    split_and!; [apply wf_move; [done|lia|done]|done|done|..].
    - right. split; [done|]. unfold top. cbn [mt_maxLevel]. rewrite level_move_up.
      case_decide as Hk; [rewrite Hk; by eexists|]. by rewrite decide_False by lia.
    - intros k Hk. rewrite level_move_up, decide_False by lia. case_decide; [done|]. apply Hbelow. lia.
    - rewrite HA'. rewrite HA in Hr. apply spans_app_inv in Hr as (r1 & r2 & H1 & H2 & ->).
      apply spans_app; auto. }
  unfold done_level in E. destruct (level m l) as [|h [|h' hs]] eqn:Hlev.
  - injection E as <-. split_and!; [done..| |done]. intros k Hk.
    destruct (decide (k = l)) as [->|]; [done|]. apply Hbelow. lia.
  - injection E as <-. by apply (Hmove h).
  - destruct (computeCombinedHash (h :: h' :: hs)) as [c|?|?] eqn:Hc; cbn in E; [|done..].
    injection E as <-. apply (Hmove c); [|done]. intros s Hs. by eapply spans_combine.
Qed.

Lemma done_levels_spec n m l m' r :
  foldM done_level m (seqZ l (Z.of_nat n)) = Ok m' → wf m → (1 ≤ l)%Z → (l + Z.of_nat n = mt_maxLevel m)%Z →
  (∀ k, (1 ≤ k < l)%Z → level m k = []) → spans (nodes m) r →
  wf m' ∧ mt_maxDegree m' = mt_maxDegree m ∧ mt_maxLevel m' = mt_maxLevel m ∧ ext m m' ∧
  (∀ k, (1 ≤ k < mt_maxLevel m')%Z → level m' k = []) ∧ spans (nodes m') r.
Proof.
  revert m l. induction n as [|n IH]; intros m l E Hwf Hl Hn Hbelow Hr.
  - cbn in E. injection E as <-. split_and!; [done..| |done]. intros. apply Hbelow. lia.
  - rewrite seqZ_cons in E by lia. cbn [foldM] in E.
    replace (Z.pred (Z.of_nat (S n))) with (Z.of_nat n) in E by lia.
    destruct (done_level m l) as [m1|?|?] eqn:E1; [|done..].
    apply (done_level_spec _ _ _ r) in E1 as (Hwf1 & Hd1 & HM1 & Hext1 & Hb1 & Hs1); [|done|lia|done|done].
    apply IH in E as (? & ? & ? & Hext & ? & ?); [|done|lia|lia|done|done].
    split_and!; [done|congruence|congruence|by etrans|done|done].
Qed.

Lemma nodes_top m r :
  wf m → (∀ k, (1 ≤ k < mt_maxLevel m)%Z → level m k = []) → spans (nodes m) r → spans (top m) r.
Proof.
  intros [_ Ht _] Hbelow. unfold nodes, top.
  destruct (Z.to_nat (mt_maxLevel m)) as [|n] eqn:Hn; [lia|]. cbn [flat].
  rewrite flat_nil, app_nil_r; [|intros; apply Hbelow; lia]. by replace (Z.of_nat (S n)) with (mt_maxLevel m) by lia.
Qed.

Lemma mt_done_spec m m' r :
  mt_done m = Ok m' → wf m → spans (nodes m) r →
  mt_maxDegree m' = mt_maxDegree m ∧ ext m m' ∧ spans (top m') r.
Proof.
  unfold mt_done. intros E Hwf Hr. pose proof (wf_top _ Hwf) as Ht.
  destruct (foldM done_level m _) as [m1|?|?] eqn:E1; cbn in E; [|done..].
  replace (mt_maxLevel m - leafLevel)%Z with (Z.of_nat (Z.to_nat (mt_maxLevel m - 1))) in E1
    by (unfold leafLevel; lia).
  apply (done_levels_spec _ _ _ _ r) in E1 as (Hwf1 & Hd1 & HM1 & Hext & Hb & Hs);
    [|unfold leafLevel; first [done|lia]..].
  pose proof (nodes_top _ _ Hwf1 Hb Hs) as Htop.
  destruct (exceeds m1 _); [|by injection E as <-].
  destruct (computeCombinedHash _) as [c|?|?] eqn:Hc; cbn in E; [|done..]. injection E as <-.
  split_and!; [done|left; cbn; lia|].
  unfold top, level. cbn [mt_maxLevel mt_tree]. rewrite lookup_insert_eq. by eapply spans_combine.
Qed.

(** ** The results helper *)
Definition hinv (d : Z) (mt : merkleTree) (reads : list KVRead) (helper : RangeQueryResultsHelper) : Prop :=
  ∃ pending r, helper = mkRangeQueryResultsHelper pending (Some mt) d true ∧ wf mt ∧ mt_maxDegree mt = d ∧
    spans (nodes mt) r ∧ reads = r ++ pending.

Lemma hinv_new d helper :
  NewRangeQueryResultsHelper true d = Ok helper → hinv d (mkMerkleTree ∅ 1 d) [] helper.
Proof.
  unfold NewRangeQueryResultsHelper, newMerkleTree. destruct (Z.ltb_spec d 2); cbn; [done|]. intros [= <-].
  exists [], []. split_and!; [done| |done| |done].
  - split; [done|done|]. intros l _. done.
  - by exists [].
Qed.

Lemma processPendingResults_spec d mt reads helper helper' :
  hinv d mt reads helper → processPendingResults helper = Ok helper' →
  ∃ mt', hinv d mt' reads helper' ∧ grow mt mt' ∧ rh_pendingResults helper' = [].
Proof.
  intros (pending & r & -> & Hwf & Hd & Hr & ->). unfold processPendingResults. cbn.
  destruct (serializeKVReads pending) as [b|?|?] eqn:Hb; cbn; [|done..].
  destruct (hashFunc b) as [h|?|?] eqn:Hh; cbn; [|done..].
  destruct (mt_update mt h) as [mt'|?|?] eqn:E; cbn; [|done..]. intros [= <-].
  apply (mt_update_spec _ _ _ r pending) in E as (Hwf' & Hd' & Hs & Hg); [|done|done|by eapply stands_leaf].
  exists mt'. split_and!; [|done|done]. exists [], (r ++ pending).
  split_and!; [done|done|congruence|done|by rewrite app_nil_r].
Qed.

Lemma AddResult_spec d mt reads x helper helper' :
  hinv d mt reads helper → AddResult helper x = Ok helper' →
  ∃ mt', hinv d mt' (reads ++ [x]) helper' ∧ grow mt mt'.
Proof.
  intros (pending & r & -> & Hwf & Hd & Hr & ->). unfold AddResult. cbn.
  assert (hinv d mt ((r ++ pending) ++ [x]) (mkRangeQueryResultsHelper (pending ++ [x]) (Some mt) d true)) as Hi.
  { exists (pending ++ [x]), r. split_and!; [done..|]. by rewrite app_assoc. }
  case_match; intros E.
  - apply (processPendingResults_spec _ _ _ _ _ Hi) in E as (mt' & ? & ? & _). by exists mt'.
  - injection E as <-. exists mt. split; [done|]. left. auto.
Qed.

Lemma add_results_spec d mt reads more helper helper' :
  hinv d mt reads helper → add_results helper more = Ok helper' →
  ∃ mt', hinv d mt' (reads ++ more) helper' ∧ ext mt mt'.
Proof.
  unfold add_results. revert mt reads helper. induction more as [|x more IH]; intros mt reads helper Hi E; cbn in E.
  - injection E as <-. exists mt. by rewrite app_nil_r.
  - destruct (AddResult helper x) as [h1|?|?] eqn:E1; [|done..].
    destruct (AddResult_spec _ _ _ _ _ _ Hi E1) as (mt1 & Hi1 & Hg).
    destruct (IH _ _ _ Hi1 E) as (mt' & Hi' & He). exists mt'. rewrite <-app_assoc in Hi'.
    split; [done|]. etrans; [by apply grow_ext|done].
Qed.

(** What [Done] gives back: the reads themselves, or a summary that stands for
    them. *)
Lemma helper_Done_spec d mt reads helper pending oms :
  hinv d mt reads helper → helper_Done helper = Ok (pending, oms) →
  match oms with
  | None => pending = reads
  | Some ms => pending = [] ∧ ms_MaxDegree ms = d ∧ spans (ms_MaxLevelHashes ms) reads ∧
               ∃ mt', ext mt mt' ∧ ms = getSummery mt'
  end.
Proof.
  intros Hi. pose proof Hi as (pend & r & -> & Hwf & Hd & Hr & Hreads). unfold helper_Done. cbn.
  destruct (isEmpty mt) eqn:He; intros E.
  { injection E as <- <-. unfold isEmpty in He. apply andb_prop in He as [HM%Z.eqb_eq HT%Nat.eqb_eq].
    rewrite HM in HT. apply nil_length_inv in HT. unfold nodes in Hr. rewrite HM in Hr.
    change (Z.to_nat 1) with 1%nat in Hr. cbn [flat] in Hr. change (Z.of_nat 1) with 1%Z in Hr.
    rewrite HT in Hr. apply spans_nil in Hr. by subst. }
  assert (∃ h1 mt1, (if (length pend =? 0)%nat then Ok (mkRangeQueryResultsHelper pend (Some mt) d true)
      else processPendingResults (mkRangeQueryResultsHelper pend (Some mt) d true)) = Ok h1 ∧
    hinv d mt1 reads h1 ∧ ext mt mt1 ∧ rh_pendingResults h1 = []) as (h1 & mt1 & E1 & Hi1 & Hext1 & Hp1).
  { destruct (Nat.eqb_spec (length pend) 0) as [Hz|]; [|].
    - apply nil_length_inv in Hz. subst pend. exists (mkRangeQueryResultsHelper [] (Some mt) d true), mt. by split_and!.
    - destruct (processPendingResults _) as [h1|?|?] eqn:E1; cbn in E; [|done..].
      destruct (processPendingResults_spec _ _ _ _ _ Hi E1) as (mt1 & ? & ? & ?).
      exists h1, mt1. split_and!; [done..|by apply grow_ext|done]. }
  rewrite E1 in E. destruct Hi1 as (p1 & r1 & -> & Hwf1 & Hd1 & Hr1 & ->). cbn in E, Hp1. subst p1.
  destruct (mt_done mt1) as [mt2|?|?] eqn:E2; cbn in E; [|done..]. injection E as <- <-.
  apply (mt_done_spec _ _ r1) in E2 as (Hd2 & Hext2 & Hs2); [|done..].
  rewrite app_nil_r. split_and!; [done|cbn; congruence|done|]. exists mt2. split; [by etrans|done].
Qed.
(** ** Recorded summaries and the validation of a query run again *)
Lemma summarize_inv d reads pending oms :
  summarize d reads = Ok (pending, oms) →
  ∃ helper mt helper', NewRangeQueryResultsHelper true d = Ok helper ∧ add_results helper reads = Ok helper' ∧
    hinv d (mkMerkleTree ∅ 1 d) [] helper ∧ hinv d mt reads helper' ∧ helper_Done helper' = Ok (pending, oms).
Proof.
  unfold summarize. destruct (NewRangeQueryResultsHelper true d) as [helper|?|?] eqn:E0; cbn; [|done..].
  destruct (add_results helper reads) as [helper'|?|?] eqn:E1; cbn; [|done..]. intros E.
  pose proof (hinv_new _ _ E0) as Hi. destruct (add_results_spec _ _ _ _ _ _ Hi E1) as (mt & Hi' & _).
  by exists helper, mt, helper'.
Qed.

(** The validator's answer is the comparison of summaries. *)
Lemma hash_loop_sound ms helper last kvs :
  hash_loop ms helper last (Ok <$> kvs) = Ok true →
  ∃ helper' pending, add_results helper (read_of <$> kvs) = Ok helper' ∧ helper_Done helper' = Ok (pending, Some ms).
Proof.
  revert helper last. induction kvs as [|kv kvs IH]; intros helper last; cbn [fmap list_fmap hash_loop].
  - destruct (helper_Done helper) as [[p oms]|?|?] eqn:E; cbn; [|done..]. intros [= Heq].
    exists helper, p. split; [done|]. rewrite E. do 2 f_equal.
    destruct oms as [ms'|]; [|done]. cbn in Heq. f_equal.
    apply andb_prop in Heq as [[H1%Z.eqb_eq H2%Z.eqb_eq]%andb_prop H3%bool_decide_eq_true].
    destruct ms, ms'; cbn in *; congruence.
  - unfold add_results. cbn [foldM]. fold (read_of kv).
    destruct (AddResult helper (read_of kv)) as [h1|?|?]; cbn; [|done..].
    destruct (GetMerkleSummary h1) as [merkle|]; cbn; [|done].
    case_match; [apply IH|]. case_match; [apply IH|]. case_match; [done|].
    destruct (index (ms_MaxLevelHashes merkle) _) as [x|?|?]; cbn; [|done..].
    destruct (index (ms_MaxLevelHashes ms) _) as [y|?|?]; cbn; [|done..].
    destruct (bool_decide (x = y)); [apply IH|done].
Qed.

Lemma hash_validate_inv ms kvs :
  hash_validate ms (Ok <$> kvs) = Ok true →
  ∃ pending, summarize (ms_MaxDegree ms) (read_of <$> kvs) = Ok (pending, Some ms).
Proof.
  unfold hash_validate, summarize. destruct (NewRangeQueryResultsHelper _ _) as [helper|?|?]; cbn; [|done..].
  intros (helper' & pending & -> & E)%hash_loop_sound. by exists pending.
Qed.

Section binding.
Context (n : nat).
Hypothesis hash_injective : ∀ x y h, hashFunc x = Ok h → hashFunc y = Ok h → x = y.
Hypothesis hash_length : ∀ x h, hashFunc x = Ok h → String.length h = S n.
Hypothesis reads_injective : ∀ r r' b, serializeKVReads r = Ok b → serializeKVReads r' = Ok b → r = r'.
Hypothesis no_confusion : ∀ r b h hs h',
  serializeKVReads r = Ok b → hashFunc b = Ok h → computeCombinedHash hs = Ok h' →
  Forall (λ h, ∃ x, hashFunc x = Ok h) hs → b ≠ foldl String.append "" hs.

Lemma stands_image h r : stands h r → ∃ x, hashFunc x = Ok h.
Proof. destruct 1; eauto. Qed.

Lemma foldl_append s l : foldl String.append s l = s +:+ foldl String.append "" l.
Proof.
  revert s. induction l as [|x l IH]; intros s; cbn [foldl]; [by rewrite string_app_nil_r|].
  by rewrite (IH (s +:+ x)), (IH ("" +:+ x)), string_app_assoc.
Qed.

Lemma concat_hashes_inj hs hs' :
  Forall (λ h, ∃ x, hashFunc x = Ok h) hs → Forall (λ h, ∃ x, hashFunc x = Ok h) hs' →
  foldl String.append "" hs = foldl String.append "" hs' → hs = hs'.
Proof.
  intros H1. revert hs'. induction H1 as [|h hs [x Hx] _ IH]; intros hs' H2.
  - destruct H2 as [|h' hs' [x' Hx'] _]; [done|]. cbn. rewrite foldl_append. apply hash_length in Hx'.
    by destruct h'.
  - destruct H2 as [|h' hs' [x' Hx'] H2]; cbn.
    + rewrite foldl_append. apply hash_length in Hx. by destruct h.
    + rewrite (foldl_append h), (foldl_append h').
      intros [-> E]%string_app_inj_length; [|by rewrite (hash_length _ _ Hx), (hash_length _ _ Hx')].
      f_equal. by apply IH.
Qed.

Lemma stands_functional h r r' : stands h r → stands h r' → r = r'.
Proof.
  intros H. revert r'. induction H as [h b reads Hb Hh|h hs rss Hall Hh] using stands_ind; intros r' H'.
  - destruct H' as [h b' reads' Hb' Hh'|h hs rss Hall Hh'].
    + rewrite (hash_injective _ _ _ Hh Hh') in Hb. by eapply reads_injective.
    + exfalso. eapply no_confusion; [exact Hb|exact Hh|exact Hh'| |by eapply hash_injective].
      eapply Forall2_Forall_l; [exact Hall|]. apply Forall_true. intros ??. apply stands_image.
  - assert (Forall (λ h, ∃ x, hashFunc x = Ok h) hs) as Him.
    { eapply Forall2_Forall_l; [exact Hall|]. apply Forall_true. intros ?? [? ?]. by eapply stands_image. }
    destruct H' as [h b' reads' Hb' Hh'|h hs' rss' Hall' Hh'].
    + exfalso. eapply no_confusion; [exact Hb'|exact Hh'|exact Hh|done|by eapply hash_injective].
    + apply (hash_injective _ _ _ Hh), concat_hashes_inj in Hh' as <-; [|done|].
      * f_equal. clear Hh Him. revert rss' Hall'.
        induction Hall as [|x r hs rss [_ Hx] _ IH]; intros rss' H'; inv H'; [done|]. f_equal; auto.
      * eapply Forall2_Forall_l; [exact Hall'|]. apply Forall_true. intros ??. apply stands_image.
Qed.

Lemma spans_functional hs r r' : spans hs r → spans hs r' → r = r'.
Proof.
  intros (rss & H1 & ->) (rss' & H2 & ->). f_equal. revert rss' H2.
  induction H1 as [|x r hs rss Hx _ IH]; intros rss' H2; inv H2; [done|].
  f_equal; [by eapply stands_functional|by apply IH].
Qed.

(** C31: A query validated against the summary a simulation recorded has, read
    again, the results it had then, keys, versions and order; the hash function
    may be defined on some inputs only, those that occur, and on these is
    injective, of fixed length and apart from marshalled reads. *)
Theorem hash_validate_sound d reads pending ms kvs :
  summarize d reads = Ok (pending, Some ms) → hash_validate ms (Ok <$> kvs) = Ok true →
  read_of <$> kvs = reads.
Proof.
  intros (?&?&?&_&_&_& Hi & Hd)%summarize_inv Hv.
  apply hash_validate_inv in Hv as (? & (?&?&?&_&_&_& Hi' & Hd')%summarize_inv).
  destruct (helper_Done_spec _ _ _ _ _ _ Hi Hd) as (_ & _ & Hs & _).
  destruct (helper_Done_spec _ _ _ _ _ _ Hi' Hd') as (_ & _ & Hs' & _).
  by eapply spans_functional.
Qed.
End binding.
(** ** A query with the same results passes *)
Definition matched (ms : QueryReadsMerkleSummary) (mt : merkleTree) (last : Z) : Prop :=
  (mt_maxLevel mt < ms_MaxLevel ms ∧ last = -1)%Z ∨
  (mt_maxLevel mt = ms_MaxLevel ms ∧ last = Z.of_nat (length (top mt)) - 1)%Z.

Lemma matched_step ms mt mt1 last :
  matched ms mt last → grow mt mt1 → (mt_maxLevel mt1 ≤ ms_MaxLevel ms)%Z →
  (matched ms mt1 last ∧
    ((mt_maxLevel mt1 < ms_MaxLevel ms)%Z ∨ last = Z.of_nat (length (top mt1)) - 1)%Z) ∨
  (mt_maxLevel mt1 = ms_MaxLevel ms ∧ (last + 1)%Z = Z.of_nat (length (top mt1)) - 1 ∧ -1 ≤ last)%Z.
Proof.
  intros [[Hk ->]|[Hk ->]] [[Hk1 [Ht|[x Ht]]]|[Hk1 [x Ht]]] Hle; unfold matched; rewrite Ht, ?length_app; cbn;
    lia.
Qed.

(** As long as the tree under construction is a beginning of the recorded one,
    the validator takes the next result. *)
Lemma hash_loop_advance d mtf kvs rest mt mt' reads reads' helper helper' last :
  hinv d mt reads helper → matched (getSummery mtf) mt last →
  add_results helper (read_of <$> kvs) = Ok helper' → hinv d mt' reads' helper' → ext mt' mtf →
  ∃ last', matched (getSummery mtf) mt' last' ∧
    hash_loop (getSummery mtf) helper last ((Ok <$> kvs) ++ rest) = hash_loop (getSummery mtf) helper' last' rest.
Proof.
  intros Hi Hm E Hi' Hfin. revert mt reads helper last Hi Hm E.
  induction kvs as [|kv kvs IH]; intros mt reads helper last Hi Hm E.
  - cbn in E. injection E as <-. exists last. destruct Hi as (?&?&->&_), Hi' as (?&?&[= <- <-]&_). done.
  - unfold add_results in E. cbn [fmap list_fmap foldM] in E.
    destruct (AddResult helper (read_of kv)) as [h1|?|?] eqn:E1; [|done..].
    destruct (AddResult_spec _ _ _ _ _ _ Hi E1) as (mt1 & Hi1 & Hg).
    destruct (add_results_spec _ _ _ _ _ _ Hi1 E) as (mt2 & Hi2 & Hx).
    assert (mt2 = mt') as ->. { destruct Hi2 as (?&?&->&_), Hi' as (?&?&[= _ <-]&_). done. }
    assert (ext mt1 mtf) as Hext by by etrans. clear Hx Hi2.
    cbn [fmap list_fmap app hash_loop]. fold (read_of kv). rewrite E1. cbn -[Nat.ltb].
    assert (GetMerkleSummary h1 = Some (getSummery mt1)) as -> by by destruct Hi1 as (?&?&->&_).
    cbn -[Nat.ltb]. destruct (matched_step _ _ _ _ Hm Hg) as [[Hm1 Hnone]|(HK & Hlast & Hpos)].
    { cbn. destruct Hext as [|[? ?]]; lia. }
    + specialize (IH _ _ _ last Hi1 Hm1 E). cbn in Hnone.
      case_match; [done|]. rewrite (proj2 (Z.eqb_eq _ _)); [done|]. unfold top in Hnone. lia.
    + cbn in HK. destruct Hext as [|[_ [F HF]]]; [lia|]. unfold top in Hlast, HF. rewrite HF.
      rewrite (proj2 (Z.ltb_ge _ _)) by lia. rewrite (proj2 (Z.eqb_neq _ _)) by lia.
      rewrite length_app. rewrite (proj2 (Nat.ltb_ge _ _)) by lia.
      destruct (lookup_lt_is_Some_2 (level mt1 (mt_maxLevel mt1)) (Z.to_nat (last + 1))) as [x Hlook]; [lia|].
      unfold index. rewrite Hlook, (lookup_app_l_Some _ _ _ _ Hlook). cbn. rewrite bool_decide_true by done. cbn.
      eapply IH; [exact Hi1| |exact E]. right. cbn. unfold top. lia.
Qed.

Lemma matched_new mtf d : ext (mkMerkleTree ∅ 1 d) mtf → matched (getSummery mtf) (mkMerkleTree ∅ 1 d) (-1).
Proof. intros [|[? _]]; [left|right]; cbn in *; [done|by split]. Qed.

(** ** Bounds *)
Definition bounded (mt : merkleTree) : Prop :=
  ∀ l, (Z.of_nat (length (level mt l)) ≤ mt_maxDegree mt)%Z.

Lemma exceeds_spec m hs :
  (Z.of_nat (length hs) < 2 ^ 32)%Z → exceeds m hs = true ↔ (mt_maxDegree m < Z.of_nat (length hs))%Z.
Proof. intros H. unfold exceeds, u32. rewrite wrap_small by lia. apply Z.ltb_lt. Qed.

Lemma update_loop_bounded fuel m l m' :
  update_loop fuel m l = Ok m' → (2 ≤ mt_maxDegree m < 2 ^ 32 - 1)%Z →
  (∀ k, k ≠ l → Z.of_nat (length (level m k)) ≤ mt_maxDegree m)%Z →
  (Z.of_nat (length (level m l)) ≤ mt_maxDegree m + 1)%Z → bounded m'.
Proof.
  revert m l. induction fuel as [|fuel IH]; intros m l; cbn [update_loop]; [done|]. intros E Hd Hk Hl.
  destruct (exceeds m (level m l)) eqn:Hex; cbn in E.
  - destruct (computeCombinedHash (level m l)) as [h|?|?]; cbn in E; [|done..].
    eapply IH in E; [done|done|..]; cbn.
    + intros k Hne. rewrite level_move_up, decide_False by done. case_decide; [cbn; lia|by apply Hk].
    + rewrite level_move_up, decide_True, length_app by done. cbn. specialize (Hk (l + 1)%Z). lia.
  - injection E as <-. intros k. destruct (decide (k = l)) as [->|]; [|by apply Hk].
    apply not_true_iff_false in Hex. rewrite exceeds_spec in Hex by lia. lia.
Qed.

Lemma mt_update_bounded m h m' :
  mt_update m h = Ok m' → (2 ≤ mt_maxDegree m < 2 ^ 32 - 1)%Z → bounded m → bounded m'.
Proof.
  intros E Hd Hb. eapply update_loop_bounded; [exact E|done|..]; cbn.
  - intros k Hk. rewrite level_push, decide_False by done. apply Hb.
  - unfold leafLevel. rewrite (level_push m h), decide_True, length_app by done. cbn. specialize (Hb 1%Z). lia.
Qed.

Definition helper_bounded (d : Z) (helper : RangeQueryResultsHelper) : Prop :=
  (Z.of_nat (length (rh_pendingResults helper)) ≤ d)%Z ∧ ∀ mt, rh_mt helper = Some mt → bounded mt.

Lemma AddResult_bounded d mt reads helper x helper' :
  hinv d mt reads helper → (2 ≤ d < 2 ^ 32 - 1)%Z → helper_bounded d helper →
  AddResult helper x = Ok helper' → helper_bounded d helper'.
Proof.
  intros (pending & r & -> & Hwf & Hdeg & _) Hd [Hp Hb] E. unfold AddResult in E. cbn in E, Hp.
  destruct (Z.ltb_spec d (u32 (Z.of_nat (length (pending ++ [x]))))) as [Hlt|Hge]; cbn in E.
  - unfold processPendingResults in E. cbn in E.
    destruct (serializeKVReads _) as [b|?|?]; cbn in E; [|done..].
    destruct (hashFunc b) as [h|?|?]; cbn in E; [|done..].
    destruct (mt_update mt h) as [mt'|?|?] eqn:Eu; cbn in E; [|done..]. injection E as <-.
    split; [cbn; lia|]. intros ? [= <-]. eapply mt_update_bounded; [done|by rewrite Hdeg|by apply Hb].
  - injection E as <-. split; [|done]. cbn. unfold u32 in Hge. rewrite length_app in *. cbn in *.
    rewrite wrap_small in Hge; lia.
Qed.

Lemma results_bounded d reads helper helper' :
  (2 ≤ d < 2 ^ 32 - 1)%Z → NewRangeQueryResultsHelper true d = Ok helper →
  add_results helper reads = Ok helper' → helper_bounded d helper'.
Proof.
  intros Hd Hnew. pose proof (hinv_new _ _ Hnew) as Hi.
  assert (helper_bounded d helper) as Hb.
  { destruct Hi as (?&?&->&_&_&_&E). symmetry in E. apply app_eq_nil in E as [-> ->].
    split; [cbn; lia|]. intros ? [= <-] l. change (length _) with 0%nat. cbn. lia. }
  revert Hb Hi. generalize (mkMerkleTree ∅ 1 d) as mt, (@nil KVRead) as done'. unfold add_results. clear Hnew.
  revert helper. induction reads as [|x reads IH]; intros helper mt l Hb Hi E; cbn in E; [by injection E as <-|].
  destruct (AddResult helper x) as [h1|?|?] eqn:E1; [|done..].
  destruct (AddResult_spec _ _ _ _ _ _ Hi E1) as (mt1 & Hi1 & _).
  eapply IH; [|exact Hi1|done]. by eapply (AddResult_bounded _ _ _ _ _ _ Hi).
Qed.

(** While results are added, the helper never holds more than the maximum
    degree of pending reads, nor of nodes on a level of its tree. *)
Theorem results_helper_bounded d reads helper helper' :
  (2 ≤ d < 2 ^ 32 - 1)%Z → NewRangeQueryResultsHelper true d = Ok helper →
  add_results helper reads = Ok helper' →
  (Z.of_nat (length (rh_pendingResults helper')) ≤ d)%Z ∧
  ∀ mt l, rh_mt helper' = Some mt → (Z.of_nat (length (level mt l)) ≤ d)%Z.
Proof.
  intros Hd Hnew E. destruct (results_bounded _ _ _ _ Hd Hnew E) as [Hp Hb]. split; [done|].
  intros mt l Hmt. destruct (add_results_spec _ _ _ _ _ _ (hinv_new _ _ Hnew) E) as (mt1 & (?&?&->&_&<-&_) & _).
  cbn in Hmt. injection Hmt as <-. by apply Hb.
Qed.

(** ** A summary with a full top level *)
Lemma hash_loop_overflow d mtf kvs mt reads helper helper' mt' :
  hinv d mt reads helper → (2 ≤ d < 2 ^ 32 - 1)%Z → helper_bounded d helper →
  Z.of_nat (length (top mt)) = d → mt_maxLevel mt = mt_maxLevel mtf → top mt = top mtf →
  add_results helper (read_of <$> kvs) = Ok helper' → rh_mt helper' = Some mt' →
  (mt_maxLevel mt < mt_maxLevel mt')%Z →
  hash_loop (getSummery mtf) helper (d - 1) (Ok <$> kvs) = Panic "index out of range".
Proof.
  revert mt reads helper. induction kvs as [|kv kvs IH]; intros mt reads helper Hi Hd Hb Hlen HK HT E Hmt' Hlt.
  - cbn in E. injection E as <-. destruct Hi as (?&?&->&_). cbn in Hmt'. injection Hmt' as <-. lia.
  - unfold add_results in E. cbn [fmap list_fmap foldM] in E.
    destruct (AddResult helper (read_of kv)) as [h1|?|?] eqn:E1; [|done..].
    destruct (AddResult_spec _ _ _ _ _ _ Hi E1) as (mt1 & Hi1 & Hg).
    pose proof (AddResult_bounded _ _ _ _ _ _ Hi Hd Hb E1) as Hb1.
    cbn [fmap list_fmap hash_loop]. fold (read_of kv). rewrite E1. cbn -[Nat.ltb].
    pose proof Hi1 as (p1&r1&->&_&Hd1&_). cbn -[Nat.ltb].
    destruct Hg as [[HK1 [HT1|[x HT1]]]|[HK1 [x HT1]]].
    + rewrite (proj2 (Z.ltb_ge _ _)) by lia. fold (top mt1). rewrite HT1, Hlen, Z.eqb_refl.
      eapply IH; [exact Hi1|done..| | | |exact E|done|]; rewrite ?HT1; [done|congruence|done|lia].
    + exfalso. destruct Hb1 as [_ Hb1]. specialize (Hb1 _ eq_refl (mt_maxLevel mt1)).
      fold (top mt1) in Hb1. rewrite HT1, length_app in Hb1. cbn in Hb1. lia.
    + rewrite (proj2 (Z.ltb_ge _ _)) by lia. fold (top mt1) (top mtf). rewrite HT1, <-HT. cbn [length].
      rewrite (proj2 (Z.eqb_neq _ _)) by lia. rewrite (proj2 (Nat.ltb_ge _ _)) by lia.
      unfold index. rewrite (lookup_ge_None_2 [x]) by (cbn; lia). done.
Qed.

(** When the recorded summary has a full top level and the query now has
    so many more results that the tree rises above that level, the validator
    reads past the end of the level's hashes and panics instead of finding the
    query invalid. *)
Theorem hash_validate_panics d kvs more helper h1 h2 ms mt2 :
  (2 ≤ d < 2 ^ 32 - 1)%Z → NewRangeQueryResultsHelper true d = Ok helper →
  add_results helper (read_of <$> kvs) = Ok h1 → GetMerkleSummary h1 = Some ms →
  Z.of_nat (length (ms_MaxLevelHashes ms)) = d →
  add_results h1 (read_of <$> more) = Ok h2 → rh_mt h2 = Some mt2 → (ms_MaxLevel ms < mt_maxLevel mt2)%Z →
  hash_validate ms (Ok <$> (kvs ++ more)) = Panic "index out of range".
Proof.
  intros Hd Hnew E1 Hms Hfull E2 Hmt2 Hrise. pose proof (hinv_new _ _ Hnew) as Hi.
  destruct (add_results_spec _ _ _ _ _ _ Hi E1) as (mt1 & Hi1 & Hext).
  assert (ms = getSummery mt1) as ->.
  { destruct Hi1 as (?&?&->&_). cbn in Hms. congruence. }
  destruct (hash_loop_advance _ mt1 kvs (Ok <$> more) _ _ _ _ _ _ (-1) Hi (matched_new _ _ Hext) E1 Hi1)
    as (last & Hm & Hloop); [done|].
  change (hash_validate (getSummery mt1) (Ok <$> (kvs ++ more))) with
    (helper ← NewRangeQueryResultsHelper true (mt_maxDegree mt1);
     hash_loop (getSummery mt1) helper (-1) (Ok <$> (kvs ++ more))).
  pose proof Hi1 as (?&?&_&_&Hd1&_). rewrite Hd1, Hnew, fmap_app. cbn [mbind outcome_bind]. rewrite Hloop.
  destruct Hm as [[Hm _]|[_ ->]]; [cbn in Hm; lia|]. cbn in Hfull. unfold top. rewrite Hfull.
  eapply hash_loop_overflow; [exact Hi1|done|by eapply results_bounded|done..].
Qed.

Section total.
Hypothesis hash_total : ∀ x, ∃ h, hashFunc x = Ok h.
Hypothesis reads_total : ∀ r, ∃ b, serializeKVReads r = Ok b.

Lemma update_loop_total fuel m l :
  wf m → (1 ≤ l ≤ mt_maxLevel m)%Z →
  (mt_maxLevel m + 2 - l ≤ Z.of_nat fuel)%Z ∨ (1 ≤ fuel)%nat ∧ exceeds m (level m l) = false →
  ∃ m', update_loop fuel m l = Ok m'.
Proof.
  revert m l. induction fuel as [|fuel IH]; intros m l Hwf Hl Hf; [lia|]. cbn [update_loop].
  destruct (exceeds m (level m l)) eqn:Hex; cbn; [|by eexists].
  destruct Hf as [Hf|[_ ?]]; [|done].
  destruct (hash_total (foldl String.append "" (level m l))) as [h Hh]. unfold computeCombinedHash.
  rewrite Hh. cbn. pose proof (wf_move m l h _ Hwf Hl eq_refl) as Hwf'. apply IH; [done|cbn; lia|]. cbn.
  destruct (decide (l < mt_maxLevel m)%Z); [left; lia|right]. split; [lia|].
  rewrite level_move_up, decide_True by done. rewrite (wf_out _ Hwf (l + 1)) by lia.
  by apply (exceeds_one (mkMerkleTree _ _ _)).
Qed.

Lemma mt_update_total mt h : wf mt → ∃ mt', mt_update mt h = Ok mt'.
Proof.
  intros [? ? Ho]. apply update_loop_total; [|unfold leafLevel; cbn; lia..].
  split; [done|done|]. intros k Hk. cbn in Hk. rewrite level_push, decide_False by lia. by apply Ho.
Qed.

Lemma AddResult_total d mt reads helper x :
  hinv d mt reads helper → ∃ helper', AddResult helper x = Ok helper'.
Proof.
  intros (pending & r & -> & Hwf & _). unfold AddResult. cbn. case_match; [|by eexists].
  unfold processPendingResults. cbn.
  destruct (reads_total (pending ++ [x])) as [b ->]. cbn. destruct (hash_total b) as [h ->]. cbn.
  destruct (mt_update_total mt h Hwf) as [m' ->]. cbn. by eexists.
Qed.

Lemma add_results_total d mt reads helper more :
  hinv d mt reads helper → ∃ helper', add_results helper more = Ok helper'.
Proof.
  unfold add_results. revert mt reads helper. induction more as [|x more IH]; intros mt reads helper Hi; cbn; [by eexists|].
  destruct (AddResult_total _ _ _ _ x Hi) as [h1 E1]. rewrite E1.
  destruct (AddResult_spec _ _ _ _ _ _ Hi E1) as (mt1 & Hi1 & _). eauto.
Qed.

Lemma mt_done_total m : ∃ m', mt_done m = Ok m'.
Proof.
  assert (∀ ls m, ∃ m', foldM done_level m ls = Ok m') as Hall.
  { induction ls as [|l ls IH]; intros m'; cbn; [by eexists|].
    assert (∃ m1, done_level m' l = Ok m1) as [m1 ->]; [|apply IH].
    unfold done_level. destruct (level m' l) as [|h [|h' hs]]; [by eexists..|].
    destruct (hash_total (foldl String.append "" (h :: h' :: hs))) as [c Hc].
    unfold computeCombinedHash. rewrite Hc. cbn. by eexists. }
  unfold mt_done. edestruct Hall as [m1 ->]. cbn. case_match; [|by eexists].
  destruct (hash_total (foldl String.append "" (level m1 (mt_maxLevel m1)))) as [c Hc].
  unfold computeCombinedHash. rewrite Hc. cbn. by eexists.
Qed.

Lemma helper_Done_total d mt reads helper : hinv d mt reads helper → ∃ r, helper_Done helper = Ok r.
Proof.
  intros (pending & r & -> & Hwf & _). unfold helper_Done. cbn. case_match; [by eexists|].
  destruct (Nat.eqb_spec (length pending) 0); cbn.
  - destruct (mt_done_total mt) as [m' ->]. cbn. by eexists.
  - destruct (reads_total pending) as [b Hb]. destruct (hash_total b) as [h Hh].
    unfold processPendingResults. cbn. rewrite Hb. cbn. rewrite Hh. cbn.
    destruct (mt_update_total mt h Hwf) as [mt' ->]. cbn.
    destruct (mt_done_total mt') as [m' ->]. cbn. by eexists.
Qed.

(** Recording a query's results terminates with the reads or a summary,
    and a query that returns the same results again is valid against the
    summary. *)
Theorem hash_validate_complete d kvs :
  (2 ≤ d)%Z →
  ∃ pending oms, summarize d (read_of <$> kvs) = Ok (pending, oms) ∧
    match oms with
    | None => pending = read_of <$> kvs
    | Some ms => hash_validate ms (Ok <$> kvs) = Ok true
    end.
Proof.
  intros Hd. unfold summarize.
  destruct (NewRangeQueryResultsHelper true d) as [helper|?|?] eqn:E0.
  2,3: unfold NewRangeQueryResultsHelper, newMerkleTree in E0; destruct (Z.ltb_spec d 2); cbn in E0; [lia|done].
  pose proof (hinv_new _ _ E0) as Hi. cbn [mbind outcome_bind].
  destruct (add_results_total _ _ _ _ (read_of <$> kvs) Hi) as [helper' E1]. rewrite E1. cbn [mbind outcome_bind].
  destruct (add_results_spec _ _ _ _ _ _ Hi E1) as (mt & Hi' & Hext).
  destruct (helper_Done_total _ _ _ _ Hi') as [[pending oms] E2]. exists pending, oms. split; [done|].
  pose proof (helper_Done_spec _ _ _ _ _ _ Hi' E2) as Hs.
  destruct oms as [ms|]; [|done]. destruct Hs as (_ & Hdeg & _ & mtf & Hx & Hms).
  change (hash_validate ms (Ok <$> kvs)) with (helper ← NewRangeQueryResultsHelper true (ms_MaxDegree ms);
    hash_loop ms helper (-1) (Ok <$> kvs)).
  rewrite Hdeg, E0. cbn [mbind outcome_bind]. subst ms.
  destruct (hash_loop_advance _ mtf kvs [] _ _ _ _ _ _ (-1) Hi (matched_new _ _ ltac:(by etrans)) E1 Hi' Hx)
    as (last & _ & Hloop). rewrite app_nil_r in Hloop. rewrite Hloop. cbn. rewrite E2. cbn.
  by rewrite !Z.eqb_refl, bool_decide_true.
Qed.
End total.
End merkle.

(** ** Raw results *)
Lemma AreSame_Some h h' : AreSame (Some h) (Some h') = bool_decide (h = h').
Proof.
  destruct (AreSame (Some h) (Some h')) eqn:E; symmetry.
  - apply AreSame_iff in E. apply bool_decide_true. congruence.
  - apply bool_decide_false. intros ->. rewrite (proj2 (AreSame_iff _ _) eq_refl) in E. done.
Qed.

Lemma cons_inv {A} (x y : A) l k : x :: l = y :: k → x = y ∧ l = k.
Proof. by intros [= -> ->]. Qed.

Lemma results_loop_spec rq kvs :
  Forall (λ r, is_Some (kvr_Version r)) rq →
  results_loop rq (head kvs) (Ok <$> tail kvs) = Ok (bool_decide (read_of <$> kvs = rq)).
Proof.
  intros Hrq. revert kvs. induction Hrq as [|r rq [[b t] Hv] Hrq IH]; intros [|x kvs]; cbn.
  - by rewrite bool_decide_true.
  - by rewrite bool_decide_false.
  - by rewrite bool_decide_false.
  - destruct r as [key ver]. cbn in *. subst ver. cbn.
    destruct (decide (vkv_key x = key)) as [<-|Hne].
    2:{ rewrite (bool_decide_false (_ = key)) by done. cbn. symmetry. f_equal. apply bool_decide_false.
        unfold read_of, NewKVRead. congruence. }
    rewrite (bool_decide_true (_ = vkv_key x)) by done. cbn.
    assert (read_of x = mkKVRead (vkv_key x) (Some (mkVersion b t)) ↔
            AreSame (vv_Version (vkv_value x)) (Some (mkHeight b t)) = true) as Hsame.
    { rewrite AreSame_iff. unfold read_of, NewKVRead, newProtoVersion.
      destruct (vv_Version (vkv_value x)) as [[b' t']|]; cbn; split; congruence. }
    destruct (AreSame _ _); cbn.
    + rewrite (proj2 Hsame) by done.
      assert (bool_decide (mkKVRead (vkv_key x) (Some (mkVersion b t)) :: (read_of <$> kvs) =
        mkKVRead (vkv_key x) (Some (mkVersion b t)) :: rq) = bool_decide (read_of <$> kvs = rq)) as ->.
      { apply bool_decide_ext. split; congruence. }
      specialize (IH kvs). by destruct kvs.
    + symmetry. f_equal. apply bool_decide_false. intros [E _]%cons_inv. by apply Hsame in E.
Qed.

Lemma results_loop_true rq kvs :
  results_loop rq (head kvs) (Ok <$> tail kvs) = Ok true →
  Forall (λ r, is_Some (kvr_Version r)) rq.
Proof.
  revert kvs. induction rq as [|r rq IH]; intros [|x kvs]; cbn; [constructor..|done|].
  destruct (bool_decide (vkv_key x = kvr_Key r)); cbn; [|done].
  destruct (kvr_Version r) as [v|] eqn:Hv; cbn; [|done]. destruct (AreSame _ _); cbn; [|done].
  intros E. constructor; [by rewrite Hv|]. apply (IH kvs). by destruct kvs.
Qed.

Lemma results_validate_true rqInfo kvs :
  results_validate rqInfo (Ok <$> kvs) = Ok true → read_of <$> kvs = raw_reads rqInfo.
Proof.
  intros E. assert (results_loop (raw_reads rqInfo) (head kvs) (Ok <$> tail kvs) = Ok true) as E'.
  { unfold results_validate in E. by destruct kvs. }
  pose proof (results_loop_true _ _ E') as Hv. rewrite results_loop_spec in E' by done.
  injection E' as E'. by apply bool_decide_eq_true in E'.
Qed.

(** Against recorded raw reads, a query is valid exactly when its results
    now are those reads, in keys, versions and order. *)
Theorem results_validate_spec rqInfo kvs :
  Forall (λ r, is_Some (kvr_Version r)) (raw_reads rqInfo) →
  results_validate rqInfo (Ok <$> kvs) = Ok (bool_decide (read_of <$> kvs = raw_reads rqInfo)).
Proof.
  intros Hv. unfold results_validate.
  apply (results_loop_spec _ kvs) in Hv. by destruct kvs.
Qed.

(** ** Concrete queries *)
Definition toy_item (key : string) : VersionedKV :=
  mkVersionedKV "" key (mkVersionedValue (Some "v") None (Some (mkHeight 1 0))).

Lemma results_validate_spec_witness :
  results_validate (mkRangeQueryInfo "a" "c" true (RawReads (read_of <$> [toy_item "a"; toy_item "b"])))
    (Ok <$> [toy_item "a"; toy_item "b"]) = Ok true ∧
  results_validate (mkRangeQueryInfo "a" "c" true (RawReads (read_of <$> [toy_item "a"; toy_item "b"])))
    (Ok <$> [toy_item "a"; toy_item "aa"; toy_item "b"]) = Ok false.
Proof.
  split; rewrite results_validate_spec; try (repeat constructor; by eexists); reflexivity.
Defined.

(** A hash function and a marshalling defined on what occurs below. *)
Definition toy_reads : list VersionedKV := toy_item <$> ["a"; "b"; "c"; "d"; "e"].

Definition toy_ser (r : list KVRead) : outcome bytes :=
  if decide (r = read_of <$> take 3 toy_reads) then Ok "x"
  else if decide (r = read_of <$> drop 3 toy_reads) then Ok "y" else Err "not recorded".

Definition toy_hash (b : bytes) : outcome bytes :=
  if decide (b = "x") then Ok "1" else if decide (b = "y") then Ok "2" else Err "not recorded".

Definition toy_summary : QueryReadsMerkleSummary := mkQueryReadsMerkleSummary 2 1 ["1"; "2"].

Lemma hash_validate_sound_witness :
  hash_validate toy_hash toy_ser toy_summary (Ok <$> toy_reads) = Ok true ∧
  ∀ kvs, hash_validate toy_hash toy_ser toy_summary (Ok <$> kvs) = Ok true → read_of <$> kvs = read_of <$> toy_reads.
Proof.
  split; [vm_compute; reflexivity|]. intros kvs.
  apply (hash_validate_sound toy_hash toy_ser 0) with (d := 2%Z) (pending := []).
  - intros x y h. unfold toy_hash. repeat case_decide; congruence.
  - intros x h. unfold toy_hash. repeat case_decide; intros [= <-]; reflexivity.
  - intros r r' b. unfold toy_ser. repeat case_decide; congruence.
  - intros r b h hs h' Hb Hh _ Him ->. destruct Him as [|x hs [z Hz] Him]; [by vm_compute in Hh|].
    cbn in Hh. rewrite foldl_append in Hh. unfold toy_hash in Hz, Hh.
    repeat case_decide; simplify_eq/=.
  - vm_compute. reflexivity.
Defined.

Definition total_hash (b : bytes) : outcome bytes := Ok ("<" +:+ b +:+ ">").
Definition total_ser (r : list KVRead) : outcome bytes := Ok (foldr (λ r s, kvr_Key r +:+ s) "" r).

Lemma hash_validate_complete_witness :
  ∃ pending oms, summarize total_hash total_ser 2 (read_of <$> toy_reads) = Ok (pending, oms) ∧
    match oms with
    | None => pending = read_of <$> toy_reads
    | Some ms => hash_validate total_hash total_ser ms (Ok <$> toy_reads) = Ok true
    end.
Proof.
  apply (hash_validate_complete total_hash total_ser); [intros; by eexists..|lia].
Defined.

Definition ok_or {A} (d : A) (o : outcome A) : A := match o with Ok a => a | _ => d end.

Definition toy_helper : RangeQueryResultsHelper := mkRangeQueryResultsHelper [] (Some (mkMerkleTree ∅ 1 2)) 2 true.

Lemma results_helper_bounded_witness :
  (Z.of_nat (length (rh_pendingResults
    (ok_or toy_helper (add_results total_hash total_ser toy_helper (read_of <$> toy_reads))))) ≤ 2)%Z.
Proof.
  eapply (results_helper_bounded total_hash total_ser 2 (read_of <$> toy_reads) toy_helper);
    [lia|reflexivity|reflexivity].
Defined.

(** Six results are recorded with degree two; three more come in between. *)
Definition toy_six : list VersionedKV := toy_item <$> ["a"; "b"; "c"; "d"; "e"; "f"].
Definition toy_three : list VersionedKV := toy_item <$> ["g"; "h"; "i"].

Lemma hash_validate_panics_witness :
  ∃ ms, summarize total_hash total_ser 2 (read_of <$> toy_six) = Ok ([], Some ms) ∧
    hash_validate total_hash total_ser ms (Ok <$> (toy_six ++ toy_three)) = Panic "index out of range".
Proof.
  eexists. split; [vm_compute; reflexivity|].
  eapply (hash_validate_panics total_hash total_ser 2 toy_six toy_three toy_helper);
    [lia|reflexivity|vm_compute; reflexivity|reflexivity|reflexivity|vm_compute; reflexivity|reflexivity|vm_compute; reflexivity].
Defined.
