(* ===== verification/TxOps.v ===== *)
(** * TxOps: what a transaction does to the state
      (core/ledger/kvledger/txmgmt/validation/tx_ops.go and types.go)

    The writes of a transaction are collected by key, value and metadata writes
    of one key together; a write of one of the two keeps the latest other one.
    The result is added to the updates of the block. *)

From S2P Require Import Prelude GoText Utf8 Base64 Protos Height StateDb PvtState RwSetUtil.

(** Namespace, collection and key; the collection is empty for public data. *)
Notation compositeKey := (string * string * string)%type.

(** The order of a loop over a map with composite keys. *)
Class KeyOrder := {
  key_range {V} : list string → nat → gmap compositeKey V → list compositeKey;
  key_range_ok {V} site n (m : gmap compositeKey V) : key_range site n m ≡ₚ (map_to_list m).*1
}.

(** ** Operations on a key *)
Definition upsertVal : Z := 1.
Definition metadataUpdate : Z := 2.
Definition metadataDelete : Z := 4.
Definition keyDelete : Z := 8.

Record keyOps := mkKeyOps {
  ko_flag : Z;
  ko_value : option bytes;
  ko_metadata : option bytes
}.

Notation txOps := (gmap compositeKey keyOps).

Definition has_flag (k : keyOps) (f : Z) : bool := (Z.land (ko_flag k) f =? f)%Z.

Definition isDelete (k : keyOps) : bool := has_flag k keyDelete.

Definition isUpsertAndMetadataUpdate (k : keyOps) : bool :=
  if has_flag k upsertVal then has_flag k metadataUpdate || has_flag k metadataDelete else false.

Definition isOnlyUpsert (k : keyOps) : bool := (Z.lor (ko_flag k) upsertVal =? upsertVal)%Z.

Definition getOrCreateKeyEntry (t : txOps) (k : compositeKey) : keyOps :=
  default (mkKeyOps 0 None None) (t !! k).

Definition op_upsert (t : txOps) (k : compositeKey) (val : option bytes) : txOps :=
  let e := getOrCreateKeyEntry t k in
  <[k := mkKeyOps (u8 (ko_flag e + upsertVal)) val (ko_metadata e)]> t.

Definition op_delete (t : txOps) (k : compositeKey) : txOps :=
  let e := getOrCreateKeyEntry t k in
  <[k := mkKeyOps (u8 (ko_flag e + keyDelete)) (ko_value e) (ko_metadata e)]> t.

Definition op_metadataUpdate (t : txOps) (k : compositeKey) (metadata : option bytes) : txOps :=
  let e := getOrCreateKeyEntry t k in
  <[k := mkKeyOps (u8 (ko_flag e + metadataUpdate)) (ko_value e) metadata]> t.

Definition op_metadataDelete (t : txOps) (k : compositeKey) : txOps :=
  let e := getOrCreateKeyEntry t k in
  <[k := mkKeyOps (u8 (ko_flag e + metadataDelete)) (ko_value e) (ko_metadata e)]> t.

(** ** Updates of the block so far *)
Record publicAndHashUpdates := mkPublicAndHashUpdates {
  publicUpdates : UpdateBatch;
  hashUpdates : UpdateMap
}.

Definition newPubAndHashUpdates : publicAndHashUpdates := mkPublicAndHashUpdates NewUpdateBatch ∅.

Section ops.
Context `{VersionedDB} `{Bookkeeper} `{Hashing} `{RwsetCodec} `{KeyOrder}.

Definition applyKVWrite (ns coll : string) (t : txOps) (kvWrite : KVWrite) : txOps :=
  if IsKVWriteDelete kvWrite then op_delete t (ns, coll, kvw_Key kvWrite)
  else op_upsert t (ns, coll, kvw_Key kvWrite) (kvw_Value kvWrite).

Definition applyMetadata (ns coll : string) (t : txOps) (w : KVMetadataWrite) : outcome txOps :=
  match mw_Entries w with
  | [] => Ok (op_metadataDelete t (ns, coll, mw_Key w))
  | entries =>
      metadataBytes ← Serialize entries;
      Ok (op_metadataUpdate t (ns, coll, mw_Key w) (Some metadataBytes))
  end.

(** A hashed write as a write of the key's hash. *)
Definition write_of_hash (w : KVWriteHash) : KVWrite :=
  mkKVWrite (wh_KeyHash w) (IsKVWriteHashDelete w) (wh_ValueHash w).
Definition metadata_of_hash (w : KVMetadataWriteHash) : KVMetadataWrite :=
  mkKVMetadataWrite (mwh_KeyHash w) (mwh_Entries w).

Definition apply_collection (ns : string) (t : txOps) (c : CollHashedRwSet) : outcome txOps :=
  let coll := ch_CollectionName c in
  let t := foldl (λ t w, applyKVWrite ns coll t (write_of_hash w)) t (h_HashedWrites (ch_HashedRwSet c)) in
  foldM (λ t w, applyMetadata ns coll t (metadata_of_hash w)) t (h_MetadataWrites (ch_HashedRwSet c)).

Definition apply_namespace (t : txOps) (n : NsRwSet) : outcome txOps :=
  let ns := nrw_NameSpace n in
  let t := foldl (applyKVWrite ns "") t (kv_Writes (nrw_KvRwSet n)) in
  t ← foldM (applyMetadata ns "") t (kv_MetadataWrites (nrw_KvRwSet n));
  foldM (apply_collection ns) t (nrw_CollHashedRwSets n).

Definition applyTxRwset (rwset : TxRwSet) : outcome txOps := foldM apply_namespace ∅ (NsRwSets rwset).

Definition retrieveLatestState (ck : compositeKey) (u : publicAndHashUpdates) (db : DB)
    : outcome (option VersionedValue) :=
  let '(ns, coll, key) := ck in
  if bool_decide (coll = "") then
    match Get (publicUpdates u) ns key with
    | Some vv => Ok (Some vv)
    | None => db_GetState db ns key
    end
  else
    match um_Get (hashUpdates u) ns coll key with
    | Some vv => Ok (Some vv)
    | None => GetValueHash db ns coll key
    end.

Definition retrieveLatestMetadata (ck : compositeKey) (u : publicAndHashUpdates) (db : DB)
    : outcome (option bytes) :=
  let '(ns, coll, key) := ck in
  if bool_decide (coll = "") then
    match Get (publicUpdates u) ns key with
    | Some vv => Ok (vv_Metadata vv)
    | None => GetStateMetadata db ns key
    end
  else
    match um_Get (hashUpdates u) ns coll key with
    | Some vv => Ok (vv_Metadata vv)
    | None => GetPrivateDataMetadataByHash db ns coll key
    end.

(** One key of the loop of [prepareTxOps]. *)
Definition prepare_key (u : publicAndHashUpdates) (db : DB) (t : txOps) (ck : compositeKey) : outcome txOps :=
  match t !! ck with
  | None => Ok t
  | Some keyop =>
      if isDelete keyop || isUpsertAndMetadataUpdate keyop then Ok t
      else if isOnlyUpsert keyop then
        latestMetadata ← retrieveLatestMetadata ck u db;
        Ok (<[ck := mkKeyOps (ko_flag keyop) (ko_value keyop) latestMetadata]> t)
      else
        latestVal ← retrieveLatestState ck u db;
        match latestVal with
        | Some vv => Ok (<[ck := mkKeyOps (ko_flag keyop) (vv_Value vv) (ko_metadata keyop)]> t)
        | None => Ok (delete ck t)
        end
  end.

Definition prepareTxOps (rwset : TxRwSet) (u : publicAndHashUpdates) (db : DB) : outcome txOps :=
  t ← applyTxRwset rwset;
  foldM (prepare_key u db) t (key_range ["prepareTxOps"] 0 t).

(** One key of the loop of [applyWriteSet]. *)
Definition apply_key (txHeight : option Height) (t : txOps) (u : publicAndHashUpdates) (ck : compositeKey)
    : outcome publicAndHashUpdates :=
  match t !! ck with
  | None => Ok u
  | Some keyops =>
      let '(ns, coll, key) := ck in
      if bool_decide (coll = "") then
        if isDelete keyops then Ok (mkPublicAndHashUpdates (Delete (publicUpdates u) ns key txHeight) (hashUpdates u))
        else
          b ← PutValAndMetadata (publicUpdates u) ns key (ko_value keyops) (ko_metadata keyops) txHeight;
          Ok (mkPublicAndHashUpdates b (hashUpdates u))
      else
        if isDelete keyops then Ok (mkPublicAndHashUpdates (publicUpdates u) (um_Delete (hashUpdates u) ns coll key txHeight))
        else
          h ← um_PutValAndMetadata (hashUpdates u) ns coll key (ko_value keyops) (ko_metadata keyops) txHeight;
          Ok (mkPublicAndHashUpdates (publicUpdates u) h)
  end.

Definition applyWriteSet (u : publicAndHashUpdates) (txRWSet : TxRwSet) (txHeight : option Height) (db : DB)
    (containsPostOrderWrites : bool) : outcome publicAndHashUpdates :=
  let b := publicUpdates u in
  let u := mkPublicAndHashUpdates
             (mkUpdateBatch (ContainsPostOrderWrites b || containsPostOrderWrites) (Updates b)) (hashUpdates u) in
  txops ← prepareTxOps txRWSet u db;
  foldM (apply_key txHeight txops) u (key_range ["applyWriteSet"] 0 txops).
End ops.

(** ** Loops over a map that rewrite one entry at a time *)
Section upd_map.
Context `{Countable K} {V : Type}.
Implicit Types (t : gmap K V) (k : K) (g : K → V → outcome (option V)).

Definition upd_map g t k : outcome (gmap K V) :=
  match t !! k with
  | None => Ok t
  | Some e => r ← g k e; Ok (partial_alter (λ _, r) k t)
  end.

Definition upd_result g k (o : option V) : option V :=
  match o with
  | None => None
  | Some e => match g k e with Ok r => r | _ => None end
  end.

Lemma foldM_upd_map g t ks :
  NoDup ks → (∀ k e, k ∈ ks → t !! k = Some e → ∃ r, g k e = Ok r) →
  ∃ t', foldM (upd_map g) t ks = Ok t' ∧
    ∀ k, t' !! k = if decide (k ∈ ks) then upd_result g k (t !! k) else t !! k.
Proof.
  revert t. induction ks as [|k ks IH]; intros t Hnd Hg; cbn.
  - exists t. split; [done|]. intros k. by rewrite decide_False by apply not_elem_of_nil.
  - apply NoDup_cons in Hnd as [Hk Hnd].
    assert (∃ t1, upd_map g t k = Ok t1 ∧ t1 !! k = upd_result g k (t !! k) ∧ ∀ k', k' ≠ k → t1 !! k' = t !! k')
      as (t1 & -> & Ht1 & Hother).
    { unfold upd_map. destruct (t !! k) as [e|] eqn:Hl; [|by exists t].
      destruct (Hg k e) as [r Hr]; [by left|done|]. rewrite Hr. eexists. split; [done|].
      cbn. rewrite Hr, lookup_partial_alter_eq. split; [done|]. intros k' Hne. by rewrite lookup_partial_alter_ne. }
    destruct (IH t1 Hnd) as (t' & -> & Ht').
    { intros k' e Hk' Hl. apply (Hg k'); [by right|]. rewrite <-Hl. symmetry. apply Hother. by intros ->. }
    exists t'. split; [done|]. intros k'. rewrite Ht'.
    destruct (decide (k' = k)) as [->|Hne].
    + rewrite decide_False by done. rewrite decide_True by by left. done.
    + rewrite Hother by done. destruct (decide (k' ∈ ks)).
      * by rewrite decide_True by by right.
      * rewrite decide_False; [done|]. by rewrite elem_of_cons; intros [?|?].
Qed.
End upd_map.

Lemma key_range_elem `{KeyOrder} {V} (site : list string) (n : nat) (m : gmap compositeKey V) (ck : compositeKey) :
  ck ∈ key_range site n m ↔ is_Some (m !! ck).
Proof.
  rewrite key_range_ok, list_elem_of_fmap. split.
  - intros ([k v] & -> & Hin%elem_of_map_to_list). by eexists.
  - intros [v Hv]. exists (ck, v). split; [done|]. by apply elem_of_map_to_list.
Qed.

Lemma key_range_NoDup `{KeyOrder} {V} (site : list string) (n : nat) (m : gmap compositeKey V) : NoDup (key_range site n m).
Proof. rewrite key_range_ok. apply NoDup_fst_map_to_list. Qed.

(** ** The writes of a transaction, one by one *)
Inductive prim :=
| PVal (ck : compositeKey) (v : option bytes)
| PMeta (ck : compositeKey) (entries : list KVMetadataEntry).

Section prims.
Context `{VersionedDB} `{Bookkeeper} `{Hashing} `{RwsetCodec} `{KeyOrder}.

Definition val_prim (ns coll : string) (w : KVWrite) : prim :=
  PVal (ns, coll, kvw_Key w) (if IsKVWriteDelete w then None else kvw_Value w).
Definition meta_prim (ns coll : string) (w : KVMetadataWrite) : prim := PMeta (ns, coll, mw_Key w) (mw_Entries w).

Definition coll_prims (ns : string) (c : CollHashedRwSet) : list prim :=
  map (λ w, val_prim ns (ch_CollectionName c) (write_of_hash w)) (h_HashedWrites (ch_HashedRwSet c)) ++
  map (λ w, meta_prim ns (ch_CollectionName c) (metadata_of_hash w)) (h_MetadataWrites (ch_HashedRwSet c)).

Definition ns_prims (n : NsRwSet) : list prim :=
  map (val_prim (nrw_NameSpace n) "") (kv_Writes (nrw_KvRwSet n)) ++
  map (meta_prim (nrw_NameSpace n) "") (kv_MetadataWrites (nrw_KvRwSet n)) ++
  concat (map (coll_prims (nrw_NameSpace n)) (nrw_CollHashedRwSets n)).

Definition prims (rwset : TxRwSet) : list prim := concat (map ns_prims (NsRwSets rwset)).

Definition apply_prim (t : txOps) (p : prim) : outcome txOps :=
  match p with
  | PVal ck None => Ok (op_delete t ck)
  | PVal ck v => Ok (op_upsert t ck v)
  | PMeta ck [] => Ok (op_metadataDelete t ck)
  | PMeta ck entries => b ← Serialize entries; Ok (op_metadataUpdate t ck (Some b))
  end.

Lemma apply_val_prim ns coll t w : apply_prim t (val_prim ns coll w) = Ok (applyKVWrite ns coll t w).
Proof.
  unfold val_prim, applyKVWrite, IsKVWriteDelete. cbn.
  destruct (kvw_IsDelete w); [done|]. cbn. destruct (kvw_Value w) as [[|]|]; done.
Qed.

Lemma foldM_vals {A} (f : A → prim) (g : txOps → A → txOps) t l :
  (∀ t x, apply_prim t (f x) = Ok (g t x)) → foldM apply_prim t (map f l) = Ok (foldl g t l).
Proof. intros Hf. revert t. induction l as [|x l IH]; intros t; cbn; [done|]. by rewrite Hf. Qed.

Lemma foldM_metas {A} (f : A → prim) (g : txOps → A → outcome txOps) t l :
  (∀ t x, apply_prim t (f x) = g t x) → foldM apply_prim t (map f l) = foldM g t l.
Proof. intros Hf. revert t. induction l as [|x l IH]; intros t; cbn; [done|]. rewrite Hf. by destruct (g t x). Qed.

Lemma foldM_concat {A} (f : A → list prim) (g : txOps → A → outcome txOps) t l :
  (∀ t x, foldM apply_prim t (f x) = g t x) → foldM apply_prim t (concat (map f l)) = foldM g t l.
Proof.
  intros Hf. revert t. induction l as [|x l IH]; intros t; cbn; [done|]. rewrite foldM_app, Hf. by destruct (g t x).
Qed.

Lemma applyTxRwset_prims rwset : applyTxRwset rwset = foldM apply_prim ∅ (prims rwset).
Proof.
  symmetry. apply foldM_concat. intros t n. unfold ns_prims, apply_namespace. rewrite foldM_app.
  rewrite (foldM_vals _ (applyKVWrite (nrw_NameSpace n) "")) by (intros; apply apply_val_prim).
  rewrite foldM_app.
  rewrite (foldM_metas _ (applyMetadata (nrw_NameSpace n) "")) by by intros ? [? [|]].
  destruct (foldM (applyMetadata _ _) _ _) as [t1|?|?]; cbn; [|done..].
  apply foldM_concat. clear t t1. intros t c. unfold coll_prims, apply_collection. rewrite foldM_app.
  rewrite (foldM_vals _ (λ t w, applyKVWrite (nrw_NameSpace n) (ch_CollectionName c) t (write_of_hash w)))
    by (intros; apply apply_val_prim).
  apply foldM_metas. intros t' x. by destruct x as [k [|]].
Qed.

(** What the writes say of one key: its value written or deleted, its metadata
    written or deleted. *)
Definition val_at (ps : list prim) (ck : compositeKey) : option (option bytes) :=
  head (omap (λ p, match p with PVal k v => if decide (k = ck) then Some v else None | _ => None end) ps).
Definition meta_at (ps : list prim) (ck : compositeKey) : option (list KVMetadataEntry) :=
  head (omap (λ p, match p with PMeta k es => if decide (k = ck) then Some es else None | _ => None end) ps).
Definition val_keys (ps : list prim) : list compositeKey :=
  omap (λ p, match p with PVal k _ => Some k | _ => None end) ps.
Definition meta_keys (ps : list prim) : list compositeKey :=
  omap (λ p, match p with PMeta k _ => Some k | _ => None end) ps.

Definition meta_bytes (es : list KVMetadataEntry) : option bytes :=
  match es with
  | [] => None
  | _ => match Serialize es with Ok b => Some b | _ => None end
  end.

Definition vflag (v : option (option bytes)) : Z :=
  match v with None => 0 | Some None => keyDelete | Some (Some _) => upsertVal end.
Definition mflag (m : option (list KVMetadataEntry)) : Z :=
  match m with None => 0 | Some [] => metadataDelete | Some _ => metadataUpdate end.

Definition ops_entry (v : option (option bytes)) (m : option (list KVMetadataEntry)) : option keyOps :=
  match v, m with
  | None, None => None
  | _, _ => Some (mkKeyOps (vflag v + mflag m) (v ≫= id) (m ≫= meta_bytes))
  end.

Lemma head_app {A} (l l' : list A) : head (l ++ l') = match head l with Some x => Some x | None => head l' end.
Proof. by destruct l. Qed.

Lemma val_at_app ps ps' ck :
  val_at (ps ++ ps') ck = match val_at ps ck with Some v => Some v | None => val_at ps' ck end.
Proof. unfold val_at. by rewrite omap_app, head_app. Qed.

Lemma meta_at_app ps ps' ck :
  meta_at (ps ++ ps') ck = match meta_at ps ck with Some v => Some v | None => meta_at ps' ck end.
Proof. unfold meta_at. by rewrite omap_app, head_app. Qed.

Lemma val_at_None ps ck : ck ∉ val_keys ps → val_at ps ck = None.
Proof.
  unfold val_at, val_keys. induction ps as [|[k v|k es] ps IH]; cbn; [done| |done].
  rewrite elem_of_cons. intros Hn. rewrite decide_False by naive_solver. apply IH. naive_solver.
Qed.

Lemma meta_at_None ps ck : ck ∉ meta_keys ps → meta_at ps ck = None.
Proof.
  unfold meta_at, meta_keys. induction ps as [|[k v|k es] ps IH]; cbn; [done|done|].
  rewrite elem_of_cons. intros Hn. rewrite decide_False by naive_solver. apply IH. naive_solver.
Qed.

Lemma entry_default t ps ck :
  t !! ck = ops_entry (val_at ps ck) (meta_at ps ck) →
  getOrCreateKeyEntry t ck = mkKeyOps (vflag (val_at ps ck) + mflag (meta_at ps ck)) (val_at ps ck ≫= id)
    (meta_at ps ck ≫= meta_bytes).
Proof.
  intros Hl. unfold getOrCreateKeyEntry. rewrite Hl.
  by destruct (val_at ps ck), (meta_at ps ck).
Qed.

(** Collected by key, each write counts once. *)
Lemma foldM_prims ps t :
  NoDup (val_keys ps) → NoDup (meta_keys ps) → foldM apply_prim ∅ ps = Ok t →
  ∀ ck, t !! ck = ops_entry (val_at ps ck) (meta_at ps ck).
Proof.
  revert t. induction ps as [|p ps IH] using rev_ind; intros t Hv Hm E ck.
  { cbn in E. injection E as <-. by rewrite lookup_empty. }
  unfold val_keys, meta_keys in Hv, Hm. rewrite omap_app in Hv, Hm.
  apply NoDup_app in Hv as (Hv & Hvd & _). apply NoDup_app in Hm as (Hm & Hmd & _).
  rewrite foldM_app in E. destruct (foldM apply_prim ∅ ps) as [t0|?|?]; [|done..].
  specialize (IH t0 Hv Hm eq_refl). rewrite val_at_app, meta_at_app.
  assert (∀ k v, p = PVal k v → val_at ps k = None) as Hpv.
  { intros k v ->. apply val_at_None. intros Hin. apply (Hvd k Hin). cbn. by left. }
  assert (∀ k es, p = PMeta k es → meta_at ps k = None) as Hpm.
  { intros k es ->. apply meta_at_None. intros Hin. apply (Hmd k Hin). cbn. by left. }
  assert (∀ k e, t = <[k := e]> t0 → k ≠ ck → (∀ v, p = PVal ck v → False) → (∀ v, p = PMeta ck v → False) →
    t !! ck = ops_entry (match val_at ps ck with Some v => Some v | None => val_at [p] ck end)
      (match meta_at ps ck with Some v => Some v | None => meta_at [p] ck end)) as Hother.
  { intros k e -> Hne Hp1 Hp2. rewrite lookup_insert_ne, IH by done.
    assert (val_at [p] ck = None) as ->.
    { unfold val_at. cbn. destruct p as [k' v|]; [|done]. case_decide; [|done]. subst. by destruct (Hp1 v). }
    assert (meta_at [p] ck = None) as ->.
    { unfold meta_at. cbn. destruct p as [|k' v]; [done|]. case_decide; [|done]. subst. by destruct (Hp2 v). }
    by destruct (val_at ps ck), (meta_at ps ck). }
  cbn in E. destruct p as [k [v|]|k [|e es]]; cbn in E.
  - injection E as <-. destruct (decide (k = ck)) as [->|Hne]; [|by eapply Hother; [done|done|congruence..]].
    unfold op_upsert. rewrite lookup_insert_eq, (entry_default _ ps) by done. rewrite (Hpv _ _ eq_refl).
    unfold val_at, meta_at. cbn. rewrite decide_True by done. fold (meta_at ps ck).
    by destruct (meta_at ps ck) as [[|]|].
  - injection E as <-. destruct (decide (k = ck)) as [->|Hne]; [|by eapply Hother; [done|done|congruence..]].
    unfold op_delete. rewrite lookup_insert_eq, (entry_default _ ps) by done. rewrite (Hpv _ _ eq_refl).
    unfold val_at, meta_at. cbn. rewrite decide_True by done. fold (meta_at ps ck).
    by destruct (meta_at ps ck) as [[|]|].
  - injection E as <-. destruct (decide (k = ck)) as [->|Hne]; [|by eapply Hother; [done|done|congruence..]].
    unfold op_metadataDelete. rewrite lookup_insert_eq, (entry_default _ ps) by done. rewrite (Hpm _ _ eq_refl).
    unfold val_at, meta_at. cbn. rewrite decide_True by done. fold (val_at ps ck).
    by destruct (val_at ps ck) as [[|]|].
  - destruct (Serialize (e :: es)) as [b|?|?] eqn:Es; cbn in E; [|done..].
    injection E as <-. destruct (decide (k = ck)) as [->|Hne]; [|by eapply Hother; [done|done|congruence..]].
    unfold op_metadataUpdate. rewrite lookup_insert_eq, (entry_default _ ps) by done. rewrite (Hpm _ _ eq_refl).
    unfold val_at, meta_at. cbn. rewrite decide_True by done. fold (val_at ps ck).
    destruct (val_at ps ck) as [[|]|]; cbn; by rewrite Es.
Qed.

(** ** Reading and writing updates by composite key *)
Definition uget (u : publicAndHashUpdates) (ck : compositeKey) : option VersionedValue :=
  let '(ns, coll, key) := ck in
  if bool_decide (coll = "") then Get (publicUpdates u) ns key else um_Get (hashUpdates u) ns coll key.

Definition state_at (m : gmap string (gmap string VersionedValue)) (ck : compositeKey) : option VersionedValue :=
  let '(ns, coll, key) := ck in
  if bool_decide (coll = "") then lookup_ns m ns !! key
  else lookup_ns m (deriveHashedDataNs ns coll) !! keyHashStr key.

(** The latest entry of a key, a deletion in this block included. *)
Definition raw_latest (u : publicAndHashUpdates) m (ck : compositeKey) : option VersionedValue :=
  match uget u ck with Some vv => Some vv | None => state_at m ck end.

Lemma um_Get_insert b ns batch ns' coll k :
  um_Get (<[ns := batch]> b) ns' coll k = if decide (ns' = ns) then Get batch coll k else um_Get b ns' coll k.
Proof.
  unfold um_Get. case_decide as E; [subst; by rewrite lookup_insert_eq|by rewrite lookup_insert_ne].
Qed.

Lemma um_Get_default b ns coll k : Get (getOrCreateNsBatch b ns) coll k = um_Get b ns coll k.
Proof. unfold um_Get, getOrCreateNsBatch. by destruct (b !! ns). Qed.

Lemma um_Get_Update b ns coll k vv ns' coll' k' :
  um_Get (<[ns := Update (getOrCreateNsBatch b ns) coll k vv]> b) ns' coll' k'
  = if decide ((ns', coll', k') = (ns, coll, k)) then Some vv else um_Get b ns' coll' k'.
Proof.
  rewrite um_Get_insert, Get_Update, um_Get_default.
  destruct (decide (ns' = ns)) as [->|]; [|by rewrite decide_False by congruence].
  destruct (decide ((coll', k') = (coll, k))) as [[= -> ->]|]; [by rewrite decide_True|].
  by rewrite decide_False by congruence.
Qed.

Definition vv_of (h : option Height) (k : keyOps) : VersionedValue :=
  if isDelete k then mkVersionedValue None None h else mkVersionedValue (ko_value k) (ko_metadata k) h.

(** A nil value that is not a deletion. *)
Definition bad (k : keyOps) : Prop := isDelete k = false ∧ ko_value k = None.
#[local] Instance bad_dec k : Decision (bad k) := _.

Lemma apply_key_ok h t u ck k :
  t !! ck = Some k → ¬ bad k →
  ∃ u', apply_key h t u ck = Ok u' ∧ ∀ ck', uget u' ck' = if decide (ck' = ck) then Some (vv_of h k) else uget u ck'.
Proof.
  intros Hl Hb. unfold apply_key. rewrite Hl. destruct ck as [[ns coll] key].
  unfold vv_of. unfold bad in Hb. case_bool_decide as Hc.
  - subst coll. assert (∀ vv b, b = Update (publicUpdates u) ns key vv → ∀ ck', uget (mkPublicAndHashUpdates b (hashUpdates u)) ck'
      = if decide (ck' = (ns, "", key)) then Some vv else uget u ck') as Hu.
    { intros vv b -> [[ns' coll'] key']. unfold uget. cbn. case_bool_decide as Hc'.
      - subst coll'. rewrite Get_Update. by repeat case_decide; simplify_eq.
      - by rewrite decide_False by congruence. }
    destruct (isDelete k); [eexists; split; [done|by apply Hu]|].
    unfold PutValAndMetadata. destruct (ko_value k) as [v|]; [|naive_solver]. cbn.
    eexists; split; [done|by apply Hu].
  - assert (∀ vv b, b = <[ns := Update (getOrCreateNsBatch (hashUpdates u) ns) coll key vv]> (hashUpdates u) →
      ∀ ck', uget (mkPublicAndHashUpdates (publicUpdates u) b) ck'
      = if decide (ck' = (ns, coll, key)) then Some vv else uget u ck') as Hu.
    { intros vv b -> [[ns' coll'] key']. unfold uget. cbn. case_bool_decide as Hc'.
      - subst coll'. by rewrite decide_False by congruence.
      - apply um_Get_Update. }
    destruct (isDelete k); [eexists; split; [done|by apply Hu]|].
    unfold um_PutValAndMetadata, PutValAndMetadata. destruct (ko_value k) as [v|]; [|naive_solver]. cbn.
    eexists; split; [done|by apply Hu].
Qed.

Lemma apply_key_bad h t u ck k : t !! ck = Some k → bad k → is_panic (apply_key h t u ck) = true.
Proof.
  intros Hl [Hd Hv]. unfold apply_key. rewrite Hl. destruct ck as [[ns coll] key].
  rewrite Hd, Hv. by case_bool_decide.
Qed.

Lemma foldM_apply h t ks u :
  (∀ ck k, ck ∈ ks → t !! ck = Some k → ¬ bad k) →
  ∃ u', foldM (apply_key h t) u ks = Ok u' ∧
    ∀ ck, uget u' ck = if decide (ck ∈ ks) then match t !! ck with Some k => Some (vv_of h k) | None => uget u ck end
                       else uget u ck.
Proof.
  revert u. induction ks as [|ck ks IH]; intros u Hb; cbn.
  - exists u. split; [done|]. intros ck. by rewrite decide_False by apply not_elem_of_nil.
  - assert (∃ u1, apply_key h t u ck = Ok u1 ∧ ∀ ck', uget u1 ck' =
      if decide (ck' = ck) then match t !! ck with Some k => Some (vv_of h k) | None => uget u ck end else uget u ck')
      as (u1 & -> & Hu1).
    { destruct (t !! ck) as [k|] eqn:Hl.
      - apply apply_key_ok; [done|]. apply (Hb ck); [by left|done].
      - exists u. unfold apply_key. rewrite Hl. split; [done|]. intros ck'. by case_decide; subst. }
    destruct (IH u1) as (u' & -> & Hu'). { intros ck' k Hin. apply Hb. by right. }
    exists u'. split; [done|]. intros ck'. rewrite Hu', Hu1.
    destruct (decide (ck' = ck)) as [->|Hne].
    + rewrite (decide_True (P := ck ∈ ck :: ks)) by by left. by case_decide; destruct (t !! ck).
    + destruct (decide (ck' ∈ ks)).
      * by rewrite decide_True by by right.
      * rewrite decide_False; [done|]. by rewrite elem_of_cons; intros [?|?].
Qed.

Lemma foldM_apply_bad h t ks u ck k :
  ck ∈ ks → t !! ck = Some k → bad k → is_panic (foldM (apply_key h t) u ks) = true.
Proof.
  intros Hin Hl Hb. revert u. induction ks as [|ck' ks IH]; intros u; [by apply not_elem_of_nil in Hin|]. cbn.
  destruct (t !! ck') as [k'|] eqn:Hl'; [destruct (decide (bad k')) as [Hb'|Hb']|].
  - pose proof (apply_key_bad h t u ck' k' Hl' Hb') as Hp. by destruct (apply_key h t u ck').
  - destruct (apply_key_ok h t u ck' k' Hl' Hb') as (u1 & -> & _).
    apply IH. apply elem_of_cons in Hin as [->|Hin]; [|done]. congruence.
  - unfold apply_key at 1. rewrite Hl'. apply IH. apply elem_of_cons in Hin as [->|Hin]; [congruence|done].
Qed.

(** ** Merging with the latest state *)
Definition prep (u : publicAndHashUpdates) (db : DB) (ck : compositeKey) (keyop : keyOps) : outcome (option keyOps) :=
  if isDelete keyop || isUpsertAndMetadataUpdate keyop then Ok (Some keyop)
  else if isOnlyUpsert keyop then
    latestMetadata ← retrieveLatestMetadata ck u db;
    Ok (Some (mkKeyOps (ko_flag keyop) (ko_value keyop) latestMetadata))
  else
    latestVal ← retrieveLatestState ck u db;
    Ok (option_map (λ vv, mkKeyOps (ko_flag keyop) (vv_Value vv) (ko_metadata keyop)) latestVal).

Lemma prepare_key_upd u db t ck : prepare_key u db t ck = upd_map (prep u db) t ck.
Proof.
  unfold prepare_key, upd_map, prep. destruct (t !! ck) as [k|] eqn:Hl; [|done].
  destruct (isDelete k || isUpsertAndMetadataUpdate k).
  { cbn. f_equal. apply map_eq. intros ck'. destruct (decide (ck' = ck)) as [->|].
    - by rewrite lookup_partial_alter_eq.
    - by rewrite lookup_partial_alter_ne. }
  destruct (isOnlyUpsert k); [by destruct (retrieveLatestMetadata ck u db)|].
  by destruct (retrieveLatestState ck u db) as [[vv|]|?|?].
Qed.

(** ** What a transaction's writes make of a key

    [old] is the latest entry of the key; a write of the value alone keeps its
    metadata, a write of the metadata alone keeps its value. *)
Definition update_of (old : option VersionedValue) (v : option (option bytes)) (m : option (list KVMetadataEntry))
    (h : option Height) : option VersionedValue :=
  match v with
  | Some None => Some (mkVersionedValue None None h)
  | Some (Some x) =>
      Some (mkVersionedValue (Some x) (match m with Some es => meta_bytes es | None => old ≫= vv_Metadata end) h)
  | None =>
      match m with
      | None => None
      | Some es => (λ vv, mkVersionedValue (vv_Value vv) (meta_bytes es) h) <$> old
      end
  end.

(** Metadata written alone to a key this block has deleted. *)
Definition revives (old : option VersionedValue) (v : option (option bytes)) (m : option (list KVMetadataEntry)) : Prop :=
  v = None ∧ is_Some m ∧ ∃ vv, old = Some vv ∧ vv_Value vv = None.

Section latest.
Context (db : DB) (m : gmap string (gmap string VersionedValue)).
Hypothesis Hdb : holds (db_VersionedDB db) m.
Hypothesis Hhint : hint_sound db m.

Lemma retrieveLatestState_spec u ck : retrieveLatestState ck u db = Ok (raw_latest u m ck).
Proof.
  destruct ck as [[ns coll] key]. unfold retrieveLatestState, raw_latest, uget, state_at, GetValueHash, db_GetState.
  case_bool_decide.
  - destruct (Get _ _ _); [done|]. by rewrite (holds_state _ _ Hdb).
  - destruct (um_Get _ _ _ _); [done|]. by rewrite (holds_state _ _ Hdb).
Qed.

Lemma retrieveLatestMetadata_spec u ck :
  plain_ns ck.1.1 → retrieveLatestMetadata ck u db = Ok (raw_latest u m ck ≫= vv_Metadata).
Proof.
  destruct ck as [[ns coll] key]. intros Hns. unfold retrieveLatestMetadata, raw_latest, uget, state_at.
  destruct (hint_transparent db m ns coll key Hdb Hhint Hns) as [H1' H2'].
  case_bool_decide.
  - destruct (Get _ _ _); [done|]. rewrite H1'. unfold db_GetState. rewrite (holds_state _ _ Hdb). cbn.
    by destruct (lookup_ns m ns !! key).
  - destruct (um_Get _ _ _ _); [done|]. rewrite H2'. unfold GetValueHash, db_GetState. rewrite (holds_state _ _ Hdb). cbn.
    by destruct (lookup_ns m _ !! _).
Qed.

Lemma prep_entry u ck v md k h :
  plain_ns ck.1.1 → ops_entry v md = Some k →
  ∃ r, prep u db ck k = Ok r ∧ update_of (raw_latest u m ck) v md h = vv_of h <$> r ∧
    ((∃ k', r = Some k' ∧ bad k') ↔ revives (raw_latest u m ck) v md).
Proof.
  intros Hns Hk. unfold prep, revives.
  rewrite retrieveLatestMetadata_spec, retrieveLatestState_spec by done.
  destruct v as [[x|]|], md as [[|e es]|]; cbn in Hk; try done; injection Hk as <-; cbn;
    try (eexists; split_and!; [done|done|];
      split; [by intros (k' & [= <-] & Hb & Hv)|by intros (? & _)]).
  - destruct (raw_latest u m ck) as [vv|]; cbn; eexists; (split_and!; [done|done|]).
    + split.
      * intros (k' & [= <-] & _ & Hv). split_and!; [done|by eexists|]. by exists vv.
      * intros (_ & _ & vv' & [= <-] & Hv). eexists. split; [done|]. by split.
    + split; [by intros (k' & ? & _)|by intros (_ & _ & ? & ? & _)].
  - destruct (raw_latest u m ck) as [vv|]; cbn; eexists; (split_and!; [done|done|]).
    + split.
      * intros (k' & [= <-] & _ & Hv). split_and!; [done|by eexists|]. by exists vv.
      * intros (_ & _ & vv' & [= <-] & Hv). eexists. split; [done|]. by split.
    + split; [by intros (k' & ? & _)|by intros (_ & _ & ? & ? & _)].
Qed.

(** A transaction as the simulator builds it: each key is written once. *)
Record wf_writes (rwset : TxRwSet) : Prop := {
  ww_vals : NoDup (val_keys (prims rwset));
  ww_metas : NoDup (meta_keys (prims rwset));
  ww_plain ck : ck ∈ val_keys (prims rwset) ∨ ck ∈ meta_keys (prims rwset) → plain_ns ck.1.1;
  ww_serialize ck es : PMeta ck es ∈ prims rwset → ∃ b, Serialize es = Ok b
}.

Lemma foldM_prims_total ps t :
  (∀ ck es, PMeta ck es ∈ ps → ∃ b, Serialize es = Ok b) → ∃ t', foldM apply_prim t ps = Ok t'.
Proof.
  revert t. induction ps as [|p ps IH]; intros t Hs; cbn; [by eexists|].
  assert (∃ t1, apply_prim t p = Ok t1) as [t1 ->].
  { destruct p as [ck [v|]|ck [|e es]]; cbn; [by eexists..|].
    destruct (Hs ck (e :: es)) as [b ->]; [by left|]. cbn. by eexists. }
  apply IH. intros ck es Hin. apply (Hs ck es). by right.
Qed.

Lemma val_at_elem ps ck v : val_at ps ck = Some v → ck ∈ val_keys ps.
Proof. intros E. destruct (decide (ck ∈ val_keys ps)); [done|]. by rewrite val_at_None in E. Qed.
Lemma meta_at_elem ps ck v : meta_at ps ck = Some v → ck ∈ meta_keys ps.
Proof. intros E. destruct (decide (ck ∈ meta_keys ps)); [done|]. by rewrite meta_at_None in E. Qed.

Definition write_at (rwset : TxRwSet) (ck : compositeKey) : option (option bytes) := val_at (prims rwset) ck.
Definition metawrite_at (rwset : TxRwSet) (ck : compositeKey) : option (list KVMetadataEntry) := meta_at (prims rwset) ck.

Lemma prepareTxOps_spec rwset u h :
  wf_writes rwset →
  ∃ t, prepareTxOps rwset u db = Ok t ∧ ∀ ck,
    update_of (raw_latest u m ck) (write_at rwset ck) (metawrite_at rwset ck) h = vv_of h <$> t !! ck ∧
    ((∃ k, t !! ck = Some k ∧ bad k) ↔ revives (raw_latest u m ck) (write_at rwset ck) (metawrite_at rwset ck)).
Proof.
  intros Hw. unfold prepareTxOps. rewrite applyTxRwset_prims.
  destruct (foldM_prims_total (prims rwset) ∅ (ww_serialize _ Hw)) as [t0 E]. rewrite E. cbn.
  pose proof (foldM_prims _ _ (ww_vals _ Hw) (ww_metas _ Hw) E) as Ht.
  assert (∀ ck k, t0 !! ck = Some k → plain_ns ck.1.1) as Hplain.
  { intros ck k Hk. rewrite Ht in Hk. apply (ww_plain _ Hw).
    destruct (val_at (prims rwset) ck) eqn:Ev; [left; by eapply val_at_elem|].
    destruct (meta_at (prims rwset) ck) eqn:Em; [right; by eapply meta_at_elem|done]. }
  assert (∀ t ck, prepare_key u db t ck = upd_map (prep u db) t ck) as Hup by (intros; apply prepare_key_upd).
  assert (∀ ks t, foldM (prepare_key u db) t ks = foldM (upd_map (prep u db)) t ks) as Hfold.
  { induction ks as [|k ks IH]; intros t; cbn; [done|]. rewrite Hup. by destruct (upd_map _ t k). }
  rewrite Hfold. destruct (foldM_upd_map (prep u db) t0 (key_range ["prepareTxOps"] 0 t0)) as (t & Et & Hl).
  { apply key_range_NoDup. }
  { intros ck k _ Hk. destruct (prep_entry u ck (val_at (prims rwset) ck) (meta_at (prims rwset) ck) k h)
      as (r & Hr & _); [by eapply Hplain|by rewrite <-Ht|eauto]. }
  exists t. split; [done|]. intros ck. rewrite Hl. unfold write_at, metawrite_at.
  destruct (t0 !! ck) as [k|] eqn:Hk.
  - rewrite decide_True by (apply key_range_elem; by eexists). cbn.
    destruct (prep_entry u ck (val_at (prims rwset) ck) (meta_at (prims rwset) ck) k h)
      as (r & Hr & Hu & Hb); [by eapply Hplain|by rewrite <-Ht|]. by rewrite Hr.
  - rewrite decide_False by (rewrite key_range_elem, Hk; by intros [? [=]]). rewrite Ht in Hk.
    unfold revives. destruct (val_at (prims rwset) ck) as [v|], (meta_at (prims rwset) ck) as [es|]; try done. cbn.
    split; [done|]. split; [by intros (k & [=] & _)|by intros (_ & [? [=]] & _)].
Qed.

Lemma uget_flag u b ck :
  uget (mkPublicAndHashUpdates (mkUpdateBatch b (Updates (publicUpdates u))) (hashUpdates u)) ck = uget u ck.
Proof. by destruct ck as [[ns coll] key]. Qed.

Lemma applyWriteSet_ok rwset u h post :
  wf_writes rwset →
  (∀ ck, ¬ revives (raw_latest u m ck) (write_at rwset ck) (metawrite_at rwset ck)) →
  ∃ u', applyWriteSet u rwset h db post = Ok u' ∧
    ∀ ck, uget u' ck = match update_of (raw_latest u m ck) (write_at rwset ck) (metawrite_at rwset ck) h with
                       | Some vv => Some vv
                       | None => uget u ck
                       end.
Proof.
  intros Hw Hn. unfold applyWriteSet. set (u1 := mkPublicAndHashUpdates _ _).
  assert (∀ ck, raw_latest u1 m ck = raw_latest u m ck) as Hraw by (intros ck; unfold raw_latest, u1; by rewrite uget_flag).
  destruct (prepareTxOps_spec rwset u1 h Hw) as (t & -> & Ht). cbn.
  destruct (foldM_apply h t (key_range ["applyWriteSet"] 0 t) u1) as (u' & -> & Hu').
  { intros ck k _ Hk Hb. apply (Hn ck). rewrite <-Hraw. apply Ht. eauto. }
  exists u'. split; [done|]. intros ck. destruct (Ht ck) as [Hck _]. rewrite Hraw in Hck.
  assert (uget u1 ck = uget u ck) as Hflag by apply uget_flag. rewrite Hu', Hck, Hflag.
  destruct (t !! ck) as [k|] eqn:Hk.
  - by rewrite decide_True by (apply key_range_elem; by eexists).
  - by rewrite decide_False by (rewrite key_range_elem, Hk; by intros [? [=]]).
Qed.

Lemma applyWriteSet_panic rwset u h post ck :
  wf_writes rwset → revives (raw_latest u m ck) (write_at rwset ck) (metawrite_at rwset ck) →
  is_panic (applyWriteSet u rwset h db post) = true.
Proof.
  intros Hw Hr. unfold applyWriteSet. set (u1 := mkPublicAndHashUpdates _ _).
  destruct (prepareTxOps_spec rwset u1 h Hw) as (t & -> & Ht). cbn.
  destruct (Ht ck) as [_ [_ Hb]]. destruct Hb as (k & Hk & Hb).
  { unfold raw_latest, u1 in *. by rewrite uget_flag. }
  eapply foldM_apply_bad; [|done..]. apply key_range_elem. by eexists.
Qed.

(** ** Namespaces of the updates *)
Definition plain_u (u : publicAndHashUpdates) : Prop :=
  (∀ ns, is_Some (Updates (publicUpdates u) !! ns) → plain_ns ns) ∧
  (∀ ns, is_Some (hashUpdates u !! ns) → plain_ns ns).

Lemma plain_insert {V} (M : gmap string V) ns v :
  plain_ns ns → (∀ n, is_Some (M !! n) → plain_ns n) → ∀ n, is_Some (<[ns := v]> M !! n) → plain_ns n.
Proof. intros Hns HM n. rewrite lookup_insert_is_Some. intros [<-|[_ Hn]]; [done|by apply HM]. Qed.

Lemma apply_key_plain h t u ck u' :
  (∀ k, t !! ck = Some k → plain_ns ck.1.1) → plain_u u → apply_key h t u ck = Ok u' → plain_u u'.
Proof.
  intros Hck [Hp Hh]. unfold apply_key. destruct (t !! ck) as [k|]; [|by intros [= <-]].
  specialize (Hck k eq_refl). destruct ck as [[ns coll] key]. cbn in Hck.
  case_bool_decide; destruct (isDelete k).
  - intros [= <-]. split; [|done]. by apply plain_insert.
  - unfold PutValAndMetadata. destruct (ko_value k); cbn; [|done]. intros [= <-]. split; [|done]. by apply plain_insert.
  - intros [= <-]. split; [done|]. by apply plain_insert.
  - unfold um_PutValAndMetadata, PutValAndMetadata. destruct (ko_value k); cbn; [|done]. intros [= <-].
    split; [done|]. by apply plain_insert.
Qed.

Lemma applyWriteSet_plain rwset u h post u' :
  wf_writes rwset → plain_u u → applyWriteSet u rwset h db post = Ok u' → plain_u u'.
Proof.
  intros Hw Hp. unfold applyWriteSet. set (u1 := mkPublicAndHashUpdates _ _).
  destruct (prepareTxOps_spec rwset u1 h Hw) as (t & -> & Ht). cbn. intros E.
  eapply (foldM_inv plain_u) in E; [done| |done]. intros ck c c' _ Hc Ec.
  eapply apply_key_plain; [|exact Hc|exact Ec]. intros k Hk. destruct (Ht ck) as [Hck _]. rewrite Hk in Hck. cbn in Hck.
  apply (ww_plain _ Hw). unfold write_at, metawrite_at in Hck.
  destruct (val_at (prims rwset) ck) eqn:Ev; [left; by eapply val_at_elem|].
  destruct (meta_at (prims rwset) ck) eqn:Em; [right; by eapply meta_at_elem|done].
Qed.
End latest.
End prims.

(** The updates of a block after a transaction: every key the transaction
    writes has the value, metadata and version its writes give it, a value or
    metadata written alone keeping the latest other one; every other key is as
    before. *)
Theorem applyWriteSet_spec `{VersionedDB} `{Bookkeeper} `{Hashing} `{RwsetCodec} `{KeyOrder}
    (db : DB) (m : gmap string (gmap string VersionedValue)) (u : publicAndHashUpdates) (rwset : TxRwSet)
    (h : option Height) (post : bool) :
  holds (db_VersionedDB db) m → hint_sound db m → wf_writes rwset →
  (∀ ck, ¬ revives (raw_latest u m ck) (write_at rwset ck) (metawrite_at rwset ck)) →
  ∃ u', applyWriteSet u rwset h db post = Ok u' ∧
    ∀ ck, uget u' ck = match update_of (raw_latest u m ck) (write_at rwset ck) (metawrite_at rwset ck) h with
                       | Some vv => Some vv
                       | None => uget u ck
                       end.
Proof. intros Hdb Hh Hw Hn. by eapply applyWriteSet_ok. Qed.

(** When a transaction writes only the metadata of a key that an earlier
    transaction of the block has deleted, the commit panics on the nil value
    instead of leaving the key alone. *)
Theorem metadata_after_delete_panics `{VersionedDB} `{Bookkeeper} `{Hashing} `{RwsetCodec} `{KeyOrder}
    (db : DB) (m : gmap string (gmap string VersionedValue)) (u : publicAndHashUpdates) (rwset : TxRwSet)
    (h : option Height) (post : bool) (ck : compositeKey) (vv : VersionedValue) :
  holds (db_VersionedDB db) m → hint_sound db m → wf_writes rwset →
  uget u ck = Some vv → IsDelete vv = true → write_at rwset ck = None → is_Some (metawrite_at rwset ck) →
  is_panic (applyWriteSet u rwset h db post) = true.
Proof.
  intros Hdb Hh Hw Hu Hd Hv Hm. eapply applyWriteSet_panic; [done..|]. split_and!; [exact Hv|done|].
  exists vv. unfold raw_latest. rewrite Hu. split; [done|]. by apply bool_decide_eq_true in Hd.
Qed.

(** ** Concrete transactions *)
Definition list_key_order : KeyOrder := {|
  key_range V _ _ m := (map_to_list m).*1;
  key_range_ok V _ _ m := Permutation_refl _
|}.

#[local] Existing Instance mem_db.
#[local] Existing Instance mem_bk.
#[local] Existing Instance toy_hashing.
#[local] Existing Instance toy_rw_codec.
#[local] Existing Instance list_key_order.

(** Key a is written, the metadata of b set, c deleted. *)
Definition toy_writes : TxRwSet :=
  mkTxRwSet [mkNsRwSet "cc" (mkKVRWSet [] [] [mkKVWrite "a" false (Some "1"); mkKVWrite "c" true None]
    [mkKVMetadataWrite "b" [mkKVMetadataEntry "VALIDATION_PARAMETER" "p"]]) []].

Lemma toy_writes_wf : wf_writes toy_writes.
Proof.
  split.
  - refine (bool_decide_unpack _ _). vm_compute. exact I.
  - refine (bool_decide_unpack _ _). vm_compute. exact I.
  - intros ck Hck. assert (ck ∈ [("cc", "", "a"); ("cc", "", "c"); ("cc", "", "b")]) as Hin.
    { destruct Hck as [Hck|Hck]; cbn in Hck; set_solver. }
    by repeat (apply elem_of_cons in Hin as [->|Hin]); [..|apply not_elem_of_nil in Hin].
  - intros ck es _. by exists "".
Qed.

Lemma toy_hint : hint_sound toy_db ∅.
Proof.
  intros ns coll k vv _ _ [E|E]; unfold lookup_ns in E; rewrite lookup_empty in E; cbn in E;
    by rewrite lookup_empty in E.
Qed.

Definition toy_before : publicAndHashUpdates :=
  mkPublicAndHashUpdates (Update NewUpdateBatch "cc" "b" (vv_at "2" 1 0)) ∅.

Lemma applyWriteSet_spec_witness :
  ∃ u', applyWriteSet toy_before toy_writes (Some (mkHeight 1 1)) toy_db false = Ok u' ∧
    uget u' ("cc", "", "a") = Some (mkVersionedValue (Some "1") None (Some (mkHeight 1 1))) ∧
    uget u' ("cc", "", "b") = Some (mkVersionedValue (Some "2") (Some "") (Some (mkHeight 1 1))).
Proof.
  destruct (applyWriteSet_spec toy_db ∅ toy_before toy_writes (Some (mkHeight 1 1)) false (mem_holds ∅) toy_hint
    toy_writes_wf) as (u' & E & Hu).
  - intros ck (Hv & [es Hm] & vv & Hold & Hnone). apply meta_at_elem in Hm. cbn in Hm.
    apply list_elem_of_singleton in Hm as ->. vm_compute in Hold. injection Hold as <-. done.
  - exists u'. split; [exact E|]. split; rewrite Hu; reflexivity.
Defined.

(** Metadata of a key the block has deleted. *)
Definition toy_deleted : publicAndHashUpdates :=
  mkPublicAndHashUpdates (Delete NewUpdateBatch "cc" "b" (Some (mkHeight 1 0))) ∅.

Lemma metadata_after_delete_panics_witness :
  is_panic (applyWriteSet toy_deleted toy_writes (Some (mkHeight 1 1)) toy_db false) = true.
Proof.
  refine (metadata_after_delete_panics toy_db ∅ toy_deleted toy_writes (Some (mkHeight 1 1)) false ("cc", "", "b") _
    (mem_holds ∅) toy_hint toy_writes_wf eq_refl eq_refl eq_refl _). by eexists.
Defined.
