(* ===== verification/Mvcc.v ===== *)
(** * Mvcc: validation of a block's transactions against the state
      (core/ledger/kvledger/txmgmt/validation/validator.go and types.go)

    A transaction is valid when every version it read is still the committed
    one, no earlier valid transaction of the block wrote the key, and its range
    queries have the results they had. The writes of valid transactions
    accumulate in the block's updates. *)

From S2P Require Import Prelude GoText Utf8 Base64 Protos Height StateDb PvtState RwSetUtil RangeQuery TxOps.

(** ** types.go *)
Record transaction := mkTransaction' {
  indexInBlock : Z;
  tx_id : string;
  tx_rwset : TxRwSet;
  validationCode : Z;
  containsPostOrderWrites : bool
}.
Record block := mkBlock' { b_num : Z; b_txs : list transaction }.

Definition set_code (tx : transaction) (code : Z) : transaction :=
  mkTransaction' (indexInBlock tx) (tx_id tx) (tx_rwset tx) code (containsPostOrderWrites tx).

Definition containsPvtWrites (tx : transaction) : bool :=
  existsb (λ ns, existsb (λ c, bool_decide (ch_PvtRwSetHash c ≠ None)) (nrw_CollHashedRwSets ns)) (NsRwSets (tx_rwset tx)).

(** Every namespace with the name is searched, up to the first collection. *)
Definition retrieveHash (tx : transaction) (ns coll : string) : option bytes :=
  match list_find (λ c, ch_CollectionName c = coll)
          (concat (map nrw_CollHashedRwSets (filter (λ n, nrw_NameSpace n = ns) (NsRwSets (tx_rwset tx))))) with
  | Some (_, c) => ch_PvtRwSetHash c
  | None => None
  end.

(** The first occurrence of each element, in order. *)
Definition first_of {A} `{EqDecision A} (l : list A) : list A :=
  foldl (λ acc x, if decide (x ∈ acc) then acc else acc ++ [x]) [] l.

Section validator.
Context `{VersionedDB} `{Bookkeeper} `{Hashing} `{RwsetCodec} `{KeyOrder}.
Context (hashFunc : bytes → outcome bytes).

(** A loop of checks: the first one that fails or has an error decides. *)
Fixpoint all_valid {A} (f : A → outcome bool) (l : list A) : outcome bool :=
  match l with
  | [] => Ok true
  | x :: l => valid ← f x; if (valid : bool) then all_valid f l else Ok false
  end.

(** ** Public reads *)
Definition validateKVRead (db : DB) (ns : string) (updates : UpdateBatch) (kvRead : KVRead) : outcome bool :=
  let readVersion := NewVersion (kvr_Version kvRead) in
  if Exists updates ns (kvr_Key kvRead) then Ok false
  else
    committedVersion ← db_GetVersion db ns (kvr_Key kvRead);
    Ok (AreSame committedVersion readVersion).

Definition validateReadSet (db : DB) (ns : string) (kvReads : list KVRead) (updates : UpdateBatch) : outcome bool :=
  all_valid (validateKVRead db ns updates) kvReads.

(** ** Range queries *)
Definition validateRangeQuery (db : DB) (ns : string) (updates : UpdateBatch) (rqi : RangeQueryInfo) : outcome bool :=
  let includeEndKey := negb (rqi_ItrExhausted rqi) in
  combinedItr ← combined_items (db_VersionedDB db) updates ns (rqi_EndKey rqi) includeEndKey (rqi_StartKey rqi);
  match rqi_ReadsInfo rqi with
  | ReadsMerkleHashes inMerkle => hash_validate hashFunc marshal_QueryReads inMerkle combinedItr
  | _ => results_validate rqi combinedItr
  end.

Definition validateRangeQueries (db : DB) (ns : string) (infos : list RangeQueryInfo) (updates : UpdateBatch)
    : outcome bool :=
  all_valid (validateRangeQuery db ns updates) infos.

(** ** Hashed reads *)
Definition validateKVReadHash (db : DB) (ns coll : string) (updates : UpdateMap) (r : KVReadHash) : outcome bool :=
  let readHashVersion := NewVersion (rh_Version r) in
  if um_Contains updates ns coll (rh_KeyHash r) then Ok false
  else
    committedVersion ← GetKeyHashVersion db ns coll (rh_KeyHash r);
    Ok (AreSame committedVersion readHashVersion).

Definition validateCollHashedReadSet (db : DB) (ns coll : string) (reads : list KVReadHash) (updates : UpdateMap)
    : outcome bool :=
  all_valid (validateKVReadHash db ns coll updates) reads.

Definition validateNsHashedReadSets (db : DB) (ns : string) (colls : list CollHashedRwSet) (updates : UpdateMap)
    : outcome bool :=
  all_valid (λ c, validateCollHashedReadSet db ns (ch_CollectionName c) (h_HashedReads (ch_HashedRwSet c)) updates) colls.

(** ** A transaction *)
Fixpoint validate_namespaces (db : DB) (u : publicAndHashUpdates) (nss : list NsRwSet) : outcome Z :=
  match nss with
  | [] => Ok TxValidationCode_VALID
  | n :: nss =>
      let ns := nrw_NameSpace n in
      valid ← validateReadSet db ns (kv_Reads (nrw_KvRwSet n)) (publicUpdates u);
      if negb valid then Ok TxValidationCode_MVCC_READ_CONFLICT else
      valid ← validateRangeQueries db ns (kv_RangeQueriesInfo (nrw_KvRwSet n)) (publicUpdates u);
      if negb valid then Ok TxValidationCode_PHANTOM_READ_CONFLICT else
      valid ← validateNsHashedReadSets db ns (nrw_CollHashedRwSets n) (hashUpdates u);
      if negb valid then Ok TxValidationCode_MVCC_READ_CONFLICT else
      validate_namespaces db u nss
  end.

Definition validateTx (db : DB) (txRWSet : TxRwSet) (u : publicAndHashUpdates) : outcome Z :=
  validate_namespaces db u (NsRwSets txRWSet).

Definition validateEndorserTX (db : DB) (txRWSet : TxRwSet) (doMVCCValidation : bool) (u : publicAndHashUpdates)
    : outcome Z :=
  if doMVCCValidation then validateTx db txRWSet u else Ok TxValidationCode_VALID.

(** ** Purges requested by the application *)
Notation purge_tracker := (gmap compositeKey (option Height)).

Definition purge_update (p : purge_tracker) (rwset : TxRwSet) (version : option Height) : purge_tracker :=
  foldl (λ p n, foldl (λ p c, foldl (λ p w,
           if wh_IsPurge w then <[(nrw_NameSpace n, ch_CollectionName c, wh_KeyHash w) := version]> p else p)
           p (h_HashedWrites (ch_HashedRwSet c))) p (nrw_CollHashedRwSets n)) p (NsRwSets rwset).

Definition purge_getUpdates (p : purge_tracker) : list (compositeKey * option Height) :=
  omap (λ ck, pair ck <$> p !! ck) (key_range ["getUpdates"] 0 p).

(** ** The block *)
Definition read_keys (blk : block) : list (string * string) :=
  first_of (tx ← b_txs blk; n ← NsRwSets (tx_rwset tx);
    map (λ r, (nrw_NameSpace n, kvr_Key r)) (kv_Reads (nrw_KvRwSet n))).

Definition hashed_read_keys (blk : block) : list (string * string * string) :=
  first_of (tx ← b_txs blk; n ← NsRwSets (tx_rwset tx); c ← nrw_CollHashedRwSets n;
    map (λ r, (nrw_NameSpace n, ch_CollectionName c, rh_KeyHash r)) (h_HashedReads (ch_HashedRwSet c))).

Definition preLoadCommittedVersionOfRSet (db : DB) (blk : block) : outcome DB :=
  let pubKeys := read_keys blk in
  let hashedKeys := hashed_read_keys blk in
  if (0 <? length pubKeys)%nat || (0 <? length hashedKeys)%nat
  then LoadCommittedVersionsOfPubAndHashedKeys db pubKeys hashedKeys
  else Ok db.

(** One transaction of the loop: its code, the updates, the purges. *)
Definition validate_one (db : DB) (num : Z) (doMVCCValidation : bool)
    (st : publicAndHashUpdates * purge_tracker) (tx : transaction)
    : outcome (transaction * (publicAndHashUpdates * purge_tracker)) :=
  let '(updates, purges) := st in
  code ← validateEndorserTX db (tx_rwset tx) doMVCCValidation updates;
  let tx := set_code tx code in
  if (code =? TxValidationCode_VALID)%Z then
    let committingTxHeight := Some (mkHeight num (u64 (indexInBlock tx))) in
    updates ← applyWriteSet updates (tx_rwset tx) committingTxHeight db (containsPostOrderWrites tx);
    Ok (tx, (updates, purge_update purges (tx_rwset tx) committingTxHeight))
  else Ok (tx, (updates, purges)).

Fixpoint validate_txs (db : DB) (num : Z) (doMVCCValidation : bool) (st : publicAndHashUpdates * purge_tracker)
    (txs : list transaction) : outcome (list transaction * (publicAndHashUpdates * purge_tracker)) :=
  match txs with
  | [] => Ok ([], st)
  | tx :: txs =>
      '(tx, st) ← validate_one db num doMVCCValidation st tx;
      '(txs, st) ← validate_txs db num doMVCCValidation st txs;
      Ok (tx :: txs, st)
  end.

Definition validateAndPrepareBatch (db : DB) (blk : block) (doMVCCValidation : bool)
    : outcome (block * publicAndHashUpdates * list (compositeKey * option Height) * DB) :=
  db ← (if IsBulkOptimizable then preLoadCommittedVersionOfRSet db blk else Ok db);
  '(txs, (updates, purges)) ← validate_txs db (b_num blk) doMVCCValidation (newPubAndHashUpdates, ∅) (b_txs blk);
  Ok (mkBlock' (b_num blk) txs, updates, purge_getUpdates purges, db).
End validator.

(** ** Serial execution of a block

    The state as a function of namespace, collection and key; what a
    transaction reads of it and what it makes of it. *)
Section serial.
Context `{VersionedDB} `{Bookkeeper} `{Hashing} `{RwsetCodec} `{KeyOrder}.
Context (hashFunc : bytes → outcome bytes).
Implicit Types (σ : compositeKey → option VersionedValue).

Definition reads_of (rwset : TxRwSet) : list (compositeKey * option Height) :=
  n ← NsRwSets rwset;
  map (λ r, ((nrw_NameSpace n, "", kvr_Key r), NewVersion (kvr_Version r))) (kv_Reads (nrw_KvRwSet n)) ++
  (c ← nrw_CollHashedRwSets n;
   map (λ r, ((nrw_NameSpace n, ch_CollectionName c, rh_KeyHash r), NewVersion (rh_Version r)))
     (h_HashedReads (ch_HashedRwSet c))).

Definition reads_current σ (rwset : TxRwSet) : Prop :=
  ∀ ck ver, (ck, ver) ∈ reads_of rwset → (σ ck ≫= vv_Version) = ver.

(** The entries a range query covers; the last key read is included when the
    simulation did not exhaust it. *)
Definition query_results σ (ns : string) (rqi : RangeQueryInfo) (L : list VersionedKV) : Prop :=
  ∃ M : gmap string VersionedValue, (∀ k, M !! k = σ (ns, "", k)) ∧
    L = range_of ns (rqi_StartKey rqi) (rqi_EndKey rqi) M ++ end_entry ns (rqi_EndKey rqi) (negb (rqi_ItrExhausted rqi)) M.

Definition query_current σ (ns : string) (rqi : RangeQueryInfo) : Prop :=
  ∃ L, query_results σ ns rqi L ∧
    match rqi_ReadsInfo rqi with
    | ReadsMerkleHashes ms => hash_validate hashFunc marshal_QueryReads ms (Ok <$> L) = Ok true
    | _ => read_of <$> L = raw_reads rqi
    end.

Definition queries_current σ (rwset : TxRwSet) : Prop :=
  ∀ n rqi, n ∈ NsRwSets rwset → rqi ∈ kv_RangeQueriesInfo (nrw_KvRwSet n) → query_current σ (nrw_NameSpace n) rqi.

Definition write_effect σ (rwset : TxRwSet) (h : option Height) (ck : compositeKey) : option VersionedValue :=
  let old := σ ck in
  match write_at rwset ck with
  | Some None => None
  | Some (Some x) =>
      Some (mkVersionedValue (Some x)
        (match metawrite_at rwset ck with Some es => meta_bytes es | None => old ≫= vv_Metadata end) h)
  | None =>
      match metawrite_at rwset ck with
      | None => old
      | Some es => (λ vv, mkVersionedValue (vv_Value vv) (meta_bytes es) h) <$> old
      end
  end.

Definition tx_height (num : Z) (tx : transaction) : option Height := Some (mkHeight num (u64 (indexInBlock tx))).

Inductive serial (num : Z) : (compositeKey → option VersionedValue) → list transaction →
    (compositeKey → option VersionedValue) → Prop :=
| serial_done σ σ' : (∀ ck, σ ck = σ' ck) → serial num σ [] σ'
| serial_valid σ tx txs σ' :
    validationCode tx = TxValidationCode_VALID →
    reads_current σ (tx_rwset tx) → queries_current σ (tx_rwset tx) →
    serial num (write_effect σ (tx_rwset tx) (tx_height num tx)) txs σ' → serial num σ (tx :: txs) σ'
| serial_invalid σ tx txs σ' :
    validationCode tx ≠ TxValidationCode_VALID → serial num σ txs σ' → serial num σ (tx :: txs) σ'.

Lemma reads_of_elem rwset ck ver :
  (ck, ver) ∈ reads_of rwset ↔ ∃ n, n ∈ NsRwSets rwset ∧
    ((∃ r, r ∈ kv_Reads (nrw_KvRwSet n) ∧ ck = (nrw_NameSpace n, "", kvr_Key r) ∧ ver = NewVersion (kvr_Version r)) ∨
     (∃ c r, c ∈ nrw_CollHashedRwSets n ∧ r ∈ h_HashedReads (ch_HashedRwSet c) ∧
        ck = (nrw_NameSpace n, ch_CollectionName c, rh_KeyHash r) ∧ ver = NewVersion (rh_Version r))).
Proof.
  unfold reads_of. rewrite list_elem_of_bind. split.
  - intros (n & Hin & Hn). exists n. split; [done|]. apply elem_of_app in Hin as [Hin|Hin].
    + apply list_elem_of_fmap in Hin as (r & [= -> ->] & Hin). left. by exists r.
    + apply list_elem_of_bind in Hin as (c & Hin & Hc). apply list_elem_of_fmap in Hin as (r & [= -> ->] & Hin).
      right. by exists c, r.
  - intros (n & Hn & [(r & Hr & -> & ->)|(c & r & Hc & Hr & -> & ->)]); exists n; (split; [|done]); apply elem_of_app.
    + left. apply list_elem_of_fmap. by exists r.
    + right. apply list_elem_of_bind. exists c. split; [|done]. apply list_elem_of_fmap. by exists r.
Qed.

(** ** What the checks mean *)
Lemma all_valid_true {A} (f : A → outcome bool) l :
  all_valid f l = Ok true ↔ ∀ x, x ∈ l → f x = Ok true.
Proof.
  induction l as [|x l IH]; cbn.
  - split; [|done]. intros _ x Hx. by apply not_elem_of_nil in Hx.
  - split.
    + destruct (f x) as [[]|?|?] eqn:E; cbn; try done. rewrite IH. intros Hl y. rewrite elem_of_cons.
      by intros [->|?]; [|apply Hl].
    + intros Hall. rewrite (Hall x) by by left. cbn. apply IH. intros y Hy. apply Hall. by right.
Qed.

Section checks.
Context (db : DB) (m : gmap string (gmap string VersionedValue)).
Hypothesis Hdb : holds (db_VersionedDB db) m.

Lemma Exists_Get b ns k : Exists b ns k = bool_decide (is_Some (Get b ns k)).
Proof. unfold Exists, Get. by destruct (Updates b !! ns). Qed.

Lemma um_Contains_Get b ns coll k : um_Contains b ns coll k = bool_decide (is_Some (um_Get b ns coll k)).
Proof. unfold um_Contains, um_Get. destruct (b !! ns); [apply Exists_Get|done]. Qed.

Lemma validateKVRead_true ns u r :
  validateKVRead db ns u r = Ok true ↔
  Get u ns (kvr_Key r) = None ∧ (lookup_ns m ns !! kvr_Key r ≫= vv_Version) = NewVersion (kvr_Version r).
Proof.
  unfold validateKVRead, db_GetVersion. rewrite Exists_Get, (holds_version _ _ Hdb). cbn.
  destruct (Get u ns (kvr_Key r)); cbn; [by naive_solver|].
  rewrite <-AreSame_iff. split; [by intros [= ->]|by intros [_ ->]].
Qed.

Lemma validateKVReadHash_true ns coll u r :
  validateKVReadHash db ns coll u r = Ok true ↔
  um_Get u ns coll (rh_KeyHash r) = None ∧
  (lookup_ns m (deriveHashedDataNs ns coll) !! keyHashStr (rh_KeyHash r) ≫= vv_Version) = NewVersion (rh_Version r).
Proof.
  unfold validateKVReadHash, GetKeyHashVersion, db_GetVersion. rewrite um_Contains_Get, (holds_version _ _ Hdb). cbn.
  destruct (um_Get u ns coll (rh_KeyHash r)); cbn; [by naive_solver|].
  rewrite <-AreSame_iff. split; [by intros [= ->]|by intros [_ ->]].
Qed.

(** The results of a query on the database with the block's updates. *)
Definition results_with (ns : string) (u : UpdateBatch) (rqi : RangeQueryInfo) : list VersionedKV :=
  let M := overlay (GetUpdates u ns) (lookup_ns m ns) in
  range_of ns (rqi_StartKey rqi) (rqi_EndKey rqi) M ++ end_entry ns (rqi_EndKey rqi) (negb (rqi_ItrExhausted rqi)) M.

Lemma validateRangeQuery_eq ns u rqi :
  validateRangeQuery hashFunc db ns u rqi =
  match rqi_ReadsInfo rqi with
  | ReadsMerkleHashes ms => hash_validate hashFunc marshal_QueryReads ms (Ok <$> results_with ns u rqi)
  | _ => results_validate rqi (Ok <$> results_with ns u rqi)
  end.
Proof.
  unfold validateRangeQuery. rewrite (combined_items_spec (db_VersionedDB db) m) by done. cbn [mbind outcome_bind].
  by destruct (rqi_ReadsInfo rqi).
Qed.

Lemma validate_namespaces_valid u nss :
  validate_namespaces hashFunc db u nss = Ok TxValidationCode_VALID ↔
  ∀ n, n ∈ nss →
    (∀ r, r ∈ kv_Reads (nrw_KvRwSet n) → validateKVRead db (nrw_NameSpace n) (publicUpdates u) r = Ok true) ∧
    (∀ rqi, rqi ∈ kv_RangeQueriesInfo (nrw_KvRwSet n) →
       validateRangeQuery hashFunc db (nrw_NameSpace n) (publicUpdates u) rqi = Ok true) ∧
    (∀ c r, c ∈ nrw_CollHashedRwSets n → r ∈ h_HashedReads (ch_HashedRwSet c) →
       validateKVReadHash db (nrw_NameSpace n) (ch_CollectionName c) (hashUpdates u) r = Ok true).
Proof.
  induction nss as [|n nss IH]; cbn [validate_namespaces].
  - split; [|done]. intros _ n Hn. by apply not_elem_of_nil in Hn.
  - pose proof (all_valid_true (validateKVRead db (nrw_NameSpace n) (publicUpdates u)) (kv_Reads (nrw_KvRwSet n))) as H1'.
    pose proof (all_valid_true (validateRangeQuery hashFunc db (nrw_NameSpace n) (publicUpdates u))
      (kv_RangeQueriesInfo (nrw_KvRwSet n))) as H2'.
    pose proof (all_valid_true (λ c, validateCollHashedReadSet db (nrw_NameSpace n) (ch_CollectionName c)
      (h_HashedReads (ch_HashedRwSet c)) (hashUpdates u)) (nrw_CollHashedRwSets n)) as H3'.
    unfold validateReadSet, validateRangeQueries, validateNsHashedReadSets.
    split.
    + destruct (all_valid (validateKVRead _ _ _) _) as [[]|?|?]; cbn; try done.
      destruct (all_valid (validateRangeQuery _ _ _ _) _) as [[]|?|?]; cbn; try done.
      destruct (all_valid (λ c, _) _) as [[]|?|?]; cbn; try done.
      rewrite IH. intros Hall n'. rewrite elem_of_cons. intros [->|Hn']; [|by apply Hall].
      split_and!; [by apply H1'|by apply H2'|]. intros c r Hc Hr.
      eapply all_valid_true; [by apply H3'|done].
    + intros Hall. destruct (Hall n) as (Hr & Hq & Hh); [by left|].
      rewrite (proj2 H1' Hr). cbn. rewrite (proj2 H2' Hq). cbn. rewrite (proj2 H3'); [cbn|intros c Hc; apply all_valid_true; eauto].
      apply IH. intros n' Hn'. apply Hall. by right.
Qed.

Hypothesis Halive : alive_state m.
Hypothesis Hhint : hint_sound db m.

(** The state a transaction sees: the database with the block's updates. *)
Definition view (u : publicAndHashUpdates) (ck : compositeKey) : option VersionedValue :=
  after (uget u ck) (state_at m ck).

(** Deletions in the updates carry no metadata. *)
Definition wf_markers (u : publicAndHashUpdates) : Prop :=
  ∀ ck vv, uget u ck = Some vv → vv_Value vv = None → vv_Metadata vv = None.

Lemma state_at_alive ck vv : state_at m ck = Some vv → vv_Value vv ≠ None.
Proof. destruct ck as [[ns coll] k]. unfold state_at. case_bool_decide; apply Halive. Qed.

Lemma raw_latest_view u ck :
  wf_markers u →
  (raw_latest u m ck ≫= vv_Metadata) = (view u ck ≫= vv_Metadata) ∧
  (¬ (∃ vv, raw_latest u m ck = Some vv ∧ vv_Value vv = None) → raw_latest u m ck = view u ck).
Proof.
  intros Hw. unfold raw_latest, view, after, IsDelete. destruct (uget u ck) as [vv|] eqn:Hu; [|done].
  case_bool_decide as Hv; [|done]. split.
  - cbn. by rewrite (Hw _ _ Hu Hv).
  - intros Hn. exfalso. eauto.
Qed.

Lemma view_write u u' rwset h :
  wf_markers u →
  (∀ ck, ¬ revives (raw_latest u m ck) (write_at rwset ck) (metawrite_at rwset ck)) →
  (∀ ck, uget u' ck = match update_of (raw_latest u m ck) (write_at rwset ck) (metawrite_at rwset ck) h with
                      | Some vv => Some vv | None => uget u ck end) →
  wf_markers u' ∧ ∀ ck, view u' ck = write_effect (view u) rwset h ck.
Proof.
  intros Hw Hn Hu'. split.
  - intros ck vv. rewrite Hu'. specialize (Hn ck). unfold revives in Hn. unfold update_of.
    destruct (write_at rwset ck) as [[x|]|]; [by intros [= <-]|by intros [= <-]|].
    destruct (metawrite_at rwset ck) as [es|]; [|apply Hw].
    destruct (raw_latest u m ck) as [old|]; [|apply Hw]. cbn. intros [= <-]. cbn. intros Hv. exfalso. apply Hn.
    split_and!; [done|by eexists|by exists old].
  - intros ck. destruct (raw_latest_view u ck Hw) as [Hmd Heq]. specialize (Hn ck). unfold revives in Hn.
    unfold view at 1. rewrite Hu'. unfold update_of, write_effect. rewrite Hmd.
    destruct (write_at rwset ck) as [[x|]|]; [done|done|].
    destruct (metawrite_at rwset ck) as [es|]; [|done].
    rewrite Heq by naive_solver. unfold view. destruct (after (uget u ck) (state_at m ck)) as [vv|] eqn:Hvv.
    + cbn. unfold IsDelete. cbn. rewrite bool_decide_false; [done|]. unfold after, IsDelete in Hvv.
      destruct (uget u ck) as [w|]; [case_bool_decide; [done|by injection Hvv as <-]|by eapply state_at_alive].
    + cbn. done.
Qed.

Lemma view_query u ns rqi : query_results (view u) ns rqi (results_with ns (publicUpdates u) rqi).
Proof.
  exists (overlay (GetUpdates (publicUpdates u) ns) (lookup_ns m ns)). split; [|done].
  intros k. rewrite lookup_overlay. unfold view. change (uget u (ns, "", k)) with (Get (publicUpdates u) ns k).
  change (state_at m (ns, "", k)) with (lookup_ns m ns !! k). rewrite Get_updates.
  destruct (GetUpdates (publicUpdates u) ns !! k) as [vv|]; [done|].
  destruct (lookup_ns m ns !! k) as [vv|] eqn:Hl; [|done]. cbn. unfold IsDelete.
  by rewrite bool_decide_false by by eapply Halive.
Qed.

Definition named_collections (rwset : TxRwSet) : Prop :=
  ∀ n c, n ∈ NsRwSets rwset → c ∈ nrw_CollHashedRwSets n → ch_CollectionName c ≠ "".

(** Keys read in their committed version and not written in this block. *)
Definition reads_fresh (u : publicAndHashUpdates) (rwset : TxRwSet) : Prop :=
  ∀ ck ver, (ck, ver) ∈ reads_of rwset → uget u ck = None ∧ (state_at m ck ≫= vv_Version) = ver.

Lemma validateTx_fresh u rwset :
  named_collections rwset → validateTx hashFunc db rwset u = Ok TxValidationCode_VALID → reads_fresh u rwset.
Proof.
  intros Hnamed Hv ck ver. unfold validateTx in Hv. rewrite validate_namespaces_valid in Hv. rewrite reads_of_elem.
  intros (n & Hn & [(r & Hin & -> & ->)|(c & r & Hc & Hin & -> & ->)]); destruct (Hv n Hn) as (Hr & _ & Hh).
  - by apply Hr, validateKVRead_true in Hin.
  - pose proof (proj1 (validateKVReadHash_true _ _ _ _) (Hh c r Hc Hin)).
    unfold uget, state_at. by rewrite bool_decide_false by by eapply Hnamed.
Qed.

Lemma validateTx_current u rwset :
  named_collections rwset → validateTx hashFunc db rwset u = Ok TxValidationCode_VALID →
  reads_current (view u) rwset ∧ queries_current (view u) rwset.
Proof.
  intros Hnamed Hv. split.
  - intros ck ver Hin. destruct (validateTx_fresh _ _ Hnamed Hv ck ver Hin) as [Hu Hs]. unfold view. by rewrite Hu.
  - unfold validateTx in Hv. rewrite validate_namespaces_valid in Hv.
    intros n rqi Hn Hq. destruct (Hv n Hn) as (_ & Hrq & _). specialize (Hrq _ Hq).
    exists (results_with (nrw_NameSpace n) (publicUpdates u) rqi). split; [apply view_query|].
    rewrite validateRangeQuery_eq in Hrq. destruct (rqi_ReadsInfo rqi); [by apply results_validate_true..|done].
Qed.

(** Range queries recorded as the reads themselves. *)
Definition raw_queries (rwset : TxRwSet) : Prop :=
  ∀ n rqi, n ∈ NsRwSets rwset → rqi ∈ kv_RangeQueriesInfo (nrw_KvRwSet n) →
    Forall (λ r, is_Some (kvr_Version r)) (raw_reads rqi) ∧ ∀ ms, rqi_ReadsInfo rqi ≠ ReadsMerkleHashes ms.

Lemma all_valid_total {A} (f : A → outcome bool) l : (∀ x, x ∈ l → ∃ b, f x = Ok b) → ∃ b, all_valid f l = Ok b.
Proof.
  intros Hf. induction l as [|x l IH]; cbn; [by eexists|].
  destruct (Hf x) as [[] ->]; [by left| |by eexists]. cbn. apply IH. intros y Hy. apply Hf. by right.
Qed.

Lemma validateRangeQuery_raw ns u rqi :
  Forall (λ r, is_Some (kvr_Version r)) (raw_reads rqi) → (∀ ms, rqi_ReadsInfo rqi ≠ ReadsMerkleHashes ms) →
  validateRangeQuery hashFunc db ns u rqi = Ok (bool_decide (read_of <$> results_with ns u rqi = raw_reads rqi)).
Proof.
  intros Hv Hm. rewrite validateRangeQuery_eq.
  destruct (rqi_ReadsInfo rqi) as [| |ms] eqn:Er; [by apply results_validate_spec..|by destruct (Hm ms)].
Qed.

Lemma validateTx_total u rwset :
  raw_queries rwset →
  ∃ code, validateTx hashFunc db rwset u = Ok code ∧
    code ∈ [TxValidationCode_VALID; TxValidationCode_MVCC_READ_CONFLICT; TxValidationCode_PHANTOM_READ_CONFLICT].
Proof.
  unfold validateTx, raw_queries. generalize (NsRwSets rwset). intros nss.
  induction nss as [|n nss IH]; intros Hraw; cbn [validate_namespaces].
  { eexists. split; [done|]. by left. }
  destruct (all_valid_total (validateKVRead db (nrw_NameSpace n) (publicUpdates u)) (kv_Reads (nrw_KvRwSet n))) as [b1 E1].
  { intros r _. unfold validateKVRead, db_GetVersion. rewrite (holds_version _ _ Hdb). case_match; by eexists. }
  unfold validateReadSet. rewrite E1. cbn. destruct b1; cbn; [|eexists; split; [done|repeat constructor]].
  destruct (all_valid_total (validateRangeQuery hashFunc db (nrw_NameSpace n) (publicUpdates u))
    (kv_RangeQueriesInfo (nrw_KvRwSet n))) as [b2 E2].
  { intros rqi Hin. destruct (Hraw n rqi) as [Hv Hm]; [by left|done|]. rewrite validateRangeQuery_raw by done. by eexists. }
  unfold validateRangeQueries. rewrite E2. cbn. destruct b2; cbn; [|eexists; split; [done|repeat constructor]].
  destruct (all_valid_total (λ c, validateCollHashedReadSet db (nrw_NameSpace n) (ch_CollectionName c)
    (h_HashedReads (ch_HashedRwSet c)) (hashUpdates u)) (nrw_CollHashedRwSets n)) as [b3 E3].
  { intros c _. apply all_valid_total. intros r _. unfold validateKVReadHash, GetKeyHashVersion, db_GetVersion.
    rewrite (holds_version _ _ Hdb). case_match; by eexists. }
  unfold validateNsHashedReadSets. rewrite E3. cbn. destruct b3; cbn; [|eexists; split; [done|repeat constructor]].
  apply IH. intros n' rqi Hn'. apply Hraw. by right.
Qed.

Lemma validateTx_complete u rwset :
  named_collections rwset → raw_queries rwset → reads_fresh u rwset → queries_current (view u) rwset →
  validateTx hashFunc db rwset u = Ok TxValidationCode_VALID.
Proof.
  intros Hnamed Hraw Hr Hq. apply validate_namespaces_valid. intros n Hn. split_and!.
  - intros r Hin. apply validateKVRead_true, (Hr (nrw_NameSpace n, "", kvr_Key r)), reads_of_elem. eauto 10.
  - intros rqi Hin. destruct (Hraw n rqi Hn Hin) as [Hv Hm]. rewrite validateRangeQuery_raw by done.
    destruct (Hq n rqi Hn Hin) as (L & (M & HM & HL) & HH).
    destruct (view_query u (nrw_NameSpace n) rqi) as (M' & HM' & HL').
    assert (M = M') as -> by (apply map_eq; intros k; by rewrite HM, HM'). rewrite <-HL' in HL. subst L.
    f_equal. apply bool_decide_true. destruct (rqi_ReadsInfo rqi) as [| |ms] eqn:Er; [done..|by destruct (Hm ms)].
  - intros c r Hc Hin. apply validateKVReadHash_true.
    destruct (Hr (nrw_NameSpace n, ch_CollectionName c, rh_KeyHash r) (NewVersion (rh_Version r))) as [Hu Hs].
    { apply reads_of_elem. eauto 10. }
    unfold uget, state_at in Hu, Hs. by rewrite bool_decide_false in Hu, Hs by by eapply Hnamed.
Qed.

Definition wf_tx (tx : transaction) : Prop := wf_writes (tx_rwset tx) ∧ named_collections (tx_rwset tx).

Lemma validate_one_step num u p tx tx' u' p' :
  wf_tx tx → wf_markers u → plain_u u → validate_one hashFunc db num true (u, p) tx = Ok (tx', (u', p')) →
  wf_markers u' ∧ plain_u u' ∧ tx' = set_code tx (validationCode tx') ∧
  ((validationCode tx' = TxValidationCode_VALID ∧ reads_current (view u) (tx_rwset tx') ∧
    queries_current (view u) (tx_rwset tx') ∧
    ∀ ck, view u' ck = write_effect (view u) (tx_rwset tx') (tx_height num tx') ck) ∨
   (validationCode tx' ≠ TxValidationCode_VALID ∧ u' = u)).
Proof.
  intros [Hw Hnamed] Hm Hp. unfold validate_one, validateEndorserTX.
  destruct (validateTx hashFunc db (tx_rwset tx) u) as [code|?|?] eqn:Ev; cbn; [|done..].
  destruct (Z.eqb_spec code TxValidationCode_VALID) as [->|Hne].
  2:{ intros [= <- <- <-]. split_and!; [done..|]. by right. }
  destruct (applyWriteSet u (tx_rwset tx) _ db _) as [u1|?|?] eqn:Ea; cbn; [|done..]. intros [= <- <- <-].
  assert (∀ ck, ¬ revives (raw_latest u m ck) (write_at (tx_rwset tx) ck) (metawrite_at (tx_rwset tx) ck)) as Hn.
  { intros ck Hr. eapply applyWriteSet_panic in Hr; [|done..]. by rewrite Ea in Hr. }
  destruct (applyWriteSet_ok db m Hdb Hhint _ _ (tx_height num tx) (containsPostOrderWrites tx) Hw Hn) as (u2 & Ea' & Hu).
  unfold tx_height in Ea'. rewrite Ea in Ea'. injection Ea' as <-.
  destruct (view_write _ _ _ _ Hm Hn Hu) as [Hm' Hview]. destruct (validateTx_current _ _ Hnamed Ev) as [Hr Hq].
  split_and!; [done|by eapply applyWriteSet_plain|done|]. left. split_and!; done.
Qed.

Lemma serial_ext num σ1 σ2 txs σ' : (∀ ck, σ1 ck = σ2 ck) → serial num σ1 txs σ' → serial num σ2 txs σ'.
Proof.
  intros Heq Hs. revert σ2 Heq. induction Hs as [σ σ' Hd|σ tx txs σ' Hc Hr Hq Hs IH|σ tx txs σ' Hc Hs IH]; intros σ2 Heq.
  - constructor. intros ck. by rewrite <-Heq.
  - apply serial_valid; [done|..].
    + intros ck ver Hin. rewrite <-Heq. by apply Hr.
    + intros n rqi Hn Hin. destruct (Hq n rqi Hn Hin) as (L & (M & HM & HL) & HH). exists L. split; [|done].
      exists M. split; [|done]. intros k. by rewrite HM, Heq.
    + apply IH. intros ck. unfold write_effect. by rewrite Heq.
  - apply serial_invalid; [done|]. by apply IH.
Qed.

Lemma validate_txs_serial num txs u p txs' u' p' :
  Forall wf_tx txs → wf_markers u → plain_u u → validate_txs hashFunc db num true (u, p) txs = Ok (txs', (u', p')) →
  serial num (view u) txs' (view u') ∧ plain_u u' ∧ Forall2 (λ tx tx', tx' = set_code tx (validationCode tx')) txs txs'.
Proof.
  intros Hwf. revert u p txs'. induction Hwf as [|tx txs Htx Hwf IH]; intros u p txs' Hm Hp; cbn [validate_txs].
  { intros [= <- <- <-]. split_and!; [by constructor|done|constructor]. }
  destruct (validate_one hashFunc db num true (u, p) tx) as [[tx1 [u1 p1]]|?|?] eqn:E1; cbn [mbind outcome_bind]; [|done..].
  destruct (validate_txs hashFunc db num true (u1, p1) txs) as [[txs1 [u2 p2]]|?|?] eqn:E2; cbn; [|done..]. intros [= <- -> ->].
  destruct (validate_one_step _ _ _ _ _ _ _ Htx Hm Hp E1) as (Hm1 & Hp1 & Hset & Hcase).
  destruct (IH _ _ _ Hm1 Hp1 E2) as (Hs & Hp2 & Hall). split_and!; [|done|by constructor].
  destruct Hcase as [(Hc & Hr & Hq & Hv)|[Hc ->]].
  - apply serial_valid; [done..|]. eapply serial_ext; [|exact Hs]. done.
  - by apply serial_invalid.
Qed.
End checks.
End serial.

(** What loading versions into the database's cache promises. *)
Definition load_keeps `{VersionedDB} : Prop := ∀ load db keys db' m,
  vdb_LoadCommittedVersions = Some load → load db keys = Ok db' → holds db m → holds db' m.

(** A key of the committed state. *)
Definition read_db `{VersionedDB} `{Bookkeeper} (s : DB) (ck : compositeKey) : outcome (option VersionedValue) :=
  let '(ns, coll, key) := ck in
  if bool_decide (coll = "") then db_GetState s ns key else GetValueHash s ns coll key.

Lemma validateTx_code `{VersionedDB} `{Bookkeeper} `{Hashing} `{RwsetCodec} hashFunc (db : DB) rwset u code :
  validateTx hashFunc db rwset u = Ok code →
  code ∈ [TxValidationCode_VALID; TxValidationCode_MVCC_READ_CONFLICT; TxValidationCode_PHANTOM_READ_CONFLICT].
Proof.
  unfold validateTx. induction (NsRwSets rwset) as [|n nss IH]; cbn; [intros [= <-]; repeat constructor|].
  destruct (validateReadSet _ _ _ _) as [[]|?|?]; cbn; [|intros [= <-]; repeat constructor|done..].
  destruct (validateRangeQueries _ _ _ _ _) as [[]|?|?]; cbn; [|intros [= <-]; repeat constructor|done..].
  destruct (validateNsHashedReadSets _ _ _ _) as [[]|?|?]; cbn; [done|intros [= <-]; repeat constructor|done..].
Qed.

Lemma validate_txs_codes `{VersionedDB} `{Bookkeeper} `{Hashing} `{RwsetCodec} `{KeyOrder} hashFunc (db : DB) num st txs txs' st' :
  validate_txs hashFunc db num true st txs = Ok (txs', st') → Forall (λ tx, (0 ≤ validationCode tx < 256)%Z) txs'.
Proof.
  revert st txs'. induction txs as [|tx txs IH]; intros [u p] txs'; cbn -[validate_one]; [by intros [= <- <-]|].
  destruct (validate_one _ _ _ _ _ _) as [[tx1 st1]|?|?] eqn:E1; cbn -[validate_one]; [|done..].
  destruct (validate_txs _ _ _ _ _ txs) as [[txs1 st2]|?|?] eqn:E2; cbn; [|done..]. intros [= <- <-].
  constructor; [|by eapply IH]. unfold validate_one, validateEndorserTX in E1.
  destruct (validateTx _ _ _ _) as [code|?|?] eqn:Ec; cbn in E1; [|done..]. apply validateTx_code in Ec.
  assert (validationCode tx1 = code) as ->.
  { destruct (code =? _)%Z; [|by injection E1 as <- <-]. destruct (applyWriteSet _ _ _ _ _); cbn in E1; [|done..].
    by injection E1 as <- <-. }
  repeat (apply elem_of_cons in Ec as [->|Ec]; [done|]). by apply elem_of_nil in Ec.
Qed.

(** Validating and committing a block is a serial execution of its valid
    transactions: at its turn each of them finds every key in the version it
    read and every range query with the results it recorded, and the committed
    state is the one their writes lead to in this order, invalid transactions
    having no effect. *)
Lemma block_serializable `{VersionedDB} `{Bookkeeper} `{Hashing} `{RwsetCodec} `{KeyOrder} `{MapOrder}
    (hashFunc : bytes → outcome bytes) (db db' s' : DB) (m : gmap string (gmap string VersionedValue))
    (blk blk' : block) (u : publicAndHashUpdates) (purges : list (compositeKey * option Height))
    (pvt : gmap string UpdateBatch) (h : option Height) :
  applies → load_keeps → holds (db_VersionedDB db) m → alive_state m → hint_sound db m →
  Forall wf_tx (b_txs blk) → (∀ ns, is_Some (pvt !! ns) → plain_ns ns) →
  validateAndPrepareBatch hashFunc db blk true = Ok (blk', u, purges, db') →
  ApplyPrivacyAwareUpdates db' (mkPvtUpdateBatch (publicUpdates u) (hashUpdates u) pvt) h = (s', Ok ()) →
  Forall2 (λ tx tx', tx' = set_code tx (validationCode tx')) (b_txs blk) (b_txs blk') ∧
  Forall (λ tx, (0 ≤ validationCode tx < 256)%Z) (b_txs blk') ∧
  ∃ σ, serial hashFunc (b_num blk) (state_at m) (b_txs blk') σ ∧
    ∀ ck, plain_ns ck.1.1 → read_db s' ck = Ok (σ ck).
Proof.
  intros Happ Hload Hdb Halive Hhint Hwf Hpvt E Ec. unfold validateAndPrepareBatch in E.
  assert (∀ d, (if IsBulkOptimizable then preLoadCommittedVersionOfRSet db blk else Ok db) = Ok d →
    holds (db_VersionedDB d) m ∧ db_metadataHint d = db_metadataHint db) as Hpre.
  { intros d. destruct IsBulkOptimizable; [|by intros [= <-]].
    unfold preLoadCommittedVersionOfRSet, LoadCommittedVersionsOfPubAndHashedKeys. case_match; [|by intros [= <-]].
    destruct vdb_LoadCommittedVersions as [load|] eqn:El; [|by intros [= <-]].
    destruct (load _ _) as [v|?|?] eqn:Ev; cbn; [|done..]. intros [= <-]. split; [by eapply Hload|done]. }
  destruct (if IsBulkOptimizable then _ else _) as [d|?|?]; cbn in E; [|done..].
  destruct (Hpre d eq_refl) as [Hd Hdh]. clear Hpre.
  destruct (validate_txs hashFunc d _ _ _ _) as [[txs [u1 p1]]|?|?] eqn:Et; cbn in E; [|done..].
  injection E as <- <- <- <-. assert (hint_sound d m) as Hh by (intros ?; rewrite Hdh; apply Hhint).
  pose proof (validate_txs_codes _ _ _ _ _ _ _ Et) as Hcodes.
  eapply (validate_txs_serial hashFunc d m Hd Halive Hh) in Et as (Hs & [Hp1 Hp2] & Hall); [|done| |].
  2:{ intros [[ns coll] k] vv. unfold uget. case_bool_decide; cbn; by rewrite ?lookup_empty. }
  2:{ split; intros ns; cbn; rewrite lookup_empty; by intros [? [=]]. }
  split; [done|]. split; [done|]. exists (view m u1). split.
  - eapply serial_ext; [|exact Hs]. intros [[ns coll] k]. unfold view, uget. by case_bool_decide.
  - intros [[ns coll] k] Hns. cbn in Hns.
    destruct (Apply_inv _ _ _ _ _ Happ Hd Ec) as [Hs' _].
    destruct (combined_Get (mkPvtUpdateBatch (publicUpdates u1) (hashUpdates u1) pvt) ns coll k) as (G1 & _ & G3);
      [by split|done|]. unfold read_db, view, uget, state_at, GetValueHash, db_GetState.
    case_bool_decide; rewrite (holds_state _ _ Hs'), apply_batch_lookup by done; [by rewrite G1|by rewrite G3].
Qed.

(** C7: A transaction whose range queries carry raw reads is valid exactly when
    no key it read was written by an earlier valid transaction of the block,
    every key is committed in the version it read, and every query still has
    its results; any other transaction is a read conflict or a phantom read. *)
Theorem validateTx_valid_iff `{VersionedDB} `{Bookkeeper} `{Hashing} `{RwsetCodec} `{KeyOrder}
    (hashFunc : bytes → outcome bytes) (db : DB) (m : gmap string (gmap string VersionedValue))
    (u : publicAndHashUpdates) (rwset : TxRwSet) :
  holds (db_VersionedDB db) m → alive_state m → named_collections rwset → raw_queries rwset →
  ∃ code, validateTx hashFunc db rwset u = Ok code ∧
    code ∈ [TxValidationCode_VALID; TxValidationCode_MVCC_READ_CONFLICT; TxValidationCode_PHANTOM_READ_CONFLICT] ∧
    (code = TxValidationCode_VALID ↔
      (∀ ck ver, (ck, ver) ∈ reads_of rwset → uget u ck = None ∧ (state_at m ck ≫= vv_Version) = ver) ∧
      queries_current hashFunc (view m u) rwset).
Proof.
  intros Hdb Halive Hnamed Hraw. destruct (validateTx_total hashFunc db m Hdb u rwset Hraw) as (code & E & Hcode).
  exists code. split_and!; [done..|]. split.
  - intros ->. split; [by apply (validateTx_fresh hashFunc db m Hdb)|by apply (validateTx_current hashFunc db m Hdb Halive)].
  - intros [Hr Hq]. pose proof (validateTx_complete hashFunc db m Hdb Halive u rwset Hnamed Hraw Hr Hq). congruence.
Qed.

(** ** A concrete block *)
#[local] Existing Instance mem_db.
#[local] Existing Instance mem_bk.
#[local] Existing Instance toy_hashing.
#[local] Existing Instance toy_rw_codec.
#[local] Existing Instance list_key_order.

(** A transaction that read key a before it was written. *)
Definition toy_stale : TxRwSet :=
  mkTxRwSet [mkNsRwSet "cc" (mkKVRWSet [mkKVRead "a" None] [] [mkKVWrite "d" false (Some "4")] []) []].
Lemma toy_stale_wf : wf_writes toy_stale.
Proof.
  split; [refine (bool_decide_unpack _ _); vm_compute; exact I..| |intros ck es _; by exists ""].
  intros ck [Hck|Hck]; cbn in Hck; [|by apply elem_of_nil in Hck].
  by apply list_elem_of_singleton in Hck as ->.
Qed.

Lemma toy_stale_named : named_collections toy_stale.
Proof. intros n c Hn Hc. cbn in Hn. apply list_elem_of_singleton in Hn as ->. by apply elem_of_nil in Hc. Qed.

Lemma validateTx_valid_iff_witness :
  ∃ code, validateTx Ok toy_db toy_stale toy_before = Ok code ∧
    code ∈ [TxValidationCode_VALID; TxValidationCode_MVCC_READ_CONFLICT; TxValidationCode_PHANTOM_READ_CONFLICT] ∧
    (code = TxValidationCode_VALID ↔
      (∀ ck ver, (ck, ver) ∈ reads_of toy_stale → uget toy_before ck = None ∧ (state_at ∅ ck ≫= vv_Version) = ver) ∧
      queries_current Ok (view ∅ toy_before) toy_stale).
Proof.
  apply (validateTx_valid_iff Ok toy_db ∅ toy_before toy_stale (mem_holds ∅) empty_alive toy_stale_named).
  intros n rqi Hn Hq. cbn in Hn. apply list_elem_of_singleton in Hn as ->. by apply elem_of_nil in Hq.
Defined.
