(* ===== verification/BatchPreparer.v ===== *)
(** * BatchPreparer: from a block to the batch of its updates
      (core/ledger/kvledger/txmgmt/validation/batch_preparer.go)

    The transactions of a block that are not flagged invalid are decoded, the
    validator decides which of them commit, private data is checked against the
    hashes in the block, and the flags are written back to the block. What the
    configuration transactions' processors and the post-order simulator do is
    the parameter [PostOrder]. *)

From S2P Require Import Prelude GoText Utf8 Base64 Protos TxFlags Proposal ProtoUtil Height StateDb PvtState RwSetUtil.
From S2P Require Import RangeQuery TxOps Mvcc.

Record TxStatInfo := mkTxStatInfo {
  ts_TxIDFromChannelHeader : string;
  ts_ValidationCode : Z;
  ts_TxType : Z;
  ts_ChaincodeID : option ChaincodeID;
  ts_ChaincodeEventData : bytes;
  ts_NumCollections : nat
}.

(** [ledger.TxPvtData]. *)
Record TxPvtData := mkTxPvtData { pvd_SeqInBlock : Z; pvd_WriteSet : option TxPvtReadWriteSet }.

(** What a custom transaction processor reports: an [*InvalidTxError], another
    error or nothing. *)
Inductive process_error := InvalidTxError (msg : string) | OtherError (msg : string).

Class PostOrder := {
  po_sim : Type;
  po_processor : Type;
  po_NewTxSimulator : string → outcome po_sim;
  po_GenerateSimulationResults : po_processor → Envelope → po_sim → bool → po_sim * option process_error;
  po_GetTxSimulationResults : po_sim → outcome TxSimulationResults
}.

Section preparer.
Context `{Codec} `{TxCodec} `{VersionedDB} `{Bookkeeper} `{Hashing} `{RwsetCodec} `{KeyOrder} `{PostOrder}.
Context (customTxProcessors : gmap Z po_processor) (validateKVFunc : string → option bytes → outcome unit).
Context (hashFunc : bytes → outcome bytes).

(** ** Preprocessing *)

(** [inl] is an [*InvalidTxError]. *)
Definition processNonEndorserTx (txEnv : Envelope) (txid : string) (txType : Z) (synchingState : bool)
    : outcome (string + option TxReadWriteSet) :=
  match customTxProcessors !! txType with
  | None => Ok (inr None)
  | Some processor =>
      sim ← po_NewTxSimulator txid;
      match po_GenerateSimulationResults processor txEnv sim synchingState with
      | (_, Some (InvalidTxError e)) => Ok (inl e)
      | (_, Some (OtherError e)) => Err e
      | (sim, None) => simRes ← po_GetTxSimulationResults sim; Ok (inr (sim_Pub simRes))
      end
  end.

Definition validateWriteset (txRWSet : TxRwSet) : outcome unit :=
  foldM (λ _ nsRwSet,
    foldM (λ _ kvwrite, validateKVFunc (kvw_Key kvwrite) (kvw_Value kvwrite)) () (kv_Writes (nrw_KvRwSet nsRwSet)))
    () (NsRwSets txRWSet).

(** The envelope and the channel header of an entry; [inl] is the error that
    the loop keeps for later. *)
Definition entry_header (envBytes : bytes) : outcome (string + Envelope * ChannelHeader) :=
  match GetEnvelopeFromBlock envBytes with
  | Ok env =>
      match unmarshal_Payload (env_Payload env) with
      | Some payload =>
          header ← deref (payload_Header payload);
          match unmarshal_ChannelHeader (hdr_ChannelHeader header) with
          | Some chdr => Ok (inr (env, chdr))
          | None => Ok (inl "error unmarshalling ChannelHeader")
          end
      | None => Ok (inl "error unmarshalling Payload")
      end
  | Err e => Ok (inl e)
  | Panic e => Panic e
  end.

(** What becomes of an entry that is not flagged invalid: it is rejected with
    a code, it has no effect on the state, or it is a transaction to validate. *)
Inductive entry_verdict :=
| Rejected (code : Z) (stat : TxStatInfo)
| NoEffect (stat : TxStatInfo)
| ToValidate (rwset : TxRwSet) (postOrder : bool) (stat : TxStatInfo).

Definition check_writeset (txRWSet : TxRwSet) (postOrder : bool) (stat : TxStatInfo) : outcome entry_verdict :=
  let stat := mkTxStatInfo (ts_TxIDFromChannelHeader stat) (ts_ValidationCode stat) (ts_TxType stat)
                (ts_ChaincodeID stat) (ts_ChaincodeEventData stat) (NumCollections (Some txRWSet)) in
  match validateWriteset txRWSet with
  | Ok _ => Ok (ToValidate txRWSet postOrder stat)
  | Err _ => Ok (Rejected TxValidationCode_INVALID_WRITESET stat)
  | Panic e => Panic e
  end.

Definition process_entry (envBytes : bytes) (env : Envelope) (chdr : ChannelHeader) (doMVCCValidation : bool)
    : outcome entry_verdict :=
  let txType := chdr_Type chdr in
  let stat := mkTxStatInfo (chdr_TxId chdr) 0 txType None "" 0 in
  if bool_decide (txType = HeaderType_ENDORSER_TRANSACTION) then
    match GetActionFromEnvelope envBytes with
    | Panic e => Panic e
    | Err _ => Ok (Rejected TxValidationCode_NIL_TXACTION stat)
    | Ok respPayload =>
        let stat := mkTxStatInfo (chdr_TxId chdr) 0 txType (cca_ChaincodeId respPayload) (cca_Events respPayload) 0 in
        match FromProtoBytes (cca_Results respPayload) with
        | Panic e => Panic e
        | Err _ => Ok (Rejected TxValidationCode_INVALID_OTHER_REASON stat)
        | Ok txRWSet => check_writeset txRWSet false stat
        end
    end
  else
    result ← processNonEndorserTx env (chdr_TxId chdr) txType (negb doMVCCValidation);
    match result with
    | inl _ => Ok (Rejected TxValidationCode_INVALID_OTHER_REASON stat)
    | inr None => Ok (NoEffect stat)
    | inr (Some rwsetProto) => txRWSet ← TxRwSetFromProtoMsg rwsetProto; check_writeset txRWSet true stat
    end.

Definition preprocess_tx (doMVCCValidation : bool) (st : ValidationFlags * list transaction * list TxStatInfo)
    (entry : nat * bytes) : outcome (ValidationFlags * list transaction * list TxStatInfo) :=
  let '(txsFilter, txs, stats) := st in
  let '(txIndex, envBytes) := entry in
  header ← entry_header envBytes;
  invalid ← IsInvalid txsFilter txIndex;
  let txid := match header with inr (_, chdr) => chdr_TxId chdr | inl _ => "" end in
  if invalid : bool then Ok (txsFilter, txs, stats ++ [mkTxStatInfo txid 0 (-1) None "" 0])
  else
    match header with
    | inl e => Err e
    | inr (env, chdr) =>
        verdict ← process_entry envBytes env chdr doMVCCValidation;
        match verdict with
        | Rejected code stat => txsFilter ← set_flag txsFilter txIndex code; Ok (txsFilter, txs, stats ++ [stat])
        | NoEffect stat => Ok (txsFilter, txs, stats ++ [stat])
        | ToValidate rwset postOrder stat =>
            Ok (txsFilter, txs ++ [mkTransaction' (Z.of_nat txIndex) txid rwset TxValidationCode_VALID postOrder],
                stats ++ [stat])
        end
    end.

(** The flags are a view of the block's metadata: setting one changes the
    block. *)
Definition set_filter (blk : Block) (txsFilter : ValidationFlags) : Block :=
  match blk_Metadata blk with
  | Some md => set_Metadata blk (<[BlockMetadataIndex_TRANSACTIONS_FILTER := bytes_of_flags txsFilter]> md)
  | None => blk
  end.

Definition get_filter (blk : Block) : outcome ValidationFlags :=
  md ← deref (blk_Metadata blk);
  b ← index md BlockMetadataIndex_TRANSACTIONS_FILTER;
  Ok (flags_of_bytes b).

Definition preprocessProtoBlock (blk : Block) (doMVCCValidation : bool) : outcome (Block * block * list TxStatInfo) :=
  num ← deref (blk_Number blk);
  txsFilter ← get_filter blk;
  data ← deref (blk_Data blk);
  '(txsFilter, txs, stats) ← foldM (preprocess_tx doMVCCValidation) (txsFilter, [], []) (imap pair data);
  Ok (set_filter blk txsFilter, mkBlock' num txs, stats).

(** ** Private data *)
Definition validatePvtdata (tx : transaction) (pvtdata : TxPvtData) : outcome unit :=
  match pvd_WriteSet pvtdata with
  | None => Ok ()
  | Some ws =>
      foldM (λ _ nsPvtdata, foldM (λ _ collPvtdata,
          let collPvtdataHash := ComputeHash (cpw_Rwset collPvtdata) in
          let hashInPubdata := retrieveHash tx (npw_Namespace nsPvtdata) (cpw_CollectionName collPvtdata) in
          if bool_decide (collPvtdataHash = default "" hashInPubdata) then Ok ()
          else Err ("hash of pvt data for collection [" +:+ npw_Namespace nsPvtdata +:+ ":"
                    +:+ cpw_CollectionName collPvtdata
                    +:+ "] does not match with the corresponding hash in the public data"))
        () (npw_CollectionPvtRwset nsPvtdata)) () (tpw_NsPvtRwset ws)
  end.

Definition addPvtRWSetToPvtUpdateBatch (pvtRWSet : TxPvtRwSet) (pvtUpdateBatch : UpdateMap) (ver : option Height)
    : outcome UpdateMap :=
  foldM (λ b ns, foldM (λ b coll, foldM (λ b kvwrite,
      if negb (IsKVWriteDelete kvwrite)
      then um_Put b (np_NameSpace ns) (cp_CollectionName coll) (kvw_Key kvwrite) (kvw_Value kvwrite) ver
      else Ok (um_Delete b (np_NameSpace ns) (cp_CollectionName coll) (kvw_Key kvwrite) ver))
    b (kv_Writes (cp_KvRwSet coll))) b (np_CollPvtRwSets ns)) pvtUpdateBatch (tp_NsPvtRwSet pvtRWSet).

Definition addEntriesToMetadataUpdates (metadataUpdates : gmap compositeKey bool) (pvtRWSet : TxPvtRwSet)
    : gmap compositeKey bool :=
  foldl (λ m ns, foldl (λ m coll, foldl (λ m metadataWrite,
      <[(np_NameSpace ns, cp_CollectionName coll, mw_Key metadataWrite) := true]> m)
    m (kv_MetadataWrites (cp_KvRwSet coll))) m (np_CollPvtRwSets ns)) metadataUpdates (tp_NsPvtRwSet pvtRWSet).

Definition retrieveLatestVal (ns coll key : string) (pvtUpdateBatch : UpdateMap) (db : DB)
    : outcome (option VersionedValue) :=
  match um_Get pvtUpdateBatch ns coll key with
  | Some val => Ok (Some val)
  | None => GetPrivateData db ns coll key
  end.

Definition increment_one (u : publicAndHashUpdates) (db : DB) (pvtUpdateBatch : UpdateMap) (collKey : compositeKey)
    : outcome UpdateMap :=
  let '(ns, coll, key) := collKey in
  let keyHash := ComputeStringHash key in
  match um_Get (hashUpdates u) ns coll keyHash with
  | None => Ok pvtUpdateBatch
  | Some hashedVal =>
      latestVal ← retrieveLatestVal ns coll key pvtUpdateBatch db;
      match latestVal with
      | None => Ok pvtUpdateBatch
      | Some latestVal =>
          if AreSame (vv_Version latestVal) (vv_Version hashedVal) then Ok pvtUpdateBatch
          else
            let latestValHash := ComputeHash (default "" (vv_Value latestVal)) in
            if bool_decide (latestValHash = default "" (vv_Value hashedVal))
            then um_Put pvtUpdateBatch ns coll key (vv_Value latestVal) (vv_Version hashedVal)
            else Ok pvtUpdateBatch
      end
  end.

Definition incrementPvtdataVersionIfNeeded (metadataUpdates : gmap compositeKey bool) (pvtUpdateBatch : UpdateMap)
    (u : publicAndHashUpdates) (db : DB) : outcome UpdateMap :=
  foldM (increment_one u db) pvtUpdateBatch (key_range ["incrementPvtdata"] 0 metadataUpdates).

Definition pvt_step (num : Z) (pvtdata : gmap Z TxPvtData) (st : UpdateMap * gmap compositeKey bool) (tx : transaction)
    : outcome (UpdateMap * gmap compositeKey bool) :=
  let '(pvtUpdates, metadataUpdates) := st in
  if negb (bool_decide (validationCode tx = TxValidationCode_VALID)) then Ok st
  else if negb (containsPvtWrites tx) then Ok st
  else
    match pvtdata !! u64 (indexInBlock tx) with
    | None => Ok st
    | Some txPvtdata =>
        _ ← validatePvtdata tx txPvtdata;
        ws ← deref (pvd_WriteSet txPvtdata);
        pvtRWSet ← TxPvtRwSetFromProtoMsg ws;
        pvtUpdates ← addPvtRWSetToPvtUpdateBatch pvtRWSet pvtUpdates (Some (mkHeight num (u64 (indexInBlock tx))));
        Ok (pvtUpdates, addEntriesToMetadataUpdates metadataUpdates pvtRWSet)
    end.

Definition validateAndPreparePvtBatch (blk : block) (db : DB) (u : publicAndHashUpdates) (pvtdata : gmap Z TxPvtData)
    : outcome UpdateMap :=
  '(pvtUpdates, metadataUpdates) ← foldM (pvt_step (b_num blk) pvtdata) (∅, ∅) (b_txs blk);
  incrementPvtdataVersionIfNeeded metadataUpdates pvtUpdates u db.

(** ** Postprocessing *)
Definition postprocessProtoBlock (blk : Block) (validatedBlock : block) : outcome Block :=
  txsFilter ← get_filter blk;
  txsFilter ← foldM (λ fl tx, set_flag fl (Z.to_nat (indexInBlock tx)) (validationCode tx)) txsFilter (b_txs validatedBlock);
  Ok (set_filter blk txsFilter).

Definition set_stat (stats : list TxStatInfo) (txsFilter : ValidationFlags) (i : nat) : outcome (list TxStatInfo) :=
  s ← index stats i;
  code ← Flag txsFilter i;
  Ok (<[i := mkTxStatInfo (ts_TxIDFromChannelHeader s) code (ts_TxType s) (ts_ChaincodeID s)
        (ts_ChaincodeEventData s) (ts_NumCollections s)]> stats).

(** The batch, the purges, the statistics, the block with its flags, and the
    database with what it loaded. *)
Definition ValidateAndPrepareBatch (db : DB) (blk : Block) (pvtdata : gmap Z TxPvtData) (doMVCCValidation : bool)
    : outcome (PvtUpdateBatch * list (compositeKey * option Height) * list TxStatInfo * Block * DB) :=
  '(blk, internalBlock, stats) ← preprocessProtoBlock blk doMVCCValidation;
  '(internalBlock, u, purgeUpdates, db) ← validateAndPrepareBatch hashFunc db internalBlock doMVCCValidation;
  pvtUpdates ← validateAndPreparePvtBatch internalBlock db u pvtdata;
  blk ← postprocessProtoBlock blk internalBlock;
  txsFilter ← get_filter blk;
  stats ← foldM (λ stats i, set_stat stats txsFilter i) stats (seq 0 (length txsFilter));
  Ok (mkPvtUpdateBatch (publicUpdates u) (hashUpdates u) pvtUpdates, purgeUpdates, stats, blk, db).
End preparer.

(** ** What preprocessing makes of the entries *)
Section preprocessing.
Context `{Codec} `{TxCodec} `{VersionedDB} `{Bookkeeper} `{Hashing} `{RwsetCodec} `{KeyOrder} `{PostOrder}.
Context (procs : gmap Z po_processor) (validateKVFunc : string → option bytes → outcome unit).

(** The verdict on an entry whose flag is [c]. *)
Definition judged (doMVCC : bool) (c : Z) (b : bytes) : option entry_verdict :=
  if bool_decide (c = TxValidationCode_VALID) then
    match entry_header b with
    | Ok (inr (env, chdr)) =>
        match process_entry procs validateKVFunc b env chdr doMVCC with Ok v => Some v | _ => None end
    | _ => None
    end
  else None.

Definition new_flag (doMVCC : bool) (c : Z) (b : bytes) : Z :=
  match judged doMVCC c b with Some (Rejected code _) => u8 code | _ => c end.

Definition entry_tx (doMVCC : bool) (fl : ValidationFlags) (entry : nat * bytes) : option transaction :=
  match fl !! entry.1 with
  | Some c =>
      match judged doMVCC c entry.2 with
      | Some (ToValidate rwset po stat) =>
          Some (mkTransaction' (Z.of_nat entry.1) (ts_TxIDFromChannelHeader stat) rwset TxValidationCode_VALID po)
      | _ => None
      end
  | None => None
  end.

Lemma check_writeset_same rw po stat rw' po' stat' :
  check_writeset validateKVFunc rw po stat = Ok (ToValidate rw' po' stat') →
  rw' = rw ∧ po' = po ∧ ts_TxIDFromChannelHeader stat' = ts_TxIDFromChannelHeader stat.
Proof.
  unfold check_writeset. destruct (validateWriteset _ _);
   [|done..]. by intros [= <- <- <-].
Qed.

Lemma process_entry_txid b env chdr mv rw po stat :
  process_entry procs validateKVFunc b env chdr mv = Ok (ToValidate rw po stat) →
  ts_TxIDFromChannelHeader stat = chdr_TxId chdr.
Proof.
  unfold process_entry. case_bool_decide.
  - destruct (GetActionFromEnvelope b); [|done..]. destruct (FromProtoBytes _); [|done..].
    intros E. apply check_writeset_same in E as (_ & _ & ->). done.
  - destruct (processNonEndorserTx _ _ _ _ _) as [[e|[p|]]|?|?]; cbn; try done.
    destruct (TxRwSetFromProtoMsg p); cbn; [|done..]. intros E. apply check_writeset_same in E as (_ & _ & ->). done.
Qed.

Lemma preprocess_tx_spec mv fl txs stats i b fl' txs' stats' :
  preprocess_tx procs validateKVFunc mv (fl, txs, stats) (i, b) = Ok (fl', txs', stats') →
  ∃ c, fl !! i = Some c ∧ fl' = <[i := new_flag mv c b]> fl ∧
    txs' = txs ++ option_list (entry_tx mv fl (i, b)) ∧ length stats' = S (length stats).
Proof.
  unfold preprocess_tx. destruct (entry_header b) as [h|?|?] eqn:Eh; cbn; [|done..].
  destruct (IsInvalid fl i) as [inv|?|?] eqn:Ei; cbn; [|done..].
  apply IsInvalid_Ok in Ei as (c & Hc & ->). intros E. exists c. split; [done|].
  unfold new_flag, entry_tx, judged. cbn [fst snd]. rewrite Hc, Eh. case_bool_decide as Hv; cbn [negb] in E.
  2:{ injection E as <- <- <-. rewrite list_insert_id by done. rewrite app_nil_r, length_app. cbn. split_and!; [done..|lia]. }
  destruct h as [e|[env chdr]]; [done|].
  destruct (process_entry _ _ _ _ _ _) as [v|?|?] eqn:Ep; cbn in E |- *; [|done..].
  destruct v as [code stat|stat|rw po stat]; cbn in E.
  - destruct (set_flag fl i code) as [fl1|?|?] eqn:Es; cbn in E; [|done..]. apply set_flag_Ok in Es as [_ ->].
    injection E as <- <- <-. rewrite app_nil_r, length_app. cbn. split_and!; [done..|lia].
  - injection E as <- <- <-. rewrite list_insert_id by done. rewrite app_nil_r, length_app. cbn. split_and!; [done..|lia].
  - apply process_entry_txid in Ep. injection E as <- <- <-. rewrite list_insert_id by done. rewrite length_app, Ep.
    cbn. split_and!; [done..|lia].
Qed.

#[local] Arguments preprocess_tx : simpl never.
#[local] Arguments entry_tx : simpl never.

Lemma preprocess_loop mv fl0 data k fl txs stats fl' txs' stats' :
  (∀ i, k ≤ i → fl !! i = fl0 !! i) →
  foldM (preprocess_tx procs validateKVFunc mv) (fl, txs, stats) (imap (λ j b, (k + j, b)) data) = Ok (fl', txs', stats') →
  length fl' = length fl ∧
  (∀ i, i < k → fl' !! i = fl !! i) ∧
  (∀ j b, data !! j = Some b → ∃ c, fl0 !! (k + j) = Some c ∧ fl' !! (k + j) = Some (new_flag mv c b)) ∧
  (∀ i, k + length data ≤ i → fl' !! i = fl0 !! i) ∧
  txs' = txs ++ omap (entry_tx mv fl0) (imap (λ j b, (k + j, b)) data).
Proof.
  revert k fl txs stats. induction data as [|b data IH]; intros k fl txs stats Hfl; cbn.
  { intros [= <- <- <-]. rewrite app_nil_r. split_and!; [done|done|done| |done]. intros i Hi. apply Hfl. lia. }
  destruct (preprocess_tx _ _ _ _ _) as [[[fl1 txs1] stats1]|?|?] eqn:E1; [|done..]. intros E.
  rewrite Nat.add_0_r in E1 |- *. apply preprocess_tx_spec in E1 as (c & Hc & -> & -> & _).
  assert (Eim : ∀ d : list bytes, imap ((λ j b0, (k + j, b0)) ∘ S) d = imap (λ j b0, (S k + j, b0)) d).
  { intros d. apply imap_ext. intros i x _. cbn. by rewrite Nat.add_succ_r. }
  rewrite Eim in E |- *. apply IH in E as (Hlen & Hlt & Hdata & Hge & ->).
  2:{ intros i Hi. rewrite list_lookup_insert_ne by lia. apply Hfl. lia. }
  rewrite length_insert in Hlen. assert (Hk : k < length fl) by (apply lookup_lt_is_Some; eauto). split_and!.
  - done.
  - intros i Hi. rewrite Hlt by lia. by rewrite list_lookup_insert_ne by lia.
  - intros [|j] b' Hb.
    + injection Hb as <-. rewrite Nat.add_0_r. exists c. rewrite <-Hfl by lia. split; [done|].
      rewrite Hlt by lia. by rewrite list_lookup_insert_eq.
    + rewrite Nat.add_succ_r. by apply (Hdata j).
  - intros i Hi. apply Hge. cbn in Hi. lia.
  - rewrite <-app_assoc. f_equal. unfold entry_tx at 1. cbn [fst snd]. rewrite Hc.
    unfold entry_tx at 2. cbn [fst snd]. rewrite <-Hfl by lia. rewrite Hc.
    by destruct (judged mv c b) as [[]|].
Qed.

Definition index_of (tx : transaction) : nat := Z.to_nat (indexInBlock tx).

Lemma entry_tx_index mv fl j b tx :
  entry_tx mv fl (j, b) = Some tx → index_of tx = j ∧ validationCode tx = TxValidationCode_VALID.
Proof.
  unfold entry_tx, index_of. cbn. destruct (fl !! j); [|done].
  destruct (judged mv _ b) as [[]|]; [done..| |done]. intros [= <-]. cbn. split; [lia|done].
Qed.

Lemma entry_txs_elem mv fl k data tx :
  tx ∈ omap (entry_tx mv fl) (imap (λ j b, (k + j, b)) data) ↔
  ∃ j b, data !! j = Some b ∧ entry_tx mv fl (k + j, b) = Some tx.
Proof.
  rewrite list_elem_of_omap. split.
  - intros ([i b] & Hin & E). apply elem_of_lookup_imap in Hin as (j & b' & [= -> ->] & Hj). eauto.
  - intros (j & b & Hj & E). exists (k + j, b). split; [|done]. apply elem_of_lookup_imap. eauto.
Qed.

Lemma entry_txs_NoDup mv fl k data : NoDup (index_of <$> omap (entry_tx mv fl) (imap (λ j b, (k + j, b)) data)).
Proof.
  revert k. induction data as [|b data IH]; intros k; [constructor|]. cbn [imap omap list_omap].
  assert (imap ((λ j b0, (k + j, b0)) ∘ S) data = imap (λ j b0, (S k + j, b0)) data) as ->.
  { apply imap_ext. intros i x _. cbn. by rewrite Nat.add_succ_r. }
  destruct (entry_tx mv fl (k + 0, b)) as [tx|] eqn:E; [|apply IH]. cbn [fmap list_fmap]. constructor; [|apply IH].
  apply entry_tx_index in E as [-> _]. intros Hin. apply list_elem_of_fmap in Hin as (tx' & Hix & Hin).
  apply entry_txs_elem in Hin as (j & b' & _ & E'). apply entry_tx_index in E' as [E' _]. lia.
Qed.
End preprocessing.

(** ** Flags of a block *)
Notation byte_flags := (Forall (λ z, 0 ≤ z < 256)%Z).

Lemma u8_range (z : Z) : (0 ≤ u8 z < 256)%Z.
Proof. unfold u8, wrap. apply Z.mod_pos_bound. lia. Qed.

Lemma set_flag_range fl i code fl' : byte_flags fl → set_flag fl i code = Ok fl' → byte_flags fl'.
Proof. intros Hfl E. apply set_flag_Ok in E as [_ ->]. apply Forall_insert; [done|apply u8_range]. Qed.

Lemma get_filter_range blk fl : get_filter blk = Ok fl → byte_flags fl.
Proof.
  unfold get_filter. destruct (blk_Metadata blk) as [md|]; cbn; [|done]. destruct (index md _); cbn; [|done..].
  intros [= <-]. apply flags_of_bytes_range.
Qed.

Lemma get_set_filter blk fl fl0 : get_filter blk = Ok fl0 → byte_flags fl → get_filter (set_filter blk fl) = Ok fl.
Proof.
  unfold get_filter, set_filter, index. destruct (blk_Metadata blk) as [md|]; cbn; [|done].
  destruct (md !! _) as [b|] eqn:E; cbn; [|done]. intros _ Hfl.
  rewrite list_lookup_insert_eq by by eapply lookup_lt_Some. cbn. by rewrite flags_roundtrip.
Qed.

Lemma post_loop fl txs fl' :
  NoDup (index_of <$> txs) →
  foldM (λ fl tx, set_flag fl (Z.to_nat (indexInBlock tx)) (validationCode tx)) fl txs = Ok fl' →
  length fl' = length fl ∧
  (∀ tx, tx ∈ txs → fl' !! index_of tx = Some (u8 (validationCode tx))) ∧
  (∀ i, i ∉ index_of <$> txs → fl' !! i = fl !! i).
Proof.
  revert fl. induction txs as [|tx txs IH]; intros fl; cbn.
  { intros _ [= <-]. split_and!; [done| |done]. intros tx Htx. by apply elem_of_nil in Htx. }
  intros Hnd E. apply NoDup_cons in Hnd as [Hni Hnd]. destruct (set_flag _ _ _) as [fl1|?|?] eqn:E1; [|done..].
  apply set_flag_Ok in E1 as [Hlt ->]. apply IH in E as (Hlen & Hin & Hout); [|done].
  rewrite length_insert in Hlen. split_and!; [done| |].
  - intros tx' [->|Htx]%elem_of_cons; [|by apply Hin]. rewrite Hout by done. by apply list_lookup_insert_eq.
  - intros i [Hne Hi]%not_elem_of_cons. rewrite Hout by done. by apply list_lookup_insert_ne.
Qed.

Section commit.
Context `{Codec} `{TxCodec} `{VersionedDB} `{Bookkeeper} `{Hashing} `{RwsetCodec} `{KeyOrder} `{MapOrder} `{PostOrder}.
Context (procs : gmap Z po_processor) (validateKVFunc : string → option bytes → outcome unit).
Context (hashFunc : bytes → outcome bytes).

(** The transactions of a block that are validated, in block order. *)
Definition block_txs (mv : bool) (fl : ValidationFlags) (data : list bytes) : list transaction :=
  omap (entry_tx procs validateKVFunc mv fl) (imap pair data).

Lemma preprocess_inv blk mv fl data blk' iblk stats :
  get_filter blk = Ok fl → blk_Data blk = Some data →
  preprocessProtoBlock procs validateKVFunc blk mv = Ok (blk', iblk, stats) →
  ∃ fl', get_filter blk' = Ok fl' ∧ length fl' = length fl ∧ b_txs iblk = block_txs mv fl data ∧
    (∀ i b, data !! i = Some b → ∃ c, fl !! i = Some c ∧ fl' !! i = Some (new_flag procs validateKVFunc mv c b)) ∧
    (∀ i, length data ≤ i → fl' !! i = fl !! i).
Proof.
  intros Hfl Hdata. unfold preprocessProtoBlock. destruct (blk_Number blk) as [num|]; cbn; [|done].
  rewrite Hfl, Hdata. cbn -[preprocess_tx].
  destruct (foldM _ _ _) as [[[fl1 txs1] stats1]|?|?] eqn:E; cbn; [|done..]. intros [= <- <- <-].
  assert (byte_flags fl1) as Hb.
  { refine (foldM_inv (λ st, byte_flags st.1.1) _ _ _ _ _ _ E); [|by eapply get_filter_range].
    intros [i b] [[f t] s] [[f' t'] s'] _ Hf Ep. apply preprocess_tx_spec in Ep as (c & Hc & -> & _ & _).
    apply Forall_insert; [done|]. unfold new_flag. cbn in Hf.
    destruct (judged _ _ _ _ _) as [[]|]; [apply u8_range|..]; by eapply (Forall_lookup_1 _ _ _ _ Hf). }
  apply (preprocess_loop procs validateKVFunc mv fl data 0) in E as (Hlen & _ & Hin & Hout & ->); [|done].
  exists fl1. split_and!; try done. by eapply get_set_filter.
Qed.

Lemma validate_keeps_num db iblk mv iblk' u purges db' :
  validateAndPrepareBatch hashFunc db iblk mv = Ok (iblk', u, purges, db') → b_num iblk' = b_num iblk.
Proof.
  unfold validateAndPrepareBatch. destruct (if IsBulkOptimizable then _ else _); cbn; [|done..].
  destruct (validate_txs _ _ _ _ _ _) as [[? []]|?|?]; cbn; [|done..]. by intros [= <- <- <- <-].
Qed.

(** The pieces of a successful preparation. *)
Lemma prepare_inv db blk pvtdata mv batch purges stats blk' db' :
  ValidateAndPrepareBatch procs validateKVFunc hashFunc db blk pvtdata mv = Ok (batch, purges, stats, blk', db') →
  ∃ blk1 iblk stats1 iblk' u pvt fl1 fl2,
    preprocessProtoBlock procs validateKVFunc blk mv = Ok (blk1, iblk, stats1) ∧
    validateAndPrepareBatch hashFunc db iblk mv = Ok (iblk', u, purges, db') ∧
    validateAndPreparePvtBatch iblk' db' u pvtdata = Ok pvt ∧
    batch = mkPvtUpdateBatch (publicUpdates u) (hashUpdates u) pvt ∧
    get_filter blk1 = Ok fl1 ∧
    foldM (λ fl tx, set_flag fl (Z.to_nat (indexInBlock tx)) (validationCode tx)) fl1 (b_txs iblk') = Ok fl2 ∧
    get_filter blk' = Ok fl2.
Proof.
  unfold ValidateAndPrepareBatch. intros E.
  destruct (preprocessProtoBlock _ _ _ _) as [[[blk1 iblk] stats1]|?|?] eqn:E1; cbn in E; [|done..].
  destruct (validateAndPrepareBatch _ _ _ _) as [[[[iblk' u] pu] d']|?|?] eqn:E2; cbn in E; [|done..].
  destruct (validateAndPreparePvtBatch _ _ _ _) as [pvt|?|?] eqn:E3; cbn in E; [|done..].
  unfold postprocessProtoBlock in E. destruct (get_filter blk1) as [fl1|?|?] eqn:Ef; cbn in E; [|done..].
  destruct (foldM _ fl1 _) as [fl2|?|?] eqn:E4; cbn in E; [|done..].
  assert (byte_flags fl2) as Hb.
  { eapply foldM_inv; [|by eapply get_filter_range|exact E4]. intros tx f f' _. apply set_flag_range. }
  rewrite (get_set_filter _ _ _ Ef Hb) in E. cbn in E. destruct (foldM _ stats1 _); cbn in E; [|done..].
  injection E as <- <- <- <- <-. do 8 eexists. split_and!; try done. by eapply get_set_filter.
Qed.

End commit.

(** ** Private data is what the block's hashes say *)
Lemma foldM_unit {A} (f : A → outcome unit) (l : list A) :
  foldM (λ _ x, f x) () l = Ok () ↔ ∀ x, x ∈ l → f x = Ok ().
Proof.
  induction l as [|x l IH]; cbn.
  - split; [|done]. intros _ x Hx. by apply elem_of_nil in Hx.
  - destruct (f x) as [[]|e|e] eqn:E.
    + rewrite IH. split; [intros Hl y [->|Hy]%elem_of_cons; [done|by apply Hl]|intros Hl y Hy; apply Hl; by right].
    + split; [done|]. intros Hl. rewrite <-E. apply Hl. by left.
    + split; [done|]. intros Hl. rewrite <-E. apply Hl. by left.
Qed.

Lemma mapO_elem {A B} (f : A → outcome B) l l' y : mapO f l = Ok l' → y ∈ l' → ∃ x, x ∈ l ∧ f x = Ok y.
Proof.
  revert l'. induction l as [|x l IH]; intros l'; cbn; [intros [= <-] Hy; by apply elem_of_nil in Hy|].
  destruct (f x) as [z|?|?] eqn:Ez; cbn; [|done..]. destruct (mapO f l) as [zs|?|?] eqn:Es; cbn; [|done..].
  intros [= <-] [->|Hy]%elem_of_cons; [exists x; split; [by left|done]|].
  destruct (IH zs eq_refl Hy) as (x' & ? & ?). exists x'. split; [by right|done].
Qed.

Section private.
Context `{Codec} `{VersionedDB} `{Bookkeeper} `{Hashing} `{RwsetCodec} `{KeyOrder}.

(** The private write of [key] in a transaction's private data, vouched for by
    the hash of its collection in the block. *)
Definition vouched (num : Z) (txs : list transaction) (pvtdata : gmap Z TxPvtData) (ns coll key : string)
    (vv : VersionedValue) : Prop :=
  ∃ tx d ws n c kv w, tx ∈ txs ∧ validationCode tx = TxValidationCode_VALID ∧
    pvtdata !! u64 (indexInBlock tx) = Some d ∧ pvd_WriteSet d = Some ws ∧
    n ∈ tpw_NsPvtRwset ws ∧ npw_Namespace n = ns ∧ c ∈ npw_CollectionPvtRwset n ∧ cpw_CollectionName c = coll ∧
    ComputeHash (cpw_Rwset c) = default "" (retrieveHash tx ns coll) ∧
    unmarshal_KVRWSet (cpw_Rwset c) = Some kv ∧ w ∈ kv_Writes kv ∧ kvw_Key w = key ∧
    vv_Value vv = (if IsKVWriteDelete w then None else kvw_Value w) ∧
    vv_Version vv = Some (mkHeight num (u64 (indexInBlock tx))).

(** A private value moved to the version of its hash. *)
Definition renewed (u : publicAndHashUpdates) (ns coll key : string) (vv : VersionedValue) : Prop :=
  ∃ hv, um_Get (hashUpdates u) ns coll (ComputeStringHash key) = Some hv ∧ vv_Version vv = vv_Version hv ∧
    ComputeHash (default "" (vv_Value vv)) = default "" (vv_Value hv).

Lemma validatePvtdata_Ok tx d ws :
  pvd_WriteSet d = Some ws →
  validatePvtdata tx d = Ok () ↔
  ∀ n c, n ∈ tpw_NsPvtRwset ws → c ∈ npw_CollectionPvtRwset n →
    ComputeHash (cpw_Rwset c) = default "" (retrieveHash tx (npw_Namespace n) (cpw_CollectionName c)).
Proof.
  intros Hws. unfold validatePvtdata. rewrite Hws.
  rewrite (foldM_unit (λ n, foldM (λ _ c, _) () (npw_CollectionPvtRwset n))). split.
  - intros Hall n c Hn Hc. specialize (Hall n Hn).
    apply (foldM_unit (λ c, if bool_decide _ then _ else _)) with (x := c) in Hall; [|done]. by case_bool_decide.
  - intros Hall n Hn. apply (foldM_unit (λ c, if bool_decide _ then _ else _)). intros c Hc.
    by rewrite bool_decide_true by auto.
Qed.

Lemma um_Put_Get b ns coll key value ver b' ns' coll' key' vv :
  um_Put b ns coll key value ver = Ok b' → um_Get b' ns' coll' key' = Some vv →
  um_Get b ns' coll' key' = Some vv ∨
  (ns', coll', key') = (ns, coll, key) ∧ vv_Value vv = value ∧ vv_Version vv = ver.
Proof.
  unfold um_Put, um_PutValAndMetadata, PutValAndMetadata. destruct value as [v|]; cbn -[Update]; [|done]. intros [= <-].
  rewrite um_Get_Update. case_decide as Hk; [|by left]. intros [= <-]. right. done.
Qed.

(** Every entry of a batch has the property [Q]. *)
Definition each (Q : string → string → string → VersionedValue → Prop) (b : UpdateMap) : Prop :=
  ∀ ns coll key vv, um_Get b ns coll key = Some vv → Q ns coll key vv.

Lemma addPvt_each Q rw b ver b' :
  each Q b → addPvtRWSetToPvtUpdateBatch rw b ver = Ok b' →
  (∀ n c w vv, n ∈ tp_NsPvtRwSet rw → c ∈ np_CollPvtRwSets n → w ∈ kv_Writes (cp_KvRwSet c) →
     vv_Value vv = (if IsKVWriteDelete w then None else kvw_Value w) → vv_Version vv = ver →
     Q (np_NameSpace n) (cp_CollectionName c) (kvw_Key w) vv) →
  each Q b'.
Proof.
  intros Hb E HQ. unfold addPvtRWSetToPvtUpdateBatch in E. refine (foldM_inv (each Q) _ _ _ _ _ Hb E).
  clear b b' Hb E. intros n b b' Hn Hb E. refine (foldM_inv (each Q) _ _ _ _ _ Hb E).
  clear b b' Hb E. intros c b b' Hc Hb E. refine (foldM_inv (each Q) _ _ _ _ _ Hb E).
  clear b b' Hb E. intros w b b' Hw Hb E ns coll key vv Hget.
  destruct (IsKVWriteDelete w) eqn:Ew; cbn in E.
  - injection E as <-. unfold um_Delete, Delete in Hget. rewrite um_Get_Update in Hget.
    case_decide as Hk; [|by apply Hb]. injection Hk as -> -> ->. injection Hget as <-.
    apply HQ; cbn; try done. by rewrite Ew.
  - destruct (um_Put_Get _ _ _ _ _ _ _ _ _ _ _ E Hget) as [Ho|([= -> -> ->] & Hv & Hver)]; [by apply Hb|].
    apply HQ; try done. by rewrite Ew.
Qed.

Lemma pvt_step_each num txs pvtdata st tx st' :
  tx ∈ txs → each (vouched num txs pvtdata) st.1 → pvt_step num pvtdata st tx = Ok st' →
  each (vouched num txs pvtdata) st'.1.
Proof.
  intros Htx Hst. unfold pvt_step. destruct st as [b meta].
  case_bool_decide as Hv; cbn [negb]; [|by intros [= <-]]. destruct (containsPvtWrites tx); cbn [negb]; [|by intros [= <-]].
  destruct (pvtdata !! u64 (indexInBlock tx)) as [d|] eqn:Ed; [|by intros [= <-]].
  destruct (validatePvtdata tx d) as [[]|?|?] eqn:Ev; cbn; [|done..].
  destruct (pvd_WriteSet d) as [ws|] eqn:Ews; cbn; [|done].
  pose proof (proj1 (validatePvtdata_Ok tx d ws Ews) Ev) as Hmatch.
  destruct (TxPvtRwSetFromProtoMsg ws) as [rw|?|?] eqn:Erw; cbn; [|done..].
  destruct (addPvtRWSetToPvtUpdateBatch _ _ _) as [b'|?|?] eqn:Eb; cbn; [|done..]. intros [= <-]. cbn.
  eapply addPvt_each; [exact Hst|exact Eb|]. intros n c w vv Hn Hc Hw Hval Hver.
  unfold TxPvtRwSetFromProtoMsg in Erw. destruct (mapO nsPvtRwSetFromProtoMsg _) as [nss|?|?] eqn:Em; cbn in Erw; [|done..].
  injection Erw as <-. destruct (mapO_elem _ _ _ _ Em Hn) as (np & Hnp & En). unfold nsPvtRwSetFromProtoMsg in En.
  destruct (mapO CollPvtRwSetFromProtoMsg _) as [cs|?|?] eqn:Emc; cbn in En; [|done..]. injection En as <-.
  destruct (mapO_elem _ _ _ _ Emc Hc) as (cp & Hcp & Ecp). unfold CollPvtRwSetFromProtoMsg in Ecp.
  destruct (unmarshal_KVRWSet _) as [kv|] eqn:Ekv; cbn in Ecp; [|done]. injection Ecp as <-. cbn in *.
  exists tx, d, ws, np, cp, kv, w. split_and!; try done. by apply Hmatch.
Qed.

Lemma increment_each (Q : string → string → string → VersionedValue → Prop) u db meta b b' :
  each Q b → (∀ ns coll key vv, renewed u ns coll key vv → Q ns coll key vv) →
  incrementPvtdataVersionIfNeeded meta b u db = Ok b' → each Q b'.
Proof.
  intros Hb HQ E. unfold incrementPvtdataVersionIfNeeded in E. refine (foldM_inv (each Q) _ _ _ _ _ Hb E).
  clear b b' Hb E. intros [[ns coll] key] b b' _ Hb. unfold increment_one.
  destruct (um_Get (hashUpdates u) ns coll _) as [hv|] eqn:Eh; [|by intros [= <-]].
  destruct (retrieveLatestVal _ _ _ _ _) as [[lv|]|?|?]; cbn [mbind outcome_bind]; [|by intros [= <-]|done..].
  destruct (AreSame _ _); [by intros [= <-]|]. case_bool_decide as Hh; [|by intros [= <-]].
  intros E ns' coll' key' vv Hget.
  destruct (um_Put_Get _ _ _ _ _ _ _ _ _ _ _ E Hget) as [Ho|([= -> -> ->] & Hv & Hver)]; [by apply Hb|].
  apply HQ. exists hv. by rewrite Hv.
Qed.
End private.

(** C32: the private state only receives verified data: every private update of
    a block is a write of a valid transaction, at that transaction's height,
    from a collection whose bytes hash to what the transaction's public part
    says, or a stored value moved to the version of its hash, which it matches;
    and private data that does not hash to what the block says fails the
    block. *)
Theorem pvt_updates_verified `{Codec} `{VersionedDB} `{Bookkeeper} `{Hashing} `{RwsetCodec} `{KeyOrder}
    (blk : block) (db : DB) (u : publicAndHashUpdates) (pvtdata : gmap Z TxPvtData) (pvt : gmap string UpdateBatch) :
  validateAndPreparePvtBatch blk db u pvtdata = Ok pvt →
  (∀ ns coll key vv, um_Get pvt ns coll key = Some vv →
     vouched (b_num blk) (b_txs blk) pvtdata ns coll key vv ∨ renewed u ns coll key vv) ∧
  (∀ tx d ws n c, tx ∈ b_txs blk → validationCode tx = TxValidationCode_VALID → containsPvtWrites tx = true →
     pvtdata !! u64 (indexInBlock tx) = Some d → pvd_WriteSet d = Some ws →
     n ∈ tpw_NsPvtRwset ws → c ∈ npw_CollectionPvtRwset n →
     ComputeHash (cpw_Rwset c) = default "" (retrieveHash tx (npw_Namespace n) (cpw_CollectionName c))).
Proof.
  unfold validateAndPreparePvtBatch. intros E.
  destruct (foldM (pvt_step _ _) _ _) as [[b meta]|?|?] eqn:Ef; cbn in E; [|done..]. split.
  - assert (each (vouched (b_num blk) (b_txs blk) pvtdata) b) as Hb.
    { refine (foldM_inv (λ st, each (vouched (b_num blk) (b_txs blk) pvtdata) st.1) _ _ _ _ _ _ Ef).
      - intros tx st st' Htx. by apply pvt_step_each.
      - intros ns coll key vv Hget. unfold um_Get in Hget. cbn in Hget. by rewrite lookup_empty in Hget. }
    eapply (increment_each (λ ns coll key vv, vouched _ _ _ ns coll key vv ∨ renewed u ns coll key vv)); [|by right|exact E].
    intros ns coll key vv Hget. left. by apply Hb.
  - intros tx d ws n c Htx Hv Hp Hd Hws Hn Hc. clear E. revert Ef. generalize (∅ : gmap string UpdateBatch, ∅ : gmap compositeKey bool).
    induction (b_txs blk) as [|tx' txs IH]; [by apply elem_of_nil in Htx|]. intros st. cbn -[pvt_step].
    destruct (pvt_step _ _ st tx') as [st1|?|?] eqn:E1; [|done..].
    apply elem_of_cons in Htx as [<-|Htx]; [|by apply IH]. intros _. unfold pvt_step in E1. destruct st as [b0 m0].
    rewrite bool_decide_true, Hp, Hd in E1 by done. cbn [negb] in E1.
    destruct (validatePvtdata tx d) as [[]|?|?] eqn:Ev; cbn in E1; [|done..].
    by apply (proj1 (validatePvtdata_Ok tx d ws Hws) Ev).
Qed.

(** ** A concrete block: a transaction that commits, one with a stale read,
    one that does not decode and one already flagged *)
Definition entry_decoder : Codec := {|
  unmarshal_Envelope b := Some (mkEnvelope b "");
  unmarshal_Payload b := Some (mkPayload (Some (mkHeader b "")) b);
  unmarshal_ChannelHeader b := Some (mkChannelHeader 3 "ch" ("tx" +:+ b) 0 "" 0 None None);
  unmarshal_Transaction b := Some (mkTransaction [mkTransactionAction "" b]);
  unmarshal_ChaincodeAction b := Some (mkChaincodeAction (Some b) "" None None);
  unmarshal_TxReadWriteSet b := Some (mkTxReadWriteSet [mkNsReadWriteSet "cc" b []]);
  unmarshal_KVRWSet b :=
    if bool_decide (b = "A") then nrw_KvRwSet <$> head (NsRwSets toy_writes)
    else if bool_decide (b = "B") then nrw_KvRwSet <$> head (NsRwSets toy_stale)
    else if bool_decide (b = "P") then Some (mkKVRWSet [] [] [mkKVWrite "secret" false (Some "7")] [])
    else None;
  unmarshal_HashedRWSet _ := None
|}.
Definition action_decoder : TxCodec := {|
  marshal_ChaincodeAction _ := Err "unused"; marshal_ProposalResponsePayload _ := Err "unused";
  unmarshal_ProposalResponsePayload b := Some (mkProposalResponsePayload "" (Some b));
  marshal_ChaincodeActionPayload _ := Err "unused";
  unmarshal_ChaincodeActionPayload b :=
    Some (mkChaincodeActionPayload "" (Some (mkChaincodeEndorsedAction (Some b) [])));
  marshal_Transaction _ := Err "unused"; marshal_Payload _ := Err "unused"; marshal_Header _ := Err "unused";
  marshal_ChannelHeader _ := Err "unused"; marshal_SignatureHeader _ := Err "unused";
  marshal_ChaincodeHeaderExtension _ := Err "unused"; marshal_ChaincodeInvocationSpec _ := Err "unused";
  marshal_Proposal _ := Err "unused"; TimestampProto t := Ok t
|}.
Definition no_post_order : PostOrder := {|
  po_sim := unit; po_processor := unit; po_NewTxSimulator _ := Ok ();
  po_GenerateSimulationResults _ _ _ _ := ((), None);
  po_GetTxSimulationResults _ := Ok (mkTxSimulationResults None None ∅ ∅)
|}.

#[local] Existing Instance entry_decoder.
#[local] Existing Instance action_decoder.
#[local] Existing Instance no_post_order.
#[local] Existing Instance mem_db.
#[local] Existing Instance mem_bk.
#[local] Existing Instance toy_hashing.
#[local] Existing Instance toy_rw_codec.
#[local] Existing Instance list_key_order.

Definition toy_flags : ValidationFlags := [0; 0; 0; TxValidationCode_ENDORSEMENT_POLICY_FAILURE]%Z.
Definition toy_data : list bytes := ["A"; "B"; "C"; "D"].
Definition toy_blk : Block := mkBlock (Some 1%Z) (Some toy_data) (Some [""; ""; bytes_of_flags toy_flags]).
Definition any_kv (_ : string) (_ : option bytes) : outcome unit := Ok ().

Definition toy_prepared : PvtUpdateBatch * list (compositeKey * option Height) * list TxStatInfo * Block * DB :=
  match ValidateAndPrepareBatch ∅ any_kv Ok toy_db toy_blk ∅ true with
  | Ok r => r
  | _ => (toy_block1, [], [], toy_blk, toy_db)
  end.
Definition toy_commit : DB * outcome () :=
  ApplyPrivacyAwareUpdates toy_db toy_prepared.1.1.1.1 (Some (mkHeight 1 3)).

Lemma toy_txs_wf : Forall wf_tx (block_txs ∅ any_kv true toy_flags toy_data).
Proof.
  change (Forall wf_tx [mkTransaction' 0 "txA" toy_writes TxValidationCode_VALID false;
                        mkTransaction' 1 "txB" toy_stale TxValidationCode_VALID false]).
  apply Forall_cons. split; [split; [exact toy_writes_wf|]|apply Forall_singleton; exact (conj toy_stale_wf toy_stale_named)].
  intros n c Hn Hc. cbn in Hn. apply list_elem_of_singleton in Hn as ->. by apply elem_of_nil in Hc.
Qed.

Lemma toy_no_pvt ns : is_Some (PvtUpdates toy_prepared.1.1.1.1 !! ns) → plain_ns ns.
Proof.
  assert (PvtUpdates toy_prepared.1.1.1.1 = ∅) as E by (vm_compute; reflexivity).
  revert E. generalize (PvtUpdates toy_prepared.1.1.1.1). intros p ->. rewrite lookup_empty. by intros [? [=]].
Qed.


(** One private write, its collection hashed in the public part. *)
Definition toy_pvt_tx : transaction :=
  mkTransaction' 0 "t" (mkTxRwSet [mkNsRwSet "cc" (mkKVRWSet [] [] [] [])
    [mkCollHashedRwSet "coll" (mkHashedRWSet [] [] []) (Some "#P")]]) TxValidationCode_VALID false.
Definition toy_pvtdata : gmap Z TxPvtData :=
  {[0%Z := mkTxPvtData 0 (Some (mkTxPvtReadWriteSet [mkNsPvtReadWriteSet "cc" [mkCollectionPvtReadWriteSet "coll" "P"]]))]}.

Lemma pvt_updates_verified_witness :
  ∃ pvt vv, validateAndPreparePvtBatch (mkBlock' 1 [toy_pvt_tx]) toy_db newPubAndHashUpdates toy_pvtdata = Ok pvt ∧
    um_Get pvt "cc" "coll" "secret" = Some vv ∧
    (vouched 1 [toy_pvt_tx] toy_pvtdata "cc" "coll" "secret" vv ∨ renewed newPubAndHashUpdates "cc" "coll" "secret" vv).
Proof.
  do 2 eexists. split; [reflexivity|]. split; [reflexivity|].
  exact (proj1 (pvt_updates_verified (mkBlock' 1 [toy_pvt_tx]) toy_db newPubAndHashUpdates toy_pvtdata _ eq_refl)
    "cc" "coll" "secret" _ eq_refl).
Defined.
