(* ===== verification/RwSetBuilder.v ===== *)
(** * RwSetBuilder: the read-write set of a simulation
      (core/ledger/kvledger/txmgmt/rwsetutil/rwset_builder.go, core/ledger/util/util.go)

    A simulation records its reads, writes, metadata writes and range queries
    in maps; the read-write set lists them sorted by key, so it does not depend
    on the order of the maps. The private writes are hashed into the public
    part, collection by collection. *)

From S2P Require Import Prelude GoText Utf8 Base64 Protos TxFlags Proposal ProtoUtil Height StateDb PvtState RwSetUtil.
From S2P Require Import RangeQuery TxOps Mvcc BatchPreparer.

(** ** util.go *)
Definition GetSortedKeys {V} (m : gmap string V) : list string := sorted_keys_of m.

Definition GetValuesBySortedKeys {V} (m : gmap string V) : list V := omap (λ k, m !! k) (sorted_keys_of m).

(** ** The builders *)
Record collHashRwBuilder := mkCollHashRwBuilder {
  hb_collName : string;
  hb_readMap : gmap string KVReadHash;
  hb_writeMap : gmap string KVWriteHash;
  hb_metadataWriteMap : gmap string KVMetadataWriteHash;
  hb_pvtDataHash : option bytes
}.

Notation rangeQueryKey := (string * string * bool)%type.

Record nsPubRwBuilder := mkNsPubRwBuilder {
  nb_namespace : string;
  nb_readMap : gmap string KVRead;
  nb_writeMap : gmap string KVWrite;
  nb_metadataWriteMap : gmap string KVMetadataWrite;
  nb_rangeQueriesMap : gmap rangeQueryKey RangeQueryInfo;
  nb_rangeQueriesKeys : list rangeQueryKey;
  nb_collHashRwBuilder : gmap string collHashRwBuilder
}.

Record collPvtRwBuilder := mkCollPvtRwBuilder {
  cb_collectionName : string;
  cb_writeMap : gmap string KVWrite;
  cb_metadataWriteMap : gmap string KVMetadataWrite
}.
Record nsPvtRwBuilder := mkNsPvtRwBuilder {
  vb_namespace : string;
  vb_collPvtRwBuilders : gmap string collPvtRwBuilder
}.
Record RWSetBuilder := mkRWSetBuilder {
  pubRwBuilderMap : gmap string nsPubRwBuilder;
  pvtRwBuilderMap : gmap string nsPvtRwBuilder
}.

Definition NewRWSetBuilder : RWSetBuilder := mkRWSetBuilder ∅ ∅.
Definition newNsPubRwBuilder (namespace : string) : nsPubRwBuilder := mkNsPubRwBuilder namespace ∅ ∅ ∅ ∅ [] ∅.
Definition newNsPvtRwBuilder (namespace : string) : nsPvtRwBuilder := mkNsPvtRwBuilder namespace ∅.
Definition newCollHashRwBuilder (collName : string) : collHashRwBuilder := mkCollHashRwBuilder collName ∅ ∅ ∅ None.
Definition newCollPvtRwBuilder (collName : string) : collPvtRwBuilder := mkCollPvtRwBuilder collName ∅ ∅.

(** A builder is created on first use and changed in place. *)
Definition on_ns (b : RWSetBuilder) (ns : string) (f : nsPubRwBuilder → nsPubRwBuilder) : RWSetBuilder :=
  mkRWSetBuilder (<[ns := f (default (newNsPubRwBuilder ns) (pubRwBuilderMap b !! ns))]> (pubRwBuilderMap b))
    (pvtRwBuilderMap b).

Definition set_colls (n : nsPubRwBuilder) (m : gmap string collHashRwBuilder) : nsPubRwBuilder :=
  mkNsPubRwBuilder (nb_namespace n) (nb_readMap n) (nb_writeMap n) (nb_metadataWriteMap n) (nb_rangeQueriesMap n)
    (nb_rangeQueriesKeys n) m.

Definition on_coll (b : RWSetBuilder) (ns coll : string) (f : collHashRwBuilder → collHashRwBuilder) : RWSetBuilder :=
  on_ns b ns (λ n, set_colls n
    (<[coll := f (default (newCollHashRwBuilder coll) (nb_collHashRwBuilder n !! coll))]> (nb_collHashRwBuilder n))).

Definition on_pvt (b : RWSetBuilder) (ns coll : string) (f : collPvtRwBuilder → collPvtRwBuilder) : RWSetBuilder :=
  let n := default (newNsPvtRwBuilder ns) (pvtRwBuilderMap b !! ns) in
  mkRWSetBuilder (pubRwBuilderMap b)
    (<[ns := mkNsPvtRwBuilder (vb_namespace n)
        (<[coll := f (default (newCollPvtRwBuilder coll) (vb_collPvtRwBuilders n !! coll))]> (vb_collPvtRwBuilders n))]>
      (pvtRwBuilderMap b)).

Section builder.
Context `{Hashing}.

(** ** Metadata *)
Definition metadata_entries (m : gmap string bytes) : list KVMetadataEntry :=
  map (λ name, mkKVMetadataEntry name (default "" (m !! name))) (GetSortedKeys m).
Definition mapToMetadataWrite (key : string) (m : gmap string bytes) : KVMetadataWrite :=
  mkKVMetadataWrite key (metadata_entries m).
Definition mapToMetadataWriteHash (key : string) (m : gmap string bytes) : KVMetadataWriteHash :=
  mkKVMetadataWriteHash (ComputeStringHash key) (metadata_entries m).

(** ** Recording *)
Definition AddToReadSet (b : RWSetBuilder) (ns key : string) (version : option Height) : RWSetBuilder :=
  on_ns b ns (λ n, mkNsPubRwBuilder (nb_namespace n) (<[key := NewKVRead key version]> (nb_readMap n)) (nb_writeMap n)
    (nb_metadataWriteMap n) (nb_rangeQueriesMap n) (nb_rangeQueriesKeys n) (nb_collHashRwBuilder n)).

Definition AddToWriteSet (b : RWSetBuilder) (ns key : string) (value : option bytes) : RWSetBuilder :=
  on_ns b ns (λ n, mkNsPubRwBuilder (nb_namespace n) (nb_readMap n) (<[key := newKVWrite key value]> (nb_writeMap n))
    (nb_metadataWriteMap n) (nb_rangeQueriesMap n) (nb_rangeQueriesKeys n) (nb_collHashRwBuilder n)).

Definition AddToMetadataWriteSet (b : RWSetBuilder) (ns key : string) (metadata : gmap string bytes) : RWSetBuilder :=
  on_ns b ns (λ n, mkNsPubRwBuilder (nb_namespace n) (nb_readMap n) (nb_writeMap n)
    (<[key := mapToMetadataWrite key metadata]> (nb_metadataWriteMap n)) (nb_rangeQueriesMap n) (nb_rangeQueriesKeys n)
    (nb_collHashRwBuilder n)).

(** The first query of a range is the one that counts. *)
Definition AddToRangeQuerySet (b : RWSetBuilder) (ns : string) (rqi : RangeQueryInfo) : RWSetBuilder :=
  let key := (rqi_StartKey rqi, rqi_EndKey rqi, rqi_ItrExhausted rqi) in
  on_ns b ns (λ n,
    match nb_rangeQueriesMap n !! key with
    | Some _ => n
    | None => mkNsPubRwBuilder (nb_namespace n) (nb_readMap n) (nb_writeMap n) (nb_metadataWriteMap n)
                (<[key := rqi]> (nb_rangeQueriesMap n)) (nb_rangeQueriesKeys n ++ [key]) (nb_collHashRwBuilder n)
    end).

Definition AddToHashedReadSet (b : RWSetBuilder) (ns coll key : string) (version : option Height) : RWSetBuilder :=
  on_coll b ns coll (λ c, mkCollHashRwBuilder (hb_collName c) (<[key := newPvtKVReadHash key version]> (hb_readMap c))
    (hb_writeMap c) (hb_metadataWriteMap c) (hb_pvtDataHash c)).

Definition put_pvt (key : string) (w : KVWrite) (c : collPvtRwBuilder) : collPvtRwBuilder :=
  mkCollPvtRwBuilder (cb_collectionName c) (<[key := w]> (cb_writeMap c)) (cb_metadataWriteMap c).
Definition put_hash (key : string) (w : KVWriteHash) (c : collHashRwBuilder) : collHashRwBuilder :=
  mkCollHashRwBuilder (hb_collName c) (hb_readMap c) (<[key := w]> (hb_writeMap c)) (hb_metadataWriteMap c)
    (hb_pvtDataHash c).

Definition AddToPvtAndHashedWriteSet (b : RWSetBuilder) (ns coll key : string) (value : option bytes) : RWSetBuilder :=
  let '(kvWrite, kvWriteHash) := newPvtKVWriteAndHash key value in
  on_coll (on_pvt b ns coll (put_pvt key kvWrite)) ns coll (put_hash key kvWriteHash).

Definition AddToPvtAndHashedWriteSetForPurge (b : RWSetBuilder) (ns coll key : string) : RWSetBuilder :=
  let '(kvWrite, w) := newPvtKVWriteAndHash key None in
  let kvWriteHash := mkKVWriteHash (wh_KeyHash w) (wh_IsDelete w) (wh_ValueHash w) true in
  on_coll (on_pvt b ns coll (put_pvt key kvWrite)) ns coll (put_hash key kvWriteHash).

Definition AddToHashedMetadataWriteSet (b : RWSetBuilder) (ns coll key : string) (metadata : gmap string bytes)
    : RWSetBuilder :=
  on_coll
    (on_pvt b ns coll (λ c, mkCollPvtRwBuilder (cb_collectionName c) (cb_writeMap c)
      (<[key := mkKVMetadataWrite key []]> (cb_metadataWriteMap c))))
    ns coll (λ c, mkCollHashRwBuilder (hb_collName c) (hb_readMap c) (hb_writeMap c)
      (<[key := mapToMetadataWriteHash key metadata]> (hb_metadataWriteMap c)) (hb_pvtDataHash c)).

(** ** Building *)
Definition coll_build (c : collHashRwBuilder) : CollHashedRwSet :=
  mkCollHashedRwSet (hb_collName c)
    (mkHashedRWSet (GetValuesBySortedKeys (hb_readMap c)) (GetValuesBySortedKeys (hb_writeMap c))
       (GetValuesBySortedKeys (hb_metadataWriteMap c)))
    (hb_pvtDataHash c).

Definition ns_build (b : nsPubRwBuilder) : NsRwSet :=
  mkNsRwSet (nb_namespace b)
    (mkKVRWSet (GetValuesBySortedKeys (nb_readMap b))
       (omap (λ key, nb_rangeQueriesMap b !! key) (nb_rangeQueriesKeys b))
       (GetValuesBySortedKeys (nb_writeMap b)) (GetValuesBySortedKeys (nb_metadataWriteMap b)))
    (coll_build <$> GetValuesBySortedKeys (nb_collHashRwBuilder b)).

Definition collPvt_build (c : collPvtRwBuilder) : CollPvtRwSet :=
  mkCollPvtRwSet (cb_collectionName c)
    (mkKVRWSet [] [] (GetValuesBySortedKeys (cb_writeMap c)) (GetValuesBySortedKeys (cb_metadataWriteMap c))).

Definition nsPvt_build (b : nsPvtRwBuilder) : NsPvtRwSet :=
  mkNsPvtRwSet (vb_namespace b) (collPvt_build <$> GetValuesBySortedKeys (vb_collPvtRwBuilders b)).

Definition GetTxReadWriteSet (b : RWSetBuilder) : TxRwSet :=
  mkTxRwSet (ns_build <$> GetValuesBySortedKeys (pubRwBuilderMap b)).

Definition getTxPvtReadWriteSet (b : RWSetBuilder) : option TxPvtRwSet :=
  match nsPvt_build <$> GetValuesBySortedKeys (pvtRwBuilderMap b) with
  | [] => None
  | nss => Some (mkTxPvtRwSet nss)
  end.

Definition setPvtCollectionHash (b : RWSetBuilder) (ns coll : string) (pvtDataProto : bytes) : RWSetBuilder :=
  on_coll b ns coll (λ c, mkCollHashRwBuilder (hb_collName c) (hb_readMap c) (hb_writeMap c) (hb_metadataWriteMap c)
    (Some (ComputeHash pvtDataProto))).

Context `{RwsetCodec}.

Definition set_hashes (b : RWSetBuilder) (p : TxPvtReadWriteSet) : RWSetBuilder :=
  foldl (λ b ns, foldl (λ b coll,
      setPvtCollectionHash b (npw_Namespace ns) (cpw_CollectionName coll) (cpw_Rwset coll))
    b (npw_CollectionPvtRwset ns)) b (tpw_NsPvtRwset p).

(** The results; the collection hashes stay in the builder. *)
Definition builder_GetTxSimulationResults (b : RWSetBuilder) : outcome TxSimulationResults * RWSetBuilder :=
  match getTxPvtReadWriteSet b with
  | None => (pub ← tx_toProtoMsg (GetTxReadWriteSet b); Ok (mkTxSimulationResults (Some pub) None ∅ ∅), b)
  | Some pvtData =>
      match txPvt_ToProtoMsg pvtData with
      | Ok pvtDataProto =>
          let b := set_hashes b pvtDataProto in
          (pub ← tx_toProtoMsg (GetTxReadWriteSet b);
           Ok (mkTxSimulationResults (Some pub) (Some pvtDataProto) ∅ ∅), b)
      | Err e => (Err e, b)
      | Panic e => (Panic e, b)
      end
  end.
End builder.

(** ** Lists by sorted key *)
Lemma values_elem {V} (m : gmap string V) v : v ∈ GetValuesBySortedKeys m ↔ ∃ k, m !! k = Some v.
Proof.
  unfold GetValuesBySortedKeys. rewrite list_elem_of_omap. split; [intros (k & _ & ?); eauto|].
  intros [k Hk]. exists k. split; [|done]. apply sorted_keys_of_elem. eauto.
Qed.

Lemma sorted_keys_NoDup {V} (m : gmap string V) : NoDup (sorted_keys_of m).
Proof. unfold sorted_keys_of. rewrite merge_sort_Permutation. eapply range_order_NoDup, keys_of_order. Qed.

Lemma values_fmap {V A} (m : gmap string V) (f : V → A) (g : string → A) :
  (∀ k v, m !! k = Some v → f v = g k) → f <$> GetValuesBySortedKeys m = g <$> sorted_keys_of m.
Proof.
  intros Hf. unfold GetValuesBySortedKeys. assert (∀ k, k ∈ sorted_keys_of m → is_Some (m !! k)) as Hin.
  { intros k. apply sorted_keys_of_elem. }
  induction (sorted_keys_of m) as [|k ks IH]; [done|]. cbn. destruct (Hin k) as [v Hv]; [by left|]. rewrite Hv. cbn.
  f_equal; [by apply Hf|]. apply IH. intros k' Hk'. apply Hin. by right.
Qed.

(** Groups told apart by a key have no duplicates. *)
Lemma concat_NoDup {A B K} (f : A → list B) (key : A → K) (kof : B → K) (l : list A) :
  NoDup (key <$> l) → (∀ x, x ∈ l → NoDup (f x)) → (∀ x y, x ∈ l → y ∈ f x → kof y = key x) →
  NoDup (concat (map f l)).
Proof.
  induction l as [|x l IH]; cbn; intros Hk Hf Hof; [constructor|]. apply NoDup_cons in Hk as [Hni Hk].
  apply NoDup_app. split_and!.
  - apply Hf. by left.
  - intros y Hy Hin. apply Hni. rewrite <-(Hof x y) by (by left || done).
    apply list_elem_of_In, in_concat in Hin as (ys & Hys & Hin).
    apply in_map_iff in Hys as (x' & <- & Hx'). rewrite (Hof x' y); [|right; by apply list_elem_of_In|by apply list_elem_of_In].
    apply list_elem_of_fmap. exists x'. split; [done|by apply list_elem_of_In].
  - apply IH; [done|intros; apply Hf; by right|intros; apply Hof; [by right|done]].
Qed.

(** ** Operations of a simulation *)
Inductive build_op :=
| ORead (ns key : string) (version : option Height)
| OWrite (ns key : string) (value : option bytes)
| OMetadata (ns key : string) (metadata : gmap string bytes)
| ORange (ns : string) (rqi : RangeQueryInfo)
| OHashedRead (ns coll key : string) (version : option Height)
| OPvtWrite (ns coll key : string) (value : option bytes)
| OPurge (ns coll key : string)
| OHashedMetadata (ns coll key : string) (metadata : gmap string bytes).

Section runs.
Context `{Hashing}.

Definition run_op (b : RWSetBuilder) (op : build_op) : RWSetBuilder :=
  match op with
  | ORead ns key version => AddToReadSet b ns key version
  | OWrite ns key value => AddToWriteSet b ns key value
  | OMetadata ns key metadata => AddToMetadataWriteSet b ns key metadata
  | ORange ns rqi => AddToRangeQuerySet b ns rqi
  | OHashedRead ns coll key version => AddToHashedReadSet b ns coll key version
  | OPvtWrite ns coll key value => AddToPvtAndHashedWriteSet b ns coll key value
  | OPurge ns coll key => AddToPvtAndHashedWriteSetForPurge b ns coll key
  | OHashedMetadata ns coll key metadata => AddToHashedMetadataWriteSet b ns coll key metadata
  end.

Definition run_ops (ops : list build_op) : RWSetBuilder := foldl run_op NewRWSetBuilder ops.

(** What the read-write set of a run relies on: chaincodes have plain names,
    collections have names, and the private keys [K] it touches do not collide
    under the hash. *)
Definition op_ok (K : list string) (op : build_op) : Prop :=
  match op with
  | ORead ns _ _ | OWrite ns _ _ | OMetadata ns _ _ | ORange ns _ => plain_ns ns
  | OHashedRead ns coll _ _ => plain_ns ns ∧ coll ≠ ""
  | OPvtWrite ns coll key _ | OPurge ns coll key | OHashedMetadata ns coll key _ => plain_ns ns ∧ coll ≠ "" ∧ key ∈ K
  end.

Definition no_collision (K : list string) : Prop :=
  ∀ k k', k ∈ K → k' ∈ K → ComputeStringHash k = ComputeStringHash k' → k = k'.

(** ** Entries are stored under their own key *)
Record keyed_coll (K : list string) (coll : string) (c : collHashRwBuilder) : Prop := {
  kc_name : hb_collName c = coll;
  kc_named : coll ≠ "";
  kc_read k r : hb_readMap c !! k = Some r → rh_KeyHash r = ComputeStringHash k;
  kc_write k w : hb_writeMap c !! k = Some w → wh_KeyHash w = ComputeStringHash k ∧ k ∈ K;
  kc_meta k w : hb_metadataWriteMap c !! k = Some w → mwh_KeyHash w = ComputeStringHash k ∧ k ∈ K
}.

Record keyed_ns (K : list string) (ns : string) (n : nsPubRwBuilder) : Prop := {
  kn_name : nb_namespace n = ns;
  kn_plain : plain_ns ns;
  kn_read k r : nb_readMap n !! k = Some r → kvr_Key r = k;
  kn_write k w : nb_writeMap n !! k = Some w → kvw_Key w = k;
  kn_meta k w : nb_metadataWriteMap n !! k = Some w → mw_Key w = k;
  kn_colls coll c : nb_collHashRwBuilder n !! coll = Some c → keyed_coll K coll c
}.

Definition keyed (K : list string) (b : RWSetBuilder) : Prop :=
  ∀ ns n, pubRwBuilderMap b !! ns = Some n → keyed_ns K ns n.

Lemma keyed_coll_new K coll : coll ≠ "" → keyed_coll K coll (newCollHashRwBuilder coll).
Proof. intros ?. split; [done|done|..]; cbn; intros k v Hv; by rewrite lookup_empty in Hv. Qed.

Lemma keyed_ns_new K ns : plain_ns ns → keyed_ns K ns (newNsPubRwBuilder ns).
Proof. intros ?. split; [done|done|..]; cbn; intros k v Hv; by rewrite lookup_empty in Hv. Qed.

Lemma keyed_on_ns K b ns f :
  plain_ns ns → (∀ n, keyed_ns K ns n → keyed_ns K ns (f n)) → keyed K b → keyed K (on_ns b ns f).
Proof.
  intros Hns Hf Hb ns' n. cbn. rewrite lookup_insert_Some. intros [[<- <-]|[_ Hn]]; [|by apply Hb]. apply Hf.
  destruct (pubRwBuilderMap b !! ns) as [n'|] eqn:E; cbn; [by apply Hb|by apply keyed_ns_new].
Qed.

Lemma keyed_on_coll K b ns coll f :
  plain_ns ns → coll ≠ "" → (∀ c, keyed_coll K coll c → keyed_coll K coll (f c)) → keyed K b → keyed K (on_coll b ns coll f).
Proof.
  intros Hns Hcoll Hf. apply keyed_on_ns; [done|]. intros n [? ? ? ? ? Hc]. split; try done. cbn. intros coll' c.
  rewrite lookup_insert_Some. intros [[<- <-]|[_ Hn]]; [|by apply Hc]. apply Hf.
  destruct (nb_collHashRwBuilder n !! coll) as [c'|] eqn:E; cbn; [by apply Hc|by apply keyed_coll_new].
Qed.

Ltac keyed_insert := cbn; intros ? ?; rewrite lookup_insert_Some; intros [[<- <-]|[_ ?]]; eauto.

Lemma keyed_run_op K b op : op_ok K op → keyed K b → keyed K (run_op b op).
Proof.
  destruct op; cbn; unfold AddToReadSet, AddToWriteSet, AddToMetadataWriteSet, AddToRangeQuerySet, AddToHashedReadSet.
  - intros ?. apply keyed_on_ns; [done|]. intros n []. split; try done. keyed_insert.
  - intros ?. apply keyed_on_ns; [done|]. intros n []. split; try done. keyed_insert.
  - intros ?. apply keyed_on_ns; [done|]. intros n []. split; try done. keyed_insert.
  - intros ?. apply keyed_on_ns; [done|]. intros n Hn. case_match; [done|]. by destruct Hn.
  - intros []. apply keyed_on_coll; [done..|]. intros c []. split; try done. keyed_insert.
  - intros (? & ? & ?) Hb. apply (keyed_on_coll K (on_pvt b ns coll _)); [done..| |done].
    intros c []. split; try done. keyed_insert.
  - intros (? & ? & ?) Hb. apply (keyed_on_coll K (on_pvt b ns coll _)); [done..| |done].
    intros c []. split; try done. keyed_insert.
  - intros (? & ? & ?) Hb. apply (keyed_on_coll K (on_pvt b ns coll _)); [done..| |done].
    intros c []. split; try done. keyed_insert.
Qed.

Lemma keyed_run K ops : Forall (op_ok K) ops → keyed K (run_ops ops).
Proof.
  unfold run_ops. assert (keyed K NewRWSetBuilder) as Hn by (intros ns n Hn; cbn in Hn; by rewrite lookup_empty in Hn).
  revert Hn. generalize NewRWSetBuilder. induction ops as [|op ops IH]; intros b Hb Hok; [done|].
  apply Forall_cons in Hok as [Hop Hok]. apply IH; [|done]. by apply keyed_run_op.
Qed.

(** ** The read-write set has each key once *)
Definition coll_keys {A} (ns coll : string) (of_entry : A → string) (l : list A) : list compositeKey :=
  map (λ w, (ns, coll, of_entry w)) l.

Lemma val_keys_concat {A} (f : A → list prim) l : val_keys (concat (map f l)) = concat (map (λ x, val_keys (f x)) l).
Proof. induction l as [|x l IH]; [done|]. cbn. unfold val_keys in *. by rewrite omap_app, IH. Qed.
Lemma meta_keys_concat {A} (f : A → list prim) l : meta_keys (concat (map f l)) = concat (map (λ x, meta_keys (f x)) l).
Proof. induction l as [|x l IH]; [done|]. cbn. unfold meta_keys in *. by rewrite omap_app, IH. Qed.

Lemma val_keys_vals ns coll l : val_keys (map (val_prim ns coll) l) = coll_keys ns coll kvw_Key l.
Proof. unfold val_keys, coll_keys. induction l as [|x l IH]; cbn; [done|by rewrite ?IH]. Qed.
Lemma val_keys_metas ns coll l : val_keys (map (meta_prim ns coll) l) = [].
Proof. unfold val_keys, coll_keys. induction l as [|x l IH]; cbn; [done|by rewrite ?IH]. Qed.
Lemma meta_keys_vals ns coll l : meta_keys (map (val_prim ns coll) l) = [].
Proof. unfold meta_keys, coll_keys. induction l as [|x l IH]; cbn; [done|by rewrite ?IH]. Qed.
Lemma meta_keys_metas ns coll l : meta_keys (map (meta_prim ns coll) l) = coll_keys ns coll mw_Key l.
Proof. unfold meta_keys, coll_keys. induction l as [|x l IH]; cbn; [done|by rewrite ?IH]. Qed.

Lemma val_keys_coll ns c :
  val_keys (coll_prims ns c) = coll_keys ns (ch_CollectionName c) wh_KeyHash (h_HashedWrites (ch_HashedRwSet c)).
Proof.
  unfold coll_prims, val_keys, coll_keys. rewrite omap_app.
  induction (h_HashedWrites (ch_HashedRwSet c)) as [|w l IH]; cbn; [|by rewrite IH].
  by induction (h_MetadataWrites (ch_HashedRwSet c)).
Qed.

Lemma meta_keys_coll ns c :
  meta_keys (coll_prims ns c) = coll_keys ns (ch_CollectionName c) mwh_KeyHash (h_MetadataWrites (ch_HashedRwSet c)).
Proof.
  unfold coll_prims, meta_keys, coll_keys. rewrite omap_app.
  induction (h_HashedWrites (ch_HashedRwSet c)) as [|w l IH]; cbn; [|done].
  induction (h_MetadataWrites (ch_HashedRwSet c)) as [|x l IH]; cbn; [done|by rewrite IH].
Qed.

Lemma val_keys_ns n :
  val_keys (ns_prims n) = coll_keys (nrw_NameSpace n) "" kvw_Key (kv_Writes (nrw_KvRwSet n)) ++
    concat (map (λ c, coll_keys (nrw_NameSpace n) (ch_CollectionName c) wh_KeyHash (h_HashedWrites (ch_HashedRwSet c)))
      (nrw_CollHashedRwSets n)).
Proof.
  unfold ns_prims, val_keys. rewrite !omap_app. fold (val_keys (map (val_prim (nrw_NameSpace n) "") (kv_Writes (nrw_KvRwSet n)))).
  fold (val_keys (map (meta_prim (nrw_NameSpace n) "") (kv_MetadataWrites (nrw_KvRwSet n)))).
  fold (val_keys (concat (map (coll_prims (nrw_NameSpace n)) (nrw_CollHashedRwSets n)))).
  rewrite val_keys_vals, val_keys_metas, val_keys_concat. cbn. f_equal. f_equal. apply map_ext. apply val_keys_coll.
Qed.

Lemma meta_keys_ns n :
  meta_keys (ns_prims n) = coll_keys (nrw_NameSpace n) "" mw_Key (kv_MetadataWrites (nrw_KvRwSet n)) ++
    concat (map (λ c, coll_keys (nrw_NameSpace n) (ch_CollectionName c) mwh_KeyHash (h_MetadataWrites (ch_HashedRwSet c)))
      (nrw_CollHashedRwSets n)).
Proof.
  unfold ns_prims, meta_keys. rewrite !omap_app. fold (meta_keys (map (val_prim (nrw_NameSpace n) "") (kv_Writes (nrw_KvRwSet n)))).
  fold (meta_keys (map (meta_prim (nrw_NameSpace n) "") (kv_MetadataWrites (nrw_KvRwSet n)))).
  fold (meta_keys (concat (map (coll_prims (nrw_NameSpace n)) (nrw_CollHashedRwSets n)))).
  rewrite meta_keys_vals, meta_keys_metas, meta_keys_concat. cbn. f_equal. f_equal. apply map_ext. apply meta_keys_coll.
Qed.

Lemma coll_keys_NoDup {A} ns coll (of_entry : A → string) l :
  NoDup (of_entry <$> l) → NoDup (coll_keys ns coll of_entry l).
Proof.
  intros Hl. assert (coll_keys ns coll of_entry l = (λ k, (ns, coll, k)) <$> (of_entry <$> l)) as ->.
  { unfold coll_keys. rewrite <-list_fmap_compose. done. }
  apply NoDup_fmap_2; [|done]. by intros ? ? [=].
Qed.

Lemma coll_keys_elem {A} ns coll (of_entry : A → string) l ck : ck ∈ coll_keys ns coll of_entry l → ck.1 = (ns, coll).
Proof. intros (w & -> & _)%list_elem_of_fmap. done. Qed.

Lemma hashed_NoDup {V} K (m : gmap string V) (of_entry : V → string) :
  no_collision K → (∀ k v, m !! k = Some v → of_entry v = ComputeStringHash k ∧ k ∈ K) →
  NoDup (of_entry <$> GetValuesBySortedKeys m).
Proof.
  intros HK Hm. rewrite (values_fmap m of_entry ComputeStringHash) by (intros k v Hv; by apply Hm).
  apply NoDup_fmap_2_strong; [|apply sorted_keys_NoDup].
  intros k k' [v Hv]%sorted_keys_of_elem [v' Hv']%sorted_keys_of_elem. apply HK; by eapply Hm.
Qed.

(** The keys of one namespace: its own and those of its collections. *)
Lemma ns_keys_NoDup {V W} K ns n (m : gmap string V) (of_pub : V → string) (writes : CollHashedRwSet → list W)
    (of_hash : W → string) :
  keyed_ns K ns n → (∀ k v, m !! k = Some v → of_pub v = k) →
  (∀ coll c, nb_collHashRwBuilder n !! coll = Some c → NoDup (of_hash <$> writes (coll_build c))) →
  NoDup (coll_keys ns "" of_pub (GetValuesBySortedKeys m) ++
    concat (map (λ c, coll_keys ns (ch_CollectionName c) of_hash (writes c))
      (coll_build <$> GetValuesBySortedKeys (nb_collHashRwBuilder n)))).
Proof.
  intros Hn Hm Hc. assert (∀ c, c ∈ coll_build <$> GetValuesBySortedKeys (nb_collHashRwBuilder n) →
    ∃ coll c', nb_collHashRwBuilder n !! coll = Some c' ∧ c = coll_build c' ∧ ch_CollectionName c = coll ∧ coll ≠ "") as Hin.
  { intros c (c' & -> & [coll Hcoll]%values_elem)%list_elem_of_fmap. pose proof (kn_colls _ _ _ Hn _ _ Hcoll) as Hk.
    exists coll, c'. split_and!; try done; [by apply (kc_name _ _ _ Hk)|by apply (kc_named _ _ _ Hk)]. }
  apply NoDup_app. split_and!.
  - apply coll_keys_NoDup. rewrite (values_fmap m of_pub id) by done. rewrite list_fmap_id. apply sorted_keys_NoDup.
  - intros ck Hck Hin2. apply coll_keys_elem in Hck. apply list_elem_of_In, in_concat in Hin2 as (l & Hl & Hin2).
    apply in_map_iff in Hl as (c & <- & Hcin). apply list_elem_of_In, coll_keys_elem in Hin2. rewrite Hck in Hin2.
    apply list_elem_of_In, Hin in Hcin as (coll & c' & _ & _ & E & Hne). congruence.
  - apply (concat_NoDup _ ch_CollectionName (λ ck : compositeKey, ck.1.2)).
    + rewrite <-list_fmap_compose. rewrite (values_fmap _ (ch_CollectionName ∘ coll_build) id).
      { rewrite list_fmap_id. apply sorted_keys_NoDup. }
      intros coll c Hcoll. by apply (kc_name _ _ _ (kn_colls _ _ _ Hn _ _ Hcoll)).
    + intros c Hcin. apply coll_keys_NoDup. apply Hin in Hcin as (coll & c' & Hcoll & -> & _). by eapply Hc.
    + intros c ck _ Hck. apply coll_keys_elem in Hck. by rewrite Hck.
Qed.

Lemma built_ns K b (f : NsRwSet → list compositeKey) :
  keyed K b → (∀ ns n, pubRwBuilderMap b !! ns = Some n → NoDup (f (ns_build n))) →
  (∀ n ck, ck ∈ f n → ck.1.1 = nrw_NameSpace n) →
  NoDup (concat (map f (NsRwSets (GetTxReadWriteSet b)))).
Proof.
  intros Hb Hf Hns. apply (concat_NoDup _ nrw_NameSpace (λ ck : compositeKey, ck.1.1)).
  - cbn. rewrite <-list_fmap_compose. rewrite (values_fmap _ (nrw_NameSpace ∘ ns_build) id).
    { rewrite list_fmap_id. apply sorted_keys_NoDup. }
    intros ns n Hn. by apply (kn_name _ _ _ (Hb _ _ Hn)).
  - intros n (n' & -> & [ns Hn]%values_elem)%list_elem_of_fmap. by eapply Hf.
  - intros n ck _ Hck. by apply Hns.
Qed.

Lemma ns_keys_ns (A B : list compositeKey) ns :
  (∀ ck, ck ∈ A → ck.1.1 = ns) → (∀ ck, ck ∈ B → ck.1.1 = ns) → ∀ ck, ck ∈ A ++ B → ck.1.1 = ns.
Proof. intros HA HB ck [?|?]%elem_of_app; auto. Qed.

Lemma concat_coll_keys {A B} ns (name : A → string) (of_entry : B → string) (es : A → list B) (l : list A) ck :
  ck ∈ concat (map (λ c, coll_keys ns (name c) of_entry (es c)) l) → ck.1.1 = ns.
Proof.
  intros Hin. apply list_elem_of_In, in_concat in Hin as (l' & Hl & Hin). apply in_map_iff in Hl as (c & <- & _).
  apply list_elem_of_In, coll_keys_elem in Hin. by rewrite Hin.
Qed.

Lemma val_keys_in_ns n ck : ck ∈ val_keys (ns_prims n) → ck.1.1 = nrw_NameSpace n.
Proof.
  rewrite val_keys_ns. apply ns_keys_ns; [|apply concat_coll_keys]. intros ck' Hin. apply coll_keys_elem in Hin. by rewrite Hin.
Qed.
Lemma meta_keys_in_ns n ck : ck ∈ meta_keys (ns_prims n) → ck.1.1 = nrw_NameSpace n.
Proof.
  rewrite meta_keys_ns. apply ns_keys_ns; [|apply concat_coll_keys]. intros ck' Hin. apply coll_keys_elem in Hin. by rewrite Hin.
Qed.

Lemma built_vals K b : no_collision K → keyed K b → NoDup (val_keys (prims (GetTxReadWriteSet b))).
Proof.
  intros HK Hb. unfold prims. rewrite val_keys_concat. apply (built_ns K); [done| |apply val_keys_in_ns].
  intros ns n Hn. rewrite val_keys_ns. pose proof (Hb _ _ Hn) as Hk. cbn. rewrite (kn_name _ _ _ Hk).
  apply (ns_keys_NoDup K _ n _ kvw_Key (λ c, h_HashedWrites (ch_HashedRwSet c))); [done|apply (kn_write _ _ _ Hk)|].
  intros coll c Hc. apply (hashed_NoDup K); [done|]. apply (kc_write _ _ _ (kn_colls _ _ _ Hk _ _ Hc)).
Qed.

Lemma built_metas K b : no_collision K → keyed K b → NoDup (meta_keys (prims (GetTxReadWriteSet b))).
Proof.
  intros HK Hb. unfold prims. rewrite meta_keys_concat. apply (built_ns K); [done| |apply meta_keys_in_ns].
  intros ns n Hn. rewrite meta_keys_ns. pose proof (Hb _ _ Hn) as Hk. cbn. rewrite (kn_name _ _ _ Hk).
  apply (ns_keys_NoDup K _ n _ mw_Key (λ c, h_MetadataWrites (ch_HashedRwSet c))); [done|apply (kn_meta _ _ _ Hk)|].
  intros coll c Hc. apply (hashed_NoDup K); [done|]. apply (kc_meta _ _ _ (kn_colls _ _ _ Hk _ _ Hc)).
Qed.

(** ** The last operation on a key counts *)
Definition last_of {A} (f : build_op → option A) (ops : list build_op) : option A :=
  foldl (λ acc op, match f op with Some x => Some x | None => acc end) None ops.

Definition at_ns {A} (P : nsPubRwBuilder → option A) (b : RWSetBuilder) (ns : string) : option A :=
  pubRwBuilderMap b !! ns ≫= P.
Definition at_coll {A} (P : collHashRwBuilder → option A) (b : RWSetBuilder) (ns coll : string) : option A :=
  at_ns (λ n, nb_collHashRwBuilder n !! coll ≫= P) b ns.

Lemma at_on_ns {A} (P : nsPubRwBuilder → option A) b ns f ns' :
  P (newNsPubRwBuilder ns) = None →
  at_ns P (on_ns b ns f) ns' =
    if decide (ns' = ns) then P (f (default (newNsPubRwBuilder ns) (pubRwBuilderMap b !! ns))) else at_ns P b ns'.
Proof.
  intros Hnew. unfold at_ns. cbn. case_decide as E; [subst; by rewrite lookup_insert_eq|by rewrite lookup_insert_ne].
Qed.

Lemma at_on_ns_same {A} (P : nsPubRwBuilder → option A) b ns f ns' :
  P (newNsPubRwBuilder ns) = None → (∀ n, P (f n) = P n) → at_ns P (on_ns b ns f) ns' = at_ns P b ns'.
Proof.
  intros Hnew Hf. rewrite at_on_ns by done. case_decide as E; [|done]. subst. rewrite Hf. unfold at_ns.
  by destruct (pubRwBuilderMap b !! ns).
Qed.

Lemma at_on_coll {A} (P : collHashRwBuilder → option A) b ns coll f ns' coll' :
  P (newCollHashRwBuilder coll) = None →
  at_coll P (on_coll b ns coll f) ns' coll' =
    if decide ((ns', coll') = (ns, coll))
    then P (f (default (newCollHashRwBuilder coll) (pubRwBuilderMap b !! ns ≫= λ n, nb_collHashRwBuilder n !! coll)))
    else at_coll P b ns' coll'.
Proof.
  intros Hnew. unfold at_coll, on_coll. rewrite at_on_ns by (cbn; by rewrite lookup_empty).
  destruct (decide (ns' = ns)) as [->|Hne]; [|by rewrite decide_False by congruence]. cbn.
  assert (nb_collHashRwBuilder (default (newNsPubRwBuilder ns) (pubRwBuilderMap b !! ns)) !! coll
    = pubRwBuilderMap b !! ns ≫= λ n, nb_collHashRwBuilder n !! coll) as Hc.
  { destruct (pubRwBuilderMap b !! ns); cbn; [done|by rewrite lookup_empty]. }
  destruct (decide (coll' = coll)) as [->|Hne]; [rewrite decide_True by done|rewrite decide_False by congruence].
  - rewrite lookup_insert_eq. cbn. by rewrite Hc.
  - rewrite lookup_insert_ne by done. unfold at_ns. destruct (pubRwBuilderMap b !! ns); cbn; [done|by rewrite lookup_empty].
Qed.

Lemma at_on_coll_same {A} (P : collHashRwBuilder → option A) b ns coll f ns' coll' :
  P (newCollHashRwBuilder coll) = None → (∀ c, P (f c) = P c) →
  at_coll P (on_coll b ns coll f) ns' coll' = at_coll P b ns' coll'.
Proof.
  intros Hnew Hf. rewrite at_on_coll by done. case_decide as E; [|done]. injection E as -> ->. rewrite Hf.
  unfold at_coll, at_ns. destruct (pubRwBuilderMap b !! ns) as [n|]; cbn; [|done]. by destruct (nb_collHashRwBuilder n !! coll).
Qed.

Lemma run_last {A} (P : RWSetBuilder → option A) (f : build_op → option A) ops :
  P NewRWSetBuilder = None → (∀ b op, P (run_op b op) = match f op with Some x => Some x | None => P b end) →
  P (run_ops ops) = last_of f ops.
Proof.
  intros Hnew Hop. unfold run_ops, last_of. induction ops as [|op ops IH] using rev_ind; [done|].
  by rewrite !foldl_snoc, Hop, IH.
Qed.

(** Public writes and metadata writes. *)
Definition public_write (ns key : string) (op : build_op) : option KVWrite :=
  match op with OWrite ns' key' v => if decide ((ns, key) = (ns', key')) then Some (newKVWrite key v) else None | _ => None end.
Definition public_read (ns key : string) (op : build_op) : option KVRead :=
  match op with ORead ns' key' v => if decide ((ns, key) = (ns', key')) then Some (NewKVRead key v) else None | _ => None end.
Definition private_write (ns coll key : string) (op : build_op) : option KVWriteHash :=
  match op with
  | OPvtWrite ns' coll' key' v =>
      if decide ((ns, coll, key) = (ns', coll', key')) then Some (newPvtKVWriteAndHash key v).2 else None
  | OPurge ns' coll' key' =>
      if decide ((ns, coll, key) = (ns', coll', key'))
      then Some (mkKVWriteHash (ComputeStringHash key) true None true) else None
  | _ => None
  end.

(** An operation that leaves the entries looked up alone. *)
Ltac unfold_ops :=
  unfold AddToReadSet, AddToWriteSet, AddToMetadataWriteSet, AddToRangeQuerySet, AddToHashedReadSet,
    AddToPvtAndHashedWriteSet, AddToPvtAndHashedWriteSetForPurge, AddToHashedMetadataWriteSet;
  cbn [newPvtKVWriteAndHash].
Ltac other_op :=
  unfold_ops;
  etrans; [apply at_on_ns_same; [by cbn; rewrite ?lookup_empty|let n := fresh in intros n; cbn; by repeat case_match]|reflexivity].

Lemma pub_write_run ns key ops : at_ns (λ n, nb_writeMap n !! key) (run_ops ops) ns = last_of (public_write ns key) ops.
Proof.
  apply (run_last (λ b, at_ns (λ n, nb_writeMap n !! key) b ns)); [unfold at_ns; cbn; by rewrite lookup_empty|].
  intros b op. destruct op as [ns' k v|ns' k v|ns' k mm|ns' r|ns' c k v|ns' c k v|ns' c k|ns' c k mm]; cbn [run_op public_write].
  2:{ unfold AddToWriteSet. rewrite at_on_ns by (cbn; by rewrite lookup_empty). cbn.
      destruct (decide (ns = ns')) as [->|]; [|by rewrite decide_False by congruence].
      destruct (decide (key = k)) as [->|]; [rewrite decide_True by done; by rewrite lookup_insert_eq|].
      rewrite decide_False by congruence. rewrite lookup_insert_ne by done. unfold at_ns.
      destruct (pubRwBuilderMap b !! ns'); cbn; [done|by rewrite lookup_empty]. }
  all: other_op.
Qed.

Lemma pub_read_run ns key ops : at_ns (λ n, nb_readMap n !! key) (run_ops ops) ns = last_of (public_read ns key) ops.
Proof.
  apply (run_last (λ b, at_ns (λ n, nb_readMap n !! key) b ns)); [unfold at_ns; cbn; by rewrite lookup_empty|].
  intros b op. destruct op as [ns' k v|ns' k v|ns' k mm|ns' r|ns' c k v|ns' c k v|ns' c k|ns' c k mm]; cbn [run_op public_read].
  1:{ unfold AddToReadSet. rewrite at_on_ns by (cbn; by rewrite lookup_empty). cbn.
      destruct (decide (ns = ns')) as [->|]; [|by rewrite decide_False by congruence].
      destruct (decide (key = k)) as [->|]; [rewrite decide_True by done; by rewrite lookup_insert_eq|].
      rewrite decide_False by congruence. rewrite lookup_insert_ne by done. unfold at_ns.
      destruct (pubRwBuilderMap b !! ns'); cbn; [done|by rewrite lookup_empty]. }
  all: other_op.
Qed.

Lemma put_hash_at b ns coll key w ns' coll' key' :
  at_coll (λ c, hb_writeMap c !! key') (on_coll b ns coll (put_hash key w)) ns' coll' =
    if decide ((ns', coll', key') = (ns, coll, key)) then Some w else at_coll (λ c, hb_writeMap c !! key') b ns' coll'.
Proof.
  rewrite at_on_coll by (cbn; by rewrite lookup_empty).
  destruct (decide ((ns', coll') = (ns, coll))) as [[= -> ->]|]; [|by rewrite decide_False by congruence]. cbn.
  destruct (decide (key' = key)) as [->|]; [rewrite decide_True by done; by rewrite lookup_insert_eq|].
  rewrite decide_False by congruence. rewrite lookup_insert_ne by done. unfold at_coll, at_ns.
  destruct (pubRwBuilderMap b !! ns) as [nb|]; cbn; [|by rewrite lookup_empty].
  destruct (nb_collHashRwBuilder nb !! coll); cbn; [done|by rewrite lookup_empty].
Qed.

Lemma pvt_write_run ns coll key ops :
  at_coll (λ c, hb_writeMap c !! key) (run_ops ops) ns coll = last_of (private_write ns coll key) ops.
Proof.
  apply (run_last (λ b, at_coll (λ c, hb_writeMap c !! key) b ns coll)).
  { unfold at_coll, at_ns. cbn. by rewrite lookup_empty. }
  intros b op. destruct op as [ns' k v|ns' k v|ns' k mm|ns' r|ns' c k v|ns' c k v|ns' c k|ns' c k mm];
    cbn [run_op private_write]; unfold_ops.
  6,7: rewrite put_hash_at; case_decide as E; [by injection E as -> -> ->|done].
  5,6: etrans; [apply at_on_coll_same; [by cbn; rewrite ?lookup_empty|done]|reflexivity].
  all: unfold at_coll; other_op.
Qed.

(** What a write of the set does to its key: [None] deletes it. *)
Definition written (w : KVWrite) : option bytes := if IsKVWriteDelete w then None else kvw_Value w.

Lemma val_at_Some ps ck v : NoDup (val_keys ps) → val_at ps ck = Some v ↔ PVal ck v ∈ ps.
Proof.
  induction ps as [|p ps IH]; cbn.
  { intros _. split; [done|]. intros Hin. by apply elem_of_nil in Hin. }
  rewrite elem_of_cons. destruct p as [k v'|k es]; cbn.
  - intros [Hni Hnd]%NoDup_cons. unfold val_at. cbn. case_decide as E; cbn.
    + subst. split; [intros [= ->]; by left|]. intros [[= ->]|Hin]; [done|]. destruct Hni.
      apply list_elem_of_omap. by exists (PVal ck v).
    + fold (val_at ps ck). rewrite IH by done. split; [by right|]. intros [[= <- <-]|Hin]; done.
  - intros Hnd. unfold val_at. cbn. fold (val_at ps ck). rewrite IH by done. split; [by right|]. by intros [[=]|Hin].
Qed.

Lemma concat_values_elem {V A B} (m : gmap string V) (build : V → A) (f : A → list B) (p : B) :
  p ∈ concat (map f (build <$> GetValuesBySortedKeys m)) ↔ ∃ k v, m !! k = Some v ∧ p ∈ f (build v).
Proof.
  rewrite list_elem_of_In, in_concat. split.
  - intros (l & Hl & Hin). apply in_map_iff in Hl as (a & <- & Ha). apply list_elem_of_In in Ha, Hin.
    apply list_elem_of_fmap in Ha as (v & -> & [k Hk]%values_elem). eauto.
  - intros (k & v & Hk & Hp). exists (f (build v)). split; [|by apply list_elem_of_In]. apply in_map_iff.
    exists (build v). split; [done|]. apply list_elem_of_In, list_elem_of_fmap. exists v. split; [done|].
    apply values_elem. eauto.
Qed.

Lemma fmap_values_elem {V A} (m : gmap string V) (f : V → A) (a : A) :
  a ∈ f <$> GetValuesBySortedKeys m ↔ ∃ k v, m !! k = Some v ∧ a = f v.
Proof.
  rewrite list_elem_of_fmap. split.
  - intros (v & -> & [k Hk]%values_elem). eauto.
  - intros (k & v & Hk & ->). exists v. split; [done|]. apply values_elem. eauto.
Qed.

Lemma val_elem_ns K ns n ck v :
  keyed_ns K ns n →
  PVal ck v ∈ ns_prims (ns_build n) ↔
  (∃ key w, nb_writeMap n !! key = Some w ∧ ck = (ns, "", key) ∧ v = written w) ∨
  (∃ coll c key w, nb_collHashRwBuilder n !! coll = Some c ∧ hb_writeMap c !! key = Some w ∧
     ck = (ns, coll, ComputeStringHash key) ∧ v = written (write_of_hash w)).
Proof.
  intros Hk. unfold ns_prims. cbn. rewrite (kn_name _ _ _ Hk), !elem_of_app, concat_values_elem.
  change (map ?f ?l) with (f <$> l). rewrite !fmap_values_elem. split.
  - intros [(key & w & Hw & E)|[(? & ? & _ & [=])|(coll & c & Hc & Hin)]].
    + left. unfold val_prim in E. rewrite (kn_write _ _ _ Hk _ _ Hw) in E. injection E as -> ->. eauto.
    + right. pose proof (kn_colls _ _ _ Hk _ _ Hc) as Hkc. unfold coll_prims in Hin. cbn in Hin.
      rewrite (kc_name _ _ _ Hkc), elem_of_app in Hin. change (map ?f ?l) with (f <$> l) in Hin.
      rewrite !fmap_values_elem in Hin. destruct Hin as [(key & w & Hw & E)|(? & ? & _ & [=])].
      unfold val_prim in E. cbn in E. rewrite (proj1 (kc_write _ _ _ Hkc _ _ Hw)) in E. injection E as -> ->. eauto 10.
  - intros [(key & w & Hw & -> & ->)|(coll & c & key & w & Hc & Hw & -> & ->)].
    + left. exists key, w. unfold val_prim. by rewrite (kn_write _ _ _ Hk _ _ Hw).
    + right. right. exists coll, c. split; [done|]. pose proof (kn_colls _ _ _ Hk _ _ Hc) as Hkc.
      unfold coll_prims. cbn. rewrite (kc_name _ _ _ Hkc), elem_of_app. left. change (map ?f ?l) with (f <$> l).
      apply fmap_values_elem. exists key, w. split; [done|]. unfold val_prim. cbn.
      by rewrite (proj1 (kc_write _ _ _ Hkc _ _ Hw)).
Qed.

Lemma prims_elem b K ck v :
  keyed K b →
  PVal ck v ∈ prims (GetTxReadWriteSet b) ↔
  (∃ ns key w, ck = (ns, "", key) ∧ at_ns (λ n, nb_writeMap n !! key) b ns = Some w ∧ v = written w) ∨
  (∃ ns coll key w, ck = (ns, coll, ComputeStringHash key) ∧ coll ≠ "" ∧ key ∈ K ∧
     at_coll (λ c, hb_writeMap c !! key) b ns coll = Some w ∧ v = written (write_of_hash w)).
Proof.
  intros Hb. unfold prims. cbn. rewrite concat_values_elem. unfold at_coll, at_ns. split.
  - intros (ns & n & Hn & Hin). pose proof (Hb _ _ Hn) as Hk. apply (val_elem_ns K ns n _ _ Hk) in Hin
      as [(key & w & Hw & -> & ->)|(coll & c & key & w & Hc & Hw & -> & ->)].
    + left. exists ns, key, w. by rewrite Hn.
    + right. pose proof (kn_colls _ _ _ Hk _ _ Hc) as Hkc. exists ns, coll, key, w. rewrite Hn. cbn. rewrite Hc. cbn.
      split_and!; try done; [by apply (kc_named _ _ _ Hkc)|by apply (kc_write _ _ _ Hkc _ _ Hw)].
  - intros [(ns & key & w & -> & Hat & ->)|(ns & coll & key & w & -> & Hne & HK & Hat & ->)];
      apply bind_Some in Hat as (n & Hn & Hat); exists ns, n; (split; [done|]); apply (val_elem_ns K ns n _ _ (Hb _ _ Hn)).
    + left. eauto.
    + right. apply bind_Some in Hat as (c & Hc & Hw). eauto 10.
Qed.
End runs.

(** ** Private data and its hashes *)
Section hashes.
Context `{Hashing} `{RwsetCodec}.

Record pvt_keyed_ns (ns : string) (n : nsPvtRwBuilder) : Prop := {
  pk_name : vb_namespace n = ns;
  pk_plain : plain_ns ns;
  pk_colls coll c : vb_collPvtRwBuilders n !! coll = Some c → cb_collectionName c = coll ∧ coll ≠ ""
}.
Definition pvt_keyed (b : RWSetBuilder) : Prop := ∀ ns n, pvtRwBuilderMap b !! ns = Some n → pvt_keyed_ns ns n.

Lemma pvt_keyed_on_pvt b ns coll f :
  plain_ns ns → coll ≠ "" → (∀ c, cb_collectionName (f c) = cb_collectionName c) →
  pvt_keyed b → pvt_keyed (on_pvt b ns coll f).
Proof.
  intros Hns Hcoll Hf Hb ns' n'. cbn. rewrite lookup_insert_Some. intros [[<- <-]|[_ Hn]]; [|by apply Hb].
  assert (pvt_keyed_ns ns (default (newNsPvtRwBuilder ns) (pvtRwBuilderMap b !! ns))) as [Hname _ Hc].
  { destruct (pvtRwBuilderMap b !! ns) eqn:E; cbn; [by apply Hb|]. split; [done|done|]. cbn. intros c ?.
    by rewrite lookup_empty. }
  split; [done|done|]. cbn. intros coll' c. rewrite lookup_insert_Some. intros [[<- <-]|[_ Hn]]; [|by apply Hc].
  rewrite Hf. split; [|done]. destruct (vb_collPvtRwBuilders _ !! coll) as [c'|] eqn:E; [|done]. by apply Hc in E as [? _].
Qed.

Lemma pvt_keyed_run K ops : Forall (op_ok K) ops → pvt_keyed (run_ops ops).
Proof.
  unfold run_ops. assert (pvt_keyed NewRWSetBuilder) as Hn by (intros ns n Hn; cbn in Hn; by rewrite lookup_empty in Hn).
  revert Hn. generalize NewRWSetBuilder. induction ops as [|op ops IH]; intros b Hb Hok; [done|].
  apply Forall_cons in Hok as [Hop Hok]. apply IH; [|done]. destruct op; cbn in Hop |- *; try exact Hb;
    destruct Hop as (? & ? & ?); (eapply (pvt_keyed_on_pvt b); [done|done| |done]); done.
Qed.

(** The hash of a collection's private writes, in the built set. *)
Lemma list_find_unique {A} (P : A → Prop) `{∀ x, Decision (P x)} (l : list A) x :
  x ∈ l → P x → (∀ y, y ∈ l → P y → y = x) → ∃ i, list_find P l = Some (i, x).
Proof.
  intros Hx HP Hu. destruct (list_find P l) as [[i y]|] eqn:E.
  - apply list_find_Some in E as (Hy & HPy & _). exists i. rewrite (Hu y); [done|by eapply list_elem_of_lookup_2|done].
  - apply list_find_None in E. rewrite Forall_forall in E. by destruct (E x Hx).
Qed.

Lemma retrieveHash_built K b ns coll h tx :
  keyed K b → tx_rwset tx = GetTxReadWriteSet b → at_coll hb_pvtDataHash b ns coll = Some h →
  retrieveHash tx ns coll = Some h.
Proof.
  intros Hb Htx Hat. unfold at_coll, at_ns in Hat. apply bind_Some in Hat as (n & Hn & Hat).
  apply bind_Some in Hat as (c & Hc & Hh). unfold retrieveHash. rewrite Htx.
  destruct (list_find_unique (λ c0, ch_CollectionName c0 = coll)
    (concat (map nrw_CollHashedRwSets (filter (λ n0, nrw_NameSpace n0 = ns) (NsRwSets (GetTxReadWriteSet b))))) (coll_build c))
    as [i ->]; [| | |done].
  - apply list_elem_of_In, in_concat. exists (coll_build <$> GetValuesBySortedKeys (nb_collHashRwBuilder n)). split.
    + apply in_map_iff. exists (ns_build n). split; [done|]. apply list_elem_of_In, list_elem_of_filter. split.
      * by apply (kn_name _ _ _ (Hb _ _ Hn)).
      * cbn. apply fmap_values_elem. eauto.
    + apply list_elem_of_In, fmap_values_elem. eauto.
  - by apply (kc_name _ _ _ (kn_colls _ _ _ (Hb _ _ Hn) _ _ Hc)).
  - intros y Hy Hname. apply list_elem_of_In, in_concat in Hy as (l & Hl & Hy).
    apply in_map_iff in Hl as (n' & <- & Hn'). apply list_elem_of_In, list_elem_of_filter in Hn' as [Hns Hn'].
    cbn in Hn'. apply fmap_values_elem in Hn' as (ns' & n0 & Hn0 & ->). cbn in Hns, Hy.
    rewrite (kn_name _ _ _ (Hb _ _ Hn0)) in Hns. subst ns'. rewrite Hn in Hn0. injection Hn0 as <-.
    apply list_elem_of_In, fmap_values_elem in Hy as (coll' & c0 & Hc0 & ->). cbn in Hname.
    rewrite (kc_name _ _ _ (kn_colls _ _ _ (Hb _ _ Hn) _ _ Hc0)) in Hname. subst coll'. congruence.
Qed.

Lemma keyed_setHash K b ns coll d :
  plain_ns ns → coll ≠ "" → keyed K b → keyed K (setPvtCollectionHash b ns coll d).
Proof. intros Hns Hcoll. apply keyed_on_coll; [done..|]. intros c []. by split. Qed.

(** The pairs of namespace and collection the hashes are set for. *)
Definition hash_targets (p : TxPvtReadWriteSet) : list (string * string * bytes) :=
  n ← tpw_NsPvtRwset p; c ← npw_CollectionPvtRwset n; [(npw_Namespace n, cpw_CollectionName c, cpw_Rwset c)].

Lemma set_hashes_targets b p :
  set_hashes b p = foldl (λ b '(ns, coll, d), setPvtCollectionHash b ns coll d) b (hash_targets p).
Proof.
  unfold set_hashes, hash_targets. revert b. induction (tpw_NsPvtRwset p) as [|n nss IH]; intros b; [done|].
  cbn. rewrite foldl_app, IH. f_equal. clear. revert b. induction (npw_CollectionPvtRwset n) as [|c cs IH]; intros b; [done|].
  cbn. apply IH.
Qed.

Lemma set_hashes_at K ts b :
  keyed K b → Forall (λ t, plain_ns t.1.1 ∧ t.1.2 ≠ "") ts → NoDup ts.*1 →
  let b' := foldl (λ b '(ns, coll, d), setPvtCollectionHash b ns coll d) b ts in
  keyed K b' ∧ ∀ ns coll d, (ns, coll, d) ∈ ts →
    at_coll hb_pvtDataHash b' ns coll = Some (ComputeHash d).
Proof.
  intros Hb. induction ts as [|[[ns coll] d] ts IH] using rev_ind; cbn.
  { intros _ _. split; [done|]. intros ns coll d Hin. by apply elem_of_nil in Hin. }
  rewrite Forall_app, Forall_singleton, fmap_app, NoDup_app. intros [Hts [Hns Hcoll]] (Hnd & Hdisj & _).
  destruct (IH Hts Hnd) as [Hk Hin]. rewrite foldl_snoc. cbn in *. split; [by apply keyed_setHash|].
  intros ns' coll' d' [Hin'|Hin']%elem_of_app.
  - rewrite <-(Hin _ _ _ Hin'). unfold setPvtCollectionHash.
    rewrite at_on_coll by done. rewrite decide_False; [done|]. intros E. apply (Hdisj (ns', coll')).
    + apply list_elem_of_fmap. by exists (ns', coll', d').
    + rewrite E. by apply list_elem_of_singleton.
  - apply list_elem_of_singleton in Hin' as [= -> -> ->]. unfold setPvtCollectionHash.
    rewrite at_on_coll by done. by rewrite decide_True.
Qed.

Lemma mapO_map {A B C} (f : A → outcome B) (g : A → C) (h : B → C) l l' :
  (∀ x y, f x = Ok y → h y = g x) → mapO f l = Ok l' → map h l' = map g l.
Proof.
  intros Hf. revert l'. induction l as [|x l IH]; intros l'; cbn; [by intros [= <-]|].
  destruct (f x) as [y|?|?] eqn:E; cbn; [|done..]. destruct (mapO f l) as [ys|?|?]; cbn; [|done..]. intros [= <-]. cbn.
  by rewrite (Hf _ _ E), (IH ys).
Qed.

Lemma targets_keys p :
  (hash_targets p).*1 =
  concat (map (λ n, map (λ c, (npw_Namespace n, cpw_CollectionName c)) (npw_CollectionPvtRwset n)) (tpw_NsPvtRwset p)).
Proof.
  unfold hash_targets. induction (tpw_NsPvtRwset p) as [|n nss IH]; [done|]. cbn. rewrite fmap_app, IH. f_equal. clear.
  induction (npw_CollectionPvtRwset n) as [|c cs IH]; [done|]. cbn. by f_equal.
Qed.

Lemma pvt_targets b pvtData p :
  pvt_keyed b → getTxPvtReadWriteSet b = Some pvtData → txPvt_ToProtoMsg pvtData = Ok p →
  NoDup (hash_targets p).*1 ∧ Forall (λ t, plain_ns t.1.1 ∧ t.1.2 ≠ "") (hash_targets p).
Proof.
  intros Hb Hd Hp. assert (tp_NsPvtRwSet pvtData = nsPvt_build <$> GetValuesBySortedKeys (pvtRwBuilderMap b)) as Hns.
  { unfold getTxPvtReadWriteSet in Hd. by destruct (nsPvt_build <$> _); [done|injection Hd as <-]. }
  unfold txPvt_ToProtoMsg in Hp. destruct (mapO nsPvt_toProtoMsg _) as [nss|?|?] eqn:Em; cbn in Hp; [|done..].
  injection Hp as <-. rewrite Hns in Em.
  assert ((hash_targets (mkTxPvtReadWriteSet nss)).*1 =
    concat (map (λ n, map (λ c, (np_NameSpace n, cp_CollectionName c)) (np_CollPvtRwSets n))
      (nsPvt_build <$> GetValuesBySortedKeys (pvtRwBuilderMap b)))) as Hk.
  { rewrite targets_keys. f_equal. cbn. eapply mapO_map; [|exact Em]. intros n n' En. unfold nsPvt_toProtoMsg in En.
    destruct (mapO collPvt_ToProtoMsg _) as [cs|?|?] eqn:Ec; cbn in En; [|done..]. injection En as <-. cbn.
    eapply mapO_map; [|exact Ec]. intros c c' Ecc. unfold collPvt_ToProtoMsg in Ecc.
    destruct (marshal_KVRWSet _); cbn in Ecc; [|done..]. by injection Ecc as <-. }
  split.
  - rewrite Hk. apply (concat_NoDup _ np_NameSpace fst).
    + rewrite <-list_fmap_compose, (values_fmap _ (np_NameSpace ∘ nsPvt_build) id).
      { rewrite list_fmap_id. apply sorted_keys_NoDup. } intros ns n Hn. by apply (pk_name _ _ (Hb _ _ Hn)).
    + intros n (ns & nb & Hn & ->)%fmap_values_elem. cbn. change (map ?f ?l) with (f <$> l). rewrite <-list_fmap_compose.
      rewrite (values_fmap _ _ (λ k, (vb_namespace nb, k))).
      { apply NoDup_fmap_2; [by intros ? ? [=]|apply sorted_keys_NoDup]. }
      intros coll c Hc. cbn. by rewrite (proj1 (pk_colls _ _ (Hb _ _ Hn) _ _ Hc)).
    + intros n t _ Ht. apply list_elem_of_fmap in Ht as (c & -> & _). done.
  - apply Forall_forall. intros [[ns coll] d] Hin. cbn. assert ((ns, coll) ∈ (hash_targets (mkTxPvtReadWriteSet nss)).*1) as Hin'.
    { apply list_elem_of_fmap. by exists (ns, coll, d). }
    rewrite Hk in Hin'. apply concat_values_elem in Hin' as (ns' & nb & Hn & Hin').
    apply list_elem_of_fmap in Hin' as (c & [= -> ->] & Hc). cbn in Hc. apply fmap_values_elem in Hc as (coll' & cb & Hcb & ->).
    cbn. rewrite (pk_name _ _ (Hb _ _ Hn)). split; [by apply (pk_plain _ _ (Hb _ _ Hn))|].
    destruct (pk_colls _ _ (Hb _ _ Hn) _ _ Hcb) as [-> ?]. done.
Qed.
End hashes.

(** ** Properties *)

(** C17: the read-write set of a simulation is well formed whatever the
    simulation did, in any order: every key is written at most once, with the
    last value written to it, public keys and hashes of private keys apart, and
    read in the last version recorded. *)
Theorem built_rwset_spec `{Hashing} `{RwsetCodec} (K : list string) (ops : list build_op) :
  Forall (op_ok K) ops → no_collision K → (∀ es, ∃ b, Serialize es = Ok b) →
  let W := GetTxReadWriteSet (run_ops ops) in
  wf_writes W ∧ named_collections W ∧
  (∀ ns key, write_at W (ns, "", key) = written <$> last_of (public_write ns key) ops) ∧
  (∀ ns coll key, coll ≠ "" → key ∈ K → write_at W (ns, coll, ComputeStringHash key) =
     (λ w, written (write_of_hash w)) <$> last_of (private_write ns coll key) ops) ∧
  (∀ ns key ver, ((ns, "", key), ver) ∈ reads_of W ↔
     (λ r, NewVersion (kvr_Version r)) <$> last_of (public_read ns key) ops = Some ver).
Proof.
  intros Hok HK Hser W. pose proof (keyed_run K ops Hok) as Hb.
  assert (named_collections W) as Hnamed.
  { intros n c (ns & nb & Hn & ->)%fmap_values_elem (coll & cb & Hc & ->)%fmap_values_elem.
    pose proof (kn_colls _ _ _ (Hb _ _ Hn) _ _ Hc) as Hkc. cbn. rewrite (kc_name _ _ _ Hkc). apply (kc_named _ _ _ Hkc). }
  assert (∀ ck v, write_at W ck = Some v ↔ PVal ck v ∈ prims W) as Hat.
  { intros ck v. apply val_at_Some. by apply (built_vals K). }
  split_and!; [split; [by apply (built_vals K)|by apply (built_metas K)| |done]|done|..].
  - assert (∀ ns n, pubRwBuilderMap (run_ops ops) !! ns = Some n → plain_ns (nrw_NameSpace (ns_build n))) as Hp.
    { intros ns n Hn. cbn. rewrite (kn_name _ _ _ (Hb _ _ Hn)). apply (kn_plain _ _ _ (Hb _ _ Hn)). }
    unfold W, prims. rewrite val_keys_concat, meta_keys_concat. cbn.
    intros ck [(ns & n & Hn & Hin)%concat_values_elem|(ns & n & Hn & Hin)%concat_values_elem];
      [apply val_keys_in_ns in Hin|apply meta_keys_in_ns in Hin]; rewrite Hin; by eapply Hp.
  - intros ns key. rewrite <-pub_write_run. apply option_eq. intros v. rewrite Hat. unfold W. rewrite (prims_elem _ K) by done.
    rewrite fmap_Some. split.
    + intros [(? & ? & w & [= <- <-] & Hw & ->)|(? & coll & ? & w & [= <- <- _] & Hne & _)]; [eauto|done].
    + intros (w & Hw & ->). left. eauto 10.
  - intros ns coll key Hne Hkey. rewrite <-pvt_write_run. apply option_eq. intros v. rewrite Hat. unfold W.
    rewrite (prims_elem _ K) by done. rewrite fmap_Some. split.
    + intros [(? & ? & w & [= <- E _] & Hw & ->)|(? & ? & k & w & [= <- <- E] & _ & Hk & Hw & ->)]; [done|].
      apply HK in E as <-; [eauto|done..].
    + intros (w & Hw & ->). right. eauto 10.
  - intros ns key ver. rewrite <-pub_read_run, reads_of_elem. unfold at_ns. rewrite fmap_Some. split.
    + intros (n & (ns' & nb & Hn & ->)%fmap_values_elem & [(r & [k Hr]%values_elem & E & ->)|(c & r & Hc & _ & E & _)]).
      * cbn in E. rewrite (kn_name _ _ _ (Hb _ _ Hn)), (kn_read _ _ _ (Hb _ _ Hn) _ _ Hr) in E. injection E as -> ->.
        exists r. by rewrite Hn.
      * destruct (Hnamed (ns_build nb) c); [apply fmap_values_elem; eauto|done|]. by injection E.
    + intros (r & Hr & ->). apply bind_Some in Hr as (n & Hn & Hr). exists (ns_build n). split; [apply fmap_values_elem; eauto|].
      left. exists r. cbn. rewrite (kn_name _ _ _ (Hb _ _ Hn)), (kn_read _ _ _ (Hb _ _ Hn) _ _ Hr).
      split_and!; try done. apply values_elem. eauto.
Qed.

(** The private data a simulation returns is accepted at commit: the hashes
    the results carry are those of the private part. *)
Theorem simulated_pvt_accepted `{Hashing} `{RwsetCodec} (K : list string) (ops : list build_op)
    (res : TxSimulationResults) (p : TxPvtReadWriteSet) (b' : RWSetBuilder) (tx : transaction) (seq : Z) :
  Forall (op_ok K) ops →
  builder_GetTxSimulationResults (run_ops ops) = (Ok res, b') → sim_Pvt res = Some p →
  tx_rwset tx = GetTxReadWriteSet b' →
  validatePvtdata tx (mkTxPvtData seq (Some p)) = Ok () ∧ ∃ pub, sim_Pub res = Some pub ∧ tx_toProtoMsg (tx_rwset tx) = Ok pub.
Proof.
  intros Hok Hres Hp Htx. pose proof (pvt_keyed_run K ops Hok) as Hpb. unfold builder_GetTxSimulationResults in Hres.
  destruct (getTxPvtReadWriteSet (run_ops ops)) as [d|] eqn:Ed.
  2:{ destruct (tx_toProtoMsg _); cbn in Hres; [|done..]. by injection Hres as <- _. }
  destruct (txPvt_ToProtoMsg d) as [p'|?|?] eqn:Ep; [|done..].
  destruct (tx_toProtoMsg _) as [pub|?|?] eqn:Epub; cbn in Hres; [|done..]. injection Hres as <- <-. injection Hp as ->.
  rewrite Htx. split; [|by exists pub].
  destruct (pvt_targets _ _ _ Hpb Ed Ep) as [Hnd Hall]. rewrite set_hashes_targets in Htx.
  destruct (set_hashes_at K _ _ (keyed_run K ops Hok) Hall Hnd) as [Hk Hin].
  apply (validatePvtdata_Ok tx (mkTxPvtData seq (Some p)) p eq_refl). intros n c Hn Hc.
  rewrite (retrieveHash_built K _ _ _ (ComputeHash (cpw_Rwset c)) _ Hk Htx); [done|].
  apply Hin. unfold hash_targets. apply list_elem_of_bind. exists n. split; [|done].
  apply list_elem_of_bind. exists c. split; [by apply list_elem_of_singleton|done].
Qed.

(** ** A concrete simulation *)
#[local] Existing Instance toy_hashing.
#[local] Existing Instance toy_rw_codec.

Definition toy_ops : list build_op :=
  [OWrite "cc" "a" (Some "1"); ORead "cc" "b" (Some (mkHeight 1 0)); OPvtWrite "cc" "coll" "s" (Some "7");
   OWrite "cc" "a" (Some "2")].

Lemma toy_ops_ok : Forall (op_ok ["s"]) toy_ops.
Proof. repeat constructor; done. Qed.

Lemma built_rwset_spec_witness :
  write_at (GetTxReadWriteSet (run_ops toy_ops)) ("cc", "", "a") = Some (Some "2") ∧
  write_at (GetTxReadWriteSet (run_ops toy_ops)) ("cc", "coll", "#s") = Some (Some "#7") ∧
  wf_writes (GetTxReadWriteSet (run_ops toy_ops)).
Proof.
  destruct (built_rwset_spec ["s"] toy_ops toy_ops_ok) as (Hwf & _ & Hpub & Hpvt & _).
  - intros k k' Hk Hk' _. apply list_elem_of_singleton in Hk as ->. by apply list_elem_of_singleton in Hk' as ->.
  - intros es. by exists "".
  - split_and!; [exact (Hpub "cc" "a")| |exact Hwf]. apply (Hpvt "cc" "coll" "s"); [done|by left].
Defined.

Definition short_codec : RwsetCodec := {|
  marshal_KVRWSet k := Ok (String.concat "," (map kvw_Key (kv_Writes k)));
  marshal_HashedRWSet h := Ok (String.concat "," (map wh_KeyHash (h_HashedWrites h)));
  marshal_TxReadWriteSet _ := Ok "";
  marshal_TxPvtReadWriteSet _ := Ok "";
  unmarshal_TxPvtReadWriteSet _ := None;
  marshal_KVMetadataWrite _ := Ok "";
  unmarshal_KVMetadataWrite _ := None;
  marshal_QueryReads _ := Ok ""
|}.

Lemma simulated_pvt_accepted_witness :
  ∃ res b' p, builder_GetTxSimulationResults (H0 := short_codec) (run_ops toy_ops) = (Ok res, b') ∧ sim_Pvt res = Some p ∧
    validatePvtdata (mkTransaction' 0 "t" (GetTxReadWriteSet b') 0 false) (mkTxPvtData 0 (Some p)) = Ok ().
Proof.
  do 3 eexists. split; [vm_compute; reflexivity|]. split; [reflexivity|].
  exact (proj1 (simulated_pvt_accepted (H0 := short_codec) ["s"] toy_ops _ _ _
    (mkTransaction' 0 "t" (GetTxReadWriteSet _) 0 false) 0 toy_ops_ok eq_refl eq_refl eq_refl)).
Defined.
