(* ===== verification/Replay.v ===== *)
(** * Replay: a committed block is prepared again after a crash
      (core/ledger/kvledger/txmgmt/validation/batch_preparer.go, tx_ops.go,
      core/ledger/kvledger/txmgmt/txmgr/lockbased_txmgr.go)

    A peer that stops between storing a block and updating its state database
    prepares the stored block again, without validating it: the flags it was
    stored with decide. *)

From S2P Require Import Prelude GoText Protos TxFlags Proposal ProtoUtil Height StateDb PvtState RwSetUtil RangeQuery TxOps Mvcc BatchPreparer.

Section replay.
Context `{Codec} `{TxCodec} `{VersionedDB} `{Bookkeeper} `{Hashing} `{RwsetCodec} `{KeyOrder} `{PostOrder}.
Context (procs : gmap Z po_processor) (validateKVFunc : string → option bytes → outcome unit).
Context (hashFunc : bytes → outcome bytes).

(** A custom processor does the same whether or not the state is being restored. *)
Definition processors_agree : Prop :=
  ∀ p env sim, po_GenerateSimulationResults p env sim true = po_GenerateSimulationResults p env sim false.

Lemma process_entry_agree b env chdr mv :
  processors_agree → process_entry procs validateKVFunc b env chdr mv = process_entry procs validateKVFunc b env chdr true.
Proof.
  intros Ha. unfold process_entry, processNonEndorserTx. destruct mv; [done|]. case_bool_decide; [done|].
  destruct (procs !! chdr_Type chdr) as [p|]; [|done]. cbn [negb]. destruct (po_NewTxSimulator (chdr_TxId chdr)); cbn; [|done..]. by rewrite Ha.
Qed.

Lemma judged_agree c b mv : processors_agree → judged procs validateKVFunc mv c b = judged procs validateKVFunc true c b.
Proof.
  intros Ha. unfold judged. case_bool_decide; [|done]. destruct (entry_header b) as [[|[env chdr]]| |]; [done| |done..].
  by rewrite process_entry_agree.
Qed.

Lemma rejected_code b env chdr mv code stat :
  process_entry procs validateKVFunc b env chdr mv = Ok (Rejected code stat) → u8 code ≠ TxValidationCode_VALID.
Proof.
  assert (∀ rw po st, check_writeset validateKVFunc rw po st = Ok (Rejected code stat) → u8 code ≠ TxValidationCode_VALID) as Hcw.
  { intros rw po st. unfold check_writeset. destruct (validateWriteset _ _); [done| |done]. by intros [= <- _]. }
  unfold process_entry. case_bool_decide.
  - destruct (GetActionFromEnvelope b); [|by intros [= <- _]|done]. destruct (FromProtoBytes _); [apply Hcw|by intros [= <- _]|done].
  - destruct (processNonEndorserTx _ _ _ _ _) as [[e|[p|]]| |]; cbn; [by intros [= <- _]| |done..].
    destruct (TxRwSetFromProtoMsg p); cbn; [apply Hcw|done..].
Qed.

(** ** The entries *)
#[local] Arguments preprocess_tx : simpl never.

(** What the first preparation found out about an entry. *)
Definition entry_known (fl : ValidationFlags) (entry : nat * bytes) : Prop :=
  ∃ c h, fl !! entry.1 = Some c ∧ entry_header entry.2 = Ok h ∧
    (c = TxValidationCode_VALID → ∃ env chdr v, h = inr (env, chdr) ∧ process_entry procs validateKVFunc entry.2 env chdr true = Ok v).

Lemma preprocess_known fl0 data k fl txs stats st' :
  (∀ i, k ≤ i → fl !! i = fl0 !! i) →
  foldM (preprocess_tx procs validateKVFunc true) (fl, txs, stats) (imap (λ j b, (k + j, b)) data) = Ok st' →
  Forall (entry_known fl0) (imap (λ j b, (k + j, b)) data) ∧ length st'.2 = length stats + length data.
Proof.
  revert k fl txs stats. induction data as [|b data IH]; intros k fl txs stats Hfl E; cbn in E.
  { injection E as <-. split; [constructor|cbn; lia]. }
  destruct (preprocess_tx _ _ _ _ _) as [[[fl1 txs1] stats1]|?|?] eqn:E1; [|done..]. rewrite Nat.add_0_r in E1.
  pose proof (preprocess_tx_spec _ _ _ _ _ _ _ _ _ _ _ E1) as (c & Hc & -> & _ & Hs).
  assert (∀ d : list bytes, imap ((λ j b0, (k + j, b0)) ∘ S) d = imap (λ j b0, (S k + j, b0)) d) as Eim.
  { intros d. apply imap_ext. intros i x _. cbn. by rewrite Nat.add_succ_r. }
  cbn [imap]. rewrite Eim in *. apply IH in E as [HF Hlen]; [|intros i Hi; rewrite list_lookup_insert_ne by lia; apply Hfl; lia].
  split; [|cbn; lia]. constructor; [|done]. rewrite Nat.add_0_r. unfold entry_known. cbn [fst snd]. rewrite <- Hfl by done. exists c.
  unfold preprocess_tx in E1. apply bind_Ok in E1 as (h & Hh & E1). exists h. split_and!; [done..|]. intros ->.
  apply bind_Ok in E1 as (inv & (c' & Hc' & ->)%IsInvalid_Ok & E1). assert (c' = TxValidationCode_VALID) as -> by congruence.
  rewrite bool_decide_eq_true_2 in E1 by done. cbn [negb] in E1. destruct h as [e|[env chdr]]; [done|].
  apply bind_Ok in E1 as (v & Hv & _). by exists env, chdr, v.
Qed.

(** The flags a block is stored with: those of the transactions that were
    validated, and those preprocessing left. *)
Record stored_flags (fl fl2 : ValidationFlags) (entries : list (nat * bytes)) (txs : list transaction) : Prop := {
  sf_tx tx : tx ∈ txs → fl2 !! index_of tx = Some (u8 (validationCode tx)) ∧ (0 ≤ validationCode tx < 256)%Z;
  sf_other i b c : (i, b) ∈ entries → i ∉ index_of <$> txs → fl !! i = Some c → fl2 !! i = Some (new_flag procs validateKVFunc true c b)
}.

Lemma new_flag_valid c b :
  new_flag procs validateKVFunc true c b = TxValidationCode_VALID →
  c = TxValidationCode_VALID ∧ ∀ code stat, judged procs validateKVFunc true c b ≠ Some (Rejected code stat).
Proof.
  unfold new_flag. destruct (judged procs validateKVFunc true c b) as [[code stat|stat|rw po stat]|] eqn:Ej; try done.
  intros Hu. exfalso. unfold judged in Ej. case_bool_decide; [|done]. destruct (entry_header b) as [[|[env chdr]]| |]; try done.
  destruct (process_entry _ _ _ _ _ _) as [v| |] eqn:Ep; [|done..]. injection Ej as ->. by apply rejected_code in Ep.
Qed.

Definition is_valid (tx : transaction) : Prop := validationCode tx = TxValidationCode_VALID.
#[local] Instance is_valid_dec tx : Decision (is_valid tx) := decide (validationCode tx = TxValidationCode_VALID).

Lemma u8_valid c : (0 ≤ c < 256)%Z → u8 c = TxValidationCode_VALID ↔ c = TxValidationCode_VALID.
Proof. intros Hc. unfold u8. rewrite wrap_small by done. done. Qed.

Lemma validated_index fl entries txs i :
  i ∉ entries.*1 →
  Forall2 (λ tx tx', tx' = set_code tx (validationCode tx')) (omap (entry_tx procs validateKVFunc true fl) entries) txs →
  i ∉ index_of <$> txs.
Proof.
  intros Hni HF (tx' & Hix & Hin)%list_elem_of_fmap. apply list_elem_of_lookup in Hin as [j Hj].
  destruct (Forall2_lookup_r _ _ _ _ _ HF Hj) as (tx & Hj' & Etx). apply list_elem_of_lookup_2, list_elem_of_omap in Hj' as ([i' b'] & Hin & Et).
  apply entry_tx_index in Et as [Ei _]. apply Hni. apply list_elem_of_fmap. exists (i', b'). split; [|done]. cbn. by rewrite <- Ei, Hix, Etx.
Qed.

(** The transactions that are prepared again are the valid ones. *)
Lemma replayed_txs fl fl2 entries txs :
  processors_agree → NoDup entries.*1 → Forall (entry_known fl) entries →
  Forall2 (λ tx tx', tx' = set_code tx (validationCode tx')) (omap (entry_tx procs validateKVFunc true fl) entries) txs →
  stored_flags fl fl2 entries txs → omap (entry_tx procs validateKVFunc false fl2) entries = filter is_valid txs.
Proof.
  intros Ha. revert txs. induction entries as [|[i b] entries IH]; intros txs Hnd Hk HF Hsf.
  { cbn in HF. by apply Forall2_nil_inv_l in HF as ->. }
  apply NoDup_cons in Hnd as [Hni Hnd]. apply Forall_cons in Hk as [(c & h & Hc & Hh & Hv) Hk]. cbn [fst snd] in *.
  cbn [omap list_omap] in *.
  pose proof (λ txs', validated_index fl entries txs' i Hni) as Hi.
  destruct (entry_tx procs validateKVFunc true fl (i, b)) as [tx|] eqn:Et.
  - apply Forall2_cons_inv_l in HF as (tx' & txs' & Etx & HF & ->). destruct (entry_tx_index _ _ _ _ _ _ _ Et) as [Eix _].
    destruct (sf_tx _ _ _ _ Hsf tx') as [Hf Hr]; [by left|]. assert (index_of tx' = i) as Eix' by (by rewrite Etx, <- Eix).
    rewrite Eix' in Hf.
    assert (stored_flags fl fl2 entries txs') as Hsf'.
    { split; [intros ? ?; apply (sf_tx _ _ _ _ Hsf); by right|]. intros i' b' c' Hin Hni' Hc'.
      apply (sf_other _ _ _ _ Hsf); [by right| |done]. rewrite fmap_cons, not_elem_of_cons. split; [|done].
      rewrite Eix'. intros ->. apply Hni. apply list_elem_of_fmap. by exists (i, b'). }
    rewrite (IH txs' Hnd Hk HF Hsf'). unfold entry_tx in Et |- *. cbn [fst snd] in *. rewrite Hc in Et. rewrite Hf, judged_agree by done.
    rewrite filter_cons. destruct (decide (is_valid tx')) as [Hval|Hnv]; unfold is_valid in *.
    + rewrite Hval. change (u8 TxValidationCode_VALID) with TxValidationCode_VALID.
      assert (c = TxValidationCode_VALID) as -> by (unfold judged in Et; by case_bool_decide).
      destruct (judged procs validateKVFunc true TxValidationCode_VALID b) as [[|st|rw po st]|]; try done. f_equal.
      injection Et as Et. by rewrite Etx, <- Et, Hval.
    + unfold judged. rewrite bool_decide_eq_false_2; [done|]. by rewrite u8_valid.
  - assert (stored_flags fl fl2 entries txs) as Hsf'.
    { split; [apply Hsf|]. intros i' b' c' Hin. apply (sf_other _ _ _ _ Hsf). by right. }
    rewrite <- (IH txs Hnd Hk HF Hsf'). pose proof (sf_other _ _ _ _ Hsf i b c ltac:(by left) (Hi _ HF) Hc) as Hf.
    unfold entry_tx in Et |- *. cbn [fst snd] in *. rewrite Hc in Et. rewrite Hf, judged_agree by done.
    destruct (decide (new_flag procs validateKVFunc true c b = TxValidationCode_VALID)) as [Hnf|Hnf].
    + pose proof (new_flag_valid _ _ Hnf) as [-> Hnr]. rewrite Hnf. by destruct (judged procs validateKVFunc true TxValidationCode_VALID b) as [[]|].
    + unfold judged at 1. by rewrite bool_decide_eq_false_2.
Qed.

(** ** Validation *)
Lemma validate_replay db num st txs txs' st' :
  validate_txs hashFunc db num true st txs = Ok (txs', st') →
  Forall2 (λ tx tx', tx' = set_code tx (validationCode tx')) txs txs' ∧
  validate_txs hashFunc db num false st (filter is_valid txs') = Ok (filter is_valid txs', st').
Proof.
  revert st txs' st'. induction txs as [|tx txs IH]; intros st txs' st' E; cbn [validate_txs] in E; [by injection E as <- <-|].
  apply bind_Ok in E as ([tx1 st1] & E1 & E). apply bind_Ok in E as ([txs1 st2] & [HF E2]%IH & [= <- <-]).
  destruct st as [u p]. unfold validate_one in E1. apply bind_Ok in E1 as (code & _ & E1).
  destruct (code =? TxValidationCode_VALID)%Z eqn:Ec; [apply Z.eqb_eq in Ec as ->|apply Z.eqb_neq in Ec].
  - apply bind_Ok in E1 as (u' & Hu & [= <- <-]). split; [by constructor|]. rewrite filter_cons_True by done. cbn [validate_txs].
    unfold validate_one, validateEndorserTX. cbn [mbind outcome_bind]. rewrite Z.eqb_refl. cbn in Hu |- *. rewrite Hu. cbn. by rewrite E2.
  - injection E1 as <- <-. split; [by constructor|]. rewrite filter_cons_False by done. done.
Qed.

Lemma pvt_replay num pvtdata st txs : foldM (pvt_step num pvtdata) st (filter is_valid txs) = foldM (pvt_step num pvtdata) st txs.
Proof.
  revert st. induction txs as [|tx txs IH]; intros [u m]; [done|]. rewrite filter_cons. destruct (decide (is_valid tx)) as [Hv|Hv].
  - cbn [foldM]. destruct (pvt_step num pvtdata (u, m) tx); [apply IH|done..].
  - cbn [foldM]. unfold pvt_step at 2. rewrite bool_decide_eq_false_2 by done. cbn [negb]. apply IH.
Qed.

(** ** Preprocessing *)
Definition entry_again (fl : ValidationFlags) (entry : nat * bytes) : Prop :=
  ∃ c h, fl !! entry.1 = Some c ∧ entry_header entry.2 = Ok h ∧
    (c = TxValidationCode_VALID → ∃ env chdr v, h = inr (env, chdr) ∧ process_entry procs validateKVFunc entry.2 env chdr false = Ok v ∧
       ∀ code stat, v ≠ Rejected code stat).

Lemma preprocess_again fl entries txs stats :
  Forall (entry_again fl) entries →
  ∃ stats', foldM (preprocess_tx procs validateKVFunc false) (fl, txs, stats) entries =
      Ok (fl, txs ++ omap (entry_tx procs validateKVFunc false fl) entries, stats') ∧ length stats' = length stats + length entries.
Proof.
  intros HF. revert txs stats. induction HF as [|[i b] entries (c & h & Hc & Hh & Hv) _ IH]; intros txs stats.
  { exists stats. cbn. by rewrite app_nil_r, Nat.add_0_r. }
  cbn [fst snd] in *.
  assert (∃ stats1, preprocess_tx procs validateKVFunc false (fl, txs, stats) (i, b) =
    Ok (fl, txs ++ option_list (entry_tx procs validateKVFunc false fl (i, b)), stats1) ∧ length stats1 = S (length stats)) as (stats1 & E & El).
  { unfold preprocess_tx, entry_tx, judged. cbn [fst snd]. rewrite Hh, Hc. cbn [mbind outcome_bind].
    assert (IsInvalid fl i = Ok (negb (bool_decide (c = TxValidationCode_VALID)))) as -> by (apply IsInvalid_Ok; eauto).
    cbn [mbind outcome_bind]. case_bool_decide as Hval; cbn [negb].
    - destruct (Hv Hval) as (env & chdr & v & -> & Hp & Hnr). rewrite Hp. cbn [mbind outcome_bind].
      destruct v as [code stat|stat|rw po stat]; [by destruct (Hnr code stat)|..].
      + eexists. split; [cbn; by rewrite app_nil_r|]. rewrite length_app. cbn. lia.
      + eexists. split; [cbn; by rewrite (process_entry_txid _ _ _ _ _ _ _ _ _ Hp)|]. rewrite length_app. cbn. lia.
    - eexists. split; [cbn; by rewrite app_nil_r|]. rewrite length_app. cbn. lia. }
  cbn [foldM]. rewrite E. destruct (IH (txs ++ option_list (entry_tx procs validateKVFunc false fl (i, b))) stats1) as (stats' & -> & El').
  exists stats'. split; [|cbn; lia]. do 2 f_equal. cbn [omap list_omap]. rewrite <- (assoc_L (++)).
  by destruct (entry_tx procs validateKVFunc false fl (i, b)).
Qed.

Lemma entries_again fl fl2 entries txs :
  processors_agree → Forall (entry_known fl) entries →
  Forall2 (λ tx tx', tx' = set_code tx (validationCode tx')) (omap (entry_tx procs validateKVFunc true fl) entries) txs →
  NoDup entries.*1 → stored_flags fl fl2 entries txs → Forall (entry_again fl2) entries.
Proof.
  intros Ha Hk HF Hnd Hsf. apply Forall_forall. intros [i b] Hin. rewrite Forall_forall in Hk.
  destruct (Hk _ Hin) as (c & h & Hc & Hh & Hv). cbn [fst snd] in *.
  assert (∃ c2, fl2 !! i = Some c2 ∧ (c2 = TxValidationCode_VALID → c = TxValidationCode_VALID ∧
    ∀ code stat, judged procs validateKVFunc true c b ≠ Some (Rejected code stat))) as (c2 & Hc2 & Hval).
  { destruct (decide (i ∈ index_of <$> txs)) as [(tx' & -> & Htx)%list_elem_of_fmap|Hni].
    - destruct (sf_tx _ _ _ _ Hsf tx' Htx) as [Hf _]. exists (u8 (validationCode tx')). split; [done|]. intros _.
      apply list_elem_of_lookup in Htx as [j Hj]. destruct (Forall2_lookup_r _ _ _ _ _ HF Hj) as (tx & Hj' & Etx).
      apply list_elem_of_lookup_2, list_elem_of_omap in Hj' as ([i' b'] & Hin' & Et). pose proof (entry_tx_index _ _ _ _ _ _ _ Et) as [Eix _].
      assert ((i', b') = (index_of tx', b)) as [= -> ->].
      { assert (i' = index_of tx') as -> by (rewrite <- Eix; by rewrite Etx). apply list_elem_of_lookup in Hin as [m Hm], Hin' as [m' Hm'].
        assert (m = m') as <-; [|congruence]. eapply (NoDup_lookup entries.*1); [done|..]; rewrite list_lookup_fmap, ?Hm, ?Hm'; done. }
      unfold entry_tx in Et. cbn [fst snd] in Et. rewrite Hc in Et. destruct (judged procs validateKVFunc true c b) as [[]|] eqn:Ej; try done.
      split; [|done]. unfold judged in Ej. by case_bool_decide.
    - exists (new_flag procs validateKVFunc true c b). split; [by eapply sf_other|]. apply new_flag_valid. }
  exists c2, h. split_and!; [done..|]. intros Hc2v. destruct (Hval Hc2v) as [-> Hnr]. destruct (Hv eq_refl) as (env & chdr & v & -> & Hp).
  exists env, chdr, v. split_and!; [done|by rewrite process_entry_agree|]. intros code stat ->. apply (Hnr code stat).
  unfold judged. rewrite bool_decide_eq_true_2 by done. by rewrite Hh, Hp.
Qed.

(** ** Flags and statistics *)
Lemma set_valid_again fl txs :
  Forall (λ tx, fl !! index_of tx = Some TxValidationCode_VALID ∧ is_valid tx) txs →
  foldM (λ fl tx, set_flag fl (Z.to_nat (indexInBlock tx)) (validationCode tx)) fl txs = Ok fl.
Proof.
  induction 1 as [|tx txs [Hf Hv] _ IH]; [done|]. cbn [foldM]. rewrite Hv.
  assert (set_flag fl (Z.to_nat (indexInBlock tx)) TxValidationCode_VALID = Ok fl) as ->; [|done].
  apply set_flag_Ok. split; [by eapply lookup_lt_Some|]. by rewrite list_insert_id.
Qed.

Lemma set_stat_Ok stats fl i stats' : set_stat stats fl i = Ok stats' → i < length stats ∧ length stats' = length stats.
Proof.
  unfold set_stat, index. intros E. destruct (stats !! i) as [st|] eqn:Es; [|done]. apply bind_Ok in E as (? & _ & E).
  apply bind_Ok in E as (? & _ & [= <-]). split; [by eapply lookup_lt_Some|apply length_insert].
Qed.

Lemma set_stats_inv stats fl k n stats' :
  foldM (λ stats i, set_stat stats fl i) stats (seq k n) = Ok stats' → n = 0 ∨ k + n ≤ length stats.
Proof.
  revert k stats. induction n as [|n IH]; intros k stats E; [by left|]. right. cbn [seq foldM] in E.
  destruct (set_stat stats fl k) as [st1| |] eqn:E1; [|done..]. apply set_stat_Ok in E1 as [Hlt Hl]. apply IH in E as [->|?]; lia.
Qed.

Lemma set_stats_total stats fl k n :
  k + n ≤ length stats → k + n ≤ length fl → ∃ stats', foldM (λ stats i, set_stat stats fl i) stats (seq k n) = Ok stats'.
Proof.
  revert k stats. induction n as [|n IH]; intros k stats Hs Hf; [by exists stats|]. cbn [seq foldM].
  destruct (lookup_lt_is_Some_2 stats k) as [st Hst]; [lia|]. destruct (lookup_lt_is_Some_2 fl k) as [c Hc]; [lia|].
  unfold set_stat at 1. unfold index, Flag, index. rewrite Hst, Hc. cbn [mbind outcome_bind]. apply IH; [rewrite length_insert|]; lia.
Qed.

Lemma set_filter_twice blk fl fl' : set_filter (set_filter blk fl) fl' = set_filter blk fl'.
Proof. unfold set_filter. destruct (blk_Metadata blk) as [md|] eqn:E; [|by rewrite E]. cbn. unfold set_Metadata. cbn. by rewrite list_insert_insert_eq. Qed.
Lemma set_filter_fields blk fl : blk_Number (set_filter blk fl) = blk_Number blk ∧ blk_Data (set_filter blk fl) = blk_Data blk.
Proof. unfold set_filter. by destruct (blk_Metadata blk). Qed.

(** *** The pieces of a preparation *)
Lemma preprocess_range mv fl txs stats entries fl' txs' stats' :
  byte_flags fl → foldM (preprocess_tx procs validateKVFunc mv) (fl, txs, stats) entries = Ok (fl', txs', stats') → byte_flags fl'.
Proof.
  intros Hfl E. refine (foldM_inv (λ st, byte_flags st.1.1) _ _ _ _ _ _ E); [|done].
  intros [i b] [[f t] s] [[f' t'] s'] _ Hf Ep. apply preprocess_tx_spec in Ep as (c & Hc & -> & _ & _).
  apply Forall_insert; [done|]. unfold new_flag. cbn in Hf.
  destruct (judged _ _ _ _ _) as [[]|]; [apply u8_range|..]; by eapply (Forall_lookup_1 _ _ _ _ Hf).
Qed.

Lemma prepare_pieces db blk pvtdata mv batch purges stats blk' db' :
  ValidateAndPrepareBatch procs validateKVFunc hashFunc db blk pvtdata mv = Ok (batch, purges, stats, blk', db') ↔
  ∃ num fl data fl1 txs stats1 db1 txs' u ps pvt fl2,
    blk_Number blk = Some num ∧ get_filter blk = Ok fl ∧ blk_Data blk = Some data ∧
    foldM (preprocess_tx procs validateKVFunc mv) (fl, [], []) (imap pair data) = Ok (fl1, txs, stats1) ∧
    (if IsBulkOptimizable then preLoadCommittedVersionOfRSet db (mkBlock' num txs) else Ok db) = Ok db1 ∧
    validate_txs hashFunc db1 num mv (newPubAndHashUpdates, ∅) txs = Ok (txs', (u, ps)) ∧
    validateAndPreparePvtBatch (mkBlock' num txs') db1 u pvtdata = Ok pvt ∧
    get_filter (set_filter blk fl1) = Ok fl1 ∧
    foldM (λ fl tx, set_flag fl (Z.to_nat (indexInBlock tx)) (validationCode tx)) fl1 txs' = Ok fl2 ∧
    foldM (λ stats i, set_stat stats fl2 i) stats1 (seq 0 (length fl2)) = Ok stats ∧
    batch = mkPvtUpdateBatch (publicUpdates u) (hashUpdates u) pvt ∧ purges = purge_getUpdates ps ∧ blk' = set_filter blk fl2 ∧
    get_filter (set_filter blk fl2) = Ok fl2 ∧ db' = db1.
Proof.
  unfold ValidateAndPrepareBatch, preprocessProtoBlock, validateAndPrepareBatch, postprocessProtoBlock. split.
  - intros E. apply bind_Ok in E as ([[blk1 iblk] stats1] & E1 & E). apply bind_Ok in E1 as (num & Hnum%deref_Ok & E1).
    apply bind_Ok in E1 as (fl & Hfl & E1). apply bind_Ok in E1 as (data & Hdata%deref_Ok & E1).
    apply bind_Ok in E1 as ([[fl1 txs] st1] & Ef & [= <- <- <-]). apply bind_Ok in E as ([[[ib u] pu] db1] & E2 & E).
    apply bind_Ok in E2 as (db2 & Hdb & E2). apply bind_Ok in E2 as ([txs' [u' ps]] & Hv & [= <- <- <- <-]). cbn [b_num b_txs] in *.
    apply bind_Ok in E as (pvt & Hp & E). pose proof (preprocess_range _ _ _ _ _ _ _ _ (get_filter_range _ _ Hfl) Ef) as Hr1.
    pose proof (get_set_filter _ _ _ Hfl Hr1) as Hg1. apply bind_Ok in E as (blk2 & E3 & E). apply bind_Ok in E3 as (fl1' & Hg1' & E3).
    rewrite Hg1 in Hg1'. injection Hg1' as <-. apply bind_Ok in E3 as (fl2 & Hpost & [= <-]). rewrite set_filter_twice in E.
    assert (byte_flags fl2) as Hr2.
    { eapply foldM_inv; [|exact Hr1|exact Hpost]. intros tx f f' _. apply set_flag_range. }
    pose proof (get_set_filter _ _ _ Hfl Hr2) as Hg2. apply bind_Ok in E as (fl2' & Hg2' & E). rewrite Hg2 in Hg2'. injection Hg2' as <-.
    apply bind_Ok in E as (st2 & Hst & [= <- <- <- <- <-]). by exists num, fl, data, fl1, txs, st1, db2, txs', u', ps, pvt, fl2.
  - intros (num & fl & data & fl1 & txs & st1 & db1 & txs' & u & ps & pvt & fl2 & Hnum & Hfl & Hdata & Ef & Hdb & Hv & Hp & Hg1 & Hpost & Hst &
      -> & -> & -> & Hg2 & ->).
    rewrite Hnum, Hfl, Hdata. cbn [deref mbind outcome_bind]. rewrite Ef. cbn [mbind outcome_bind]. rewrite Hdb. cbn [mbind outcome_bind b_num b_txs].
    rewrite Hv. cbn [mbind outcome_bind]. rewrite Hp. cbn [mbind outcome_bind b_txs]. rewrite Hg1. cbn [mbind outcome_bind]. rewrite Hpost.
    cbn [mbind outcome_bind]. rewrite set_filter_twice, Hg2. cbn [mbind outcome_bind]. by rewrite Hst.
Qed.

(** *** Preparing again *)
Lemma entries_NoDup (data : list bytes) : NoDup (imap pair data).*1.
Proof.
  rewrite fmap_imap. apply NoDup_alt. intros i j x. rewrite !list_lookup_imap. intros Hi Hj.
  destruct (data !! i), (data !! j); try done. cbn in *. congruence.
Qed.

(** A block that was prepared with validation, prepared again as it was stored
    and without validation: the same updates of the public, hashed and private
    state, the same purges, and the same block. *)
Theorem replay_same_batch (db db' : DB) (blk blk' : Block) (pvtdata : gmap Z TxPvtData) (batch : PvtUpdateBatch)
    (purges : list (compositeKey * option Height)) (stats : list TxStatInfo) :
  processors_agree → IsBulkOptimizable = false →
  ValidateAndPrepareBatch procs validateKVFunc hashFunc db blk pvtdata true = Ok (batch, purges, stats, blk', db') →
  ∃ stats', ValidateAndPrepareBatch procs validateKVFunc hashFunc db blk' pvtdata false = Ok (batch, purges, stats', blk', db').
Proof.
  intros Ha Hbulk (num & fl & data & fl1 & txs & st1 & db1 & txs' & u & ps & pvt & fl2 & Hnum & Hfl & Hdata & Ef & Hdb & Hv & Hp & Hg1 &
    Hpost & Hst & -> & -> & -> & Hg2 & ->)%prepare_pieces.
  rewrite Hbulk in Hdb. injection Hdb as <-.
  destruct (preprocess_known fl data 0 fl [] [] _ ltac:(done) Ef) as [Hk Hlen]. cbn [fst snd length Nat.add] in Hlen.
  destruct (preprocess_loop procs validateKVFunc true fl data 0 _ _ _ _ _ _ ltac:(done) Ef) as (Hl1 & _ & Hd1 & _ & Etxs).
  cbn [app] in Etxs. change (λ j b, (0 + j, b)) with (@pair nat bytes) in Hk, Etxs.
  destruct (validate_replay _ _ _ _ _ _ Hv) as [HF Hv2]. pose proof (validate_txs_codes _ _ _ _ _ _ _ Hv) as Hcodes.
  set (entries := imap pair data) in *. rewrite Etxs in HF.
  assert (NoDup entries.*1) as Hnd by (subst entries; apply entries_NoDup).
  assert (NoDup (index_of <$> txs')) as Hndx.
  { assert (index_of <$> txs' = index_of <$> omap (entry_tx procs validateKVFunc true fl) entries) as ->; [|apply (entry_txs_NoDup _ _ _ _ 0)].
    clear -HF. induction HF as [|tx tx' l l' -> _ IH]; [done|]. rewrite !fmap_cons, IH. done. }
  destruct (post_loop _ _ _ Hndx Hpost) as (Hl2 & Hin2 & Hout2).
  assert (stored_flags fl fl2 entries txs') as Hsf.
  { split; [intros tx Htx; split; [by apply Hin2|]; rewrite Forall_forall in Hcodes; exact (Hcodes tx Htx)|].
    intros i b c Hin Hni Hc. rewrite Hout2 by done. apply elem_of_lookup_imap in Hin as (j & b' & [= -> ->] & Hj).
    destruct (Hd1 j b' Hj) as (c' & Hc' & Hf'). cbn in Hc', Hf'. congruence. }
  pose proof (entries_again _ _ _ _ Ha Hk HF Hnd Hsf) as Hagain. destruct (preprocess_again fl2 entries [] [] Hagain) as (st2 & Ef2 & Hlen2).
  rewrite (replayed_txs _ _ _ _ Ha Hnd Hk HF Hsf) in Ef2. cbn [app length] in Ef2, Hlen2.
  assert (length entries = length data) as Hle by (subst entries; apply length_imap).
  destruct (set_stats_total st2 fl2 0 (length fl2)) as [st3 Hst3]; [|lia|].
  { apply set_stats_inv in Hst as [->|?]; lia. }
  exists st3. apply prepare_pieces. destruct (set_filter_fields blk fl2) as [Hn2 Hd2].
  exists num, fl2, data, fl2, (filter is_valid txs'), st2, db, (filter is_valid txs'), u, ps, pvt, fl2.
  rewrite Hn2, Hd2, Hbulk, !set_filter_twice. split_and!; try done.
  - unfold validateAndPreparePvtBatch in *. cbn [b_num b_txs] in *. by rewrite pvt_replay.
  - apply set_valid_again, Forall_forall. intros tx [Hval Htx]%list_elem_of_filter. split; [|done]. rewrite (Hin2 tx Htx). by rewrite Hval.
Qed.
End replay.

(** The small block of [BatchPreparer], stored and prepared again. *)
#[local] Existing Instance entry_decoder.
#[local] Existing Instance action_decoder.
#[local] Existing Instance no_post_order.
#[local] Existing Instance mem_db.
#[local] Existing Instance mem_bk.
#[local] Existing Instance toy_hashing.
#[local] Existing Instance toy_rw_codec.
#[local] Existing Instance list_key_order.

Lemma toy_block_prepared :
  ValidateAndPrepareBatch ∅ any_kv Ok toy_db toy_blk ∅ true
  = Ok (toy_prepared.1.1.1.1, [], toy_prepared.1.1.2, toy_prepared.1.2, toy_db).
Proof.
  vm_cast_no_check (eq_refl (Ok (toy_prepared.1.1.1.1, [] : list (compositeKey * option Height), toy_prepared.1.1.2, toy_prepared.1.2, toy_db))).
Qed.

Lemma replay_same_batch_witness :
  get_filter toy_prepared.1.2 = Ok [TxValidationCode_VALID; TxValidationCode_MVCC_READ_CONFLICT;
    TxValidationCode_INVALID_OTHER_REASON; TxValidationCode_ENDORSEMENT_POLICY_FAILURE]%Z ∧
  ∃ stats', ValidateAndPrepareBatch ∅ any_kv Ok toy_db toy_prepared.1.2 ∅ false
    = Ok (toy_prepared.1.1.1.1, [], stats', toy_prepared.1.2, toy_db).
Proof.
  split; [vm_compute; reflexivity|].
  refine (replay_same_batch ∅ any_kv Ok toy_db toy_db toy_blk toy_prepared.1.2 ∅ toy_prepared.1.1.1.1 [] toy_prepared.1.1.2 _ eq_refl toy_block_prepared).
  by intros [].
Defined.
