(* ===== verification/PurgeMgr.v ===== *)
(** * PurgeMgr: private data expire
      (core/ledger/pvtdatapolicy/btlpolicy.go,
      core/ledger/kvledger/txmgmt/pvtstatepurgemgmt/expiry_schedule_builder.go,
      expiry_keeper.go, pvtdata_key_helper.go, purge_mgr.go,
      core/ledger/kvledger/txmgmt/txmgr/lockbased_txmgr.go)

    A collection may limit how many blocks its data live. Committing a block
    records when what it writes expires, and deletes what expires with it: the
    key hash, and the private key if the peer has it. *)

From S2P Require Import Prelude GoText Protos TxFlags Proposal ProtoUtil Height StateDb PvtState RwSetUtil RangeQuery TxOps Mvcc BatchPreparer.

Definition MaxUint64 : Z := 2 ^ 64 - 1.

(** ** btlpolicy.go *)
Section btl.
(** [CollectionInfo] of the collections' provider: the block-to-live of the
    collection's configuration, [None] if there is no such collection. *)
Context (CollectionInfo : string → string → outcome (option Z)).

Definition defaultBTL : Z := MaxUint64.

(** The answer, and the cache. *)
Definition GetBTL (cache : gmap (string * string) Z) (namespace collection : string) : outcome Z * gmap (string * string) Z :=
  match cache !! (namespace, collection) with
  | Some btl => (Ok btl, cache)
  | None =>
      match CollectionInfo namespace collection with
      | Ok (Some btlConfigured) =>
          let btl := if (0 <? btlConfigured)%Z then btlConfigured else defaultBTL in
          (Ok btl, <[(namespace, collection) := btl]> cache)
      | Ok None => (Err "no such collection", cache)
      | Err e => (Err e, cache)
      | Panic e => (Panic e, cache)
      end
  end.

Definition ComputeExpiringBlock (committingBlock btl : Z) : Z :=
  let expiryBlk := u64 (committingBlock + btl + 1) in
  if (expiryBlk <=? committingBlock)%Z then MaxUint64 else expiryBlk.

Definition policy_GetExpiringBlock (cache : gmap (string * string) Z) (namespace collection : string) (committingBlock : Z)
    : outcome Z * gmap (string * string) Z :=
  let '(btl, cache) := GetBTL cache namespace collection in
  (btl ← btl; Ok (ComputeExpiringBlock committingBlock btl), cache).
End btl.

(** The policy as its users see it: what is cached does not show. *)
Class BTLPolicy := { GetExpiringBlock : string → string → Z → outcome Z }.

(** ** pvtdata_key_helper.go *)
Record KeyAndHash := mkKeyAndHash { kh_Key : string; kh_Hash : bytes }.

(** [PvtdataKeys]: by namespace and collection, [None] for a nil map. The
    collections of a namespace are never empty. *)
Notation PvtdataKeys := (option (gmap string (gmap string (list KeyAndHash)))).

Definition newPvtdataKeys : PvtdataKeys := Some ∅.

Definition keys_add (pvtdataKeys : PvtdataKeys) (ns coll key : string) (keyhash : bytes) : outcome PvtdataKeys :=
  match pvtdataKeys with
  | None => Panic "assignment to entry in nil map"
  | Some m =>
      let colls := default ∅ (m !! ns) in
      let keysAndHashes := default [] (colls !! coll) in
      Ok (Some (<[ns := <[coll := keysAndHashes ++ [mkKeyAndHash key keyhash]]> colls]> m))
  end.

(** What the three nested loops over the keys visit. *)
Definition keys_entries `{MapOrder} (pvtdataKeys : PvtdataKeys) : list (string * string * KeyAndHash) :=
  let m := default ∅ pvtdataKeys in
  ns ← map_range ["PvtdataKeys"] 0 m;
  let colls := default ∅ (m !! ns) in
  coll ← map_range ["PvtdataKeys"; ns] 0 colls;
  (λ kh, (ns, coll, kh)) <$> default [] (colls !! coll).

Definition keys_addAll `{MapOrder} (pvtdataKeys toAdd : PvtdataKeys) : outcome PvtdataKeys :=
  foldM (λ pk '(ns, coll, kh), keys_add pk ns coll (kh_Key kh) (kh_Hash kh)) pvtdataKeys (keys_entries toAdd).

(** ** expiry_keeper.go *)
Record expiryInfoKey := mkExpiryInfoKey { committingBlk : Z; expiryBlk : Z }.
#[export] Instance expiryInfoKey_eq_dec : EqDecision expiryInfoKey.
Proof. solve_decision. Defined.
#[export] Instance expiryInfoKey_countable : Countable expiryInfoKey.
Proof.
  apply (inj_countable' (λ k, (committingBlk k, expiryBlk k)) (λ p, mkExpiryInfoKey p.1 p.2)). by intros [].
Defined.

Record expiryInfo := mkExpiryInfo { ei_key : expiryInfoKey; ei_pvtdataKeys : PvtdataKeys }.

(** The order of a loop over a schedule. *)
Class ScheduleOrder := {
  schedule_range {V} : gmap expiryInfoKey V → list expiryInfoKey;
  schedule_range_ok {V} (m : gmap expiryInfoKey V) : schedule_range m ≡ₚ (map_to_list m).*1
}.

Class ExpiryCodec := {
  marshal_PvtdataKeys : PvtdataKeys → outcome bytes;
  unmarshal_PvtdataKeys : bytes → option PvtdataKeys
}.

(** The keeper's database, by the bytes of the keys. *)
Notation expiryKeeper := (gmap (list Z) bytes).

Definition expiryPrefix : Z := 49.

Definition encodeExpiryInfoKey (k : expiryInfoKey) : list Z :=
  expiryPrefix :: EncodeOrderPreservingVarUint64 (expiryBlk k) ++ EncodeOrderPreservingVarUint64 (committingBlk k).

Definition bytes_le (a b : list Z) : Prop := bytes_compare a b ≠ Gt.
#[export] Instance bytes_le_dec a b : Decision (bytes_le a b).
Proof. unfold bytes_le. apply _. Defined.

(** The keys an iterator from [startKey] to [endKey] goes through. *)
Definition iterator_keys {V} (db : gmap (list Z) V) (startKey endKey : list Z) : list (list Z) :=
  filter (λ k, bytes_le startKey k ∧ bytes_compare k endKey = Lt) (merge_sort bytes_le (map_to_list db).*1).

Section keeper.
Context `{ExpiryCodec}.

(** One atomic write: what is tracked, then what is cleared. *)
Definition keeper_update (ek : expiryKeeper) (toTrack : list expiryInfo) (toClear : list expiryInfoKey) : outcome expiryKeeper :=
  ek ← foldM (λ ek expinfo,
         v ← marshal_PvtdataKeys (ei_pvtdataKeys expinfo);
         Ok (<[encodeExpiryInfoKey (ei_key expinfo) := v]> ek)) ek toTrack;
  Ok (foldl (λ ek k, delete (encodeExpiryInfoKey k) ek) ek toClear).

Definition decodeExpiryInfo (key : list Z) (value : bytes) : outcome expiryInfo :=
  '(expiryBlk, n) ← DecodeOrderPreservingVarUint64 (drop 1 key);
  '(committingBlk, _) ← DecodeOrderPreservingVarUint64 (drop (n + 1) key);
  pvtdataKeys ← from_option_err "unmarshal" (unmarshal_PvtdataKeys value);
  Ok (mkExpiryInfo (mkExpiryInfoKey committingBlk expiryBlk) pvtdataKeys).

Definition keeper_retrieve (ek : expiryKeeper) (expiringAtBlkNum : Z) : outcome (list expiryInfo) :=
  let startKey := encodeExpiryInfoKey (mkExpiryInfoKey 0 expiringAtBlkNum) in
  let endKey := encodeExpiryInfoKey (mkExpiryInfoKey 0 (u64 (expiringAtBlkNum + 1))) in
  foldM (λ l k, expinfo ← decodeExpiryInfo k (default "" (ek !! k)); Ok (l ++ [expinfo])) []
    (iterator_keys ek startKey endKey).

Definition retrieveByExpiryKey (ek : expiryKeeper) (expiryKey : expiryInfoKey) : outcome expiryInfo :=
  let key := encodeExpiryInfoKey expiryKey in
  decodeExpiryInfo key (default "" (ek !! key)).
End keeper.

Section purge.
Context `{Codec} `{MapOrder} `{KeyOrder} `{ScheduleOrder} `{ExpiryCodec} `{BTLPolicy} `{Hashing} `{VersionedDB} `{Bookkeeper}.

(** ** expiry_schedule_builder.go *)
Notation schedule := (gmap expiryInfoKey PvtdataKeys).

Definition neverExpires (expiryBlk : Z) : bool := (expiryBlk =? MaxUint64)%Z.

Definition builder_add (entries : schedule) (ns coll key : string) (keyHash : bytes) (vv : VersionedValue) : outcome schedule :=
  ver ← deref (vv_Version vv);
  expiryBlk ← GetExpiringBlock ns coll (BlockNum ver);
  if IsDelete vv || neverExpires expiryBlk then Ok entries
  else
    let k := mkExpiryInfoKey (BlockNum ver) expiryBlk in
    pvtdataKeys ← keys_add (default newPvtdataKeys (entries !! k)) ns coll key keyHash;
    Ok (<[k := pvtdataKeys]> entries).

Definition getExpiryInfo (entries : schedule) : list expiryInfo :=
  omap (λ k, mkExpiryInfo k <$> entries !! k) (schedule_range entries).

(** One private update: its hash need not be added again. *)
Definition add_pvt_update (pvtKeys : gmap compositeKey VersionedValue) (st : schedule * gmap compositeKey VersionedValue)
    (ck : compositeKey) : outcome (schedule * gmap compositeKey VersionedValue) :=
  let '(entries, hashedUpdateKeys) := st in
  match pvtKeys !! ck with
  | None => Ok st
  | Some vv =>
      let '(ns, coll, key) := ck in
      let keyHash := ComputeStringHash key in
      entries ← builder_add entries ns coll key keyHash vv;
      Ok (entries, delete (ns, coll, keyHash) hashedUpdateKeys)
  end.

Definition add_hash_update (hashedKeys : gmap compositeKey VersionedValue) (entries : schedule) (ck : compositeKey)
    : outcome schedule :=
  match hashedKeys !! ck with
  | None => Ok entries
  | Some vv => let '(ns, coll, keyHash) := ck in builder_add entries ns coll "" keyHash vv
  end.

Definition buildExpirySchedule (pvtUpdates hashedUpdates : UpdateMap) : outcome (list expiryInfo) :=
  let hashedUpdateKeys := ToCompositeKeyMap hashedUpdates in
  let pvtKeys := ToCompositeKeyMap pvtUpdates in
  '(entries, leftover) ← foldM (add_pvt_update pvtKeys) (∅, hashedUpdateKeys) (key_range ["pvtUpdates"] 0 pvtKeys);
  entries ← foldM (add_hash_update leftover) entries (key_range ["hashedUpdates"] 0 leftover);
  Ok (getExpiryInfo entries).

(** ** purge_mgr.go *)
Record keyAndVersion := mkKeyAndVersion { kav_key : string; kav_committingBlock : Z; kav_purgeKeyOnly : bool }.

Record workingset := mkWorkingset {
  ws_toPurge : gmap compositeKey keyAndVersion;
  ws_toClearFromSchedule : list expiryInfoKey;
  ws_expiringBlk : Z;
  ws_err : option string
}.

Record PurgeMgr := mkPurgeMgr { pm_expKeeper : expiryKeeper; pm_workingset : option workingset }.

Definition transformToExpiryInfoMap (expiryInfo : list expiryInfo) : gmap compositeKey keyAndVersion :=
  foldl (λ m expinfo,
    foldl (λ m '(ns, coll, kh),
        <[(ns, coll, kh_Hash kh) := mkKeyAndVersion (kh_Key kh) (committingBlk (ei_key expinfo)) false]> m)
      m (keys_entries (ei_pvtdataKeys expinfo))) ∅ expiryInfo.

Definition sameVersion (version : option Height) (blockNum : Z) : bool :=
  match version with Some h => (BlockNum h =? blockNum)%Z | None => false end.

Definition sameVersionFromVal (vv : option VersionedValue) (blockNum : Z) : bool :=
  match vv with Some vv => sameVersion (vv_Version vv) blockNum | None => false end.

Definition preloadCommittedVersionsInCache (db : DB) (expInfoMap : gmap compositeKey keyAndVersion) : outcome DB :=
  if negb IsBulkOptimizable then Ok db
  else LoadCommittedVersionsOfPubAndHashedKeys db [] (key_range ["preload"] 0 expInfoMap).

(** One entry that expires: purged, purged from the private state only, or
    kept because it was overwritten. *)
Definition evaluate_entry (db : DB) (toPurge : gmap compositeKey keyAndVersion) (ck : compositeKey)
    : outcome (gmap compositeKey keyAndVersion) :=
  match toPurge !! ck with
  | None => Ok toPurge
  | Some v =>
      let '(ns, coll, keyHash) := ck in
      currentVersion ← GetKeyHashVersion db ns coll keyHash;
      if sameVersion currentVersion (kav_committingBlock v) then Ok toPurge
      else if bool_decide (kav_key v = "") then Ok (delete ck toPurge)
      else
        committedPvtVerVal ← GetPrivateData db ns coll (kav_key v);
        if sameVersionFromVal committedPvtVerVal (kav_committingBlock v)
        then Ok (<[ck := mkKeyAndVersion (kav_key v) (kav_committingBlock v) true]> toPurge)
        else Ok (delete ck toPurge)
  end.

(** The working set, and the database with what it loaded. *)
Definition prepareWorkingsetFor (ek : expiryKeeper) (db : DB) (expiringAtBlk : Z) : outcome (workingset * DB) :=
  let failed e := mkWorkingset ∅ [] expiringAtBlk (Some e) in
  match keeper_retrieve ek expiringAtBlk with
  | Panic e => Panic e
  | Err e => Ok (failed e, db)
  | Ok expiryInfo =>
      let toPurge := transformToExpiryInfoMap expiryInfo in
      match preloadCommittedVersionsInCache db toPurge with
      | Panic e => Panic e
      | Err e => Ok (failed e, db)
      | Ok db =>
          let order := key_range ["toPurge"] 0 toPurge in
          match foldM (evaluate_entry db) toPurge order with
          | Panic e => Panic e
          | Err e => Ok (failed e, db)
          | Ok toPurge' =>
              let toClear := omap (λ ck, (λ v, mkExpiryInfoKey (kav_committingBlock v) expiringAtBlk) <$> toPurge !! ck) order in
              Ok (mkWorkingset toPurge' toClear expiringAtBlk None, db)
          end
      end
  end.

Definition PrepareForExpiringKeys (p : PurgeMgr) (db : DB) (expiringAtBlk : Z) : outcome (PurgeMgr * DB) :=
  '(ws, db) ← prepareWorkingsetFor (pm_expKeeper p) db expiringAtBlk;
  Ok (mkPurgeMgr (pm_expKeeper p) (Some ws), db).

Definition add_missing (toPurge : gmap compositeKey keyAndVersion) (k : compositeKey) : gmap compositeKey keyAndVersion :=
  let '(ns, coll, key) := k in
  let ck := (ns, coll, ComputeStringHash key) in
  match toPurge !! ck with
  | None => toPurge
  | Some v =>
      if kav_purgeKeyOnly v then delete ck toPurge
      else <[ck := mkKeyAndVersion key (kav_committingBlock v) false]> toPurge
  end.

Definition addMissingPvtDataToWorkingSet (p : PurgeMgr) (pvtKeys : gmap compositeKey VersionedValue) : PurgeMgr :=
  match pm_workingset p with
  | None => p
  | Some ws =>
      let toPurge := foldl add_missing (ws_toPurge ws) (key_range ["missing"] 0 pvtKeys) in
      mkPurgeMgr (pm_expKeeper p) (Some (mkWorkingset toPurge (ws_toClearFromSchedule ws) (ws_expiringBlk ws) (ws_err ws)))
  end.

Definition UpdateExpiryInfoOfPvtDataOfOldBlocks (p : PurgeMgr) (pvtUpdates : UpdateMap) : outcome PurgeMgr :=
  let pvtKeys := ToCompositeKeyMap pvtUpdates in
  entries ← foldM (λ entries ck,
      match pvtKeys !! ck with
      | None => Ok entries
      | Some vv => let '(ns, coll, key) := ck in builder_add entries ns coll key (ComputeStringHash key) vv
      end) ∅ (key_range ["oldBlocks"] 0 pvtKeys);
  updates ← foldM (λ l toAdd,
      toUpdate ← retrieveByExpiryKey (pm_expKeeper p) (ei_key toAdd);
      pk ← keys_addAll (ei_pvtdataKeys toUpdate) (ei_pvtdataKeys toAdd);
      Ok (l ++ [mkExpiryInfo (ei_key toUpdate) pk])) [] (getExpiryInfo entries);
  let p := addMissingPvtDataToWorkingSet p pvtKeys in
  ek ← keeper_update (pm_expKeeper p) updates [];
  Ok (mkPurgeMgr ek (pm_workingset p)).

Definition UpdateExpiryInfo (p : PurgeMgr) (pvtUpdates hashedUpdates : UpdateMap) : outcome PurgeMgr :=
  expiryInfoUpdates ← buildExpirySchedule pvtUpdates hashedUpdates;
  ek ← keeper_update (pm_expKeeper p) expiryInfoUpdates [];
  Ok (mkPurgeMgr ek (pm_workingset p)).

(** One key selected for purging, unless the block updates it. *)
Definition add_expired (ws : workingset) (st : UpdateMap * UpdateMap) (ck : compositeKey) : UpdateMap * UpdateMap :=
  let '(pvtUpdates, hashedUpdates) := st in
  match ws_toPurge ws !! ck with
  | None => st
  | Some v =>
      let '(ns, coll, keyHash) := ck in
      let hashUpdated := um_Contains hashedUpdates ns coll keyHash in
      let pvtKeyUpdated := um_Contains pvtUpdates ns coll (kav_key v) in
      let expiringTxVersion := Some (mkHeight (ws_expiringBlk ws) MaxUint64) in
      (if bool_decide (kav_key v ≠ "") && negb pvtKeyUpdated
       then um_Delete pvtUpdates ns coll (kav_key v) expiringTxVersion else pvtUpdates,
       if negb hashUpdated && negb (kav_purgeKeyOnly v)
       then um_Delete hashedUpdates ns coll keyHash expiringTxVersion else hashedUpdates)
  end.

Definition AddExpiredEntriesToUpdateBatch (p : PurgeMgr) (pvtUpdates hashedUpdates : UpdateMap) : outcome (UpdateMap * UpdateMap) :=
  ws ← deref (pm_workingset p);
  match ws_err ws with
  | Some e => Err e
  | None => Ok (foldl (add_expired ws) (pvtUpdates, hashedUpdates) (key_range ["expired"] 0 (ws_toPurge ws)))
  end.

Definition BlockCommitDone (p : PurgeMgr) : outcome PurgeMgr :=
  ws ← deref (pm_workingset p);
  ek ← keeper_update (pm_expKeeper p) [] (ws_toClearFromSchedule ws);
  Ok (mkPurgeMgr ek None).

(** ** lockbased_txmgr.go *)
Record LockBasedTxMgr := mkLockBasedTxMgr { tm_db : DB; tm_purgeMgr : PurgeMgr; tm_usedOnce : bool }.

(** A transaction manager when the peer starts. *)
Definition NewLockBasedTxMgr (db : DB) (ek : expiryKeeper) : LockBasedTxMgr := mkLockBasedTxMgr db (mkPurgeMgr ek None) false.

(** What [Commit] does up to the update of the state database. *)
Definition commit_updates (t : LockBasedTxMgr) (batch : PvtUpdateBatch) (blockNum maxTxNumber : Z) : outcome (PurgeMgr * DB) :=
  '(p, db) ← (if tm_usedOnce t then Ok (tm_purgeMgr t, tm_db t)
              else PrepareForExpiringKeys (tm_purgeMgr t) (tm_db t) blockNum);
  p ← UpdateExpiryInfo p (PvtUpdates batch) (HashUpdates batch);
  '(pvt, hashed) ← AddExpiredEntriesToUpdateBatch p (PvtUpdates batch) (HashUpdates batch);
  let '(db, r) := ApplyPrivacyAwareUpdates db (mkPvtUpdateBatch (PubUpdates batch) hashed pvt)
                    (Some (mkHeight blockNum maxTxNumber)) in
  _ ← r;
  Ok (p, db).

(** [Commit] of the prepared updates of block [blockNum]; the next block's
    working set is prepared at the end. State listeners are left out. *)
Definition txmgr_Commit (t : LockBasedTxMgr) (batch : PvtUpdateBatch) (blockNum maxTxNumber : Z) : outcome LockBasedTxMgr :=
  '(p, db) ← commit_updates t batch blockNum maxTxNumber;
  p ← BlockCommitDone p;
  '(p, db) ← PrepareForExpiringKeys p db (u64 (blockNum + 1));
  Ok (mkLockBasedTxMgr db p true).

(** *** Private data of old blocks *)
Record PvtKVWrite := mkPvtKVWrite { pw_Key : string; pw_IsDelete : bool; pw_Value : option bytes; pw_Version : option Height }.
Notation uniquePvtDataMap := (gmap compositeKey PvtKVWrite).

Definition updateUsingPvtWrite (uniquePvtData : uniquePvtDataMap) (pvtWrite : KVWrite) (ck : compositeKey) (ver : Height)
    : outcome uniquePvtDataMap :=
  newer ← match uniquePvtData !! ck with
          | None => Ok true
          | Some pvtData => v ← deref (pw_Version pvtData); Ok (Compare v ver <? 0)%Z
          end;
  Ok (if newer : bool
      then <[ck := mkPvtKVWrite (kvw_Key pvtWrite) (IsKVWriteDelete pvtWrite) (kvw_Value pvtWrite) (Some ver)]> uniquePvtData
      else uniquePvtData).

Definition updateUsingCollPvtData (uniquePvtData : uniquePvtDataMap) (collPvtData : CollectionPvtReadWriteSet) (ns : string)
    (ver : Height) : outcome uniquePvtDataMap :=
  kvRWSet ← from_option_err "unmarshal" (unmarshal_KVRWSet (cpw_Rwset collPvtData));
  foldM (λ u kvWrite, updateUsingPvtWrite u kvWrite (ns, cpw_CollectionName collPvtData, ComputeStringHash (kvw_Key kvWrite)) ver)
    uniquePvtData (kv_Writes kvRWSet).

Definition updateUsingNsPvtData (uniquePvtData : uniquePvtDataMap) (nsPvtData : NsPvtReadWriteSet) (ver : Height)
    : outcome uniquePvtDataMap :=
  foldM (λ u c, updateUsingCollPvtData u c (npw_Namespace nsPvtData) ver) uniquePvtData (npw_CollectionPvtRwset nsPvtData).

Definition updateUsingTxPvtData (uniquePvtData : uniquePvtDataMap) (txPvtData : TxPvtData) (ver : Height) : outcome uniquePvtDataMap :=
  ws ← deref (pvd_WriteSet txPvtData);
  foldM (λ u n, updateUsingNsPvtData u n ver) uniquePvtData (tpw_NsPvtRwset ws).

Definition updateUsingBlockPvtdata (uniquePvtData : uniquePvtDataMap) (blockPvtData : list TxPvtData) (blkNum : Z)
    : outcome uniquePvtDataMap :=
  foldM (λ u d, updateUsingTxPvtData u d (mkHeight blkNum (pvd_SeqInBlock d))) uniquePvtData blockPvtData.

(** The blocks come in the order the loop over the map visits them. *)
Definition constructUniquePvtData (reconciledPvtdata : list (Z * list TxPvtData)) : outcome uniquePvtDataMap :=
  foldM (λ u '(blkNum, blockPvtData), updateUsingBlockPvtdata u blockPvtData blkNum) ∅ reconciledPvtdata.

(** Whether a write is stale, and the write with the version it gets. *)
Definition checkIfPvtWriteIsStale (ck : compositeKey) (kvWrite : PvtKVWrite) (db : DB) : outcome (bool * PvtKVWrite) :=
  let '(ns, coll, keyHash) := ck in
  committedVersion ← GetKeyHashVersion db ns coll keyHash;
  match committedVersion with
  | None => Ok (negb (pw_IsDelete kvWrite), kvWrite)
  | Some _ =>
      if AreSame committedVersion (pw_Version kvWrite) then Ok (false, kvWrite)
      else
        vv ← GetValueHash db ns coll keyHash;
        vv ← deref vv;
        if bool_decide (default "" (vv_Value vv) = ComputeHash (default "" (pw_Value kvWrite)))
        then Ok (false, mkPvtKVWrite (pw_Key kvWrite) (pw_IsDelete kvWrite) (pw_Value kvWrite) (vv_Version vv))
        else Ok (true, kvWrite)
  end.

Definition remove_if_stale (db : DB) (u : uniquePvtDataMap) (ck : compositeKey) : outcome uniquePvtDataMap :=
  match u !! ck with
  | None => Ok u
  | Some w =>
      '(isStale, w) ← checkIfPvtWriteIsStale ck w db;
      Ok (if isStale : bool then delete ck u else <[ck := w]> u)
  end.

Definition findAndRemoveStalePvtData (uniquePvtData : uniquePvtDataMap) (db : DB) : outcome (uniquePvtDataMap * DB) :=
  db ← LoadCommittedVersionsOfPubAndHashedKeys db [] (key_range ["loadCommitted"] 0 uniquePvtData);
  u ← foldM (remove_if_stale db) uniquePvtData (key_range ["removeStale"] 0 uniquePvtData);
  Ok (u, db).

Definition transformToUpdateBatch (uniquePvtData : uniquePvtDataMap) : outcome UpdateMap :=
  foldM (λ b ck,
    match uniquePvtData !! ck with
    | None => Ok b
    | Some w =>
        let '(ns, coll, _) := ck in
        if pw_IsDelete w then Ok (um_Delete b ns coll (pw_Key w) (pw_Version w))
        else um_Put b ns coll (pw_Key w) (pw_Value w) (pw_Version w)
    end) ∅ (key_range ["transform"] 0 uniquePvtData).

(** What the expiry bookkeeping and the database make of it. *)
Definition old_updates (t : LockBasedTxMgr) (reconciledPvtdata : list (Z * list TxPvtData)) : outcome (option (UpdateMap * DB)) :=
  u ← constructUniquePvtData reconciledPvtdata;
  if bool_decide (u = ∅) then Ok None
  else
    '(u, db) ← findAndRemoveStalePvtData u (tm_db t);
    batch ← transformToUpdateBatch u;
    Ok (Some (batch, db)).

Definition RemoveStaleAndCommitPvtDataOfOldBlocks (t : LockBasedTxMgr) (reconciledPvtdata : list (Z * list TxPvtData))
    : outcome LockBasedTxMgr :=
  r ← old_updates t reconciledPvtdata;
  match r with
  | None => Ok t
  | Some (batch, db) =>
      p ← UpdateExpiryInfoOfPvtDataOfOldBlocks (tm_purgeMgr t) batch;
      let '(db, r) := ApplyPrivacyAwareUpdates db (mkPvtUpdateBatch NewUpdateBatch ∅ batch) None in
      _ ← r;
      Ok (mkLockBasedTxMgr db p (tm_usedOnce t))
  end.
End purge.
