(* ===== verification/PurgeSpec.v ===== *)
(** * PurgeSpec: private data live exactly as long as their collection says
      (core/ledger/kvledger/txmgmt/pvtstatepurgemgmt,
      core/ledger/kvledger/txmgmt/txmgr/lockbased_txmgr.go)

    The keeper's database as a schedule, the invariant of the transaction
    manager between commits, reconciliations, crashes and restarts, and what a
    commit does to every key. *)

From stdpp Require Import sorting.
From S2P Require Import Prelude GoText Protos TxFlags Proposal ProtoUtil Height StateDb PvtState RwSetUtil RangeQuery TxOps Mvcc BatchPreparer PurgeMgr.

(** ** Bytes in order *)
Lemma bytes_compare_refl a : bytes_compare a a = Eq.
Proof. induction a as [|x a IH]; cbn; [done|]. by rewrite Z.compare_refl. Qed.

Lemma bytes_compare_app a x y : bytes_compare (a ++ x) (a ++ y) = bytes_compare x y.
Proof. induction a as [|u a IH]; cbn; [done|]. by rewrite Z.compare_refl. Qed.

Lemma bytes_compare_antisym a b : bytes_compare b a = CompOpp (bytes_compare a b).
Proof.
  revert b. induction a as [|x a IH]; intros [|y b]; cbn; [done..|]. rewrite (Z.compare_antisym x y).
  destruct (x ?= y)%Z; cbn; [apply IH|done..].
Qed.

Definition info_ok (k : expiryInfoKey) : Prop := is_u64 (committingBlk k) ∧ is_u64 (expiryBlk k).

Lemma decode_encode_key k :
  info_ok k →
  DecodeOrderPreservingVarUint64 (drop 1 (encodeExpiryInfoKey k)) = Ok (expiryBlk k, length (EncodeOrderPreservingVarUint64 (expiryBlk k))) ∧
  DecodeOrderPreservingVarUint64 (drop (length (EncodeOrderPreservingVarUint64 (expiryBlk k)) + 1) (encodeExpiryInfoKey k))
    = Ok (committingBlk k, length (EncodeOrderPreservingVarUint64 (committingBlk k))).
Proof.
  intros [Hc He]. unfold encodeExpiryInfoKey. rewrite Nat.add_1_r. rewrite !skipn_cons, drop_0. rewrite encode_decode by done. split; [done|].
  rewrite drop_app_length. rewrite <- (app_nil_r (EncodeOrderPreservingVarUint64 (committingBlk k))) at 1.
  by apply encode_decode.
Qed.

Lemma Ok_pair_inj {A B} (a a' : A) (b b' : B) : Ok (a, b) = Ok (a', b') → a = a' ∧ b = b'.
Proof. by intros [= -> ->]. Qed.

Lemma encodeExpiryInfoKey_inj k k' : info_ok k → info_ok k' → encodeExpiryInfoKey k = encodeExpiryInfoKey k' → k = k'.
Proof.
  intros Hk Hk' E. destruct (decode_encode_key k Hk) as [A1 B1], (decode_encode_key k' Hk') as [A2 B2].
  rewrite E, A2 in A1. apply Ok_pair_inj in A1 as [El Elen]. rewrite E, <- Elen, B2 in B1. apply Ok_pair_inj in B1 as [Ec _]. clear -El Ec. destruct k, k'. cbn in *. by subst.
Qed.

(** The iterator from one expiry block to the next meets that block's keys. *)
Lemma key_in_range k e :
  info_ok k → (0 ≤ e < MaxUint64)%Z →
  bytes_le (encodeExpiryInfoKey (mkExpiryInfoKey 0 e)) (encodeExpiryInfoKey k) ∧
    bytes_compare (encodeExpiryInfoKey k) (encodeExpiryInfoKey (mkExpiryInfoKey 0 (u64 (e + 1)))) = Lt ↔ expiryBlk k = e.
Proof.
  intros [Hc He] Hr. unfold MaxUint64 in Hr. unfold u64. rewrite wrap_small by lia. unfold encodeExpiryInfoKey, bytes_le. cbn [bytes_compare committingBlk expiryBlk].
  rewrite Z.compare_refl. split.
  - intros [Hlo Hhi]. destruct (Z.lt_trichotomy (expiryBlk k) e) as [Hlt|[?|Hgt]]; [|done|].
    + exfalso. apply Hlo. rewrite bytes_compare_antisym, encode_compare; [done|done|unfold is_u64; lia|done].
    + exfalso. destruct (Z.eq_dec (expiryBlk k) (e + 1)) as [Ee|Hne].
      * rewrite Ee, bytes_compare_app in Hhi.
        destruct (Z.eq_dec (committingBlk k) 0) as [Ec|Hnc]; [rewrite Ec, bytes_compare_refl in Hhi; done|].
        rewrite bytes_compare_antisym in Hhi.
        pose proof (encode_compare 0 (committingBlk k) [] [] ltac:(done) Hc ltac:(unfold is_u64 in *; lia)) as Hx.
        rewrite !app_nil_r in Hx. by rewrite Hx in Hhi.
      * rewrite bytes_compare_antisym, encode_compare in Hhi; [done|unfold is_u64; lia|done|lia].
  - intros Ee. subst e. rewrite bytes_compare_app. split; [|by apply encode_compare; [done|unfold is_u64; lia|lia]].
    destruct (Z.eq_dec (committingBlk k) 0) as [->|Hnc]; [by rewrite bytes_compare_refl|].
    pose proof (encode_compare 0 (committingBlk k) [] [] ltac:(done) Hc ltac:(unfold is_u64 in *; lia)) as Hx.
    rewrite !app_nil_r in Hx. by rewrite Hx.
Qed.

(** ** The keeper as a schedule *)
Notation keymap := (gmap string (gmap string (list KeyAndHash))).
Notation sched := (gmap expiryInfoKey keymap).

Definition items (pk : keymap) (ns coll : string) : list KeyAndHash := default [] (default ∅ (pk !! ns) !! coll).

Section keeper.
Context `{ExpiryCodec}.

(** What a protobuf message of keys promises: it reads back as written. *)
Definition keys_codec : Prop :=
  ∀ pk : keymap, pk ≠ ∅ → ∃ v, marshal_PvtdataKeys (Some pk) = Ok v ∧ unmarshal_PvtdataKeys v = Some (Some pk).

Record keeps (ek : expiryKeeper) (S : sched) : Prop := {
  keeps_entry k pk : S !! k = Some pk → info_ok k ∧ ∃ v, ek !! encodeExpiryInfoKey k = Some v ∧ unmarshal_PvtdataKeys v = Some (Some pk);
  keeps_only b : is_Some (ek !! b) → ∃ k, b = encodeExpiryInfoKey k ∧ is_Some (S !! k)
}.

Lemma keeps_insert ek S k pk v :
  keeps ek S → info_ok k → unmarshal_PvtdataKeys v = Some (Some pk) → keeps (<[encodeExpiryInfoKey k := v]> ek) (<[k := pk]> S).
Proof.
  intros Hk Hok Hv. split.
  - intros k' pk'. destruct (decide (k = k')) as [<-|Hne].
    + rewrite lookup_insert_eq. intros [= <-]. split; [done|]. exists v. by rewrite lookup_insert_eq.
    + rewrite lookup_insert_ne by done. intros Hl. destruct (keeps_entry _ _ Hk _ _ Hl) as (Hok' & v' & Hv' & Hu). split; [done|].
      exists v'. rewrite lookup_insert_ne; [done|]. intros E. by apply Hne, encodeExpiryInfoKey_inj.
  - intros b. destruct (decide (encodeExpiryInfoKey k = b)) as [<-|Hne]; [intros _; exists k; by rewrite lookup_insert_eq|].
    rewrite lookup_insert_ne by done. intros (k' & -> & Hs)%(keeps_only _ _ Hk). exists k'. split; [done|].
    rewrite lookup_insert_ne; [done|congruence].
Qed.

Lemma keeps_delete ek S k : keeps ek S → info_ok k → keeps (delete (encodeExpiryInfoKey k) ek) (delete k S).
Proof.
  intros Hk Hok. split.
  - intros k' pk' [Hne Hl]%lookup_delete_Some. destruct (keeps_entry _ _ Hk _ _ Hl) as (Hok' & v' & Hv' & Hu). split; [done|].
    exists v'. rewrite lookup_delete_ne; [done|]. intros E. by apply Hne, encodeExpiryInfoKey_inj.
  - intros b [v [Hne Hv]%lookup_delete_Some]. destruct (keeps_only _ _ Hk b) as (k' & -> & Hs); [by eexists|]. exists k'. split; [done|].
    rewrite lookup_delete_ne; [done|congruence].
Qed.

(** The writes of one update. *)
Definition track (S : sched) (l : list (expiryInfoKey * keymap)) : sched := foldl (λ S p, <[p.1 := p.2]> S) S l.
Definition clear (S : sched) (l : list expiryInfoKey) : sched := foldl (λ S k, delete k S) S l.

Lemma keeper_update_keeps ek S l toClear :
  keys_codec → keeps ek S → Forall (λ p, info_ok p.1 ∧ p.2 ≠ ∅) l → Forall info_ok toClear →
  ∃ ek', keeper_update ek ((λ p, mkExpiryInfo p.1 (Some p.2)) <$> l) toClear = Ok ek' ∧ keeps ek' (clear (track S l) toClear).
Proof.
  intros Hc Hk Hl Hcl. unfold keeper_update.
  assert (∃ ek', foldM (λ ek expinfo, v ← marshal_PvtdataKeys (ei_pvtdataKeys expinfo); Ok (<[encodeExpiryInfoKey (ei_key expinfo) := v]> ek)) ek
    ((λ p, mkExpiryInfo p.1 (Some p.2)) <$> l) = Ok ek' ∧ keeps ek' (track S l)) as (ek' & -> & Hk').
  { unfold track. revert ek S Hk. induction Hl as [|[k pk] l [Hok Hne] _ IH]; intros ek S Hk; [by exists ek|]. cbn [fst snd] in *.
    destruct (Hc pk Hne) as (v & Hm & Hu). cbn. rewrite Hm. cbn. apply IH. by apply keeps_insert. }
  cbn [mbind outcome_bind]. eexists. split; [done|]. unfold clear. clear Hl Hc. generalize dependent (track S l). revert ek'.
  induction Hcl as [|k toClear Hok _ IH]; intros ek' S' Hk'; [done|]. cbn. apply IH. by apply keeps_delete.
Qed.

Lemma decode_kept ek S k pk :
  keeps ek S → S !! k = Some pk →
  decodeExpiryInfo (encodeExpiryInfoKey k) (default "" (ek !! encodeExpiryInfoKey k)) = Ok (mkExpiryInfo k (Some pk)).
Proof.
  intros Hk Hl. destruct (keeps_entry _ _ Hk _ _ Hl) as (Hok & v & Hv & Hu). rewrite Hv. cbn [default].
  unfold decodeExpiryInfo. destruct (decode_encode_key k Hok) as [-> E2]. cbn [mbind outcome_bind]. rewrite E2. cbn. rewrite Hu. cbn. by destruct k.
Qed.

(** What expires with block [e]: every entry of the schedule for it, once. *)
Lemma keeper_retrieve_keeps ek S e :
  keeps ek S → (0 ≤ e < MaxUint64)%Z →
  ∃ l, keeper_retrieve ek e = Ok l ∧
    ∀ i, i ∈ l ↔ ∃ k pk, i = mkExpiryInfo k (Some pk) ∧ S !! k = Some pk ∧ expiryBlk k = e.
Proof.
  intros Hk He. unfold keeper_retrieve. set (ks := iterator_keys _ _ _).
  assert (∀ b, b ∈ ks ↔ ∃ k pk, b = encodeExpiryInfoKey k ∧ S !! k = Some pk ∧ expiryBlk k = e) as Hks.
  { intros b. unfold ks, iterator_keys. rewrite list_elem_of_filter, merge_sort_Permutation, list_elem_of_fmap. split.
    - intros [Hr ([b' v] & -> & Hin%elem_of_map_to_list)]. cbn [fst] in *.
      destruct (keeps_only _ _ Hk b') as (k & -> & [pk Hpk]); [by eexists|]. exists k, pk. split_and!; [done..|].
      apply key_in_range in Hr; [done|by eapply keeps_entry|done].
    - intros (k & pk & -> & Hpk & Hek). destruct (keeps_entry _ _ Hk _ _ Hpk) as (Hok & v & Hv & _). split; [by apply key_in_range|].
      exists (encodeExpiryInfoKey k, v). split; [done|]. by apply elem_of_map_to_list. }
  assert (∀ acc, (∀ b, b ∈ ks → ∃ k pk, b = encodeExpiryInfoKey k ∧ S !! k = Some pk) →
    ∃ l, foldM (λ l k, expinfo ← decodeExpiryInfo k (default "" (ek !! k)); Ok (l ++ [expinfo])) acc ks = Ok (acc ++ l) ∧
      ∀ i, i ∈ l ↔ ∃ k pk, i = mkExpiryInfo k (Some pk) ∧ S !! k = Some pk ∧ encodeExpiryInfoKey k ∈ ks) as Hf.
  { clear Hks. induction ks as [|b ks IH]; intros acc Hks.
    - exists []. rewrite app_nil_r. split; [done|]. intros i. split; [by intros ?%not_elem_of_nil|]. by intros (? & ? & _ & _ & ?%not_elem_of_nil).
    - destruct (Hks b ltac:(by left)) as (k & pk & -> & Hpk). cbn [foldM]. rewrite (decode_kept _ _ _ _ Hk Hpk). cbn [mbind outcome_bind].
      destruct (IH (acc ++ [mkExpiryInfo k (Some pk)])) as (l & -> & Hl); [intros b' Hb'; apply Hks; by right|].
      exists (mkExpiryInfo k (Some pk) :: l). rewrite <- (assoc_L (++)). split; [done|]. intros i. rewrite elem_of_cons, Hl. split.
      + intros [->|(k' & pk' & ? & ? & ?)]; [exists k, pk|exists k', pk']; split_and!; try done; [by left|by right].
      + intros (k' & pk' & -> & Hpk' & [Ek|Hin]%elem_of_cons).
        * left. destruct (keeps_entry _ _ Hk _ _ Hpk) as [Ho1 _], (keeps_entry _ _ Hk _ _ Hpk') as [Ho2 _].
          apply encodeExpiryInfoKey_inj in Ek; [|done..]. subst. congruence.
        * right. by exists k', pk'. }
  destruct (Hf []) as (l & -> & Hl); [intros b (k & pk & ? & ? & _)%Hks; eauto|]. exists l. split; [done|]. intros i. rewrite Hl. split.
  - intros (k & pk & -> & Hpk & (k' & pk' & Ek & Hpk' & He')%Hks). exists k, pk. split_and!; [done..|].
    destruct (keeps_entry _ _ Hk _ _ Hpk) as [Ho1 _], (keeps_entry _ _ Hk _ _ Hpk') as [Ho2 _].
    apply encodeExpiryInfoKey_inj in Ek; [|done..]. by subst.
  - intros (k & pk & -> & Hpk & He'). exists k, pk. split_and!; [done..|]. apply Hks. by exists k, pk.
Qed.
End keeper.

(** ** The keys of an entry *)
(** The private key last recorded for a hash, empty if only the hash is known. *)
Definition key_for (l : list KeyAndHash) (h : bytes) : option string := kh_Key <$> last (filter (λ kh, kh_Hash kh = h) l).

Lemma key_for_app l l' h : key_for (l ++ l') h = match key_for l' h with Some k => Some k | None => key_for l h end.
Proof.
  unfold key_for. rewrite filter_app. destruct (last (filter _ l')) as [kh|] eqn:E; cbn.
  - apply last_Some in E as [l1 ->]. by rewrite (assoc_L (++)), last_snoc.
  - apply last_None in E as ->. by rewrite app_nil_r.
Qed.

Lemma key_for_Some l h k : key_for l h = Some k → mkKeyAndHash k h ∈ l.
Proof.
  unfold key_for. intros ([k' h'] & E & ->)%fmap_Some. apply last_Some in E as [l1 E].
  assert (mkKeyAndHash k' h' ∈ filter (λ kh, kh_Hash kh = h) l) as [<- Hin]%list_elem_of_filter by (rewrite E; apply elem_of_app; right; by left).
  done.
Qed.

Lemma key_for_is_Some l h : is_Some (key_for l h) ↔ ∃ k, mkKeyAndHash k h ∈ l.
Proof.
  split; [intros [k Hk%key_for_Some]; by exists k|]. intros [k Hin]. unfold key_for.
  destruct (last (filter _ l)) as [kh|] eqn:E; [by eexists|]. apply last_None in E.
  assert (mkKeyAndHash k h ∈ filter (λ kh, kh_Hash kh = h) l) as Hf by (by apply list_elem_of_filter). rewrite E in Hf. by apply not_elem_of_nil in Hf.
Qed.

Lemma key_for_only l h k : mkKeyAndHash k h ∈ l → (∀ k', mkKeyAndHash k' h ∈ l → k' = k) → key_for l h = Some k.
Proof.
  intros Hin Hu. destruct (key_for l h) as [k'|] eqn:E; [by rewrite (Hu k' (key_for_Some _ _ _ E))|].
  assert (is_Some (key_for l h)) as [? ?] by (apply key_for_is_Some; eauto). congruence.
Qed.

Definition pk_add (pk : keymap) (e : string * string * KeyAndHash) : keymap :=
  <[e.1.1 := <[e.1.2 := items pk e.1.1 e.1.2 ++ [e.2]]> (default ∅ (pk !! e.1.1))]> pk.

Lemma keys_add_pk pk ns coll key h : keys_add (Some pk) ns coll key h = Ok (Some (pk_add pk (ns, coll, mkKeyAndHash key h))).
Proof. done. Qed.

Lemma pk_add_ne pk e : pk_add pk e ≠ ∅.
Proof. apply insert_non_empty. Qed.

Lemma items_pk_add pk e ns coll :
  items (pk_add pk e) ns coll = if decide ((ns, coll) = e.1) then items pk ns coll ++ [e.2] else items pk ns coll.
Proof.
  destruct e as [[ns' coll'] kh]. unfold pk_add, items. cbn. destruct (decide (ns = ns')) as [->|Hne].
  - rewrite lookup_insert_eq. cbn. destruct (decide (coll = coll')) as [->|Hnc].
    + by rewrite lookup_insert_eq, decide_True.
    + rewrite lookup_insert_ne by done. by rewrite decide_False by congruence.
  - rewrite lookup_insert_ne by done. by rewrite decide_False by congruence.
Qed.

Lemma items_pk_adds pk l ns coll :
  items (foldl pk_add pk l) ns coll = items pk ns coll ++ (filter (λ e, e.1 = (ns, coll)) l).*2.
Proof.
  revert pk. induction l as [|e l IH]; intros pk; cbn [foldl]; [by rewrite app_nil_r|].
  rewrite IH, items_pk_add, filter_cons. destruct (decide (e.1 = (ns, coll))) as [E|E].
  - rewrite decide_True by done. by rewrite fmap_cons, <- (assoc_L (++)).
  - rewrite decide_False by congruence. done.
Qed.

Section entries.
Context `{MapOrder}.

Lemma filter_bind_none {A B} (P : B → Prop) `{!∀ x, Decision (P x)} (f : A → list B) (l : list A) :
  (∀ x y, x ∈ l → y ∈ f x → ¬ P y) → filter P (l ≫= f) = [].
Proof.
  intros Hn. induction l as [|x l IH]; [done|]. rewrite bind_cons, filter_app, IH by (intros; eapply Hn; [by right|done]). rewrite app_nil_r.
  assert (∀ l', (∀ y, y ∈ l' → ¬ P y) → filter P l' = []) as Hf; [|apply Hf; intros y Hy; eapply Hn; [by left|done]].
  clear. induction l' as [|y l' IH]; intros Hl; [done|]. rewrite filter_cons_False by (apply Hl; by left). apply IH. intros z Hz. apply Hl. by right.
Qed.

(** A loop over distinct values, all but one of which are filtered out. *)
Lemma filter_bind_one {A B} (P : B → Prop) `{!∀ x, Decision (P x)} (f : A → list B) (l : list A) (a : A) :
  NoDup l → a ∈ l → (∀ x y, x ∈ l → x ≠ a → y ∈ f x → ¬ P y) → filter P (l ≫= f) = filter P (f a).
Proof.
  intros Hnd (l1 & l2 & ->)%list_elem_of_split Hn. rewrite bind_app, bind_cons, !filter_app.
  apply NoDup_app in Hnd as (_ & Hd & [Hni _]%NoDup_cons).
  rewrite (filter_bind_none P f l1), (filter_bind_none P f l2), app_nil_r; [done|..]; intros x y Hx Hy.
  - eapply Hn; [apply elem_of_app; right; by right| |done]. by intros ->.
  - eapply Hn; [apply elem_of_app; by left| |done]. intros ->. apply (Hd a Hx). by left.
Qed.

Lemma filter_items (ns coll : string) (l : list KeyAndHash) : filter (λ e, e.1 = (ns, coll)) ((λ kh, (ns, coll, kh)) <$> l) = (λ kh, (ns, coll, kh)) <$> l.
Proof. induction l as [|kh l IH]; [done|]. rewrite fmap_cons, filter_cons_True by done. by rewrite IH. Qed.

(** The loops meet the keys of a collection in the order they were recorded. *)
Lemma keys_entries_filter (pk : keymap) (ns coll : string) :
  filter (λ e, e.1 = (ns, coll)) (keys_entries (Some pk)) = (λ kh, (ns, coll, kh)) <$> items pk ns coll.
Proof.
  unfold keys_entries, items. cbn [default]. destruct (pk !! ns) as [colls|] eqn:En; cbn.
  - rewrite (filter_bind_one _ _ _ ns); [|eapply range_order_NoDup, map_range_ok|eapply range_order_elem; [apply map_range_ok|by eexists]|].
    + rewrite En. cbn. destruct (colls !! coll) as [l|] eqn:Ec; cbn.
      * rewrite (filter_bind_one _ _ _ coll); [|eapply range_order_NoDup, map_range_ok|eapply range_order_elem; [apply map_range_ok|by eexists]|].
        { rewrite Ec. cbn. apply filter_items. }
        intros x y _ Hne (kh & -> & _)%list_elem_of_fmap. cbn. congruence.
      * apply filter_bind_none. intros x y Hx (kh & -> & _)%list_elem_of_fmap [= ->].
        apply (range_order_elem _ _ _ (map_range_ok _ _ _)) in Hx as [? ?]. congruence.
    + intros x y _ Hne (coll' & (kh & -> & _)%list_elem_of_fmap & _)%list_elem_of_bind. cbn. congruence.
  - apply filter_bind_none. intros x y Hx (coll' & (kh & -> & _)%list_elem_of_fmap & _)%list_elem_of_bind [= -> ->].
    apply (range_order_elem _ _ _ (map_range_ok _ _ _)) in Hx as [? ?]. congruence.
Qed.

Lemma keys_addAll_pk (pk pk' : keymap) :
  ∃ pk2, keys_addAll (Some pk) (Some pk') = Ok (Some pk2) ∧ (pk ≠ ∅ → pk2 ≠ ∅) ∧
    ∀ ns coll, items pk2 ns coll = items pk ns coll ++ items pk' ns coll.
Proof.
  exists (foldl pk_add pk (keys_entries (Some pk'))). unfold keys_addAll. split_and!.
  - generalize (keys_entries (Some pk')). intros l. revert pk. induction l as [|[[ns coll] [k h]] l IH]; intros pk; [done|]. apply IH.
  - generalize (keys_entries (Some pk')). intros l. revert pk. induction l as [|e l IH]; intros pk Hp; [done|]. apply IH, pk_add_ne.
  - intros ns coll. rewrite items_pk_adds, keys_entries_filter. by rewrite <- list_fmap_compose, list_fmap_id.
Qed.

(** *** What expires, by hash *)
Lemma foldl_insert_last {A B} `{Countable K} (f : A → K) (g : A → B) (m : gmap K B) (l : list A) (k : K) :
  foldl (λ m x, <[f x := g x]> m) m l !! k = match last (filter (λ x, f x = k) l) with Some x => Some (g x) | None => m !! k end.
Proof.
  induction l as [|x l IH] using rev_ind; [done|]. rewrite foldl_app, filter_app. cbn [foldl]. rewrite filter_cons, filter_nil.
  destruct (decide (f x = k)) as [<-|Hne]; [by rewrite lookup_insert_eq, last_snoc|]. rewrite lookup_insert_ne, app_nil_r by done. apply IH.
Qed.

Lemma transform_step (m : gmap compositeKey keyAndVersion) (k : expiryInfoKey) (pk : keymap) ns coll h :
  foldl (λ m '(ns, coll, kh), <[(ns, coll, kh_Hash kh) := mkKeyAndVersion (kh_Key kh) (committingBlk k) false]> m)
    m (keys_entries (Some pk)) !! (ns, coll, h)
  = match key_for (items pk ns coll) h with Some key => Some (mkKeyAndVersion key (committingBlk k) false) | None => m !! (ns, coll, h) end.
Proof.
  assert (∀ l m, foldl (λ m '(ns, coll, kh), <[(ns, coll, kh_Hash kh) := mkKeyAndVersion (kh_Key kh) (committingBlk k) false]> m) m l
    = foldl (λ (m : gmap compositeKey keyAndVersion) (e : string * string * KeyAndHash),
        <[(e.1.1, e.1.2, kh_Hash e.2) := mkKeyAndVersion (kh_Key e.2) (committingBlk k) false]> m) m l) as ->.
  { intros l m'. apply foldl_ext. by intros ? [[? ?] ?] _. }
  rewrite (foldl_insert_last (λ e : string * string * KeyAndHash, (e.1.1, e.1.2, kh_Hash e.2))
    (λ e, mkKeyAndVersion (kh_Key e.2) (committingBlk k) false)).
  assert (filter (λ e : string * string * KeyAndHash, (e.1.1, e.1.2, kh_Hash e.2) = (ns, coll, h)) (keys_entries (Some pk))
    = filter (λ e, kh_Hash e.2 = h) (filter (λ e, e.1 = (ns, coll)) (keys_entries (Some pk)))) as ->.
  { rewrite list_filter_filter. apply list_filter_iff. intros [[n c] kh]. cbn. naive_solver. }
  rewrite keys_entries_filter. unfold key_for. generalize (items pk ns coll). intros l.
  assert (last (filter (λ e : string * string * KeyAndHash, kh_Hash e.2 = h) ((λ kh, (ns, coll, kh)) <$> l))
    = (λ kh, (ns, coll, kh)) <$> last (filter (λ kh, kh_Hash kh = h) l)) as ->; [|by destruct (last _)].
  rewrite <- fmap_last. f_equal. induction l as [|kh l IH]; [done|]. rewrite fmap_cons, !filter_cons. cbn [snd].
  destruct (decide (kh_Hash kh = h)); by rewrite ?fmap_cons, IH.
Qed.

(** Each hash comes from one entry. *)
Lemma transform_lookup (l : list expiryInfo) ns coll h v :
  (∀ i, i ∈ l → ∃ k pk, i = mkExpiryInfo k (Some pk)) →
  (∀ k pk k' pk', mkExpiryInfo k (Some pk) ∈ l → mkExpiryInfo k' (Some pk') ∈ l →
     is_Some (key_for (items pk ns coll) h) → is_Some (key_for (items pk' ns coll) h) → k = k' ∧ pk = pk') →
  transformToExpiryInfoMap l !! (ns, coll, h) = Some v ↔
  ∃ k pk key, mkExpiryInfo k (Some pk) ∈ l ∧ key_for (items pk ns coll) h = Some key ∧ v = mkKeyAndVersion key (committingBlk k) false.
Proof.
  unfold transformToExpiryInfoMap. induction l as [|i l IH] using rev_ind; intros Hsome Hu.
  { cbn. rewrite lookup_empty. split; [done|]. by intros (? & ? & ? & ?%not_elem_of_nil & _). }
  rewrite foldl_app. cbn [foldl]. destruct (Hsome i) as (k & pk & ->); [apply elem_of_app; right; by left|]. cbn [ei_pvtdataKeys ei_key].
  rewrite transform_step. destruct (key_for (items pk ns coll) h) as [key|] eqn:Ek.
  - split.
    + intros [= <-]. exists k, pk, key. split; [apply elem_of_app; right; by left|done].
    + intros (k' & pk' & key' & Hin & Hk' & ->). destruct (Hu k pk k' pk') as [<- <-]; [apply elem_of_app; right; by left|done|by eexists..|]. congruence.
  - rewrite IH.
    + split; intros (k' & pk' & key' & Hin & Hk' & ->); exists k', pk', key'; (split; [|done]).
      * apply elem_of_app. by left.
      * apply elem_of_app in Hin as [?|Hin%list_elem_of_singleton]; [done|]. injection Hin as -> ->. congruence.
    + intros i' Hi. apply Hsome, elem_of_app. by left.
    + intros k1 pk1 k2 pk2 H1' H2'. apply Hu; apply elem_of_app; by left.
Qed.
End entries.

(** ** Expiry blocks *)
Lemma ComputeExpiringBlock_min c btl :
  is_u64 c → (1 ≤ btl ≤ MaxUint64)%Z → ComputeExpiringBlock c btl = Z.min (c + btl + 1) MaxUint64.
Proof.
  unfold is_u64, MaxUint64, ComputeExpiringBlock, u64, wrap. intros Hc Hb.
  destruct (Z_lt_le_dec (c + btl + 1) (2 ^ 64)) as [Hlt|Hge].
  - rewrite Z.mod_small by lia. rewrite (proj2 (Z.leb_gt _ _)) by lia. lia.
  - assert ((c + btl + 1) mod 2 ^ 64 = c + btl + 1 - 2 ^ 64)%Z as -> by (symmetry; apply (Z.mod_unique _ _ 1); lia).
    rewrite (proj2 (Z.leb_le _ _)) by lia. unfold MaxUint64. lia.
Qed.

(** The cached policy answers like the configuration. *)
Definition configured (CollectionInfo : string → string → outcome (option Z)) (ns coll : string) : outcome Z :=
  r ← CollectionInfo ns coll;
  match r with
  | None => Err "no such collection"
  | Some b => Ok (if (0 <? b)%Z then b else defaultBTL)
  end.

Lemma GetBTL_cache CI cache ns coll :
  (∀ k b, cache !! k = Some b → configured CI k.1 k.2 = Ok b) →
  (GetBTL CI cache ns coll).1 = configured CI ns coll ∧
  ∀ k b, (GetBTL CI cache ns coll).2 !! k = Some b → configured CI k.1 k.2 = Ok b.
Proof.
  intros Hc. unfold GetBTL. destruct (cache !! (ns, coll)) as [b|] eqn:E; [split; [by rewrite <- (Hc _ _ E)|done]|].
  unfold configured at 1. destruct (CI ns coll) as [[b|]| |] eqn:Ei; cbn; try done. split; [done|]. intros k b'.
  destruct (decide (k = (ns, coll))) as [->|Hne]; [rewrite lookup_insert_eq|rewrite lookup_insert_ne by done; apply Hc].
  intros [= <-]. unfold configured. cbn. by rewrite Ei.
Qed.

(** ** Schedules that are built *)
Definition items_at (S : sched) (k : expiryInfoKey) (ns coll : string) : list KeyAndHash := items (default ∅ (S !! k)) ns coll.
Definition tracked (S : sched) (k : expiryInfoKey) (ns coll : string) (h : bytes) : option string := key_for (items_at S k ns coll) h.

Notation addition := (expiryInfoKey * (string * string * KeyAndHash))%type.
Definition sched_add (S : sched) (a : addition) : sched := <[a.1 := pk_add (default ∅ (S !! a.1)) a.2]> S.
Definition full (S : sched) : Prop := ∀ k pk, S !! k = Some pk → pk ≠ ∅.

Lemma items_at_adds S l k ns coll :
  items_at (foldl sched_add S l) k ns coll = items_at S k ns coll ++ (filter (λ a, a.1 = k ∧ a.2.1 = (ns, coll)) l).*2.*2.
Proof.
  revert S. induction l as [|[k' e] l IH]; intros S; cbn [foldl]; [by rewrite app_nil_r|]. rewrite IH, filter_cons. cbn [fst snd].
  unfold items_at at 1. unfold sched_add. cbn [fst snd]. destruct (decide (k = k')) as [<-|Hne].
  - rewrite lookup_insert_eq. unfold items_at. cbn [from_option]. unfold id at 1. rewrite items_pk_add.
    destruct (decide ((ns, coll) = e.1)) as [E|E].
    + rewrite decide_True by done. by rewrite !fmap_cons, <- (assoc_L (++)).
    + by rewrite decide_False by naive_solver.
  - rewrite lookup_insert_ne by done. rewrite decide_False by naive_solver. done.
Qed.

Lemma elem_items_adds S l k ns coll kh :
  kh ∈ items_at (foldl sched_add S l) k ns coll ↔ kh ∈ items_at S k ns coll ∨ (k, (ns, coll, kh)) ∈ l.
Proof.
  rewrite items_at_adds, elem_of_app, list_elem_of_fmap. f_equiv. split.
  - intros (e & -> & (a & -> & [[<- Ee] Hin]%list_elem_of_filter)%list_elem_of_fmap). destruct a as [k [[n c] kh]]. cbn in *. by injection Ee as -> ->.
  - intros Hin. exists (ns, coll, kh). split; [done|]. apply list_elem_of_fmap. exists (k, (ns, coll, kh)). split; [done|].
    by apply list_elem_of_filter.
Qed.

Lemma adds_full S l : full S → full (foldl sched_add S l).
Proof.
  revert S. induction l as [|a l IH]; intros S Hf; [done|]. apply IH. intros k pk. unfold sched_add.
  destruct (decide (a.1 = k)) as [<-|Hne]; [rewrite lookup_insert_eq; intros [= <-]; apply pk_add_ne|rewrite lookup_insert_ne by done; apply Hf].
Qed.

Lemma adds_dom S l k : is_Some (foldl sched_add S l !! k) ↔ is_Some (S !! k) ∨ ∃ e, (k, e) ∈ l.
Proof.
  revert S. induction l as [|[k' e] l IH]; intros S; cbn [foldl].
  - split; [by left|]. intros [?|[e ?%not_elem_of_nil]]; done.
  - rewrite IH. unfold sched_add at 1. cbn [fst]. destruct (decide (k' = k)) as [->|Hne].
    + rewrite lookup_insert_eq. split; [|left; by eexists]. intros _. right. exists e. by left.
    + rewrite lookup_insert_ne by done. f_equiv. split; [intros [e' ?]; exists e'; by right|]. intros [e' [[= -> ->]|?]%elem_of_cons]; [done|by exists e'].
Qed.

Lemma composite_lookup `{MapOrder} (b : UpdateMap) ns coll k : ToCompositeKeyMap b !! (ns, coll, k) = um_Get b ns coll k.
Proof.
  unfold ToCompositeKeyMap.
  assert (∀ l m, foldl (λ m '(ns, coll, key, vv), <[(ns, coll, key) := vv]> m) m l
    = foldl (λ (m : gmap (string * string * string) VersionedValue) (e : string * string * string * VersionedValue), <[e.1 := e.2]> m) m l) as ->.
  { intros l m. apply foldl_ext. by intros ? [[[? ?] ?] ?] _. }
  rewrite (foldl_insert_last (λ e : string * string * string * VersionedValue, e.1) snd).
  destruct (last (filter _ _)) as [[[[n c] k'] vv]|] eqn:E.
  - apply last_Some in E as [l1 E]. symmetry. cbn [snd].
    assert ((n, c, k', vv) ∈ filter (λ e, e.1 = (ns, coll, k)) (um_entries b)) as [Ek Hin]%list_elem_of_filter
      by (rewrite E; apply elem_of_app; right; by left). cbn in Ek. injection Ek as -> -> ->. by apply um_entries_elem.
  - apply last_None in E. rewrite lookup_empty. destruct (um_Get b ns coll k) as [vv|] eqn:Eg; [|done]. apply um_entries_elem in Eg.
    assert ((ns, coll, k, vv) ∈ filter (λ e, e.1 = (ns, coll, k)) (um_entries b)) as Hf by (by apply list_elem_of_filter).
    rewrite E in Hf. by apply not_elem_of_nil in Hf.
Qed.

Section builder.
Context `{MapOrder} `{KeyOrder} `{ScheduleOrder} `{BTLPolicy} `{Hashing}.
Context (btl : string → string → Z).

(** What the policy promises: a number of blocks for every collection. *)
Definition policy_ok : Prop :=
  ∀ ns coll, (1 ≤ btl ns coll ≤ MaxUint64)%Z ∧ ∀ c, GetExpiringBlock ns coll c = Ok (ComputeExpiringBlock c (btl ns coll)).

Definition expiry (ns coll : string) (c : Z) : Z := ComputeExpiringBlock c (btl ns coll).

Lemma expiry_min ns coll c : policy_ok → is_u64 c → expiry ns coll c = Z.min (c + btl ns coll + 1) MaxUint64.
Proof. intros Hp Hc. apply ComputeExpiringBlock_min; [done|apply Hp]. Qed.

(** The block a value was written by. *)
Definition block_of (vv : VersionedValue) : Z := match vv_Version vv with Some ver => BlockNum ver | None => 0 end.

Definition scheduled (ns coll key : string) (h : bytes) (vv : VersionedValue) : option addition :=
  if IsDelete vv || neverExpires (expiry ns coll (block_of vv)) then None
  else Some (mkExpiryInfoKey (block_of vv) (expiry ns coll (block_of vv)), (ns, coll, mkKeyAndHash key h)).

Lemma scheduled_Some ns coll key h vv k e :
  scheduled ns coll key h vv = Some (k, e) ↔
  IsDelete vv = false ∧ expiry ns coll (block_of vv) ≠ MaxUint64 ∧
  k = mkExpiryInfoKey (block_of vv) (expiry ns coll (block_of vv)) ∧ e = (ns, coll, mkKeyAndHash key h).
Proof.
  unfold scheduled, neverExpires. destruct (IsDelete vv); cbn; [naive_solver|].
  destruct (Z.eqb_spec (expiry ns coll (block_of vv)) MaxUint64); naive_solver.
Qed.

Lemma builder_add_sched (S : sched) ns coll key h vv :
  policy_ok → is_Some (vv_Version vv) →
  builder_add (Some <$> S) ns coll key h vv = Ok (Some <$> foldl sched_add S (option_list (scheduled ns coll key h vv))).
Proof.
  intros Hp [ver Hv]. unfold builder_add, scheduled, block_of, expiry. rewrite Hv. cbn. rewrite (proj2 (Hp ns coll)). cbn.
  destruct (_ || _); [done|]. unfold option_list, option_rect. cbn [foldl]. unfold sched_add. cbn [fst snd]. rewrite lookup_fmap, fmap_insert.
  by destruct (S !! _).
Qed.

Definition hash_key (ck : compositeKey) : compositeKey := (ck.1, ComputeStringHash ck.2).
Definition pvt_item (m : gmap compositeKey VersionedValue) (ck : compositeKey) : option addition :=
  m !! ck ≫= scheduled ck.1.1 ck.1.2 ck.2 (ComputeStringHash ck.2).
Definition hash_item (m : gmap compositeKey VersionedValue) (ck : compositeKey) : option addition :=
  m !! ck ≫= scheduled ck.1.1 ck.1.2 "" ck.2.

Definition versioned (m : gmap compositeKey VersionedValue) : Prop := ∀ ck vv, m !! ck = Some vv → is_Some (vv_Version vv).

Lemma add_items_fold (m : gmap compositeKey VersionedValue) (item : compositeKey → option addition)
    (f : gmap expiryInfoKey PvtdataKeys → compositeKey → outcome (gmap expiryInfoKey PvtdataKeys)) (S : sched) ks :
  (∀ S ck, f (Some <$> S) ck = Ok (Some <$> foldl sched_add S (option_list (item ck)))) →
  foldM f (Some <$> S) ks = Ok (Some <$> foldl sched_add S (omap item ks)).
Proof.
  intros Hf. revert S. induction ks as [|ck ks IH]; intros S; [done|]. cbn [foldM omap list_omap]. rewrite Hf, IH.
  by destruct (item ck).
Qed.

Lemma pvt_updates_fold (m : gmap compositeKey VersionedValue) (S : sched) (L : gmap compositeKey VersionedValue) ks :
  policy_ok → versioned m → (∀ ck, ck ∈ ks → is_Some (m !! ck)) →
  foldM (add_pvt_update m) (Some <$> S, L) ks =
    Ok (Some <$> foldl sched_add S (omap (pvt_item m) ks), foldl (λ L ck, delete (hash_key ck) L) L ks).
Proof.
  intros Hp Hv. revert S L. induction ks as [|[[ns coll] k] ks IH]; intros S L Hks; [done|].
  destruct (Hks (ns, coll, k)) as [vv Hvv]; [by left|]. cbn [foldM omap list_omap]. unfold add_pvt_update at 1. rewrite Hvv.
  rewrite builder_add_sched by eauto. cbn [mbind outcome_bind]. rewrite IH by (intros; apply Hks; by right).
  unfold pvt_item at 2. cbn [fst snd]. rewrite Hvv. cbn [mbind option_bind]. by destruct (scheduled _ _ _ _ _).
Qed.

Lemma hash_updates_fold (m : gmap compositeKey VersionedValue) (S : sched) ks :
  policy_ok → versioned m → foldM (add_hash_update m) (Some <$> S) ks = Ok (Some <$> foldl sched_add S (omap (hash_item m) ks)).
Proof.
  intros Hp Hv. apply (add_items_fold m). intros S' [[ns coll] h]. unfold add_hash_update, hash_item. cbn [fst snd].
  destruct (m !! (ns, coll, h)) as [vv|] eqn:E; [|done]. cbn [mbind option_bind]. rewrite builder_add_sched; eauto.
Qed.

(** A schedule as the list the keeper writes. *)
Definition sched_list (S : sched) : list (expiryInfoKey * keymap) :=
  omap (λ k, pair k <$> S !! k) (schedule_range (Some <$> S)).

Lemma getExpiryInfo_list (S : sched) : getExpiryInfo (Some <$> S) = (λ p, mkExpiryInfo p.1 (Some p.2)) <$> sched_list S.
Proof.
  unfold getExpiryInfo, sched_list. induction (schedule_range _) as [|k ks IH]; [done|]. cbn [omap list_omap].
  rewrite lookup_fmap. destruct (S !! k); cbn; [by rewrite IH|done].
Qed.

Lemma sched_list_elem (S : sched) k pk : (k, pk) ∈ sched_list S ↔ S !! k = Some pk.
Proof.
  unfold sched_list. rewrite list_elem_of_omap. split.
  - intros (k' & _ & (pk' & Hl & [= -> ->])%fmap_Some). done.
  - intros Hl. exists k. rewrite Hl. split; [|done]. rewrite schedule_range_ok, list_elem_of_fmap.
    exists (k, Some pk). split; [done|]. apply elem_of_map_to_list. by rewrite lookup_fmap, Hl.
Qed.

Lemma track_some (S0 : sched) (l : list (expiryInfoKey * keymap)) k pk : (k, pk) ∈ l → ∃ pk', (k, pk') ∈ l ∧ track S0 l !! k = Some pk'.
Proof.
  intros Hin. unfold track. rewrite (foldl_insert_last fst snd).
  destruct (last (filter (λ x : expiryInfoKey * keymap, x.1 = k) l)) as [[k' pk']|] eqn:E.
  - apply last_Some in E as [l1 E]. assert ((k', pk') ∈ filter (λ x : expiryInfoKey * keymap, x.1 = k) l) as [Ek Hin']%list_elem_of_filter
      by (rewrite E; apply elem_of_app; right; by left). cbn in *. subst k'. by exists pk'.
  - apply last_None in E. assert ((k, pk) ∈ filter (λ x : expiryInfoKey * keymap, x.1 = k) l) as Hf by (by apply list_elem_of_filter).
    rewrite E in Hf. by apply not_elem_of_nil in Hf.
Qed.

Lemma track_lookup (S0 : sched) (l : list (expiryInfoKey * keymap)) k pk :
  (∀ pk', (k, pk') ∈ l → pk' = pk) → (k, pk) ∈ l → track S0 l !! k = Some pk.
Proof. intros Hu Hin. destruct (track_some S0 l k pk Hin) as (pk' & Hin' & ->). by rewrite (Hu pk' Hin'). Qed.

Lemma track_other (S0 : sched) (l : list (expiryInfoKey * keymap)) k : (∀ pk, (k, pk) ∉ l) → track S0 l !! k = S0 !! k.
Proof.
  intros Hn. unfold track. rewrite (foldl_insert_last fst snd). destruct (last _) as [[k' pk']|] eqn:E; [|done].
  apply last_Some in E as [l1 E]. assert ((k', pk') ∈ filter (λ x : expiryInfoKey * keymap, x.1 = k) l) as [Ek Hin']%list_elem_of_filter
    by (rewrite E; apply elem_of_app; right; by left). cbn in *. subst k'. by destruct (Hn pk').
Qed.

Lemma track_sched (S0 S : sched) : track S0 (sched_list S) = S ∪ S0.
Proof.
  apply map_eq. intros k. destruct (S !! k) as [pk|] eqn:E.
  - rewrite (lookup_union_Some_l _ _ _ _ E). apply track_lookup; [|by apply sched_list_elem].
    intros pk' Hin%sched_list_elem. congruence.
  - rewrite lookup_union_r by done. apply track_other. intros pk Hin%sched_list_elem. congruence.
Qed.

(** *** The schedule of a block *)
Lemma deletes_lookup (L : gmap compositeKey VersionedValue) ks ck :
  foldl (λ L ck, delete (hash_key ck) L) L ks !! ck = if decide (ck ∈ hash_key <$> ks) then None else L !! ck.
Proof.
  revert L. induction ks as [|ck' ks IH]; intros L; cbn [foldl].
  - rewrite decide_False; [done|]. by intros ?%not_elem_of_nil.
  - rewrite IH, fmap_cons. destruct (decide (ck ∈ hash_key <$> ks)) as [Hin|Hni].
    + rewrite decide_True; [done|by right].
    + destruct (decide (ck = hash_key ck')) as [->|Hne]; [rewrite lookup_delete_eq, decide_True; [done|by left]|].
      rewrite lookup_delete_ne by congruence. rewrite decide_False; [done|]. by intros [?|?]%elem_of_cons.
Qed.

(** The private updates with their keys, and the hashes that have none. *)
Lemma buildExpirySchedule_spec (pvt hashed : UpdateMap) :
  policy_ok → versioned (ToCompositeKeyMap pvt) → versioned (ToCompositeKeyMap hashed) →
  ∃ S, buildExpirySchedule pvt hashed = Ok ((λ p, mkExpiryInfo p.1 (Some p.2)) <$> sched_list S) ∧ full S ∧
    (∀ k, is_Some (S !! k) → ∃ ns coll kh, kh ∈ items_at S k ns coll) ∧
    ∀ k ns coll key h, mkKeyAndHash key h ∈ items_at S k ns coll ↔
      (∃ vv, um_Get pvt ns coll key = Some vv ∧ h = ComputeStringHash key ∧ scheduled ns coll key h vv = Some (k, (ns, coll, mkKeyAndHash key h))) ∨
      (∃ vv, um_Get hashed ns coll h = Some vv ∧ key = "" ∧ scheduled ns coll key h vv = Some (k, (ns, coll, mkKeyAndHash key h)) ∧
         ∀ key', h = ComputeStringHash key' → um_Get pvt ns coll key' = None).
Proof.
  intros Hp Hv1 Hv2. unfold buildExpirySchedule. set (P := ToCompositeKeyMap pvt) in *. set (Hh := ToCompositeKeyMap hashed) in *.
  set (ks := key_range ["pvtUpdates"] 0 P).
  assert (∀ ck, ck ∈ ks ↔ is_Some (P !! ck)) as Hks by (intros; apply key_range_elem).
  rewrite <- (fmap_empty (M := gmap expiryInfoKey) (A := keymap) Some). rewrite pvt_updates_fold; [|done..|by intros ck ?%Hks]. cbn [mbind outcome_bind].
  set (L := foldl _ Hh ks). rewrite hash_updates_fold; [|done|].
  2:{ intros ck vv. unfold L. rewrite deletes_lookup. case_decide; [done|]. apply Hv2. }
  cbn [mbind outcome_bind]. rewrite <- foldl_app, getExpiryInfo_list. eexists. split; [done|].
  split; [by apply adds_full|]. set (l := omap (pvt_item P) ks ++ _). split.
  { intros k [[? ?]|[[[ns coll] kh] Hin]]%adds_dom; [by rewrite lookup_empty in *|]. exists ns, coll, kh. apply elem_items_adds. by right. }
  intros k ns coll key h. rewrite elem_items_adds. unfold items_at at 1. rewrite lookup_empty. unfold items. cbn. rewrite lookup_empty. cbn.
  unfold l. rewrite elem_of_app, !list_elem_of_omap. split.
  - intros [?%not_elem_of_nil|[([[n c] key'] & _ & E)|([[n c] h'] & _ & E)]]; [done|left|right]; apply bind_Some in E as (vv & E & Es); exists vv.
    + pose proof Es as (_ & _ & _ & [= -> -> -> ->])%scheduled_Some. unfold P in E. rewrite composite_lookup in E. done.
    + pose proof Es as (_ & _ & _ & [= -> -> -> ->])%scheduled_Some. unfold L in E. rewrite deletes_lookup in E. case_decide as Hd; [done|].
      unfold Hh in E. rewrite composite_lookup in E. split_and!; [done..|]. intros key' ->. destruct (um_Get pvt _ _ key') eqn:Eg; [|done].
      exfalso. apply Hd. apply list_elem_of_fmap. exists (n, c, key'). split; [done|]. apply Hks. unfold P. rewrite composite_lookup. by eexists.
  - intros [(vv & E & -> & Es)|(vv & E & -> & Es & Hn)]; right; [left; exists (ns, coll, key)|right; exists (ns, coll, h)].
    + split; [apply Hks; unfold P; rewrite composite_lookup; by eexists|]. unfold pvt_item, P. cbn [fst snd]. by rewrite composite_lookup, E.
    + assert (L !! (ns, coll, h) = Some vv) as EL.
      { unfold L. rewrite deletes_lookup, decide_False; [unfold Hh; by rewrite composite_lookup|].
        intros ([[n c] key'] & [= <- <- Eh] & [? Hin]%Hks)%list_elem_of_fmap. unfold P in Hin. rewrite composite_lookup in Hin.
        rewrite (Hn key' Eh) in Hin. done. }
      split; [apply key_range_elem; by eexists|]. unfold hash_item. cbn [fst snd]. by rewrite EL.
Qed.
End builder.
