(* ===== verification/PrivateExpiry.v ===== *)
(** * PrivateExpiry: what a commit leaves of private data
      (core/ledger/kvledger/txmgmt/pvtstatepurgemgmt/purge_mgr.go,
      core/ledger/kvledger/txmgmt/txmgr/lockbased_txmgr.go)

    The transaction manager between commits, reconciliations of old private
    data, crashes and restarts: every live key is scheduled, what is selected
    for purging is what expires, and a commit removes exactly that. *)

From Stdlib Require Import Ascii.
From S2P Require Import Prelude GoText Protos TxFlags Proposal ProtoUtil Height StateDb PvtState RwSetUtil RangeQuery TxOps Mvcc BatchPreparer PurgeMgr PurgeSpec.

Notation state := (gmap string (gmap string VersionedValue)).

Section expiry.
Context `{Codec} `{MapOrder} `{KeyOrder} `{ScheduleOrder} `{ExpiryCodec} `{BTLPolicy} `{Hashing} `{VersionedDB} `{Bookkeeper}.
Context (btl : string → string → Z).

(** What the manager relies on: the policy, the codec, the databases, and
    hashes without collisions. *)
Record environment : Prop := {
  env_policy : policy_ok btl;
  env_codec : keys_codec;
  env_applies : applies;
  env_loads load db keys m : vdb_LoadCommittedVersions = Some load → holds db m → ∃ db', load db keys = Ok db' ∧ holds db' m;
  env_bookkeeper bk l : ∃ bk', bk_WriteBatch bk l = Ok bk';
  env_hash : Inj (=) (=) ComputeStringHash
}.

Notation expiry := (expiry btl).

Definition hash_at (m : state) (ns coll : string) (h : bytes) : option VersionedValue :=
  lookup_ns m (deriveHashedDataNs ns coll) !! keyHashStr h.
Definition pvt_at (m : state) (ns coll k : string) : option VersionedValue := lookup_ns m (derivePvtDataNs ns coll) !! k.

(** ** The invariant *)
Record wf_sched (n : Z) (S : sched) : Prop := {
  wf_full : full S;
  wf_info k : is_Some (S !! k) → info_ok k;
  wf_item k ns coll kh : kh ∈ items_at S k ns coll →
    plain_ns ns ∧ (committingBlk k ≤ n)%Z ∧ expiryBlk k = expiry ns coll (committingBlk k) ∧ expiryBlk k ≠ MaxUint64 ∧
    (kh_Key kh = "" ∨ ComputeStringHash (kh_Key kh) = kh_Hash kh)
}.

Definition written (n : Z) (vv : VersionedValue) : Prop := is_Some (vv_Version vv) ∧ (0 ≤ block_of vv < n)%Z.

(** The entry of the schedule for a value. *)
Definition entry_of (ns coll : string) (vv : VersionedValue) : expiryInfoKey :=
  mkExpiryInfoKey (block_of vv) (expiry ns coll (block_of vv)).

(** Before block [n]: what is alive was written before, is not expired, and is
    in the schedule; a private value is not newer than its hash. *)
Record live (n : Z) (m : state) (S : sched) : Prop := {
  live_hash ns coll h vv : plain_ns ns → hash_at m ns coll h = Some vv →
    written n vv ∧ (expiry ns coll (block_of vv) = MaxUint64 ∨
      (n ≤ expiry ns coll (block_of vv))%Z ∧ is_Some (tracked S (entry_of ns coll vv) ns coll h));
  live_pvt ns coll k vv : plain_ns ns → pvt_at m ns coll k = Some vv →
    written n vv ∧ k ≠ "" ∧ (expiry ns coll (block_of vv) = MaxUint64 ∨
      (n ≤ expiry ns coll (block_of vv))%Z ∧ tracked S (entry_of ns coll vv) ns coll (ComputeStringHash k) = Some k);
  live_order ns coll k vv hv : plain_ns ns → pvt_at m ns coll k = Some vv → hash_at m ns coll (ComputeStringHash k) = Some hv →
    (block_of vv ≤ block_of hv)%Z
}.

(** What is selected for purging with block [n]: values that expire then, and
    all of them. *)
Record ws_ok (n : Z) (m : state) (ws : workingset) : Prop := {
  ws_blk : ws_expiringBlk ws = n;
  ws_fine : ws_err ws = None;
  ws_clear : Forall (λ k, info_ok k ∧ expiryBlk k = n) (ws_toClearFromSchedule ws);
  ws_sound ns coll h v : ws_toPurge ws !! (ns, coll, h) = Some v →
    plain_ns ns ∧ is_u64 (kav_committingBlock v) ∧ expiry ns coll (kav_committingBlock v) = n ∧
    (kav_key v = "" ∨ ComputeStringHash (kav_key v) = h) ∧
    if kav_purgeKeyOnly v
    then kav_key v ≠ "" ∧ ∃ vv, pvt_at m ns coll (kav_key v) = Some vv ∧ block_of vv = kav_committingBlock v
    else ∃ vv, hash_at m ns coll h = Some vv ∧ block_of vv = kav_committingBlock v;
  ws_hashes ns coll h vv : plain_ns ns → hash_at m ns coll h = Some vv → expiry ns coll (block_of vv) = n →
    ∃ v, ws_toPurge ws !! (ns, coll, h) = Some v ∧ kav_purgeKeyOnly v = false;
  ws_keys ns coll k vv : plain_ns ns → pvt_at m ns coll k = Some vv → expiry ns coll (block_of vv) = n →
    ∃ v, ws_toPurge ws !! (ns, coll, ComputeStringHash k) = Some v ∧ kav_key v = k
}.

(** ** Selecting what expires *)
Lemma holds_hash db m ns coll h :
  holds (db_VersionedDB db) m → GetKeyHashVersion db ns coll h = Ok (hash_at m ns coll h ≫= vv_Version).
Proof. intros Hm. apply (holds_version _ _ Hm). Qed.
Lemma holds_pvt db m ns coll k : holds (db_VersionedDB db) m → GetPrivateData db ns coll k = Ok (pvt_at m ns coll k).
Proof. intros Hm. apply (holds_state _ _ Hm). Qed.

Definition judge (m : state) (ck : compositeKey) (v : keyAndVersion) : option keyAndVersion :=
  let '(ns, coll, h) := ck in
  if sameVersion (hash_at m ns coll h ≫= vv_Version) (kav_committingBlock v) then Some v
  else if bool_decide (kav_key v = "") then None
  else if sameVersionFromVal (pvt_at m ns coll (kav_key v)) (kav_committingBlock v)
  then Some (mkKeyAndVersion (kav_key v) (kav_committingBlock v) true) else None.

Lemma evaluate_entry_judge db m toPurge ck v :
  holds (db_VersionedDB db) m → toPurge !! ck = Some v → evaluate_entry db toPurge ck = Ok (partial_alter (λ _, judge m ck v) ck toPurge).
Proof.
  intros Hm Hv. unfold evaluate_entry, judge. rewrite Hv. destruct ck as [[ns coll] h]. rewrite (holds_hash _ _ _ _ _ Hm). cbn [mbind outcome_bind].
  destruct (sameVersion _ _); [by rewrite <- Hv, partial_alter_self|]. case_bool_decide; [done|].
  rewrite (holds_pvt _ _ _ _ _ Hm). cbn [mbind outcome_bind]. by destruct (sameVersionFromVal _ _).
Qed.

Lemma evaluate_fold db m toPurge ks :
  holds (db_VersionedDB db) m → NoDup ks → (∀ ck, ck ∈ ks → is_Some (toPurge !! ck)) →
  ∃ toPurge', foldM (evaluate_entry db) toPurge ks = Ok toPurge' ∧
    ∀ ck, toPurge' !! ck = if decide (ck ∈ ks) then toPurge !! ck ≫= judge m ck else toPurge !! ck.
Proof.
  intros Hm Hnd. revert toPurge. induction Hnd as [|ck ks Hni Hnd IH]; intros toPurge Hks.
  { exists toPurge. split; [done|]. intros ck. rewrite decide_False; [done|]. by intros ?%not_elem_of_nil. }
  destruct (Hks ck) as [v Hv]; [by left|]. cbn [foldM]. rewrite (evaluate_entry_judge _ _ _ _ _ Hm Hv).
  destruct (IH (partial_alter (λ _, judge m ck v) ck toPurge)) as (t' & -> & Ht').
  { intros ck' Hin. rewrite lookup_partial_alter_ne by (by intros ->). apply Hks. by right. }
  exists t'. split; [done|]. intros ck'. rewrite Ht'. destruct (decide (ck' = ck)) as [->|Hne].
  - rewrite decide_False by done. rewrite decide_True by by left. rewrite lookup_partial_alter_eq. by rewrite Hv.
  - rewrite lookup_partial_alter_ne by done. destruct (decide (ck' ∈ ks)) as [Hin|Hnin].
    + by rewrite decide_True by by right.
    + rewrite decide_False; [done|]. by intros [?|?]%elem_of_cons.
Qed.

Lemma sameVersion_true vv c : sameVersion (vv ≫= vv_Version) c = true ↔ ∃ x, vv = Some x ∧ is_Some (vv_Version x) ∧ block_of x = c.
Proof.
  unfold sameVersion, block_of. destruct vv as [x|]; cbn; [|split; [done|by intros (? & ? & _)]].
  destruct (vv_Version x) as [ver|] eqn:E.
  - rewrite Z.eqb_eq. split; [intros <-; exists x; by rewrite E|]. intros (x' & [= <-] & _ & Eb). by rewrite E in Eb.
  - split; [done|]. intros (x' & [= <-] & [? ?] & _). congruence.
Qed.

Lemma sameVersionFromVal_true vv c : sameVersionFromVal vv c = true ↔ ∃ x, vv = Some x ∧ is_Some (vv_Version x) ∧ block_of x = c.
Proof. rewrite <- sameVersion_true. by destruct vv. Qed.

Lemma tracked_items S k ns coll h key :
  tracked S k ns coll h = Some key → ∃ pk, S !! k = Some pk ∧ key_for (items pk ns coll) h = Some key.
Proof.
  unfold tracked, items_at. destruct (S !! k) as [pk|]; [by exists pk|]. unfold items. cbn. by rewrite lookup_empty.
Qed.

Lemma tracked_wf n S k ns coll h key :
  wf_sched n S → tracked S k ns coll h = Some key →
  info_ok k ∧ plain_ns ns ∧ (committingBlk k ≤ n)%Z ∧ expiryBlk k = expiry ns coll (committingBlk k) ∧ expiryBlk k ≠ MaxUint64 ∧
  (key = "" ∨ ComputeStringHash key = h).
Proof.
  intros Hw Ht. split; [apply (wf_info _ _ Hw); apply tracked_items in Ht as (pk & Hpk & _); by eexists|].
  apply key_for_Some in Ht. by destruct (wf_item _ _ Hw _ _ _ _ Ht) as (? & ? & ? & ? & ?).
Qed.

(** Blocks of a collection that expire together are the same block. *)
Lemma expiry_inj ns coll c c' :
  policy_ok btl → is_u64 c → is_u64 c' → expiry ns coll c = expiry ns coll c' → expiry ns coll c ≠ MaxUint64 → c = c'.
Proof. intros Hp Hc Hc'. rewrite !expiry_min by done. lia. Qed.

Lemma expiring_entries ek S n l :
  environment → keeps ek S → wf_sched n S →
  (∀ i, i ∈ l ↔ ∃ k pk, i = mkExpiryInfo k (Some pk) ∧ S !! k = Some pk ∧ expiryBlk k = n) →
  ∀ ns coll h v, transformToExpiryInfoMap l !! (ns, coll, h) = Some v ↔
    ∃ k key, expiryBlk k = n ∧ tracked S k ns coll h = Some key ∧ v = mkKeyAndVersion key (committingBlk k) false.
Proof.
  intros He Hk Hw Hl ns coll h v. rewrite transform_lookup.
  - split.
    + intros (k & pk & key & (k' & pk' & [= <- <-] & Hpk & Hx)%Hl & Hkey & ->). exists k, key. split_and!; try done.
      unfold tracked, items_at. by rewrite Hpk.
    + intros (k & key & Hx & Ht & ->). apply tracked_items in Ht as (pk & Hpk & Hkey). exists k, pk, key. split; [|done]. apply Hl. by exists k, pk.
  - intros i (k & pk & -> & _)%Hl. by exists k, pk.
  - intros k pk k' pk' (? & ? & [= <- <-] & Hpk & Hx)%Hl (? & ? & [= <- <-] & Hpk' & Hx')%Hl [key Hkey] [key' Hkey'].
    assert (tracked S k ns coll h = Some key) as Ht by (unfold tracked, items_at; by rewrite Hpk).
    assert (tracked S k' ns coll h = Some key') as Ht' by (unfold tracked, items_at; by rewrite Hpk').
    destruct (tracked_wf _ _ _ _ _ _ _ Hw Ht) as ([Hc _] & _ & _ & E & Hne & _), (tracked_wf _ _ _ _ _ _ _ Hw Ht') as ([Hc' _] & _ & _ & E' & _ & _).
    assert (k = k') as <-; [|split; [done|congruence]]. destruct k, k'. cbn in *. f_equal; [|congruence].
    eapply (expiry_inj ns coll); [apply He|done|done|congruence|congruence].
Qed.

Lemma preload_holds db m l :
  environment → holds (db_VersionedDB db) m → ∃ db', preloadCommittedVersionsInCache db l = Ok db' ∧ holds (db_VersionedDB db') m.
Proof.
  intros He Hm. unfold preloadCommittedVersionsInCache, IsBulkOptimizable, LoadCommittedVersionsOfPubAndHashedKeys.
  destruct vdb_LoadCommittedVersions as [load|] eqn:E; [|by exists db]. cbn [negb].
  edestruct (env_loads He load (db_VersionedDB db)) as (v & -> & Hv); [done..|]. cbn. eexists. by split.
Qed.

Lemma prepare_ok ek S db m n :
  environment → keeps ek S → holds (db_VersionedDB db) m → wf_sched n S → live n m S → (0 ≤ n < MaxUint64)%Z →
  ∃ ws db', prepareWorkingsetFor ek db n = Ok (ws, db') ∧ holds (db_VersionedDB db') m ∧ ws_ok n m ws.
Proof.
  intros He Hk Hm Hw Hlv Hn. unfold prepareWorkingsetFor. destruct (keeper_retrieve_keeps _ _ n Hk Hn) as (l & -> & Hl).
  pose proof (expiring_entries _ _ _ _ He Hk Hw Hl) as Ht. set (T0 := transformToExpiryInfoMap l) in *.
  destruct (preload_holds db m T0 He Hm) as (db' & -> & Hm').
  destruct (evaluate_fold db' m T0 (key_range ["toPurge"] 0 T0)) as (T & -> & HT); [done|rewrite key_range_ok; apply NoDup_fst_map_to_list|by intros ck ?%key_range_elem|].
  assert (∀ ck, T !! ck = T0 !! ck ≫= judge m ck) as HT'.
  { intros ck. rewrite HT. case_decide as Hd; [done|]. destruct (T0 !! ck) eqn:E; [|done]. destruct Hd. apply key_range_elem. by eexists. }
  clear HT. do 2 eexists. split_and!; [done..|]. split; cbn [ws_expiringBlk ws_err ws_toClearFromSchedule ws_toPurge]; [done|done| | | |].
  - apply Forall_forall. intros k ([[ns coll] h] & _ & (v & (k' & key & Hx & Htr & ->)%Ht & ->)%fmap_Some)%list_elem_of_omap. cbn.
    destruct (tracked_wf _ _ _ _ _ _ _ Hw Htr) as [Hok _]. destruct k'. cbn in *. by subst.
  - intros ns coll h v. rewrite HT'. intros (v0 & (k & key & Hx & Htr & ->)%Ht & Hj)%bind_Some.
    destruct (tracked_wf _ _ _ _ _ _ _ Hw Htr) as ([Hc _] & Hp & _ & Ex & Hne & Hkey). unfold judge in Hj. cbn in Hj.
    destruct (sameVersion _ _) eqn:Es.
    + injection Hj as <-. cbn. apply sameVersion_true in Es as (x & Hx' & _ & Hb). split_and!; [done|done|congruence|done|]. by exists x.
    + case_bool_decide as Hek; [done|]. destruct (sameVersionFromVal _ _) eqn:Es2; [|done]. injection Hj as <-. cbn.
      apply sameVersionFromVal_true in Es2 as (x & Hx' & _ & Hb). split_and!; [done|done|congruence|done|done|by exists x].
  - intros ns coll h vv Hp Hh Hx. destruct (live_hash _ _ _ Hlv ns coll h vv Hp Hh) as [[Hv _] [Hmax|[_ [key Htr]]]]; [lia|].
    exists (mkKeyAndVersion key (block_of vv) false). split; [|done]. rewrite HT'.
    assert (T0 !! (ns, coll, h) = Some (mkKeyAndVersion key (block_of vv) false)) as -> by (apply Ht; by exists (entry_of ns coll vv), key).
    cbn. by rewrite (proj2 (sameVersion_true (hash_at m ns coll h) _)) by eauto.
  - intros ns coll k vv Hp Hk' Hx. destruct (live_pvt _ _ _ Hlv ns coll k vv Hp Hk') as [[Hv _] [Hne [Hmax|[_ Htr]]]]; [lia|].
    assert (T0 !! (ns, coll, ComputeStringHash k) = Some (mkKeyAndVersion k (block_of vv) false)) as E0 by (apply Ht; by exists (entry_of ns coll vv), k).
    rewrite HT', E0. cbn. destruct (sameVersion _ _); [by eexists|]. rewrite bool_decide_eq_false_2 by done.
    rewrite (proj2 (sameVersionFromVal_true (pvt_at m ns coll k) _)) by eauto. by eexists.
Qed.

(** ** Deleting what expires *)
Lemma um_Get_Delete b ns coll k ver ns' coll' k' :
  um_Get (um_Delete b ns coll k ver) ns' coll' k' =
  if decide ((ns', coll', k') = (ns, coll, k)) then Some (mkVersionedValue None None ver) else um_Get b ns' coll' k'.
Proof. apply um_Get_Update. Qed.

(** Deletions that are added to a batch, where it has no update. *)
Record with_deletes (del : string → string → string → Prop) (b b' : UpdateMap) : Prop := {
  wd_old ns coll k vv : um_Get b ns coll k = Some vv → um_Get b' ns coll k = Some vv;
  wd_new ns coll k : um_Get b ns coll k = None → del ns coll k → ∃ vv, um_Get b' ns coll k = Some vv ∧ IsDelete vv = true;
  wd_none ns coll k : um_Get b ns coll k = None → ¬ del ns coll k → um_Get b' ns coll k = None
}.

Lemma with_deletes_add (del del' : string → string → string → Prop) b b1 ns coll k ver :
  with_deletes del b b1 →
  (∀ n c x, del' n c x ↔ del n c x ∨ (n, c, x) = (ns, coll, k)) →
  with_deletes del' b (if um_Contains b1 ns coll k then b1 else um_Delete b1 ns coll k ver).
Proof.
  intros Hw Hd. rewrite um_Contains_Get. case_bool_decide as Hc.
  - split; [apply Hw| |].
    + intros n c x Hn [?|[= -> -> ->]]%Hd; [by eapply wd_new|]. destruct Hc as [vv Hvv]. exists vv. split; [done|].
      destruct (um_Get b ns coll k) as [vv'|] eqn:E; [done|].
      destruct (IsDelete vv) eqn:Ed; [done|]. exfalso.
      assert (¬ del ns coll k) as Hnd. { intros Hdel. destruct (wd_new _ _ _ Hw _ _ _ E Hdel) as (vv'' & E1 & E2). congruence. }
      rewrite (wd_none _ _ _ Hw _ _ _ E Hnd) in Hvv. done.
    + intros n c x Hn Hnd. apply (wd_none _ _ _ Hw); [done|]. intros Hdel. apply Hnd, Hd. by left.
  - split; intros n c x.
    + intros vv Hvv. rewrite um_Get_Delete. case_decide as E; [|by eapply wd_old]. injection E as -> -> ->. destruct Hc. exists vv. by eapply wd_old.
    + intros Hn Hdel. rewrite um_Get_Delete. case_decide as E; [by eexists|]. apply Hd in Hdel as [?|?]; [by eapply wd_new|done].
    + intros Hn Hnd. rewrite um_Get_Delete. case_decide as E; [destruct Hnd; apply Hd; by right|]. apply (wd_none _ _ _ Hw); [done|].
      intros Hdel. apply Hnd, Hd. by left.
Qed.

Lemma with_deletes_same del del' b b1 : with_deletes del b b1 → (∀ n c x, del' n c x ↔ del n c x) → with_deletes del' b b1.
Proof.
  intros Hw Hd. split; [apply Hw|intros n c x Hn Hx%Hd; by eapply wd_new|intros n c x Hn Hx]. apply (wd_none _ _ _ Hw); [done|]. by rewrite <- Hd.
Qed.

Definition purged_key (ws : workingset) (ks : list compositeKey) (ns coll k : string) : Prop :=
  ∃ h v, (ns, coll, h) ∈ ks ∧ ws_toPurge ws !! (ns, coll, h) = Some v ∧ kav_key v = k ∧ k ≠ "".
Definition purged_hash (ws : workingset) (ks : list compositeKey) (ns coll h : string) : Prop :=
  ∃ v, (ns, coll, h) ∈ ks ∧ ws_toPurge ws !! (ns, coll, h) = Some v ∧ kav_purgeKeyOnly v = false.

Lemma add_expired_fold ws (P Hh : UpdateMap) ks :
  with_deletes (purged_key ws ks) P (foldl (add_expired ws) (P, Hh) ks).1 ∧
  with_deletes (purged_hash ws ks) Hh (foldl (add_expired ws) (P, Hh) ks).2.
Proof.
  induction ks as [|[[ns coll] h] ks IH] using rev_ind.
  { cbn. split; (split; [done|intros n c x _; unfold purged_key, purged_hash|done]).
    - by intros (? & ? & ?%not_elem_of_nil & _).
    - by intros (? & ?%not_elem_of_nil & _). }
  rewrite foldl_app. cbn [foldl]. destruct (foldl _ _ ks) as [P1 H1']. cbn [fst snd] in IH. destruct IH as [IH1 IH2]. unfold add_expired.
  destruct (ws_toPurge ws !! (ns, coll, h)) as [v|] eqn:Ev.
  - cbn [fst snd]. split.
    + destruct (bool_decide_reflect (kav_key v ≠ "")) as [Hk|Hk]; cbn [andb].
      * assert (∀ (b : bool) (x y : UpdateMap), (if negb b then x else y) = if b then y else x) as -> by (by intros []).
        eapply with_deletes_add; [exact IH1|]. intros n c x. unfold purged_key. split.
        -- intros (h' & v' & Hin & Hv' & Ek & Hne). apply elem_of_app in Hin as [Hin|Hin%list_elem_of_singleton]; [left; by exists h', v'|right].
           injection Hin as -> -> ->. rewrite Ev in Hv'. injection Hv' as <-. by subst.
        -- intros [(h' & v' & Hin & ?)|[= -> -> ->]]; [exists h', v'; split; [apply elem_of_app; by left|done]|].
           exists h, v. split; [apply elem_of_app; right; by left|done].
      * eapply with_deletes_same; [exact IH1|]. intros n c x. unfold purged_key. split.
        -- intros (h' & v' & [Hin|Hin%list_elem_of_singleton]%elem_of_app & Hv' & Ek & Hne); [by exists h', v'|].
           injection Hin as -> -> ->. rewrite Ev in Hv'. injection Hv' as <-. destruct Hk. by subst.
        -- intros (h' & v' & Hin & ?). exists h', v'. split; [apply elem_of_app; by left|done].
    + destruct (kav_purgeKeyOnly v) eqn:Ep.
      * rewrite andb_false_r. eapply with_deletes_same; [exact IH2|]. intros n c x. unfold purged_hash. split.
        -- intros (v' & [Hin|Hin%list_elem_of_singleton]%elem_of_app & Hv' & Ek); [by exists v'|].
           injection Hin as -> -> ->. congruence.
        -- intros (v' & Hin & ?). exists v'. split; [apply elem_of_app; by left|done].
      * rewrite andb_true_r. assert (∀ (b : bool) (x y : UpdateMap), (if negb b then x else y) = if b then y else x) as -> by (by intros []).
        eapply with_deletes_add; [exact IH2|]. intros n c x. unfold purged_hash. split.
        -- intros (v' & [Hin|Hin%list_elem_of_singleton]%elem_of_app & Hv' & Ek); [left; by exists v'|by right].
        -- intros [(v' & Hin & ?)|[= -> -> ->]]; [exists v'; split; [apply elem_of_app; by left|done]|].
           exists v. split; [apply elem_of_app; right; by left|done].
  - cbn [fst snd]. split; (eapply with_deletes_same; [eassumption|]); intros n c x; unfold purged_key, purged_hash; split.
    + intros (h' & v' & [Hin|Hin%list_elem_of_singleton]%elem_of_app & Hv' & ?); [by exists h', v'|]. injection Hin as -> -> ->. congruence.
    + intros (h' & v' & Hin & ?). exists h', v'. split; [apply elem_of_app; by left|done].
    + intros (v' & [Hin|Hin%list_elem_of_singleton]%elem_of_app & Hv' & ?); [by exists v'|]. injection Hin as -> -> ->. congruence.
    + intros (v' & Hin & ?). exists v'. split; [apply elem_of_app; by left|done].
Qed.

(** ** A block *)
(** The updates of block [n]: written by it, each private update with its
    hash, which is deleted when the private key is. *)
Record block_batch (n : Z) (b : PvtUpdateBatch) : Prop := {
  bb_plain : plain_updates b;
  bb_hash ns coll h vv : um_Get (HashUpdates b) ns coll h = Some vv → is_Some (vv_Version vv) ∧ block_of vv = n;
  bb_pvt ns coll k vv : um_Get (PvtUpdates b) ns coll k = Some vv →
    is_Some (vv_Version vv) ∧ block_of vv = n ∧ k ≠ "" ∧
    ∃ hv, um_Get (HashUpdates b) ns coll (ComputeStringHash k) = Some hv ∧ (IsDelete vv = true → IsDelete hv = true)
}.

(** What block [n] leaves at a key: its own update, or what was there unless
    that expires with the block. *)
Definition survives (n : Z) (ns coll : string) (upd old : option VersionedValue) : option VersionedValue :=
  match upd with
  | Some _ => after upd old
  | None =>
      match old with
      | Some vv => if (expiry ns coll (block_of vv) =? n)%Z then None else Some vv
      | None => None
      end
  end.

Lemma after_Some uv old vv : after (Some uv) old = Some vv ↔ IsDelete uv = false ∧ uv = vv.
Proof. cbn. destruct (IsDelete uv); naive_solver. Qed.

Lemma survives_Some n ns coll upd old vv :
  survives n ns coll upd old = Some vv →
  (upd = Some vv ∧ IsDelete vv = false) ∨ (upd = None ∧ old = Some vv ∧ expiry ns coll (block_of vv) ≠ n).
Proof.
  unfold survives. destruct upd as [uv|]; [intros [? ->]%after_Some; by left|]. destruct old as [ov|]; [|done].
  destruct (Z.eqb_spec (expiry ns coll (block_of ov)) n); [done|]. intros [= <-]. by right.
Qed.

(** *** The schedule of the block *)
Record block_sched (n : Z) (b : PvtUpdateBatch) (Sb : sched) : Prop := {
  bs_full : full Sb;
  bs_some k : is_Some (Sb !! k) → ∃ ns coll kh, kh ∈ items_at Sb k ns coll;
  bs_items k ns coll key h : mkKeyAndHash key h ∈ items_at Sb k ns coll ↔
    (∃ vv, um_Get (PvtUpdates b) ns coll key = Some vv ∧ h = ComputeStringHash key ∧
       scheduled btl ns coll key h vv = Some (k, (ns, coll, mkKeyAndHash key h))) ∨
    (∃ vv, um_Get (HashUpdates b) ns coll h = Some vv ∧ key = "" ∧ scheduled btl ns coll key h vv = Some (k, (ns, coll, mkKeyAndHash key h)) ∧
       ∀ key', h = ComputeStringHash key' → um_Get (PvtUpdates b) ns coll key' = None)
}.

Lemma UpdateExpiryInfo_ok p S n b :
  environment → keeps (pm_expKeeper p) S → block_batch n b → is_u64 n →
  ∃ p' Sb, UpdateExpiryInfo p (PvtUpdates b) (HashUpdates b) = Ok p' ∧ pm_workingset p' = pm_workingset p ∧
    block_sched n b Sb ∧ keeps (pm_expKeeper p') (Sb ∪ S).
Proof.
  intros He Hk Hb Hn. destruct (buildExpirySchedule_spec btl (PvtUpdates b) (HashUpdates b)) as (Sb & E & Hf & Hs & Hi).
  { apply He. }
  { intros [[ns coll] k] vv. rewrite composite_lookup. apply (bb_pvt _ _ Hb). }
  { intros [[ns coll] k] vv. rewrite composite_lookup. apply (bb_hash _ _ Hb). }
  assert (block_sched n b Sb) as HSb by done.
  unfold UpdateExpiryInfo. rewrite E. cbn [mbind outcome_bind].
  destruct (keeper_update_keeps (pm_expKeeper p) S (sched_list Sb) []) as (ek' & -> & Hk'); [apply He|done| |done|].
  { apply Forall_forall. intros [k pk] Hin%sched_list_elem. cbn. split; [|by eapply Hf].
    destruct (Hs k) as (ns & coll & [key h] & Hkh); [by eexists|].
    assert (∃ vv, block_of vv = n ∧ scheduled btl ns coll key h vv = Some (k, (ns, coll, mkKeyAndHash key h))) as (vv & Hbl & (_ & _ & -> & _)%scheduled_Some).
    { apply Hi in Hkh as [(vv & Hg & _ & ?)|(vv & Hg & _ & ? & _)]; exists vv; (split; [|done]); [by apply (bb_pvt _ _ Hb) in Hg as (_ & ? & _)|by apply (bb_hash _ _ Hb) in Hg as (_ & ?)]. }
    rewrite Hbl. split; [done|]. cbn. rewrite (expiry_min btl) by (done || apply He). pose proof (proj1 (env_policy He ns coll)).
    unfold is_u64, MaxUint64 in *. lia. }
  cbn [mbind outcome_bind]. exists (mkPurgeMgr ek' (pm_workingset p)), Sb. split_and!; [done..|]. cbn. by rewrite track_sched in Hk'.
Qed.

Lemma block_sched_item n b Sb k ns coll kh :
  block_batch n b → block_sched n b Sb → kh ∈ items_at Sb k ns coll →
  plain_ns ns ∧ committingBlk k = n ∧ expiryBlk k = expiry ns coll n ∧ expiryBlk k ≠ MaxUint64 ∧
  (kh_Key kh = "" ∨ ComputeStringHash (kh_Key kh) = kh_Hash kh).
Proof.
  intros Hb HSb Hin. destruct kh as [key h]. cbn.
  apply (bs_items _ _ _ HSb) in Hin as [(vv & Hg & -> & (_ & Hne & -> & _)%scheduled_Some)|(vv & Hg & -> & (_ & Hne & -> & _)%scheduled_Some & _)].
  - assert (block_of vv = n) as <- by (by apply (bb_pvt _ _ Hb) in Hg as (_ & ? & _)).
    split_and!; try done; [|by right]. by eapply (plain_pvt _ (bb_plain _ _ Hb)), um_Get_ns.
  - assert (block_of vv = n) as <- by (by apply (bb_hash _ _ Hb) in Hg as (_ & ?)).
    split_and!; try done; [|by left]. by eapply (plain_hash _ (bb_plain _ _ Hb)), um_Get_ns.
Qed.

Lemma block_sched_other n b Sb k : block_batch n b → block_sched n b Sb → committingBlk k ≠ n → Sb !! k = None.
Proof.
  intros Hb HSb Hne. destruct (Sb !! k) eqn:E; [|done]. destruct (bs_some _ _ _ HSb k) as (ns & coll & kh & Hin); [by eexists|].
  by destruct (block_sched_item _ _ _ _ _ _ _ Hb HSb Hin) as (_ & ? & _).
Qed.

Lemma items_at_union (S1 S2 : sched) k ns coll :
  items_at (S1 ∪ S2) k ns coll = match S1 !! k with Some _ => items_at S1 k ns coll | None => items_at S2 k ns coll end.
Proof.
  unfold items_at. destruct (S1 !! k) eqn:E; [by rewrite (lookup_union_Some_l _ _ _ _ E)|by rewrite lookup_union_r].
Qed.

Lemma block_sched_wf n b Sb S ek :
  block_batch n b → block_sched n b Sb → wf_sched n S → keeps ek (Sb ∪ S) → wf_sched n (Sb ∪ S).
Proof.
  intros Hb HSb Hw Hk. split.
  - intros k pk [Hl|[_ Hl]]%lookup_union_Some_raw; [by eapply (bs_full _ _ _ HSb)|by eapply (wf_full _ _ Hw)].
  - intros k [pk Hl]. by destruct (keeps_entry _ _ Hk _ _ Hl).
  - intros k ns coll kh. rewrite items_at_union. destruct (Sb !! k); [|apply (wf_item _ _ Hw)].
    intros (Hp & Hc & Hx & Hne & Hkey)%(block_sched_item n b Sb); [|done..]. split_and!; try done; [lia|by rewrite Hc].
Qed.

(** What the block writes is in its schedule, a private key with its hash. *)
Lemma block_tracked_hash n b Sb S ns coll h vv :
  block_batch n b → block_sched n b Sb → um_Get (HashUpdates b) ns coll h = Some vv → IsDelete vv = false →
  expiry ns coll n ≠ MaxUint64 → is_Some (tracked (Sb ∪ S) (mkExpiryInfoKey n (expiry ns coll n)) ns coll h).
Proof.
  intros Hb HSb Hg Hd Hne. destruct (bb_hash _ _ Hb _ _ _ _ Hg) as [_ Hbl].
  assert (∃ key, mkKeyAndHash key h ∈ items_at Sb (mkExpiryInfoKey n (expiry ns coll n)) ns coll) as [key Hin].
  { destruct (decide (List.Exists (λ ck, hash_key ck = (ns, coll, h)) (map_to_list (ToCompositeKeyMap (PvtUpdates b))).*1)) as [HE|HN].
    - apply Exists_exists in HE as ([[ns' coll'] key] & ([ck pv] & [= <-] & Hpv%elem_of_map_to_list)%list_elem_of_fmap & [= -> -> Eh]).
      rewrite composite_lookup in Hpv. exists key. apply (bs_items _ _ _ HSb). left. exists pv. split_and!; [done..|].
      destruct (bb_pvt _ _ Hb _ _ _ _ Hpv) as (_ & Hpb & _ & hv & Hhv & Hdel). apply scheduled_Some. rewrite Hpb. split_and!; [|done..].
      rewrite Eh, Hg in Hhv. injection Hhv as <-. destruct (IsDelete pv); [|done]. by rewrite Hdel in Hd.
    - exists "". apply (bs_items _ _ _ HSb). right. exists vv. split_and!; [done..|apply scheduled_Some; by rewrite Hbl|].
      intros key' ->. destruct (um_Get (PvtUpdates b) ns coll key') as [pv|] eqn:E; [|done]. destruct HN. apply Exists_exists. exists (ns, coll, key').
      split; [|done]. apply list_elem_of_fmap. exists (ns, coll, key', pv). split; [done|]. apply elem_of_map_to_list. by rewrite composite_lookup. }
  apply key_for_is_Some. exists key. rewrite items_at_union. destruct (Sb !! _) eqn:E; [done|].
  unfold items_at in Hin. rewrite E in Hin. unfold items in Hin. cbn in Hin. rewrite lookup_empty in Hin. by apply not_elem_of_nil in Hin.
Qed.

Lemma block_tracked_key n b Sb S ns coll k vv :
  environment → block_batch n b → block_sched n b Sb → um_Get (PvtUpdates b) ns coll k = Some vv → IsDelete vv = false →
  expiry ns coll n ≠ MaxUint64 → tracked (Sb ∪ S) (mkExpiryInfoKey n (expiry ns coll n)) ns coll (ComputeStringHash k) = Some k.
Proof.
  intros He Hb HSb Hg Hd Hne. destruct (bb_pvt _ _ Hb _ _ _ _ Hg) as (_ & Hbl & _).
  assert (mkKeyAndHash k (ComputeStringHash k) ∈ items_at Sb (mkExpiryInfoKey n (expiry ns coll n)) ns coll) as Hin.
  { apply (bs_items _ _ _ HSb). left. exists vv. split_and!; [done..|]. apply scheduled_Some. by rewrite Hbl. }
  unfold tracked. rewrite items_at_union. destruct (Sb !! _) eqn:E.
  - apply key_for_only; [done|]. intros k' [(vv' & _ & Ek & _)|(vv' & _ & -> & _ & Hn)]%(bs_items _ _ _ HSb); [by apply (env_hash He)|].
    rewrite (Hn k) in Hg; done.
  - unfold items_at in Hin. rewrite E in Hin. unfold items in Hin. cbn in Hin. rewrite lookup_empty in Hin. by apply not_elem_of_nil in Hin.
Qed.

(** *** The state after the block *)
Lemma apply_ok db u m h :
  environment → holds (db_VersionedDB db) m → alive_state m → plain_updates u →
  ∃ db' m', ApplyPrivacyAwareUpdates db u h = (db', Ok ()) ∧ holds (db_VersionedDB db') m' ∧ alive_state m' ∧
    (∀ ns k, plain_ns ns → lookup_ns m' ns !! k = after (Get (PubUpdates u) ns k) (lookup_ns m ns !! k)) ∧
    ∀ ns coll k, plain_ns ns →
      hash_at m' ns coll k = after (um_Get (HashUpdates u) ns coll k) (hash_at m ns coll k) ∧
      pvt_at m' ns coll k = after (um_Get (PvtUpdates u) ns coll k) (pvt_at m ns coll k).
Proof.
  intros He Hm Ha Hu. destruct (env_applies He _ _ (combined u) h Hm) as (v & Hv & Hm').
  unfold ApplyPrivacyAwareUpdates. fold (combined u). unfold setMetadataUsedFlag.
  match goal with |- context [bk_WriteBatch ?a ?l] => destruct (env_bookkeeper He a l) as [bk' ->] end. rewrite Hv.
  do 2 eexists. split_and!; [done|exact Hm'|by apply apply_batch_alive|intros ns k Hns|intros ns coll k Hns].
  { destruct (combined_Get u ns "" k Hu Hns) as (Hp & _). by rewrite apply_batch_lookup, Hp by done. }
  destruct (combined_Get u ns coll k Hu Hns) as (_ & Hp & Hh). unfold hash_at, pvt_at. by rewrite !apply_batch_lookup, Hp, Hh by done.
Qed.

Lemma expired_plain n m ws (P Hh : UpdateMap) ks :
  ws_ok n m ws → (∀ ns, is_Some (P !! ns) → plain_ns ns) → (∀ ns, is_Some (Hh !! ns) → plain_ns ns) →
  (∀ ns, is_Some ((foldl (add_expired ws) (P, Hh) ks).1 !! ns) → plain_ns ns) ∧
  (∀ ns, is_Some ((foldl (add_expired ws) (P, Hh) ks).2 !! ns) → plain_ns ns).
Proof.
  intros Hws HP HH. induction ks as [|[[ns coll] h] ks [IH1 IH2]] using rev_ind; [done|]. rewrite foldl_app. cbn [foldl].
  destruct (foldl _ _ ks) as [P1 H1']. cbn [fst snd] in *. unfold add_expired.
  destruct (ws_toPurge ws !! (ns, coll, h)) as [v|] eqn:Ev; [|done]. destruct (ws_sound _ _ _ Hws _ _ _ _ Ev) as [Hp _].
  cbn [fst snd]. split; (match goal with |- context [if ?c then _ else _] => destruct c end; [|done]); intros ns' [x Hx];
    unfold um_Delete in Hx; (destruct (decide (ns' = ns)) as [->|Hne]; [done|]); rewrite lookup_insert_ne in Hx by done; eauto.
Qed.

Lemma after_delete vv old : IsDelete vv = true → after (Some vv) old = None.
Proof. intros E. cbn. by rewrite E. Qed.

Lemma hash_survives n m ws (b : PvtUpdateBatch) Hh' ns coll h :
  ws_ok n m ws → plain_ns ns →
  with_deletes (purged_hash ws (key_range ["expired"] 0 (ws_toPurge ws))) (HashUpdates b) Hh' →
  after (um_Get Hh' ns coll h) (hash_at m ns coll h) = survives n ns coll (um_Get (HashUpdates b) ns coll h) (hash_at m ns coll h).
Proof.
  intros Hws Hp Hd. unfold survives. destruct (um_Get (HashUpdates b) ns coll h) as [uv|] eqn:Eu; [by rewrite (wd_old _ _ _ Hd _ _ _ _ Eu)|].
  assert (purged_hash ws (key_range ["expired"] 0 (ws_toPurge ws)) ns coll h ↔ ∃ v, ws_toPurge ws !! (ns, coll, h) = Some v ∧ kav_purgeKeyOnly v = false) as Hpu.
  { unfold purged_hash. split; [intros (v & _ & ?); by exists v|]. intros (v & Hv & ?). exists v. split; [apply key_range_elem; by eexists|done]. }
  destruct (ws_toPurge ws !! (ns, coll, h)) as [v|] eqn:Ev; [destruct (kav_purgeKeyOnly v) eqn:Ek|].
  1,3: rewrite (wd_none _ _ _ Hd) by (done || rewrite Hpu; intros (v' & Hv' & Hk'); congruence); cbn [after];
    (destruct (hash_at m ns coll h) as [vv|] eqn:Eh; [|done]); (destruct (Z.eqb_spec (expiry ns coll (block_of vv)) n) as [Ex|]; [|done]);
    destruct (ws_hashes _ _ _ Hws _ _ _ _ Hp Eh Ex) as (v' & Hv' & Hk'); congruence.
  destruct (wd_new _ _ _ Hd ns coll h Eu) as (dv & -> & Hdel); [apply Hpu; by exists v|]. rewrite after_delete by done.
  destruct (ws_sound _ _ _ Hws _ _ _ _ Ev) as (_ & _ & Hx & _ & Hv). rewrite Ek in Hv. destruct Hv as (vv & Hh & Hb). rewrite Hh, Hb, Hx.
  by rewrite Z.eqb_refl.
Qed.

(** A private value not newer than a hash that expires does not outlive it. *)
Lemma expires_with_hash n ns coll c c' :
  policy_ok btl → is_u64 c → is_u64 c' → (c ≤ c')%Z → (n < MaxUint64)%Z → expiry ns coll c' = n →
  expiry ns coll c = MaxUint64 ∨ (n ≤ expiry ns coll c)%Z → expiry ns coll c = n.
Proof. intros Hp Hc Hc'. rewrite !(expiry_min btl) by done. lia. Qed.

Lemma pvt_survives n m S ws (b : PvtUpdateBatch) P' ns coll k :
  environment → (n < MaxUint64)%Z → live n m S → ws_ok n m ws → plain_ns ns →
  with_deletes (purged_key ws (key_range ["expired"] 0 (ws_toPurge ws))) (PvtUpdates b) P' →
  after (um_Get P' ns coll k) (pvt_at m ns coll k) = survives n ns coll (um_Get (PvtUpdates b) ns coll k) (pvt_at m ns coll k).
Proof.
  intros He Hn Hl Hws Hp Hd. unfold survives. destruct (um_Get (PvtUpdates b) ns coll k) as [uv|] eqn:Eu; [by rewrite (wd_old _ _ _ Hd _ _ _ _ Eu)|].
  assert ((∃ v, ws_toPurge ws !! (ns, coll, ComputeStringHash k) = Some v ∧ kav_key v = k ∧ k ≠ "") ∨
    ¬ (∃ v, ws_toPurge ws !! (ns, coll, ComputeStringHash k) = Some v ∧ kav_key v = k ∧ k ≠ "")) as [(v & Hv & Hk & Hne)|HN].
  { destruct (ws_toPurge ws !! (ns, coll, ComputeStringHash k)) as [v|]; [|right; by intros (? & ? & _)].
    destruct (decide (kav_key v = k ∧ k ≠ "")); [left; by exists v|right; by intros (? & [= <-] & ?)]. }
  - destruct (wd_new _ _ _ Hd ns coll k Eu) as (dv & -> & Hdel).
    { exists (ComputeStringHash k), v. split; [apply key_range_elem; by eexists|done]. }
    rewrite after_delete by done. destruct (pvt_at m ns coll k) as [vv|] eqn:Ep; [|done].
    destruct (ws_sound _ _ _ Hws _ _ _ _ Hv) as (_ & Hc & Hx & _ & Hv'). assert (expiry ns coll (block_of vv) = n) as ->; [|by rewrite Z.eqb_refl].
    destruct (live_pvt _ _ _ Hl _ _ _ _ Hp Ep) as ([_ Hw] & _ & Hlv). rewrite Hk in Hv'.
    destruct (kav_purgeKeyOnly v); [destruct Hv' as (_ & vv' & Hpv & Hb); congruence|]. destruct Hv' as (hv & Hh & Hb).
    pose proof (live_order _ _ _ Hl _ _ _ _ _ Hp Ep Hh) as Hord. rewrite <- Hb in Hx, Hc.
    eapply (expires_with_hash n ns coll _ (block_of hv)); [apply He|unfold is_u64, MaxUint64 in *; lia|done|done|done|done|].
    by destruct Hlv as [?|[? _]]; [left|right].
  - rewrite (wd_none _ _ _ Hd _ _ _ Eu).
    + cbn [after]. destruct (pvt_at m ns coll k) as [vv|] eqn:Ep; [|done]. destruct (Z.eqb_spec (expiry ns coll (block_of vv)) n) as [Ex|]; [|done].
      destruct HN. destruct (ws_keys _ _ _ Hws _ _ _ _ Hp Ep Ex) as (v & Hv & Hk). exists v. by destruct (live_pvt _ _ _ Hl _ _ _ _ Hp Ep) as (_ & ? & _).
    + intros (h & v & _ & Hv & Hk & Hne). apply HN. exists v. destruct (ws_sound _ _ _ Hws _ _ _ _ Hv) as (_ & _ & _ & [?|<-] & _); [congruence|]. by rewrite Hk in *.
Qed.

Lemma live_next n b Sb m m' S ek :
  environment → block_batch n b → block_sched n b Sb → (0 ≤ n < MaxUint64)%Z → keeps ek (Sb ∪ S) → live n m S →
  (∀ ns coll k, plain_ns ns →
     hash_at m' ns coll k = survives n ns coll (um_Get (HashUpdates b) ns coll k) (hash_at m ns coll k) ∧
     pvt_at m' ns coll k = survives n ns coll (um_Get (PvtUpdates b) ns coll k) (pvt_at m ns coll k)) →
  live (n + 1) m' (Sb ∪ S).
Proof.
  intros He Hb HSb Hn Hk Hl Hm'.
  assert (∀ ns coll, expiry ns coll n = MaxUint64 ∨ (n + 1 ≤ expiry ns coll n)%Z) as Hfut.
  { intros ns coll. rewrite (expiry_min btl) by (apply He || (unfold is_u64, MaxUint64 in *; lia)). pose proof (proj1 (env_policy He ns coll)). lia. }
  assert (∀ ns coll h vv, (block_of vv < n)%Z → tracked (Sb ∪ S) (entry_of ns coll vv) ns coll h = tracked S (entry_of ns coll vv) ns coll h) as Hold.
  { intros ns coll h vv Hlt. unfold tracked. rewrite items_at_union, (block_sched_other n b Sb); [done..|]. cbn. lia. }
  split.
  - intros ns coll h vv Hp. rewrite (proj1 (Hm' ns coll h Hp)). intros [[Hu Hd]|(_ & Ho & Hx)]%survives_Some.
    + destruct (bb_hash _ _ Hb _ _ _ _ Hu) as [Hv Hbl]. unfold written, entry_of. rewrite Hbl. split; [split; [done|lia]|].
      destruct (decide (expiry ns coll n = MaxUint64)) as [?|Hne]; [by left|right]. split; [by destruct (Hfut ns coll)|].
      by eapply block_tracked_hash.
    + destruct (live_hash _ _ _ Hl _ _ _ _ Hp Ho) as [[Hv Hw] Hlv]. split; [split; [done|lia]|]. rewrite Hold by lia.
      destruct Hlv as [?|[? ?]]; [by left|right; split; [lia|done]].
  - intros ns coll k vv Hp. rewrite (proj2 (Hm' ns coll k Hp)). intros [[Hu Hd]|(_ & Ho & Hx)]%survives_Some.
    + destruct (bb_pvt _ _ Hb _ _ _ _ Hu) as (Hv & Hbl & Hne & _). unfold written, entry_of. rewrite Hbl. split_and!; [done|lia|lia|done|].
      destruct (decide (expiry ns coll n = MaxUint64)) as [?|Hnx]; [by left|right]. split; [by destruct (Hfut ns coll)|].
      by eapply block_tracked_key.
    + destruct (live_pvt _ _ _ Hl _ _ _ _ Hp Ho) as ([Hv Hw] & Hne & Hlv). split; [split; [done|lia]|]. split; [done|]. rewrite Hold by lia.
      destruct Hlv as [?|[? ?]]; [by left|right; split; [lia|done]].
  - intros ns coll k vv hv Hp. rewrite (proj2 (Hm' ns coll k Hp)), (proj1 (Hm' ns coll (ComputeStringHash k) Hp)).
    intros [[Hu _]|(Hu & Ho & _)]%survives_Some [[Hu' _]|(Hu' & Ho' & _)]%survives_Some.
    + apply (bb_pvt _ _ Hb) in Hu as (_ & -> & _). by apply (bb_hash _ _ Hb) in Hu' as (_ & ->).
    + apply (bb_pvt _ _ Hb) in Hu as (_ & _ & _ & x & Hx & _). congruence.
    + apply (bb_hash _ _ Hb) in Hu' as (_ & ->). destruct (live_pvt _ _ _ Hl _ _ _ _ Hp Ho) as ([_ Hw] & _). lia.
    + by eapply (live_order _ _ _ Hl).
Qed.

(** ** The transaction manager *)
Record mgr_ok (n : Z) (m : state) (S : sched) (t : LockBasedTxMgr) : Prop := {
  mo_keeps : keeps (pm_expKeeper (tm_purgeMgr t)) S;
  mo_holds : holds (db_VersionedDB (tm_db t)) m;
  mo_alive : alive_state m;
  mo_sched : wf_sched n S;
  mo_live : live n m S;
  mo_ws : if tm_usedOnce t then ∃ ws, pm_workingset (tm_purgeMgr t) = Some ws ∧ ws_ok n m ws else pm_workingset (tm_purgeMgr t) = None
}.

Lemma wf_sched_mono n n' S : (n ≤ n')%Z → wf_sched n S → wf_sched n' S.
Proof.
  intros Hle Hw. split; [apply Hw..|]. intros k ns coll kh Hin. destruct (wf_item _ _ Hw _ _ _ _ Hin) as (? & ? & ? & ? & ?). split_and!; try done. lia.
Qed.

(** The first part of a commit: what was alive and expires is gone, what the
    block wrote is there, and what is left in the schedule is harmless. *)
Lemma commit_updates_ok n m S t b mx :
  environment → mgr_ok n m S t → block_batch n b → (0 ≤ n < MaxUint64)%Z →
  ∃ p db m' S' ws, commit_updates t b n mx = Ok (p, db) ∧ keeps (pm_expKeeper p) S' ∧ holds (db_VersionedDB db) m' ∧ alive_state m' ∧
    wf_sched n S' ∧ live (n + 1) m' S' ∧ pm_workingset p = Some ws ∧ ws_ok n m ws ∧
    (∀ ns k, plain_ns ns → lookup_ns m' ns !! k = after (Get (PubUpdates b) ns k) (lookup_ns m ns !! k)) ∧
    ∀ ns coll k, plain_ns ns →
      hash_at m' ns coll k = survives n ns coll (um_Get (HashUpdates b) ns coll k) (hash_at m ns coll k) ∧
      pvt_at m' ns coll k = survives n ns coll (um_Get (PvtUpdates b) ns coll k) (pvt_at m ns coll k).
Proof.
  intros He Ht Hb Hn. unfold commit_updates.
  assert (∃ ws p db, (if tm_usedOnce t then Ok (tm_purgeMgr t, tm_db t) else PrepareForExpiringKeys (tm_purgeMgr t) (tm_db t) n) = Ok (p, db) ∧
    pm_expKeeper p = pm_expKeeper (tm_purgeMgr t) ∧ pm_workingset p = Some ws ∧ ws_ok n m ws ∧ holds (db_VersionedDB db) m) as (ws & p & db & -> & Hek & Hpw & Hws & Hm).
  { pose proof (mo_ws _ _ _ _ Ht) as Hw. destruct (tm_usedOnce t).
    - destruct Hw as (ws & Hws & Hok). exists ws, (tm_purgeMgr t), (tm_db t). split_and!; [done..|apply (mo_holds _ _ _ _ Ht)].
    - destruct (prepare_ok (pm_expKeeper (tm_purgeMgr t)) S (tm_db t) m n) as (ws & db' & E & Hm' & Hws); [done|apply Ht..|done|].
      unfold PrepareForExpiringKeys. rewrite E. cbn. by do 3 eexists. }
  cbn [mbind outcome_bind]. destruct (UpdateExpiryInfo_ok p S n b) as (p' & Sb & -> & Hw' & HSb & Hk'); [done|rewrite Hek; apply Ht|done|unfold is_u64, MaxUint64 in *; lia|].
  cbn [mbind outcome_bind]. unfold AddExpiredEntriesToUpdateBatch. rewrite Hw', Hpw. cbn [deref mbind outcome_bind]. rewrite (ws_fine _ _ _ Hws).
  cbn [mbind outcome_bind]. destruct (add_expired_fold ws (PvtUpdates b) (HashUpdates b) (key_range ["expired"] 0 (ws_toPurge ws))) as [HdP HdH].
  destruct (expired_plain n m ws (PvtUpdates b) (HashUpdates b) (key_range ["expired"] 0 (ws_toPurge ws)) Hws (plain_pvt _ (bb_plain _ _ Hb)) (plain_hash _ (bb_plain _ _ Hb))) as [HpP HpH].
  destruct (foldl _ _ _) as [P' Hh']. cbn [fst snd] in *.
  destruct (apply_ok db (mkPvtUpdateBatch (PubUpdates b) Hh' P') m (Some (mkHeight n mx))) as (db' & m' & -> & Hm' & Ha' & Hpub & Hs'); [done|done|apply Ht|split; [apply (bb_plain _ _ Hb)|done..]|].
  cbn [mbind outcome_bind]. cbn [HashUpdates PvtUpdates] in Hs'.
  assert (∀ ns coll k, plain_ns ns →
    hash_at m' ns coll k = survives n ns coll (um_Get (HashUpdates b) ns coll k) (hash_at m ns coll k) ∧
    pvt_at m' ns coll k = survives n ns coll (um_Get (PvtUpdates b) ns coll k) (pvt_at m ns coll k)) as Hsv.
  { intros ns coll k Hp. destruct (Hs' ns coll k Hp) as [-> ->]. split; [by eapply hash_survives|].
    eapply pvt_survives; [done|lia|by eapply mo_live|done..]. }
  exists p', db', m', (Sb ∪ S), ws. rewrite Hw'. split_and!; try done.
  - eapply block_sched_wf; [done..|apply Ht|done].
  - eapply live_next; [done..|by eapply mo_live|done].
Qed.

Lemma clear_lookup (S : sched) l k : clear S l !! k = if decide (k ∈ l) then None else S !! k.
Proof.
  unfold clear. induction l as [|k' l IH] using rev_ind; [rewrite decide_False; [done|by intros ?%not_elem_of_nil]|].
  rewrite foldl_app. cbn [foldl]. destruct (decide (k' = k)) as [->|Hne].
  - rewrite lookup_delete_eq, decide_True; [done|]. apply elem_of_app. right. by left.
  - rewrite lookup_delete_ne, IH by done. destruct (decide (k ∈ l)) as [Hin|Hni].
    + rewrite decide_True; [done|]. apply elem_of_app. by left.
    + rewrite decide_False; [done|]. intros [?|?%list_elem_of_singleton]%elem_of_app; congruence.
Qed.

(** Clearing entries that are past. *)
Lemma live_clear n m S l : live n m S → Forall (λ k, expiryBlk k < n)%Z l → live n m (clear S l).
Proof.
  intros Hl Hc. rewrite Forall_forall in Hc.
  assert (∀ ns coll vv h, (n ≤ expiry ns coll (block_of vv))%Z → tracked (clear S l) (entry_of ns coll vv) ns coll h = tracked S (entry_of ns coll vv) ns coll h) as Ht.
  { intros ns coll vv h Hx. unfold tracked, items_at. rewrite clear_lookup, decide_False; [done|]. intros Hin%Hc. cbn in Hin. lia. }
  split.
  - intros ns coll h vv Hp Hh. destruct (live_hash _ _ _ Hl _ _ _ _ Hp Hh) as [Hw [?|[Hx Htr]]]; [by auto|]. split; [done|right]. by rewrite Ht.
  - intros ns coll k vv Hp Hh. destruct (live_pvt _ _ _ Hl _ _ _ _ Hp Hh) as (Hw & Hne & [?|[Hx Htr]]); [by auto|]. split_and!; [apply Hw..|done|right]. by rewrite Ht.
  - apply Hl.
Qed.

Lemma wf_clear n S l : wf_sched n S → wf_sched n (clear S l).
Proof.
  intros Hw. split.
  - intros k pk. rewrite clear_lookup. case_decide; [done|]. apply (wf_full _ _ Hw).
  - intros k. rewrite clear_lookup. case_decide; [by intros []|]. apply (wf_info _ _ Hw).
  - intros k ns coll kh. unfold items_at. rewrite clear_lookup. case_decide; [|apply (wf_item _ _ Hw)].
    unfold items. cbn. rewrite lookup_empty. by intros ?%not_elem_of_nil.
Qed.

Lemma txmgr_Commit_ok n m S t b mx :
  environment → mgr_ok n m S t → block_batch n b → (0 ≤ n)%Z → (n + 1 < MaxUint64)%Z →
  ∃ t' m' S', txmgr_Commit t b n mx = Ok t' ∧ mgr_ok (n + 1) m' S' t' ∧
    (∀ ns k, plain_ns ns → lookup_ns m' ns !! k = after (Get (PubUpdates b) ns k) (lookup_ns m ns !! k)) ∧
    ∀ ns coll k, plain_ns ns →
      hash_at m' ns coll k = survives n ns coll (um_Get (HashUpdates b) ns coll k) (hash_at m ns coll k) ∧
      pvt_at m' ns coll k = survives n ns coll (um_Get (PvtUpdates b) ns coll k) (pvt_at m ns coll k).
Proof.
  intros He Ht Hb Hn0 Hn. destruct (commit_updates_ok n m S t b mx) as (p & db & m' & S' & ws & E & Hk & Hm' & Ha' & Hw' & Hl' & Hpw & Hws & Hpub & Hsv); [done..|lia|].
  unfold txmgr_Commit. rewrite E. cbn [mbind outcome_bind]. unfold BlockCommitDone. rewrite Hpw. cbn [deref mbind outcome_bind].
  pose proof (ws_clear _ _ _ Hws) as Hcl.
  destruct (keeper_update_keeps (pm_expKeeper p) S' [] (ws_toClearFromSchedule ws)) as (ek' & Ek & Hk'); [apply He|done|done|by eapply Forall_impl; [exact Hcl|by intros ? []]|].
  cbn [fmap list_fmap] in Ek. rewrite Ek. cbn [mbind outcome_bind]. cbn [track foldl] in Hk'.
  assert (live (n + 1) m' (clear S' (ws_toClearFromSchedule ws))) as Hl''.
  { apply live_clear; [done|]. eapply Forall_impl; [exact Hcl|]. intros k [_ Hx]. lia. }
  assert (wf_sched (n + 1) (clear S' (ws_toClearFromSchedule ws))) as Hw'' by (apply wf_clear; eapply wf_sched_mono; [|done]; lia).
  unfold PrepareForExpiringKeys. cbn [pm_expKeeper]. unfold u64. rewrite wrap_small by (unfold MaxUint64 in *; lia).
  destruct (prepare_ok ek' _ db m' (n + 1) He Hk' Hm' Hw'' Hl'') as (ws' & db' & -> & Hm'' & Hws'); [lia|]. cbn [mbind outcome_bind].
  do 3 eexists. split; [done|]. split; [|exact (conj Hpub Hsv)]. split; [exact Hk'|done|done|done|done|]. by exists ws'.
Qed.

(** ** Private data of old blocks *)
(** The reconciled data name chaincodes, and no empty key. *)
Definition reconciled_ok (rec : list (Z * list TxPvtData)) : Prop :=
  ∀ blk ds d ws ns c kv w, (blk, ds) ∈ rec → d ∈ ds → pvd_WriteSet d = Some ws → ns ∈ tpw_NsPvtRwset ws →
    c ∈ npw_CollectionPvtRwset ns → unmarshal_KVRWSet (cpw_Rwset c) = Some kv → w ∈ kv_Writes kv →
    plain_ns (npw_Namespace ns) ∧ kvw_Key w ≠ "".

(** A write under the hash of its key. *)
Definition unique_ok (u : gmap compositeKey PvtKVWrite) : Prop := ∀ ns coll h w,
  u !! (ns, coll, h) = Some w → plain_ns ns ∧ pw_Key w ≠ "" ∧ h = ComputeStringHash (pw_Key w) ∧ is_Some (pw_Version w).

Lemma updateUsingPvtWrite_ok u w ns coll ver u' :
  unique_ok u → plain_ns ns → kvw_Key w ≠ "" →
  updateUsingPvtWrite u w (ns, coll, ComputeStringHash (kvw_Key w)) ver = Ok u' → unique_ok u'.
Proof.
  intros Hu Hp Hne. unfold updateUsingPvtWrite. intros ([] & _ & [= <-])%bind_Ok; [|done]. intros ns' coll' h' w'.
  destruct (decide ((ns', coll', h') = (ns, coll, ComputeStringHash (kvw_Key w)))) as [E|Hd].
  - rewrite E, lookup_insert_eq. intros [= <-]. injection E as -> -> ->. cbn. split_and!; [done..|by eexists].
  - rewrite lookup_insert_ne by congruence. apply Hu.
Qed.

Lemma constructUniquePvtData_ok rec u : reconciled_ok rec → constructUniquePvtData rec = Ok u → unique_ok u.
Proof.
  intros Hr. apply foldM_inv; [|intros ns coll h w; by rewrite lookup_empty]. intros [blk ds] u1 u2 Hin1 Hu1.
  apply foldM_inv; [|done]. intros d u3 u4 Hin2 Hu3. unfold updateUsingTxPvtData. intros (ws & Hws%deref_Ok & E)%bind_Ok. revert E.
  apply foldM_inv; [|done]. intros n u5 u6 Hin3 Hu5. apply foldM_inv; [|done]. intros c u7 u8 Hin4 Hu7. unfold updateUsingCollPvtData.
  intros (kv & Hkv%from_option_err_Ok & E)%bind_Ok. revert E. apply foldM_inv; [|done]. intros w u9 u10 Hin5 Hu9.
  destruct (Hr _ _ _ _ _ _ _ _ Hin1 Hin2 Hws Hin3 Hin4 Hkv Hin5) as [Hp Hne]. by apply updateUsingPvtWrite_ok.
Qed.

(** A write that is not stale: a deletion, or of the version of its hash. *)
Definition fresh (m : state) (ck : compositeKey) (w : PvtKVWrite) : Prop :=
  pw_IsDelete w = true ∨ ∃ hv, hash_at m ck.1.1 ck.1.2 ck.2 = Some hv ∧ pw_Version w = vv_Version hv.

Lemma checkIfPvtWriteIsStale_ok db m ns coll h w w' :
  holds (db_VersionedDB db) m → is_Some (pw_Version w) → checkIfPvtWriteIsStale (ns, coll, h) w db = Ok (false, w') →
  fresh m (ns, coll, h) w' ∧ pw_Key w' = pw_Key w ∧ is_Some (pw_Version w').
Proof.
  intros Hm Hv. unfold checkIfPvtWriteIsStale, fresh. cbn [fst snd]. rewrite (holds_hash _ _ _ _ _ Hm). cbn [mbind outcome_bind].
  destruct (hash_at m ns coll h) as [hv|] eqn:Eh; cbn [mbind option_bind].
  - destruct (vv_Version hv) as [ver|] eqn:Ev; [|intros [= Hd <-]; apply negb_false_iff in Hd; auto].
    destruct (AreSame (Some ver) (pw_Version w)) eqn:Ea.
    + intros [= <-]. apply AreSame_iff in Ea. split_and!; [right|done..]. exists hv. by rewrite <- Ea.
    + unfold GetValueHash, db_GetState. rewrite (holds_state _ _ Hm). cbn [mbind outcome_bind]. change (lookup_ns m (deriveHashedDataNs ns coll) !! keyHashStr h) with (hash_at m ns coll h).
      rewrite Eh. cbn. case_bool_decide; [|done]. intros [= <-]. cbn. rewrite Ev. split_and!; [right; by exists hv|done|by eexists].
  - intros [= Hd <-]. apply negb_false_iff in Hd. auto.
Qed.

Lemma findAndRemoveStalePvtData_ok u db m u' db' :
  environment → holds (db_VersionedDB db) m → unique_ok u → findAndRemoveStalePvtData u db = Ok (u', db') →
  holds (db_VersionedDB db') m ∧ unique_ok u' ∧ ∀ ck w, u' !! ck = Some w → fresh m ck w.
Proof.
  intros He Hm Hu. unfold findAndRemoveStalePvtData. intros (db1 & Hdb & E)%bind_Ok. apply bind_Ok in E as (u1 & E & [= <- <-]).
  assert (holds (db_VersionedDB db1) m) as Hm1.
  { unfold LoadCommittedVersionsOfPubAndHashedKeys in Hdb. destruct vdb_LoadCommittedVersions as [load|] eqn:El; [|by injection Hdb as <-].
    apply bind_Ok in Hdb as (v & Hv & [= <-]). cbn. edestruct (env_loads He load) as (v' & Hv' & Hh); [done|exact Hm|]. rewrite Hv' in Hv. by injection Hv as <-. }
  split; [done|]. assert (∀ ks u0 u1, unique_ok u0 → foldM (remove_if_stale db1) u0 ks = Ok u1 →
    unique_ok u1 ∧ (∀ ck w, ck ∈ ks → u1 !! ck = Some w → fresh m ck w) ∧ ∀ ck, is_Some (u1 !! ck) → is_Some (u0 !! ck)) as Hf.
  { clear E u1. induction ks as [|ck ks IH] using rev_ind; intros u0 u1 Hu0 E.
    - injection E as <-. split_and!; [done| |done]. by intros ck w ?%not_elem_of_nil.
    - rewrite foldM_app in E. destruct (foldM _ u0 ks) as [u2| |] eqn:E2; [|done..]. destruct (IH _ _ Hu0 E2) as (Hu2 & Hf2 & Hd2). cbn [foldM] in E.
      destruct (remove_if_stale db1 u2 ck) as [u3| |] eqn:E3; [|done..]. injection E as <-. unfold remove_if_stale in E3.
      destruct (u2 !! ck) as [w|] eqn:Ew.
      + apply bind_Ok in E3 as ([st w'] & Es & [= <-]). destruct ck as [[ns coll] h]. destruct (Hu2 _ _ _ _ Ew) as (Hp & Hne & Ehk & Hv). destruct st.
        * split_and!.
          -- intros n' c' h' x [_ Hx]%lookup_delete_Some. by apply (Hu2 _ _ _ _ Hx).
          -- intros ck x Hin [Hd Hx]%lookup_delete_Some. apply elem_of_app in Hin as [Hin|?%list_elem_of_singleton]; [by eapply Hf2|congruence].
          -- intros ck [x [_ Hx]%lookup_delete_Some]. apply Hd2. by eexists.
        * destruct (checkIfPvtWriteIsStale_ok _ _ _ _ _ _ _ Hm1 Hv Es) as (Hfr & Hk & Hv'). split_and!.
          -- intros n' c' h' x [[[= <- <- <-] <-]|[_ Hx]]%lookup_insert_Some; [by rewrite Hk|by apply (Hu2 _ _ _ _ Hx)].
          -- intros ck x Hin [[<- <-]|[Hd Hx]]%lookup_insert_Some; [done|]. apply elem_of_app in Hin as [Hin|?%list_elem_of_singleton]; [by eapply Hf2|congruence].
          -- intros ck [x [[<- _]|[_ Hx]]%lookup_insert_Some]; apply Hd2; by eexists.
      + injection E3 as <-. split_and!; [done| |done]. intros ck' x [Hin|Hin%list_elem_of_singleton]%elem_of_app; [by apply Hf2|subst; congruence]. }
  destruct (Hf _ _ _ Hu E) as (Hu1 & Hfr & Hd). split; [done|]. intros ck w Hw. eapply Hfr; [|done]. apply key_range_elem, Hd. by eexists.
Qed.

(** What such writes update. *)
Record old_batch (m : state) (b : UpdateMap) : Prop := {
  ob_plain ns : is_Some (b !! ns) → plain_ns ns;
  ob_value ns coll k vv : um_Get b ns coll k = Some vv →
    k ≠ "" ∧ is_Some (vv_Version vv) ∧
    (IsDelete vv = true ∨ ∃ hv, hash_at m ns coll (ComputeStringHash k) = Some hv ∧ vv_Version vv = vv_Version hv)
}.

Lemma transformToUpdateBatch_ok m u b :
  unique_ok u → (∀ ck w, u !! ck = Some w → fresh m ck w) → transformToUpdateBatch u = Ok b → old_batch m b.
Proof.
  intros Hu Hf. apply foldM_inv; [|split; [intros ns; rewrite lookup_empty; by intros []|intros ns coll k vv; unfold um_Get; by rewrite lookup_empty]].
  intros [[ns coll] h] b1 b2 _ Hb1. destruct (u !! (ns, coll, h)) as [w|] eqn:Ew; [|by intros [= <-]].
  destruct (Hu _ _ _ _ Ew) as (Hp & Hne & -> & Hv). specialize (Hf _ _ Ew). unfold fresh in Hf. cbn [fst snd] in Hf.
  assert (∀ vv, vv_Version vv = pw_Version w → (IsDelete vv = false → pw_IsDelete w = false) →
    old_batch m (<[ns := Update (getOrCreateNsBatch b1 ns) coll (pw_Key w) vv]> b1)) as Hup.
  { intros vv Ev Hd. split.
    - intros ns' [x [[<- _]|[_ Hx]]%lookup_insert_Some]; [done|]. apply (ob_plain _ _ Hb1). by eexists.
    - intros n' c' k' x. rewrite um_Get_Update. case_decide as E; [|by apply (ob_value _ _ Hb1)]. injection E as -> -> ->. intros [= <-].
      rewrite Ev. split_and!; [done..|]. destruct (IsDelete vv); [by left|right]. rewrite Hd in Hf by done. by destruct Hf. }
  destruct (pw_IsDelete w) eqn:Ed.
  - intros [= <-]. by apply Hup.
  - unfold um_Put, um_PutValAndMetadata, PutValAndMetadata. destruct (pw_Value w) as [x|]; [|done]. cbn. intros [= <-]. by apply Hup.
Qed.

(** *** The schedule of the old data *)
Definition old_items (b : UpdateMap) : sched :=
  foldl sched_add ∅ (omap (pvt_item btl (ToCompositeKeyMap b)) (key_range ["oldBlocks"] 0 (ToCompositeKeyMap b))).

Lemma old_items_elem b k ns coll key h :
  mkKeyAndHash key h ∈ items_at (old_items b) k ns coll ↔
  ∃ vv, um_Get b ns coll key = Some vv ∧ h = ComputeStringHash key ∧ IsDelete vv = false ∧ expiry ns coll (block_of vv) ≠ MaxUint64 ∧
    k = entry_of ns coll vv.
Proof.
  unfold old_items. rewrite elem_items_adds. unfold items_at at 1. rewrite lookup_empty. unfold items. cbn. rewrite lookup_empty. cbn.
  rewrite list_elem_of_omap. split.
  - intros [?%not_elem_of_nil|([[n c] key'] & _ & (vv & E & (Hd & Hx & -> & [= -> -> -> ->])%scheduled_Some)%bind_Some)]; [done|].
    exists vv. rewrite composite_lookup in E. done.
  - intros (vv & E & -> & Hd & Hx & ->). right. exists (ns, coll, key). split; [apply key_range_elem; rewrite composite_lookup; by eexists|].
    unfold pvt_item. cbn [fst snd]. rewrite composite_lookup, E. by apply scheduled_Some.
Qed.

Lemma old_items_dom b k : is_Some (old_items b !! k) → ∃ ns coll kh, kh ∈ items_at (old_items b) k ns coll.
Proof.
  intros [[? ?]|[[[ns coll] kh] Hin]]%adds_dom; [by rewrite lookup_empty in *|]. exists ns, coll, kh. apply elem_items_adds. by right.
Qed.

(** The entries of the schedule with the old data's keys added. *)
Lemma merge_entries ek S (l : list (expiryInfoKey * keymap)) acc :
  keeps ek S → (∀ k pk, (k, pk) ∈ l → is_Some (S !! k)) →
  ∃ l', foldM (λ l toAdd,
      toUpdate ← retrieveByExpiryKey ek (ei_key toAdd);
      pk ← keys_addAll (ei_pvtdataKeys toUpdate) (ei_pvtdataKeys toAdd);
      Ok (l ++ [mkExpiryInfo (ei_key toUpdate) pk])) ((λ p, mkExpiryInfo p.1 (Some p.2)) <$> acc) ((λ p, mkExpiryInfo p.1 (Some p.2)) <$> l)
    = Ok ((λ p, mkExpiryInfo p.1 (Some p.2)) <$> (acc ++ l')) ∧
  Forall2 (λ p p', p'.1 = p.1 ∧ ∃ pk0, S !! p.1 = Some pk0 ∧ (pk0 ≠ ∅ → p'.2 ≠ ∅) ∧
    ∀ ns coll, items p'.2 ns coll = items pk0 ns coll ++ items p.2 ns coll) l l'.
Proof.
  intros Hk. revert acc. induction l as [|[k pk] l IH]; intros acc Hl; [exists []; by rewrite app_nil_r|].
  destruct (Hl k pk) as [pk0 Hpk0]; [by left|]. destruct (keys_addAll_pk pk0 pk) as (pk2 & Ea & Hne & Hi).
  rewrite fmap_cons. cbn [foldM ei_key ei_pvtdataKeys fst snd]. unfold retrieveByExpiryKey. rewrite (decode_kept _ _ _ _ Hk Hpk0). cbn [mbind outcome_bind ei_key ei_pvtdataKeys].
  rewrite Ea. cbn [mbind outcome_bind]. destruct (IH (acc ++ [(k, pk2)])) as (l' & E & HF); [intros k' pk' Hin; apply (Hl k' pk'); by right|].
  exists ((k, pk2) :: l'). rewrite <- (assoc_L (++)) in E. rewrite fmap_app in E. split; [exact E|]. constructor; [|done]. split; [done|]. by exists pk0.
Qed.

Lemma old_entry_kept n m S b k :
  live n m S → old_batch m b → is_Some (old_items b !! k) → is_Some (S !! k).
Proof.
  intros Hl Hb (ns & coll & [key h] & (vv & Hg & -> & Hd & Hx & ->)%old_items_elem)%old_items_dom.
  destruct (ob_value _ _ Hb _ _ _ _ Hg) as (_ & _ & [?|(hv & Hh & Hv)]); [congruence|].
  assert (plain_ns ns) as Hp by by eapply ob_plain, um_Get_ns.
  assert (block_of vv = block_of hv) as Ebl by (unfold block_of; by rewrite Hv).
  destruct (live_hash _ _ _ Hl _ _ _ _ Hp Hh) as [_ [?|[_ [k' Ht]]]]; [congruence|]. apply tracked_items in Ht as (pk & Hpk & _).
  exists pk. unfold entry_of in *. by rewrite Ebl.
Qed.

Lemma old_expiry_ok p n m S b :
  environment → keeps (pm_expKeeper p) S → wf_sched n S → live n m S → old_batch m b →
  ∃ p' S', UpdateExpiryInfoOfPvtDataOfOldBlocks p b = Ok p' ∧ keeps (pm_expKeeper p') S' ∧
    pm_workingset p' = pm_workingset (addMissingPvtDataToWorkingSet p (ToCompositeKeyMap b)) ∧ full S' ∧
    ∀ k ns coll, items_at S' k ns coll = items_at S k ns coll ++ items_at (old_items b) k ns coll.
Proof.
  intros He Hk Hw Hl Hb. unfold UpdateExpiryInfoOfPvtDataOfOldBlocks. rewrite <- (fmap_empty (M := gmap expiryInfoKey) (A := keymap) Some).
  rewrite (add_items_fold (ToCompositeKeyMap b) (pvt_item btl (ToCompositeKeyMap b))).
  2:{ intros S0 [[ns coll] k]. unfold pvt_item. cbn [fst snd]. destruct (ToCompositeKeyMap b !! _) as [vv|] eqn:E; [|done]. rewrite composite_lookup in E.
      cbn [mbind option_bind]. apply builder_add_sched; [apply He|]. by destruct (ob_value _ _ Hb _ _ _ _ E) as (_ & ? & _). }
  fold (old_items b). cbn [mbind outcome_bind]. rewrite getExpiryInfo_list.
  destruct (merge_entries (pm_expKeeper p) S (sched_list (old_items b)) [] Hk) as (l' & E & HF).
  { intros k pk Hin%sched_list_elem. eapply old_entry_kept; [done..|by eexists]. }
  cbn [fmap list_fmap app] in E. rewrite E. cbn [mbind outcome_bind].
  assert (∀ k pk, (k, pk) ∈ l' → ∃ pk1 pk0, old_items b !! k = Some pk1 ∧ S !! k = Some pk0 ∧ pk ≠ ∅ ∧
    ∀ ns coll, items pk ns coll = items pk0 ns coll ++ items pk1 ns coll) as Hl'.
  { intros k pk [i Hi]%list_elem_of_lookup. destruct (Forall2_lookup_r _ _ _ _ _ HF Hi) as ([k1 pk1] & Hi1 & Ek & pk0 & Hpk0 & Hne & Hit). cbn in *. subst k1.
    exists pk1, pk0. split_and!; [by eapply sched_list_elem, list_elem_of_lookup_2|done|apply Hne; by eapply (wf_full _ _ Hw)|done]. }
  assert (pm_expKeeper (addMissingPvtDataToWorkingSet p (ToCompositeKeyMap b)) = pm_expKeeper p) as -> by (unfold addMissingPvtDataToWorkingSet; by destruct (pm_workingset p)).
  destruct (keeper_update_keeps (pm_expKeeper p) S l' []) as (ek' & E' & Hk'); [apply He|done| |done|].
  { apply Forall_forall. intros [k pk] (pk1 & pk0 & _ & Hpk0 & Hne & _)%Hl'. split; [apply (wf_info _ _ Hw); by eexists|done]. }
  rewrite E'. cbn [mbind outcome_bind]. cbn [clear foldl] in Hk'. exists (mkPurgeMgr ek' (pm_workingset (addMissingPvtDataToWorkingSet p (ToCompositeKeyMap b)))), (track S l').
  assert (∀ k, (∃ pk, (k, pk) ∈ l' ∧ track S l' !! k = Some pk) ∨ (old_items b !! k = None ∧ track S l' !! k = S !! k)) as Hlk.
  { intros k. destruct (old_items b !! k) as [pk1|] eqn:E1.
    - left. assert ((k, pk1) ∈ sched_list (old_items b)) as [i Hi]%list_elem_of_lookup by by apply sched_list_elem.
      destruct (Forall2_lookup_l _ _ _ _ _ HF Hi) as ([k2 pk2] & Hi2 & Ek & _). cbn in Ek. subst k2. by eapply track_some, list_elem_of_lookup_2.
    - right. split; [done|]. apply track_other. intros pk (pk1 & pk0 & ? & _)%Hl'. congruence. }
  split_and!; [done|done|done| |].
  - intros k pk Hpk. destruct (Hlk k) as [(pk' & Hin & E2)|[_ E2]]; [|by eapply (wf_full _ _ Hw); rewrite <- E2]. rewrite E2 in Hpk. injection Hpk as <-. by apply Hl' in Hin as (? & ? & _ & _ & ? & _).
  - intros k ns coll. unfold items_at. destruct (Hlk k) as [(pk' & Hin & ->)|[-> ->]].
    + destruct (Hl' _ _ Hin) as (pk1 & pk0 & -> & -> & _ & Hit). apply Hit.
    + unfold items at 3. cbn. rewrite lookup_empty. cbn. by rewrite app_nil_r.
Qed.

(** *** The working set with the old data *)
Definition missing_added (k : string) (v : keyAndVersion) : option keyAndVersion :=
  if kav_purgeKeyOnly v then None else Some (mkKeyAndVersion k (kav_committingBlock v) false).

Lemma missing_added_twice k o : (o ≫= missing_added k) ≫= missing_added k = o ≫= missing_added k.
Proof. destruct o as [[? ? []]|]; done. Qed.

Lemma add_missing_lookup T ns coll k ck :
  add_missing T (ns, coll, k) !! ck = if decide (ck = (ns, coll, ComputeStringHash k)) then T !! ck ≫= missing_added k else T !! ck.
Proof.
  unfold add_missing. destruct (decide (ck = (ns, coll, ComputeStringHash k))) as [->|Hne].
  - destruct (T !! (ns, coll, ComputeStringHash k)) as [v|] eqn:E; [|by rewrite E]. cbn. unfold missing_added.
    destruct (kav_purgeKeyOnly v); [by rewrite lookup_delete_eq|by rewrite lookup_insert_eq].
  - destruct (T !! (ns, coll, ComputeStringHash k)) as [v|]; [|done].
    destruct (kav_purgeKeyOnly v); [by rewrite lookup_delete_ne by congruence|by rewrite lookup_insert_ne by congruence].
Qed.

Lemma add_missing_other T ks ns coll h :
  (∀ k, (ns, coll, k) ∈ ks → ComputeStringHash k ≠ h) → foldl add_missing T ks !! (ns, coll, h) = T !! (ns, coll, h).
Proof.
  induction ks as [|[[ns' coll'] k'] ks IH] using rev_ind; intros Hn; [done|]. rewrite foldl_app. cbn [foldl]. rewrite add_missing_lookup, decide_False.
  - apply IH. intros k Hin. apply Hn, elem_of_app. by left.
  - intros [= -> -> Eh]. apply (Hn k'); [apply elem_of_app; right; by left|done].
Qed.

Lemma add_missing_key T ks ns coll k :
  environment → (ns, coll, k) ∈ ks →
  foldl add_missing T ks !! (ns, coll, ComputeStringHash k) = T !! (ns, coll, ComputeStringHash k) ≫= missing_added k.
Proof.
  intros He. induction ks as [|[[ns' coll'] k'] ks IH] using rev_ind; intros Hin; [by apply not_elem_of_nil in Hin|].
  rewrite foldl_app. cbn [foldl]. rewrite add_missing_lookup. apply elem_of_app in Hin as [Hin|Hin%list_elem_of_singleton].
  - rewrite (IH Hin). case_decide as E; [|done]. injection E as -> -> Eh. apply (env_hash He) in Eh as ->. apply missing_added_twice.
  - injection Hin as -> -> ->. rewrite decide_True by done. destruct (decide ((ns', coll', k') ∈ ks)) as [Hk|Hnk].
    + rewrite (IH Hk). apply missing_added_twice.
    + rewrite add_missing_other; [done|]. intros k Hk E. apply (env_hash He) in E as ->. done.
Qed.

Lemma ws_missing n m m' S ws b :
  environment → live n m S → ws_ok n m ws → old_batch m b →
  (∀ ns coll k, plain_ns ns → hash_at m' ns coll k = hash_at m ns coll k ∧
     pvt_at m' ns coll k = after (um_Get b ns coll k) (pvt_at m ns coll k)) →
  ws_ok n m' (mkWorkingset (foldl add_missing (ws_toPurge ws) (key_range ["missing"] 0 (ToCompositeKeyMap b)))
    (ws_toClearFromSchedule ws) (ws_expiringBlk ws) (ws_err ws)).
Proof.
  intros He Hl Hws Hb Hm'. set (ks := key_range ["missing"] 0 (ToCompositeKeyMap b)).
  assert (∀ ns coll k, (ns, coll, k) ∈ ks ↔ is_Some (um_Get b ns coll k)) as Hks by (intros; unfold ks; by rewrite key_range_elem, composite_lookup).
  assert (∀ ns coll k h, (ns, coll, k) ∉ ks → h = ComputeStringHash k →
    foldl add_missing (ws_toPurge ws) ks !! (ns, coll, h) = ws_toPurge ws !! (ns, coll, h)) as Hoth.
  { intros ns coll k h Hn ->. apply add_missing_other. intros k' Hin E. apply (env_hash He) in E as ->. done. }
  split; cbn [ws_expiringBlk ws_err ws_toClearFromSchedule ws_toPurge]; [apply Hws..| | |].
  - intros ns coll h v Hv.
    destruct (decide (List.Exists (λ ck, hash_key ck = (ns, coll, h)) ks)) as [HE|HN].
    + apply Exists_exists in HE as ([[ns' coll'] k] & Hin & [= -> -> <-]). rewrite add_missing_key in Hv by done.
      apply bind_Some in Hv as (v0 & Hv0 & Ha). unfold missing_added in Ha. destruct (kav_purgeKeyOnly v0) eqn:Ek; [done|]. injection Ha as <-. cbn.
      destruct (ws_sound _ _ _ Hws _ _ _ _ Hv0) as (Hp & Hc & Hx & _ & Hs). rewrite Ek in Hs. split_and!; [done..|by right|].
      destruct Hs as (vv & Hh & Hbl). exists vv. by rewrite (proj1 (Hm' ns coll _ Hp)).
    + assert (∀ k, (ns, coll, k) ∈ ks → ComputeStringHash k ≠ h) as Hn.
      { intros k Hin <-. apply HN, Exists_exists. exists (ns, coll, k). done. }
      rewrite add_missing_other in Hv by done. destruct (ws_sound _ _ _ Hws _ _ _ _ Hv) as (Hp & Hc & Hx & Hkh & Hs). split_and!; [done..|].
      destruct (kav_purgeKeyOnly v).
      * destruct Hs as [Hne (vv & Hpv & Hbl)]. split; [done|]. exists vv. rewrite (proj2 (Hm' ns coll _ Hp)).
        destruct (um_Get b ns coll (kav_key v)) eqn:Eg; [|done]. destruct Hkh as [?|Hkh]; [done|]. destruct (Hn (kav_key v)); [apply Hks; by eexists|done].
      * destruct Hs as (vv & Hh & Hbl). exists vv. by rewrite (proj1 (Hm' ns coll _ Hp)).
  - intros ns coll h vv Hp. rewrite (proj1 (Hm' ns coll h Hp)). intros Hh Hx. destruct (ws_hashes _ _ _ Hws _ _ _ _ Hp Hh Hx) as (v & Hv & Hk).
    destruct (decide (List.Exists (λ ck, hash_key ck = (ns, coll, h)) ks)) as [HE|HN].
    + apply Exists_exists in HE as ([[ns' coll'] k] & Hin & [= -> -> <-]). rewrite add_missing_key by done. rewrite Hv. cbn. unfold missing_added. rewrite Hk. by eexists.
    + exists v. rewrite add_missing_other; [done|]. intros k Hin <-. apply HN, Exists_exists. exists (ns, coll, k). done.
  - intros ns coll k vv Hp. rewrite (proj2 (Hm' ns coll k Hp)). destruct (um_Get b ns coll k) as [uv|] eqn:Eg.
    + intros [Hd ->]%after_Some Hx. destruct (ob_value _ _ Hb _ _ _ _ Eg) as (_ & _ & [?|(hv & Hh & Hv)]); [congruence|].
      assert (block_of vv = block_of hv) as Ebl by (unfold block_of; by rewrite Hv). rewrite Ebl in Hx.
      destruct (ws_hashes _ _ _ Hws _ _ _ _ Hp Hh Hx) as (v & Hvv & Hk). rewrite add_missing_key by (done || (apply Hks; by eexists)).
      rewrite Hvv. cbn. unfold missing_added. rewrite Hk. by eexists.
    + cbn [after]. intros Hpv Hx. destruct (ws_keys _ _ _ Hws _ _ _ _ Hp Hpv Hx) as (v & Hv & Hk). exists v. split; [|done].
      rewrite (Hoth _ _ k); [done| |done]. rewrite Hks, Eg. by intros [].
Qed.

(** *** The manager after the reconciliation *)
Lemma old_tracked b k ns coll h key :
  environment → key_for (items_at (old_items b) k ns coll) h = Some key → h = ComputeStringHash key.
Proof. intros He (vv & _ & -> & _)%key_for_Some%old_items_elem. done. Qed.

Lemma live_old n m m' S S' b :
  environment → live n m S → old_batch m b →
  (∀ k ns coll, items_at S' k ns coll = items_at S k ns coll ++ items_at (old_items b) k ns coll) →
  (∀ ns coll k, plain_ns ns → hash_at m' ns coll k = hash_at m ns coll k ∧
     pvt_at m' ns coll k = after (um_Get b ns coll k) (pvt_at m ns coll k)) →
  live n m' S'.
Proof.
  intros He Hl Hb HS' Hm'. split.
  - intros ns coll h vv Hp. rewrite (proj1 (Hm' ns coll h Hp)). intros Hh. destruct (live_hash _ _ _ Hl _ _ _ _ Hp Hh) as [Hw [?|[Hx [key Ht]]]]; [by auto|].
    split; [done|right]. split; [done|]. unfold tracked in *. rewrite HS', key_for_app, Ht. case_match; by eexists.
  - intros ns coll k vv Hp. rewrite (proj2 (Hm' ns coll k Hp)). destruct (um_Get b ns coll k) as [uv|] eqn:Eg.
    + intros [Hd ->]%after_Some. destruct (ob_value _ _ Hb _ _ _ _ Eg) as (Hne & Hver & [?|(hv & Hh & Hv)]); [congruence|].
      assert (block_of vv = block_of hv) as Ebl by (unfold block_of; by rewrite Hv).
      destruct (live_hash _ _ _ Hl _ _ _ _ Hp Hh) as [[_ Hw] Hlv]. unfold written. rewrite Ebl. split_and!; [done|lia|lia|done|].
      destruct Hlv as [?|[Hx _]]; [by left|]. destruct (decide (expiry ns coll (block_of hv) = MaxUint64)) as [?|Hnx]; [by left|right]. split; [done|].
      unfold tracked. rewrite HS', key_for_app. rewrite (key_for_only _ _ k); [done| |].
      * apply old_items_elem. exists vv. by rewrite Ebl.
      * intros k' (vv' & _ & E & _)%old_items_elem. symmetry. by apply (env_hash He).
    + cbn [after]. intros Hpv. destruct (live_pvt _ _ _ Hl _ _ _ _ Hp Hpv) as (Hw & Hne & [?|[Hx Ht]]); [by auto|]. split; [done|]. split; [done|right]. split; [done|].
      unfold tracked in *. rewrite HS', key_for_app, Ht. destruct (key_for (items_at (old_items b) _ ns coll) _) as [k'|] eqn:Ek; [|done].
      apply old_tracked in Ek; [|done]. f_equal. symmetry. by apply (env_hash He).
  - intros ns coll k vv hv Hp. rewrite (proj2 (Hm' ns coll k Hp)), (proj1 (Hm' ns coll _ Hp)). destruct (um_Get b ns coll k) as [uv|] eqn:Eg; [|by apply Hl].
    intros [Hd ->]%after_Some Hh. destruct (ob_value _ _ Hb _ _ _ _ Eg) as (_ & _ & [?|(hv' & Hh' & Hv)]); [congruence|].
    rewrite Hh in Hh'. injection Hh' as <-. unfold block_of. by rewrite Hv.
Qed.

Lemma wf_old n m S S' b :
  live n m S → wf_sched n S → old_batch m b → full S' → (∀ k, is_Some (S' !! k) → info_ok k) →
  (∀ k ns coll, items_at S' k ns coll = items_at S k ns coll ++ items_at (old_items b) k ns coll) → wf_sched n S'.
Proof.
  intros Hl Hw Hb Hf Hi HS'. split; [done..|]. intros k ns coll kh. rewrite HS'. intros [Hin|Hin]%elem_of_app; [by apply (wf_item _ _ Hw)|].
  destruct kh as [key h]. apply old_items_elem in Hin as (vv & Eg & -> & Hd & Hx & ->).
  assert (plain_ns ns) as Hp by by eapply ob_plain, um_Get_ns. destruct (ob_value _ _ Hb _ _ _ _ Eg) as (_ & _ & [?|(hv & Hh & Hv)]); [congruence|].
  assert (block_of vv = block_of hv) as Ebl by (unfold block_of; by rewrite Hv). destruct (live_hash _ _ _ Hl _ _ _ _ Hp Hh) as [[_ ?] _].
  cbn. split_and!; [done|lia|done|done|by right].
Qed.

Lemma old_updates_ok n m S t rec b db :
  environment → mgr_ok n m S t → reconciled_ok rec → old_updates t rec = Ok (Some (b, db)) →
  old_batch m b ∧ holds (db_VersionedDB db) m.
Proof.
  intros He Ht Hr. unfold old_updates. intros (u & Hu & E)%bind_Ok. case_bool_decide; [done|].
  apply bind_Ok in E as ([u' db'] & Hf & E). apply bind_Ok in E as (b' & Hb & [= <- <-]).
  apply constructUniquePvtData_ok in Hu; [|done].
  destruct (findAndRemoveStalePvtData_ok _ _ _ _ _ He (mo_holds _ _ _ _ Ht) Hu Hf) as (Hm & Hu' & Hfr). split; [by eapply transformToUpdateBatch_ok|done].
Qed.

Lemma old_commit_ok n m S t rec t' :
  environment → mgr_ok n m S t → reconciled_ok rec → RemoveStaleAndCommitPvtDataOfOldBlocks t rec = Ok t' → ∃ m' S', mgr_ok n m' S' t'.
Proof.
  intros He Ht Hr. unfold RemoveStaleAndCommitPvtDataOfOldBlocks. intros ([[b db]|] & Eo & E)%bind_Ok; [|injection E as <-; by exists m, S].
  destruct (old_updates_ok _ _ _ _ _ _ _ He Ht Hr Eo) as [Hb Hm].
  destruct (old_expiry_ok (tm_purgeMgr t) n m S b) as (p' & S' & Ep & Hk' & Hw' & Hf & HS'); [done|apply Ht..|done|].
  rewrite Ep in E. cbn [mbind outcome_bind] in E.
  destruct (apply_ok db (mkPvtUpdateBatch NewUpdateBatch ∅ b) m None) as (db' & m' & Ea & Hm' & Ha & _ & Hv); [done|done|apply Ht| |].
  { split; [intros ns; cbn; rewrite lookup_empty; by intros []|intros ns; cbn; rewrite lookup_empty; by intros []|apply (ob_plain _ _ Hb)]. }
  rewrite Ea in E. injection E as <-. cbn [HashUpdates PvtUpdates] in Hv.
  assert (∀ ns coll k, plain_ns ns → hash_at m' ns coll k = hash_at m ns coll k ∧
    pvt_at m' ns coll k = after (um_Get b ns coll k) (pvt_at m ns coll k)) as Hv'.
  { intros ns coll k Hp. destruct (Hv ns coll k Hp) as [-> ->]. unfold um_Get at 1. by rewrite lookup_empty. }
  exists m', S'. split; cbn [tm_purgeMgr tm_db tm_usedOnce]; [done..| | |].
  - eapply wf_old; [apply Ht..|done|done| |done]. intros k [pk Hpk]. by destruct (keeps_entry _ _ Hk' _ _ Hpk).
  - eapply live_old; [done|apply Ht|done..].
  - pose proof (mo_ws _ _ _ _ Ht) as Hws. rewrite Hw'. unfold addMissingPvtDataToWorkingSet. destruct (tm_usedOnce t); [|by rewrite Hws].
    destruct Hws as (ws & -> & Hok). eexists. split; [done|]. eapply ws_missing; [done|by eapply mo_live|done..].
Qed.

(** ** Runs *)
(** The manager between blocks: commits, reconciliations, restarts, and crashes
    after the expiry of a block or of old data is recorded or after the state
    is updated. *)
Inductive mgr_step : Z * LockBasedTxMgr → Z * LockBasedTxMgr → Prop :=
| step_commit n t b mx t' : block_batch n b → (n + 1 < MaxUint64)%Z → txmgr_Commit t b n mx = Ok t' → mgr_step (n, t) ((n + 1)%Z, t')
| step_old n t rec t' : reconciled_ok rec → RemoveStaleAndCommitPvtDataOfOldBlocks t rec = Ok t' → mgr_step (n, t) (n, t')
| step_restart n t : mgr_step (n, t) (n, NewLockBasedTxMgr (tm_db t) (pm_expKeeper (tm_purgeMgr t)))
| step_crash_expiry n t b p : block_batch n b → (n < MaxUint64)%Z → UpdateExpiryInfo (tm_purgeMgr t) (PvtUpdates b) (HashUpdates b) = Ok p →
    mgr_step (n, t) (n, NewLockBasedTxMgr (tm_db t) (pm_expKeeper p))
| step_crash_state n t b mx p db : block_batch n b → (n + 1 < MaxUint64)%Z → commit_updates t b n mx = Ok (p, db) →
    mgr_step (n, t) ((n + 1)%Z, NewLockBasedTxMgr db (pm_expKeeper p))
| step_crash_old n t rec b db p : reconciled_ok rec → old_updates t rec = Ok (Some (b, db)) →
    UpdateExpiryInfoOfPvtDataOfOldBlocks (tm_purgeMgr t) b = Ok p → mgr_step (n, t) (n, NewLockBasedTxMgr (tm_db t) (pm_expKeeper p)).

Lemma live_more n m S S' :
  live n m S → (∀ ns coll h vv, (block_of vv < n)%Z → ∀ key, tracked S (entry_of ns coll vv) ns coll h = Some key →
    ∃ key', tracked S' (entry_of ns coll vv) ns coll h = Some key' ∧ (∀ k, h = ComputeStringHash k → key = k → key' = k)) → live n m S'.
Proof.
  intros Hl Ht. split.
  - intros ns coll h vv Hp Hh. destruct (live_hash _ _ _ Hl _ _ _ _ Hp Hh) as [[Hv Hw] [?|[Hx [key Hk]]]]; [split; [done|by left]|]. split; [done|right].
    split; [done|]. destruct (Ht _ _ _ vv ltac:(lia) _ Hk) as (key' & Hk' & _). by eexists.
  - intros ns coll k vv Hp Hh. destruct (live_pvt _ _ _ Hl _ _ _ _ Hp Hh) as ([Hv Hw] & Hne & [?|[Hx Hk]]); [split; [done|split; [done|by left]]|].
    split; [done|]. split; [done|right]. split; [done|]. destruct (Ht _ _ _ vv ltac:(lia) _ Hk) as (key' & Hk' & Hs). by rewrite Hk', (Hs k).
  - apply Hl.
Qed.

Lemma mgr_step_ok n m S t n' t' :
  environment → mgr_ok n m S t → (0 ≤ n)%Z → mgr_step (n, t) (n', t') → ∃ m' S', mgr_ok n' m' S' t' ∧ (0 ≤ n')%Z.
Proof.
  intros He Ht Hn Hs. remember (n, t) as x eqn:Ex. remember (n', t') as y eqn:Ey. destruct Hs as [n0 t0 b mx t1 Hb Hm E|n0 t0 rec t1 Hr E|n0 t0|n0 t0 b p Hb Hm E|n0 t0 b mx p db Hb Hm E|n0 t0 rec b db p Hr Eo E];
    injection Ex as -> ->; injection Ey as <- <-.
  - destruct (txmgr_Commit_ok n m S t b mx He Ht Hb Hn Hm) as (t2 & m' & S' & E' & Hok & _). rewrite E in E'. injection E' as <-. exists m', S'. split; [done|lia].
  - destruct (old_commit_ok _ _ _ _ _ _ He Ht Hr E) as (m' & S' & Hok). by exists m', S'.
  - exists m, S. split; [|done]. destruct Ht. by split.
  - destruct (UpdateExpiryInfo_ok (tm_purgeMgr t) S n b) as (p' & Sb & E' & _ & HSb & Hk'); [done|apply Ht|done|unfold is_u64, MaxUint64 in *; lia|].
    rewrite E in E'. injection E' as <-. exists m, (Sb ∪ S). split; [|done]. split; cbn; [done|apply Ht|apply Ht| | |done].
    + eapply block_sched_wf; [done..|apply Ht|done].
    + eapply live_more; [apply Ht|]. intros ns coll h vv Hlt key Hk. exists key. split; [|by intros k _ ->]. unfold tracked in *.
      rewrite items_at_union, (block_sched_other n b Sb); [done|done|done|cbn; lia].
  - destruct (commit_updates_ok n m S t b mx) as (p' & db' & m' & S' & ws & E' & Hk & Hm' & Ha & Hw & Hl & _); [done..|lia|].
    rewrite E in E'. injection E' as <- <-. exists m', S'. split; [|lia]. split; cbn; [done..|by eapply wf_sched_mono; [|done]; lia|done|done].
  - destruct (old_updates_ok _ _ _ _ _ _ _ He Ht Hr Eo) as [Hb _].
    destruct (old_expiry_ok (tm_purgeMgr t) n m S b) as (p' & S' & Ep & Hk' & _ & Hf & HS'); [done|apply Ht..|done|]. rewrite E in Ep. injection Ep as <-.
    exists m, S'. split; [|done]. split; cbn; [done|apply Ht|apply Ht| | |done].
    + eapply wf_old; [apply Ht..|done|done| |done]. intros k [pk Hpk]. by destruct (keeps_entry _ _ Hk' _ _ Hpk).
    + eapply live_more; [apply Ht|]. intros ns coll h vv Hlt key Hk. unfold tracked in *. rewrite HS', key_for_app, Hk.
      destruct (key_for (items_at (old_items b) _ ns coll) h) as [key'|] eqn:Ek; [|exists key; split; [done|by intros k _ ->]].
      exists key'. split; [done|]. intros k -> _. apply old_tracked in Ek; [|done]. symmetry. by apply (env_hash He).
Qed.

Lemma mgr_start db : environment → holds (db_VersionedDB db) ∅ → mgr_ok 0 ∅ ∅ (NewLockBasedTxMgr db ∅).
Proof.
  intros He Hm. split; cbn; [|done|apply empty_alive| | |done].
  - split; [intros k pk; by rewrite lookup_empty|]. intros b. rewrite lookup_empty. by intros [].
  - split; [intros k pk; by rewrite lookup_empty|intros k; rewrite lookup_empty; by intros []|].
    intros k ns coll kh. unfold items_at. rewrite lookup_empty. unfold items. cbn. rewrite lookup_empty. by intros ?%not_elem_of_nil.
  - assert (∀ ns k, lookup_ns ∅ ns !! k = None) as Hn by (intros ns k; unfold lookup_ns; rewrite lookup_empty; cbn; by rewrite lookup_empty).
    split; unfold hash_at, pvt_at; intros *; rewrite !Hn; done.
Qed.

Lemma mgr_run_ok db n t :
  environment → holds (db_VersionedDB db) ∅ → rtc mgr_step (0%Z, NewLockBasedTxMgr db ∅) (n, t) → ∃ m S, mgr_ok n m S t ∧ (0 ≤ n)%Z.
Proof.
  intros He Hm. apply (rtc_ind_r (λ x, ∃ m S, mgr_ok x.1 m S x.2 ∧ (0 ≤ x.1)%Z) (0%Z, NewLockBasedTxMgr db ∅)).
  - exists ∅, ∅. split; [by apply mgr_start|done].
  - intros [n1 t1] [n2 t2] _ Hs (m & S & Hok & Hn). by eapply mgr_step_ok.
Qed.

End expiry.

(** ** A small ledger whose private data live one block *)
#[export] Instance KeyAndHash_eq_dec : EqDecision KeyAndHash.
Proof. solve_decision. Defined.
#[export] Instance KeyAndHash_countable : Countable KeyAndHash.
Proof. apply (inj_countable' (λ k, (kh_Key k, kh_Hash k)) (λ p, mkKeyAndHash p.1 p.2)). by intros []. Defined.

Fixpoint pos_digits (p : positive) : string :=
  match p with xH => "E" | xO p => String "0"%char (pos_digits p) | xI p => String "1"%char (pos_digits p) end.
Fixpoint digits_pos (s : string) : option positive :=
  match s with
  | String "E"%char "" => Some xH
  | String "0"%char s => xO <$> digits_pos s
  | String "1"%char s => xI <$> digits_pos s
  | _ => None
  end.
Lemma digits_pos_digits p : digits_pos (pos_digits p) = Some p.
Proof. induction p as [p IH|p IH|]; cbn; [by rewrite IH..|done]. Qed.

Definition digits_codec : ExpiryCodec := {|
  marshal_PvtdataKeys pk := Ok (pos_digits (encode (default ∅ pk)));
  unmarshal_PvtdataKeys b := if bool_decide (b = "") then Some None else p ← digits_pos b; Some <$> decode p
|}.
Definition list_schedule_order : ScheduleOrder := {| schedule_range V m := (map_to_list m).*1; schedule_range_ok V m := reflexivity _ |}.

(** Every collection is configured to live one block. *)
Definition one_block : BTLPolicy :=
  {| GetExpiringBlock ns coll c := (policy_GetExpiringBlock (λ _ _, Ok (Some 1%Z)) ∅ ns coll c).1 |}.

#[local] Existing Instance digits_codec.
#[local] Existing Instance list_schedule_order.
#[local] Existing Instance entry_decoder.
#[local] Existing Instance one_block.
#[local] Existing Instance list_key_order.
#[local] Existing Instance mem_db.
#[local] Existing Instance mem_bk.
#[local] Existing Instance toy_hashing.

Definition one (ns coll : string) : Z := 1.

Lemma toy_environment : environment one.
Proof.
  split.
  - intros ns coll. split; [done|]. done.
  - intros pk Hpk. eexists. split; [done|]. cbn. rewrite bool_decide_eq_false_2; [|by destruct (encode pk)]. rewrite digits_pos_digits. cbn. by rewrite decode_encode.
  - apply mem_applies.
  - done.
  - intros bk l. by eexists.
  - intros x y E. unfold ComputeStringHash in E. by apply (inj (String.app "#")) in E.
Qed.

Definition life_block : PvtUpdateBatch :=
  mkPvtUpdateBatch NewUpdateBatch
    {["cc" := Update NewUpdateBatch "coll" "#k" (vv_at "#v" 0 0)]}
    {["cc" := Update NewUpdateBatch "coll" "k" (vv_at "v" 0 0)]}.
Definition idle_block : PvtUpdateBatch := mkPvtUpdateBatch NewUpdateBatch ∅ ∅.

Lemma life_block_batch : block_batch 0 life_block.
Proof.
  split; [split; apply plain_by; reflexivity|..].
  - intros ns coll h vv. unfold um_Get. cbn [HashUpdates life_block]. destruct (_ !! ns) as [nb|] eqn:E; [|done].
    apply lookup_singleton_Some in E as [<- <-]. rewrite Get_Update. case_decide; [|done]. intros [= <-]. split; [by eexists|done].
  - intros ns coll k vv. unfold um_Get at 1. cbn [PvtUpdates life_block]. destruct (_ !! ns) as [nb|] eqn:E; [|done].
    apply lookup_singleton_Some in E as [<- <-]. rewrite Get_Update. case_decide as Hd; [|done]. injection Hd as -> ->. intros [= <-].
    split_and!; [by eexists|done|done|]. by exists (vv_at "#v" 0 0).
Qed.

Lemma idle_block_batch n : block_batch n idle_block.
Proof. split; [split; apply plain_by; reflexivity|..]; intros ns coll k vv; unfold um_Get; cbn; rewrite lookup_empty; done. Qed.

