(* ===== verification/TxSimulator.v ===== *)
(** * TxSimulator: simulating a transaction on the state
      (core/ledger/kvledger/txmgmt/txmgr: query_executor.go, tx_simulator.go,
      collection_val.go; core/ledger/ledger_interface.go)

    A query executor reads the committed state; a simulator is a query executor
    that records what is read and written. Both are the state [Sim], with
    [q_collectReadset] telling them apart. A call returns a result and the new
    state, also when it fails. Iterators live in the state; the caller holds
    their index. Rich queries are a parameter, like the provider of collection
    configurations, which itself reads the state through the executor. *)

From S2P Require Import Prelude GoText Utf8 Base64 Protos TxFlags Proposal ProtoUtil Height StateDb PvtState RwSetUtil.
From S2P Require Import RangeQuery TxOps Mvcc BatchPreparer RwSetBuilder.

(** ** PrivateReads and WritesetMetadata (ledger_interface.go) *)
Notation PrivateReads := (gmap string (gmap string unit)).
Notation WritesetMetadata := (gmap string (gmap string (gmap string (gmap string bytes)))).

Definition PrivateReads_Add (pr : PrivateReads) (ns coll : string) : PrivateReads :=
  <[ns := <[coll := ()]> (default ∅ (pr !! ns))]> pr.

Definition PrivateReads_Exists (pr : PrivateReads) (ns coll : string) : bool :=
  match pr !! ns with
  | Some c => bool_decide (is_Some (c !! coll))
  | None => false
  end.

Definition WritesetMetadata_Add (wm : WritesetMetadata) (ns coll key : string) (metadata : option (gmap string bytes))
    : WritesetMetadata :=
  let cm := default ∅ (wm !! ns) in
  let km := default ∅ (cm !! coll) in
  <[ns := <[coll := <[key := default ∅ metadata]> km]> cm]> wm.

(** ** The state of an executor *)
Record resultsItr := mkResultsItr {
  ri_ns : string;
  ri_endKey : string;
  ri_dbItr : iterator;
  ri_rangeQueryInfo : RangeQueryInfo;
  ri_helper : option RangeQueryResultsHelper   (* nil for a query executor *)
}.

Record Sim `{VersionedDB} `{Bookkeeper} := mkSim {
  q_db : DB;
  q_collectReadset : bool;
  q_rwsetBuilder : RWSetBuilder;
  q_itrs : list resultsItr;
  q_err : option string;
  q_doneInvoked : bool;
  q_txid : string;
  q_privateReads : PrivateReads;
  q_collCheck : bool;                          (* [!noop] of the name validator *)
  q_cache : gmap (string * string) bool;
  s_writePerformed : bool;
  s_pvtdataQueriesPerformed : bool;
  s_simulationResultsComputed : bool;
  s_paginatedQueriesPerformed : bool;
  s_writesetMetadata : WritesetMetadata
}.
Arguments mkSim {_ _} _ _ _ _ _ _ _ _ _ _ _ _ _ _ _.

(** A call: its result and the state it leaves. *)
Definition SimM `{VersionedDB} `{Bookkeeper} (A : Type) : Type := Sim → outcome A * Sim.

#[global] Instance SimM_ret `{VersionedDB} `{Bookkeeper} : MRet SimM := λ A a s, (Ok a, s).
#[global] Instance SimM_bind `{VersionedDB} `{Bookkeeper} : MBind SimM := λ A B f m s,
  match m s with
  | (Ok a, s) => f a s
  | (Err e, s) => (Err e, s)
  | (Panic e, s) => (Panic e, s)
  end.

(** Rich queries and pagination of the state database. *)
Class QueryDB `{VersionedDB} := {
  vq_ExecuteQuery : vdb → string → string → outcome iterator;
  vq_ExecuteQueryWithPagination : vdb → string → string → string → Z → outcome iterator;
  vq_GetStateRangeScanIteratorWithPagination : vdb → string → string → string → Z → outcome iterator;
  vq_GetStateMultipleKeys : vdb → string → list string → outcome (list (option VersionedValue))
}.

(** [DeployedChaincodeInfoProvider.AllCollectionsConfigPkg]: the collections of
    a chaincode, [Some name] for a static one; [None] when it has none. *)
Class CCInfoProvider `{VersionedDB} `{Bookkeeper} := {
  AllCollectionsConfigPkg : string → SimM (option (list (option string)))
}.

Section executor.
Context `{VersionedDB} `{Bookkeeper} `{Hashing} `{RwsetCodec} `{!QueryDB} `{!CCInfoProvider}.
(** The peer's hash function, which does not fail. *)
Context (hasher : bytes → bytes).

Definition hashFunc (b : bytes) : outcome bytes := Ok (hasher b).

(** ** Fields *)
Definition get : SimM Sim := λ s, (Ok s, s).
Definition call {A} (o : outcome A) : SimM A := λ s, (o, s).
Definition modify (f : Sim → Sim) : SimM unit := λ s, (Ok (), f s).

Definition set_builder (s : Sim) (b : RWSetBuilder) : Sim :=
  mkSim (q_db s) (q_collectReadset s) b (q_itrs s) (q_err s) (q_doneInvoked s) (q_txid s) (q_privateReads s) (q_collCheck s)
    (q_cache s) (s_writePerformed s) (s_pvtdataQueriesPerformed s) (s_simulationResultsComputed s)
    (s_paginatedQueriesPerformed s) (s_writesetMetadata s).
Definition set_itrs (s : Sim) (itrs : list resultsItr) : Sim :=
  mkSim (q_db s) (q_collectReadset s) (q_rwsetBuilder s) itrs (q_err s) (q_doneInvoked s) (q_txid s) (q_privateReads s)
    (q_collCheck s) (q_cache s) (s_writePerformed s) (s_pvtdataQueriesPerformed s) (s_simulationResultsComputed s)
    (s_paginatedQueriesPerformed s) (s_writesetMetadata s).
Definition set_err (s : Sim) (e : string) : Sim :=
  mkSim (q_db s) (q_collectReadset s) (q_rwsetBuilder s) (q_itrs s) (Some e) (q_doneInvoked s) (q_txid s) (q_privateReads s)
    (q_collCheck s) (q_cache s) (s_writePerformed s) (s_pvtdataQueriesPerformed s) (s_simulationResultsComputed s)
    (s_paginatedQueriesPerformed s) (s_writesetMetadata s).
Definition set_privateReads (s : Sim) (pr : PrivateReads) : Sim :=
  mkSim (q_db s) (q_collectReadset s) (q_rwsetBuilder s) (q_itrs s) (q_err s) (q_doneInvoked s) (q_txid s) pr
    (q_collCheck s) (q_cache s) (s_writePerformed s) (s_pvtdataQueriesPerformed s) (s_simulationResultsComputed s)
    (s_paginatedQueriesPerformed s) (s_writesetMetadata s).
Definition set_cache (s : Sim) (c : gmap (string * string) bool) : Sim :=
  mkSim (q_db s) (q_collectReadset s) (q_rwsetBuilder s) (q_itrs s) (q_err s) (q_doneInvoked s) (q_txid s) (q_privateReads s)
    (q_collCheck s) c (s_writePerformed s) (s_pvtdataQueriesPerformed s) (s_simulationResultsComputed s)
    (s_paginatedQueriesPerformed s) (s_writesetMetadata s).
Definition set_metadata (s : Sim) (wm : WritesetMetadata) : Sim :=
  mkSim (q_db s) (q_collectReadset s) (q_rwsetBuilder s) (q_itrs s) (q_err s) (q_doneInvoked s) (q_txid s) (q_privateReads s)
    (q_collCheck s) (q_cache s) (s_writePerformed s) (s_pvtdataQueriesPerformed s) (s_simulationResultsComputed s)
    (s_paginatedQueriesPerformed s) wm.
Definition set_done (s : Sim) : Sim :=
  mkSim (q_db s) (q_collectReadset s) (q_rwsetBuilder s) (q_itrs s) (q_err s) true (q_txid s) (q_privateReads s)
    (q_collCheck s) (q_cache s) (s_writePerformed s) (s_pvtdataQueriesPerformed s) (s_simulationResultsComputed s)
    (s_paginatedQueriesPerformed s) (s_writesetMetadata s).
Definition set_flags (s : Sim) (wrote pvt computed paginated : bool) : Sim :=
  mkSim (q_db s) (q_collectReadset s) (q_rwsetBuilder s) (q_itrs s) (q_err s) (q_doneInvoked s) (q_txid s) (q_privateReads s)
    (q_collCheck s) (q_cache s) wrote pvt computed paginated (s_writesetMetadata s).
Definition set_written (s : Sim) : Sim :=
  set_flags s true (s_pvtdataQueriesPerformed s) (s_simulationResultsComputed s) (s_paginatedQueriesPerformed s).

Definition on_builder (f : RWSetBuilder → RWSetBuilder) : SimM unit :=
  modify (λ s, set_builder s (f (q_rwsetBuilder s))).

(** Only a simulator records. *)
Definition record_read (f : RWSetBuilder → RWSetBuilder) : SimM unit :=
  s ← get; if q_collectReadset s then on_builder f else mret ().

Definition newQueryExecutor (db : DB) (txid : string) (collectReadset performCollCheck : bool) : Sim :=
  mkSim db collectReadset NewRWSetBuilder [] None false txid ∅ performCollCheck ∅ false false false false ∅.
Definition newTxSimulator (db : DB) (txid : string) : Sim := newQueryExecutor db txid true true.

Definition checkDone : SimM unit :=
  s ← get;
  if q_doneInvoked s then call (Err "this instance should not be used after calling Done()") else mret ().

(** ** Collection names (collection_val.go) *)
Definition isPopulatedFor (c : gmap (string * string) bool) (ns : string) : bool := default false (c !! (ns, "")).
Definition containsCollName (c : gmap (string * string) bool) (ns coll : string) : bool := default false (c !! (ns, coll)).
Definition populate (c : gmap (string * string) bool) (ns : string) (pkg : list (option string))
    : gmap (string * string) bool :=
  foldl (λ c config, match config with Some name => <[(ns, name) := true]> c | None => c end) (<[(ns, "") := true]> c) pkg.

Definition retrieveCollConfigFromStateDB (ns : string) : SimM (list (option string)) :=
  confPkg ← AllCollectionsConfigPkg ns;
  match confPkg with
  | None => call (Err ("collection config not defined for chaincode [" +:+ ns +:+ "], pass the collection configuration upon chaincode definition/instantiation"))
  | Some pkg => mret pkg
  end.

Definition validateCollName (ns coll : string) : SimM unit :=
  s ← get;
  if negb (q_collCheck s) then mret ()
  else
    _ ← (if isPopulatedFor (q_cache s) ns then mret ()
         else conf ← retrieveCollConfigFromStateDB ns;
              modify (λ s, set_cache s (populate (q_cache s) ns conf)));
    s ← get;
    if containsCollName (q_cache s) ns coll then mret ()
    else call (Err ("collection [" +:+ coll +:+ "] not defined in the collection config for chaincode [" +:+ ns +:+ "]")).

(** ** Reading (query_executor.go) *)
Definition decomposeVersionedValue (vv : option VersionedValue) : option bytes * option bytes * option Height :=
  match vv with
  | Some vv => (vv_Value vv, vv_Metadata vv, vv_Version vv)
  | None => (None, None, None)
  end.

Definition getState (ns key : string) : SimM (option bytes * option bytes) :=
  _ ← checkDone;
  s ← get;
  versionedValue ← call (db_GetState (q_db s) ns key);
  let '(val, metadata, ver) := decomposeVersionedValue versionedValue in
  _ ← record_read (λ b, AddToReadSet b ns key ver);
  mret (val, metadata).

Definition GetState (ns key : string) : SimM (option bytes) :=
  '(val, _) ← getState ns key; mret val.

Definition sim_GetStateMetadata (ns key : string) : SimM (option (gmap string bytes)) :=
  _ ← checkDone;
  s ← get;
  metadata ← (if negb (q_collectReadset s) then call (GetStateMetadata (q_db s) ns key)
              else '(_, metadata) ← getState ns key; mret metadata);
  call (Deserialize metadata).

Fixpoint record_values (record : nat → option Height → SimM unit) (i : nat)
    (values : list (option VersionedValue)) : SimM (list (option bytes)) :=
  match values with
  | [] => mret []
  | vv :: values =>
      let '(val, _, ver) := decomposeVersionedValue vv in
      _ ← record i ver;
      rest ← record_values record (S i) values;
      mret (val :: rest)
  end.

(** A database error ends in a nil slice and a nil error. *)
Definition GetStateMultipleKeys (ns : string) (keys : list string) : SimM (list (option bytes)) :=
  _ ← checkDone;
  s ← get;
  match vq_GetStateMultipleKeys (db_VersionedDB (q_db s)) ns keys with
  | Ok versionedValues =>
      record_values (λ i ver,
        s ← get;
        if q_collectReadset s then
          key ← call (index keys i);
          on_builder (λ b, AddToReadSet b ns key ver)
        else mret ()) 0 versionedValues
  | Err _ => mret []
  | Panic e => call (Panic e)
  end.

(** *** Range scans *)
Definition maxDegreeQueryReadsHashing : Z := 50.

Definition newResultsItr (s : Sim) (ns startKey endKey : string) (pageSize : Z) : outcome resultsItr :=
  dbItr ← (if (pageSize =? 0)%Z then vdb_GetStateRangeScanIterator (db_VersionedDB (q_db s)) ns startKey endKey
           else vq_GetStateRangeScanIteratorWithPagination (db_VersionedDB (q_db s)) ns startKey endKey pageSize);
  if q_collectReadset s then
    resultsHelper ← NewRangeQueryResultsHelper true maxDegreeQueryReadsHashing;
    Ok (mkResultsItr ns endKey dbItr (mkRangeQueryInfo startKey "" false NoReadsInfo) (Some resultsHelper))
  else Ok (mkResultsItr ns "" dbItr (mkRangeQueryInfo "" "" false NoReadsInfo) None).

Definition open_itr (ns startKey endKey : string) (pageSize : Z) : SimM nat :=
  _ ← checkDone;
  s ← get;
  itr ← call (newResultsItr s ns startKey endKey pageSize);
  _ ← modify (λ s, set_itrs s (q_itrs s ++ [itr]));
  mret (length (q_itrs s)).

Definition GetStateRangeScanIterator (ns startKey endKey : string) : SimM nat := open_itr ns startKey endKey 0.

(** When the pending results cannot be serialized they stay pending. *)
Definition updateRangeQueryInfo (itr : resultsItr) (queryResult : option VersionedKV) : outcome unit * resultsItr :=
  match ri_helper itr with
  | None => (Ok (), itr)
  | Some helper =>
      let rqi := ri_rangeQueryInfo itr in
      match queryResult with
      | None => (Ok (), mkResultsItr (ri_ns itr) (ri_endKey itr) (ri_dbItr itr)
                          (mkRangeQueryInfo (rqi_StartKey rqi) (ri_endKey itr) true (rqi_ReadsInfo rqi)) (Some helper))
      | Some kv =>
          let read := NewKVRead (vkv_key kv) (vv_Version (vkv_value kv)) in
          match AddResult hashFunc marshal_QueryReads helper read with
          | Ok helper =>
              (Ok (), mkResultsItr (ri_ns itr) (ri_endKey itr) (ri_dbItr itr)
                        (mkRangeQueryInfo (rqi_StartKey rqi) (vkv_key kv) (rqi_ItrExhausted rqi) (rqi_ReadsInfo rqi))
                        (Some helper))
          | Err e =>
              (Err e, mkResultsItr (ri_ns itr) (ri_endKey itr) (ri_dbItr itr) rqi
                        (Some (mkRangeQueryResultsHelper (rh_pendingResults helper ++ [read]) (rh_mt helper)
                                 (rh_maxDegree helper) (rh_hashingEnabled helper))))
          | Panic e => (Panic e, itr)
          end
      end
  end.

(** [Next] on the iterator with index [i]. *)
Definition resultsItr_Next (i : nat) : SimM (option VersionedKV) :=
  s ← get;
  itr ← call (index (q_itrs s) i);
  let '(r, dbItr) := itr_next (ri_dbItr itr) in
  let itr := mkResultsItr (ri_ns itr) (ri_endKey itr) dbItr (ri_rangeQueryInfo itr) (ri_helper itr) in
  _ ← modify (λ s, set_itrs s (<[i := itr]> (q_itrs s)));
  queryResult ← call r;
  let '(r, itr) := updateRangeQueryInfo itr queryResult in
  _ ← modify (λ s, set_itrs s (<[i := itr]> (q_itrs s)));
  _ ← call r;
  mret queryResult.

(** *** Rich queries: each result is recorded as a read *)
Definition ExecuteQuery (namespace query : string) : SimM iterator :=
  _ ← checkDone;
  s ← get;
  call (vq_ExecuteQuery (db_VersionedDB (q_db s)) namespace query).

Definition queryResultsItr_Next (dbItr : iterator) : SimM (option VersionedKV * iterator) :=
  let '(r, dbItr) := itr_next dbItr in
  queryResult ← call r;
  match queryResult with
  | None => mret (None, dbItr)
  | Some kv =>
      _ ← record_read (λ b, AddToReadSet b (vkv_ns kv) (vkv_key kv) (vv_Version (vkv_value kv)));
      mret (Some kv, dbItr)
  end.

(** *** Private data *)
Definition sim_GetPrivateData (ns coll key : string) : SimM (option bytes) :=
  _ ← validateCollName ns coll;
  _ ← checkDone;
  s ← get;
  versionedValue ← call (GetPrivateData (q_db s) ns coll key);
  let '(val, _, ver) := decomposeVersionedValue versionedValue in
  hashVersion ← call (GetKeyHashVersion (q_db s) ns coll (ComputeStringHash key));
  if negb (AreSame hashVersion ver)
  then call (Err "private data matching public hash version is not available")
  else
    _ ← (if q_collectReadset s then
           _ ← on_builder (λ b, AddToHashedReadSet b ns coll key ver);
           modify (λ s, set_privateReads s (PrivateReads_Add (q_privateReads s) ns coll))
         else mret ());
    mret val.

Definition getPrivateDataValueHash (ns coll key : string) : SimM (option bytes * option bytes) :=
  _ ← validateCollName ns coll;
  _ ← checkDone;
  s ← get;
  versionedValue ← call (GetPrivateDataHash (q_db s) ns coll key);
  let '(valHash, metadata, ver) := decomposeVersionedValue versionedValue in
  _ ← record_read (λ b, AddToHashedReadSet b ns coll key ver);
  mret (valHash, metadata).

Definition sim_GetPrivateDataHash (ns coll key : string) : SimM (option bytes) :=
  _ ← validateCollName ns coll;
  _ ← checkDone;
  s ← get;
  versionedValue ← call (GetPrivateDataHash (q_db s) ns coll key);
  let '(valHash, _, ver) := decomposeVersionedValue versionedValue in
  _ ← record_read (λ b, AddToHashedReadSet b ns coll key ver);
  mret valHash.

Definition getPrivateDataMetadataByHash (ns coll : string) (keyhash : bytes) : SimM (option (gmap string bytes)) :=
  _ ← validateCollName ns coll;
  _ ← checkDone;
  s ← get;
  if q_collectReadset s
  then call (Err "retrieving private data metadata by keyhash is not supported in simulation. This function is only available for query as yet")
  else
    metadataBytes ← call (GetPrivateDataMetadataByHash (q_db s) ns coll keyhash);
    call (Deserialize metadataBytes).

Definition sim_GetPrivateDataMetadata (ns coll key : string) : SimM (option (gmap string bytes)) :=
  s ← get;
  if negb (q_collectReadset s) then getPrivateDataMetadataByHash ns coll (ComputeStringHash key)
  else
    _ ← validateCollName ns coll;
    _ ← checkDone;
    '(_, metadataBytes) ← getPrivateDataValueHash ns coll key;
    call (Deserialize metadataBytes).

Definition GetPrivateDataMultipleKeys (ns coll : string) (keys : list string) : SimM (list (option bytes)) :=
  _ ← validateCollName ns coll;
  _ ← checkDone;
  s ← get;
  match vq_GetStateMultipleKeys (db_VersionedDB (q_db s)) (derivePvtDataNs ns coll) keys with
  | Ok versionedValues =>
      record_values (λ i ver,
        s ← get;
        if q_collectReadset s then
          key ← call (index keys i);
          _ ← on_builder (λ b, AddToHashedReadSet b ns coll key ver);
          modify (λ s, set_privateReads s (PrivateReads_Add (q_privateReads s) ns coll))
        else mret ()) 0 versionedValues
  | Err _ => mret []
  | Panic e => call (Panic e)
  end.

Definition qe_GetPrivateDataRangeScanIterator (ns coll startKey endKey : string) : SimM iterator :=
  _ ← validateCollName ns coll;
  _ ← checkDone;
  s ← get;
  call (GetPrivateDataRangeScanIterator (q_db s) ns coll startKey endKey).

(** The namespace of the results is the chaincode's. *)
Definition pvtdataResultsItr_Next (ns : string) (dbItr : iterator) : outcome (option VersionedKV) * iterator :=
  let '(r, dbItr) := itr_next dbItr in
  (kv ← r; Ok (option_map (λ kv, mkVersionedKV ns (vkv_key kv) (vkv_value kv)) kv), dbItr).

Definition qe_ExecuteQueryOnPrivateData (ns coll query : string) : SimM iterator :=
  _ ← validateCollName ns coll;
  _ ← checkDone;
  s ← get;
  call (vq_ExecuteQuery (db_VersionedDB (q_db s)) (derivePvtDataNs ns coll) query).

(** Closing an executor; the iterators are closed with it. *)
Definition Done (s : Sim) : Sim := if q_doneInvoked s then s else set_done s.

(** ** Writing (tx_simulator.go) *)
Definition checkStateMetadata (ns key : string) : SimM unit :=
  s ← get;
  metabytes ← call (GetStateMetadata (q_db s) ns key);
  metadata ← call (Deserialize metabytes);
  modify (λ s, set_metadata s (WritesetMetadata_Add (s_writesetMetadata s) ns "" key metadata)).

Definition checkPrivateStateMetadata (ns coll key : string) : SimM unit :=
  s ← get;
  metabytes ← call (GetPrivateDataMetadataByHash (q_db s) ns coll (ComputeStringHash key));
  metadata ← call (Deserialize metabytes);
  modify (λ s, set_metadata s (WritesetMetadata_Add (s_writesetMetadata s) ns coll key metadata)).

Definition checkPvtdataQueryPerformed : SimM unit :=
  s ← get;
  if s_pvtdataQueriesPerformed s
  then call (Err ("txid [" +:+ q_txid s +:+ "]: unsuppored transaction. Transaction has already performed queries on pvt data. Writes are not allowed"))
  else mret ().

Definition checkPaginatedQueryPerformed : SimM unit :=
  s ← get;
  if s_paginatedQueriesPerformed s
  then call (Err ("txid [" +:+ q_txid s +:+ "]: unsuppored transaction. Transaction has already performed a paginated query. Writes are not allowed"))
  else mret ().

Definition checkWritePrecondition (key : string) (value : option bytes) : SimM unit :=
  _ ← checkDone;
  _ ← checkPvtdataQueryPerformed;
  _ ← checkPaginatedQueryPerformed;
  _ ← modify set_written;
  s ← get;
  call (vdb_ValidateKeyValue (db_VersionedDB (q_db s)) key value).

Definition checkBeforePvtdataQueries : SimM unit :=
  s ← get;
  if s_writePerformed s
  then call (Err ("txid [" +:+ q_txid s +:+ "]: unsuppored transaction. Queries on pvt data is supported only in a read-only transaction"))
  else modify (λ s, set_flags s (s_writePerformed s) true (s_simulationResultsComputed s) (s_paginatedQueriesPerformed s)).

Definition checkBeforePaginatedQueries : SimM unit :=
  s ← get;
  if s_writePerformed s
  then call (Err ("txid [" +:+ q_txid s +:+ "]: unsuppored transaction. Paginated queries are supported only in a read-only transaction"))
  else modify (λ s, set_flags s (s_writePerformed s) (s_pvtdataQueriesPerformed s) (s_simulationResultsComputed s) true).

Definition SetState (ns key : string) (value : option bytes) : SimM unit :=
  _ ← checkWritePrecondition key value;
  _ ← on_builder (λ b, AddToWriteSet b ns key value);
  checkStateMetadata ns key.

Definition DeleteState (ns key : string) : SimM unit := SetState ns key None.

(** The map is visited in some order. *)
Definition SetStateMultipleKeys `{MapOrder} (namespace : string) (kvs : gmap string (option bytes)) : SimM unit :=
  foldr (λ k rest, _ ← SetState namespace k (default None (kvs !! k)); rest) (mret ())
    (map_range ["SetStateMultipleKeys"; namespace] 0 kvs).

Definition SetStateMetadata (namespace key : string) (metadata : gmap string bytes) : SimM unit :=
  _ ← checkWritePrecondition key None;
  _ ← on_builder (λ b, AddToMetadataWriteSet b namespace key metadata);
  checkStateMetadata namespace key.

Definition DeleteStateMetadata (namespace key : string) : SimM unit := SetStateMetadata namespace key ∅.

Definition SetPrivateData (ns coll key : string) (value : option bytes) : SimM unit :=
  _ ← validateCollName ns coll;
  _ ← checkWritePrecondition key value;
  _ ← modify set_written;
  _ ← on_builder (λ b, AddToPvtAndHashedWriteSet b ns coll key value);
  checkPrivateStateMetadata ns coll key.

Definition DeletePrivateData (ns coll key : string) : SimM unit := SetPrivateData ns coll key None.

Definition PurgePrivateData (ns coll key : string) : SimM unit :=
  _ ← validateCollName ns coll;
  _ ← checkWritePrecondition key None;
  _ ← modify set_written;
  _ ← on_builder (λ b, AddToPvtAndHashedWriteSetForPurge b ns coll key);
  checkPrivateStateMetadata ns coll key.

Definition SetPrivateDataMultipleKeys `{MapOrder} (ns coll : string) (kvs : gmap string (option bytes)) : SimM unit :=
  foldr (λ k rest, _ ← SetPrivateData ns coll k (default None (kvs !! k)); rest) (mret ())
    (map_range ["SetPrivateDataMultipleKeys"; ns; coll] 0 kvs).

Definition SetPrivateDataMetadata (namespace collection key : string) (metadata : gmap string bytes) : SimM unit :=
  _ ← validateCollName namespace collection;
  _ ← checkWritePrecondition key None;
  _ ← on_builder (λ b, AddToHashedMetadataWriteSet b namespace collection key metadata);
  checkPrivateStateMetadata namespace collection key.

Definition DeletePrivateDataMetadata (namespace collection key : string) : SimM unit :=
  SetPrivateDataMetadata namespace collection key ∅.

(** Queries only a read-only transaction may make. *)
Definition s_GetPrivateDataRangeScanIterator (namespace collection startKey endKey : string) : SimM iterator :=
  _ ← checkBeforePvtdataQueries;
  qe_GetPrivateDataRangeScanIterator namespace collection startKey endKey.

Definition s_ExecuteQueryOnPrivateData (namespace collection query : string) : SimM iterator :=
  _ ← checkBeforePvtdataQueries;
  qe_ExecuteQueryOnPrivateData namespace collection query.

Definition s_GetStateRangeScanIteratorWithPagination (namespace startKey endKey : string) (pageSize : Z) : SimM nat :=
  _ ← checkBeforePaginatedQueries;
  open_itr namespace startKey endKey pageSize.

Definition s_ExecuteQueryWithPagination (namespace query bookmark : string) (pageSize : Z) : SimM iterator :=
  _ ← checkBeforePaginatedQueries;
  _ ← checkDone;
  s ← get;
  call (vq_ExecuteQueryWithPagination (db_VersionedDB (q_db s)) namespace query bookmark pageSize).

(** ** Results *)
Definition finish_itr (itr : resultsItr) : outcome RangeQueryInfo :=
  helper ← deref (ri_helper itr);
  '(results, hash) ← helper_Done hashFunc marshal_QueryReads helper;
  let rqi := ri_rangeQueryInfo itr in
  let info := match results with [] => rqi_ReadsInfo rqi | _ => RawReads results end in
  let info := match hash with Some h => ReadsMerkleHashes h | None => info end in
  Ok (mkRangeQueryInfo (rqi_StartKey rqi) (rqi_EndKey rqi) (rqi_ItrExhausted rqi) info).

(** An error is kept in the executor and ends the loop. *)
Fixpoint addRangeQueryInfo_loop (itrs : list resultsItr) : SimM unit :=
  match itrs with
  | [] => mret ()
  | itr :: itrs =>
      match finish_itr itr with
      | Ok rqi => _ ← on_builder (λ b, AddToRangeQuerySet b (ri_ns itr) rqi); addRangeQueryInfo_loop itrs
      | Err e => modify (λ s, set_err s e)
      | Panic e => call (Panic e)
      end
  end.

Definition addRangeQueryInfo : SimM unit :=
  s ← get;
  if negb (q_collectReadset s) then mret () else addRangeQueryInfo_loop (q_itrs s).

Definition set_computed (s : Sim) : Sim :=
  set_flags s (s_writePerformed s) (s_pvtdataQueriesPerformed s) true (s_paginatedQueriesPerformed s).

Definition results_body : SimM TxSimulationResults :=
  s ← get;
  match q_err s with
  | Some e => call (Err e)
  | None =>
      _ ← addRangeQueryInfo;
      s ← get;
      let '(r, b) := builder_GetTxSimulationResults (q_rwsetBuilder s) in
      _ ← modify (λ s, set_builder s b);
      simResults ← call r;
      mret (mkTxSimulationResults (sim_Pub simResults) (sim_Pvt simResults) (q_privateReads s) (s_writesetMetadata s))
  end.

(** The deferred function marks the results as computed whatever happens. *)
Definition GetTxSimulationResults : SimM TxSimulationResults := λ s,
  if s_simulationResultsComputed s
  then (Err "this function should only be called once on a transaction simulator instance", s)
  else let '(r, s) := results_body s in (r, set_computed s).

(** ** The calls of a chaincode

    What a chaincode can ask of its simulator, as one type of calls with one
    type of replies. A chaincode chooses each call from the replies so far. *)
Inductive sim_call :=
  | CGetState (ns key : string)
  | CGetStateMetadata (ns key : string)
  | CGetStateMultipleKeys (ns : string) (keys : list string)
  | CRange (ns startKey endKey : string)
  | CRangePage (ns startKey endKey : string) (pageSize : Z)
  | CNext (i : nat)
  | CQuery (ns query : string)
  | CQueryPage (ns query bookmark : string) (pageSize : Z)
  | CQueryNext (it : iterator)
  | CGetPrivateData (ns coll key : string)
  | CGetPrivateDataHash (ns coll key : string)
  | CGetPrivateDataMetadata (ns coll key : string)
  | CGetPrivateDataMetadataByHash (ns coll : string) (keyhash : bytes)
  | CGetPrivateDataMultipleKeys (ns coll : string) (keys : list string)
  | CPrivateRange (ns coll startKey endKey : string)
  | CPrivateQuery (ns coll query : string)
  | CSetState (ns key : string) (value : option bytes)
  | CSetStateMetadata (ns key : string) (metadata : gmap string bytes)
  | CSetPrivateData (ns coll key : string) (value : option bytes)
  | CPurgePrivateData (ns coll key : string)
  | CSetPrivateDataMetadata (ns coll key : string) (metadata : gmap string bytes)
  | CResults
  | CDone.

Inductive reply :=
  | RUnit
  | RValue (v : option bytes)
  | RValues (vs : list (option bytes))
  | RMetadata (m : option (gmap string bytes))
  | RItr (i : nat)
  | RQuery (it : iterator)
  | RResult (kv : option VersionedKV)
  | RQueryResult (kv : option VersionedKV) (it : iterator)
  | RResults (r : TxSimulationResults).

Definition exec (c : sim_call) : SimM reply :=
  match c with
  | CGetState ns key => v ← GetState ns key; mret (RValue v)
  | CGetStateMetadata ns key => m ← sim_GetStateMetadata ns key; mret (RMetadata m)
  | CGetStateMultipleKeys ns keys => vs ← GetStateMultipleKeys ns keys; mret (RValues vs)
  | CRange ns startKey endKey => i ← GetStateRangeScanIterator ns startKey endKey; mret (RItr i)
  | CRangePage ns startKey endKey n => i ← s_GetStateRangeScanIteratorWithPagination ns startKey endKey n; mret (RItr i)
  | CNext i => kv ← resultsItr_Next i; mret (RResult kv)
  | CQuery ns query => it ← ExecuteQuery ns query; mret (RQuery it)
  | CQueryPage ns query bookmark n => it ← s_ExecuteQueryWithPagination ns query bookmark n; mret (RQuery it)
  | CQueryNext it => '(kv, it) ← queryResultsItr_Next it; mret (RQueryResult kv it)
  | CGetPrivateData ns coll key => v ← sim_GetPrivateData ns coll key; mret (RValue v)
  | CGetPrivateDataHash ns coll key => v ← sim_GetPrivateDataHash ns coll key; mret (RValue v)
  | CGetPrivateDataMetadata ns coll key => m ← sim_GetPrivateDataMetadata ns coll key; mret (RMetadata m)
  | CGetPrivateDataMetadataByHash ns coll h => m ← getPrivateDataMetadataByHash ns coll h; mret (RMetadata m)
  | CGetPrivateDataMultipleKeys ns coll keys => vs ← GetPrivateDataMultipleKeys ns coll keys; mret (RValues vs)
  | CPrivateRange ns coll startKey endKey => it ← s_GetPrivateDataRangeScanIterator ns coll startKey endKey; mret (RQuery it)
  | CPrivateQuery ns coll query => it ← s_ExecuteQueryOnPrivateData ns coll query; mret (RQuery it)
  | CSetState ns key value => _ ← SetState ns key value; mret RUnit
  | CSetStateMetadata ns key metadata => _ ← SetStateMetadata ns key metadata; mret RUnit
  | CSetPrivateData ns coll key value => _ ← SetPrivateData ns coll key value; mret RUnit
  | CPurgePrivateData ns coll key => _ ← PurgePrivateData ns coll key; mret RUnit
  | CSetPrivateDataMetadata ns coll key metadata => _ ← SetPrivateDataMetadata ns coll key metadata; mret RUnit
  | CResults => r ← GetTxSimulationResults; mret (RResults r)
  | CDone => _ ← modify Done; mret RUnit
  end.

(** The states calls lead to. *)
Inductive calls : Sim → Sim → Prop :=
  | calls_nil s : calls s s
  | calls_step c s s' : calls (snd (exec c s)) s' → calls s s'.

(** A chaincode; a panic ends the run. *)
Inductive chaincode :=
  | Stop
  | Call (c : sim_call) (k : outcome reply → chaincode).

Fixpoint run_chaincode (p : chaincode) (s : Sim) : list (outcome reply) * Sim :=
  match p with
  | Stop => ([], s)
  | Call c k =>
      let '(r, s) := exec c s in
      match r with
      | Panic e => ([Panic e], s)
      | _ => let '(rs, s) := run_chaincode (k r) s in (r :: rs, s)
      end
  end.

(** ** What calls preserve

    [grows P] is a call after which the state has moved along [P]. *)
Definition grows {A} (P : Sim → Sim → Prop) (m : SimM A) : Prop := ∀ s, P s (snd (m s)).

Section grows.
Context (P : Sim → Sim → Prop) `{!PreOrder P}.

Lemma grows_ret {A} (a : A) : grows P (mret a : SimM A).
Proof. intros s. cbn. reflexivity. Qed.

Lemma grows_call {A} (o : outcome A) : grows P (call o).
Proof. intros s. cbn. reflexivity. Qed.

Lemma grows_get : grows P get.
Proof. intros s. cbn. reflexivity. Qed.

Lemma grows_bind {A B} (m : SimM A) (f : A → SimM B) :
  grows P m → (∀ a, grows P (f a)) → grows P (m ≫= f).
Proof.
  intros Hm Hf s. specialize (Hm s). unfold mbind, SimM_bind. destruct (m s) as [[a|e|e] s']; cbn in *; [|done..].
  etrans; [done|]. apply Hf.
Qed.

(** After reading the state, the continuation only runs on the state read. *)
Lemma grows_get_bind {B} (f : Sim → SimM B) :
  (∀ s, P s (snd (f s s))) → grows P (get ≫= f).
Proof. intros Hf s. apply Hf. Qed.

Lemma grows_modify f : (∀ s, P s (f s)) → grows P (modify f).
Proof. intros Hf s. apply Hf. Qed.
End grows.

(** ** Reading never writes

    The collection configurations are read through the executor, which gives
    the provider no way to write. *)
Definition is_read (op : build_op) : bool :=
  match op with
  | ORead _ _ _ | ORange _ _ | OHashedRead _ _ _ _ => true
  | _ => false
  end.

Definition same_flags (s s' : Sim) : Prop :=
  s_writePerformed s' = s_writePerformed s ∧ s_pvtdataQueriesPerformed s' = s_pvtdataQueriesPerformed s ∧
  s_paginatedQueriesPerformed s' = s_paginatedQueriesPerformed s ∧
  s_simulationResultsComputed s' = s_simulationResultsComputed s.

Definition only_reads (s s' : Sim) : Prop :=
  same_flags s s' ∧ ∃ ops, Forall is_read ops ∧ q_rwsetBuilder s' = foldl run_op (q_rwsetBuilder s) ops.

Definition provider_only_reads : Prop := ∀ ns, grows only_reads (AllCollectionsConfigPkg ns).

(** *** The invariant of a simulator *)
Record good (s : Sim) : Prop := {
  g_exclusive : s_writePerformed s = true → s_pvtdataQueriesPerformed s = false ∧ s_paginatedQueriesPerformed s = false;
  g_ops : s_simulationResultsComputed s = false → ∃ ops, q_rwsetBuilder s = run_ops ops ∧
    (s_writePerformed s = false → Forall is_read ops)
}.

Definition stays_good (s s' : Sim) : Prop := good s → good s'.

#[local] Instance stays_good_preorder : PreOrder stays_good.
Proof. split; [intros ??; done|intros s1 s2 s3 Hab Hbc Ha; by apply Hbc, Hab]. Qed.

Lemma good_only_reads s s' : only_reads s s' → stays_good s s'.
Proof.
  intros [(E1 & E2 & E3 & E4) (ops & Hops & Eb)] [He Ho]. split.
  - by rewrite E1, E2, E3.
  - rewrite E4, E1. intros (ops' & Hb & Hr)%Ho. exists (ops' ++ ops). split.
    + rewrite Eb, Hb. unfold run_ops. by rewrite foldl_app.
    + intros Hw. apply Forall_app. split; [by apply Hr|done].
Qed.

Lemma stays_same s s' : same_flags s s' → q_rwsetBuilder s' = q_rwsetBuilder s → stays_good s s'.
Proof. intros Hs Hb. apply good_only_reads. split; [done|]. exists []. split; [constructor|done]. Qed.

Lemma stays_read op s : is_read op → stays_good s (set_builder s (run_op (q_rwsetBuilder s) op)).
Proof.
  intros Hop. apply good_only_reads. split; [done|]. exists [op]. split; [by constructor|done].
Qed.

Lemma good_new db txid : good (newTxSimulator db txid).
Proof. split; [done|]. intros _. exists []. by repeat constructor. Qed.
End executor.

(** Lemmas on the parts of a call. *)
Create HintDb sim.

(** Walks through a call: its binds, branches and changes of the state. *)
Ltac grow :=
  repeat match goal with
  | |- grows _ (mret _) => apply grows_ret; apply _
  | |- grows _ (call _) => apply grows_call; apply _
  | |- grows _ get => apply grows_get; apply _
  | |- grows _ (_ ≫= _) => apply grows_bind; [apply _| |intros ?]
  | |- grows _ (match ?x with _ => _ end) => destruct x
  | _ => solve [eauto with sim]
  end.

Section invariant.
Context `{VersionedDB} `{Bookkeeper} `{Hashing} `{RwsetCodec} `{!QueryDB} `{!CCInfoProvider}.
Context (hasher : bytes → bytes) (Hprovider : provider_only_reads).

#[local] Existing Instance stays_good_preorder.

Lemma grows_provider ns : grows stays_good (AllCollectionsConfigPkg ns).
Proof. intros s. apply good_only_reads, Hprovider. Qed.

Lemma grows_builder op : is_read op → grows stays_good (on_builder (λ b, run_op b op)).
Proof. intros Hop s. by apply stays_read. Qed.

Lemma grows_record op : is_read op → grows stays_good (record_read (λ b, run_op b op)).
Proof. intros Hop. unfold record_read. grow. by apply grows_builder. Qed.

Lemma grows_same f :
  (∀ s, same_flags s (f s) ∧ q_rwsetBuilder (f s) = q_rwsetBuilder s) → grows stays_good (modify f).
Proof. intros Hf s. apply stays_same; apply Hf. Qed.

#[local] Hint Resolve grows_provider grows_builder grows_record : sim.

Ltac same := apply grows_same; intros ?; done.
#[local] Hint Extern 1 (grows _ (modify _)) => same : sim.

(** *** Reads *)
Lemma grows_checkDone : grows stays_good checkDone.
Proof. unfold checkDone. grow. Qed.
#[local] Hint Resolve grows_checkDone : sim.

Lemma grows_validateCollName ns coll : grows stays_good (validateCollName ns coll).
Proof. unfold validateCollName, retrieveCollConfigFromStateDB. grow. Qed.
#[local] Hint Resolve grows_validateCollName : sim.

Lemma grows_getState ns key : grows stays_good (getState ns key).
Proof. unfold getState. grow. by apply (grows_record (ORead _ _ _)). Qed.
#[local] Hint Resolve grows_getState : sim.

Lemma grows_record_values record i values :
  (∀ i ver, grows stays_good (record i ver)) → grows stays_good (record_values record i values).
Proof.
  intros Hr. revert i. induction values as [|vv values IH]; intros i; cbn [record_values]; [grow|].
  destruct (decomposeVersionedValue vv) as [[val md] ver]. grow.
Qed.

Lemma grows_read_builder ns key ver : grows stays_good (on_builder (λ b, AddToReadSet b ns key ver)).
Proof. by apply (grows_builder (ORead _ _ _)). Qed.

Lemma grows_hashed_builder ns coll key ver : grows stays_good (on_builder (λ b, AddToHashedReadSet b ns coll key ver)).
Proof. by apply (grows_builder (OHashedRead _ _ _ _)). Qed.

Lemma grows_hashed_read ns coll key ver :
  grows stays_good (record_read (λ b, AddToHashedReadSet b ns coll key ver)).
Proof. by apply (grows_record (OHashedRead _ _ _ _)). Qed.
#[local] Hint Resolve grows_read_builder grows_hashed_builder grows_hashed_read : sim.

Lemma grows_getPrivateDataValueHash ns coll key : grows stays_good (getPrivateDataValueHash ns coll key).
Proof. unfold getPrivateDataValueHash. grow. Qed.

Lemma grows_getPrivateDataMetadataByHash ns coll h : grows stays_good (getPrivateDataMetadataByHash ns coll h).
Proof. unfold getPrivateDataMetadataByHash. grow. Qed.
#[local] Hint Resolve grows_getPrivateDataValueHash grows_getPrivateDataMetadataByHash : sim.

Lemma grows_open_itr ns startKey endKey n : grows stays_good (open_itr ns startKey endKey n).
Proof. unfold open_itr. grow. Qed.

Lemma grows_resultsItr_Next i : grows stays_good (resultsItr_Next hasher i).
Proof.
  unfold resultsItr_Next. apply grows_bind; [apply _|grow|intros s]. apply grows_bind; [apply _|grow|intros itr].
  destruct (itr_next (ri_dbItr itr)) as [r dbItr]. apply grows_bind; [apply _|grow|intros _].
  apply grows_bind; [apply _|grow|intros kv]. destruct (updateRangeQueryInfo hasher _ kv) as [r' itr']. grow.
Qed.

Lemma grows_queryResultsItr_Next it : grows stays_good (queryResultsItr_Next it).
Proof.
  unfold queryResultsItr_Next. destruct (itr_next it) as [r it']. grow. by apply (grows_record (ORead _ _ _)).
Qed.
#[local] Hint Resolve grows_open_itr grows_resultsItr_Next grows_queryResultsItr_Next : sim.

(** *** Writes: the flag is set before anything is written *)
Lemma grows_write {A} key value (m : SimM A) :
  (∀ s, s_writePerformed s = true → stays_good s (snd (m s))) →
  grows stays_good (checkWritePrecondition key value ≫= λ _, m).
Proof.
  intros Hm s Hs. unfold checkWritePrecondition, checkDone, checkPvtdataQueryPerformed, checkPaginatedQueryPerformed.
  unfold mbind, SimM_bind, get, call, modify, mret, SimM_ret; cbn.
  destruct (q_doneInvoked s); [done|]. destruct (s_pvtdataQueriesPerformed s) eqn:Ep; [done|].
  destruct (s_paginatedQueriesPerformed s) eqn:Eg; [done|]. cbn.
  assert (good (set_written s)) as Hw.
  { destruct Hs as [_ Ho]. split; cbn; [by rewrite Ep, Eg|]. intros (ops & Hb & _)%Ho. by exists ops. }
  destruct (vdb_ValidateKeyValue _ _ _) as [[]| |]; cbn; [|done..]. by apply Hm.
Qed.

Lemma stays_written {A} op (m : SimM A) s :
  grows stays_good m → s_writePerformed s = true →
  stays_good s (snd ((on_builder (λ b, run_op b op) ≫= λ _, m) s)).
Proof.
  intros Hm Hw Hs. cbn. apply Hm. destruct Hs as [He Ho]. split; cbn; [by apply He|].
  intros (ops & Hb & _)%Ho. exists (ops ++ [op]). rewrite Hb, Hw. split; [|done]. unfold run_ops. by rewrite foldl_app.
Qed.

Lemma stays_written_again {A} (m : SimM A) s :
  (∀ s, s_writePerformed s = true → stays_good s (snd (m s))) → s_writePerformed s = true →
  stays_good s (snd ((modify set_written ≫= λ _, m) s)).
Proof.
  intros Hm Hw Hs. cbn. apply Hm; [done|]. destruct Hs as [He Ho]. split; cbn; [intros _; by apply He|].
  intros (ops & Hb & _)%Ho. by exists ops.
Qed.

Lemma grows_checkStateMetadata ns key : grows stays_good (checkStateMetadata ns key).
Proof. unfold checkStateMetadata. grow. Qed.
Lemma grows_checkPrivateStateMetadata ns coll key : grows stays_good (checkPrivateStateMetadata ns coll key).
Proof. unfold checkPrivateStateMetadata. grow. Qed.
#[local] Hint Resolve grows_checkStateMetadata grows_checkPrivateStateMetadata : sim.

Lemma grows_SetState ns key value : grows stays_good (SetState ns key value).
Proof. apply grows_write. intros s Hw. apply (stays_written (OWrite _ _ _)); [grow|done]. Qed.

Lemma grows_SetStateMetadata ns key m : grows stays_good (SetStateMetadata ns key m).
Proof. apply grows_write. intros s Hw. apply (stays_written (OMetadata _ _ _)); [grow|done]. Qed.

Lemma grows_SetPrivateData ns coll key value : grows stays_good (SetPrivateData ns coll key value).
Proof.
  unfold SetPrivateData. apply grows_bind; [apply _|grow|intros _]. apply grows_write. intros s. apply stays_written_again.
  intros s' Hw. apply (stays_written (OPvtWrite _ _ _ _)); [grow|done].
Qed.

Lemma grows_PurgePrivateData ns coll key : grows stays_good (PurgePrivateData ns coll key).
Proof.
  unfold PurgePrivateData. apply grows_bind; [apply _|grow|intros _]. apply grows_write. intros s. apply stays_written_again.
  intros s' Hw. apply (stays_written (OPurge _ _ _)); [grow|done].
Qed.

Lemma grows_SetPrivateDataMetadata ns coll key m : grows stays_good (SetPrivateDataMetadata ns coll key m).
Proof.
  unfold SetPrivateDataMetadata. apply grows_bind; [apply _|grow|intros _]. apply grows_write. intros s Hw.
  apply (stays_written (OHashedMetadata _ _ _ _)); [grow|done].
Qed.
#[local] Hint Resolve grows_SetState grows_SetStateMetadata grows_SetPrivateData grows_PurgePrivateData : sim.
#[local] Hint Resolve grows_SetPrivateDataMetadata : sim.

(** *** Queries of a read-only transaction *)
Lemma grows_checkBeforePvtdataQueries : grows stays_good checkBeforePvtdataQueries.
Proof.
  apply grows_get_bind. intros s Hs. destruct (s_writePerformed s) eqn:Ew; [done|]. destruct Hs as [_ Ho].
  split; cbn; [by rewrite Ew|done].
Qed.
Lemma grows_checkBeforePaginatedQueries : grows stays_good checkBeforePaginatedQueries.
Proof.
  apply grows_get_bind. intros s Hs. destruct (s_writePerformed s) eqn:Ew; [done|]. destruct Hs as [_ Ho].
  split; cbn; [by rewrite Ew|done].
Qed.
#[local] Hint Resolve grows_checkBeforePvtdataQueries grows_checkBeforePaginatedQueries : sim.

(** *** Results *)
Lemma grows_addRangeQueryInfo_loop itrs : grows stays_good (addRangeQueryInfo_loop hasher itrs).
Proof.
  induction itrs as [|itr itrs IH]; cbn [addRangeQueryInfo_loop]; [grow|].
  destruct (finish_itr hasher itr); [|grow..]. grow. by apply (grows_builder (ORange _ _)).
Qed.

#[local] Instance same_flags_preorder : PreOrder same_flags.
Proof.
  split; [done|]. intros s1 s2 s3 (E1 & E2 & E3 & E4) (F1 & F2 & F3 & F4). unfold same_flags.
  by rewrite F1, F2, F3, F4, E1, E2, E3, E4.
Qed.

Lemma same_flags_range itrs : grows same_flags (addRangeQueryInfo_loop hasher itrs).
Proof.
  induction itrs as [|itr itrs IH]; cbn [addRangeQueryInfo_loop]; [grow|].
  destruct (finish_itr hasher itr); [|done|grow]. apply grows_bind; [apply _|done|done].
Qed.

Lemma same_flags_results : grows same_flags (results_body hasher).
Proof.
  unfold results_body, addRangeQueryInfo. grow; [apply same_flags_range|done].
Qed.

Lemma grows_results : grows stays_good (GetTxSimulationResults hasher).
Proof.
  intros s Hs. unfold GetTxSimulationResults. destruct (s_simulationResultsComputed s) eqn:E; [done|].
  pose proof (same_flags_results s) as (E1 & E2 & E3 & _). destruct (results_body hasher s) as [r s']; cbn in *.
  destruct Hs as [He _]. split; cbn; [by rewrite E1, E2, E3|done].
Qed.
#[local] Hint Resolve grows_results : sim.

Lemma grows_exec c : grows stays_good (exec hasher c).
Proof.
  destruct c; cbn [exec];
    unfold GetState, sim_GetStateMetadata, GetStateMultipleKeys, GetStateRangeScanIterator,
      s_GetStateRangeScanIteratorWithPagination, ExecuteQuery, s_ExecuteQueryWithPagination,
      sim_GetPrivateData, sim_GetPrivateDataHash, sim_GetPrivateDataMetadata, GetPrivateDataMultipleKeys,
      s_GetPrivateDataRangeScanIterator, qe_GetPrivateDataRangeScanIterator, s_ExecuteQueryOnPrivateData,
      qe_ExecuteQueryOnPrivateData; grow.
  - apply grows_record_values. intros i ver. grow.
  - apply grows_record_values. intros i ver. grow.
  - apply grows_same. intros s. unfold Done. by destruct (q_doneInvoked s).
Qed.

Lemma calls_good s s' : calls hasher s s' → good s → good s'.
Proof. induction 1 as [|c s s' _ IH]; [done|]. intros Hs. by apply IH, grows_exec. Qed.

(** *** Once computed, always computed *)
Definition latched (s s' : Sim) : Prop := s_simulationResultsComputed s = true → s_simulationResultsComputed s' = true.

#[local] Instance latched_preorder : PreOrder latched.
Proof. split; [by intros ??|intros s1 s2 s3 Hab Hbc Ha; by apply Hbc, Hab]. Qed.

Lemma latched_provider ns : grows latched (AllCollectionsConfigPkg ns).
Proof. intros s Hs. by destruct (Hprovider ns s) as [(_ & _ & _ & ->) _]. Qed.
#[local] Hint Resolve latched_provider : sim.
#[local] Hint Extern 1 (grows latched (modify _)) => (intros ? ?; assumption) : sim.
#[local] Hint Extern 1 (grows latched (on_builder _)) => (intros ? ?; assumption) : sim.

Ltac latch lem := intros; unfold lem; grow.

Lemma latched_record f : grows latched (record_read f).
Proof. latch @record_read. Qed.
Lemma latched_checkDone : grows latched checkDone.
Proof. latch @checkDone. Qed.
Lemma latched_validateCollName ns coll : grows latched (validateCollName ns coll).
Proof. unfold validateCollName, retrieveCollConfigFromStateDB. grow. Qed.
#[local] Hint Resolve latched_record latched_checkDone latched_validateCollName : sim.

Lemma latched_getState ns key : grows latched (getState ns key).
Proof. latch @getState. Qed.
Lemma latched_getPrivateDataValueHash ns coll key : grows latched (getPrivateDataValueHash ns coll key).
Proof. latch @getPrivateDataValueHash. Qed.
Lemma latched_getPrivateDataMetadataByHash ns coll h : grows latched (getPrivateDataMetadataByHash ns coll h).
Proof. latch @getPrivateDataMetadataByHash. Qed.
Lemma latched_open_itr ns startKey endKey n : grows latched (open_itr ns startKey endKey n).
Proof. latch @open_itr. Qed.
#[local] Hint Resolve latched_getState latched_getPrivateDataValueHash latched_getPrivateDataMetadataByHash : sim.
#[local] Hint Resolve latched_open_itr : sim.

Lemma latched_record_values record i values :
  (∀ i ver, grows latched (record i ver)) → grows latched (record_values record i values).
Proof.
  intros Hr. revert i. induction values as [|vv values IH]; intros i; cbn [record_values]; [grow|].
  destruct (decomposeVersionedValue vv) as [[val md] ver]. grow.
Qed.

Lemma latched_resultsItr_Next i : grows latched (resultsItr_Next hasher i).
Proof.
  unfold resultsItr_Next. apply grows_bind; [apply _|grow|intros s]. apply grows_bind; [apply _|grow|intros itr].
  destruct (itr_next (ri_dbItr itr)) as [r dbItr]. apply grows_bind; [apply _|grow|intros _].
  apply grows_bind; [apply _|grow|intros kv]. destruct (updateRangeQueryInfo hasher _ kv) as [r' itr']. grow.
Qed.
Lemma latched_queryResultsItr_Next it : grows latched (queryResultsItr_Next it).
Proof. unfold queryResultsItr_Next. destruct (itr_next it) as [r it']. grow. Qed.
#[local] Hint Resolve latched_resultsItr_Next latched_queryResultsItr_Next : sim.

Lemma latched_checkWritePrecondition key value : grows latched (checkWritePrecondition key value).
Proof.
  unfold checkWritePrecondition, checkPvtdataQueryPerformed, checkPaginatedQueryPerformed. grow.
Qed.
Lemma latched_checkStateMetadata ns key : grows latched (checkStateMetadata ns key).
Proof. latch @checkStateMetadata. Qed.
Lemma latched_checkPrivateStateMetadata ns coll key : grows latched (checkPrivateStateMetadata ns coll key).
Proof. latch @checkPrivateStateMetadata. Qed.
Lemma latched_results : grows latched (GetTxSimulationResults hasher).
Proof. intros s Hs. unfold GetTxSimulationResults. by rewrite Hs. Qed.
#[local] Hint Resolve latched_checkWritePrecondition latched_checkStateMetadata : sim.
#[local] Hint Resolve latched_checkPrivateStateMetadata latched_results : sim.

Lemma latched_exec c : grows latched (exec hasher c).
Proof.
  destruct c; cbn [exec];
    unfold GetState, sim_GetStateMetadata, GetStateMultipleKeys, GetStateRangeScanIterator,
      s_GetStateRangeScanIteratorWithPagination, ExecuteQuery, s_ExecuteQueryWithPagination,
      sim_GetPrivateData, sim_GetPrivateDataHash, sim_GetPrivateDataMetadata, GetPrivateDataMultipleKeys,
      s_GetPrivateDataRangeScanIterator, qe_GetPrivateDataRangeScanIterator, s_ExecuteQueryOnPrivateData,
      qe_ExecuteQueryOnPrivateData, checkBeforePvtdataQueries, checkBeforePaginatedQueries,
      SetState, SetStateMetadata, SetPrivateData, PurgePrivateData, SetPrivateDataMetadata; grow.
  - apply latched_record_values. intros i ver. grow.
  - apply latched_record_values. intros i ver. grow.
  - intros s Hs. cbn. unfold Done. by destruct (q_doneInvoked s).
Qed.

Lemma results_compute s : s_simulationResultsComputed (snd (GetTxSimulationResults hasher s)) = true.
Proof.
  unfold GetTxSimulationResults. destruct (s_simulationResultsComputed s) eqn:E; [done|].
  by destruct (results_body hasher s) as [r s'].
Qed.

Lemma calls_latched s s' : calls hasher s s' → latched s s'.
Proof. induction 1 as [|c s s' _ IH]; [done|]. etrans; [apply (latched_exec c)|done]. Qed.
End invariant.

(** ** Results of a read-only transaction *)
Section read_only.
Context `{Hashing} `{RwsetCodec}.

Record unwritten_ns (n : nsPubRwBuilder) : Prop := {
  un_write : nb_writeMap n = ∅;
  un_meta : nb_metadataWriteMap n = ∅;
  un_colls coll c : nb_collHashRwBuilder n !! coll = Some c → hb_writeMap c = ∅ ∧ hb_metadataWriteMap c = ∅
}.

Definition unwritten (b : RWSetBuilder) : Prop :=
  pvtRwBuilderMap b = ∅ ∧ ∀ ns n, pubRwBuilderMap b !! ns = Some n → unwritten_ns n.

Lemma unwritten_on_ns b ns f :
  (∀ n, unwritten_ns n → unwritten_ns (f n)) → unwritten b → unwritten (on_ns b ns f).
Proof.
  intros Hf [Hp Hb]. split; [done|]. intros ns' n. cbn. rewrite lookup_insert_Some. intros [[<- <-]|[_ Hn]]; [|by eapply Hb].
  apply Hf. destruct (pubRwBuilderMap b !! ns) as [n'|] eqn:E; cbn; [by eapply Hb|]. by split.
Qed.

Lemma unwritten_read b op : is_read op → unwritten b → unwritten (run_op b op).
Proof.
  destruct op; try done; intros _; apply unwritten_on_ns; intros n [? ? Hc].
  - by split.
  - case_match; by split.
  - split; [done..|]. cbn. intros coll' c. rewrite lookup_insert_Some. intros [[<- <-]|[_ Hn]]; [|by eapply Hc]. cbn.
    destruct (nb_collHashRwBuilder n !! coll) as [c'|] eqn:E; cbn; [by eapply Hc|done].
Qed.

Lemma unwritten_run ops : Forall is_read ops → unwritten (run_ops ops).
Proof.
  intros Hops. unfold run_ops. assert (unwritten NewRWSetBuilder) as Hb by done. revert Hb. generalize NewRWSetBuilder.
  induction Hops as [|op ops Hop _ IH]; cbn; [done|]. intros b Hb. by apply IH, unwritten_read.
Qed.

Lemma unwritten_prims b : unwritten b → prims (GetTxReadWriteSet b) = [].
Proof.
  intros [_ Hb]. unfold prims. apply concat_nil_Forall, Forall_forall. cbn.
  intros l (n' & <- & (n & <- & [ns Hn]%list_elem_of_In%values_elem)%in_map_iff)%list_elem_of_In%in_map_iff.
  destruct (Hb _ _ Hn) as [Hw Hm Hc]. unfold ns_prims; cbn. rewrite Hw, Hm. cbn.
  apply concat_nil_Forall, Forall_forall.
  intros l (c' & <- & (c & <- & [coll Hcoll]%list_elem_of_In%values_elem)%in_map_iff)%list_elem_of_In%in_map_iff.
  destruct (Hc _ _ Hcoll) as [Hcw Hcm]. unfold coll_prims; cbn. by rewrite Hcw, Hcm.
Qed.

Lemma unwritten_results b r b' :
  unwritten b → builder_GetTxSimulationResults b = (Ok r, b') → sim_Pvt r = None ∧ b' = b.
Proof.
  intros [Hp _]. unfold builder_GetTxSimulationResults, getTxPvtReadWriteSet. rewrite Hp. cbn -[tx_toProtoMsg].
  destruct (tx_toProtoMsg (GetTxReadWriteSet b)); cbn; [|done..]. by intros [= <- <-].
Qed.
End read_only.

Section results.
Context `{VersionedDB} `{Bookkeeper} `{Hashing} `{RwsetCodec} `{!QueryDB} `{!CCInfoProvider}.
Context (hasher : bytes → bytes).

#[local] Existing Instance stays_good_preorder.

(** The builder the results are computed from. *)
Lemma results_from s r s' :
  good s → GetTxSimulationResults hasher s = (Ok r, s') →
  ∃ ops r0 b', builder_GetTxSimulationResults (run_ops ops) = (Ok r0, b') ∧
    sim_Pub r = sim_Pub r0 ∧ sim_Pvt r = sim_Pvt r0 ∧ (s_writePerformed s = false → Forall is_read ops).
Proof.
  intros Hs. unfold GetTxSimulationResults. destruct (s_simulationResultsComputed s) eqn:Ec; [done|].
  unfold results_body, mbind, SimM_bind, get. cbn. destruct (q_err s); [done|].
  assert (stays_good s (snd (addRangeQueryInfo hasher s))) as Hg.
  { unfold addRangeQueryInfo. unfold mbind, SimM_bind, get. cbn. destruct (q_collectReadset s); [|done].
    by apply grows_addRangeQueryInfo_loop. }
  assert (same_flags s (snd (addRangeQueryInfo hasher s))) as (E1 & _ & _ & E4).
  { unfold addRangeQueryInfo. unfold mbind, SimM_bind, get. cbn. destruct (q_collectReadset s); [|done].
    apply same_flags_range. }
  destruct (addRangeQueryInfo hasher s) as [[[]|e|e] s1]; cbn in *; [|done..].
  destruct (Hg Hs) as [_ Ho]. rewrite E4, E1 in Ho. destruct (Ho Ec) as (ops & Hb & Hr). rewrite Hb.
  destruct (builder_GetTxSimulationResults (run_ops ops)) as [[r0|e|e] b'] eqn:Eb; cbn; [|done..].
  intros [= <- _]. by exists ops, r0, b'.
Qed.


(** A simulator gives its results once: after the first call, failed or
    not, every later one is refused, whatever was called in between. *)
Theorem results_only_once s s' :
  provider_only_reads → calls hasher (snd (GetTxSimulationResults hasher s)) s' →
  GetTxSimulationResults hasher s' =
    (Err "this function should only be called once on a transaction simulator instance", s').
Proof.
  intros Hprov Hcalls. unfold GetTxSimulationResults at 1.
  by rewrite (calls_latched hasher Hprov _ _ Hcalls (results_compute hasher s)).
Qed.
End results.

(** ** Running a chaincode again

    The read set is all a chaincode depends on: on a state that agrees with the
    keys read and the ranges scanned, it makes the same calls, gets the same
    replies and writes the same. Private data, rich queries and pages, which
    are recorded otherwise or not at all, are left out. *)
Definition repeatable (c : sim_call) : bool :=
  match c with
  | CGetState _ _ | CGetStateMetadata _ _ | CRange _ _ _ | CNext _ | CSetState _ _ _ | CSetStateMetadata _ _ _ => true
  | _ => false
  end.

Fixpoint all_repeatable (p : chaincode) : Prop :=
  match p with
  | Stop => True
  | Call c k => repeatable c ∧ ∀ r, all_repeatable (k r)
  end.

Definition read_in (b : RWSetBuilder) (ns key : string) : Prop :=
  ∃ n, pubRwBuilderMap b !! ns = Some n ∧ is_Some (nb_readMap n !! key).

(** *** What a run never takes back *)
Record itr_later (i i' : resultsItr) : Prop := {
  il_ns : ri_ns i' = ri_ns i;
  il_start : rqi_StartKey (ri_rangeQueryInfo i') = rqi_StartKey (ri_rangeQueryInfo i);
  il_end : ri_endKey i' = ri_endKey i;
  il_suffix : ri_dbItr i' `suffix_of` ri_dbItr i;
  il_exhausted : rqi_ItrExhausted (ri_rangeQueryInfo i) = true → rqi_ItrExhausted (ri_rangeQueryInfo i') = true
}.

#[export] Instance itr_later_preorder : PreOrder itr_later.
Proof.
  split; [by intros []; split|]. intros i j k [A1 A2 A3 A4 A5] [B1 B2 B3 B4 B5]. split; [congruence..|by etrans|auto].
Qed.

Section repeat.
Context `{VersionedDB} `{Bookkeeper} `{Hashing} `{RwsetCodec} `{!QueryDB} `{!CCInfoProvider}.
Context (hasher : bytes → bytes).

Record later (s s' : Sim) : Prop := {
  la_reads ns key : read_in (q_rwsetBuilder s) ns key → read_in (q_rwsetBuilder s') ns key;
  la_itrs i itr : q_itrs s !! i = Some itr → ∃ itr', q_itrs s' !! i = Some itr' ∧ itr_later itr itr'
}.

#[local] Instance later_preorder : PreOrder later.
Proof.
  split; [intros s; split; [done|]; intros i itr ->; eexists; split; [done|reflexivity]|].
  intros s1 s2 s3 [A1 A2] [B1 B2]. split; [auto|]. intros i itr (j & Hj & Hij)%A2. apply B2 in Hj as (k & Hk & Hjk).
  exists k. split; [done|]. by etrans.
Qed.

Lemma read_in_run_op b op ns key : read_in b ns key → read_in (run_op b op) ns key.
Proof.
  assert (∀ b' ns' f, (∀ n, nb_readMap n !! key = nb_readMap (f n) !! key ∨ is_Some (nb_readMap (f n) !! key)) →
    read_in b' ns key → read_in (on_ns b' ns' f) ns key) as Hon.
  { intros b' ns' f Hf (n & Hn & Hr). destruct (decide (ns' = ns)) as [<-|Hne].
    - exists (f n). cbn. rewrite lookup_insert_eq, Hn. cbn. split; [done|]. by destruct (Hf n) as [<-|].
    - exists n. cbn. by rewrite lookup_insert_ne. }
  destruct op; cbn; intros Hb; apply Hon; try done; intros n; auto.
  - cbn. destruct (decide (key0 = key)) as [->|]; [right; rewrite lookup_insert_eq; eauto|left; by rewrite lookup_insert_ne].
  - case_match; auto.
Qed.

Lemma later_builder op : grows later (on_builder (λ b, run_op b op)).
Proof.
  intros s. split; cbn; [intros ns key; apply read_in_run_op|]. intros i itr ->. eexists. split; [done|reflexivity].
Qed.

Lemma later_same f :
  (∀ s, q_rwsetBuilder (f s) = q_rwsetBuilder s ∧ q_itrs (f s) = q_itrs s) → grows later (modify f).
Proof.
  intros Hf s. cbn. destruct (Hf s) as [Eb Ei]. split; rewrite ?Eb, ?Ei; [done|]. intros i itr ->. eexists. split; [done|reflexivity].
Qed.

Lemma later_set_itr s i itr itr' :
  q_itrs s !! i = Some itr → itr_later itr itr' → later s (set_itrs s (<[i := itr']> (q_itrs s))).
Proof.
  intros Hi Hl. split; [done|]. cbn. intros j itrj Hj. destruct (decide (i = j)) as [<-|Hne].
  - exists itr'. rewrite list_lookup_insert_eq by (by eapply lookup_lt_Some). split; [done|]. by simplify_eq.
  - exists itrj. rewrite list_lookup_insert_ne by done. split; [done|reflexivity].
Qed.

#[local] Hint Extern 1 (grows later (modify _)) => (apply later_same; intros ?; done) : sim.

Lemma later_read ns key ver : grows later (record_read (λ b, AddToReadSet b ns key ver)).
Proof. unfold record_read. grow. apply (later_builder (ORead _ _ _)). Qed.
Lemma later_checkDone : grows later checkDone.
Proof. unfold checkDone. grow. Qed.
#[local] Hint Resolve later_read later_checkDone : sim.

Lemma later_getState ns key : grows later (getState ns key).
Proof. unfold getState. grow. Qed.
Lemma later_checkStateMetadata ns key : grows later (checkStateMetadata ns key).
Proof. unfold checkStateMetadata. grow. Qed.
Lemma later_checkWritePrecondition key value : grows later (checkWritePrecondition key value).
Proof. unfold checkWritePrecondition, checkPvtdataQueryPerformed, checkPaginatedQueryPerformed. grow. Qed.
#[local] Hint Resolve later_getState later_checkStateMetadata later_checkWritePrecondition : sim.

Lemma later_append itr : grows later (modify (λ s, set_itrs s (q_itrs s ++ [itr]))).
Proof.
  intros s. split; [done|]. intros i itr' Hi. exists itr'. cbn.
  rewrite lookup_app_l by (by eapply lookup_lt_Some). split; [done|reflexivity].
Qed.
#[local] Hint Resolve later_append : sim.

Lemma later_open_itr ns startKey endKey n : grows later (open_itr ns startKey endKey n).
Proof. unfold open_itr. grow. Qed.

Lemma updated_later itr kv dbItr :
  dbItr `suffix_of` ri_dbItr itr →
  itr_later itr (updateRangeQueryInfo hasher
    (mkResultsItr (ri_ns itr) (ri_endKey itr) dbItr (ri_rangeQueryInfo itr) (ri_helper itr)) kv).2.
Proof.
  intros Hsuf. unfold updateRangeQueryInfo. cbn. destruct (ri_helper itr); [|by split]. destruct kv; [|by split].
  case_match; by split.
Qed.

Lemma itr_next_suffix (it : iterator) : (itr_next it).2 `suffix_of` it.
Proof. destruct it as [|[kv|e|e] it]; cbn; [done|by eexists [_]..]. Qed.

Lemma later_resultsItr_Next i : grows later (resultsItr_Next hasher i).
Proof.
  intros s. unfold resultsItr_Next, mbind, SimM_bind, get, call, modify, mret, SimM_ret. cbn. unfold index.
  destruct (q_itrs s !! i) as [itr|] eqn:Ei; cbn; [|reflexivity].
  pose proof (itr_next_suffix (ri_dbItr itr)) as Hsuf. destruct (itr_next (ri_dbItr itr)) as [[kv|e|e] dbItr]; cbn in *.
  - pose proof (updated_later itr kv dbItr Hsuf) as Hl. destruct (updateRangeQueryInfo hasher _ kv) as [[[]|e|e] itr']; cbn in *;
      rewrite list_insert_insert_eq; by apply (later_set_itr s i itr itr').
  - eapply later_set_itr; [done|]. by split.
  - eapply later_set_itr; [done|]. by split.
Qed.
#[local] Hint Resolve later_open_itr later_resultsItr_Next : sim.

Lemma later_write ns key value : grows later (on_builder (λ b, AddToWriteSet b ns key value)).
Proof. apply (later_builder (OWrite _ _ _)). Qed.
Lemma later_metadata ns key m : grows later (on_builder (λ b, AddToMetadataWriteSet b ns key m)).
Proof. apply (later_builder (OMetadata _ _ _)). Qed.
#[local] Hint Resolve later_write later_metadata : sim.

Lemma later_exec c : repeatable c → grows later (exec hasher c).
Proof.
  destruct c; try done; intros _; cbn [exec];
    unfold GetState, sim_GetStateMetadata, GetStateRangeScanIterator, SetState, SetStateMetadata; grow.
Qed.

Lemma later_run p s : all_repeatable p → later s (snd (run_chaincode hasher p s)).
Proof.
  revert s. induction p as [|c k IH]; intros s; cbn; [reflexivity|]. intros [Hc Hk]. pose proof (later_exec c Hc s) as Hl.
  destruct (exec hasher c s) as [r s1]; cbn in *. destruct r as [a|e|e]; [| |done].
  - specialize (IH (Ok a) s1 (Hk _)). destruct (run_chaincode hasher (k (Ok a)) s1). by etrans.
  - specialize (IH (Err e) s1 (Hk _)). destruct (run_chaincode hasher (k (Err e)) s1). by etrans.
Qed.

(** *** Two states *)
Definition scan (db : DB) (itr : resultsItr) : outcome iterator :=
  vdb_GetStateRangeScanIterator (db_VersionedDB db) (ri_ns itr) (rqi_StartKey (ri_rangeQueryInfo itr)) (ri_endKey itr).

(** A database that answers, with metadata that can be decoded. *)
Record answers (db : DB) : Prop := {
  an_get ns key : ∃ vv, db_GetState db ns key = Ok vv;
  an_scan ns startKey endKey : ∃ it, vdb_GetStateRangeScanIterator (db_VersionedDB db) ns startKey endKey = Ok it;
  an_metadata ns key : ∃ mb m, GetStateMetadata db ns key = Ok mb ∧ Deserialize mb = Ok m
}.

(** [db'] agrees with [db] on what the run that ended in [s] read: the keys of
    its read set, and of each range the results consumed, none further when the
    range was exhausted. *)
Record agrees (db db' : DB) (s : Sim) : Prop := {
  ag_reads ns key : read_in (q_rwsetBuilder s) ns key → db_GetState db' ns key = db_GetState db ns key;
  ag_scans itr it : itr ∈ q_itrs s → scan db itr = Ok it → ∃ used rest,
    it = used ++ ri_dbItr itr ∧ scan db' itr = Ok (used ++ rest) ∧
    (rqi_ItrExhausted (ri_rangeQueryInfo itr) = true → rest = []);
  ag_valid key value :
    vdb_ValidateKeyValue (db_VersionedDB db') key value = vdb_ValidateKeyValue (db_VersionedDB db) key value
}.

Record itr_twin (db db' : DB) (i i' : resultsItr) : Prop := {
  it_ns : ri_ns i' = ri_ns i;
  it_end : ri_endKey i' = ri_endKey i;
  it_info : ri_rangeQueryInfo i' = ri_rangeQueryInfo i;
  it_helper : ri_helper i' = ri_helper i;
  it_simulates : is_Some (ri_helper i);
  it_rest : ∃ used, scan db i = Ok (used ++ ri_dbItr i) ∧ scan db' i = Ok (used ++ ri_dbItr i')
}.

(** The same simulator on two states. *)
Record twin (db db' : DB) (s s' : Sim) : Prop := {
  tw_db : q_db s = db;
  tw_db' : q_db s' = db';
  tw_collect : q_collectReadset s = true;
  tw_fields : (q_collectReadset s', q_rwsetBuilder s', q_err s', q_doneInvoked s', q_txid s', q_privateReads s') =
              (q_collectReadset s, q_rwsetBuilder s, q_err s, q_doneInvoked s, q_txid s, q_privateReads s);
  tw_flags : same_flags s s';
  tw_itrs : Forall2 (itr_twin db db') (q_itrs s) (q_itrs s')
}.

(** A call makes the same change to both. *)
Definition together (db db' : DB) (sF : Sim) {A} (m : SimM A) : Prop :=
  ∀ s s', twin db db' s s' → later (snd (m s)) sF → ∃ s1', m s' = (fst (m s), s1') ∧ twin db db' (snd (m s)) s1'.

Section together.
Context (db db' : DB) (sF : Sim) (Hdb : answers db) (Hdb' : answers db') (Hag : agrees db db' sF).

Lemma together_ret {A} (a : A) : together db db' sF (mret a : SimM A).
Proof. intros s s' Ht _. by exists s'. Qed.

Lemma together_call {A} (o : outcome A) : together db db' sF (call o).
Proof. intros s s' Ht _. by exists s'. Qed.

Lemma together_bind {A B} (m : SimM A) (f : A → SimM B) :
  (∀ a, grows later (f a)) → together db db' sF m → (∀ a, together db db' sF (f a)) → together db db' sF (m ≫= f).
Proof.
  intros Hgf Hm Hf s s' Ht. unfold mbind, SimM_bind. specialize (Hm s s' Ht).
  destruct (m s) as [[a|e|e] s1] eqn:Em; cbn in *; intros Hl.
  - destruct Hm as (s1' & -> & Ht1); [etrans; [apply (Hgf a)|done]|]. by apply Hf.
  - destruct (Hm Hl) as (s1' & -> & Ht1). by exists s1'.
  - destruct (Hm Hl) as (s1' & -> & Ht1). by exists s1'.
Qed.

(** Reading the state: the continuation runs on two states that are twins. *)
Lemma together_get {B} (f : Sim → SimM B) :
  (∀ s s', twin db db' s s' → later (snd (f s s)) sF →
     ∃ s1', f s' s' = (fst (f s s), s1') ∧ twin db db' (snd (f s s)) s1') →
  together db db' sF (get ≫= f).
Proof. intros Hf s s' Ht Hl. by apply Hf. Qed.

Lemma together_modify f :
  (∀ s s', twin db db' s s' → twin db db' (f s) (f s')) → together db db' sF (modify f).
Proof. intros Hf s s' Ht _. exists (f s'). split; [done|]. by apply Hf. Qed.

Ltac twins Ht :=
  let f1 := fresh "F" in let f2 := fresh "F" in let f3 := fresh "F" in let f4 := fresh "F" in
  destruct Ht as [? ? ? Hfields (f1 & f2 & f3 & f4) ?]; cbn in Hfields; injection Hfields as ? ? ? ? ? ?;
  (split; cbn; [done|done|done|congruence|by repeat split|done]).

Lemma together_builder op : together db db' sF (on_builder (λ b, run_op b op)).
Proof. apply together_modify. intros s s' Ht. twins Ht. Qed.

Lemma together_checkDone : together db db' sF checkDone.
Proof.
  intros s s' Ht _. exists s'. unfold checkDone, mbind, SimM_bind, get; cbn.
  pose proof (tw_fields _ _ _ _ Ht) as [= _ _ _ -> _ _]. by destruct (q_doneInvoked s).
Qed.

Lemma together_getState ns key : together db db' sF (getState ns key).
Proof.
  apply together_bind; [intros; grow|apply together_checkDone|]. intros []. apply together_get. intros s s' Ht.
  rewrite (tw_db _ _ _ _ Ht), (tw_db' _ _ _ _ Ht). destruct (an_get _ Hdb ns key) as [vv Hvv].
  unfold call, mbind, SimM_bind. rewrite Hvv. destruct (decomposeVersionedValue vv) as [[val md] ver] eqn:Evv.
  unfold record_read, mbind, SimM_bind, get, on_builder, modify; cbn.
  rewrite (tw_collect _ _ _ _ Ht). cbn. intros Hl. rewrite (ag_reads _ _ _ Hag ns key), Hvv, Evv; cbn.
  - pose proof (tw_fields _ _ _ _ Ht) as [= -> Eb _ _ _ _]. rewrite (tw_collect _ _ _ _ Ht), Eb. cbn.
    eexists. split; [done|]. twins Ht.
  - apply (la_reads _ _ Hl). unfold read_in. cbn. setoid_rewrite lookup_insert_eq. eexists. split; [done|]. cbn.
    rewrite lookup_insert_eq. eauto.
Qed.

Lemma together_checkStateMetadata ns key : together db db' sF (checkStateMetadata ns key).
Proof.
  apply together_get. intros s s' Ht _. rewrite (tw_db _ _ _ _ Ht), (tw_db' _ _ _ _ Ht).
  destruct (an_metadata _ Hdb ns key) as (mb & m & E1 & E2), (an_metadata _ Hdb' ns key) as (mb' & m' & E1' & E2').
  unfold mbind, SimM_bind, call. rewrite E1, E1', E2, E2'. cbn. eexists. split; [done|]. twins Ht.
Qed.

Lemma together_checkWritePrecondition key value : together db db' sF (checkWritePrecondition key value).
Proof.
  unfold checkWritePrecondition, checkPvtdataQueryPerformed, checkPaginatedQueryPerformed.
  apply together_bind; [intros; grow|apply together_checkDone|]. intros _.
  intros s s' Ht _. unfold mbind, SimM_bind, get, call, modify, mret, SimM_ret; cbn.
  pose proof (tw_flags _ _ _ _ Ht) as (_ & Ep & Eg & _). pose proof (tw_fields _ _ _ _ Ht) as [= _ _ _ _ Et _].
  rewrite Ep. destruct (s_pvtdataQueriesPerformed s) eqn:Esp; cbn; [rewrite Et; by exists s'|].
  rewrite Eg. destruct (s_paginatedQueriesPerformed s) eqn:Esg; cbn; [rewrite Et; by exists s'|].
  rewrite (tw_db _ _ _ _ Ht), (tw_db' _ _ _ _ Ht), (ag_valid _ _ _ Hag). eexists. split; [done|]. twins Ht.
Qed.

Lemma together_open_itr ns startKey endKey : together db db' sF (open_itr ns startKey endKey 0).
Proof.
  apply together_bind; [intros; grow|apply together_checkDone|]. intros []. apply together_get. intros s s' Ht.
  unfold mbind, SimM_bind, call, modify, newResultsItr; cbn.
  rewrite (tw_db _ _ _ _ Ht), (tw_db' _ _ _ _ Ht), (tw_collect _ _ _ _ Ht).
  pose proof (tw_fields _ _ _ _ Ht) as [= -> _ _ _ _ _]. rewrite (tw_collect _ _ _ _ Ht).
  destruct (an_scan _ Hdb ns startKey endKey) as [it Eit], (an_scan _ Hdb' ns startKey endKey) as [it' Eit'].
  rewrite Eit, Eit'. cbn. intros _. rewrite (Forall2_length _ _ _ (tw_itrs _ _ _ _ Ht)).
  eexists. split; [done|]. pose proof (tw_itrs _ _ _ _ Ht) as Hitrs. split; cbn; try by apply Ht.
  apply Forall2_app; [done|]. constructor; [|done]. split; cbn; eauto. exists []. unfold scan. cbn. by rewrite Eit, Eit'.
Qed.

(** The next result is the same on both states. *)
Lemma next_together itr itr' :
  itr_twin db db' itr itr' →
  (∃ itrF, itrF ∈ q_itrs sF ∧ itr_later (mkResultsItr (ri_ns itr) (ri_endKey itr) (itr_next (ri_dbItr itr)).2
     (ri_rangeQueryInfo itr) (ri_helper itr)) itrF ∧
     (ri_dbItr itr = [] → rqi_ItrExhausted (ri_rangeQueryInfo itrF) = true)) →
  ∃ rest', itr_next (ri_dbItr itr') = ((itr_next (ri_dbItr itr)).1, rest') ∧
    ∃ used, scan db itr = Ok (used ++ (itr_next (ri_dbItr itr)).2) ∧ scan db' itr = Ok (used ++ rest').
Proof.
  intros [Ens Eend Einfo _ _ (used & Hs & Hs')] (itrF & HF & [Fns Fst Fend [more Fsuf] _] & Fex). cbn in *.
  assert (∀ d, scan d itrF = scan d itr) as Escan by (intros d; unfold scan; by rewrite Fns, Fst, Fend).
  destruct (ag_scans _ _ _ Hag itrF (used ++ ri_dbItr itr) HF) as (usedF & rest & Eused & HsF & Hrest); [by rewrite Escan|].
  rewrite Escan, Hs' in HsF. injection HsF as HsF. destruct (ri_dbItr itr) as [|r it] eqn:Er; cbn in *.
  - assert (ri_dbItr itrF = []) as EF by (by destruct more, (ri_dbItr itrF)). rewrite EF, !app_nil_r in Eused. subst usedF.
    rewrite (Hrest (Fex eq_refl)) in HsF. apply app_inv_head in HsF. rewrite HsF in *. exists [].
    split; [done|]. by exists used.
  - assert (∀ it' : iterator, itr_next (r :: it') = ((itr_next (r :: it)).1, it')) as Eit by (by destruct r).
    cbn in Eit. rewrite (Eit it) in Fsuf |- *. cbn in Fsuf |- *. rewrite Fsuf in Eused.
    assert (usedF = used ++ r :: more) as ->.
    { apply (app_inv_tail (ri_dbItr itrF)). by rewrite <-Eused, <-app_assoc. }
    rewrite <-app_assoc in HsF. apply app_inv_head in HsF. cbn in HsF. rewrite HsF. exists (more ++ rest).
    split; [apply Eit|]. exists (used ++ [r]). rewrite Hs, Hs', HsF, <-!app_assoc. done.
Qed.

Lemma itr_twin_lookup s s' i itr :
  twin db db' s s' → q_itrs s !! i = Some itr → ∃ itr', q_itrs s' !! i = Some itr' ∧ itr_twin db db' itr itr'.
Proof. intros Ht Hi. by apply (Forall2_lookup_l _ _ _ _ _ (tw_itrs _ _ _ _ Ht)). Qed.

Lemma twin_set_itr s s' i itr itr' :
  twin db db' s s' → itr_twin db db' itr itr' →
  twin db db' (set_itrs s (<[i := itr]> (q_itrs s))) (set_itrs s' (<[i := itr']> (q_itrs s'))).
Proof. intros Ht Hi. split; cbn; try by apply Ht. apply Forall2_insert; [|done]. apply Ht. Qed.

Lemma update_twin itr itr' kv :
  itr_twin db db' itr itr' →
  (updateRangeQueryInfo hasher itr' kv).1 = (updateRangeQueryInfo hasher itr kv).1 ∧
  itr_twin db db' (updateRangeQueryInfo hasher itr kv).2 (updateRangeQueryInfo hasher itr' kv).2.
Proof.
  intros [Ens Eend Einfo Eh Hh Hrest]. unfold updateRangeQueryInfo. rewrite Eh, Ens, Eend, Einfo.
  destruct (ri_helper itr) as [h|] eqn:E; [|by destruct Hh]. destruct kv as [kv|]; cbn.
  - destruct (AddResult _ _ h _); cbn; (split; [done|]); split; cbn; eauto. by rewrite E.
  - split; [done|]. split; cbn; eauto.
Qed.

(** What is known of the end of a run about an iterator moved now. *)
Lemma next_final itr itr2 i r it :
  itr_next (ri_dbItr itr) = (r, it) → is_Some (ri_helper itr) →
  let base := mkResultsItr (ri_ns itr) (ri_endKey itr) it (ri_rangeQueryInfo itr) (ri_helper itr) in
  match r with Ok kv => itr2 = (updateRangeQueryInfo hasher base kv).2 | _ => itr2 = base end →
  (∃ itrF, q_itrs sF !! i = Some itrF ∧ itr_later itr2 itrF) →
  ∃ itrF, itrF ∈ q_itrs sF ∧ itr_later base itrF ∧ (ri_dbItr itr = [] → rqi_ItrExhausted (ri_rangeQueryInfo itrF) = true).
Proof.
  intros En [h Hh] base Hr (itrF & HF & Hl). exists itrF. split; [by eapply list_elem_of_lookup_2|].
  destruct r as [kv|e|e]; subst itr2.
  - split; [etrans; [by apply (updated_later base kv it)|done]|]. intros E. rewrite E in En. injection En as <- _.
    apply (il_exhausted _ _ Hl). unfold base, updateRangeQueryInfo. cbn. by rewrite Hh.
  - split; [done|]. intros E. by rewrite E in En.
  - split; [done|]. intros E. by rewrite E in En.
Qed.

Lemma together_resultsItr_Next i : together db db' sF (resultsItr_Next hasher i).
Proof.
  intros s s' Ht. unfold resultsItr_Next, mbind, SimM_bind, get, call, modify, mret, SimM_ret. cbn. unfold index.
  destruct (q_itrs s !! i) as [itr|] eqn:Ei; cbn.
  2:{ intros _. exists s'. assert (q_itrs s' !! i = None) as ->; [|done]. apply lookup_ge_None_2.
    rewrite <-(Forall2_length _ _ _ (tw_itrs _ _ _ _ Ht)). by apply lookup_ge_None_1. }
  destruct (itr_twin_lookup s s' i itr Ht Ei) as (itr' & Ei' & Hit). rewrite Ei'. cbn.
  pose proof Hit as [Ens Eend Einfo Eh Hh _]. destruct (itr_next (ri_dbItr itr)) as [r it] eqn:En.
  set (base := mkResultsItr (ri_ns itr) (ri_endKey itr) it (ri_rangeQueryInfo itr) (ri_helper itr)).
  set (itr2 := match r with Ok kv => (updateRangeQueryInfo hasher base kv).2 | _ => base end). intros Hl.
  assert (∃ itrF, q_itrs sF !! i = Some itrF ∧ itr_later itr2 itrF) as HF.
  { apply (la_itrs _ _ Hl). unfold itr2. destruct r as [kv|e|e]; cbn; [|by apply list_lookup_insert_eq, (lookup_lt_Some _ _ itr)..].
    destruct (updateRangeQueryInfo hasher base kv) as [[[]|e|e] itr2']; cbn;
      by rewrite list_insert_insert_eq, list_lookup_insert_eq by (by eapply lookup_lt_Some). }
  destruct (next_together itr itr' Hit) as (rest' & En' & Hrest).
  { rewrite En. apply (next_final itr itr2 i r it En Hh); [by destruct r|done]. }
  rewrite En'. rewrite En in Hrest |- *. cbn in Hrest |- *.
  assert (itr_twin db db' base (mkResultsItr (ri_ns itr') (ri_endKey itr') rest' (ri_rangeQueryInfo itr') (ri_helper itr'))) as Hb
    by (split; done).
  destruct r as [kv|e|e]; cbn; [|by eexists; (split; [done|]); apply twin_set_itr..].
  destruct (update_twin _ _ kv Hb) as [Er Ht2].
  destruct (updateRangeQueryInfo hasher base kv) as [r2 itr3], (updateRangeQueryInfo hasher _ kv) as [r2' itr3']; cbn in *.
  subst r2'. destruct r2 as [[]|e|e]; cbn; rewrite !list_insert_insert_eq; eexists; (split; [done|]);
    by apply (twin_set_itr s s').
Qed.

Lemma together_sim_GetStateMetadata ns key : together db db' sF (sim_GetStateMetadata ns key).
Proof.
  apply together_bind; [intros; grow|apply together_checkDone|]. intros []. apply together_get. intros s s' Ht.
  pose proof (tw_fields _ _ _ _ Ht) as [= -> _ _ _ _ _]. rewrite (tw_collect _ _ _ _ Ht). cbn [negb]. revert s s' Ht.
  apply (together_bind ('(_, metadata) ← getState ns key; mret metadata) (λ metadata, call (Deserialize metadata))).
  - intros md. grow.
  - apply together_bind; [intros []; grow|apply together_getState|]. intros []. apply together_ret.
  - intros md. apply together_call.
Qed.

Ltac go :=
  repeat match goal with
  | |- together _ _ _ (mret _) => apply together_ret
  | |- together _ _ _ (call _) => apply together_call
  | |- together _ _ _ (_ ≫= _) => apply together_bind; [intros; grow| |intros ?]
  | |- together _ _ _ (match ?x with _ => _ end) => destruct x
  end.

Lemma together_exec c : repeatable c → together db db' sF (exec hasher c).
Proof.
  destruct c; try done; intros _; cbn [exec].
  - unfold GetState. go. apply together_getState.
  - go. apply together_sim_GetStateMetadata.
  - go. apply together_open_itr.
  - go. apply together_resultsItr_Next.
  - unfold SetState. go; [apply together_checkWritePrecondition|apply (together_builder (OWrite _ _ _))|
      apply together_checkStateMetadata].
  - unfold SetStateMetadata. go; [apply together_checkWritePrecondition|apply (together_builder (OMetadata _ _ _))|
      apply together_checkStateMetadata].
Qed.

Lemma together_run p s s' :
  all_repeatable p → twin db db' s s' → later (snd (run_chaincode hasher p s)) sF →
  ∃ s1', run_chaincode hasher p s' = (fst (run_chaincode hasher p s), s1') ∧
    twin db db' (snd (run_chaincode hasher p s)) s1'.
Proof.
  revert s s'. induction p as [|c k IH]; intros s s'; cbn; [eauto|]. intros [Hc Hk] Ht.
  pose proof (together_exec c Hc s s' Ht) as Hstep. destruct (exec hasher c s) as [r s1]; cbn in *.
  assert (∀ r, later s1 (snd (run_chaincode hasher (k r) s1))) as Hrun by (intros; apply later_run, Hk).
  destruct r as [a|e|e]; cbn; intros Hl.
  - specialize (Hrun (Ok a)). destruct (run_chaincode hasher (k (Ok a)) s1) as [rs s2] eqn:E; cbn in *.
    destruct Hstep as (s1' & -> & Ht1); [by etrans|]. destruct (IH (Ok a) s1 s1' (Hk _) Ht1) as (s2' & E2 & Ht2); [by rewrite E|].
    rewrite E2, E in *. eauto.
  - specialize (Hrun (Err e)). destruct (run_chaincode hasher (k (Err e)) s1) as [rs s2] eqn:E; cbn in *.
    destruct Hstep as (s1' & -> & Ht1); [by etrans|]. destruct (IH (Err e) s1 s1' (Hk _) Ht1) as (s2' & E2 & Ht2); [by rewrite E|].
    rewrite E2, E in *. eauto.
  - destruct (Hstep Hl) as (s1' & -> & Ht1). eauto.
Qed.
End together.

(** The results depend on nothing else. *)
Lemma finish_twin db db' itr itr' : itr_twin db db' itr itr' → finish_itr hasher itr' = finish_itr hasher itr.
Proof. intros [_ _ Ei Eh _ _]. unfold finish_itr. by rewrite Ei, Eh. Qed.

Definition same_builder (s s' : Sim) : Prop :=
  (q_rwsetBuilder s', q_err s', q_privateReads s') = (q_rwsetBuilder s, q_err s, q_privateReads s).

Lemma range_twin db db' itrs itrs' s s' :
  Forall2 (itr_twin db db') itrs itrs' → same_builder s s' →
  ∃ s1', addRangeQueryInfo_loop hasher itrs' s' = (fst (addRangeQueryInfo_loop hasher itrs s), s1') ∧
    same_builder (snd (addRangeQueryInfo_loop hasher itrs s)) s1'.
Proof.
  intros Hall. revert s s'. induction Hall as [|itr itr' itrs itrs' Hi _ IH]; intros s s' Hs; cbn [addRangeQueryInfo_loop]; [by exists s'|].
  rewrite (finish_twin _ _ _ _ Hi), (it_ns _ _ _ _ Hi). destruct (finish_itr hasher itr) as [rqi|e|e].
  - apply IH. unfold same_builder in *. cbn. congruence.
  - eexists. split; [done|]. unfold same_builder in *. cbn. congruence.
  - by exists s'.
Qed.

Lemma twin_results db db' s s' r s1 :
  twin db db' s s' → GetTxSimulationResults hasher s = (Ok r, s1) →
  ∃ r' s1', GetTxSimulationResults hasher s' = (Ok r', s1') ∧ sim_Pub r' = sim_Pub r ∧ sim_Pvt r' = sim_Pvt r ∧
    sim_PrivateReads r' = sim_PrivateReads r.
Proof.
  intros Ht. pose proof (tw_flags _ _ _ _ Ht) as (_ & _ & _ & Ec). unfold GetTxSimulationResults. rewrite Ec.
  destruct (s_simulationResultsComputed s); [done|]. unfold results_body, addRangeQueryInfo, mbind, SimM_bind, get. cbn.
  pose proof (tw_fields _ _ _ _ Ht) as [= Eco Eb Ee _ _ Ep]. rewrite Ee. destruct (q_err s) eqn:Es; [done|].
  rewrite Eco, (tw_collect _ _ _ _ Ht). cbn. destruct (range_twin db db' (q_itrs s) (q_itrs s') s s' (tw_itrs _ _ _ _ Ht)) as (s2' & -> & Hs2);
    [unfold same_builder; congruence|].
  destruct (addRangeQueryInfo_loop hasher (q_itrs s) s) as [[[]|e|e] s2]; cbn in *; [|done..].
  injection Hs2 as Eb2 _ Ep2. rewrite Eb2. destruct (builder_GetTxSimulationResults (q_rwsetBuilder s2)) as [[r0|e|e] b]; cbn; [|done..].
  intros [= <- _]. do 2 eexists. split; [done|]. cbn. by rewrite Ep2.
Qed.

End repeat.

(** ** A concrete chaincode *)
Section witnesses.
#[local] Existing Instance mem_db.
#[local] Existing Instance mem_bk.
#[local] Existing Instance toy_hashing.
#[local] Existing Instance short_codec.

#[local] Instance toy_queries : QueryDB := {|
  vq_ExecuteQuery _ _ _ := Ok [];
  vq_ExecuteQueryWithPagination _ _ _ _ _ := Ok [];
  vq_GetStateRangeScanIteratorWithPagination db ns startKey endKey _ := vdb_GetStateRangeScanIterator db ns startKey endKey;
  vq_GetStateMultipleKeys _ _ keys := Ok (map (λ _, None) keys)
|}.
#[local] Instance toy_provider : CCInfoProvider := {| AllCollectionsConfigPkg _ s := (Ok (Some [Some "coll"]), s) |}.

Definition toy_hasher (b : bytes) : bytes := "h" +:+ b.

Lemma toy_provider_only_reads : provider_only_reads.
Proof. intros ns s. split; [done|]. by exists []. Qed.

Definition toy_vv (v : string) (n : Z) : VersionedValue := mkVersionedValue (Some v) None (Some (mkHeight 1 n)).
Definition toy_state_db (m : gmap string VersionedValue) : DB :=
  mkDB ({[ "cc" := m ]} : @vdb mem_db) (mkMetadataHint ∅ ([] : @bookkeeper mem_bk)).
Definition toy_db1 : DB := toy_state_db {[ "a" := toy_vv "1" 0; "b" := toy_vv "2" 1; "z" := toy_vv "9" 2 ]}.
Definition toy_db2 : DB := toy_state_db {[ "a" := toy_vv "1" 0; "b" := toy_vv "2" 1; "e" := toy_vv "5" 3 ]}.

Definition toy_chaincode : chaincode :=
  Call (CGetState "cc" "a") (λ _, Call (CRange "cc" "b" "d") (λ _, Call (CNext 0) (λ _, Call (CNext 0) (λ _,
  Call (CSetState "cc" "sum" (Some "3")) (λ _, Stop))))).

Definition toy_sim_run (db : DB) : list (outcome reply) * Sim := run_chaincode toy_hasher toy_chaincode (newTxSimulator db "t").

Lemma toy_answers m : answers (toy_state_db m).
Proof. split; intros; [by eexists|by eexists|]. exists None, None. split; reflexivity. Qed.

Lemma toy_reads_only_a ns key : read_in (q_rwsetBuilder (toy_sim_run toy_db1).2) ns key → ns = "cc" ∧ key = "a".
Proof.
  assert (q_rwsetBuilder (toy_sim_run toy_db1).2 = run_ops [ORead "cc" "a" (Some (mkHeight 1 0)); OWrite "cc" "sum" (Some "3")]) as ->
    by (vm_compute; reflexivity).
  intros (n & Hn & [r Hr]). cbn in Hn. rewrite insert_insert_eq in Hn. apply lookup_singleton_Some in Hn as [<- <-].
  split; [done|]. cbn in Hr. rewrite lookup_insert_eq in Hr. cbn in Hr. rewrite lookup_empty in Hr. cbn in Hr.
  by apply lookup_insert_Some in Hr as [[<- _]|[_ Hr]].
Qed.

Lemma toy_agrees : agrees toy_db1 toy_db2 (toy_sim_run toy_db1).2.
Proof.
  split.
  - intros ns key [-> ->]%toy_reads_only_a. reflexivity.
  - assert (q_itrs (toy_sim_run toy_db1).2 = [mkResultsItr "cc" "d" [] (mkRangeQueryInfo "b" "d" true NoReadsInfo)
      (Some (mkRangeQueryResultsHelper [NewKVRead "b" (Some (mkHeight 1 1))] (Some (mkMerkleTree ∅ 1 50)) 50 true))]) as ->
      by (vm_compute; reflexivity).
    intros itr it ->%list_elem_of_singleton. vm_compute (scan _ _). intros [= <-].
    exists [Ok (mkVersionedKV "cc" "b" (toy_vv "2" 1))], []. split_and!; vm_compute; reflexivity.
  - done.
Qed.

Definition toy_replies : list (outcome reply) :=
  [Ok (RValue (Some "1")); Ok (RItr 0); Ok (RResult (Some (mkVersionedKV "cc" "b" (toy_vv "2" 1)))); Ok (RResult None);
   Ok RUnit].

Lemma toy_replies_of : (toy_sim_run toy_db1).1 = toy_replies.
Proof. vm_compute. reflexivity. Qed.

Lemma toy_runs : run_chaincode toy_hasher toy_chaincode (newTxSimulator toy_db1 "t") = (toy_replies, (toy_sim_run toy_db1).2).
Proof. rewrite <-toy_replies_of. apply surjective_pairing. Qed.


Definition toy_paged : Sim := (exec toy_hasher (CRangePage "cc" "" "" 10) (newTxSimulator toy_db1 "t")).2.

Lemma toy_paged_ok : is_ok (GetTxSimulationResults toy_hasher toy_paged).1 = true.
Proof. vm_compute. reflexivity. Qed.

Lemma toy_paged_flag : s_paginatedQueriesPerformed toy_paged = true.
Proof. vm_compute. reflexivity. Qed.

Lemma toy_paged_calls : calls toy_hasher (newTxSimulator toy_db1 "t") toy_paged.
Proof. apply (calls_step _ (CRangePage "cc" "" "" 10)), calls_nil. Qed.


Lemma results_only_once_witness :
  GetTxSimulationResults toy_hasher (GetTxSimulationResults toy_hasher (newTxSimulator toy_db1 "t")).2 =
    (Err "this function should only be called once on a transaction simulator instance",
     (GetTxSimulationResults toy_hasher (newTxSimulator toy_db1 "t")).2).
Proof.
  apply (results_only_once toy_hasher (newTxSimulator toy_db1 "t")); [apply toy_provider_only_reads|apply calls_nil].
Defined.
End witnesses.
