(* ===== verification/SimulatedEndorsement.v ===== *)
(** * SimulatedEndorsement: the endorser on the ledger's simulator
      (core/endorser/endorser.go with core/ledger/kvledger/txmgmt/txmgr)

    The endorser asks its simulator for the results a second time, to find the
    keys a transaction depends on. A simulator that gives its results once, as
    the ledger's does, refuses the second call. *)

From S2P Require Import Prelude GoText Protos Proposal ProtoUtil Interest Shard Endorser EndorserSpec.
From S2P Require Import PvtState StateDb RwSetUtil RwSetBuilder TxSimulator.

(** ** Simulators that give their results once *)
Class OnceOnly `{Simulator} := {
  spent : simulator → Prop;
  once_spent s : spent (sim_GetTxSimulationResults s).2;
  done_spent s : spent s → spent (sim_Done s);
  spent_refused s r : spent s → (sim_GetTxSimulationResults s).1 ≠ Ok r
}.

Section once.
Context `{MapOrder} `{Codec} `{ProposalCodec} `{TxCodec} `{Support} `{!OnceOnly}.

Lemma distribute_spent channelID txID name s pvt w s' :
  spent s → distribute channelID txID name s pvt = (w, Ok s') → spent s'.
Proof.
  intros Hs. unfold distribute. case_bool_decide; [done|]. intros Hd. minv Hd. apply mret_Ok in Hd as [<- _].
  by apply done_spent.
Qed.

(** A simulation leaves a simulator that has given its results, if any. *)
Lemma simulated_spent up s : simulated up s → ∀ r, second_results (tp_TXSimulator (sn_params s)) ≠ Ok r.
Proof.
  intros (sim & w & _ & _ & Hs) r. unfold simulateProposal in Hs.
  destruct (callChaincode _ _ _) as [w1 [[[res ev] tp]|e|e]] eqn:Ec; [|done..]. cbn in Hs.
  destruct (tp_TXSimulator tp) as [s0|] eqn:Et.
  2:{ injection Hs as _ _ _ _ _ <-. by rewrite Et. }
  pose proof (once_spent s0) as Hsp. destruct (sim_GetTxSimulationResults s0) as [r0 s1]. cbn in Hsp.
  destruct (counted _ r0) as [w2 [sr|e|e]]; [|done..]. cbn in Hs.
  destruct (match sim_Pvt sr with None => _ | Some pvt => _ end) as [w3 [s2|e|e]] eqn:Ed; [|done..].
  assert (spent s2) as Hs2.
  { destruct (sim_Pvt sr); [by eapply distribute_spent|]. by injection Ed as _ <-. }
  cbn in Hs. destruct (buildChaincodeInterest _ _ _) as [ci|e|e]; [|done..]. cbn in Hs.
  destruct (marshal_pub _) as [pb|e|e]; [|done..]. injection Hs as _ _ _ _ _ <-. cbn.
  by apply spent_refused, done_spent.
Qed.

Lemma once_run shards now up w o :
  ProcessProposalSuccessfullyOrError shards now up = (w, o) →
  shard_effects w = [] ∧
  match o with
  | Ok r => er_Payload r = None ∧ er_Endorsement r = None ∧ (shim_ERROR ≤ resp_Status (er_Response r))%Z
  | _ => True
  end.
Proof.
  intros [[Hq Hno]|(s & Hs & [(Hst & Hq & ->)|(_ & results & _ & _ & Hr & _)])]%run_cases.
  - split; [done|]. destruct o; [by destruct (Hno a)|done..].
  - done.
  - by destruct (simulated_spent _ _ Hs results).
Qed.
End once.

(** ** The ledger's simulator *)
Section ledger.
Context `{VersionedDB} `{Bookkeeper} `{Hashing} `{RwsetCodec} `{!QueryDB} `{!CCInfoProvider}.
Context (hasher : bytes → bytes).

#[local] Instance ledger_simulator : Simulator := {|
  simulator := Sim;
  sim_GetTxSimulationResults := GetTxSimulationResults hasher;
  sim_Done := Done
|}.

#[local] Instance ledger_once : OnceOnly.
Proof.
  refine {| spent (s : @simulator ledger_simulator) := s_simulationResultsComputed s = true |}.
  - intros s. apply results_compute.
  - intros s Hs. cbn. unfold Done. by destruct (q_doneInvoked s).
  - intros s r Hs. cbn. unfold GetTxSimulationResults. by rewrite Hs.
Qed.

(** C14: on the ledger's simulator no proposal is endorsed: the endorser fails
    or passes on the chaincode's error, without asking a shard, whatever the
    chaincode, the shards, the plugin and the proposal. *)
Theorem ledger_simulator_never_endorses
    `{MapOrder} `{Codec} `{ProposalCodec} `{TxCodec} `{!Support} shards now up :
  let run := ProcessProposalSuccessfullyOrError shards now up in
  shard_effects run.1 = [] ∧
  match run.2 with
  | Ok r => er_Payload r = None ∧ er_Endorsement r = None ∧ (shim_ERROR ≤ resp_Status (er_Response r))%Z
  | _ => True
  end.
Proof. cbn zeta. by apply (once_run shards now up), surjective_pairing. Qed.
End ledger.
