(* ===== verification/MsgValidation.v ===== *)
(** * MsgValidation: is a transaction's envelope properly formed
      (core/common/validation/msgvalidation.go)

    The checks of a transaction that need no state: its headers, the creator's
    signature, the transaction id, and that the endorsed response belongs to
    the proposal in the transaction. Identities are the class [Membership]. *)

From S2P Require Import Prelude GoText Utf8 Base64 Protos Proposal ProtoUtil.

(** [mspmgmt.GetIdentityDeserializer], with [DeserializeIdentity]. *)
Class Membership := {
  GetIdentityDeserializer : string → option (bytes → outcome Identity)
}.

Definition TxValidationCode_NIL_ENVELOPE : Z := 1.
Definition TxValidationCode_BAD_PAYLOAD : Z := 2.
Definition TxValidationCode_BAD_COMMON_HEADER : Z := 3.
Definition TxValidationCode_BAD_CREATOR_SIGNATURE : Z := 4.
Definition TxValidationCode_INVALID_ENDORSER_TRANSACTION : Z := 5.
Definition TxValidationCode_INVALID_CONFIG_TRANSACTION : Z := 6.
Definition TxValidationCode_UNSUPPORTED_TX_PAYLOAD : Z := 7.
Definition TxValidationCode_BAD_PROPOSAL_TXID : Z := 8.
Definition TxValidationCode_DUPLICATE_TXID : Z := 9.

Section validation.
Context `{Codec} `{ProposalCodec} `{TxCodec} `{Membership}.

(** A bytes field that is absent is empty. *)
Definition checkSignatureFromCreator (creatorBytes sig msg : bytes) (ChannelID : string) : outcome unit :=
  if bool_decide (creatorBytes = "") || bool_decide (sig = "") || bool_decide (msg = "") then Err "nil arguments"
  else
    mspObj ← from_option_err ("could not get msp for channel [" +:+ ChannelID +:+ "]") (GetIdentityDeserializer ChannelID);
    creator ← with_message "MSP error" (mspObj creatorBytes);
    _ ← with_message "creator certificate is not valid" (id_Validate creator);
    with_message "creator's signature over the proposal is not valid" (id_Verify creator msg sig).

Definition validateSignatureHeader (sHdr : SignatureHeader) : outcome unit :=
  if bool_decide (sh_Nonce sHdr = "") then Err "invalid nonce specified in the header"
  else if bool_decide (sh_Creator sHdr = "") then Err "invalid creator specified in the header"
  else Ok ().

Definition validateChannelHeader (cHdr : ChannelHeader) : outcome unit :=
  if negb (bool_decide (chdr_Type cHdr = HeaderType_ENDORSER_TRANSACTION) ||
           bool_decide (chdr_Type cHdr = HeaderType_CONFIG_UPDATE) ||
           bool_decide (chdr_Type cHdr = HeaderType_CONFIG)) then Err "invalid header type"
  else if negb (bool_decide (chdr_Epoch cHdr = 0%Z)) then Err "invalid Epoch in ChannelHeader"
  else Ok ().

Definition validateCommonHeader (hdr : option Header) : outcome (ChannelHeader * SignatureHeader) :=
  hdr ← from_option_err "nil header" hdr;
  chdr ← decoded "ChannelHeader" (unmarshal_ChannelHeader (hdr_ChannelHeader hdr));
  shdr ← decoded "SignatureHeader" (unmarshal_SignatureHeader (hdr_SignatureHeader hdr));
  _ ← validateChannelHeader chdr;
  _ ← validateSignatureHeader shdr;
  Ok (chdr, shdr).

Definition validateConfigTransaction (data : bytes) (hdr : option Header) : outcome unit :=
  if bool_decide (data = "") || negb (bool_decide (is_Some hdr)) then Err "nil arguments" else Ok ().

(** The response signed by the endorsers is about this proposal. An action
    payload without an action is a nil pointer. *)
Definition check_action (hdr : Header) (act : TransactionAction) : outcome unit :=
  sHdr ← decoded "SignatureHeader" (unmarshal_SignatureHeader (action_Header act));
  _ ← validateSignatureHeader sHdr;
  ccActionPayload ← decoded "ChaincodeActionPayload" (unmarshal_ChaincodeActionPayload (action_Payload act));
  action ← deref (cap_Action ccActionPayload);
  prp ← decoded "ProposalResponsePayload"
    (unmarshal_ProposalResponsePayload (default "" (cea_ProposalResponsePayload action)));
  let hdrOrig := mkHeader (hdr_ChannelHeader hdr) (action_Header act) in
  pHash ← GetProposalHash2 hdrOrig (cap_ChaincodeProposalPayload ccActionPayload);
  if negb (bool_decide (pHash = prp_ProposalHash prp)) then Err "proposal hash does not match" else Ok ().

Definition validateEndorserTransaction (data : bytes) (hdr : option Header) : outcome unit :=
  match hdr with
  | None => Err "nil arguments"
  | Some hdr =>
      if bool_decide (data = "") then Err "nil arguments"
      else
        tx ← decoded "Transaction" (unmarshal_Transaction data);
        if negb (length (tx_Actions tx) =? 1)%nat
        then Err ("only one action per transaction is supported, tx contains "
                  +:+ format_int (Z.of_nat (length (tx_Actions tx))))
        else foldM (λ _ act, check_action hdr act) () (tx_Actions tx)
  end.

(** The payload, when there is one, and the validation code. *)
Definition ValidateTransaction (e : option Envelope) : outcome (option Payload * Z) :=
  match e with
  | None => Ok (None, TxValidationCode_NIL_ENVELOPE)
  | Some e =>
      match unmarshal_Payload (env_Payload e) with
      | None => Ok (None, TxValidationCode_BAD_PAYLOAD)
      | Some payload =>
          match validateCommonHeader (payload_Header payload) with
          | Panic p => Panic p
          | Err _ => Ok (None, TxValidationCode_BAD_COMMON_HEADER)
          | Ok (chdr, shdr) =>
              match checkSignatureFromCreator (sh_Creator shdr) (env_Signature e) (env_Payload e) (chdr_ChannelId chdr) with
              | Panic p => Panic p
              | Err _ => Ok (None, TxValidationCode_BAD_CREATOR_SIGNATURE)
              | Ok _ =>
                  if bool_decide (chdr_Type chdr = HeaderType_ENDORSER_TRANSACTION) then
                    match CheckTxID (chdr_TxId chdr) (sh_Nonce shdr) (sh_Creator shdr) with
                    | Ok _ =>
                        match validateEndorserTransaction (payload_Data payload) (payload_Header payload) with
                        | Ok _ => Ok (Some payload, TxValidationCode_VALID)
                        | Err _ => Ok (Some payload, TxValidationCode_INVALID_ENDORSER_TRANSACTION)
                        | Panic p => Panic p
                        end
                    | Err _ => Ok (None, TxValidationCode_BAD_PROPOSAL_TXID)
                    | Panic p => Panic p
                    end
                  else if bool_decide (chdr_Type chdr = HeaderType_CONFIG) then
                    match validateConfigTransaction (payload_Data payload) (payload_Header payload) with
                    | Ok _ => Ok (Some payload, TxValidationCode_VALID)
                    | Err _ => Ok (Some payload, TxValidationCode_INVALID_CONFIG_TRANSACTION)
                    | Panic p => Panic p
                    end
                  else Ok (None, TxValidationCode_UNSUPPORTED_TX_PAYLOAD)
              end
          end
      end
  end.
End validation.

(** ** What a valid transaction is *)
Section spec.
Context `{Codec} `{ProposalCodec} `{TxCodec}.

(** The transaction's one action carries the response to this very proposal. *)
Definition answers_proposal (hdr : Header) (data : bytes) : Prop :=
  data ≠ "" ∧
  ∃ act shdr cap cea prp,
    unmarshal_Transaction data = Some (mkTransaction [act]) ∧
    unmarshal_SignatureHeader (action_Header act) = Some shdr ∧ sh_Nonce shdr ≠ "" ∧ sh_Creator shdr ≠ "" ∧
    unmarshal_ChaincodeActionPayload (action_Payload act) = Some cap ∧ cap_Action cap = Some cea ∧
    unmarshal_ProposalResponsePayload (default "" (cea_ProposalResponsePayload cea)) = Some prp ∧
    hdr_ChannelHeader hdr ≠ "" ∧ action_Header act ≠ "" ∧ cap_ChaincodeProposalPayload cap ≠ "" ∧
    prp_ProposalHash prp =
      sha256 (hdr_ChannelHeader hdr +:+ action_Header act +:+ cap_ChaincodeProposalPayload cap).

Lemma validateSignatureHeader_Ok shdr :
  validateSignatureHeader shdr = Ok () ↔ sh_Nonce shdr ≠ "" ∧ sh_Creator shdr ≠ "".
Proof. unfold validateSignatureHeader. repeat case_bool_decide; naive_solver. Qed.

Lemma validateCommonHeader_Ok hdr chdr shdr :
  validateCommonHeader hdr = Ok (chdr, shdr) ↔
  ∃ h, hdr = Some h ∧ unmarshal_ChannelHeader (hdr_ChannelHeader h) = Some chdr ∧
    unmarshal_SignatureHeader (hdr_SignatureHeader h) = Some shdr ∧
    chdr_Epoch chdr = 0%Z ∧ sh_Nonce shdr ≠ "" ∧ sh_Creator shdr ≠ "" ∧
    (chdr_Type chdr = HeaderType_ENDORSER_TRANSACTION ∨ chdr_Type chdr = HeaderType_CONFIG_UPDATE ∨
     chdr_Type chdr = HeaderType_CONFIG).
Proof.
  unfold validateCommonHeader, decoded. destruct hdr as [h|]; cbn; [|naive_solver].
  destruct (unmarshal_ChannelHeader _) as [c|] eqn:Ec; cbn; [|naive_solver].
  destruct (unmarshal_SignatureHeader _) as [s|] eqn:Es; cbn; [|naive_solver].
  unfold validateChannelHeader, validateSignatureHeader. repeat case_bool_decide; naive_solver.
Qed.

Lemma GetProposalHash2_Ok h pp x :
  GetProposalHash2 h pp = Ok x ↔ hdr_ChannelHeader h ≠ "" ∧ hdr_SignatureHeader h ≠ "" ∧ pp ≠ "" ∧
    x = sha256 (hdr_ChannelHeader h +:+ hdr_SignatureHeader h +:+ pp).
Proof.
  unfold GetProposalHash2, has_parts. repeat case_bool_decide; cbn; split; try done; try (by intros (? & ? & ? & _)).
  - by intros [= <-].
  - by intros (_ & _ & _ & ->).
Qed.

Lemma check_action_Ok hdr act :
  check_action hdr act = Ok () ↔
  ∃ shdr cap cea prp,
    unmarshal_SignatureHeader (action_Header act) = Some shdr ∧ sh_Nonce shdr ≠ "" ∧ sh_Creator shdr ≠ "" ∧
    unmarshal_ChaincodeActionPayload (action_Payload act) = Some cap ∧ cap_Action cap = Some cea ∧
    unmarshal_ProposalResponsePayload (default "" (cea_ProposalResponsePayload cea)) = Some prp ∧
    hdr_ChannelHeader hdr ≠ "" ∧ action_Header act ≠ "" ∧ cap_ChaincodeProposalPayload cap ≠ "" ∧
    prp_ProposalHash prp =
      sha256 (hdr_ChannelHeader hdr +:+ action_Header act +:+ cap_ChaincodeProposalPayload cap).
Proof.
  unfold check_action, decoded. destruct (unmarshal_SignatureHeader _) as [s|] eqn:Eh; cbn; [|naive_solver].
  destruct (validateSignatureHeader s) as [[]| |] eqn:Es; cbn; [|split; [done|]|split; [done|]].
  2,3: intros (? & ? & ? & ? & [= <-] & Hn & Hc & _); by rewrite (proj2 (validateSignatureHeader_Ok s)) in Es.
  apply validateSignatureHeader_Ok in Es.
  destruct (unmarshal_ChaincodeActionPayload _) as [cap|] eqn:Ec; cbn; [|naive_solver].
  destruct (cap_Action cap) as [cea|] eqn:Ea; cbn; [|naive_solver].
  destruct (unmarshal_ProposalResponsePayload _) as [prp|] eqn:Ep; cbn; [|naive_solver].
  split.
  - intros E. apply bind_Ok in E as (h & (Hp & Hs & Hc & ->)%GetProposalHash2_Ok & E).
    case_bool_decide; [|done]. destruct Es. by exists s, cap, cea, prp.
  - intros (? & ? & ? & ? & [= <-] & _ & _ & [= <-] & Ea' & Ep' & Hp & Hs & Hc & Hh).
    rewrite Ea in Ea'. injection Ea' as <-. rewrite Ep in Ep'. injection Ep' as <-.
    erewrite (proj2 (GetProposalHash2_Ok _ _ _)) by done. cbn. by rewrite bool_decide_eq_true_2.
Qed.

Lemma validateEndorserTransaction_Ok data hdr :
  validateEndorserTransaction data (Some hdr) = Ok () ↔ answers_proposal hdr data.
Proof.
  unfold validateEndorserTransaction, answers_proposal, decoded. case_bool_decide; [naive_solver|].
  destruct (unmarshal_Transaction data) as [[acts]|] eqn:Et; cbn; [|naive_solver].
  destruct acts as [|act [|a2 acts]]; cbn [length Nat.eqb negb]; [naive_solver| |naive_solver].
  cbn [foldM]. destruct (check_action hdr act) as [[]| |] eqn:E.
  - split; [|done]. intros _. apply check_action_Ok in E. naive_solver.
  - split; [done|]. intros (_ & act' & s & cap & cea & prp & [= <-] & Hr).
    rewrite (proj2 (check_action_Ok hdr act)) in E; [done|]. by exists s, cap, cea, prp.
  - split; [done|]. intros (_ & act' & s & cap & cea & prp & [= <-] & Hr).
    rewrite (proj2 (check_action_Ok hdr act)) in E; [done|]. by exists s, cap, cea, prp.
Qed.
End spec.

Section valid_transactions.
Context `{Codec} `{ProposalCodec} `{TxCodec} `{Membership}.

(** The creator exists on the channel, is valid and signed the payload. *)
Definition signed_by_creator (e : Envelope) (chdr : ChannelHeader) (shdr : SignatureHeader) : Prop :=
  env_Signature e ≠ "" ∧ env_Payload e ≠ "" ∧
  ∃ mspObj creator, GetIdentityDeserializer (chdr_ChannelId chdr) = Some mspObj ∧
    mspObj (sh_Creator shdr) = Ok creator ∧ id_Validate creator = Ok () ∧
    id_Verify creator (env_Payload e) (env_Signature e) = Ok ().

Definition well_formed_tx (e : Envelope) (payload : Payload) : Prop :=
  ∃ hdr chdr shdr,
    unmarshal_Payload (env_Payload e) = Some payload ∧ payload_Header payload = Some hdr ∧
    unmarshal_ChannelHeader (hdr_ChannelHeader hdr) = Some chdr ∧
    unmarshal_SignatureHeader (hdr_SignatureHeader hdr) = Some shdr ∧
    chdr_Epoch chdr = 0%Z ∧ sh_Nonce shdr ≠ "" ∧ sh_Creator shdr ≠ "" ∧ signed_by_creator e chdr shdr ∧
    ((chdr_Type chdr = HeaderType_ENDORSER_TRANSACTION ∧
      chdr_TxId chdr = ComputeTxID (sh_Nonce shdr) (sh_Creator shdr) ∧ answers_proposal hdr (payload_Data payload)) ∨
     (chdr_Type chdr = HeaderType_CONFIG ∧ payload_Data payload ≠ "")).

Lemma checkSignature_Ok e chdr shdr :
  sh_Creator shdr ≠ "" →
  checkSignatureFromCreator (sh_Creator shdr) (env_Signature e) (env_Payload e) (chdr_ChannelId chdr) = Ok () ↔
  signed_by_creator e chdr shdr.
Proof.
  intros Hc. unfold checkSignatureFromCreator, signed_by_creator.
  rewrite (bool_decide_eq_false_2 (sh_Creator shdr = "")) by done.
  case_bool_decide; [by split; [|intros (? & _)]|]. case_bool_decide; [by split; [|intros (_ & ? & _)]|]. cbn [orb].
  assert (∀ P : Prop, P ↔ env_Signature e ≠ "" ∧ env_Payload e ≠ "" ∧ P) as <- by (intros; tauto).
  split.
  - intros E. ok_inv.
    match goal with u : () |- _ => destruct u end. eexists _, _. by split_and!.
  - intros (m & c & -> & Hm & Hv & Hy). cbn. rewrite Hm. cbn. rewrite Hv. cbn. by rewrite Hy.
Qed.


Lemma ValidateTransaction_sound e payload :
  ValidateTransaction (Some e) = Ok (Some payload, TxValidationCode_VALID) → well_formed_tx e payload.
Proof.
  cbn. destruct (unmarshal_Payload (env_Payload e)) as [p|] eqn:Ep; [|done].
  destruct (validateCommonHeader (payload_Header p)) as [[chdr shdr]| |] eqn:Eh; [|done..].
  apply validateCommonHeader_Ok in Eh as (hdr & Eh & Hc & Hs & Hep & Hn & Hcr & _).
  destruct (checkSignatureFromCreator _ _ _ _) as [[]| |] eqn:Es; [|done..]. apply checkSignature_Ok in Es; [|done].
  case_bool_decide as Ht; [|case_bool_decide as Ht'; [|done]].
  - unfold CheckTxID. case_bool_decide as Hid; [|done]. rewrite Eh.
    destruct (validateEndorserTransaction _ _) as [[]| |] eqn:Ev; [|done..]. intros [= <-].
    apply validateEndorserTransaction_Ok in Ev. exists hdr, chdr, shdr. split_and!; try done. left. by split_and!.
  - unfold validateConfigTransaction. rewrite Eh, (bool_decide_eq_true_2 (is_Some (Some hdr))), orb_false_r by done.
    case_bool_decide; [done|]. intros [= <-]. exists hdr, chdr, shdr. split_and!; try done. right. by split_and!.
Qed.

Lemma ValidateTransaction_complete e payload :
  well_formed_tx e payload → ValidateTransaction (Some e) = Ok (Some payload, TxValidationCode_VALID).
Proof.
  intros (hdr & chdr & shdr & Ep & Eh & Hc & Hs & Hep & Hn & Hcr & Hsig & Hty). cbn. rewrite Ep.
  rewrite (proj2 (validateCommonHeader_Ok (payload_Header payload) chdr shdr)) by (exists hdr; split_and!; tauto).
  rewrite (proj2 (checkSignature_Ok e chdr shdr Hcr) Hsig).
  destruct Hty as [(Ht & Hid & Hans)|(Ht & Hd)].
  - rewrite bool_decide_eq_true_2 by done. unfold CheckTxID. rewrite bool_decide_eq_true_2 by done.
    rewrite Eh, (proj2 (validateEndorserTransaction_Ok _ _) Hans). done.
  - rewrite bool_decide_eq_false_2 by (by rewrite Ht). rewrite bool_decide_eq_true_2 by done.
    unfold validateConfigTransaction. by rewrite Eh, (bool_decide_eq_true_2 (is_Some (Some hdr))), bool_decide_eq_false_2.
Qed.

(** C34: A transaction's envelope passes exactly when its headers are complete, its
    creator signed it, and, for an endorser transaction, its id is the hash of
    nonce and creator and the endorsed response carries the hash of this
    proposal. *)
Theorem ValidateTransaction_valid_iff (e : Envelope) (payload : Payload) :
  ValidateTransaction (Some e) = Ok (Some payload, TxValidationCode_VALID) ↔ well_formed_tx e payload.
Proof. split; [apply ValidateTransaction_sound|apply ValidateTransaction_complete]. Qed.
End valid_transactions.

(** ** From proposal to valid transaction *)

(** An empty encoding decodes to the empty message, and both decoders of
    channel headers are the same function. *)
Record empty_laws `{Codec} `{ProposalCodec} : Prop := {
  law_same_header b : unmarshal_PChannelHeader b = unmarshal_ChannelHeader b;
  law_empty_Payload : unmarshal_Payload "" = Some (mkPayload None "");
  law_empty_Transaction : unmarshal_Transaction "" = Some (mkTransaction []);
  law_empty_ChannelHeader : unmarshal_ChannelHeader "" = Some (mkChannelHeader 0 "" "" 0 "" 0 None None);
  law_empty_SignatureHeader : unmarshal_SignatureHeader "" = Some (mkSignatureHeader "" "");
  law_empty_ProposalPayload : unmarshal_ChaincodeProposalPayload "" = Some (mkChaincodeProposalPayload "" ∅);
  law_empty_InvocationSpec : unmarshal_ChaincodeInvocationSpec "" = Some (mkChaincodeInvocationSpec None)
}.

Section endorsed.
Context `{Codec} `{ProposalCodec} `{TxCodec} `{Membership}.

(** The parts of a proposal the endorser unpacked and accepted. *)
Lemma accepted_proposal sp up deserialize :
  UnpackProposal sp = Ok up → Validate deserialize up = Ok () →
  ∃ hdr chdr shdr cpp pp cis spec,
    unmarshal_Header (prop_Header (up_Proposal up)) = Some hdr ∧
    unmarshal_PChannelHeader (hdr_ChannelHeader hdr) = Some chdr ∧
    unmarshal_SignatureHeader (hdr_SignatureHeader hdr) = Some shdr ∧
    unmarshal_ChaincodeProposalPayload (prop_Payload (up_Proposal up)) = Some cpp ∧
    unmarshal_ChaincodeInvocationSpec (cpp_Input cpp) = Some cis ∧ cis_ChaincodeSpec cis = Some spec ∧
    marshal_ChaincodeProposalPayload (mkChaincodeProposalPayload (cpp_Input cpp) ∅) = Ok pp ∧
    up_ProposalHash up = sha256 (hdr_ChannelHeader hdr +:+ hdr_SignatureHeader hdr +:+ pp) ∧
    up_ChannelHeader up = chdr ∧ up_SignatureHeader up = shdr ∧
    chdr_Epoch chdr = 0%Z ∧ sh_Nonce shdr ≠ "" ∧ sh_Creator shdr ≠ "" ∧
    chdr_TxId chdr = ComputeTxID (sh_Nonce shdr) (sh_Creator shdr).
Proof.
  unfold UnpackProposal. intros E Hv. ok_inv. case_bool_decide; [done|]. ok_inv. case_match; [|done..].
  injection E as <-. unfold Validate in Hv. cbn [up_ChannelHeader up_SignatureHeader up_TxID] in Hv.
  repeat case_bool_decide; cbn in Hv; try done; do 7 eexists; split_and!; try done; cbn; done.
Qed.

(** The encodings inside a transaction made of an accepted proposal are not
    empty. *)
Lemma nonempty_parts (L : tx_codec_laws) (L0 : empty_laws) hdr chdr shdr i pp cis spec payload p act t :
  unmarshal_PChannelHeader (hdr_ChannelHeader hdr) = Some chdr → chdr_Type chdr = HeaderType_ENDORSER_TRANSACTION →
  unmarshal_SignatureHeader (hdr_SignatureHeader hdr) = Some shdr → sh_Nonce shdr ≠ "" →
  marshal_ChaincodeProposalPayload (mkChaincodeProposalPayload i ∅) = Ok pp →
  unmarshal_ChaincodeInvocationSpec i = Some cis → cis_ChaincodeSpec cis = Some spec →
  unmarshal_Payload payload = Some p → payload_Header p = Some hdr →
  unmarshal_Transaction t = Some (mkTransaction [act]) →
  hdr_ChannelHeader hdr ≠ "" ∧ hdr_SignatureHeader hdr ≠ "" ∧ pp ≠ "" ∧ payload ≠ "" ∧ t ≠ "".
Proof.
  intros Hc Ht Hs Hn Hpp Hi Hsp Hp Hh Htx. apply (law_ProposalPayload L) in Hpp.
  split_and!; intros E; rewrite E in *.
  - rewrite (law_same_header L0), (law_empty_ChannelHeader L0) in Hc. by injection Hc as <-.
  - rewrite (law_empty_SignatureHeader L0) in Hs. by injection Hs as <-.
  - rewrite (law_empty_ProposalPayload L0) in Hpp. injection Hpp as <-.
    rewrite (law_empty_InvocationSpec L0) in Hi. by injection Hi as <-.
  - rewrite (law_empty_Payload L0) in Hp. by injection Hp as <-.
  - by rewrite (law_empty_Transaction L0) in Htx.
Qed.

(** C22: A transaction made of responses to a proposal the endorser accepted passes
    the committer's checks, whatever transient data the proposal carried: both
    sides hash the same bytes and compute the same transaction id. *)
Theorem endorsed_tx_validates (sp : SignedProposal) (up : UnpackedProposal) (deserialize : bytes → option Identity)
    (signer : Signer) (r0 : PeerResponse) (rest : list PeerResponse) (env : Envelope)
    (res : Response) (result event : option bytes) (ccid : ChaincodeID) (prp : bytes)
    (mspObj : bytes → outcome Identity) (creator : Identity) :
  tx_codec_laws → empty_laws →
  UnpackProposal sp = Ok up → Validate deserialize up = Ok () →
  chdr_Type (up_ChannelHeader up) = HeaderType_ENDORSER_TRANSACTION →
  GetBytesProposalResponsePayload (up_ProposalHash up) res result event ccid = Ok prp → rsp_Payload r0 = Some prp →
  CreateSignedTx (Some (up_Proposal up)) (Some signer) (r0 :: rest) = Ok env →
  GetIdentityDeserializer (up_ChannelID up) = Some mspObj →
  mspObj (sh_Creator (up_SignatureHeader up)) = Ok creator → id_Validate creator = Ok () →
  (∀ m s, Sign signer m = Ok s → s ≠ "" ∧ id_Verify creator m s = Ok ()) →
  ∃ payload, ValidateTransaction (Some env) = Ok (Some payload, TxValidationCode_VALID).
Proof.
  intros L L0 Hup Hv Hty Hprp Hr0 E Hm Hid Hval Hsign.
  apply (accepted_proposal sp up deserialize) in Hup as (hdr & chdr & shdr & cpp & pp & cis & spec & Hhd & Hch & Hsh
    & Hcpp & Hcis & Hspec & Hpp & Hhash & Ech & Esh & Hep & Hn & Hcr & Htxid); [|done].
  rewrite Esh in Hid. unfold up_ChannelID in Hm. rewrite Ech in Hm, Hty.
  apply CreateSignedTx_inv in E as (p' & sg & r0' & rest' & hdr' & shdr' & cpp' & pp' & capBytes & txBytes & [= <-] & [= <-]
    & [= <- <-] & Hhd' & Hcpp' & _ & _ & _ & _ & Hpp' & Hcap & Htx & Hpayl & Hsig).
  rewrite Hhd in Hhd'. injection Hhd' as <-. rewrite Hcpp in Hcpp'. injection Hcpp' as <-.
  apply with_message_Ok in Hpp'. rewrite Hpp in Hpp'. injection Hpp' as <-.
  unfold GetBytesProposalResponsePayload in Hprp. ok_inv.
  match goal with Ha : marshal_ChaincodeAction _ = Ok ?act |- _ =>
    assert (act ≠ "") as Hact0 by (by eapply (law_action_not_empty L)) end.
  assert (prp ≠ "") as Hprp0 by (by eapply (law_payload_not_empty L)).
  apply (law_ResponsePayload L) in Hprp. apply (law_ActionPayload L) in Hcap.
  apply (law_Transaction L) in Htx. apply (law_Payload L) in Hpayl.
  cbn -[unset] in Hcap. rewrite Hr0, unset_nonempty in Hcap by done.
  destruct (nonempty_parts L L0 hdr chdr shdr _ pp cis spec _ _ _ _ Hch Hty Hsh Hn Hpp Hcis Hspec Hpayl eq_refl Htx)
    as (Hc0 & Hs0 & Hp0 & Hy0 & Ht0).
  destruct (Hsign _ _ Hsig) as [Hs1 Hver].
  eexists. apply ValidateTransaction_complete. exists hdr, chdr, shdr.
  split_and!; try done; [by rewrite <- (law_same_header L0)|split_and!; try done; by exists mspObj, creator|].
  left. split_and!; try done. split; [done|]. do 5 eexists. split_and!; try done; cbn; done.
Qed.
End endorsed.

(** A creator the channel knows can crash every peer that validates the block:
    an action payload without an action is followed as a nil pointer. *)
Theorem missing_action_panics `{Codec} `{ProposalCodec} `{TxCodec} `{Membership} (e : Envelope) (payload : Payload)
    (hdr : Header) (chdr : ChannelHeader) (shdr ashdr : SignatureHeader) (act : TransactionAction)
    (cap : ChaincodeActionPayload) :
  unmarshal_Payload (env_Payload e) = Some payload → payload_Header payload = Some hdr →
  validateCommonHeader (Some hdr) = Ok (chdr, shdr) → signed_by_creator e chdr shdr →
  chdr_Type chdr = HeaderType_ENDORSER_TRANSACTION → chdr_TxId chdr = ComputeTxID (sh_Nonce shdr) (sh_Creator shdr) →
  payload_Data payload ≠ "" → unmarshal_Transaction (payload_Data payload) = Some (mkTransaction [act]) →
  unmarshal_SignatureHeader (action_Header act) = Some ashdr → sh_Nonce ashdr ≠ "" → sh_Creator ashdr ≠ "" →
  unmarshal_ChaincodeActionPayload (action_Payload act) = Some cap → cap_Action cap = None →
  is_panic (ValidateTransaction (Some e)) = true.
Proof.
  intros Ep Eh Ec Es Ht Hid Hd Htx Ha Hn Hcr Hcap Hnone. cbn. rewrite Ep, Eh, Ec.
  apply validateCommonHeader_Ok in Ec as (? & _ & _ & _ & _ & _ & Hcr' & _).
  rewrite (proj2 (checkSignature_Ok e chdr shdr Hcr') Es), bool_decide_eq_true_2 by done.
  unfold CheckTxID. rewrite bool_decide_eq_true_2 by done.
  unfold validateEndorserTransaction. rewrite bool_decide_eq_false_2 by done. unfold decoded at 1. rewrite Htx. cbn.
  unfold check_action, decoded. rewrite Ha. cbn. rewrite (proj2 (validateSignatureHeader_Ok ashdr)) by done. cbn.
  rewrite Hcap. cbn. by rewrite Hnone.
Qed.

(** ** A concrete exchange *)
Definition dec0 {A} (b : bytes) (m zero : A) (s : bytes) : option A :=
  if decide (s = b) then Some m else if decide (s = "") then Some zero else None.

Definition ex_prp : ProposalResponsePayload := mkProposalResponsePayload "csp" (Some "a").
Definition no_header : ChannelHeader := mkChannelHeader 0 "" "" 0 "" 0 None None.

(** Two transactions: ["Y"] was made of endorsed responses, ["Z"] has no action. *)
#[local] Instance ex_codec : Codec := {|
  unmarshal_Envelope s := if decide (s = "E") then Some (mkEnvelope "Y" "sig:Y")
                          else if decide (s = "F") then Some (mkEnvelope "Y" "forged") else None;
  unmarshal_Payload s := if decide (s = "Z") then Some (mkPayload (Some toy_hdr) "N")
                         else dec0 "Y" (mkPayload (Some toy_hdr) "T") (mkPayload None "") s;
  unmarshal_ChannelHeader := dec0 "c" toy_chdr no_header;
  unmarshal_Transaction s := if decide (s = "N") then Some (mkTransaction [mkTransactionAction "s" "M"])
                             else dec0 "T" toy_ptx (mkTransaction []) s;
  unmarshal_ChaincodeAction := dec0 "a" toy_action (mkChaincodeAction None "" None None);
  unmarshal_TxReadWriteSet _ := Some (mkTxReadWriteSet []);
  unmarshal_KVRWSet _ := None;
  unmarshal_HashedRWSet _ := None
|}.
#[local] Instance ex_proposal_codec : ProposalCodec := {|
  unmarshal_Proposal := dec1 "P" (mkProposalMsg "h" "p");
  unmarshal_Header := dec0 "h" toy_hdr (mkHeader "" "");
  unmarshal_PChannelHeader := dec0 "c" toy_chdr no_header;
  unmarshal_SignatureHeader := dec0 "s" toy_shdr (mkSignatureHeader "" "");
  unmarshal_ChaincodeHeaderExtension := dec0 "e" (mkChaincodeHeaderExtension (Some toy_id)) (mkChaincodeHeaderExtension None);
  unmarshal_ChaincodeProposalPayload := dec0 "p" (mkChaincodeProposalPayload "i" ∅) (mkChaincodeProposalPayload "" ∅);
  unmarshal_ChaincodeInvocationSpec := dec0 "i" toy_cis (mkChaincodeInvocationSpec None);
  marshal_ChaincodeProposalPayload := @marshal_ChaincodeProposalPayload toy_proposal_codec;
  sha256 b := b;
  hex_encode b := b
|}.
#[local] Instance ex_tx_codec : TxCodec := {|
  marshal_ChaincodeAction := @marshal_ChaincodeAction toy_tx_codec;
  marshal_ProposalResponsePayload p :=
    if bool_decide (prp_ProposalHash p = "csp" ∧ prp_Extension p = Some "a") then Ok "R" else Err "unknown message";
  unmarshal_ProposalResponsePayload := dec0 "R" ex_prp (mkProposalResponsePayload "" None);
  marshal_ChaincodeActionPayload := @marshal_ChaincodeActionPayload toy_tx_codec;
  unmarshal_ChaincodeActionPayload s := if decide (s = "M") then Some (mkChaincodeActionPayload "p" None)
                                        else dec0 "A" toy_cap (mkChaincodeActionPayload "" None) s;
  marshal_Transaction := @marshal_Transaction toy_tx_codec;
  marshal_Payload := @marshal_Payload toy_tx_codec;
  marshal_Header := @marshal_Header toy_tx_codec;
  marshal_ChannelHeader := @marshal_ChannelHeader toy_tx_codec;
  marshal_SignatureHeader := @marshal_SignatureHeader toy_tx_codec;
  marshal_ChaincodeHeaderExtension := @marshal_ChaincodeHeaderExtension toy_tx_codec;
  marshal_ChaincodeInvocationSpec := @marshal_ChaincodeInvocationSpec toy_tx_codec;
  marshal_Proposal := @marshal_Proposal toy_tx_codec;
  TimestampProto t := Ok t
|}.

Definition alice : Identity :=
  mkIdentity "org1" (Ok ()) (λ m s, if decide (s = "sig:" +:+ m) then Ok () else Err "bad signature").
#[local] Instance ex_membership : Membership := {|
  GetIdentityDeserializer c := if decide (c = "ch") then Some (λ b, if decide (b = "alice") then Ok alice else Err "unknown")
                               else None
|}.

Lemma ex_laws : tx_codec_laws.
Proof.
  split; intros *; cbn;
    try (by intros E; apply dec1_enc1 in E as (Em & -> & _); injection Em as -> ->; exists "p");
    try (intros E; apply dec1_enc1 in E as (-> & -> & _)); try done; try (by vm_compute).
  all: try (case_bool_decide as Hp; [|done]; intros [= <-]; destruct p; destruct Hp; simplify_eq/=; done).
Qed.

Lemma ex_empty_laws : empty_laws.
Proof. by split. Qed.

Lemma endorsed_tx_validates_witness :
  ∃ payload, ValidateTransaction (Some (mkEnvelope "Y" "sig:Y")) = Ok (Some payload, TxValidationCode_VALID).
Proof.
  set (sp := mkSignedProposal (Some "P") (Some "sig:P")).
  apply (endorsed_tx_validates sp (mkUnpackedProposal "cc" toy_chdr toy_input (mkProposalMsg "h" "p") toy_shdr sp "csp")
    (λ _, Some alice) toy_signer toy_response [toy_response] _ toy_res (Some "r") None toy_id "R"
    (λ b, if decide (b = "alice") then Ok alice else Err "unknown") alice ex_laws ex_empty_laws);
    try (vm_compute; reflexivity).
  intros m s [= <-]. split; [done|]. cbn. by rewrite decide_True.
Defined.

Lemma missing_action_panics_witness : is_panic (ValidateTransaction (Some (mkEnvelope "Z" "sig:Z"))) = true.
Proof.
  apply (missing_action_panics (mkEnvelope "Z" "sig:Z") (mkPayload (Some toy_hdr) "N") toy_hdr toy_chdr toy_shdr toy_shdr
    (mkTransactionAction "s" "M") (mkChaincodeActionPayload "p" None)); try (vm_compute; reflexivity); try done.
  split_and!; [done..|]. eexists _, alice. by split_and!.
Defined.
