(* ===== verification/TxValidator.v ===== *)
(** * TxValidator: validating the transactions of a block
      (core/committer/txvalidator/v20/validator.go, plugindispatcher/dispatcher.go)

    One goroutine per transaction checks the envelope, the ledger for its id,
    and the endorsement policy of every namespace it writes; the results come
    back over a channel in any order. [Validate] takes that order as an
    argument. The ledger, the chaincode lifecycle and the plugins are the class
    [ValidatorResources]. Validation does not change the state they answer
    from: a configuration transaction, which does, is alone in its block. *)

From S2P Require Import Prelude GoText Utf8 Base64 Protos TxFlags Proposal ProtoUtil RwSetUtil MsgValidation.

Definition TxValidationCode_UNKNOWN_TX_TYPE : Z := 13.
Definition TxValidationCode_TARGET_CHAIN_NOT_FOUND : Z := 14.
Definition TxValidationCode_MARSHAL_TX_ERROR : Z := 15.
Definition TxValidationCode_BAD_HEADER_EXTENSION : Z := 19.
Definition TxValidationCode_BAD_CHANNEL_HEADER : Z := 20.
Definition TxValidationCode_BAD_RESPONSE_PAYLOAD : Z := 21.
Definition TxValidationCode_BAD_RWSET : Z := 22.
Definition TxValidationCode_ILLEGAL_WRITESET : Z := 23.
Definition TxValidationCode_INVALID_CHAINCODE : Z := 25.
Definition BlockMetadataIndex_COMMIT_HASH : nat := 4.

(** ** Errors *)
Inductive vscc_error :=
| VSCCExecutionFailureError (e : string)
| VSCCInfoLookupFailureError (e : string)
| VSCCEndorsementPolicyError (e : string)
| OtherError (e : string).

(** What a plugin answers: the transaction passes, the plugin could not decide
    ([validation.ExecutionFailureError]), or any other error. *)
Inductive plugin_answer := PluginAccepts | PluginExecutionFailure (e : string) | PluginRejects (e : string).

Inductive validation_info :=
| ValidationInfo_found (plugin : string) (args : bytes)
| ValidationInfo_unexpected (e : string)
| ValidationInfo_invalid (e : string).

Record Context_ := mkContext {
  ctx_Seq : nat;
  ctx_Envelope : bytes;
  ctx_Block : Block;
  ctx_TxID : string;
  ctx_Channel : string;
  ctx_Namespace : string;
  ctx_Policy : bytes;
  ctx_PluginName : string
}.

(** An error a call may return is the right side of a sum, or an option. *)
Class ValidatorResources := {
  ConfigEnvelope : Type;
  UnmarshalConfigEnvelope : bytes → ConfigEnvelope + string;
  Apply : ConfigEnvelope → option string;
  TxIDExists : string → bool + string;
  NewQueryExecutor : option string;
  ValidationInfo : string → string → validation_info;
  ValidateWithPlugin : Context_ → plugin_answer;
  unmarshal_ChaincodeEvent : bytes → option string;   (* the event's [ChaincodeId] *)
  marshal_Envelope : Envelope → bytes + string
}.

Section validator.
Context `{Codec} `{ProposalCodec} `{TxCodec} `{Membership} `{ValidatorResources} `{MapOrder}.

(** ** dispatcherImpl *)
Definition invokeValidationPlugin (ctx : Context_) : option vscc_error :=
  match ValidateWithPlugin ctx with
  | PluginAccepts => None
  | PluginExecutionFailure e => Some (VSCCExecutionFailureError e)
  | PluginRejects e => Some (VSCCEndorsementPolicyError e)
  end.

Definition getCDataForCC (channelID ccid : string) : (string * bytes) + vscc_error :=
  match NewQueryExecutor with
  | None =>
      match ValidationInfo channelID ccid with
      | ValidationInfo_unexpected e =>
          inr (VSCCInfoLookupFailureError ("Could not retrieve state for chaincode " +:+ ccid +:+ ", error " +:+ e))
      | ValidationInfo_invalid e => inr (OtherError e)
      | ValidationInfo_found plugin args =>
          if bool_decide (plugin = "")
          then inr (OtherError ("chaincode definition for [" +:+ ccid +:+ "] is invalid, plugin field must be set"))
          else if bool_decide (args = "")
          then inr (OtherError ("chaincode definition for [" +:+ ccid +:+ "] is invalid, policy field must be set"))
          else inl (plugin, args)
      end
  | Some e => inr (OtherError ("could not retrieve QueryExecutor: " +:+ e))
  end.

Definition GetInfoForValidate (chdr : ChannelHeader) (ccID : string) : (string * bytes) + vscc_error :=
  getCDataForCC (chdr_ChannelId chdr) ccID.

Definition txWritesToNamespace (ns : NsRwSet) : bool :=
  negb (bool_decide (kv_Writes (nrw_KvRwSet ns) = [])) ||
  existsb (λ c, negb (bool_decide (h_HashedWrites (ch_HashedRwSet c) = [])) ||
                negb (bool_decide (h_MetadataWrites (ch_HashedRwSet c) = []))) (nrw_CollHashedRwSets ns) ||
  negb (bool_decide (kv_MetadataWrites (nrw_KvRwSet ns) = [])).

(** The loop over the namespaces of the read-write set: [None] at a duplicate. *)
Fixpoint written_namespaces (nss : list NsRwSet) (namespaces : gset string) (wrNamespace : gmap string bool)
    : option (gmap string bool) :=
  match nss with
  | [] => Some wrNamespace
  | ns :: rest =>
      if bool_decide (nrw_NameSpace ns ∈ namespaces) then None
      else written_namespaces rest ({[nrw_NameSpace ns]} ∪ namespaces)
             (if txWritesToNamespace ns then <[nrw_NameSpace ns := true]> wrNamespace else wrNamespace)
  end.

(** One namespace against its chaincode's policy. *)
Definition check_namespace (chdr : ChannelHeader) (seq : nat) (envBytes : bytes) (block : Block) (ns : string)
    : option (Z * vscc_error) :=
  match GetInfoForValidate chdr ns with
  | inr e => Some (TxValidationCode_INVALID_CHAINCODE, e)
  | inl (plugin, args) =>
      match invokeValidationPlugin
              (mkContext seq envBytes block (chdr_TxId chdr) (chdr_ChannelId chdr) ns args plugin) with
      | None => None
      | Some (VSCCEndorsementPolicyError e) =>
          Some (TxValidationCode_ENDORSEMENT_POLICY_FAILURE, VSCCEndorsementPolicyError e)
      | Some e => Some (TxValidationCode_INVALID_OTHER_REASON, e)
      end
  end.

Fixpoint check_namespaces (chdr : ChannelHeader) (seq : nat) (envBytes : bytes) (block : Block)
    (nss : list string) : Z * option vscc_error :=
  match nss with
  | [] => (TxValidationCode_VALID, None)
  | ns :: rest =>
      match check_namespace chdr seq envBytes block ns with
      | Some (code, e) => (code, Some e)
      | None => check_namespaces chdr seq envBytes block rest
      end
  end.

Definition fails (code : Z) (e : string) : Z * option vscc_error := (code, Some (OtherError e)).

(** The checks between the event and the policies. *)
Definition check_event_and_writes (seq : nat) (envBytes : bytes) (block : Block) (chdr : ChannelHeader)
    (ccID : string) (events : bytes) (txRWSet : TxRwSet) : Z * option vscc_error :=
  let continue :=
    match written_namespaces (NsRwSets txRWSet) ∅ {[ccID := true]} with
    | None => fails TxValidationCode_ILLEGAL_WRITESET "duplicate namespace in txRWSet"
    | Some wrNamespace =>
        check_namespaces chdr seq envBytes block (map_range ["wrNamespace"] seq wrNamespace)
    end in
  if bool_decide (events = "") then continue
  else
    match unmarshal_ChaincodeEvent events with
    | None => fails TxValidationCode_INVALID_OTHER_REASON "invalid chaincode event"
    | Some id =>
        if bool_decide (id = ccID) then continue
        else fails TxValidationCode_INVALID_OTHER_REASON
               "chaincode event chaincode id does not match chaincode action chaincode id"
    end.

(** Only following a nil header can panic. *)
Definition Dispatch (seq : nat) (payload : Payload) (envBytes : bytes) (block : Block)
    : outcome (Z * option vscc_error) :=
  hdr ← deref (payload_Header payload);
  match unmarshal_ChannelHeader (hdr_ChannelHeader hdr) with
  | None => Ok (fails TxValidationCode_BAD_CHANNEL_HEADER "error unmarshaling ChannelHeader")
  | Some chdr =>
      match unmarshal_ChaincodeHeaderExtension (chdr_Extension chdr) with
      | None => Ok (fails TxValidationCode_BAD_HEADER_EXTENSION "error unmarshaling ChaincodeHeaderExtension")
      | Some hdrExt =>
          match GetActionFromEnvelope envBytes with
          | Panic p => Panic p
          | Err e => Ok (fails TxValidationCode_BAD_RESPONSE_PAYLOAD ("GetActionFromEnvelope failed: " +:+ e))
          | Ok respPayload =>
              match FromProtoBytes (cca_Results respPayload) with
              | Panic p => Panic p
              | Err e => Ok (fails TxValidationCode_BAD_RWSET ("txRWSet.FromProtoBytes failed: " +:+ e))
              | Ok txRWSet =>
                  match che_ChaincodeId hdrExt, cca_ChaincodeId respPayload with
                  | None, _ => Ok (fails TxValidationCode_INVALID_OTHER_REASON "nil ChaincodeId in header extension")
                  | _, None => Ok (fails TxValidationCode_INVALID_OTHER_REASON "nil ChaincodeId in ChaincodeAction")
                  | Some hid, Some rid =>
                      let ccID := ccid_Name hid in
                      if bool_decide (ccID = "")
                      then Ok (fails TxValidationCode_INVALID_CHAINCODE "invalid chaincode ID")
                      else if negb (bool_decide (ccID = ccid_Name rid))
                      then Ok (fails TxValidationCode_INVALID_CHAINCODE
                                 ("inconsistent ccid info (" +:+ ccID +:+ "/" +:+ ccid_Name rid +:+ ")"))
                      else if bool_decide (ccid_Version rid = "")
                      then Ok (fails TxValidationCode_INVALID_CHAINCODE "invalid chaincode version")
                      else Ok (check_event_and_writes seq envBytes block chdr ccID (cca_Events respPayload) txRWSet)
                  end
              end
          end
      end
  end.

(** ** TxValidator: one transaction *)
Record blockValidationResult := mkResult {
  res_tIdx : nat;
  res_validationCode : Z;
  res_err : option string;
  res_txid : string
}.

Definition code_result (tIdx : nat) (code : Z) : blockValidationResult := mkResult tIdx code None "".
Definition err_result (tIdx : nat) (e : string) : blockValidationResult :=
  mkResult tIdx TxValidationCode_VALID (Some e) "".

Definition checkTxIdDupsLedger (tIdx : nat) (chdr : ChannelHeader) : option blockValidationResult :=
  match TxIDExists (chdr_TxId chdr) with
  | inl true => Some (code_result tIdx TxValidationCode_DUPLICATE_TXID)
  | inl false => None
  | inr e => Some (err_result tIdx e)
  end.

Definition chainExists (chain : string) : bool := true.

(** The end of [validateTx]: the transaction is well formed and accepted. *)
Definition accept (env : Envelope) (tIdx : nat) (txID : string) : blockValidationResult :=
  match marshal_Envelope env with
  | inl _ => mkResult tIdx TxValidationCode_VALID None txID
  | inr _ => code_result tIdx TxValidationCode_MARSHAL_TX_ERROR
  end.

Definition validate_endorser (block : Block) (d : bytes) (tIdx : nat) (env : Envelope) (payload : Payload)
    (chdr : ChannelHeader) : outcome blockValidationResult :=
  match checkTxIdDupsLedger tIdx chdr with
  | Some r => Ok r
  | None =>
      '(cde, err) ← Dispatch tIdx payload d block;
      match err with
      | Some (VSCCExecutionFailureError e) | Some (VSCCInfoLookupFailureError e) => Ok (err_result tIdx e)
      | Some _ => Ok (code_result tIdx cde)
      | None => Ok (accept env tIdx (chdr_TxId chdr))
      end
  end.

Definition validate_config (tIdx : nat) (env : Envelope) (payload : Payload) : blockValidationResult :=
  match UnmarshalConfigEnvelope (payload_Data payload) with
  | inl configEnvelope =>
      match Apply configEnvelope with
      | None => accept env tIdx ""
      | Some e => err_result tIdx ("error validating config which passed initial validity checks: " +:+ e)
      end
  | inr e => err_result tIdx ("error unmarshalling config which passed initial validity checks: " +:+ e)
  end.

(** [d] is [None] for a nil entry. *)
Definition validateTx (block : Block) (tIdx : nat) (d : option bytes) : outcome blockValidationResult :=
  match d with
  | None => Ok (code_result tIdx TxValidationCode_VALID)
  | Some d =>
      match GetEnvelopeFromBlock d with
      | Ok env =>
          '(payload, txResult) ← ValidateTransaction (Some env);
          if negb (bool_decide (txResult = TxValidationCode_VALID)) then Ok (code_result tIdx txResult)
          else
            payload ← deref payload;
            hdr ← deref (payload_Header payload);
            match unmarshal_ChannelHeader (hdr_ChannelHeader hdr) with
            | None => Ok (code_result tIdx TxValidationCode_INVALID_OTHER_REASON)
            | Some chdr =>
                if negb (chainExists (chdr_ChannelId chdr))
                then Ok (code_result tIdx TxValidationCode_TARGET_CHAIN_NOT_FOUND)
                else if bool_decide (chdr_Type chdr = HeaderType_ENDORSER_TRANSACTION)
                then validate_endorser block d tIdx env payload chdr
                else if bool_decide (chdr_Type chdr = HeaderType_CONFIG)
                then Ok (validate_config tIdx env payload)
                else Ok (code_result tIdx TxValidationCode_UNKNOWN_TX_TYPE)
            end
      | Err _ => Ok (code_result tIdx TxValidationCode_INVALID_OTHER_REASON)
      | Panic p => Panic p
      end
  end.

(** ** TxValidator: the block *)
Record collected := mkCollected {
  c_txsfltr : ValidationFlags;
  c_txidArray : list string;
  c_err : option (string * nat)     (* [err] and [errPos] *)
}.

Definition receive (c : collected) (res : blockValidationResult) : outcome collected :=
  match res_err res with
  | Some e =>
      let buffered := match c_err c with Some (_, errPos) => (res_tIdx res <? errPos)%nat | None => true end in
      Ok (if buffered then mkCollected (c_txsfltr c) (c_txidArray c) (Some (e, res_tIdx res)) else c)
  | None =>
      fl ← set_flag (c_txsfltr c) (res_tIdx res) (res_validationCode res);
      Ok (mkCollected fl
            (if bool_decide (res_validationCode res = TxValidationCode_VALID)
             then <[res_tIdx res := res_txid res]> (c_txidArray c) else c_txidArray c)
            (c_err c))
  end.

Fixpoint mark_from (id : nat) (txids : list string) (txidMap : gset string) (txsfltr : ValidationFlags)
    : outcome ValidationFlags :=
  match txids with
  | [] => Ok txsfltr
  | txid :: rest =>
      if bool_decide (txid = "") then mark_from (S id) rest txidMap txsfltr
      else if bool_decide (txid ∈ txidMap) then
        fl ← set_flag txsfltr id TxValidationCode_DUPLICATE_TXID;
        mark_from (S id) rest txidMap fl
      else mark_from (S id) rest ({[txid]} ∪ txidMap) txsfltr
  end.

Definition markTXIdDuplicates (txids : list string) (txsfltr : ValidationFlags) : outcome ValidationFlags :=
  mark_from 0 txids ∅ txsfltr.

Definition allValidated (txsfltr : ValidationFlags) (number : Z) : outcome unit :=
  match list_find (λ f, f = TxValidationCode_NOT_VALIDATED) txsfltr with
  | Some (id, _) => Err ("transaction " +:+ format_int (Z.of_nat id) +:+ " in block " +:+ format_int number
                         +:+ " has skipped validation")
  | None => Ok ()
  end.

Definition InitBlockMetadata (metadata : option (list bytes)) : list bytes :=
  match metadata with
  | None => [""; ""; ""; ""; ""]
  | Some md => md ++ replicate (S BlockMetadataIndex_COMMIT_HASH - length md) ""
  end.

(** The results in the order they arrive. *)
Definition run_step (block : Block) (data : list bytes) (results : list blockValidationResult) (i : nat)
    : outcome (list blockValidationResult) :=
  d ← index data i;
  r ← validateTx block i (Some d);
  Ok (results ++ [r]).

Definition run_validations (arrival : list nat) (block : Block) (data : list bytes)
    : outcome (list blockValidationResult) :=
  foldM (run_step block data) [] arrival.

Definition Validate (arrival : list nat) (block : Block) : outcome Block :=
  number ← deref (blk_Number block);
  data ← deref (blk_Data block);
  results ← run_validations arrival block data;
  c ← foldM receive (mkCollected (NewFlags (length data)) (replicate (length data) "") None) results;
  match c_err c with
  | Some (e, _) => Err e
  | None =>
      txsfltr ← markTXIdDuplicates (c_txidArray c) (c_txsfltr c);
      _ ← allValidated txsfltr number;
      let md := InitBlockMetadata (blk_Metadata block) in
      Ok (set_Metadata block (<[BlockMetadataIndex_TRANSACTIONS_FILTER := bytes_of_flags txsfltr]> md))
  end.
End validator.

(** ** Lemmas: one transaction *)
Section transaction_lemmas.
Context `{Codec} `{ProposalCodec} `{TxCodec} `{Membership} `{ValidatorResources} `{MapOrder}.

(** A code the validator can assign: a byte, and not the mark of a transaction
    that was not validated. *)
Definition is_code (code : Z) : Prop := (0 ≤ code < 256)%Z ∧ code ≠ TxValidationCode_NOT_VALIDATED.

Lemma ValidateTransaction_code e p code : ValidateTransaction e = Ok (p, code) → is_code code.
Proof.
  unfold ValidateTransaction. intros E. repeat case_match; simplify_eq; unfold is_code; vm_compute; intuition congruence.
Qed.

Lemma check_namespaces_code chdr seq env block nss :
  is_code (check_namespaces chdr seq env block nss).1.
Proof.
  induction nss as [|ns nss IH]; cbn; [by vm_compute|].
  unfold check_namespace. repeat case_match; simplify_eq; try done; vm_compute; intuition congruence.
Qed.

Lemma Dispatch_code seq payload env block r : Dispatch seq payload env block = Ok r → is_code r.1.
Proof.
  unfold Dispatch. destruct (payload_Header payload); cbn; [|done]. intros E.
  repeat case_match; simplify_eq; unfold check_event_and_writes, fails; repeat case_match;
    try apply check_namespaces_code; vm_compute; intuition congruence.
Qed.

Lemma validate_endorser_result block d i env payload chdr r :
  validate_endorser block d i env payload chdr = Ok r → res_tIdx r = i ∧ is_code (res_validationCode r).
Proof.
  unfold validate_endorser, checkTxIdDupsLedger, accept.
  destruct (TxIDExists _) as [[]|]; [by intros [= <-]| |by intros [= <-]].
  destruct (Dispatch i payload d block) as [[cde err]| |] eqn:ED; [|done..].
  apply Dispatch_code in ED. cbn. intros E. repeat case_match; simplify_eq; cbn; split; try done; by vm_compute.
Qed.

Lemma validateTx_result block i d r :
  validateTx block i d = Ok r → res_tIdx r = i ∧ is_code (res_validationCode r).
Proof.
  unfold validateTx. intros E. destruct d as [d|]; [|by simplify_eq].
  destruct (GetEnvelopeFromBlock d) as [env| |]; [|by simplify_eq|done].
  destruct (ValidateTransaction (Some env)) as [[p code]| |] eqn:EV; [|done..].
  apply ValidateTransaction_code in EV. cbn in E.
  case_bool_decide; cbn in E; [|by simplify_eq].
  destruct p as [p|]; cbn in E; [|done]. destruct (payload_Header p) as [hdr|]; cbn in E; [|done].
  destruct (unmarshal_ChannelHeader _) as [chdr|]; [|by simplify_eq].
  case_bool_decide; [by apply validate_endorser_result in E|].
  unfold validate_config, accept in E. repeat case_match; simplify_eq; by vm_compute.
Qed.
End transaction_lemmas.

(** ** Lemmas: collecting the results *)

(** The flag a result becomes: its code, unless an earlier valid transaction of
    the block has the same id. *)
Definition valid_with (txid : string) (r : blockValidationResult) : bool :=
  bool_decide (res_validationCode r = TxValidationCode_VALID) && bool_decide (res_txid r = txid).

Definition final_flag (rs : list blockValidationResult) (i : nat) (r : blockValidationResult) : Z :=
  if valid_with (res_txid r) r && negb (bool_decide (res_txid r = "")) && existsb (valid_with (res_txid r)) (take i rs)
  then TxValidationCode_DUPLICATE_TXID else res_validationCode r.

Definition first_error (rs : list blockValidationResult) : option string := head (omap res_err rs).

(** The id [Validate] records for a result. *)
Definition recorded_id (r : blockValidationResult) : string :=
  if bool_decide (res_validationCode r = TxValidationCode_VALID) then res_txid r else "".

Definition seen_code (l : list nat) (i : nat) (r : blockValidationResult) : Z :=
  if bool_decide (i ∈ l) && negb (bool_decide (is_Some (res_err r))) then res_validationCode r
  else TxValidationCode_NOT_VALIDATED.
Definition seen_id (l : list nat) (i : nat) (r : blockValidationResult) : string :=
  if bool_decide (i ∈ l) && negb (bool_decide (is_Some (res_err r))) then recorded_id r else "".

(** The error of the smallest index among [l]. *)
Definition least_error (rs : list blockValidationResult) (l : list nat) (err : option (string * nat)) : Prop :=
  match err with
  | None => ∀ i r, i ∈ l → rs !! i = Some r → res_err r = None
  | Some (e, p) => (∃ r, rs !! p = Some r ∧ res_err r = Some e) ∧
                   ∀ i r, i ∈ l → rs !! i = Some r → is_Some (res_err r) → (p ≤ i)%nat
  end.

(** After the results of the indices [l]. *)
Definition collected_ok (rs : list blockValidationResult) (l : list nat) (c : collected) : Prop :=
  c_txsfltr c = imap (seen_code l) rs ∧ c_txidArray c = imap (seen_id l) rs ∧ least_error rs l (c_err c).

Lemma insert_imap {A B} (f g : nat → A → B) (l : list A) (i : nat) (x : A) :
  l !! i = Some x → (∀ j y, j ≠ i → f j y = g j y) → <[i := g i x]> (imap f l) = imap g l.
Proof.
  intros Hx Hfg. apply list_eq. intros j. rewrite !list_lookup_imap.
  destruct (decide (j = i)) as [->|Hj].
  - rewrite list_lookup_insert_eq, Hx; [done|]. rewrite length_imap. by eapply lookup_lt_Some.
  - rewrite list_lookup_insert_ne, list_lookup_imap by done. destruct (l !! j); cbn; [|done]. by rewrite Hfg.
Qed.

Lemma imap_agree {A B} (f g : nat → A → B) (l : list A) :
  (∀ j y, l !! j = Some y → f j y = g j y) → imap f l = imap g l.
Proof.
  intros Hfg. apply list_eq. intros j. rewrite !list_lookup_imap.
  destruct (l !! j) as [y|] eqn:Hj; cbn; [|done]. by rewrite (Hfg _ _ Hj).
Qed.

Lemma seen_other l i j r : j ≠ i → seen_code (l ++ [i]) j r = seen_code l j r ∧ seen_id (l ++ [i]) j r = seen_id l j r.
Proof.
  intros Hj. unfold seen_code, seen_id.
  rewrite (bool_decide_ext (j ∈ l ++ [i]) (j ∈ l)); [done|]. rewrite elem_of_app, list_elem_of_singleton. naive_solver.
Qed.

Lemma seen_now l i r :
  res_err r = None → seen_code (l ++ [i]) i r = res_validationCode r ∧ seen_id (l ++ [i]) i r = recorded_id r.
Proof.
  intros E. unfold seen_code, seen_id. rewrite E.
  rewrite (bool_decide_eq_true_2 (i ∈ l ++ [i])) by (rewrite elem_of_app, list_elem_of_singleton; auto).
  by rewrite (bool_decide_eq_false_2 (is_Some None)) by (by intros []).
Qed.

Lemma seen_error l i r e :
  res_err r = Some e → seen_code l i r = TxValidationCode_NOT_VALIDATED ∧ seen_id l i r = "".
Proof.
  intros E. unfold seen_code, seen_id. rewrite E, (bool_decide_eq_true_2 (is_Some (Some e))) by done.
  by rewrite andb_false_r.
Qed.

Lemma least_error_snoc rs l i r err :
  least_error rs l err → rs !! i = Some r → res_err r = None → least_error rs (l ++ [i]) err.
Proof.
  unfold least_error. intros Hl Hr E. destruct err as [[e p]|].
  - destruct Hl as [Hp Hmin]. split; [done|]. intros j r' [Hj| ->%list_elem_of_singleton]%elem_of_app Hr' He; [eauto|].
    simplify_eq. rewrite E in He. by destruct He.
  - intros j r' [Hj| ->%list_elem_of_singleton]%elem_of_app Hr'; [eauto|]. by simplify_eq.
Qed.

Lemma receive_error rs l i r e c :
  collected_ok rs l c → rs !! i = Some r → res_tIdx r = i → res_err r = Some e →
  ∃ c', receive c r = Ok c' ∧ collected_ok rs (l ++ [i]) c'.
Proof.
  intros (Ef & Ei & Hl) Hr Ht E. unfold receive. rewrite E, Ht. eexists. split; [done|].
  assert (∀ b, (if b : bool then mkCollected (c_txsfltr c) (c_txidArray c) (Some (e, i)) else c)
    = mkCollected (c_txsfltr c) (c_txidArray c) (if b then Some (e, i) else c_err c)) as -> by (intros []; by destruct c).
  split_and!; cbn [c_txsfltr c_txidArray c_err].
  - rewrite Ef. apply imap_agree. intros j y Hj. destruct (decide (j = i)) as [->|Hne]; [|by destruct (seen_other l i j y)].
    simplify_eq. by rewrite !(proj1 (seen_error _ _ _ _ E)).
  - rewrite Ei. apply imap_agree. intros j y Hj. destruct (decide (j = i)) as [->|Hne]; [|by destruct (seen_other l i j y)].
    simplify_eq. by rewrite !(proj2 (seen_error _ _ _ _ E)).
  - unfold least_error in *. destruct (c_err c) as [[e' p]|].
    + destruct Hl as [Hp Hmin]. destruct (Nat.ltb_spec i p) as [Hlt|Hge].
      * split; [eauto|]. intros j r' [Hj| ->%list_elem_of_singleton]%elem_of_app Hr' He; [|lia].
        specialize (Hmin _ _ Hj Hr' He). lia.
      * split; [done|]. intros j r' [Hj| ->%list_elem_of_singleton]%elem_of_app Hr' He; [eauto|lia].
    + split; [eauto|]. intros j r' [Hj| ->%list_elem_of_singleton]%elem_of_app Hr' He; [|lia].
      rewrite (Hl _ _ Hj Hr') in He. by destruct He.
Qed.

Lemma receive_code rs l i r c :
  collected_ok rs l c → rs !! i = Some r → res_tIdx r = i → res_err r = None → is_code (res_validationCode r) →
  ∃ c', receive c r = Ok c' ∧ collected_ok rs (l ++ [i]) c'.
Proof.
  intros (Ef & Ei & Hl) Hr Ht E [Hc _]. unfold receive. rewrite E, Ht.
  unfold set_flag. rewrite Ef, length_imap.
  destruct (Nat.ltb_spec i (length rs)) as [_|Hge]; [|apply lookup_lt_Some in Hr; lia].
  eexists. split; [done|]. destruct (seen_now l i r E) as [Sc Si]. split_and!; cbn; [| |by eapply least_error_snoc].
  - unfold u8, wrap. rewrite Z.mod_small by done. rewrite <- Sc. apply insert_imap; [done|].
    intros j y Hj. symmetry. by apply seen_other.
  - rewrite Ei. case_bool_decide as Hv.
    + assert (res_txid r = seen_id (l ++ [i]) i r) as ->.
      { rewrite Si. unfold recorded_id. by rewrite bool_decide_eq_true_2. }
      apply insert_imap; [done|]. intros j y Hj. symmetry. by apply seen_other.
    + apply imap_agree. intros j y Hj. destruct (decide (j = i)) as [->|Hne]; [|by destruct (seen_other l i j y)].
      simplify_eq. rewrite Si. unfold seen_id. assert (recorded_id r = "") as ->; [|by case_match].
      unfold recorded_id. by rewrite bool_decide_eq_false_2.
Qed.

Lemma receive_all rs arrival l c :
  collected_ok rs l c →
  (∀ i, i ∈ arrival → ∃ r, rs !! i = Some r ∧ res_tIdx r = i ∧ is_code (res_validationCode r)) →
  ∃ c', foldM receive c (omap (λ i, rs !! i) arrival) = Ok c' ∧ collected_ok rs (l ++ arrival) c'.
Proof.
  revert l c. induction arrival as [|i arrival IH]; intros l c Hc Hall; cbn.
  - exists c. by rewrite app_nil_r.
  - destruct (Hall i) as (r & Hr & Ht & Hcode); [by left|]. rewrite Hr. cbn.
    assert (∃ c', receive c r = Ok c' ∧ collected_ok rs (l ++ [i]) c') as (c' & Ec & Hc').
    { destruct (res_err r) as [e|] eqn:E; [by eapply receive_error|by eapply receive_code]. }
    rewrite Ec. destruct (IH (l ++ [i]) c' Hc') as (c'' & Ec'' & Hc''); [set_solver|].
    exists c''. by rewrite <- app_assoc in Hc''.
Qed.

Lemma first_error_at rs p r e :
  rs !! p = Some r → res_err r = Some e → (∀ j r', (j < p)%nat → rs !! j = Some r' → res_err r' = None) →
  first_error rs = Some e.
Proof.
  unfold first_error. revert p. induction rs as [|r0 rs IH]; intros [|p] Hr E Hmin; simplify_eq/=; [by rewrite E|].
  rewrite (Hmin 0 r0) by (done || lia). apply (IH p); [done..|]. intros j r' Hj Hr'. apply (Hmin (S j)); [lia|done].
Qed.

Lemma first_error_none rs : (∀ r, r ∈ rs → res_err r = None) → first_error rs = None.
Proof.
  unfold first_error. induction rs as [|r rs IH]; intros Hn; [done|]. cbn. rewrite Hn by set_solver. apply IH. set_solver.
Qed.

Lemma least_error_first rs err :
  least_error rs (seq 0 (length rs)) err → first_error rs = fst <$> err.
Proof.
  assert (∀ j r, rs !! j = Some r → j ∈ seq 0 (length rs)) as Hin.
  { intros j r Hj%lookup_lt_Some. apply elem_of_seq. lia. }
  destruct err as [[e p]|]; cbn.
  - intros [(r & Hr & E) Hmin]. eapply first_error_at; [done..|]. intros j r' Hj Hr'.
    destruct (res_err r') eqn:E'; [|done]. specialize (Hmin j r' (Hin _ _ Hr') Hr'). rewrite E' in Hmin.
    exfalso. assert (p ≤ j) by auto. lia.
  - intros Hn. apply first_error_none. intros r [j Hj]%list_elem_of_lookup. eauto.
Qed.

(** A repeated id, in the position [j] of [ids]. *)
Definition repeated (ids : list string) (j : nat) : bool :=
  match ids !! j with Some t => negb (bool_decide (t = "")) && bool_decide (t ∈ take j ids) | None => false end.
Definition mark_flag (ids : list string) (from j : nat) (f : Z) : Z :=
  if (from <=? j)%nat && repeated ids j then TxValidationCode_DUPLICATE_TXID else f.

Lemma mark_flag_skip ids from fl :
  repeated ids from = false → imap (mark_flag ids (S from)) fl = imap (mark_flag ids from) fl.
Proof.
  intros Hr. apply imap_agree. intros j f Hj. unfold mark_flag.
  destruct (Nat.leb_spec (S from) j), (Nat.leb_spec from j); try lia; try done.
  assert (j = from) as -> by lia. by rewrite Hr.
Qed.

Lemma mark_flag_dup ids from fl :
  repeated ids from = true → (from < length fl)%nat →
  imap (mark_flag ids (S from)) (<[from := u8 TxValidationCode_DUPLICATE_TXID]> fl) = imap (mark_flag ids from) fl.
Proof.
  intros Hr Hlt. apply list_eq. intros j. rewrite !list_lookup_imap. destruct (decide (j = from)) as [->|Hne].
  - destruct (lookup_lt_is_Some_2 _ _ Hlt) as [f Hf]. rewrite list_lookup_insert_eq, Hf by done. cbn.
    unfold mark_flag. rewrite Hr, (proj2 (Nat.leb_gt (S from) from)), (proj2 (Nat.leb_le from from)) by lia. done.
  - rewrite list_lookup_insert_ne by done. destruct (fl !! j) as [f|]; cbn; [|done]. unfold mark_flag.
    by replace (S from <=? j)%nat with (from <=? j)%nat
      by (destruct (Nat.leb_spec from j), (Nat.leb_spec (S from) j); lia || done).
Qed.

Lemma mark_from_spec rest pre seen fl :
  length fl = length (pre ++ rest) → (∀ t, t ∈ seen ↔ t ∈ pre ∧ t ≠ "") →
  mark_from (length pre) rest seen fl = Ok (imap (mark_flag (pre ++ rest) (length pre)) fl).
Proof.
  revert pre seen fl. induction rest as [|t rest IH]; intros pre seen fl Hlen Hseen; cbn [mark_from].
  { f_equal. apply list_eq. intros j. rewrite list_lookup_imap, app_nil_r in *. destruct (fl !! j) eqn:Hj; [|done].
    apply lookup_lt_Some in Hj. cbn. unfold mark_flag. destruct (Nat.leb_spec (length pre) j); [lia|done]. }
  assert (repeated (pre ++ t :: rest) (length pre) = negb (bool_decide (t = "")) && bool_decide (t ∈ pre)) as Hrep.
  { unfold repeated. by rewrite list_lookup_middle, take_app_length. }
  rewrite length_app in Hlen. cbn in Hlen.
  specialize (IH (pre ++ [t])). rewrite <- app_assoc, last_length in IH. cbn [app] in IH.
  destruct (bool_decide_reflect (t = "")) as [Ht|Ht]; [|destruct (bool_decide_reflect (t ∈ seen)) as [Hin|Hin]].
  - rewrite IH; [|rewrite length_app; cbn; lia|].
    + by rewrite mark_flag_skip by done.
    + intros u. rewrite Hseen, elem_of_app, list_elem_of_singleton. naive_solver.
  - apply Hseen in Hin as [Hin _]. rewrite bool_decide_eq_true_2 in Hrep by done.
    unfold set_flag. destruct (Nat.ltb_spec (length pre) (length fl)) as [Hlt|]; [|lia]. go_simpl.
    rewrite IH; [|rewrite length_insert, length_app; cbn; lia|].
    + by rewrite mark_flag_dup by done.
    + intros u. rewrite Hseen, elem_of_app, list_elem_of_singleton. naive_solver.
  - rewrite bool_decide_eq_false_2 in Hrep by (rewrite Hseen in Hin; naive_solver).
    rewrite IH; [|rewrite length_app; cbn; lia|].
    + by rewrite mark_flag_skip by done.
    + intros u. rewrite elem_of_union, elem_of_singleton, Hseen, elem_of_app, list_elem_of_singleton. naive_solver.
Qed.

Lemma repeated_final rs j r :
  rs !! j = Some r →
  mark_flag (recorded_id <$> rs) 0 j (res_validationCode r) = final_flag rs j r.
Proof.
  intros Hr. unfold mark_flag, repeated, final_flag, valid_with. rewrite list_lookup_fmap, Hr. cbn.
  rewrite <- fmap_take. set (l := take j rs). rewrite (bool_decide_eq_true_2 (res_txid r = res_txid r)), andb_true_r by done.
  unfold recorded_id at 1 2. destruct (bool_decide_reflect (res_validationCode r = TxValidationCode_VALID)) as [Hv|]; [|done].
  cbn [andb]. destruct (bool_decide_reflect (res_txid r = "")) as [|Hne]; [done|]. cbn [andb negb].
  fold (valid_with (res_txid r)).
  assert (recorded_id r = res_txid r) as -> by (unfold recorded_id; by rewrite bool_decide_eq_true_2).
  assert (bool_decide (res_txid r ∈ recorded_id <$> l) = existsb (valid_with (res_txid r)) l) as ->; [|done].
  apply eq_bool_prop_intro. rewrite bool_decide_spec, Is_true_true, existsb_exists, list_elem_of_fmap.
  unfold recorded_id, valid_with. setoid_rewrite list_elem_of_In. split.
  - intros (r' & E & Hin). exists r'. split; [done|]. case_bool_decide; [|congruence].
    by rewrite bool_decide_eq_true_2.
  - intros (r' & Hin & [Hv' Ht']%andb_true_iff). exists r'. rewrite Hv'. by apply bool_decide_eq_true in Ht'.
Qed.

Lemma final_flag_code rs i r : is_code (res_validationCode r) → is_code (final_flag rs i r).
Proof. unfold final_flag. case_match; [by vm_compute|done]. Qed.

Lemma marked_flags rs :
  markTXIdDuplicates (recorded_id <$> rs) (res_validationCode <$> rs) = Ok (imap (final_flag rs) rs).
Proof.
  unfold markTXIdDuplicates. rewrite (mark_from_spec _ [] ∅); [|by rewrite app_nil_l, !length_fmap|set_solver].
  f_equal. rewrite app_nil_l. apply list_eq. intros j. rewrite !list_lookup_imap, list_lookup_fmap.
  destruct (rs !! j) as [r|] eqn:Hr; [|done]. cbn. f_equal. by apply repeated_final.
Qed.

Lemma allValidated_codes rs number :
  Forall (λ r, is_code (res_validationCode r)) rs → allValidated (imap (final_flag rs) rs) number = Ok ().
Proof.
  intros Hall. unfold allValidated. destruct (list_find _ _) as [[i f]|] eqn:E; [|done].
  apply list_find_Some in E as (Hi & Hf & _). rewrite list_lookup_imap in Hi.
  destruct (rs !! i) as [r|] eqn:Hr; simplify_eq/=.
  destruct (final_flag_code rs i r) as [_ Hn]; [exact (Forall_lookup_1 _ _ _ _ Hall Hr)|]. congruence.
Qed.

Lemma collected_start rs n :
  length rs = n → collected_ok rs [] (mkCollected (NewFlags n) (replicate n "") None).
Proof.
  intros <-. unfold collected_ok, NewFlags, NewWithValues. cbn.
  split_and!; [..|intros i r Hi; by apply elem_of_nil in Hi];
    induction rs as [|r rs IH] using rev_ind; try done;
    rewrite length_app, Nat.add_comm, replicate_S_end, imap_app, IH; cbn; done.
Qed.

(** All results are in. *)
Lemma collected_done rs l c :
  l ≡ₚ seq 0 (length rs) → collected_ok rs l c →
  first_error rs = fst <$> c_err c ∧
  (c_err c = None → c_txsfltr c = res_validationCode <$> rs ∧ c_txidArray c = recorded_id <$> rs).
Proof.
  intros Hp (Ef & Ei & Hl).
  assert (least_error rs (seq 0 (length rs)) (c_err c)) as Hl'.
  { unfold least_error in *. destruct (c_err c) as [[e p]|]; [destruct Hl as [? Hl]; split; [done|]|];
      intros j r Hj; rewrite <- Hp in Hj; by apply Hl. }
  apply least_error_first in Hl' as Hfirst. split; [done|]. intros Hn. rewrite Hn in Hl'.
  assert (∀ j r, rs !! j = Some r → bool_decide (j ∈ l) && negb (bool_decide (is_Some (res_err r))) = true) as Hseen.
  { intros j r Hj. assert (j ∈ seq 0 (length rs)) as Hin by (apply lookup_lt_Some in Hj; apply elem_of_seq; lia).
    rewrite bool_decide_eq_true_2 by (by rewrite Hp). rewrite (Hl' j r Hin Hj).
    by rewrite (bool_decide_eq_false_2 (is_Some None)) by (by intros []). }
  rewrite Ef, Ei. split; apply list_eq; intros j; rewrite list_lookup_imap, list_lookup_fmap;
    (destruct (rs !! j) as [r|] eqn:Hj; [|done]); cbn; unfold seen_code, seen_id; by rewrite (Hseen _ _ Hj).
Qed.

(** ** What a transaction the plugins accept is *)
Lemma written_namespaces_spec nss seen wr wr' :
  written_namespaces nss seen wr = Some wr' ↔
  NoDup (nrw_NameSpace <$> nss) ∧ (∀ ns, ns ∈ nss → nrw_NameSpace ns ∉ seen) ∧
  wr' = foldl (λ w ns, if txWritesToNamespace ns then <[nrw_NameSpace ns := true]> w else w) wr nss.
Proof.
  revert seen wr. induction nss as [|ns nss IH]; intros seen wr; cbn.
  { split; [intros [= <-]|by intros (_ & _ & ->)]. split_and!; [constructor|set_solver|done]. }
  case_bool_decide as Hin.
  - split; [done|]. intros (_ & Hn & _). exfalso. apply (Hn ns); [by left|done].
  - rewrite IH, NoDup_cons, list_elem_of_fmap. split.
    + intros (Hnd & Hn & ->). split_and!; [|done| |done].
      * intros (ns' & E & Hin'). apply (Hn ns'); [done|]. rewrite E. set_solver.
      * intros ns' [->|Hin']%elem_of_cons; [done|]. specialize (Hn ns' Hin'). set_solver.
    + intros ([Hnin Hnd] & Hn & ->). split_and!; [done| |done]. intros ns' Hin' [E%elem_of_singleton|Hs]%elem_of_union.
      * apply Hnin. by exists ns'.
      * apply (Hn ns'); [by right|done].
Qed.

Lemma written_keys nss (wr : gmap string bool) k :
  is_Some (foldl (λ w ns, if txWritesToNamespace ns then <[nrw_NameSpace ns := true]> w else w) wr nss !! k) ↔
  is_Some (wr !! k) ∨ ∃ ns, ns ∈ nss ∧ nrw_NameSpace ns = k ∧ txWritesToNamespace ns = true.
Proof.
  revert wr. induction nss as [|ns nss IH]; intros wr; cbn.
  { split; [by left|]. intros [?|(? & ?%elem_of_nil & _)]; done. }
  rewrite IH. setoid_rewrite elem_of_cons. destruct (txWritesToNamespace ns) eqn:Ew.
  - destruct (decide (nrw_NameSpace ns = k)) as [<-|Hne].
    + rewrite lookup_insert_eq. split; [|by left]. intros _. right. exists ns. auto.
    + rewrite lookup_insert_ne by done. split; (intros [?|(ns' & Hin & E & Hw)]; [by left|right; exists ns']); [by auto|].
      destruct Hin as [->|?]; done.
  - split; (intros [?|(ns' & Hin & E & Hw)]; [by left|right; exists ns']); [by auto|].
    destruct Hin as [->|?]; [congruence|done].
Qed.

Section endorsement_theorems.
Context `{Codec} `{ProposalCodec} `{TxCodec} `{Membership} `{ValidatorResources} `{MapOrder}.

(** The plugin of the namespace's chaincode accepts the transaction under the
    chaincode's policy. *)
Definition namespace_accepted (chdr : ChannelHeader) (seq : nat) (envBytes : bytes) (block : Block) (ns : string) : Prop :=
  ∃ plugin args, NewQueryExecutor = None ∧ ValidationInfo (chdr_ChannelId chdr) ns = ValidationInfo_found plugin args ∧
    plugin ≠ "" ∧ args ≠ "" ∧
    ValidateWithPlugin (mkContext seq envBytes block (chdr_TxId chdr) (chdr_ChannelId chdr) ns args plugin) = PluginAccepts.

(** The transaction names one chaincode, with its version, and every namespace
    it writes, that of the chaincode included, is accepted. *)
Definition endorsed_tx (seq : nat) (payload : Payload) (envBytes : bytes) (block : Block) : Prop :=
  ∃ hdr chdr hdrExt action rwset ccID ver,
    payload_Header payload = Some hdr ∧ unmarshal_ChannelHeader (hdr_ChannelHeader hdr) = Some chdr ∧
    unmarshal_ChaincodeHeaderExtension (chdr_Extension chdr) = Some hdrExt ∧
    GetActionFromEnvelope envBytes = Ok action ∧ FromProtoBytes (cca_Results action) = Ok rwset ∧
    ccid_Name <$> che_ChaincodeId hdrExt = Some ccID ∧ ccID ≠ "" ∧
    cca_ChaincodeId action = Some (mkChaincodeID ccID ver) ∧ ver ≠ "" ∧
    (cca_Events action ≠ "" → unmarshal_ChaincodeEvent (cca_Events action) = Some ccID) ∧
    NoDup (nrw_NameSpace <$> NsRwSets rwset) ∧
    namespace_accepted chdr seq envBytes block ccID ∧
    ∀ ns, ns ∈ NsRwSets rwset → txWritesToNamespace ns = true →
      namespace_accepted chdr seq envBytes block (nrw_NameSpace ns).

Lemma check_namespace_None chdr seq envBytes block ns :
  check_namespace chdr seq envBytes block ns = None ↔ namespace_accepted chdr seq envBytes block ns.
Proof.
  unfold check_namespace, namespace_accepted, GetInfoForValidate, getCDataForCC, invokeValidationPlugin.
  destruct NewQueryExecutor; [split; [done|by intros (? & ? & ? & _)]|].
  destruct (ValidationInfo _ _) as [plugin args|e|e]; [|split; [done|by intros (? & ? & _ & ? & _)]..].
  case_bool_decide as Hp; [split; [done|intros (? & ? & _ & [= <- <-] & ? & _); done]|].
  case_bool_decide as Ha; [split; [done|intros (? & ? & _ & [= <- <-] & _ & ? & _); done]|].
  destruct (ValidateWithPlugin _) eqn:Ev.
  - split; [|done]. intros _. by exists plugin, args.
  - split; [done|]. intros (? & ? & _ & [= <- <-] & _ & _ & E). congruence.
  - split; [done|]. intros (? & ? & _ & [= <- <-] & _ & _ & E). congruence.
Qed.

Lemma check_namespaces_valid chdr seq envBytes block nss code :
  check_namespaces chdr seq envBytes block nss = (code, None) ↔
  code = TxValidationCode_VALID ∧ ∀ ns, ns ∈ nss → namespace_accepted chdr seq envBytes block ns.
Proof.
  induction nss as [|ns nss IH]; cbn.
  { split; [intros [= <-]; split; [done|set_solver]|by intros [-> _]]. }
  destruct (check_namespace _ _ _ _ ns) as [[c e]|] eqn:E.
  - split; [done|]. intros [_ Hall]. specialize (Hall ns (list_elem_of_here _ _)).
    apply check_namespace_None in Hall. congruence.
  - apply check_namespace_None in E. rewrite IH. split; (intros [-> Hall]; split; [done|]).
    + intros ns' [->|?]%elem_of_cons; auto.
    + intros ns' Hin. apply Hall. by right.
Qed.

Lemma check_event_and_writes_valid seq envBytes block chdr ccID events rwset code :
  check_event_and_writes seq envBytes block chdr ccID events rwset = (code, None) ↔
  code = TxValidationCode_VALID ∧ (events ≠ "" → unmarshal_ChaincodeEvent events = Some ccID) ∧
  NoDup (nrw_NameSpace <$> NsRwSets rwset) ∧ namespace_accepted chdr seq envBytes block ccID ∧
  ∀ ns, ns ∈ NsRwSets rwset → txWritesToNamespace ns = true →
    namespace_accepted chdr seq envBytes block (nrw_NameSpace ns).
Proof.
  unfold check_event_and_writes. set (continue := match written_namespaces _ _ _ with Some _ => _ | None => _ end).
  assert (continue = (code, None) ↔ code = TxValidationCode_VALID ∧ NoDup (nrw_NameSpace <$> NsRwSets rwset) ∧
    namespace_accepted chdr seq envBytes block ccID ∧
    ∀ ns, ns ∈ NsRwSets rwset → txWritesToNamespace ns = true →
      namespace_accepted chdr seq envBytes block (nrw_NameSpace ns)) as Hc.
  { subst continue. destruct (written_namespaces _ _ _) as [wr|] eqn:Ew.
    - apply written_namespaces_spec in Ew as (Hnd & _ & ->). rewrite check_namespaces_valid.
      setoid_rewrite (range_order_elem _ _ _ (map_range_ok _ _ _)). setoid_rewrite written_keys. split.
      + intros [-> Hall]. split_and!; [done..| |].
        * apply Hall. left. by rewrite lookup_singleton_eq.
        * intros ns Hin Hw. apply Hall. right. by exists ns.
      + intros (-> & _ & Hcc & Hns). split; [done|]. intros k [[b Hb]|(ns & Hin & <- & Hw)]; [|by apply Hns].
        apply lookup_singleton_Some in Hb as [<- _]. done.
    - split; [done|]. intros (_ & Hnd & _).
      assert (written_namespaces (NsRwSets rwset) ∅ {[ccID := true]} ≠ None); [|done].
      rewrite (proj2 (written_namespaces_spec (NsRwSets rwset) ∅ {[ccID := true]} _)) by (split_and!; [done|set_solver|done]).
      done. }
  case_bool_decide as He; [rewrite Hc; tauto|].
  destruct (unmarshal_ChaincodeEvent events) as [id|]; [|split; [done|]; intros (_ & Hev & _); by specialize (Hev He)].
  case_bool_decide as Hid.
  - subst id. rewrite Hc. tauto.
  - split; [done|]. intros (_ & Hev & _). specialize (Hev He). congruence.
Qed.

Lemma Dispatch_error_code seq payload envBytes block code e :
  Dispatch seq payload envBytes block = Ok (code, Some e) → code ≠ TxValidationCode_VALID.
Proof.
  unfold Dispatch. destruct (payload_Header payload); cbn; [|done]. intros E.
  assert (∀ chdr nss c err, check_namespaces chdr seq envBytes block nss = (c, Some err) → c ≠ TxValidationCode_VALID)
    as Hns.
  { intros chdr nss. induction nss as [|ns nss IH]; intros c err; cbn; [done|]. unfold check_namespace.
    repeat case_match; intros Ec; simplify_eq; eauto. }
  unfold check_event_and_writes, fails in E. repeat case_match; simplify_eq; try done; by eapply Hns; eauto.
Qed.

(** The dispatcher accepts a transaction exactly when every namespace it
    writes is accepted under its own chaincode's policy, in whatever order
    they are visited. *)
Lemma Dispatch_valid_iff (seq : nat) (payload : Payload) (envBytes : bytes) (block : Block) (code : Z) :
  Dispatch seq payload envBytes block = Ok (code, None) ↔
  code = TxValidationCode_VALID ∧ endorsed_tx seq payload envBytes block.
Proof.
  unfold Dispatch, endorsed_tx. split.
  - destruct (payload_Header payload) as [hdr|] eqn:Eh; cbn; [|done].
    destruct (unmarshal_ChannelHeader _) as [chdr|] eqn:Ec; [|done].
    destruct (unmarshal_ChaincodeHeaderExtension _) as [ext|] eqn:Ee; [|done].
    destruct (GetActionFromEnvelope envBytes) as [act| |] eqn:Ea; [|done..].
    destruct (FromProtoBytes _) as [rw| |] eqn:Er; [|done..].
    destruct (che_ChaincodeId ext) as [hid|] eqn:Ei; [|done].
    destruct (cca_ChaincodeId act) as [[rn rv]|] eqn:Ej; [|done]. cbn.
    case_bool_decide as Hn; [done|]. case_bool_decide as Heq; [|done]. case_bool_decide as Hv; [done|]. cbn.
    intros E. assert (check_event_and_writes seq envBytes block chdr (ccid_Name hid) (cca_Events act) rw = (code, None)) as Hw
      by (by injection E).
    apply check_event_and_writes_valid in Hw as (-> & Hev & Hnd & Hcc & Hns). split; [done|].
    exists hdr, chdr, ext, act, rw, (ccid_Name hid), rv. rewrite Ei, <- Heq in *. split_and!; done.
  - intros (-> & hdr & chdr & ext & act & rw & ccID & ver & Eh & Ec & Ee & Ea & Er & Ei & Hn & Ej & Hv & Hev & Hnd & Hcc & Hns).
    rewrite Eh. cbn. rewrite Ec, Ee, Ea, Er. destruct (che_ChaincodeId ext) as [hid|]; [|done]. injection Ei as Ei.
    rewrite Ej, Ei. cbn. rewrite !bool_decide_eq_false_2, bool_decide_eq_true_2 by done. cbn [negb].
    rewrite bool_decide_eq_false_2 by done. by rewrite (proj2 (check_event_and_writes_valid _ _ _ _ _ _ _ TxValidationCode_VALID)).
Qed.
End endorsement_theorems.

(** ** The block *)
Section block_theorems.
Context `{Codec} `{ProposalCodec} `{TxCodec} `{Membership} `{ValidatorResources} `{MapOrder}.

(** What each transaction of the block is validated to. *)
Definition results_of (block : Block) (data : list bytes) (rs : list blockValidationResult) : Prop :=
  length rs = length data ∧
  ∀ i d r, data !! i = Some d → rs !! i = Some r → validateTx block i (Some d) = Ok r.

Lemma run_validations_results block data rs arrival :
  results_of block data rs → (∀ i, i ∈ arrival → (i < length data)%nat) →
  run_validations arrival block data = Ok (omap (λ i, rs !! i) arrival).
Proof.
  intros [Hlen Hrs] Hin. unfold run_validations.
  enough (∀ acc, foldM (run_step block data) acc arrival = Ok (acc ++ omap (λ i, rs !! i) arrival)) as -> by done.
  induction arrival as [|i arrival IH]; intros acc; cbn [foldM omap list_omap]; [by rewrite app_nil_r|].
  assert (i < length data)%nat as Hi by (apply Hin; by left).
  destruct (lookup_lt_is_Some_2 data i Hi) as [d Hd]. rewrite <- Hlen in Hi.
  destruct (lookup_lt_is_Some_2 rs i Hi) as [r Hr]. unfold run_step at 1, index. rewrite Hd. go_simpl.
  rewrite (Hrs i d r Hd Hr). go_simpl. rewrite IH by set_solver. by rewrite Hr, <- app_assoc.
Qed.

(** C25: validating a block: whatever the order in which the goroutines finish, the
    caller gets the error of the first transaction that had one, or the block
    with every transaction's code as its flag, except that a valid transaction
    whose id an earlier valid one has is marked as a duplicate. *)
Theorem Validate_spec (arrival : list nat) (block : Block) (number : Z) (data : list bytes)
    (rs : list blockValidationResult) :
  blk_Number block = Some number → blk_Data block = Some data → results_of block data rs →
  arrival ≡ₚ seq 0 (length data) →
  Validate arrival block =
    match first_error rs with
    | Some e => Err e
    | None => Ok (set_Metadata block (<[BlockMetadataIndex_TRANSACTIONS_FILTER :=
                    bytes_of_flags (imap (final_flag rs) rs)]> (InitBlockMetadata (blk_Metadata block))))
    end.
Proof.
  intros En Ed Hrs Hp. unfold Validate. rewrite En, Ed. cbn [deref]. go_simpl.
  assert (∀ i, i ∈ arrival → (i < length data)%nat) as Hin.
  { intros i. rewrite Hp, elem_of_seq. lia. }
  rewrite (run_validations_results _ _ _ _ Hrs Hin). go_simpl. destruct Hrs as [Hlen Hrs].
  assert (∀ i r, rs !! i = Some r → res_tIdx r = i ∧ is_code (res_validationCode r)) as Hres.
  { intros i r Hr. apply lookup_lt_Some in Hr as Hi. rewrite Hlen in Hi.
    destruct (lookup_lt_is_Some_2 data i Hi) as [d Hd]. by eapply validateTx_result, Hrs. }
  destruct (receive_all rs arrival [] (mkCollected (NewFlags (length data)) (replicate (length data) "") None))
    as (c & Ec & Hc).
  - by apply collected_start.
  - intros i Hi%Hin. rewrite <- Hlen in Hi. destruct (lookup_lt_is_Some_2 rs i Hi) as [r Hr]. eauto.
  - rewrite Ec. go_simpl. rewrite <- Hlen in Hp.
    destruct (collected_done rs arrival c Hp Hc) as [Hf Hn]. rewrite Hf. destruct (c_err c) as [[e p]|]; [done|].
    destruct (Hn eq_refl) as [-> ->]. cbn [fmap option_fmap option_map]. rewrite marked_flags. go_simpl.
    rewrite allValidated_codes; [done|]. apply Forall_lookup. intros i r Hr. by eapply Hres.
Qed.

(** A result without error whose code is VALID. *)
Definition accepted (r : blockValidationResult) : Prop :=
  res_err r = None ∧ res_validationCode r = TxValidationCode_VALID.

(** What a valid endorser transaction at [i] is: well formed, new to the
    ledger, and endorsed for all it writes. *)
Definition valid_endorser_tx (block : Block) (i : nat) (d : bytes) (txid : string) : Prop :=
  ∃ env payload hdr chdr,
    unmarshal_Envelope d = Some env ∧ well_formed_tx env payload ∧ payload_Header payload = Some hdr ∧
    unmarshal_ChannelHeader (hdr_ChannelHeader hdr) = Some chdr ∧ chdr_TxId chdr = txid ∧
    TxIDExists txid = inl false ∧ endorsed_tx i payload d block.

Lemma validate_endorser_accepted block d i env payload chdr r :
  validate_endorser block d i env payload chdr = Ok r → accepted r →
  res_txid r = chdr_TxId chdr ∧ TxIDExists (chdr_TxId chdr) = inl false ∧ endorsed_tx i payload d block.
Proof.
  unfold validate_endorser, checkTxIdDupsLedger, accept. intros E [He Hc].
  destruct (TxIDExists _) as [[]|]; [by injection E as <-| |by injection E as <-].
  destruct (Dispatch i payload d block) as [[cde [err|]]| |] eqn:ED; cbn in E; [| |done..].
  - apply Dispatch_error_code in ED. destruct err; injection E as <-; done.
  - apply Dispatch_valid_iff in ED as [_ ED]. case_match; by injection E as <-.
Qed.

(** What a valid configuration transaction is: the channel took it. *)
Definition valid_config_tx (d : bytes) : Prop :=
  ∃ env payload hdr chdr conf, unmarshal_Envelope d = Some env ∧ well_formed_tx env payload ∧
    payload_Header payload = Some hdr ∧ unmarshal_ChannelHeader (hdr_ChannelHeader hdr) = Some chdr ∧
    chdr_Type chdr = HeaderType_CONFIG ∧ UnmarshalConfigEnvelope (payload_Data payload) = inl conf ∧ Apply conf = None.

Lemma validateTx_accepted block i d r :
  validateTx block i (Some d) = Ok r → accepted r →
  valid_endorser_tx block i d (res_txid r) ∨ valid_config_tx d ∧ res_txid r = "".
Proof.
  unfold validateTx. destruct (GetEnvelopeFromBlock d) as [env| |] eqn:Ee; [| |done].
  2: { intros [= <-] [_ Hc]. done. }
  apply decoded_Ok in Ee. destruct (ValidateTransaction (Some env)) as [[p code]| |] eqn:EV; [|done..].
  go_simpl. case_bool_decide as Hv; cbn [negb]; [|by intros [= <-] [_ ?]]. subst code.
  destruct p as [payload|]; [|done]. apply ValidateTransaction_sound in EV as Hwf. cbn [deref]. go_simpl.
  destruct (payload_Header payload) as [hdr|] eqn:Eh; [|done]. cbn [deref]. go_simpl.
  destruct (unmarshal_ChannelHeader _) as [chdr|] eqn:Ec; [|by intros [= <-] [_ ?]]. cbn [chainExists negb].
  case_bool_decide as Ht; [|case_bool_decide as Ht'; [|by intros [= <-] [_ ?]]].
  - intros E Ha. destruct (validate_endorser_accepted _ _ _ _ _ _ _ E Ha) as (Hid & Hl & Hend).
    left. exists env, payload, hdr, chdr. rewrite Hid. by split_and!.
  - intros E [He Hc]. injection E as <-. right. unfold validate_config, accept in *.
    destruct (UnmarshalConfigEnvelope _) as [conf|] eqn:Eu; [|done].
    destruct (Apply conf) eqn:Eap; [done|]. split; [|by case_match].
    exists env, payload, hdr, chdr, conf. by split_and!.
Qed.

(** The flags of a validated block. *)
Definition flags_in (block : Block) : ValidationFlags :=
  match blk_Metadata block with
  | Some md => flags_of_bytes (default "" (md !! BlockMetadataIndex_TRANSACTIONS_FILTER))
  | None => []
  end.

Lemma flags_in_insert block md fl :
  (BlockMetadataIndex_TRANSACTIONS_FILTER < length md)%nat → Forall (λ z, 0 ≤ z < 256)%Z fl →
  flags_in (set_Metadata block (<[BlockMetadataIndex_TRANSACTIONS_FILTER := bytes_of_flags fl]> md)) = fl.
Proof. intros Hl Hf. unfold flags_in. cbn [blk_Metadata set_Metadata]. rewrite list_lookup_insert_eq by done. by apply flags_roundtrip. Qed.

Lemma InitBlockMetadata_length md : (BlockMetadataIndex_TRANSACTIONS_FILTER < length (InitBlockMetadata md))%nat.
Proof.
  unfold InitBlockMetadata, BlockMetadataIndex_COMMIT_HASH, BlockMetadataIndex_TRANSACTIONS_FILTER.
  destruct md as [md|]; [|cbn; lia]. rewrite length_app, length_replicate. lia.
Qed.

Lemma run_validations_inv block data arrival rs0 :
  run_validations arrival block data = Ok rs0 →
  ∀ i d, i ∈ arrival → data !! i = Some d → ∃ r, validateTx block i (Some d) = Ok r.
Proof.
  unfold run_validations. generalize (@nil blockValidationResult).
  induction arrival as [|i arrival IH]; intros acc E j d Hj Hd; [by apply elem_of_nil in Hj|].
  cbn [foldM] in E. destruct (run_step block data acc i) as [acc'| |] eqn:Es; [|done..].
  apply elem_of_cons in Hj as [->|Hj]; [|by eapply IH].
  unfold run_step in Es. apply bind_Ok in Es as (d' & Ed' & Es). apply bind_Ok in Es as (r & Er & _).
  unfold index in Ed'. rewrite Hd in Ed'. injection Ed' as <-. eauto.
Qed.

Lemma results_exist block data :
  (∀ i d, data !! i = Some d → ∃ r, validateTx block i (Some d) = Ok r) → ∃ rs, results_of block data rs.
Proof.
  unfold results_of. induction data as [|d data IH] using rev_ind; intros Hall; [by exists []|].
  destruct IH as (rs & Hlen & Hrs).
  { intros i d' Hi. apply Hall. by apply lookup_app_l_Some. }
  destruct (Hall (length data) d) as [r Hr]; [by apply list_lookup_middle|].
  exists (rs ++ [r]). split; [by rewrite !length_app, Hlen|]. intros i d' r' Hd Hr'.
  apply lookup_snoc_Some in Hd as [[Hi Hd]|[-> <-]].
  - rewrite lookup_app_l in Hr' by lia. by eapply Hrs.
  - rewrite <- Hlen, list_lookup_middle in Hr' by done. by injection Hr' as <-.
Qed.

(** The flags determine the accepted results, once for each id. *)
Lemma final_flag_valid rs i r :
  final_flag rs i r = TxValidationCode_VALID →
  res_validationCode r = TxValidationCode_VALID ∧
  (res_txid r ≠ "" → existsb (valid_with (res_txid r)) (take i rs) = false).
Proof.
  unfold final_flag. destruct (_ && _ && _) eqn:E; [done|]. intros Hv. split; [done|]. intros Hne.
  unfold valid_with in E at 1. rewrite (bool_decide_eq_true_2 (_ = _)), !(bool_decide_eq_true_2 (_ = _)) in E by done.
  by rewrite bool_decide_eq_false_2 in E.
Qed.

Lemma valid_once rs i j r r' :
  rs !! i = Some r → rs !! j = Some r' → res_txid r = res_txid r' → res_txid r ≠ "" →
  final_flag rs i r = TxValidationCode_VALID → final_flag rs j r' = TxValidationCode_VALID → (j ≤ i)%nat.
Proof.
  intros Hr Hr' Eid Hne [Hv _]%final_flag_valid [_ Hno]%final_flag_valid. rewrite Eid in Hne. specialize (Hno Hne).
  destruct (decide (j ≤ i)%nat) as [|Hgt]; [done|]. apply not_true_iff_false in Hno as []. apply existsb_exists.
  exists r. split.
  - apply list_elem_of_In, list_elem_of_lookup. exists i. rewrite lookup_take_lt by lia. done.
  - unfold valid_with. by rewrite !bool_decide_eq_true_2.
Qed.

Lemma Validate_results arrival block block' data :
  Validate arrival block = Ok block' → blk_Data block = Some data → arrival ≡ₚ seq 0 (length data) →
  ∃ rs, results_of block data rs ∧ flags_in block' = imap (final_flag rs) rs ∧ ∀ r, r ∈ rs → res_err r = None.
Proof.
  intros E Ed Hp. destruct (blk_Number block) as [number|] eqn:En; [|unfold Validate in E; by rewrite En in E].
  assert (∃ rs, results_of block data rs) as [rs Hrs].
  { apply results_exist. intros i d Hd. unfold Validate in E. rewrite En, Ed in E. cbn [deref] in E.
    apply bind_Ok in E as (? & [= <-] & E). apply bind_Ok in E as (? & [= <-] & E). apply bind_Ok in E as (rs0 & E & _).
    eapply run_validations_inv; [done| |done]. rewrite Hp. apply elem_of_seq. apply lookup_lt_Some in Hd. lia. }
  exists rs. rewrite (Validate_spec _ _ _ _ _ En Ed Hrs Hp) in E. destruct (first_error rs) eqn:Ef; [done|].
  injection E as <-. split_and!; [done| |].
  - apply flags_in_insert; [apply InitBlockMetadata_length|]. apply Forall_lookup. intros i z Hz.
    rewrite list_lookup_imap in Hz. destruct (rs !! i) as [r|] eqn:Hr; [|done]. injection Hz as <-.
    destruct Hrs as [Hlen Hrs]. apply lookup_lt_Some in Hr as Hi. rewrite Hlen in Hi.
    destruct (lookup_lt_is_Some_2 data i Hi) as [d Hd]. eapply final_flag_code, validateTx_result. by eapply Hrs.
  - intros r Hr. destruct (res_err r) as [e|] eqn:He; [|done]. exfalso.
    apply list_elem_of_In in Hr. unfold first_error in Ef. clear -Ef Hr He.
    induction rs as [|r0 rs IH]; [done|]. cbn in Ef. destruct Hr as [->|Hr]; [by rewrite He in Ef|].
    destruct (res_err r0); [done|]. auto.
Qed.

Lemma valid_flag_sound arrival block block' data i d :
  Validate arrival block = Ok block' → blk_Data block = Some data → arrival ≡ₚ seq 0 (length data) →
  data !! i = Some d → flags_in block' !! i = Some TxValidationCode_VALID →
  (∃ txid, valid_endorser_tx block i d txid) ∨ valid_config_tx d.
Proof.
  intros E Ed Hp Hd Hf. destruct (Validate_results _ _ _ _ E Ed Hp) as (rs & [Hlen Hrs] & Efl & Hne).
  rewrite Efl, list_lookup_imap in Hf. destruct (rs !! i) as [r|] eqn:Hr; [|done]. injection Hf as [Hv _]%final_flag_valid.
  destruct (validateTx_accepted block i d r) as [?|[? _]]; [by eapply Hrs| |by eauto|by right].
  split; [|done]. apply Hne, list_elem_of_lookup. eauto.
Qed.

(** C10: what the flags of a validated block promise, in whatever order the
    transactions were validated: one flagged VALID is a configuration the channel
    took, or an endorser transaction that is well formed, signed by its creator,
    new to the ledger, endorsed for every namespace it writes, and the only valid
    one of the block with its id. *)
Theorem validated_block_sound (arrival : list nat) (block block' : Block) (data : list bytes) :
  Validate arrival block = Ok block' → blk_Data block = Some data → arrival ≡ₚ seq 0 (length data) →
  length (flags_in block') = length data ∧
  ∃ txids, length txids = length data ∧
    (∀ i d txid, data !! i = Some d → txids !! i = Some txid → flags_in block' !! i = Some TxValidationCode_VALID →
       valid_endorser_tx block i d txid ∨ valid_config_tx d ∧ txid = "") ∧
    (∀ i j txid, txids !! i = Some txid → txids !! j = Some txid → txid ≠ "" →
       flags_in block' !! i = Some TxValidationCode_VALID → flags_in block' !! j = Some TxValidationCode_VALID → i = j).
Proof.
  intros E Ed Hp. destruct (Validate_results _ _ _ _ E Ed Hp) as (rs & [Hlen Hrs] & -> & Hne).
  split; [by rewrite length_imap|]. exists (res_txid <$> rs). split; [by rewrite length_fmap|]. split.
  - intros i d txid Hd Ht Hf. rewrite list_lookup_fmap in Ht. rewrite list_lookup_imap in Hf.
    destruct (rs !! i) as [r|] eqn:Hr; [|done]. injection Ht as <-. injection Hf as [Hv _]%final_flag_valid.
    eapply validateTx_accepted; [by eapply Hrs|]. split; [|done]. apply Hne, list_elem_of_lookup. eauto.
  - intros i j txid Hi Hj Hn Hfi Hfj. rewrite list_lookup_fmap in Hi, Hj. rewrite list_lookup_imap in Hfi, Hfj.
    destruct (rs !! i) as [r|] eqn:Hr; [|done]. destruct (rs !! j) as [r'|] eqn:Hr'; [|done].
    injection Hi as <-. injection Hj as Ej. injection Hfi as Hfi. injection Hfj as Hfj.
    assert (j ≤ i)%nat by (eapply (valid_once rs i j r r'); done). 
    assert (i ≤ j)%nat by (eapply (valid_once rs j i r' r); [done..|by rewrite Ej|done|done]). lia.
Qed.
End block_theorems.

(** ** A concrete block: a good transaction, a forged one, the good one again *)
#[local] Existing Instances ex_codec ex_proposal_codec ex_tx_codec ex_membership sorted_map_order.
#[local] Instance ex_resources : ValidatorResources := {|
  ConfigEnvelope := ();
  UnmarshalConfigEnvelope _ := inl ();
  Apply _ := None;
  TxIDExists _ := inl false;
  NewQueryExecutor := None;
  ValidationInfo _ _ := ValidationInfo_found "vscc" "policy";
  ValidateWithPlugin _ := PluginAccepts;
  unmarshal_ChaincodeEvent _ := None;
  marshal_Envelope _ := inl "E"
|}.
Definition ex_block : Block := mkBlock (Some 7%Z) (Some ["E"; "F"; "E"]) None.
Definition ex_results : list blockValidationResult :=
  [mkResult 0 TxValidationCode_VALID None "nalice"; code_result 1 TxValidationCode_BAD_CREATOR_SIGNATURE;
   mkResult 2 TxValidationCode_VALID None "nalice"].

Lemma ex_results_of : results_of ex_block ["E"; "F"; "E"] ex_results.
Proof.
  split; [done|]. intros i d r Hd Hr. destruct i as [|[|[|i]]]; simplify_eq/=; try (vm_compute; reflexivity).
Qed.

Definition ex_validated : Block :=
  mkBlock (Some 7%Z) (Some ["E"; "F"; "E"])
    (Some [""; ""; bytes_of_flags [TxValidationCode_VALID; TxValidationCode_BAD_CREATOR_SIGNATURE;
                                   TxValidationCode_DUPLICATE_TXID]; ""; ""]).

Lemma ex_arrival : [2; 0; 1] ≡ₚ seq 0 3.
Proof. cbn. apply (Permutation_middle [0; 1] [] 2). Qed.

Lemma Validate_spec_witness : Validate [2; 0; 1] ex_block = Ok ex_validated.
Proof.
  rewrite (Validate_spec [2; 0; 1] ex_block 7 ["E"; "F"; "E"] ex_results eq_refl eq_refl ex_results_of ex_arrival).
  vm_compute. reflexivity.
Defined.

Lemma validated_block_sound_witness :
  length (flags_in ex_validated) = 3 ∧ ∃ txid, valid_endorser_tx ex_block 0 "E" txid ∨ valid_config_tx "E" ∧ txid = "".
Proof.
  destruct (validated_block_sound [2; 0; 1] ex_block ex_validated ["E"; "F"; "E"]) as (Hl & txids & Hlen & Hv & _);
    [vm_compute; reflexivity|reflexivity|exact ex_arrival|].
  split; [done|]. destruct txids as [|txid txids]; [done|]. exists txid. by apply (Hv 0).
Defined.
