(* ===== verification/BlockFlow.v ===== *)
(** * BlockFlow: a block from gossip to the ledger (gossip/privdata/coordinator.go)

    [StoreBlock] validates a block, which writes a flag for each transaction
    into its metadata, fetches its private data and hands it to the committer.
    Fetching private data is an argument. The theorem at the end composes the
    transaction validator with the committer's graph processing. *)

From S2P Require Import Prelude GoText DepInfo TxDag Protos TxFlags RwConflict Committer CommitterSpec.
From S2P Require Import Utf8 Base64 Proposal ProtoUtil RwSetUtil MsgValidation TxValidator.

Section coordinator.
Context `{Codec} `{ProposalCodec} `{TxCodec} `{Membership} `{ValidatorResources} `{MapOrder}.
Context {L Pvt Opts : Type} (ledger_CommitLegacy : L → Block → Pvt → Opts → L * option string).
Context (DoesPvtDataInfoExistInLedger : L → Z → bool + string) (retrievePvtdata : Block → Pvt + string).
Context (noPvtData : Pvt) (FetchPvtDataFromLedger noOptions : Opts).

(** The ledger afterwards, and the result. *)
Definition StoreBlock (arrival : list nat) (l : L) (block : Block) : L * outcome unit :=
  match blk_Data block, blk_Number block with
  | None, _ => (l, Err "Block data is empty")
  | _, None => (l, Err "Block header is nil")
  | Some _, Some number =>
      match Validate arrival block with
      | Err e => (l, Err e)
      | Panic p => (l, Panic p)
      | Ok block =>
          match DoesPvtDataInfoExistInLedger l number with
          | inr e => (l, Err e)
          | inl true =>
              let '(l', _, r) := CommitLegacy ledger_CommitLegacy l block noPvtData FetchPvtDataFromLedger in (l', r)
          | inl false =>
              match retrievePvtdata block with
              | inr e => (l, Err e)
              | inl pvtdata =>
                  let '(l', _, r) := CommitLegacy ledger_CommitLegacy l block pvtdata noOptions in
                  (l', with_message "commit failed" r)
              end
          end
      end
  end.
End coordinator.

(** ** Lemmas *)
Section lemmas.
Context `{Codec} `{ProposalCodec} `{TxCodec} `{MapOrder}.

(** Validation only writes the filter slot. *)
Lemma Validate_metadata `{Membership} `{ValidatorResources} arrival block block' :
  Validate arrival block = Ok block' →
  ∃ codes, block' = set_Metadata (set_Metadata block (InitBlockMetadata (blk_Metadata block)))
    (<[BlockMetadataIndex_TRANSACTIONS_FILTER := codes]> (InitBlockMetadata (blk_Metadata block))).
Proof.
  unfold Validate. intros E. ok_inv. destruct (c_err _) as [[e p]|]; [done|]. ok_inv. injection E as <-. by eexists.
Qed.

(** The graph processing reads the flags of no block. *)
Lemma validated_block_codes block md codes dag :
  (BlockMetadataIndex_TRANSACTIONS_FILTER < length md)%nat →
  validated_block (set_Metadata block (<[BlockMetadataIndex_TRANSACTIONS_FILTER := codes]> md)) dag =
  validated_block (set_Metadata block md) dag.
Proof.
  intros Hlen. unfold validated_block. cbn [blk_Data blk_Metadata set_Metadata].
  destruct (blk_Data block) as [data|]; [|done]. cbn [deref]. go_simpl.
  destruct (process_levels data dag) as [D| |]; [|done..].
  destruct (tx_filter D (length data)) as [fl| |]; [|done..].
  unfold update_metadata. rewrite length_insert.
  destruct (Nat.leb_spec (length md) BlockMetadataIndex_TRANSACTIONS_FILTER) as [|_]; [lia|].
  rewrite length_insert. destruct (Nat.ltb_spec BlockMetadataIndex_TRANSACTIONS_FILTER (length md)) as [_|]; [|lia].
  by rewrite list_insert_insert_eq.
Qed.

Lemma BuildDAG_metadata block md : BuildDAGFromBlock (set_Metadata block md) = BuildDAGFromBlock block.
Proof. done. Qed.

(** What the ledger is called with does not depend on the flags. *)
Lemma CommitLegacy_codes {L Pvt Opts} (ledger : L → Block → Pvt → Opts → L * option string) l block md codes codes' dag bc pvt opts :
  (BlockMetadataIndex_TRANSACTIONS_FILTER < length md)%nat → is_Some (blk_Number block) →
  BuildDAGFromBlock block = Ok dag → validated_block (set_Metadata block md) dag = Ok bc →
  CommitLegacy ledger l (set_Metadata block (<[BlockMetadataIndex_TRANSACTIONS_FILTER := codes]> md)) pvt opts =
  CommitLegacy ledger l (set_Metadata block (<[BlockMetadataIndex_TRANSACTIONS_FILTER := codes']> md)) pvt opts.
Proof.
  intros Hlen [number En] Hdag Hbc. unfold CommitLegacy, processBlockWithDAG. rewrite !BuildDAG_metadata.
  rewrite Hdag, !validated_block_codes, Hbc by done. cbn [blk_Number set_Metadata].
  by rewrite En.
Qed.
End lemmas.

(** ** The verdict of the transaction validator *)


(** The good and the forged transaction of the validator's example, under an
    encoding in which the committer reads a successful action: one peer rejects
    the second, the other accepts it, and both commit it as valid. *)
#[local] Instance flow_codec : Codec := {|
  unmarshal_Envelope := @unmarshal_Envelope ex_codec;
  unmarshal_Payload := @unmarshal_Payload ex_codec;
  unmarshal_ChannelHeader := @unmarshal_ChannelHeader ex_codec;
  unmarshal_Transaction := @unmarshal_Transaction ex_codec;
  unmarshal_ChaincodeAction _ := Some toy_action;
  unmarshal_TxReadWriteSet := @unmarshal_TxReadWriteSet ex_codec;
  unmarshal_KVRWSet _ := None;
  unmarshal_HashedRWSet _ := None
|}.
#[local] Existing Instances ex_proposal_codec ex_tx_codec sorted_map_order.

Definition gullible : Membership := {| GetIdentityDeserializer _ := Some (λ _, Ok (mkIdentity "org1" (Ok ()) (λ _ _, Ok ()))) |}.
Definition flow_block : Block := mkBlock (Some 7%Z) (Some ["E"; "F"]) None.
Definition flow_store (M : Membership) : list ValidationFlags * outcome () :=
  @StoreBlock _ _ _ M ex_resources _ _ _ _ (λ l b (_ _ : ()), (l ++ [flags_in b], None)) (λ _ _, inl true) (λ _, inl ())
    () () () [1; 0] [] flow_block.

