(* ===== verification/Policy.v ===== *)
(** * Policy: signature policies and implicit meta policies
      (common/cauthdsl/cauthdsl.go, policy.go; common/policies/policy.go, implicitmeta.go;
      core/policy/application.go)

    A signature policy is a tree of gates over principals; evaluation goes
    through the signers greedily, each signer counting once. Identities and the
    decoding of policies are parameters. *)

From S2P Require Import Prelude GoText Protos Proposal ProtoUtil.

Record MSPPrincipal := mkMSPPrincipal { mp_PrincipalClassification : Z; mp_Principal : bytes }.

(** [msp.Identity]: its identifier and the two checks policies use. *)
Record MspIdentity := mkMspIdentity {
  mi_Mspid : string;
  mi_Id : string;
  mi_SatisfiesPrincipal : MSPPrincipal → bool;
  mi_Verify : bytes → bytes → bool
}.

(** [common.SignaturePolicy]; a rule that sets no type is [NoType]. *)
Inductive SignaturePolicy :=
| SignedBy (i : Z)
| NOutOf (n : Z) (rules : list SignaturePolicy)
| NoType.

Record SignaturePolicyEnvelope := mkSignaturePolicyEnvelope {
  spe_Version : Z;
  spe_Rule : option SignaturePolicy;
  spe_Identities : list MSPPrincipal
}.

(** A compiled policy: whether the identities satisfy it, and which of them are
    used afterwards. *)
Definition evaluator : Type := list MspIdentity → list bool → bool * list bool.

(** ** cauthdsl *)

(** The first unused identity that satisfies the principal. [used] has one
    flag for each identity. *)
Fixpoint signed_by (principal : MSPPrincipal) (signedData : list MspIdentity) (used : list bool) : bool * list bool :=
  match signedData, used with
  | sd :: signedData, u :: used =>
      if negb u && mi_SatisfiesPrincipal sd principal then (true, true :: used)
      else let '(b, used') := signed_by principal signedData used in (b, u :: used')
  | _, _ => (false, used)
  end.

Definition gate_step (signedData : list MspIdentity) (st : Z * list bool) (policy : evaluator) : Z * list bool :=
  let '(verified, used) := st in
  let '(b, _used) := policy signedData used in
  if b then ((verified + 1)%Z, _used) else (verified, used).

Definition gate (n : Z) (policies : list evaluator) : evaluator := λ signedData used,
  let '(verified, used) := foldl (gate_step signedData) (0%Z, used) policies in
  ((n <=? verified)%Z, used).

Fixpoint compile_rule (policy : SignaturePolicy) (identities : list MSPPrincipal) : outcome evaluator :=
  match policy with
  | NOutOf n rules =>
      policies ← (fix go rules : outcome (list evaluator) :=
        match rules with
        | [] => Ok []
        | p :: rest => c ← compile_rule p identities; cs ← go rest; Ok (c :: cs)
        end) rules;
      Ok (gate n policies)
  | SignedBy i =>
      if (i <? 0)%Z || (Z.of_nat (length identities) <=? i)%Z
      then Err ("identity index out of range, requested " +:+ format_int i)
      else signedByID ← index identities (Z.to_nat i); Ok (signed_by signedByID)
  | NoType => Err "Unknown type"
  end.

Definition compile (policy : option SignaturePolicy) (identities : list MSPPrincipal) : outcome evaluator :=
  match policy with
  | None => Err "Empty policy element"
  | Some p => compile_rule p identities
  end.

(** Both providers. *)
Definition provider_NewPolicy (unmarshal : bytes → option SignaturePolicyEnvelope) (data : bytes) : outcome evaluator :=
  sigPolicy ← from_option_err "Error unmarshalling to SignaturePolicy" (unmarshal data);
  if negb (spe_Version sigPolicy =? 0)%Z then Err "This evaluator only understands messages of version 0"
  else compile (spe_Rule sigPolicy) (spe_Identities sigPolicy).

Definition envelope_NewPolicy (sigPolicy : option SignaturePolicyEnvelope) : outcome evaluator :=
  sigPolicy ← from_option_err "invalid arguments" sigPolicy;
  compile (spe_Rule sigPolicy) (spe_Identities sigPolicy).

Definition EvaluateIdentities (p : evaluator) (identities : list MspIdentity) : outcome unit :=
  if (p identities (replicate (length identities) false)).1 then Ok ()
  else Err "signature set did not satisfy policy".

(** ** policies *)
Definition identity_key (i : MspIdentity) : string := mi_Mspid i +:+ mi_Id i.

Fixpoint valid_identities (deserialize : bytes → option MspIdentity) (idMap : gset string) (signedData : list SignedData)
    : list MspIdentity :=
  match signedData with
  | [] => []
  | sd :: rest =>
      match deserialize (sd_Identity sd) with
      | None => valid_identities deserialize idMap rest
      | Some id =>
          if bool_decide (identity_key id ∈ idMap) then valid_identities deserialize idMap rest
          else if mi_Verify id (sd_Data sd) (sd_Signature sd)
          then id :: valid_identities deserialize ({[identity_key id]} ∪ idMap) rest
          else valid_identities deserialize idMap rest
      end
  end.

Definition SignatureSetToValidIdentities (signedData : list SignedData) (deserialize : bytes → option MspIdentity)
    : list MspIdentity :=
  valid_identities deserialize ∅ signedData.

Definition EvaluateSignedData (deserialize : bytes → option MspIdentity) (p : evaluator) (signatureSet : list SignedData)
    : outcome unit :=
  EvaluateIdentities p (SignatureSetToValidIdentities signatureSet deserialize).

(** [ManagerImpl.GetPolicy], of the manager at [path]: [None] stands for the
    policy that rejects everything. Slicing past the end of the id panics. *)
Definition slice_from (s : string) (i : nat) : outcome string :=
  if (i <=? String.length s)%nat then Ok (String.substring i (String.length s - i) s)
  else Panic "slice bounds out of range".

Definition GetPolicy {P} (path : string) (policies : gmap string P) (id : string) : outcome (option P) :=
  if bool_decide (id = "") then Ok None
  else if String.prefix "/" id then
    if negb (String.prefix ("/" +:+ path) id) then Ok None
    else relpath ← slice_from id (1 + String.length path + 1); Ok (policies !! relpath)
  else Ok (policies !! id).

(** ** Implicit meta policies

    A sub-policy is the function that evaluates it on the signatures (or on
    the identities) [A]: it returns no error, or one. A manager without the
    policy supplies the one that rejects everything. *)
Section implicit_meta.
Context {A : Type}.

Record ImplicitMetaPolicy := mkImplicitMetaPolicy {
  imp_Threshold : Z;
  imp_SubPolicies : list (A → option string)
}.

Inductive Rule := Rule_ANY | Rule_ALL | Rule_MAJORITY | Rule_other (n : Z).

(** [subPolicies] are the policies the managers have, in the order of the map. *)
Definition NewImplicitMetaPolicy (rule : Rule) (subPolicies : list (A → option string)) : ImplicitMetaPolicy :=
  let n := Z.of_nat (length subPolicies) in
  let threshold := match rule with
                   | Rule_ANY => 1
                   | Rule_ALL => n
                   | Rule_MAJORITY => Z.quot n 2 + 1
                   | Rule_other _ => 0
                   end%Z in
  mkImplicitMetaPolicy (if (n =? 0)%Z then 0 else threshold)%Z subPolicies.

(** True when the loop returns before its end. *)
Fixpoint meta_loop (x : A) (policies : list (A → option string)) (remaining : Z) : bool * Z :=
  match policies with
  | [] => (false, remaining)
  | policy :: rest =>
      match policy x with
      | None => if (remaining - 1 =? 0)%Z then (true, 0%Z) else meta_loop x rest (remaining - 1)
      | Some _ => meta_loop x rest remaining
      end
  end.

Definition meta_Evaluate (imp : ImplicitMetaPolicy) (x : A) : outcome unit :=
  let '(returned, remaining) := meta_loop x (imp_SubPolicies imp) (imp_Threshold imp) in
  if returned then Ok ()
  else if (remaining =? 0)%Z then Ok ()
  else Err ("implicit policy evaluation failed - " +:+ format_int (imp_Threshold imp - remaining)
            +:+ " sub-policies were satisfied").
End implicit_meta.

(** ** ApplicationPolicyEvaluator *)
Inductive ApplicationPolicy :=
| AP_SignaturePolicy (p : option SignaturePolicyEnvelope)
| AP_ChannelConfigPolicyReference (name : string)
| AP_None.

Section application.
Context (unmarshal_ApplicationPolicy : bytes → option ApplicationPolicy).
Context (deserialize : bytes → option MspIdentity) (GetPolicy : string → option (list SignedData → outcome unit)).

Definition evaluateSignaturePolicy (signaturePolicy : option SignaturePolicyEnvelope) (signatureSet : list SignedData)
    : outcome unit :=
  p ← with_message "could not create evaluator for signature policy" (envelope_NewPolicy signaturePolicy);
  EvaluateSignedData deserialize p signatureSet.

Definition evaluateChannelConfigPolicyReference (name : string) (signatureSet : list SignedData) : outcome unit :=
  p ← with_message "could not create evaluator for channel reference policy"
    (from_option_err ("failed to retrieve policy for reference " +:+ name) (GetPolicy name));
  p signatureSet.

Definition application_Evaluate (policyBytes : bytes) (signatureSet : list SignedData) : outcome unit :=
  p ← from_option_err "failed to unmarshal ApplicationPolicy bytes" (unmarshal_ApplicationPolicy policyBytes);
  match p with
  | AP_SignaturePolicy policy => evaluateSignaturePolicy policy signatureSet
  | AP_ChannelConfigPolicyReference name => evaluateChannelConfigPolicyReference name signatureSet
  | AP_None => Err "unsupported policy type"
  end.
End application.

(** ** Which signers satisfy a policy *)

(** [satisfied_by principals ids p S]: the identities at the positions [S], each
    for one leaf, satisfy the policy; of the rules of a gate, [count] are
    satisfied by disjoint sets of identities. *)
Inductive satisfied_by (principals : list MSPPrincipal) (ids : list MspIdentity) : SignaturePolicy → gset nat → Prop :=
| sat_signed i principal k id :
    (0 ≤ i)%Z → principals !! Z.to_nat i = Some principal → ids !! k = Some id →
    mi_SatisfiesPrincipal id principal = true →
    satisfied_by principals ids (SignedBy i) {[k]}
| sat_n_out_of n rules count S :
    (n ≤ Z.of_nat count)%Z → satisfied_rules principals ids rules count S →
    satisfied_by principals ids (NOutOf n rules) S
with satisfied_rules (principals : list MSPPrincipal) (ids : list MspIdentity) : list SignaturePolicy → nat → gset nat → Prop :=
| sat_nil : satisfied_rules principals ids [] 0 ∅
| sat_skip p rules count S :
    satisfied_rules principals ids rules count S → satisfied_rules principals ids (p :: rules) count S
| sat_take p rules count S1 S2 :
    satisfied_by principals ids p S1 → satisfied_rules principals ids rules count S2 → S1 ## S2 →
    satisfied_rules principals ids (p :: rules) (S count) (S1 ∪ S2).

(** Induction on policies, with the hypothesis for every rule of a gate. *)
Lemma policy_ind (P : SignaturePolicy → Prop) :
  (∀ i, P (SignedBy i)) → (∀ n rules, Forall P rules → P (NOutOf n rules)) → P NoType → ∀ p, P p.
Proof.
  intros Hs Hn H0. fix IH 1. intros [i|n rules|]; [apply Hs| |apply H0]. apply Hn.
  induction rules as [|p rules IHr]; constructor; [apply IH|apply IHr].
Qed.

(** The positions of the flags that are set. *)
Definition used_set (used : list bool) : gset nat := list_to_set (fst <$> filter (λ x, x.2 = true) (imap pair used)).

Lemma elem_of_used used k : k ∈ used_set used ↔ used !! k = Some true.
Proof.
  unfold used_set. rewrite elem_of_list_to_set, list_elem_of_fmap. split.
  - intros ([j b] & -> & [Hb Hin]%list_elem_of_filter). cbn in *. subst b.
    apply elem_of_lookup_imap in Hin as (i & x & [= -> ->] & Hx). done.
  - intros Hk. exists (k, true). split; [done|]. apply list_elem_of_filter. split; [done|].
    apply elem_of_lookup_imap. eauto.
Qed.

Lemma signed_by_true principal ids used used' :
  signed_by principal ids used = (true, used') →
  ∃ k id, ids !! k = Some id ∧ mi_SatisfiesPrincipal id principal = true ∧ used !! k = Some false ∧
    used' = <[k := true]> used.
Proof.
  revert used used'. induction ids as [|id ids IH]; intros [|u used] used'; cbn; try done.
  destruct (negb u && mi_SatisfiesPrincipal id principal) eqn:E.
  - intros [= <-]. apply andb_true_iff in E as [Hu Hs]. destruct u; [done|]. by exists 0, id.
  - destruct (signed_by principal ids used) as [b used2] eqn:Eb. intros [= -> <-].
    destruct (IH _ _ Eb) as (k & id' & Hk & Hs & Hu & ->). by exists (S k), id'.
Qed.

Lemma signed_by_false principal ids used :
  length used = length ids → (signed_by principal ids used).1 = false →
  ∀ k id, ids !! k = Some id → used !! k = Some false → mi_SatisfiesPrincipal id principal = false.
Proof.
  revert used. induction ids as [|id ids IH]; intros [|u used] Hlen E k id' Hk Hu; try done. cbn in *.
  destruct (negb u && mi_SatisfiesPrincipal id principal) eqn:Es; [done|].
  destruct (signed_by principal ids used) as [b used2] eqn:Eb. cbn in E. destruct k as [|k].
  - injection Hk as ->. injection Hu as ->. done.
  - apply (IH used) with k; [lia| |done..]. by rewrite Eb.
Qed.

Lemma used_insert used k : used !! k = Some false → used_set (<[k := true]> used) = {[k]} ∪ used_set used ∧ k ∉ used_set used.
Proof.
  intros Hk. apply lookup_lt_Some in Hk as Hlt. split.
  - apply set_eq. intros j. rewrite elem_of_union, elem_of_singleton, !elem_of_used.
    destruct (decide (j = k)) as [->|Hj]; [rewrite list_lookup_insert_eq by done; naive_solver|].
    rewrite list_lookup_insert_ne by done. naive_solver.
  - rewrite elem_of_used. congruence.
Qed.

Fixpoint compile_rules (rules : list SignaturePolicy) (identities : list MSPPrincipal) : outcome (list evaluator) :=
  match rules with
  | [] => Ok []
  | p :: rest => c ← compile_rule p identities; cs ← compile_rules rest identities; Ok (c :: cs)
  end.

Lemma compile_NOutOf n rules identities :
  compile_rule (NOutOf n rules) identities = (policies ← compile_rules rules identities; Ok (gate n policies)).
Proof.
  cbn [compile_rule]. match goal with |- ?f rules ≫= _ = _ => enough (f rules = compile_rules rules identities) as -> by done end.
  induction rules as [|p rules IH]; [done|]. cbn [compile_rules]. by rewrite <- IH.
Qed.

Lemma compile_rules_Ok rules identities policies :
  compile_rules rules identities = Ok policies ↔ Forall2 (λ p ev, compile_rule p identities = Ok ev) rules policies.
Proof.
  revert policies. induction rules as [|p rules IH]; intros policies; cbn [compile_rules].
  - split; [intros [= <-]; constructor|]. by intros ->%Forall2_nil_inv_l.
  - split.
    + intros E. apply bind_Ok in E as (c & Hc & E). apply bind_Ok in E as (cs & Hcs & E). injection E as <-.
      constructor; [done|]. by apply IH.
    + intros (ev & evs & Hev & Hevs & ->)%Forall2_cons_inv_l. rewrite Hev. apply IH in Hevs. go_simpl. by rewrite Hevs.
Qed.

(** ** Evaluation is sound *)
Section evaluation.
Context (principals : list MSPPrincipal) (ids : list MspIdentity).

(** An evaluator only marks identities that satisfy its policy. *)
Definition evaluator_sound (p : SignaturePolicy) (ev : evaluator) : Prop :=
  ∀ used b used', length used = length ids → ev ids used = (b, used') →
    length used' = length ids ∧
    (b = true → ∃ S, satisfied_by principals ids p S ∧ S ## used_set used ∧ used_set used' = S ∪ used_set used).

Lemma gate_sound rules policies used v v' used' :
  Forall2 evaluator_sound rules policies → length used = length ids →
  foldl (gate_step ids) (v, used) policies = (v', used') →
  length used' = length ids ∧
  ∃ count S, satisfied_rules principals ids rules count S ∧ v' = (v + Z.of_nat count)%Z ∧
    S ## used_set used ∧ used_set used' = S ∪ used_set used.
Proof.
  intros Hs. revert used v. induction Hs as [|p ev rules policies Hp Hs IH]; intros used v Hlen E; cbn in E.
  - injection E as <- <-. split; [done|]. exists 0, ∅. split_and!; [constructor|lia|clear; set_solver..].
  - destruct (ev ids used) as [b used1] eqn:Ev. destruct (Hp _ _ _ Hlen Ev) as [Hl1 Hb]. destruct b.
    + destruct (Hb eq_refl) as (S1 & Hsat & Hdisj & Eq1).
      destruct (IH _ _ Hl1 E) as (Hl' & count & S2 & Hr & Hv & Hd2 & Eq2). split; [done|].
      rewrite Eq1 in Hd2, Eq2. exists (S count), (S1 ∪ S2). split_and!; [|lia|clear -Hdisj Hd2; set_solver|].
      * constructor; [done..|clear -Hd2; set_solver].
      * rewrite Eq2. clear. set_solver.
    + destruct (IH _ _ Hlen E) as (Hl' & count & S2 & Hr & Hv & Hd2 & Eq2). split; [done|].
      exists count, S2. split_and!; [by constructor|done..].
Qed.

Lemma compile_sound p ev : compile_rule p principals = Ok ev → evaluator_sound p ev.
Proof.
  revert ev. induction p as [i|n rules IH|] using policy_ind; intros ev E.
  - cbn in E. destruct ((i <? 0)%Z || (Z.of_nat (length principals) <=? i)%Z) eqn:Hi; [done|].
    apply bind_Ok in E as (pr & Hpr & [= <-]). unfold index in Hpr.
    destruct (principals !! Z.to_nat i) as [pr'|] eqn:Epr; [|done]. injection Hpr as ->.
    intros used b used' Hlen Eb. split.
    { revert used used' Hlen Eb. induction ids as [|id ids' IHi]; intros [|u used] used' Hlen Eb; simplify_eq/=; try done.
      case_match; simplify_eq/=; [lia|]. destruct (signed_by pr ids' used) as [b2 used2] eqn:E2. simplify_eq/=.
      f_equal. eapply IHi; [|done]. lia. }
    intros ->. destruct (signed_by_true _ _ _ _ Eb) as (k & id & Hk & Hs & Hu & ->).
    destruct (used_insert _ _ Hu) as [Eu Hnin]. exists {[k]}. split_and!; [|clear -Hnin; set_solver|done].
    apply orb_false_iff in Hi as [Hi _]. econstructor; [lia|done..].
  - rewrite compile_NOutOf in E. apply bind_Ok in E as (policies & Hp%compile_rules_Ok & [= <-]).
    intros used b used' Hlen. unfold gate.
    destruct (foldl (gate_step ids) (0%Z, used) policies) as [v used2] eqn:Ef. intros [= <- <-].
    eapply gate_sound in Ef as (Hl & count & S & Hr & -> & Hd & Eq); [|..|done].
    + split; [done|]. intros Hn. exists S. split_and!; [|done..]. econstructor; [|done]. lia.
    + clear -IH Hp. induction Hp; inversion IH; subst; constructor; auto.
  - done.
Qed.
End evaluation.

(** Evaluation accepts only signers that satisfy the policy, every one of them
    counted for one leaf of the tree. *)
Theorem evaluation_sound (policy : option SignaturePolicy) (principals : list MSPPrincipal) (ev : evaluator)
    (ids : list MspIdentity) :
  compile policy principals = Ok ev → EvaluateIdentities ev ids = Ok () →
  ∃ p S, policy = Some p ∧ satisfied_by principals ids p S.
Proof.
  destruct policy as [p|]; [|done]. intros E Hev. unfold EvaluateIdentities in Hev.
  destruct (ev ids (replicate (length ids) false)) as [b used'] eqn:Eb. cbn in Hev. destruct b; [|done].
  destruct (compile_sound principals ids p ev E _ _ _ (length_replicate _ _) Eb) as [_ Hs].
  destruct (Hs eq_refl) as (S & HS & _). by exists p, S.
Qed.

(** ** When evaluation is complete *)
Fixpoint leaves (p : SignaturePolicy) : list Z :=
  match p with
  | SignedBy i => [i]
  | NOutOf _ rules => List.concat (List.map leaves rules)
  | NoType => []
  end.

Section completeness.
Context (principals : list MSPPrincipal) (ids : list MspIdentity).

(** The identity at [k] satisfies the principal of the leaf [i]. *)
Definition fits (k : nat) (i : Z) : Prop :=
  ∃ principal id, (0 ≤ i)%Z ∧ principals !! Z.to_nat i = Some principal ∧ ids !! k = Some id ∧
    mi_SatisfiesPrincipal id principal = true.

(** No leaf occurs twice, and no identity fits two leaves. *)
Definition unambiguous (ls : list Z) : Prop :=
  NoDup ls ∧ ∀ k i j, i ∈ ls → j ∈ ls → fits k i → fits k j → i = j.

(** No identity that fits one of the leaves is used. *)
Definition free (ls : list Z) (used : list bool) : Prop := ∀ k i, i ∈ ls → fits k i → used !! k = Some false.

Definition evaluator_complete (p : SignaturePolicy) (ev : evaluator) : Prop :=
  ∀ used, length used = length ids → unambiguous (leaves p) → free (leaves p) used →
    (∃ S, satisfied_by principals ids p S) → (ev ids used).1 = true.

Lemma satisfied_rules_leaves rules :
  Forall (λ p, ∀ S, satisfied_by principals ids p S → ∀ k, k ∈ S → ∃ i, i ∈ leaves p ∧ fits k i) rules →
  ∀ count S, satisfied_rules principals ids rules count S → ∀ k, k ∈ S →
    ∃ i, i ∈ List.concat (List.map leaves rules) ∧ fits k i.
Proof.
  intros Hall count S Hr. induction Hr as [|p rules count S Hr IH|p rules count S1 S2 Hp Hr IH Hd]; intros k Hk; cbn.
  - set_solver.
  - apply Forall_cons in Hall as [_ Hall]. destruct (IH Hall k Hk) as (i & Hi & Hf). exists i. rewrite elem_of_app. auto.
  - apply Forall_cons in Hall as [Hp' Hall]. apply elem_of_union in Hk as [Hk|Hk].
    + destruct (Hp' _ Hp k Hk) as (i & Hi & Hf). exists i. rewrite elem_of_app. auto.
    + destruct (IH Hall k Hk) as (i & Hi & Hf). exists i. rewrite elem_of_app. auto.
Qed.

Lemma satisfied_leaves p S : satisfied_by principals ids p S → ∀ k, k ∈ S → ∃ i, i ∈ leaves p ∧ fits k i.
Proof.
  revert S. induction p as [i|n rules IH|] using policy_ind; intros S Hs; inversion Hs; subst.
  - intros k' ->%elem_of_singleton. exists i. split; [by apply list_elem_of_singleton|]. by exists principal, id.
  - by eapply satisfied_rules_leaves.
Qed.

Lemma unambiguous_app l1 l2 :
  unambiguous (l1 ++ l2) → unambiguous l1 ∧ unambiguous l2 ∧ ∀ k i j, i ∈ l1 → j ∈ l2 → fits k i → ¬ fits k j.
Proof.
  intros [(Hn1 & Hd & Hn2)%NoDup_app Hf]. split_and!.
  - split; [done|]. intros k i j Hi Hj. apply Hf; rewrite elem_of_app; auto.
  - split; [done|]. intros k i j Hi Hj. apply Hf; rewrite elem_of_app; auto.
  - intros k i j Hi Hj Fi Fj. assert (i = j) as ->; [|by apply (Hd j)]. apply (Hf k); rewrite ?elem_of_app; auto.
Qed.

Lemma gate_complete rules policies used v v' used' count S :
  Forall2 (λ p ev, evaluator_sound principals ids p ev ∧ evaluator_complete p ev) rules policies →
  length used = length ids → unambiguous (List.concat (List.map leaves rules)) →
  free (List.concat (List.map leaves rules)) used → satisfied_rules principals ids rules count S →
  foldl (gate_step ids) (v, used) policies = (v', used') → (v + Z.of_nat count ≤ v')%Z.
Proof.
  intros Hs. revert used v count S. induction Hs as [|p ev rules policies [Hp Hc] Hs IH]; intros used v count S Hlen Hu Hf Hr E.
  - inversion Hr; subst. cbn in E. injection E as <- <-. lia.
  - cbn in Hu, Hf, E. apply unambiguous_app in Hu as (Hu1 & Hu2 & Hsep).
    assert (free (leaves p) used) as Hf1 by (intros k i Hi; apply Hf; rewrite elem_of_app; auto).
    assert (free (List.concat (List.map leaves rules)) used) as Hf2 by (intros k i Hi; apply Hf; rewrite elem_of_app; auto).
    destruct (ev ids used) as [b used1] eqn:Ev. destruct (Hp _ _ _ Hlen Ev) as [Hl1 Hb].
    assert (∀ count' S', satisfied_rules principals ids rules count' S' →
      ((if b then v + 1 else v) + Z.of_nat count' ≤ v')%Z) as Hrest.
    { intros count' S' Hr'. destruct b; cbn in E; [|exact (IH _ _ _ _ Hlen Hu2 Hf2 Hr' E)].
      refine (IH _ _ _ _ Hl1 Hu2 _ Hr' E). intros k i Hi Fi.
      destruct (Hb eq_refl) as (S1 & Hsat & _ & Eq).
      assert (k ∉ S1) as Hk. { intros Hk. destruct (satisfied_leaves _ _ Hsat k Hk) as (j & Hj & Fj). by eapply Hsep. }
      destruct (used1 !! k) as [[]|] eqn:E1; [|done|].
      - apply elem_of_used in E1. rewrite Eq in E1. apply elem_of_union in E1 as [?|E1]; [done|].
        apply elem_of_used in E1. rewrite (Hf2 k i Hi Fi) in E1. done.
      - apply lookup_ge_None in E1. destruct Fi as (? & ? & _ & _ & Hk' & _). apply lookup_lt_Some in Hk'. lia. }
    inversion Hr as [|? ? ? ? Hr'|? ? ? S1 S2 Hp' Hr' Hd]; subst.
    + specialize (Hrest _ _ Hr'). destruct b; lia.
    + assert (b = true) as ->.
      { replace b with ((ev ids used).1) by (by rewrite Ev). apply Hc; try done. by exists S1. }
      specialize (Hrest _ _ Hr'). lia.
Qed.

Lemma compile_complete p ev : compile_rule p principals = Ok ev → evaluator_complete p ev.
Proof.
  revert ev. induction p as [i|n rules IH|] using policy_ind; intros ev E used Hlen Hu Hf [S HS].
  - cbn in E. destruct ((i <? 0)%Z || (Z.of_nat (length principals) <=? i)%Z) eqn:Hi; [done|].
    apply bind_Ok in E as (pr & Hpr & [= <-]). unfold index in Hpr.
    destruct (principals !! Z.to_nat i) as [pr'|] eqn:Epr; [|done]. injection Hpr as ->.
    inversion HS; subst. destruct (signed_by pr ids used).1 eqn:Eb; [done|].
    assert (principal = pr) as -> by congruence.
    rewrite (signed_by_false pr ids used Hlen Eb k id) in *; [done|done|].
    apply (Hf k i); [by apply list_elem_of_singleton|]. by exists pr, id.
  - rewrite compile_NOutOf in E. apply bind_Ok in E as (policies & Hp%compile_rules_Ok & [= <-]).
    inversion HS; subst. unfold gate.
    destruct (foldl (gate_step ids) (0%Z, used) policies) as [v used2] eqn:Ef. cbn.
    eapply gate_complete in Ef; try done; [apply Z.leb_le; lia|].
    clear -IH Hp. induction Hp as [|p ev rules evs Hpe Hp IHp]; inversion IH; subst; constructor; auto using compile_sound.
  - inversion HS.
Qed.
End completeness.

(** C24: when no leaf of the policy occurs twice and no signer fits two leaves, the
    greedy evaluation accepts every set of signers that satisfies the policy. *)
Theorem evaluation_complete (p : SignaturePolicy) (principals : list MSPPrincipal) (ev : evaluator)
    (ids : list MspIdentity) (S : gset nat) :
  compile (Some p) principals = Ok ev → unambiguous principals ids (leaves p) → satisfied_by principals ids p S →
  EvaluateIdentities ev ids = Ok ().
Proof.
  intros E Hu HS. unfold EvaluateIdentities.
  rewrite (compile_complete principals ids p ev E (replicate (length ids) false)); [done|apply length_replicate|done| |eauto].
  intros k i _ (? & ? & _ & _ & Hk%lookup_lt_Some & _). by apply lookup_replicate.
Qed.

(** Evaluation depends on the order of the signers: an administrator that comes
    first is counted for the leaf any member satisfies, and the member that
    follows cannot take the administrator's. *)
Definition member : MSPPrincipal := mkMSPPrincipal 0 "member".
Definition admin : MSPPrincipal := mkMSPPrincipal 0 "admin".
Definition ex_member : MspIdentity := mkMspIdentity "org1" "m" (λ p, bool_decide (mp_Principal p = "member")) (λ _ _, true).
Definition ex_admin : MspIdentity := mkMspIdentity "org1" "a" (λ _, true) (λ _ _, true).
Definition both : SignaturePolicy := NOutOf 2 [SignedBy 0; SignedBy 1].

Theorem evaluation_order_dependent :
  ∃ ev, compile (Some both) [member; admin] = Ok ev ∧
    EvaluateIdentities ev [ex_member; ex_admin] = Ok () ∧
    EvaluateIdentities ev [ex_admin; ex_member] = Err "signature set did not satisfy policy" ∧
    ∃ S, satisfied_by [member; admin] [ex_admin; ex_member] both S.
Proof.
  eexists. split; [reflexivity|]. split_and!; [reflexivity..|].
  exists ({[1]} ∪ ({[0]} ∪ ∅)). apply (sat_n_out_of _ _ _ _ 2); [done|].
  apply sat_take; [by eapply (sat_signed _ _ 0 member 1 ex_member)| |set_solver].
  apply sat_take; [by eapply (sat_signed _ _ 1 admin 0 ex_admin)|constructor|set_solver].
Qed.

(** ** The signers of a set of signatures *)
Lemma valid_identities_from deserialize idMap sds id :
  id ∈ valid_identities deserialize idMap sds →
  (identity_key id ∉ idMap) ∧
  ∃ sd, sd ∈ sds ∧ deserialize (sd_Identity sd) = Some id ∧ mi_Verify id (sd_Data sd) (sd_Signature sd) = true.
Proof.
  revert idMap. induction sds as [|sd sds IH]; intros idMap; cbn; [by intros ?%elem_of_nil|].
  assert (∀ m, idMap ⊆ m → id ∈ valid_identities deserialize m sds → (identity_key id ∉ idMap) ∧
    ∃ sd', sd' ∈ sd :: sds ∧ deserialize (sd_Identity sd') = Some id ∧ mi_Verify id (sd_Data sd') (sd_Signature sd') = true) as Hrest.
  { intros m Hm Hin. destruct (IH _ Hin) as (Hk & sd' & Hsd & Hr). split; [set_solver|]. exists sd'. split; [by right|done]. }
  destruct (deserialize (sd_Identity sd)) as [i|] eqn:Ed; [|by apply Hrest].
  case_bool_decide as Hk; [by apply Hrest|]. destruct (mi_Verify i _ _) eqn:Ev; [|by apply Hrest].
  intros [->|Hin]%elem_of_cons; [|eapply Hrest; [|done]; set_solver].
  split; [done|]. exists sd. split; [by left|done].
Qed.

Lemma valid_identities_NoDup deserialize idMap sds : NoDup (identity_key <$> valid_identities deserialize idMap sds).
Proof.
  revert idMap. induction sds as [|sd sds IH]; intros idMap; cbn; [constructor|].
  destruct (deserialize (sd_Identity sd)) as [i|]; [|done]. case_bool_decide; [done|]. case_match; [|done].
  cbn. constructor; [|done]. intros (id & E & Hin)%list_elem_of_fmap. apply valid_identities_from in Hin as [Hk _]. set_solver.
Qed.

Lemma signature_policy_satisfied (deserialize : bytes → option MspIdentity) (envelope : SignaturePolicyEnvelope)
    (signatures : list SignedData) :
  evaluateSignaturePolicy deserialize (Some envelope) signatures = Ok () →
  ∃ p ids S, spe_Rule envelope = Some p ∧ satisfied_by (spe_Identities envelope) ids p S ∧
    NoDup (identity_key <$> ids) ∧
    ∀ id, id ∈ ids → ∃ sd, sd ∈ signatures ∧ deserialize (sd_Identity sd) = Some id ∧
      mi_Verify id (sd_Data sd) (sd_Signature sd) = true.
Proof.
  unfold evaluateSignaturePolicy, envelope_NewPolicy. cbn [from_option_err]. go_simpl.
  destruct (compile _ _) as [ev| |] eqn:Ec; [|done..]. cbn. intros E.
  destruct (spe_Rule envelope) as [p|]; [|done].
  set (ids := SignatureSetToValidIdentities signatures deserialize) in *.
  unfold EvaluateSignedData, EvaluateIdentities in E. fold ids in E.
  destruct (ev ids (replicate (length ids) false)) as [b used'] eqn:Eb. cbn in E. destruct b; [|done].
  destruct (compile_sound _ ids p ev Ec _ _ _ (length_replicate _ _) Eb) as [_ Hs].
  destruct (Hs eq_refl) as (S & HS & _). exists p, ids, S. split_and!; [done..|apply valid_identities_NoDup|].
  intros id Hid. by apply valid_identities_from in Hid as [_ ?].
Qed.

(** A signature policy that accepts a set of signatures is satisfied by signers
    that verified, no two with the same identifier, each counted once. *)
Theorem signature_policy_sound (deserialize : bytes → option MspIdentity) (envelope : SignaturePolicyEnvelope)
    (signatures : list SignedData) :
  evaluateSignaturePolicy deserialize (Some envelope) signatures = Ok () →
  ∃ p ids S, spe_Rule envelope = Some p ∧ satisfied_by (spe_Identities envelope) ids p S ∧
    NoDup (identity_key <$> ids) ∧
    ∀ id, id ∈ ids → ∃ sd, sd ∈ signatures ∧ deserialize (sd_Identity sd) = Some id ∧
      mi_Verify id (sd_Data sd) (sd_Signature sd) = true.
Proof. apply signature_policy_satisfied. Qed.

(** ** Implicit meta policies *)
Section meta.
Context {A : Type}.

Definition satisfied_count (x : A) (policies : list (A → option string)) : Z :=
  Z.of_nat (length (filter (λ p, p x = None) policies)).

Lemma meta_loop_spec x (policies : list (A → option string)) remaining :
  (meta_loop x policies remaining).1 = true ↔ (1 ≤ remaining ≤ satisfied_count x policies)%Z.
Proof.
  revert remaining. induction policies as [|p policies IH]; intros remaining; cbn; [unfold satisfied_count; cbn; lia|].
  unfold satisfied_count in *. rewrite filter_cons. destruct (p x); cbn; [rewrite decide_False by done; apply IH|].
  - rewrite decide_True by done. destruct (Z.eqb_spec (remaining - 1) 0); cbn; [lia|]. rewrite IH. lia.
Qed.

Lemma meta_loop_rest x (policies : list (A → option string)) remaining :
  (meta_loop x policies remaining).1 = false →
  (meta_loop x policies remaining).2 = (remaining - satisfied_count x policies)%Z.
Proof.
  revert remaining. induction policies as [|p policies IH]; intros remaining; cbn; [unfold satisfied_count; cbn; lia|].
  unfold satisfied_count in *. rewrite filter_cons. destruct (p x); cbn; [rewrite decide_False by done; apply IH|].
  - rewrite decide_True by done. destruct (Z.eqb_spec (remaining - 1) 0); cbn; [done|]. intros E. rewrite IH by done. lia.
Qed.

(** An implicit meta policy asks for one, all or most of its sub-policies; with
    a rule it does not know it accepts exactly what satisfies none of them. *)
Theorem implicit_meta_spec (rule : Rule) (policies : list (A → option string)) (x : A) :
  let n := Z.of_nat (length policies) in
  meta_Evaluate (NewImplicitMetaPolicy rule policies) x = Ok () ↔
  match rule with
  | Rule_ANY => policies = [] ∨ (1 ≤ satisfied_count x policies)%Z
  | Rule_ALL => satisfied_count x policies = n
  | Rule_MAJORITY => policies = [] ∨ (n < 2 * satisfied_count x policies)%Z
  | Rule_other _ => satisfied_count x policies = 0%Z
  end.
Proof.
  intros n. assert (0 ≤ satisfied_count x policies ≤ n)%Z as Hb.
  { unfold satisfied_count. pose proof (length_filter (λ p, p x = None) policies). lia. }
  assert (policies = [] ↔ n = 0%Z) as Hn by (rewrite <- length_zero_iff_nil; lia).
  assert (∀ t, (0 ≤ t)%Z → meta_Evaluate (mkImplicitMetaPolicy t policies) x = Ok () ↔
    (1 ≤ t ≤ satisfied_count x policies)%Z ∨ t = satisfied_count x policies) as He.
  { intros t Ht. unfold meta_Evaluate. cbn [imp_Threshold imp_SubPolicies].
    pose proof (meta_loop_spec x policies t). pose proof (meta_loop_rest x policies t) as Hr.
    destruct (meta_loop x policies t) as [[] r]; cbn in *; [split; [|done]; left; lia|]. rewrite (Hr eq_refl).
    destruct (Z.eqb_spec (t - satisfied_count x policies) 0); split; try done; try lia. }
  unfold NewImplicitMetaPolicy. fold n. destruct (Z.eqb_spec n 0).
  - rewrite He by lia. destruct rule; rewrite ?Hn; lia.
  - pose proof (Z.quot_rem' n 2) as Hq. pose proof (Z.rem_bound_pos n 2 ltac:(lia) ltac:(lia)) as Hrem.
    rewrite He by (destruct rule; lia). destruct rule; rewrite ?Hn; lia.
Qed.
End meta.

(** Asking a manager for the policy named by its own path, without a trailing
    slash, panics: the slice begins past the end of the id. *)
Theorem GetPolicy_panics {P} (path : string) (policies : gmap string P) :
  is_panic (GetPolicy path policies ("/" +:+ path)) = true.
Proof.
  unfold GetPolicy. rewrite bool_decide_eq_false_2 by done.
  pose proof (prefix_app ("/" +:+ path) "") as Hp. rewrite string_app_nil_r in Hp.
  pose proof (prefix_app "/" path) as Hs. rewrite Hs, Hp. cbn [negb]. unfold slice_from.
  destruct (Nat.leb_spec (1 + String.length path + 1) (String.length ("/" +:+ path))) as [Hl|_]; [|done].
  change ((1 + String.length path + 1 ≤ S (String.length path))%nat) in Hl. lia.
Qed.

(** ** A concrete policy: both organisations must sign *)
Definition org_of (org : string) : MspIdentity :=
  mkMspIdentity org "peer0" (λ p, bool_decide (mp_Principal p = org)) (λ d s, bool_decide (s = "sig:" +:+ d)).
Definition org_principals : list MSPPrincipal := [mkMSPPrincipal 0 "org1"; mkMSPPrincipal 0 "org2"].
Definition org_ids : list MspIdentity := [org_of "org2"; org_of "org1"].

Lemma org_fits k i : fits org_principals org_ids k i → (k = 0 ∧ i = 1%Z) ∨ (k = 1 ∧ i = 0%Z).
Proof.
  intros (pr & id & Hi & Hp & Hk & Hs). destruct (Z.to_nat i) as [|[|n]] eqn:Ei; [..|done];
    (destruct k as [|[|k]]; [..|done]); simplify_eq/=; lia.
Qed.

Lemma org_satisfied : satisfied_by org_principals org_ids both ({[1]} ∪ ({[0]} ∪ ∅)).
Proof.
  apply (sat_n_out_of _ _ _ _ 2); [done|].
  apply sat_take; [by eapply (sat_signed _ _ 0 (mkMSPPrincipal 0 "org1") 1 (org_of "org1"))| |set_solver].
  apply sat_take; [by eapply (sat_signed _ _ 1 (mkMSPPrincipal 0 "org2") 0 (org_of "org2"))|constructor|set_solver].
Qed.

Lemma evaluation_complete_witness :
  ∃ ev, compile (Some both) org_principals = Ok ev ∧ EvaluateIdentities ev org_ids = Ok ().
Proof.
  eexists. split; [reflexivity|].
  apply (evaluation_complete both org_principals _ org_ids ({[1]} ∪ ({[0]} ∪ ∅))); [reflexivity| |exact org_satisfied].
  split; [apply (bool_decide_unpack (NoDup [0; 1]%Z)); exact I|].
  intros k i j _ _ [[-> ->]|[-> ->]]%org_fits [[? ->]|[? ->]]%org_fits; done.
Defined.

Definition org_envelope : SignaturePolicyEnvelope := mkSignaturePolicyEnvelope 0 (Some both) org_principals.

Lemma signature_policy_sound_witness :
  ∃ p ids S, spe_Rule org_envelope = Some p ∧ satisfied_by (spe_Identities org_envelope) ids p S ∧
    NoDup (identity_key <$> ids).
Proof.
  destruct (signature_policy_sound (λ b, Some (org_of b)) org_envelope
    [mkSignedData "d" "org2" "sig:d"; mkSignedData "d" "org1" "forged"; mkSignedData "d" "org1" "sig:d"])
    as (p & ids & S & Hp & Hs & Hn & _); [vm_compute; reflexivity|]. by exists p, ids, S.
Defined.
