(* ===== verification/PolicyManager.v ===== *)
(** * PolicyManager: the tree of policies of a channel's configuration
      (common/policies/policy.go)

    A channel's configuration is a tree of groups; every group has policies.
    The manager mirrors the tree: it compiles a group's policies, and knows the
    policies of the groups below under their paths. What compiles a policy of a
    type is a provider, an argument, as is the decoding of meta policies. *)

From Stdlib Require Import Ascii.
From S2P Require Import Prelude GoText Protos Proposal ProtoUtil Policy.

(** ** Configuration groups (messages of fabric-protos-go/common)

    The maps of a decoded message have no nil values. *)
Record PolicyMsg := mkPolicyMsg { pm_Type : Z; pm_Value : bytes }.
Record ConfigValue := mkConfigValue { cv_Version : Z; cv_Value : bytes; cv_ModPolicy : string }.
Record ConfigPolicy := mkConfigPolicy { cfp_Version : Z; cfp_Policy : option PolicyMsg; cfp_ModPolicy : string }.

Inductive ConfigGroup := mkConfigGroup
  (version : Z) (groups : gmap string ConfigGroup) (values : gmap string ConfigValue)
  (policies : gmap string ConfigPolicy) (modPolicy : string).

Definition cg_Version (g : ConfigGroup) : Z := let '(mkConfigGroup v _ _ _ _) := g in v.
Definition cg_Groups (g : ConfigGroup) : gmap string ConfigGroup := let '(mkConfigGroup _ gs _ _ _) := g in gs.
Definition cg_Values (g : ConfigGroup) : gmap string ConfigValue := let '(mkConfigGroup _ _ vs _ _) := g in vs.
Definition cg_Policies (g : ConfigGroup) : gmap string ConfigPolicy := let '(mkConfigGroup _ _ _ ps _) := g in ps.
Definition cg_ModPolicy (g : ConfigGroup) : string := let '(mkConfigGroup _ _ _ _ mp) := g in mp.

#[export] Instance PolicyMsg_eq_dec : EqDecision PolicyMsg.
Proof. solve_decision. Defined.
#[export] Instance ConfigValue_eq_dec : EqDecision ConfigValue.
Proof. solve_decision. Defined.
#[export] Instance ConfigPolicy_eq_dec : EqDecision ConfigPolicy.
Proof. solve_decision. Defined.
#[export] Instance ConfigGroup_eq_dec : EqDecision ConfigGroup.
Proof.
  refine (fix go g1 g2 := let _ : EqDecision ConfigGroup := @go in
    match g1, g2 with
    | mkConfigGroup v1 gs1 vs1 ps1 m1, mkConfigGroup v2 gs2 vs2 ps2 m2 =>
        cast_if (decide ((v1, gs1, vs1, (ps1, m1)) = (v2, gs2, vs2, (ps2, m2))))
    end); congruence.
Defined.

(** Induction on groups, with the hypothesis for every group below. *)
Fixpoint group_size (g : ConfigGroup) : nat :=
  let '(mkConfigGroup _ gs _ _ _) := g in S (map_fold (λ _ g' n, group_size g' + n) 0 gs).

Lemma group_size_child (gs : gmap string ConfigGroup) k g : gs !! k = Some g → group_size g ≤ map_fold (λ _ g' n, group_size g' + n) 0 gs.
Proof.
  intros Hk. rewrite <- (insert_delete_id _ _ _ Hk). rewrite map_fold_insert_L; [lia|intros; lia|by rewrite lookup_delete_eq].
Qed.

Lemma ConfigGroup_tree_ind (P : ConfigGroup → Prop) :
  (∀ g, (∀ k g', cg_Groups g !! k = Some g' → P g') → P g) → ∀ g, P g.
Proof.
  intros Hg g. remember (group_size g) as n eqn:En. revert g En.
  induction (lt_wf n) as [n _ IH]. intros g ->. apply Hg. intros k g' Hk.
  apply (IH (group_size g')); [|done]. destruct g as [v gs vs ps m]. cbn in *. pose proof (group_size_child _ _ _ Hk). lia.
Qed.

(** The group at a path below. *)
Fixpoint group_at (g : ConfigGroup) (path : list string) : option ConfigGroup :=
  match path with
  | [] => Some g
  | k :: rest => g' ← cg_Groups g !! k; group_at g' rest
  end.

Lemma group_at_app g p q : group_at g (p ++ q) = (g' ← group_at g p; group_at g' q).
Proof. revert g. induction p as [|k p IH]; intros g; cbn; [done|]. destruct (cg_Groups g !! k); cbn; [apply IH|done]. Qed.

(** ** Managers *)

(** [policies.Policy]: its two methods, each returning an error or none. *)
Record policy := mkPolicy {
  p_EvaluateSignedData : list SignedData → option string;
  p_EvaluateIdentities : list MspIdentity → option string
}.

Definition error_of (o : outcome unit) : option string :=
  match o with Ok _ => None | Err e | Panic e => Some e end.

(** [rejectPolicy]. *)
Definition rejectPolicy (name : string) : policy :=
  mkPolicy (λ _, Some ("no such policy: " +:+ name)) (λ _, Some ("no such policy: " +:+ name)).

Inductive ManagerImpl := mkManagerImpl
  (path : string) (Policies : gmap string policy) (managers : gmap string ManagerImpl).

Definition mgr_path (m : ManagerImpl) : string := let '(mkManagerImpl p _ _) := m in p.
Definition mgr_Policies (m : ManagerImpl) : gmap string policy := let '(mkManagerImpl _ ps _) := m in ps.
Definition mgr_managers (m : ManagerImpl) : gmap string ManagerImpl := let '(mkManagerImpl _ _ ms) := m in ms.

(** [ManagerImpl.GetPolicy]; [None] stands for the policy that rejects
    everything, returned with false. *)
Definition manager_GetPolicy (m : ManagerImpl) (id : string) : outcome (option policy) :=
  GetPolicy (mgr_path m) (mgr_Policies m) id.

Fixpoint Manager (pm : ManagerImpl) (path : list string) : option ManagerImpl :=
  match path with
  | [] => Some pm
  | k :: rest => m ← mgr_managers pm !! k; Manager m rest
  end.

Definition Policy_IMPLICIT_META : Z := 3.

Section manager.
Context `{MapOrder}.
Context (unmarshal_ImplicitMetaPolicy : bytes → option (Rule * string)).
Context (providers : gmap Z (bytes → outcome policy)).

(** The sub-policies, in the order of the map of managers. *)
Definition sub_policies (managers : gmap string ManagerImpl) (path name : string) : outcome (list policy) :=
  foldM (λ subs k,
    match managers !! k with
    | Some m => p ← manager_GetPolicy m name; Ok (subs ++ [default (rejectPolicy name) p])
    | None => Ok subs
    end) [] (map_range ["managers"; path; name] 0 managers).

Definition meta_policy (data : bytes) (managers : gmap string ManagerImpl) (path : string) : outcome policy :=
  '(rule, name) ← from_option_err "Error unmarshalling to ImplicitMetaPolicy" (unmarshal_ImplicitMetaPolicy data);
  subs ← sub_policies managers path name;
  Ok (mkPolicy (λ sd, error_of (meta_Evaluate (NewImplicitMetaPolicy rule (p_EvaluateSignedData <$> subs)) sd))
        (λ ids, error_of (meta_Evaluate (NewImplicitMetaPolicy rule (p_EvaluateIdentities <$> subs)) ids))).

Definition compile_policy (configPolicy : ConfigPolicy) (managers : gmap string ManagerImpl) (path name : string)
    : outcome policy :=
  policy ← from_option_err ("policy " +:+ name +:+ " was nil") (cfp_Policy configPolicy);
  if (pm_Type policy =? Policy_IMPLICIT_META)%Z
  then with_message ("implicit policy " +:+ name +:+ " did not compile") (meta_policy (pm_Value policy) managers path)
  else
    NewPolicy ← from_option_err ("policy " +:+ name +:+ " has unknown policy type") (providers !! pm_Type policy);
    with_message ("policy " +:+ name +:+ " did not compile") (NewPolicy (pm_Value policy)).

(** The policies of the groups below, under their paths. *)
Definition add_prefixed (groupName : string) (P : gmap string policy) (order : list string) (policies : gmap string policy)
    : gmap string policy :=
  foldl (λ ps policyName,
    match P !! policyName with Some p => <[groupName +:+ "/" +:+ policyName := p]> ps | None => ps end) policies order.

Definition add_group_policies (path : string) (managers : gmap string ManagerImpl) (policies : gmap string policy)
    : gmap string policy :=
  foldl (λ ps groupName,
    match managers !! groupName with
    | Some manager =>
        add_prefixed groupName (mgr_Policies manager)
          (map_range ["manager.Policies"; path; groupName] 0 (mgr_Policies manager)) ps
    | None => ps
    end) policies (map_range ["managers"; path] 1 managers).

(** The whole tree, from the leaves up. *)
Fixpoint NewManagerImpl (root : ConfigGroup) (path : string) : outcome ManagerImpl :=
  let '(mkConfigGroup _ groups _ configPolicies _) := root in
  match providers !! Policy_IMPLICIT_META with
  | Some _ => Panic "ImplicitMetaPolicy type must be provider by the policy manager"
  | None =>
      let subs := (λ g, NewManagerImpl g) <$> groups in
      managers ← foldM (λ ms groupName,
        match subs !! groupName with
        | Some f => m ← f (path +:+ "/" +:+ groupName); Ok (<[groupName := m]> ms)
        | None => Ok ms
        end) ∅ (map_range ["root.Groups"; path] 0 groups);
      policies ← foldM (λ ps policyName,
        match configPolicies !! policyName with
        | Some configPolicy => p ← compile_policy configPolicy managers path policyName; Ok (<[policyName := p]> ps)
        | None => Ok ps
        end) ∅ (map_range ["root.Policies"; path] 0 configPolicies);
      Ok (mkManagerImpl path (add_group_policies path managers policies) managers)
  end.
End manager.

(** ** Paths *)
Notation slash_free s := (has_char "/"%char s = false).
Definition joined (path : list string) : string := String.concat "/" path.

Lemma joined_cons a path : path ≠ [] → joined (a :: path) = a +:+ "/" +:+ joined path.
Proof. by destruct path. Qed.

Lemma slash_inj a b a' b' : slash_free a → slash_free a' → a +:+ "/" +:+ b = a' +:+ "/" +:+ b' → a = a' ∧ b = b'.
Proof.
  intros Ha Ha' E. assert (a = a') as <-.
  { apply (f_equal (λ s, split s "/")) in E.
    change (split (a +:+ String "/" b) (String "/" "") = split (a' +:+ String "/" b') (String "/" "")) in E.
    rewrite !split_char_cons in E by done. by injection E. }
  split; [done|]. apply string_app_inj_length in E as [_ E]; [|done]. by injection E.
Qed.

Lemma slash_free_app a b : slash_free (a +:+ b) ↔ slash_free a ∧ slash_free b.
Proof.
  induction a as [|c a IH]; [by split; [|intros [_ ?]]|]. change (String c a +:+ b) with (String c (a +:+ b)).
  cbn [has_char]. rewrite !orb_false_iff, IH. tauto.
Qed.

(** ** Loops that build a map *)
Definition put {V} (F : string → option (outcome V)) (ms : gmap string V) (k : string) : outcome (gmap string V) :=
  match F k with Some o => v ← o; Ok (<[k := v]> ms) | None => Ok ms end.

Lemma foldM_put {V} (F : string → option (outcome V)) l (ms0 ms : gmap string V) :
  NoDup l → foldM (put F) ms0 l = Ok ms →
  (∀ k, k ∈ l → match F k with Some o => ∃ v, o = Ok v ∧ ms !! k = Some v | None => ms !! k = ms0 !! k end) ∧
  (∀ k, k ∉ l → ms !! k = ms0 !! k).
Proof.
  revert ms0. induction l as [|k l IH]; intros ms0 Hnd E; cbn [foldM] in E.
  { injection E as <-. split; [|done]. intros k Hk. by apply elem_of_nil in Hk. }
  apply NoDup_cons in Hnd as [Hk Hnd]. destruct (put F ms0 k) as [ms1| |] eqn:E1; [|done..].
  destruct (IH _ Hnd E) as [Hin Hout]. assert (∀ j, j ≠ k → ms1 !! j = ms0 !! j) as Hne.
  { intros j Hj. unfold put in E1. destruct (F k) as [o|]; [|by simplify_eq].
    apply bind_Ok in E1 as (v & _ & [= <-]). by rewrite lookup_insert_ne. }
  split.
  - intros j [->|Hj]%elem_of_cons.
    + rewrite (Hout k Hk). unfold put in E1. destruct (F k) as [o|]; [|by simplify_eq].
      apply bind_Ok in E1 as (v & -> & [= <-]). exists v. by rewrite lookup_insert_eq.
    + specialize (Hin j Hj). destruct (F j); [done|]. rewrite Hin. apply Hne. by intros ->.
  - intros j Hj%not_elem_of_cons. rewrite Hout by tauto. apply Hne. tauto.
Qed.

Lemma foldM_ext {A B} (f g : B → A → outcome B) b l : (∀ c x, f c x = g c x) → foldM f b l = foldM g b l.
Proof. intros Hfg. revert b. induction l as [|x l IH]; intros b; cbn; [done|]. rewrite Hfg. destruct (g b x); auto. Qed.

(** ** The managers mirror the groups *)
Section mirror.
Context `{MapOrder} (unmarshal_ImplicitMetaPolicy : bytes → option (Rule * string)).
Context (providers : gmap Z (bytes → outcome policy)).
Notation New := (NewManagerImpl unmarshal_ImplicitMetaPolicy providers).

(** The path of the group at [ps] below the one at [path]. *)
Definition path_below (path : string) (ps : list string) : string := foldl (λ p k, p +:+ "/" +:+ k) path ps.

Lemma NewManagerImpl_Ok root path m :
  New root path = Ok m →
  mgr_path m = path ∧
  (∀ k, match cg_Groups root !! k with
        | Some g => ∃ m', mgr_managers m !! k = Some m' ∧ New g (path +:+ "/" +:+ k) = Ok m'
        | None => mgr_managers m !! k = None
        end) ∧
  ∃ own, mgr_Policies m = add_group_policies path (mgr_managers m) own ∧
    ∀ k, match cg_Policies root !! k with
         | Some cp => ∃ p, own !! k = Some p ∧
             compile_policy unmarshal_ImplicitMetaPolicy providers cp (mgr_managers m) path k = Ok p
         | None => own !! k = None
         end.
Proof.
  destruct root as [v groups values cps mp]. cbn [NewManagerImpl cg_Groups cg_Policies].
  destruct (providers !! Policy_IMPLICIT_META); [done|]. intros E.
  apply bind_Ok in E as (managers & Em & E). apply bind_Ok in E as (own & Eo & [= <-]). split; [done|].
  cbn [mgr_managers mgr_Policies]. split.
  - rewrite (foldM_ext _ (put (λ k, (λ g, New g (path +:+ "/" +:+ k)) <$> groups !! k))) in Em.
    2: { intros ms k. unfold put. rewrite lookup_fmap. by destruct (groups !! k). }
    apply foldM_put in Em as [Hin Hout]; [|by eapply range_order_NoDup, map_range_ok]. intros k.
    pose proof (range_order_elem _ _ k (map_range_ok ["root.Groups"; path] 0 groups)) as Hk.
    destruct (groups !! k) as [g|] eqn:Eg.
    + specialize (Hin k (proj2 Hk ltac:(by eauto))). rewrite Eg in Hin. cbn in Hin. destruct Hin as (m' & ? & ?). eauto.
    + apply Hout. intros [? ?]%Hk. done.
  - exists own. split; [done|].
    rewrite (foldM_ext _ (put (λ k, (λ cp, compile_policy unmarshal_ImplicitMetaPolicy providers cp managers path k)
      <$> cps !! k))) in Eo by (intros ps k; unfold put; by destruct (cps !! k)).
    apply foldM_put in Eo as [Hin Hout]; [|by eapply range_order_NoDup, map_range_ok]. intros k.
    pose proof (range_order_elem _ _ k (map_range_ok ["root.Policies"; path] 0 cps)) as Hk.
    destruct (cps !! k) as [cp|] eqn:Ec.
    + specialize (Hin k (proj2 Hk ltac:(by eauto))). rewrite Ec in Hin. cbn in Hin. destruct Hin as (p & ? & ?). eauto.
    + apply Hout. intros [? ?]%Hk. done.
Qed.

Lemma Manager_mirrors root path m ps :
  New root path = Ok m →
  match group_at root ps with
  | Some g => ∃ m', Manager m ps = Some m' ∧ New g (path_below path ps) = Ok m'
  | None => Manager m ps = None
  end.
Proof.
  revert root path m. induction ps as [|k ps IH]; intros root path m E; cbn; [by eauto|].
  destruct (NewManagerImpl_Ok _ _ _ E) as (_ & Hk & _). specialize (Hk k).
  destruct (cg_Groups root !! k) as [g|]; cbn; [|by rewrite Hk].
  destruct Hk as (m' & -> & Em'). cbn. by apply IH.
Qed.
End mirror.

(** ** Policies of groups below *)
Lemma add_prefixed_lookup g (P : gmap string policy) l (ps : gmap string policy) key :
  add_prefixed g P l ps !! key =
  match list_find (λ n, g +:+ "/" +:+ n = key ∧ is_Some (P !! n)) (reverse l) with
  | Some (_, n) => P !! n
  | None => ps !! key
  end.
Proof.
  unfold add_prefixed. induction l as [|n l IH] using rev_ind; [done|]. rewrite foldl_app, reverse_app. cbn [foldl reverse rev_append app list_find].
  destruct (decide _) as [[<- [p Hp]]|Hn]; [rewrite Hp; by rewrite lookup_insert_eq|].
  destruct (P !! n) as [p|] eqn:Hp.
  - rewrite lookup_insert_ne by (intros E; apply Hn; eauto). rewrite IH. by destruct (list_find _ (reverse l)) as [[]|].
  - rewrite IH. by destruct (list_find _ (reverse l)) as [[]|].
Qed.

Lemma add_prefixed_at g (P : gmap string policy) l ps n :
  range_order P l →
  add_prefixed g P l ps !! (g +:+ "/" +:+ n) =
  match P !! n with Some p => Some p | None => ps !! (g +:+ "/" +:+ n) end.
Proof.
  intros Hl. rewrite add_prefixed_lookup. destruct (list_find _ _) as [[i n']|] eqn:E.
  - apply list_find_Some in E as (_ & [E [p Hp]] & _). apply string_app_inj_length in E as [_ E]; [|done].
    apply (string_app_inj_length "/" "/") in E as [_ ->]; [|done]. by rewrite Hp.
  - apply list_find_None in E. destruct (P !! n) as [p|] eqn:Hp; [|done]. exfalso.
    rewrite Forall_forall in E. apply (E n); [|by eauto]. rewrite elem_of_reverse. eapply range_order_elem; eauto.
Qed.

Lemma add_prefixed_other g (P : gmap string policy) l ps key :
  (∀ n, key ≠ g +:+ "/" +:+ n) →
  add_prefixed g P l ps !! key = ps !! key.
Proof.
  intros Hk. rewrite add_prefixed_lookup. destruct (list_find _ _) as [[i n']|] eqn:E; [|done].
  apply list_find_Some in E as (_ & [<- _] & _). by destruct (Hk n').
Qed.

Section group_policies.
Context `{MapOrder} (path : string) (managers : gmap string ManagerImpl) (own : gmap string policy).
Context (names : ∀ g, is_Some (managers !! g) → slash_free g).

Lemma add_group_policies_own k : slash_free k → add_group_policies path managers own !! k = own !! k.
Proof.
  intros Hk. unfold add_group_policies. generalize (map_range ["managers"; path] 1 managers).
  intros l. revert own. induction l as [|g l IH]; intros ps; [done|]. cbn [foldl]. rewrite IH.
  destruct (managers !! g); [|done]. apply add_prefixed_other. intros n ->.
  apply slash_free_app in Hk as [_ Hk]. done.
Qed.

Lemma add_group_policies_below k p :
  slash_free k →
  add_group_policies path managers own !! (k +:+ "/" +:+ p) =
  match managers !! k ≫= λ m, mgr_Policies m !! p with Some q => Some q | None => own !! (k +:+ "/" +:+ p) end.
Proof.
  intros Hk. unfold add_group_policies.
  pose proof (range_order_elem _ _ k (map_range_ok ["managers"; path] 1 managers)) as Hin.
  pose proof (range_order_NoDup _ _ (map_range_ok ["managers"; path] 1 managers)) as Hnd.
  assert (∀ g, g ∈ map_range ["managers"; path] 1 managers → slash_free g) as Hs.
  { intros g Hg. apply names. by eapply range_order_elem; [apply map_range_ok|]. }
  revert Hin Hnd Hs. generalize (map_range ["managers"; path] 1 managers). intros l.
  assert (∀ l ps, k ∉ l → (∀ g, g ∈ l → slash_free g) →
    foldl (λ ps g, match managers !! g with
      | Some m => add_prefixed g (mgr_Policies m) (map_range ["manager.Policies"; path; g] 0 (mgr_Policies m)) ps
      | None => ps end) ps l !! (k +:+ "/" +:+ p) = ps !! (k +:+ "/" +:+ p)) as Hout.
  { intros l' . induction l' as [|g l' IH]; intros ps Hk' Hs; [done|]. cbn [foldl]. apply not_elem_of_cons in Hk' as [Hne Hk'].
    rewrite IH; [|done|intros; apply Hs; by right]. destruct (managers !! g); [|done].
    apply add_prefixed_other. intros n E. apply slash_inj in E as [-> _]; [done..|apply Hs; by left]. }
  clear names. revert own. induction l as [|g l IH]; intros ps Hin Hnd Hs.
  - cbn [foldl]. destruct (managers !! k) as [m|] eqn:Em; [|done]. exfalso. apply (elem_of_nil k), (proj2 Hin). eauto.
  - cbn [foldl]. apply NoDup_cons in Hnd as [Hg Hnd]. destruct (decide (g = k)) as [->|Hne].
    + rewrite Hout; [|done|intros; apply Hs; by right]. destruct (managers !! k) as [m|] eqn:Em; [|done]. cbn.
      apply add_prefixed_at, map_range_ok.
    + rewrite IH; [| |done|intros; apply Hs; by right].
      2: { rewrite <- Hin, elem_of_cons. naive_solver. }
      destruct (managers !! k ≫= _); [done|]. destruct (managers !! g); [|done].
      apply add_prefixed_other. intros n E. apply slash_inj in E as [-> _]; [done..|apply Hs; by left].
Qed.
End group_policies.

(** ** A policy by its path *)
Section by_path.
Context `{MapOrder} (unmarshal_ImplicitMetaPolicy : bytes → option (Rule * string)).
Context (providers : gmap Z (bytes → outcome policy)).
Notation New := (NewManagerImpl unmarshal_ImplicitMetaPolicy providers).

(** The names of groups and policies, as [validateConfigID] of configtx allows them. *)
Definition names_ok (root : ConfigGroup) : Prop :=
  ∀ ps g, group_at root ps = Some g →
    (∀ k, is_Some (cg_Groups g !! k) → k ≠ "" ∧ slash_free k) ∧
    (∀ k, is_Some (cg_Policies g !! k) → slash_free k).

Lemma names_ok_below root k g : names_ok root → cg_Groups root !! k = Some g → names_ok g.
Proof. intros Hn Hk ps g' Hg. apply (Hn (k :: ps)). cbn. by rewrite Hk. Qed.

Lemma policies_below root path m ps m' p :
  names_ok root → New root path = Ok m → Manager m ps = Some m' →
  mgr_Policies m !! joined (ps ++ [p]) = mgr_Policies m' !! p.
Proof.
  revert root path m. induction ps as [|k ps IH]; intros root path m Hn E Hm; cbn in Hm; [by simplify_eq|].
  destruct (NewManagerImpl_Ok _ _ _ _ _ E) as (_ & Hgs & own & Ep & Hown).
  apply bind_Some in Hm as (mk & Hk & Hm). pose proof (Hgs k) as Hgk.
  destruct (cg_Groups root !! k) as [g|] eqn:Eg; [|congruence]. destruct Hgk as (? & ? & Enew). simplify_eq.
  destruct (Hn [] root eq_refl) as [Hgn Hpn]. destruct (Hgn k) as [_ Hks]; [by eauto|].
  change (joined ((k :: ps) ++ [p])) with (joined (k :: (ps ++ [p]))). rewrite joined_cons by (by destruct ps).
  assert (∀ g', is_Some (mgr_managers m !! g') → slash_free g') as Hnames.
  { intros g' [m2 Hg']. apply Hgn. specialize (Hgs g'). destruct (cg_Groups root !! g'); [by eauto|congruence]. }
  rewrite Ep, (add_group_policies_below path _ own Hnames) by done.
  rewrite Hk. cbn. rewrite (IH g _ _ (names_ok_below _ _ _ Hn Eg) Enew Hm).
  destruct (mgr_Policies m' !! p); [done|]. specialize (Hown (k +:+ "/" +:+ joined (ps ++ [p]))).
  destruct (cg_Policies root !! _) eqn:Ec; [|done]. exfalso.
  assert (slash_free (k +:+ "/" +:+ joined (ps ++ [p]))) as [_ Hf]%slash_free_app by (apply Hpn; eauto). done.
Qed.

Lemma substring_app a b : String.substring (String.length a) (String.length b) (a +:+ b) = b.
Proof.
  induction a as [|c a IH]; [|apply IH]. change ("" +:+ b) with b. cbn [String.length].
  by induction b as [|c b IHb]; cbn; [|rewrite IHb].
Qed.

Lemma slice_from_app a b : slice_from (a +:+ b) (String.length a) = Ok b.
Proof.
  unfold slice_from. rewrite string_length_app, (proj2 (Nat.leb_le _ _)) by lia.
  replace (String.length a + String.length b - String.length a) with (String.length b) by lia. by rewrite substring_app.
Qed.

Lemma GetPolicy_relative {P} path (policies : gmap string P) id :
  id ≠ "" → String.prefix "/" id = false → GetPolicy path policies id = Ok (policies !! id).
Proof. intros Hid Hp. unfold GetPolicy. by rewrite bool_decide_eq_false_2, Hp. Qed.

Lemma GetPolicy_absolute {P} path (policies : gmap string P) rel :
  GetPolicy path policies (("/" +:+ path +:+ "/") +:+ rel) = Ok (policies !! rel).
Proof.
  unfold GetPolicy. rewrite bool_decide_eq_false_2 by done. rewrite <- !string_app_assoc, prefix_app.
  rewrite (string_app_assoc "/" path), prefix_app. cbn [negb].
  assert (1 + String.length path + 1 = String.length ("/" +:+ path +:+ "/")) as ->.
  { rewrite !string_length_app. cbn. lia. }
  rewrite <- !string_app_assoc, (string_app_assoc path), (string_app_assoc "/"), slice_from_app. done.
Qed.

(** The manager of a well named configuration finds the policy of a group
    below by the path from itself, and by the absolute path, exactly as the
    manager of that group finds it by its name. *)
Theorem policy_by_path (root : ConfigGroup) (path : string) (m m' : ManagerImpl) (ps : list string) (p : string) :
  names_ok root → New root path = Ok m → Manager m ps = Some m' → p ≠ "" → String.prefix "/" p = false →
  manager_GetPolicy m (joined (ps ++ [p])) = manager_GetPolicy m' p ∧
  manager_GetPolicy m (("/" +:+ path +:+ "/") +:+ joined (ps ++ [p])) = manager_GetPolicy m' p.
Proof.
  intros Hn E Hm Hp Hpre. unfold manager_GetPolicy. rewrite (GetPolicy_relative (mgr_path m')) by done.
  rewrite <- (policies_below _ _ _ _ _ p Hn E Hm). destruct (NewManagerImpl_Ok _ _ _ _ _ E) as (Epath & Hgs & _).
  rewrite Epath, GetPolicy_absolute. split; [|done]. apply GetPolicy_relative.
  - destruct ps as [|k [|k' ps]]; [done|..]; cbn; by destruct k.
  - destruct ps as [|k ps]; [done|]. cbn in Hm. apply bind_Some in Hm as (mk & Hk & _). specialize (Hgs k).
    destruct (cg_Groups root !! k) as [g|] eqn:Eg; [|congruence].
    destruct (proj1 (Hn [] root eq_refl) k) as [Hne Hsf]; [by eauto|].
    change (joined ((k :: ps) ++ [p])) with (joined (k :: (ps ++ [p]))). rewrite joined_cons by (by destruct ps).
    destruct k as [|c k]; [done|]. cbn [has_char] in Hsf. apply orb_false_iff in Hsf as [Hc _].
    change (String c k +:+ "/" +:+ joined (ps ++ [p])) with (String c (k +:+ "/" +:+ joined (ps ++ [p]))).
    cbn [String.prefix]. destruct (ascii_dec "/" c) as [<-|]; [by rewrite Ascii.eqb_refl in Hc|done].
Qed.
End by_path.

(** ** A channel of one organisation *)
Section sample.
#[local] Existing Instance sorted_map_order.

(** Satisfied by a signature of the named identity. *)
Definition signed_by_one (id : bytes) : policy :=
  mkPolicy (λ sd, if existsb (λ s, bool_decide (sd_Identity s = id)) sd then None else Some "not signed")
    (λ _, Some "not evaluated").
Definition sample_providers : gmap Z (bytes → outcome policy) := {[ 1%Z := λ b, Ok (signed_by_one b) ]}.
Definition sample_policy (id : bytes) : ConfigPolicy := mkConfigPolicy 0 (Some (mkPolicyMsg 1 id)) "Admins".
Definition sample_org : ConfigGroup := mkConfigGroup 0 ∅ ∅ {[ "Admins" := sample_policy "org1" ]} "Admins".
Definition sample_channel : ConfigGroup :=
  mkConfigGroup 0 {[ "Org1" := sample_org ]} {[ "BatchSize" := mkConfigValue 0 "10" "Admins" ]}
    (<[ "Writers" := sample_policy "orderer" ]> {[ "Admins" := sample_policy "orderer" ]}) "Admins".

Definition sample_managers : ManagerImpl :=
  match NewManagerImpl (λ _, None) sample_providers sample_channel "Channel" with
  | Ok m => m
  | _ => mkManagerImpl "" ∅ ∅
  end.

Lemma sample_managers_built : NewManagerImpl (λ _, None) sample_providers sample_channel "Channel" = Ok sample_managers.
Proof. vm_compute. reflexivity. Qed.

Lemma sample_names : names_ok sample_channel.
Proof.
  intros ps g Hg. destruct ps as [|k ps]; cbn in Hg.
  - injection Hg as <-. split; intros k [v Hk]; cbn [sample_channel cg_Groups cg_Policies] in Hk.
    + by apply lookup_singleton_Some in Hk as [<- _].
    + apply lookup_insert_Some in Hk as [[<- _]|[_ Hk]]; [done|]. by apply lookup_singleton_Some in Hk as [<- _].
  - apply bind_Some in Hg as (g' & Hk & Hg). cbn [sample_channel cg_Groups] in Hk.
    apply lookup_singleton_Some in Hk as [<- <-]. destruct ps as [|k ps]; cbn in Hg.
    + injection Hg as <-. split; intros k [v Hk]; [done|]. cbn [sample_org cg_Policies] in Hk. apply lookup_singleton_Some in Hk as [<- _]. done.
    + done.
Qed.

Lemma policy_by_path_witness :
  ∃ m', Manager sample_managers ["Org1"] = Some m' ∧
    manager_GetPolicy sample_managers "Org1/Admins" = manager_GetPolicy m' "Admins" ∧
    manager_GetPolicy sample_managers "/Channel/Org1/Admins" = manager_GetPolicy m' "Admins" ∧
    manager_GetPolicy m' "Admins" = Ok (Some (signed_by_one "org1")).
Proof.
  destruct (Manager sample_managers ["Org1"]) as [m'|] eqn:Em; [|by vm_compute in Em]. exists m'.
  destruct (policy_by_path _ _ sample_channel "Channel" sample_managers m' ["Org1"] "Admins" sample_names
    sample_managers_built Em ltac:(done) ltac:(done)) as [H1 H2].
  split_and!; [done|exact H1|exact H2|]. vm_compute in Em. injection Em as <-. vm_compute. reflexivity.
Defined.
End sample.
