(* ===== verification/ConfigTx.v ===== *)
(** * ConfigTx: updates of a channel's configuration
      (common/configtx/configmap.go, compare.go, update.go, validator.go)

    The configuration tree is flattened to a map from paths to its elements. An
    update reads elements at versions and writes others; what it writes at a new
    version must be authorised by the modification policy of the element it
    replaces. The result is turned back into a tree. Loops over Go maps visit
    the keys in the order the class [MapOrder] gives. *)

From Stdlib Require Import Ascii.
From S2P Require Import Prelude GoText Protos Proposal ProtoUtil Policy PolicyManager.

(** ** Names (validator.go) *)

(** [regexp.FindString] for a pattern that is one character of a class and
    then any number of another: the leftmost match, as long as it goes on. *)
Fixpoint take_while (f : ascii → bool) (s : string) : string :=
  match s with
  | String c s' => if f c then String c (take_while f s') else ""
  | EmptyString => ""
  end.
Fixpoint find_string (first rest : ascii → bool) (s : string) : string :=
  match s with
  | String c s' => if first c then String c (take_while rest s') else find_string first rest s'
  | EmptyString => ""
  end.

Definition in_range (lo hi : ascii) (c : ascii) : bool :=
  (N_of_ascii lo <=? N_of_ascii c)%N && (N_of_ascii c <=? N_of_ascii hi)%N.
Definition is_lower (c : ascii) : bool := in_range "a" "z" c.
Definition channelAllowed (c : ascii) : bool :=
  is_lower c || in_range "0" "9" c || Ascii.eqb c "." || Ascii.eqb c "-".
Definition configAllowed (c : ascii) : bool :=
  is_lower c || in_range "A" "Z" c || in_range "0" "9" c || Ascii.eqb c "." || Ascii.eqb c "-".
Definition MaxLength : nat := 249.

Definition validateConfigID (configID : string) : outcome unit :=
  if (String.length configID <=? 0)%nat then Err "config ID illegal, cannot be empty"
  else if (MaxLength <? String.length configID)%nat then Err "config ID illegal, cannot be longer than 249"
  else if bool_decide (configID = ".") || bool_decide (configID = "..") then Err "name for config ID is not allowed"
  else if negb (String.length (find_string configAllowed configAllowed configID) =? String.length configID)%nat
  then Err "config ID contains illegal characters"
  else Ok ().

Definition ValidateChannelID (channelID : string) : outcome unit :=
  if (String.length channelID <=? 0)%nat then Err "channel ID illegal, cannot be empty"
  else if (MaxLength <? String.length channelID)%nat then Err "channel ID illegal, cannot be longer than 249"
  else if negb (String.length (find_string is_lower channelAllowed channelID) =? String.length channelID)%nat
  then Err "channel ID contains illegal characters"
  else Ok ().

(** ** Elements (compare.go) *)
Inductive config_item := ItemGroup (g : ConfigGroup) | ItemValue (v : ConfigValue) | ItemPolicy (p : ConfigPolicy).

Record comparable := mkComparable { cmp_item : config_item; cmp_key : string; cmp_path : list string }.

Definition version (c : comparable) : Z :=
  match cmp_item c with
  | ItemGroup g => cg_Version g
  | ItemValue v => cv_Version v
  | ItemPolicy p => cfp_Version p
  end.

Definition modPolicy (c : comparable) : string :=
  match cmp_item c with
  | ItemGroup g => cg_ModPolicy g
  | ItemValue v => cv_ModPolicy v
  | ItemPolicy p => cfp_ModPolicy p
  end.

Definition equalConfigValues (lhs rhs : ConfigValue) : bool :=
  (cv_Version lhs =? cv_Version rhs)%Z && bool_decide (cv_ModPolicy lhs = cv_ModPolicy rhs) &&
  bool_decide (cv_Value lhs = cv_Value rhs).

Definition equalConfigPolicies (lhs rhs : ConfigPolicy) : bool :=
  if negb (cfp_Version lhs =? cfp_Version rhs)%Z || negb (bool_decide (cfp_ModPolicy lhs = cfp_ModPolicy rhs)) then false
  else
    match cfp_Policy lhs, cfp_Policy rhs with
    | Some l, Some r => (pm_Type l =? pm_Type r)%Z && bool_decide (pm_Value l = pm_Value r)
    | None, None => true
    | _, _ => false
    end.

(** [subsetOfGroups], [subsetOfPolicies] and [subsetOfValues]. *)
Definition subsetOf {V} (inner outer : gmap string V) : bool :=
  if (size inner =? 0)%nat then true
  else if (size outer <? size inner)%nat then false
  else bool_decide (map_Forall (λ k _, is_Some (outer !! k)) inner).

Definition equalConfigGroup (lhs rhs : ConfigGroup) : bool :=
  if negb (cg_Version lhs =? cg_Version rhs)%Z || negb (bool_decide (cg_ModPolicy lhs = cg_ModPolicy rhs)) then false
  else subsetOf (cg_Groups lhs) (cg_Groups rhs) && subsetOf (cg_Groups rhs) (cg_Groups lhs) &&
       subsetOf (cg_Policies lhs) (cg_Policies rhs) && subsetOf (cg_Policies rhs) (cg_Policies lhs) &&
       subsetOf (cg_Values lhs) (cg_Values rhs) && subsetOf (cg_Values rhs) (cg_Values lhs).

Definition equals (cg other : comparable) : bool :=
  match cmp_item cg, cmp_item other with
  | ItemGroup l, ItemGroup r => equalConfigGroup l r
  | ItemValue l, ItemValue r => equalConfigValues l r
  | ItemPolicy l, ItemPolicy r => equalConfigPolicies l r
  | _, _ => false
  end.

(** ** The map of a configuration (configmap.go) *)
Definition groupPrefix : string := "[Group]  ".
Definition valuePrefix : string := "[Value]  ".
Definition policyPrefix : string := "[Policy] ".
Definition hackyFixOrdererCapabilities : string := "[Value]  /Channel/Orderer/Capabilities".
Definition hackyFixNewModPolicy : string := "Admins".

Definition item_prefix (i : config_item) : string :=
  match i with ItemGroup _ => groupPrefix | ItemValue _ => valuePrefix | ItemPolicy _ => policyPrefix end.

Definition fq_path (prefix : string) (path : list string) (key : string) : string :=
  prefix +:+ "/" +:+ joined (path ++ [key]).

Definition addToMap (cg : comparable) (result : gmap string comparable) : outcome (gmap string comparable) :=
  _ ← with_message ("illegal characters in key: " +:+ item_prefix (cmp_item cg)) (validateConfigID (cmp_key cg));
  Ok (<[fq_path (item_prefix (cmp_item cg)) (cmp_path cg) (cmp_key cg) := cg]> result).

Section configtx.
Context `{MapOrder}.

Fixpoint recurseConfig (group : ConfigGroup) (path : list string) (result : gmap string comparable)
    : outcome (gmap string comparable) :=
  let '(mkConfigGroup _ groups values policies _) := group in
  result ← addToMap (mkComparable (ItemGroup group) (List.last path "") (removelast path)) result;
  let subs := (λ g, recurseConfig g) <$> groups in
  result ← foldM (λ result key,
    match subs !! key with Some f => f (path ++ [key]) result | None => Ok result end)
    result (map_range ("group.Groups" :: path) 0 groups);
  result ← foldM (λ result key,
    match values !! key with Some v => addToMap (mkComparable (ItemValue v) key path) result | None => Ok result end)
    result (map_range ("group.Values" :: path) 0 values);
  foldM (λ result key,
    match policies !! key with Some p => addToMap (mkComparable (ItemPolicy p) key path) result | None => Ok result end)
    result (map_range ("group.Policies" :: path) 0 policies).

Definition mapConfig (channelGroup : option ConfigGroup) (rootGroupKey : string) : outcome (gmap string comparable) :=
  match channelGroup with
  | None => Ok ∅
  | Some g => recurseConfig g [rootGroupKey] ∅
  end.

(** The members of a group, one after the other. *)
Definition members {V} (F : string → outcome V) (keys : list string) (m : gmap string V) : outcome (gmap string V) :=
  foldM (λ m key, v ← F key; Ok (<[key := v]> m)) m keys.

Definition value_at (configMap : gmap string comparable) (path key : string) : outcome ConfigValue :=
  let valuePath := valuePrefix +:+ path +:+ "/" +:+ key in
  value ← from_option_err ("missing value at path: " +:+ valuePath) (configMap !! valuePath);
  match cmp_item value with ItemValue v => Ok v | _ => Err ("ConfigValue not found at value path: " +:+ valuePath) end.

Definition policy_at (configMap : gmap string comparable) (path key : string) : outcome ConfigPolicy :=
  let policyPath := policyPrefix +:+ path +:+ "/" +:+ key in
  policy ← from_option_err ("missing policy at path: " +:+ policyPath) (configMap !! policyPath);
  match cmp_item policy with ItemPolicy p => Ok p | _ => Err ("ConfigPolicy not found at policy path: " +:+ policyPath) end.

Definition fix_mod_policy (mp : string) : string := if bool_decide (mp = "") then hackyFixNewModPolicy else mp.

(** The upgrade of old channels, where an unset policy is replaced. *)
Definition hacky_fix (g : ConfigGroup) : ConfigGroup :=
  let '(mkConfigGroup v groups values policies mp) := g in
  mkConfigGroup v groups
    ((λ c, mkConfigValue (cv_Version c) (cv_Value c) (fix_mod_policy (cv_ModPolicy c))) <$> values)
    ((λ c, mkConfigPolicy (cfp_Version c) (cfp_Policy c) (fix_mod_policy (cfp_ModPolicy c))) <$> policies)
    (fix_mod_policy mp).

(** Every path that is followed is that of a group in the map, and longer than
    the one before: the size of the map bounds the recursion. *)
Fixpoint recurseConfigMap (fuel : nat) (path : string) (configMap : gmap string comparable) : outcome ConfigGroup :=
  match fuel with
  | O => Panic "recurseConfigMap"
  | S fuel =>
      let groupPath := groupPrefix +:+ path in
      group ← from_option_err ("missing group at path: " +:+ groupPath) (configMap !! groupPath);
      match cmp_item group with
      | ItemGroup (mkConfigGroup v groups values policies mp) =>
          newGroups ← members (λ key, recurseConfigMap fuel (path +:+ "/" +:+ key) configMap)
            (map_range ["newConfigGroup.Groups"; path] 0 groups) groups;
          newValues ← members (value_at configMap path) (map_range ["newConfigGroup.Values"; path] 0 values) values;
          newPolicies ← members (policy_at configMap path) (map_range ["newConfigGroup.Policies"; path] 0 policies) policies;
          let newConfigGroup := mkConfigGroup v newGroups newValues newPolicies mp in
          Ok (match configMap !! hackyFixOrdererCapabilities with
              | Some _ => hacky_fix newConfigGroup
              | None => newConfigGroup
              end)
      | _ => Err ("ConfigGroup not found at group path: " +:+ groupPath)
      end
  end.

Definition configMapToConfig (configMap : gmap string comparable) (rootGroupKey : string) : outcome ConfigGroup :=
  recurseConfigMap (S (size configMap)) ("/" +:+ rootGroupKey) configMap.

(** ** Updates (update.go) *)
Record ConfigUpdate := mkConfigUpdate {
  cu_ChannelId : string;
  cu_ReadSet : option ConfigGroup;
  cu_WriteSet : option ConfigGroup
}.
Record Config := mkConfig { cfg_Sequence : Z; cfg_ChannelGroup : option ConfigGroup }.
Record ConfigEnvelope := mkConfigEnvelope { ce_Config : option Config; ce_LastUpdate : option Envelope }.

Record ValidatorImpl := mkValidatorImpl {
  vi_channelID : string;
  vi_sequence : Z;
  vi_configMap : gmap string comparable;
  vi_configProto : Config;
  vi_namespace : string;
  vi_pm : ManagerImpl
}.

Definition verifyReadSet (vi : ValidatorImpl) (readSet : gmap string comparable) : outcome unit :=
  foldM (λ _ key,
    match readSet !! key with
    | Some value =>
        existing ← from_option_err ("existing config does not contain element for " +:+ key +:+ " but was in the read set")
          (vi_configMap vi !! key);
        if negb (version existing =? version value)%Z
        then Err ("proposed update requires that key " +:+ key +:+ " be at another version") else Ok ()
    | None => Ok ()
    end) () (map_range ["readSet"] 0 readSet).

Definition computeDeltaSet (readSet writeSet : gmap string comparable) : gmap string comparable :=
  foldl (λ result key,
    match writeSet !! key with
    | Some value =>
        match readSet !! key with
        | Some readVal => if (version readVal =? version value)%Z then result else <[key := value]> result
        | None => <[key := value]> result
        end
    | None => result
    end) ∅ (map_range ["writeSet"] 0 writeSet).

Definition validateModPolicy (modPolicy : string) : outcome unit :=
  match modPolicy with
  | EmptyString => Err "mod_policy not set"
  | String c rest =>
      let trimmed := if Ascii.eqb c "/" then rest else modPolicy in
      foldM (λ _ pathElement, with_message "path element is invalid" (validateConfigID pathElement)) () (split trimmed "/")
  end.

(** A missing manager or policy is [None]. *)
Definition policyForItem (vi : ValidatorImpl) (item : comparable) : outcome (option policy) :=
  let mp := modPolicy item in
  if negb (bool_decide (mp = "")) && negb (String.prefix "/" mp) && negb (bool_decide (cmp_path item = [])) then
    match Manager (vi_pm vi) (tail (cmp_path item)) with
    | None => Ok None
    | Some manager =>
        match cmp_item item with
        | ItemGroup _ =>
            match Manager manager [cmp_key item] with
            | None => Ok None
            | Some manager => manager_GetPolicy manager mp
            end
        | _ => manager_GetPolicy manager mp
        end
    end
  else manager_GetPolicy (vi_pm vi) mp.

Definition verify_change (vi : ValidatorImpl) (signedData : list SignedData) (key : string) (value : comparable)
    : outcome unit :=
  _ ← with_message ("invalid mod_policy for element " +:+ key) (validateModPolicy (modPolicy value));
  match vi_configMap vi !! key with
  | None =>
      if negb (version value =? 0)%Z then Err ("attempted to set key " +:+ key +:+ ", but key does not exist") else Ok ()
  | Some existing =>
      if negb (version value =? u64 (version existing + 1))%Z
      then Err ("attempt to set key " +:+ key +:+ ", but key is at another version")
      else
        policy ← policyForItem vi existing;
        policy ← from_option_err ("unexpected missing policy for item " +:+ key) policy;
        match p_EvaluateSignedData policy signedData with
        | None => Ok ()
        | Some e => Err ("policy for " +:+ key +:+ " not satisfied: " +:+ e)
        end
  end.

Definition verifyDeltaSet (vi : ValidatorImpl) (deltaSet : gmap string comparable) (signedData : list SignedData)
    : outcome unit :=
  if (size deltaSet =? 0)%nat then Err "delta set was empty -- update would have no effect"
  else
    foldM (λ _ key, match deltaSet !! key with Some value => verify_change vi signedData key value | None => Ok () end)
      () (map_range ["deltaSet"] 0 deltaSet).

Definition verifyFullProposedConfig (writeSet fullProposedConfig : gmap string comparable) : outcome unit :=
  foldM (λ _ key,
    match fullProposedConfig !! key with
    | Some _ => Ok ()
    | None => Err ("writeset contained key " +:+ key +:+ " which did not appear in proposed config")
    end) () (map_range ["writeSet"] 1 writeSet).

Definition computeUpdateResult (vi : ValidatorImpl) (updatedConfig : gmap string comparable) : gmap string comparable :=
  updatedConfig ∪ vi_configMap vi.

Context `{Codec} `{ProposalCodec}.
Context (unmarshal_ConfigUpdate : bytes → option ConfigUpdate).
Context (unmarshal_ConfigUpdateEnvelope : bytes → option ConfigUpdateEnvelope).

Definition authorizeUpdate (vi : ValidatorImpl) (configUpdateEnv : option ConfigUpdateEnvelope)
    : outcome (gmap string comparable) :=
  env ← from_option_err "cannot process nil ConfigUpdateEnvelope" configUpdateEnv;
  configUpdate ← from_option_err "error unmarshalling ConfigUpdate" (unmarshal_ConfigUpdate (cue_ConfigUpdate env));
  if negb (bool_decide (cu_ChannelId configUpdate = vi_channelID vi)) then Err "ConfigUpdate for another channel"
  else
    readSet ← with_message "error mapping ReadSet" (mapConfig (cu_ReadSet configUpdate) (vi_namespace vi));
    _ ← with_message "error validating ReadSet" (verifyReadSet vi readSet);
    writeSet ← with_message "error mapping WriteSet" (mapConfig (cu_WriteSet configUpdate) (vi_namespace vi));
    let deltaSet := computeDeltaSet readSet writeSet in
    signedData ← ConfigUpdateEnvelopeAsSignedData (Some env);
    _ ← with_message "error validating DeltaSet" (verifyDeltaSet vi deltaSet signedData);
    let fullProposedConfig := computeUpdateResult vi deltaSet in
    _ ← with_message "full config did not verify" (verifyFullProposedConfig writeSet fullProposedConfig);
    Ok fullProposedConfig.

(** [protoutil.EnvelopeToConfigUpdate]; a nil envelope is dereferenced. *)
Definition EnvelopeToConfigUpdate (configtx : option Envelope) : outcome ConfigUpdateEnvelope :=
  configtx ← deref configtx;
  '(_, configUpdateEnv) ← UnmarshalEnvelopeOfType unmarshal_ConfigUpdateEnvelope configtx HeaderType_CONFIG_UPDATE;
  Ok configUpdateEnv.

(** ** The validator (validator.go) *)
Definition NewValidatorImpl (channelID : string) (config : option Config) (namespace : string) (pm : ManagerImpl)
    : outcome ValidatorImpl :=
  config ← from_option_err "nil config parameter" config;
  channelGroup ← from_option_err "nil channel group" (cfg_ChannelGroup config);
  _ ← with_message "bad channel ID" (ValidateChannelID channelID);
  configMap ← with_message "error converting config to map" (mapConfig (Some channelGroup) namespace);
  Ok (mkValidatorImpl channelID (cfg_Sequence config) configMap config namespace pm).

Definition ProposeConfigUpdate (vi : ValidatorImpl) (configtx : option Envelope) : outcome ConfigEnvelope :=
  configUpdateEnv ← with_message "error converting envelope to config update" (EnvelopeToConfigUpdate configtx);
  configMap ← with_message "error authorizing update" (authorizeUpdate vi (Some configUpdateEnv));
  channelGroup ← with_message "could not turn configMap back to channelGroup" (configMapToConfig configMap (vi_namespace vi));
  Ok (mkConfigEnvelope (Some (mkConfig (u64 (vi_sequence vi + 1)) (Some channelGroup))) configtx).

(** [proto.Equal] compares the decoded messages, maps as maps. *)
Definition configtx_Validate (vi : ValidatorImpl) (configEnv : option ConfigEnvelope) : outcome unit :=
  configEnv ← from_option_err "config envelope is nil" configEnv;
  config ← from_option_err "config envelope has nil config" (ce_Config configEnv);
  if negb (cfg_Sequence config =? u64 (vi_sequence vi + 1))%Z then Err "config currently at another sequence"
  else
    configUpdateEnv ← EnvelopeToConfigUpdate (ce_LastUpdate configEnv);
    configMap ← authorizeUpdate vi (Some configUpdateEnv);
    channelGroup ← with_message "could not turn configMap back to channelGroup" (configMapToConfig configMap (vi_namespace vi));
    if bool_decide (Some channelGroup = cfg_ChannelGroup config) then Ok ()
    else Err "ConfigEnvelope LastUpdate did not produce the supplied config result".
End configtx.

(** ** Valid names *)
Lemma take_while_le f s : String.length (take_while f s) ≤ String.length s.
Proof. induction s as [|c s IH]; cbn; [lia|]. destruct (f c); cbn; lia. Qed.

Lemma find_string_le first rest s : String.length (find_string first rest s) ≤ String.length s.
Proof. induction s as [|c s IH]; cbn; [lia|]. destruct (first c); cbn; [pose proof (take_while_le rest s)|]; lia. Qed.

Lemma take_while_all f c s : f c = false → String.length (take_while f s) = String.length s → has_char c s = false.
Proof.
  intros Hf. induction s as [|d s IH]; cbn [take_while has_char String.length]; [done|].
  destruct (f d) eqn:Ed; cbn [String.length]; [|lia]. intros El. apply orb_false_iff. split; [|apply IH; lia].
  apply Ascii.eqb_neq. congruence.
Qed.

Lemma validateConfigID_Ok s : validateConfigID s = Ok () → s ≠ "" ∧ slash_free s.
Proof.
  unfold validateConfigID. destruct (Nat.leb_spec (String.length s) 0); [done|]. case_match; [done|].
  case_match; [done|]. destruct (Nat.eqb_spec (String.length (find_string configAllowed configAllowed s)) (String.length s))
    as [E|]; [|done]. intros _. split; [intros ->; cbn in *; lia|]. destruct s as [|c s]; [done|]. cbn [find_string] in E.
  destruct (configAllowed c) eqn:Ec.
  - cbn [String.length] in E. cbn [has_char]. apply orb_false_iff. split; [|apply (take_while_all configAllowed); [done|lia]].
    apply Ascii.eqb_neq. intros <-. done.
  - pose proof (find_string_le configAllowed configAllowed s). cbn [String.length] in E. lia.
Qed.

(** ** The elements of a tree *)
Definition fq (c : comparable) : string := fq_path (item_prefix (cmp_item c)) (cmp_path c) (cmp_key c).

Definition group_element (path : list string) (g : ConfigGroup) : comparable :=
  mkComparable (ItemGroup g) (List.last path "") (removelast path).

(** The elements of the tree [g] at [path]: its groups, their values and policies. *)
Inductive element (g : ConfigGroup) (path : list string) : comparable → Prop :=
| el_group ps g' : group_at g ps = Some g' → element g path (group_element (path ++ ps) g')
| el_value ps g' k v : group_at g ps = Some g' → cg_Values g' !! k = Some v →
    element g path (mkComparable (ItemValue v) k (path ++ ps))
| el_policy ps g' k p : group_at g ps = Some g' → cg_Policies g' !! k = Some p →
    element g path (mkComparable (ItemPolicy p) k (path ++ ps)).

Lemma element_below g path k g' c : cg_Groups g !! k = Some g' → element g' (path ++ [k]) c → element g path c.
Proof.
  intros Hk [ps g2 Hg|ps g2 key v Hg Hv|ps g2 key p Hg Hp]; rewrite <- (assoc_L (++)).
  - apply el_group. cbn. by rewrite Hk.
  - eapply el_value; [|done]. cbn. by rewrite Hk.
  - eapply el_policy; [|done]. cbn. by rewrite Hk.
Qed.

Lemma element_inv g path c :
  element g path c →
  c = group_element path g ∨ (∃ k v, cg_Values g !! k = Some v ∧ c = mkComparable (ItemValue v) k path) ∨
  (∃ k p, cg_Policies g !! k = Some p ∧ c = mkComparable (ItemPolicy p) k path) ∨
  ∃ k g', cg_Groups g !! k = Some g' ∧ element g' (path ++ [k]) c.
Proof.
  intros [[|n ps] g2 Hg|[|n ps] g2 key v Hg Hv|[|n ps] g2 key p Hg Hp]; cbn in Hg; rewrite ?app_nil_r; simplify_eq; eauto 10.
  all: apply bind_Some in Hg as (g1 & Hn & Hg); do 3 right; exists n, g1; (split; [done|]); change (n :: ps) with ([n] ++ ps); rewrite (assoc_L (++)).
  - by apply el_group.
  - by eapply el_value.
  - by eapply el_policy.
Qed.

Lemma element_self g path : element g path (group_element path g).
Proof. pose proof (el_group g path [] g eq_refl) as Hel. by rewrite app_nil_r in Hel. Qed.
Lemma element_value g path k v : cg_Values g !! k = Some v → element g path (mkComparable (ItemValue v) k path).
Proof. intros Hv. pose proof (el_value g path [] g k v eq_refl Hv) as Hel. by rewrite app_nil_r in Hel. Qed.
Lemma element_policy g path k p : cg_Policies g !! k = Some p → element g path (mkComparable (ItemPolicy p) k path).
Proof. intros Hp. pose proof (el_policy g path [] g k p eq_refl Hp) as Hel. by rewrite app_nil_r in Hel. Qed.

Section flatten.
Context `{MapOrder}.

(** A loop whose steps only add: what holds after the step of an element and is
    kept by all steps holds for every element. *)
Lemma foldM_all {A B} (Q : A → B → Prop) (f : B → A → outcome B) l b b' :
  (∀ x c c', x ∈ l → f c x = Ok c' → Q x c') →
  (∀ x y c c', y ∈ l → Q x c → f c y = Ok c' → Q x c') →
  foldM f b l = Ok b' → ∀ x, x ∈ l → Q x b'.
Proof.
  intros Hs Hk. revert b. induction l as [|y l IH]; intros b E x Hx; [by apply elem_of_nil in Hx|].
  cbn [foldM] in E. destruct (f b y) as [c| |] eqn:Ey; [|done..].
  apply elem_of_cons in Hx as [->|Hx].
  - eapply (foldM_inv (Q y)); [|eapply Hs; [by left|done]|done]. intros z d d' Hz Hq Ed. eapply Hk; [by right|done..].
  - eapply (IH ltac:(intros; eapply Hs; [by right|done]) ltac:(intros; eapply Hk; [by right|done..])); done.
Qed.

(** The map [r] is [m] with some elements of [E] put in. *)
Definition extends (E : comparable → Prop) (m r : gmap string comparable) : Prop :=
  ∀ k, r !! k = m !! k ∨ ∃ c, E c ∧ fq c = k ∧ r !! k = Some c.

(** An element of [E] stands at the path of [c], whose name is valid. *)
Definition stands (E : comparable → Prop) (c : comparable) (r : gmap string comparable) : Prop :=
  validateConfigID (cmp_key c) = Ok () ∧ ∃ c', E c' ∧ fq c' = fq c ∧ r !! fq c = Some c'.

Lemma extends_refl E m : extends E m m.
Proof. intros k. by left. Qed.
Lemma extends_trans E m r s : extends E m r → extends E r s → extends E m s.
Proof. intros H1 H2 k. destruct (H2 k) as [->|?]; [apply H1|by right]. Qed.
Lemma extends_mono (E E' : comparable → Prop) m r : (∀ c, E c → E' c) → extends E m r → extends E' m r.
Proof. intros HE Hx k. destruct (Hx k) as [?|(c & ? & ?)]; [by left|right; eauto]. Qed.
Lemma stands_extends E c m r : stands E c m → extends E m r → stands E c r.
Proof.
  intros [Hv (c' & Hc' & Ef & Hm)] Hx. split; [done|]. destruct (Hx (fq c)) as [E1|(c2 & ? & ? & ?)]; [|eauto].
  exists c'. by rewrite E1.
Qed.
Lemma stands_mono (E E' : comparable → Prop) c m : (∀ c, E c → E' c) → stands E c m → stands E' c m.
Proof. intros HE [Hv (c' & ? & ?)]. split; [done|]. eauto. Qed.

Lemma addToMap_Ok c m r :
  addToMap c m = Ok r → validateConfigID (cmp_key c) = Ok () ∧ r = <[fq c := c]> m.
Proof.
  unfold addToMap. intros E. apply bind_Ok in E as ([] & Hv%with_message_Ok & [= <-]). done.
Qed.

Lemma addToMap_adds (E : comparable → Prop) c m r : E c → addToMap c m = Ok r → extends E m r ∧ stands E c r.
Proof.
  intros Hc [Hv ->]%addToMap_Ok. split.
  - intros k. destruct (decide (fq c = k)) as [<-|Hk]; [right; exists c; by rewrite lookup_insert_eq|left].
    by rewrite lookup_insert_ne.
  - split; [done|]. exists c. by rewrite lookup_insert_eq.
Qed.

(** The loop over the members of one map of a group. *)
Lemma member_loop {V} (E : comparable → Prop) (mk : string → V → comparable) (vs : gmap string V) l m r :
  (∀ k v, vs !! k = Some v → E (mk k v)) → range_order vs l →
  foldM (λ m k, match vs !! k with Some v => addToMap (mk k v) m | None => Ok m end) m l = Ok r →
  extends E m r ∧ ∀ k v, vs !! k = Some v → stands E (mk k v) r.
Proof.
  intros HE Hl Ef.
  assert (∀ c k c', match vs !! k with Some v => addToMap (mk k v) c | None => Ok c end = Ok c' → extends E c c') as Hx.
  { intros c k c' Es. destruct (vs !! k) as [v|] eqn:Ev; [|simplify_eq; apply extends_refl].
    by apply (addToMap_adds E) in Es as [? _]; [|apply HE]. }
  split.
  - eapply (foldM_inv (extends E m)); [|apply extends_refl|done]. intros k c c' _ Hc Es.
    eapply extends_trans; [done|exact (Hx _ _ _ Es)].
  - intros k v Hk. eapply (foldM_all (λ k m, ∀ v, vs !! k = Some v → stands E (mk k v) m)); [..|exact Ef|by eapply range_order_elem; eauto|done].
    + intros x c c' _ Es v' Hv'. cbn beta in Es. rewrite Hv' in Es. by apply (addToMap_adds E) in Es as [_ ?]; [|apply HE].
    + intros x y c c' _ Hq Es v' Hv'. eapply stands_extends; [by apply Hq|exact (Hx _ _ _ Es)].
Qed.

Lemma recurseConfig_adds g path m r :
  recurseConfig g path m = Ok r → extends (element g path) m r ∧ ∀ c, element g path c → stands (element g path) c r.
Proof.
  revert path m r. induction g as [g IH] using ConfigGroup_tree_ind. intros path m r Er.
  destruct g as [ver groups values policies mp] eqn:Eg. cbn [recurseConfig] in Er. rewrite <- Eg in Er |- *.
  assert (cg_Groups g = groups ∧ cg_Values g = values ∧ cg_Policies g = policies) as (Hgs & Hvs & Hps) by by subst g.
  apply bind_Ok in Er as (m1 & E1 & Er). apply bind_Ok in Er as (m2 & E2 & Er). apply bind_Ok in Er as (m3 & E3 & E4).
  set (EL := element g path).
  destruct (addToMap_adds EL (group_element path g) m m1) as [X1 S1];
    [apply element_self|done|].
  destruct (member_loop EL (λ k v, mkComparable (ItemValue v) k path) values (map_range ("group.Values" :: path) 0 values) m2 m3)
    as [X3 S3]; [|apply map_range_ok|done|].
  { intros k v Hk. apply element_value. by rewrite Hvs. }
  destruct (member_loop EL (λ k v, mkComparable (ItemPolicy v) k path) policies (map_range ("group.Policies" :: path) 0 policies) m3 r)
    as [X4 S4]; [|apply map_range_ok|done|].
  { intros k v Hk. apply element_policy. by rewrite Hps. }
  assert (∀ c k c', match ((λ g, recurseConfig g) <$> groups) !! k with Some f => f (path ++ [k]) c | None => Ok c end = Ok c' →
    extends EL c c' ∧ ∀ g', groups !! k = Some g' → ∀ e, element g' (path ++ [k]) e → stands EL e c') as Hsub.
  { intros c k c' Es. rewrite lookup_fmap in Es. destruct (groups !! k) as [g'|] eqn:Hk; cbn in Es; [|simplify_eq; by split; [apply extends_refl|]].
    rewrite <- Hgs in Hk. destruct (IH k g' ltac:(by subst g) _ _ _ Es) as [Hx Hs].
    split; [eapply extends_mono; [|done]; intros; by eapply element_below|]. intros ? [= <-] e He.
    eapply stands_mono; [|by apply Hs]. intros; by eapply element_below. }
  assert (extends EL m1 m2) as X2.
  { eapply (foldM_inv (extends EL m1)); [|apply extends_refl|exact E2].
    intros k c c' _ Hc Es. eapply extends_trans; [done|]. by apply Hsub in Es as [? _]. }
  assert (∀ k g', groups !! k = Some g' → ∀ e, element g' (path ++ [k]) e → stands EL e m2) as S2.
  { intros k g' Hk. eapply (foldM_all (λ k m, ∀ g', groups !! k = Some g' → ∀ e, element g' (path ++ [k]) e → stands EL e m));
      [..|exact E2|by eapply range_order_elem; [apply map_range_ok|eauto]|done].
    - intros x c c' _ Es. by apply Hsub in Es as [_ ?].
    - intros x y c c' _ Hq Es g2 Hg2 e He. eapply stands_extends; [by eapply Hq|]. by apply Hsub in Es as [? _]. }
  split; [eauto using extends_trans|]. intros c Hc.
  apply element_inv in Hc as [->|[(k & v & Hk & ->)|[(k & p & Hk & ->)|(k & g' & Hk & He)]]].
  - eauto using stands_extends, extends_trans.
  - rewrite Hvs in Hk. eauto using stands_extends.
  - rewrite Hps in Hk. eauto.
  - rewrite Hgs in Hk. eauto using stands_extends, extends_trans.
Qed.

(** *** Different elements have different paths *)
Lemma split_joined l : l ≠ [] → Forall (λ s, slash_free s) l → split (joined l) "/" = l.
Proof.
  induction l as [|a l IH]; [done|]. intros _ [Ha Hl]%Forall_cons. destruct l as [|b l].
  - by apply (split_char_none "/").
  - rewrite joined_cons by done. change ("/" +:+ joined (b :: l)) with (String "/" (joined (b :: l))).
    rewrite (split_char_cons "/") by done. by rewrite IH.
Qed.

Definition well_named (c : comparable) : Prop := Forall (λ s, slash_free s) (cmp_path c ++ [cmp_key c]).

Lemma fq_inj c1 c2 :
  well_named c1 → well_named c2 → fq c1 = fq c2 →
  item_prefix (cmp_item c1) = item_prefix (cmp_item c2) ∧ cmp_path c1 = cmp_path c2 ∧ cmp_key c1 = cmp_key c2.
Proof.
  intros H1 H2 E. unfold fq, fq_path in E. apply string_app_inj_length in E as [Ep E].
  2: { by destruct (cmp_item c1), (cmp_item c2). }
  apply (string_app_inj_length "/" "/") in E as [_ E]; [|done]. apply (f_equal (λ s, split s "/")) in E.
  rewrite !split_joined in E; try done; try (by intros [_ ?]%app_nil).
  by apply app_inj_tail in E as [? ?].
Qed.

Lemma last_removelast (l : list string) : l ≠ [] → removelast l ++ [List.last l ""] = l.
Proof. intros Hl. symmetry. by apply app_removelast_last. Qed.

Lemma element_determined g path c1 c2 :
  path ≠ [] → element g path c1 → element g path c2 →
  item_prefix (cmp_item c1) = item_prefix (cmp_item c2) → cmp_path c1 = cmp_path c2 → cmp_key c1 = cmp_key c2 → c1 = c2.
Proof.
  intros Hp [ps1 g1 Hg1|ps1 g1 k1 v1 Hg1 Hv1|ps1 g1 k1 v1 Hg1 Hv1] [ps2 g2 Hg2|ps2 g2 k2 v2 Hg2 Hv2|ps2 g2 k2 v2 Hg2 Hv2];
    cbn; intros E1 E2 E3; try done.
  - assert (path ++ ps1 = path ++ ps2) as E.
    { rewrite <- (last_removelast (path ++ ps1)), <- (last_removelast (path ++ ps2)) by (by destruct path). by rewrite E2, E3. }
    apply app_inv_head in E as ->. by simplify_eq.
  - apply app_inv_head in E2 as ->. by simplify_eq.
  - apply app_inv_head in E2 as ->. by simplify_eq.
Qed.

Lemma group_at_names g path ps g' :
  (∀ c, element g path c → validateConfigID (cmp_key c) = Ok ()) → group_at g ps = Some g' → Forall (λ s, slash_free s) ps.
Proof.
  intros Hv Hg. apply Forall_forall. intros k Hk. apply list_elem_of_split in Hk as (p1 & p2 & ->).
  rewrite cons_middle, (assoc_L (++)), group_at_app in Hg. apply bind_Some in Hg as (g1 & Hg1 & _).
  specialize (Hv _ (el_group g path _ _ Hg1)). cbn in Hv. rewrite (assoc_L (++)), last_last in Hv.
  by apply validateConfigID_Ok in Hv as [_ ?].
Qed.

Lemma element_well_named g path c :
  path ≠ [] → Forall (λ s, slash_free s) path → (∀ c, element g path c → validateConfigID (cmp_key c) = Ok ()) →
  element g path c → well_named c.
Proof.
  intros Hp Hf Hv Hc. unfold well_named. pose proof (validateConfigID_Ok _ (Hv c Hc)) as [_ Hk].
  destruct Hc as [ps g' Hg|ps g' k v Hg _|ps g' k v Hg _]; cbn in *; pose proof (group_at_names _ _ _ _ Hv Hg) as Hps.
  - rewrite last_removelast by (by destruct path). by apply Forall_app.
  - apply Forall_app. split; [by apply Forall_app|by constructor].
  - apply Forall_app. split; [by apply Forall_app|by constructor].
Qed.

(** The map of a configuration holds exactly its elements, each at its path. *)
Lemma mapConfig_spec g root m :
  mapConfig (Some g) root = Ok m →
  slash_free root ∧ (∀ c, element g [root] c → well_named c ∧ m !! fq c = Some c) ∧
  (∀ k c, m !! k = Some c → element g [root] c ∧ fq c = k).
Proof.
  intros [Hx Hs]%recurseConfig_adds.
  assert (∀ c, element g [root] c → validateConfigID (cmp_key c) = Ok ()) as Hv by (intros c Hc; apply (Hs c Hc)).
  pose proof (validateConfigID_Ok _ (Hv _ (el_group g [root] [] g eq_refl))) as [_ Hroot]. cbn in Hroot.
  assert (∀ c, element g [root] c → well_named c) as Hw by (intros c Hc; apply (element_well_named g [root]); [done|by repeat constructor|done..]).
  split_and!; [done| |].
  - intros c Hc. split; [by apply Hw|]. destruct (Hs c Hc) as [_ (c' & Hc' & Ef & ->)]. f_equal.
    destruct (fq_inj c' c (Hw _ Hc') (Hw _ Hc) Ef) as (? & ? & ?). by apply (element_determined g [root]).
  - intros k c Hk. destruct (Hx k) as [E|(c' & ? & ? & ?)]; [by rewrite E, lookup_empty in Hk|]. by simplify_eq.
Qed.
End flatten.

(** ** From the map back to a tree *)
Section unflatten.
Context `{MapOrder}.

Lemma joined_snoc l k : l ≠ [] → joined (l ++ [k]) = joined l +:+ "/" +:+ k.
Proof.
  induction l as [|a l IH]; [done|]. intros _. destruct l as [|b l]; [done|].
  change ((a :: b :: l) ++ [k]) with (a :: ((b :: l) ++ [k])).
  rewrite !joined_cons, IH by done. by rewrite <- !string_app_assoc.
Qed.

Lemma members_put {V} (F : string → outcome V) l m : members F l m = foldM (put (λ k, Some (F k))) m l.
Proof. done. Qed.

Lemma members_panic {V} (F : string → outcome V) l m :
  is_panic (members F l m) = true → ∃ k, k ∈ l ∧ is_panic (F k) = true.
Proof.
  unfold members. revert m. induction l as [|k l IH]; intros m; cbn [foldM]; [done|].
  destruct (F k) as [v| |] eqn:E; cbn; [|done|].
  - intros (k' & ? & ?)%IH. exists k'. by split; [right|].
  - intros _. exists k. rewrite E. by split; [left|].
Qed.

(** *** Termination *)
Definition longer (m : gmap string comparable) (n : nat) : gset string := filter (λ k, n ≤ String.length k) (dom m).

Lemma longer_child (m : gmap string comparable) k n :
  is_Some (m !! k) → String.length k < n → size (longer m n) < size (longer m (String.length k)).
Proof.
  intros Hk Hn. apply subset_size. split.
  - intros j. unfold longer. rewrite !elem_of_filter. intros [? ?]. split; [lia|done].
  - intros Hs. assert (k ∈ longer m n) as Hin; [|unfold longer in Hin; apply elem_of_filter in Hin; lia].
    apply Hs, elem_of_filter. split; [lia|]. by apply elem_of_dom.
Qed.

Lemma value_at_returns m path k : is_panic (value_at m path k) = false.
Proof.
  unfold value_at. destruct (m !! (valuePrefix +:+ path +:+ "/" +:+ k)) as [c|]; [|done]. cbn. by destruct (cmp_item c).
Qed.
Lemma policy_at_returns m path k : is_panic (policy_at m path k) = false.
Proof.
  unfold policy_at. destruct (m !! (policyPrefix +:+ path +:+ "/" +:+ k)) as [c|]; [|done]. cbn. by destruct (cmp_item c).
Qed.

Lemma recurseConfigMap_returns fuel path m :
  size (longer m (String.length (groupPrefix +:+ path))) < fuel → is_panic (recurseConfigMap fuel path m) = false.
Proof.
  revert path. induction fuel as [|fuel IH]; intros path Hf; [lia|]. cbn [recurseConfigMap].
  destruct (m !! (groupPrefix +:+ path)) as [c|] eqn:Ec; [|done].
  assert (∀ k, is_panic (recurseConfigMap fuel (path +:+ "/" +:+ k) m) = false) as Hsub.
  { intros k. apply IH. pose proof (longer_child m (groupPrefix +:+ path) (String.length (groupPrefix +:+ path +:+ "/" +:+ k))
      ltac:(by eauto)) as Hl. rewrite !string_length_app in *. cbn [String.length] in *. lia. }
  go_simpl.
  destruct (cmp_item c) as [[v groups values policies mp]| |]; [|done..]. go_simpl.
  destruct (members _ _ groups) as [gs| |] eqn:Eg; [|done|].
  2: { assert (is_panic (members (λ key, recurseConfigMap fuel (path +:+ "/" +:+ key) m)
         (map_range ["newConfigGroup.Groups"; path] 0 groups) groups) = true) as (k & _ & Hk)%members_panic by by rewrite Eg.
       by rewrite Hsub in Hk. }
  destruct (members (value_at _ _) _ values) as [vs| |] eqn:Ev; [|done|].
  2: { assert (is_panic (members (value_at m path) (map_range ["newConfigGroup.Values"; path] 0 values) values) = true)
         as (k & _ & Hk)%members_panic by by rewrite Ev.
       by rewrite value_at_returns in Hk. }
  destruct (members (policy_at _ _) _ policies) as [ps| |] eqn:Ep; [by case_match|done|].
  assert (is_panic (members (policy_at m path) (map_range ["newConfigGroup.Policies"; path] 0 policies) policies) = true)
    as (k & _ & Hk)%members_panic by by rewrite Ep.
  by rewrite policy_at_returns in Hk.
Qed.

Lemma configMapToConfig_returns m root : is_panic (configMapToConfig m root) = false.
Proof.
  apply recurseConfigMap_returns. apply Nat.lt_succ_r. rewrite <- size_dom. apply subseteq_size.
  intros k [_ ?]%elem_of_filter. done.
Qed.

(** *** Round trip *)
Lemma members_id {V} (F : string → outcome V) l (m : gmap string V) :
  range_order m l → (∀ k v, m !! k = Some v → F k = Ok v ∨ is_panic (F k) = true) →
  members F l m = Ok m ∨ is_panic (members F l m) = true.
Proof.
  intros Hl HF. unfold members.
  assert (∀ k, k ∈ l → is_Some (m !! k)) as Hs by (intros k Hk; by eapply range_order_elem).
  clear Hl. induction l as [|k l IH]; cbn [foldM]; [by left|].
  destruct (Hs k) as [v Hv]; [by left|]. destruct (HF k v Hv) as [->|Hp]; [|right; by destruct (F k)].
  cbn. rewrite insert_id by done. apply IH. intros; apply Hs. by right.
Qed.

Lemma group_path path g : path ≠ [] → groupPrefix +:+ "/" +:+ joined path = fq (group_element path g).
Proof. intros Hp. unfold fq, fq_path, group_element. cbn [cmp_item cmp_key cmp_path item_prefix]. by rewrite last_removelast. Qed.

Lemma member_path prefix path k : path ≠ [] → prefix +:+ ("/" +:+ joined path) +:+ "/" +:+ k = fq_path prefix path k.
Proof. intros Hp. unfold fq_path. rewrite joined_snoc by done. by rewrite <- !string_app_assoc. Qed.

Lemma recurseConfigMap_id g root m fuel ps g' :
  (∀ c, element g [root] c → m !! fq c = Some c) → m !! hackyFixOrdererCapabilities = None → group_at g ps = Some g' →
  recurseConfigMap fuel ("/" +:+ joined (root :: ps)) m = Ok g' ∨
  is_panic (recurseConfigMap fuel ("/" +:+ joined (root :: ps)) m) = true.
Proof.
  intros Hm Hh. revert ps g'. induction fuel as [|fuel IH]; intros ps g' Hg; [by right|]. cbn [recurseConfigMap].
  assert (m !! (groupPrefix +:+ "/" +:+ joined (root :: ps)) = Some (group_element (root :: ps) g')) as ->.
  { rewrite (group_path _ g') by done. apply Hm. change (root :: ps) with ([root] ++ ps). by apply el_group. }
  go_simpl. destruct g' as [v groups values policies mp] eqn:Eg'. rewrite <- Eg' in Hg.
  assert (cg_Groups g' = groups ∧ cg_Values g' = values ∧ cg_Policies g' = policies) as (Hgs & Hvs & Hps) by by subst g'.
  destruct (members_id (λ key, recurseConfigMap fuel (("/" +:+ joined (root :: ps)) +:+ "/" +:+ key) m)
    (map_range ["newConfigGroup.Groups"; "/" +:+ joined (root :: ps)] 0 groups) groups) as [->|Hp]; [apply map_range_ok| | |].
  { intros k g2 Hk. rewrite <- string_app_assoc, <- joined_snoc by done. change ((root :: ps) ++ [k]) with (root :: (ps ++ [k])).
    apply IH. rewrite group_at_app, Hg. cbn. by rewrite Hgs, Hk. }
  2: { right. by destruct (members _ _ groups). }
  destruct (members_id (value_at m ("/" +:+ joined (root :: ps)))
    (map_range ["newConfigGroup.Values"; "/" +:+ joined (root :: ps)] 0 values) values) as [->|Hp]; [apply map_range_ok| | |].
  { intros k c Hk. left. unfold value_at. rewrite member_path by done.
    change (fq_path valuePrefix (root :: ps) k) with (fq (mkComparable (ItemValue c) k (root :: ps))). rewrite Hm; [done|]. change (root :: ps) with ([root] ++ ps).
    eapply el_value; [done|by rewrite Hvs]. }
  2: { right. by destruct (members _ _ values). }
  destruct (members_id (policy_at m ("/" +:+ joined (root :: ps)))
    (map_range ["newConfigGroup.Policies"; "/" +:+ joined (root :: ps)] 0 policies) policies) as [->|Hp]; [apply map_range_ok| | |].
  { intros k c Hk. left. unfold policy_at. rewrite member_path by done.
    change (fq_path policyPrefix (root :: ps) k) with (fq (mkComparable (ItemPolicy c) k (root :: ps))). rewrite Hm; [done|]. change (root :: ps) with ([root] ++ ps).
    eapply el_policy; [done|by rewrite Hps]. }
  2: { right. by destruct (members _ _ policies). }
  left. by rewrite Hh.
Qed.

(** Flattening a configuration and building it again gives the configuration,
    unless it is an old channel whose unset modification policies are filled in. *)
Theorem config_map_roundtrip (g : ConfigGroup) (root : string) (m : gmap string comparable) :
  mapConfig (Some g) root = Ok m → m !! hackyFixOrdererCapabilities = None → configMapToConfig m root = Ok g.
Proof.
  intros (_ & Hm & _)%mapConfig_spec Hh.
  destruct (recurseConfigMap_id g root m (S (size m)) [] g) as [E|Hp]; [intros c Hc; by apply Hm|done..|].
  pose proof (configMapToConfig_returns m root) as Hr. unfold configMapToConfig in Hr. cbn in Hp, Hr. congruence.
Qed.
End unflatten.

(** ** What an update may change *)

(** [c'] is [c0] as it is put into the tree: with the members of its groups
    rebuilt, and with [fix] applied to its modification policy. *)
Definition renewed (fix_ : string → string) (c0 c' : comparable) : Prop :=
  match cmp_item c0, cmp_item c' with
  | ItemGroup g0, ItemGroup g' =>
      cg_Version g' = cg_Version g0 ∧ cg_ModPolicy g' = fix_ (cg_ModPolicy g0) ∧ dom (cg_Groups g') = dom (cg_Groups g0) ∧
      dom (cg_Values g') = dom (cg_Values g0) ∧ dom (cg_Policies g') = dom (cg_Policies g0)
  | ItemValue v0, ItemValue v' => v' = mkConfigValue (cv_Version v0) (cv_Value v0) (fix_ (cv_ModPolicy v0))
  | ItemPolicy p0, ItemPolicy p' => p' = mkConfigPolicy (cfp_Version p0) (cfp_Policy p0) (fix_ (cfp_ModPolicy p0))
  | _, _ => False
  end.

Definition new_mod_policy (m : gmap string comparable) : string → string :=
  match m !! hackyFixOrdererCapabilities with Some _ => fix_mod_policy | None => id end.

Section update.
Context `{MapOrder}.

Lemma members_Ok {V} (F : string → outcome V) l (m r : gmap string V) :
  range_order m l → members F l m = Ok r → dom r = dom m ∧ ∀ k v, r !! k = Some v → F k = Ok v.
Proof.
  intros Hl E. rewrite members_put in E. apply foldM_put in E as [Hin Hout]; [|by eapply range_order_NoDup].
  assert (∀ k, is_Some (m !! k) → ∃ v, F k = Ok v ∧ r !! k = Some v) as Hr.
  { intros k Hk. apply Hin. by eapply range_order_elem. }
  assert (∀ k, m !! k = None → r !! k = None) as Hn.
  { intros k Hk. rewrite Hout; [done|]. intros [? ?]%(range_order_elem _ _ _ Hl). congruence. }
  split.
  - apply set_eq. intros k. rewrite !elem_of_dom. split.
    + intros [v Hv]. destruct (m !! k) eqn:Em; [by eauto|]. rewrite (Hn _ Em) in Hv. done.
    + intros (v & _ & ?)%Hr. eauto.
  - intros k v Hv. destruct (m !! k) eqn:Em; [|by rewrite (Hn _ Em) in Hv].
    destruct (Hr k) as (v' & ? & ?); [by eauto|]. congruence.
Qed.

Lemma recurseConfigMap_elements fuel path m g' c' :
  path ≠ [] → recurseConfigMap fuel ("/" +:+ joined path) m = Ok g' → element g' path c' →
  ∃ c0, m !! fq c' = Some c0 ∧ renewed (new_mod_policy m) c0 c'.
Proof.
  revert path g'. induction fuel as [|fuel IH]; intros path g' Hp E Hc; [done|]. cbn [recurseConfigMap] in E.
  apply bind_Ok in E as (c & Em%from_option_err_Ok & E).
  destruct (cmp_item c) as [[v groups values policies mp]| |] eqn:Ei; [|done..].
  apply bind_Ok in E as (gs & Egs & E). apply bind_Ok in E as (vs & Evs & E). apply bind_Ok in E as (ps & Eps & [= E]).
  apply members_Ok in Egs as [Dg Hg]; [|apply map_range_ok]. apply members_Ok in Evs as [Dv Hv]; [|apply map_range_ok].
  apply members_Ok in Eps as [Dp Hpol]; [|apply map_range_ok].
  assert (∃ vs' ps', g' = mkConfigGroup v gs vs' ps' (new_mod_policy m mp) ∧
    vs' = (λ c, mkConfigValue (cv_Version c) (cv_Value c) (new_mod_policy m (cv_ModPolicy c))) <$> vs ∧
    ps' = (λ c, mkConfigPolicy (cfp_Version c) (cfp_Policy c) (new_mod_policy m (cfp_ModPolicy c))) <$> ps)
    as (vs' & ps' & -> & Evs & Eps).
  { unfold new_mod_policy in *. destruct (m !! hackyFixOrdererCapabilities); [by eexists _, _|]. eexists _, _.
    split; [by rewrite <- E|]. split; (symmetry; rewrite <- map_fmap_id; apply map_fmap_ext; by intros ? []). }
  apply element_inv in Hc as [->|[(k & val & Hk & ->)|[(k & pol & Hk & ->)|(k & g2 & Hk & He)]]]; cbn [cg_Groups cg_Values cg_Policies] in *.
  - exists c. rewrite <- group_path by done. split; [done|]. unfold renewed. rewrite Ei. cbn.
    subst vs' ps'. rewrite !dom_fmap_L, Dg, Dv, Dp. done.
  - subst vs'. apply lookup_fmap_Some in Hk as (v0 & <- & Hk). specialize (Hv _ _ Hk). unfold value_at in Hv.
    rewrite member_path in Hv by done. apply bind_Ok in Hv as (c0 & Hc0%from_option_err_Ok & Hv). exists c0. split; [done|]. unfold renewed.
    destruct (cmp_item c0); [done| |done]. injection Hv as ->. done.
  - subst ps'. apply lookup_fmap_Some in Hk as (v0 & <- & Hk). specialize (Hpol _ _ Hk). unfold policy_at in Hpol.
    rewrite member_path in Hpol by done. apply bind_Ok in Hpol as (c0 & Hc0%from_option_err_Ok & Hv'). exists c0. split; [done|]. unfold renewed.
    destruct (cmp_item c0); [done..|]. injection Hv' as ->. done.
  - specialize (Hg _ _ Hk). rewrite <- string_app_assoc, <- joined_snoc in Hg by done.
    eapply IH; [|done..]. by destruct path.
Qed.

(** A loop that only checks accepts when every check does. *)
Lemma foldM_checks {K} (f : unit → K → outcome unit) l : foldM f () l = Ok () → ∀ k, k ∈ l → f () k = Ok ().
Proof.
  induction l as [|x l IH]; intros E k Hk; [by apply elem_of_nil in Hk|]. cbn [foldM] in E.
  destruct (f () x) as [[]| |] eqn:Ex; [|done..]. apply elem_of_cons in Hk as [->|Hk]; [done|by apply IH].
Qed.

Lemma checks_range {V} (f : unit → string → outcome unit) site n (m : gmap string V) :
  foldM f () (map_range site n m) = Ok () → ∀ k, is_Some (m !! k) → f () k = Ok ().
Proof. intros E k Hk. eapply foldM_checks; [done|]. by eapply range_order_elem; [apply map_range_ok|]. Qed.

Lemma verifyReadSet_Ok vi readSet k value :
  verifyReadSet vi readSet = Ok () → readSet !! k = Some value →
  ∃ existing, vi_configMap vi !! k = Some existing ∧ version existing = version value.
Proof.
  intros E Hk. eapply checks_range in E; [|by eexists]. cbn beta in E. rewrite Hk in E.
  apply bind_Ok in E as (existing & ?%from_option_err_Ok & E). exists existing. split; [done|].
  destruct (Z.eqb_spec (version existing) (version value)); done.
Qed.

(** The change of an element to [value] is allowed: the element is new, at
    version 0, or the policy of the one it replaces accepts the signatures. *)
Definition authorised (vi : ValidatorImpl) (g : ConfigGroup) (sd : list SignedData) (value : comparable) (key : string) : Prop :=
  ((∀ c, element g [vi_namespace vi] c → fq c ≠ key) ∧ version value = 0%Z) ∨
  ∃ existing p, element g [vi_namespace vi] existing ∧ fq existing = key ∧
    version value = u64 (version existing + 1) ∧
    policyForItem vi existing = Ok (Some p) ∧ p_EvaluateSignedData p sd = None.

Lemma verify_change_authorised vi g sd key value :
  mapConfig (Some g) (vi_namespace vi) = Ok (vi_configMap vi) → verify_change vi sd key value = Ok () →
  authorised vi g sd value key ∧ modPolicy value ≠ "".
Proof.
  intros (_ & Hin & Hof)%mapConfig_spec E. unfold verify_change in E. apply bind_Ok in E as ([] & Em & E).
  split; [|intros E0; by rewrite E0 in Em].
  destruct (vi_configMap vi !! key) as [existing|] eqn:Ek; [right|left].
  - destruct (Z.eqb_spec (version value) (u64 (version existing + 1))); [|done].
    apply bind_Ok in E as (op & Hp & E). apply bind_Ok in E as (p & ->%from_option_err_Ok & E).
    destruct (Hof _ _ Ek). exists existing, p. by destruct (p_EvaluateSignedData p sd).
  - destruct (Z.eqb_spec (version value) 0); [|done]. split; [|done]. intros c [_ Hc]%Hin <-. congruence.
Qed.

Context `{Codec} `{ProposalCodec}.
Context (unmarshal_ConfigUpdate : bytes → option ConfigUpdate).
Context (unmarshal_ConfigUpdateEnvelope : bytes → option ConfigUpdateEnvelope).
Notation authorize := (authorizeUpdate unmarshal_ConfigUpdate).
Notation to_update := (EnvelopeToConfigUpdate unmarshal_ConfigUpdateEnvelope).

Lemma authorizeUpdate_Ok vi env full :
  authorize vi (Some env) = Ok full →
  ∃ cu sd readSet delta, unmarshal_ConfigUpdate (cue_ConfigUpdate env) = Some cu ∧ cu_ChannelId cu = vi_channelID vi ∧
    ConfigUpdateEnvelopeAsSignedData (Some env) = Ok sd ∧ mapConfig (cu_ReadSet cu) (vi_namespace vi) = Ok readSet ∧
    verifyReadSet vi readSet = Ok () ∧ delta ≠ ∅ ∧
    (∀ k c, delta !! k = Some c → verify_change vi sd k c = Ok ()) ∧ full = delta ∪ vi_configMap vi.
Proof.
  intros E. unfold authorizeUpdate in E. cbn [from_option_err mbind outcome_bind] in E.
  apply bind_Ok in E as (cu & Hcu%from_option_err_Ok & E). case_bool_decide as Hid; [|done]. cbn [negb] in E.
  apply bind_Ok in E as (rs & Hrs%with_message_Ok & E). apply bind_Ok in E as ([] & Hv%with_message_Ok & E).
  apply bind_Ok in E as (ws & _ & E). apply bind_Ok in E as (sd & Hsd & E).
  apply bind_Ok in E as ([] & Hd%with_message_Ok & E). apply bind_Ok in E as (_ & _ & [= <-]).
  exists cu, sd, rs, (computeDeltaSet rs ws). unfold verifyDeltaSet in Hd.
  destruct (Nat.eqb_spec (size (computeDeltaSet rs ws)) 0) as [|Hne]; [done|].
  split_and!; try done.
  - intros E0. by rewrite E0 in Hne.
  - intros k c Hk. eapply checks_range in Hd; [|by eexists]. cbn beta in Hd. by rewrite Hk in Hd.
Qed.

End update.

(** ** Agreement

    The orderer that proposes an update and the peers that validate it visit
    the maps in orders of their own. *)
Lemma foldM_total {A B} (f : B → A → outcome B) l b :
  (∀ x c, x ∈ l → ∃ c', f c x = Ok c') → ∃ b', foldM f b l = Ok b'.
Proof.
  intros Hf. revert b. induction l as [|x l IH]; intros b; cbn [foldM]; [by eexists|].
  destruct (Hf x b) as [c ->]; [by left|]. apply IH. intros; apply Hf. by right.
Qed.

Lemma bind_total {A B} (o : outcome A) (f : A → outcome B) :
  (∃ a, o = Ok a) → (∀ a, ∃ b, f a = Ok b) → ∃ b, (o ≫= f) = Ok b.
Proof. intros [a ->] Hf. apply Hf. Qed.

Lemma bind_intro {A B} (o : outcome A) (f : A → outcome B) a b : o = Ok a → f a = Ok b → (o ≫= f) = Ok b.
Proof. by intros -> <-. Qed.

(** What is written at a version that was not read. *)
Lemma computeDeltaSet_lookup `{MapOrder} readSet writeSet k :
  computeDeltaSet readSet writeSet !! k =
  value ← writeSet !! k;
  match readSet !! k with
  | Some readVal => if (version readVal =? version value)%Z then None else Some value
  | None => Some value
  end.
Proof.
  unfold computeDeltaSet. set (step := λ _ _, _).
  assert (∀ l acc, acc !! k = None ∨ acc !! k = foldl step ∅ [k] !! k →
    foldl step acc l !! k = if decide (k ∈ l) then foldl step ∅ [k] !! k else acc !! k) as Hl.
  { induction l as [|x l IH]; intros acc Hacc; cbn [foldl]; [by rewrite decide_False by (by intros ?%elem_of_nil)|].
    rewrite IH.
    - destruct (decide (k = x)) as [->|Hx].
      + rewrite (decide_True (P := x ∈ x :: l)) by by left. case_decide; [done|].
        unfold step in *. cbn [foldl] in *. repeat case_match; simplify_map_eq; naive_solver.
      + rewrite (decide_ext (k ∈ x :: l) (k ∈ l)) by (rewrite elem_of_cons; naive_solver).
        assert (step acc x !! k = acc !! k) as -> by (unfold step; repeat case_match; by simplify_map_eq). done.
    - unfold step in *. cbn [foldl] in *. destruct (decide (k = x)) as [->|Hx]; repeat case_match; simplify_map_eq; naive_solver. }
  rewrite Hl by (left; apply lookup_empty). pose proof (range_order_elem _ _ k (map_range_ok ["writeSet"] 0 writeSet)) as Hk.
  case_decide as Hd.
  - unfold step. cbn. destruct (writeSet !! k); cbn; repeat case_match; by simplify_map_eq.
  - rewrite lookup_empty. destruct (writeSet !! k) eqn:E; [|done]. destruct Hd. apply Hk. eauto.
Qed.

Lemma foldM_checks_intro {K} (f : unit → K → outcome unit) l : (∀ k, k ∈ l → f () k = Ok ()) → foldM f () l = Ok ().
Proof.
  induction l as [|x l IH]; intros Hf; cbn [foldM]; [done|]. rewrite Hf by by left. apply IH. intros; apply Hf. by right.
Qed.

Lemma members_order {V} (F F' : string → outcome V) l l' (m r : gmap string V) :
  range_order m l → range_order m l' → (∀ k v, F k = Ok v → F' k = Ok v) →
  members F l m = Ok r → members F' l' m = Ok r.
Proof.
  intros Hl Hl' HF E. apply members_Ok in E as [Hd Hr]; [|done].
  destruct (foldM_total (λ m key, v ← F' key; Ok (<[key := v]> m)) l' m) as [r' Er'].
  { intros k c Hk. assert (is_Some (r !! k)) as [v Hv%Hr%HF].
    { apply elem_of_dom. rewrite Hd. apply elem_of_dom. by eapply range_order_elem. }
    rewrite Hv. by eexists. }
  change (members F' l' m = Ok r') in Er'. rewrite Er'. f_equal. apply members_Ok in Er' as [Hd' Hr']; [|done].
  apply map_eq. intros k. destruct (r !! k) as [v|] eqn:Ek.
  - assert (is_Some (r' !! k)) as [v' Hv'] by (apply elem_of_dom; rewrite Hd', <- Hd; apply elem_of_dom; by eexists).
    pose proof (HF _ _ (Hr _ _ Ek)). pose proof (Hr' _ _ Hv'). congruence.
  - apply not_elem_of_dom. rewrite Hd', <- Hd. by apply not_elem_of_dom.
Qed.

Section orders.
Context (O1 O2 : MapOrder).

Lemma checks_order {V} (f : unit → string → outcome unit) site n (m : gmap string V) :
  foldM f () (@map_range O1 V site n m) = Ok () → foldM f () (@map_range O2 V site n m) = Ok ().
Proof.
  intros E. apply foldM_checks_intro. intros k Hk. eapply (@checks_range O1); [done|].
  by eapply range_order_elem; [apply map_range_ok|].
Qed.

Lemma recurseConfig_total g path m :
  (∀ c, element g path c → validateConfigID (cmp_key c) = Ok ()) → ∃ r, @recurseConfig O2 g path m = Ok r.
Proof.
  revert path m. induction g as [g IH] using ConfigGroup_tree_ind. intros path m Hv.
  destruct g as [ver groups values policies mp] eqn:Eg. cbn [recurseConfig]. rewrite <- Eg in Hv |- *.
  assert (cg_Groups g = groups ∧ cg_Values g = values ∧ cg_Policies g = policies) as (Hgs & Hvs & Hps) by by subst g.
  assert (∀ c m, element g path c → ∃ r, addToMap c m = Ok r) as Hadd.
  { intros c m' Hc. unfold addToMap. rewrite (Hv c Hc). by eexists. }
  apply bind_total; [apply Hadd, element_self|intros m1].
  apply bind_total; [apply foldM_total|intros m2].
  { intros k c _. rewrite lookup_fmap. destruct (groups !! k) as [g'|] eqn:Hk; cbn; [|by eexists].
    apply (IH k g'); [by subst g|]. intros e He. apply Hv. eapply element_below; [|done]. by rewrite Hgs. }
  apply bind_total; [apply foldM_total|intros m3].
  { intros k c _. destruct (values !! k) as [v|] eqn:Hk; [|by eexists]. apply Hadd.
    apply element_value. by rewrite Hvs. }
  apply foldM_total. intros k c _. destruct (policies !! k) as [v|] eqn:Hk; [|by eexists]. apply Hadd.
  apply element_policy. by rewrite Hps.
Qed.

Lemma mapConfig_order g root m : @mapConfig O1 g root = Ok m → @mapConfig O2 g root = Ok m.
Proof.
  destruct g as [g|]; [|done]. intros E1. destruct (recurseConfig_total g [root] ∅) as [r Er].
  { intros c Hc. by apply (proj2 (recurseConfig_adds _ _ _ _ E1)) in Hc as [? _]. }
  change (@mapConfig O2 (Some g) root = Ok r) in Er. rewrite Er. f_equal.
  apply mapConfig_spec in E1 as (_ & Hin1 & Hof1). apply mapConfig_spec in Er as (_ & Hin2 & Hof2).
  apply map_eq. intros k. apply option_eq. intros c. split.
  - intros [Hc <-]%Hof2. by apply Hin1.
  - intros [Hc <-]%Hof1. by apply Hin2.
Qed.

Lemma recurseConfigMap_order fuel path m g :
  @recurseConfigMap O1 fuel path m = Ok g → @recurseConfigMap O2 fuel path m = Ok g.
Proof.
  revert path g. induction fuel as [|fuel IH]; intros path g E; [done|]. cbn [recurseConfigMap] in E |- *.
  apply bind_Ok in E as (c & -> & E). cbn [mbind outcome_bind].
  destruct (cmp_item c) as [[v groups values policies mp]| |]; [|done..].
  apply bind_Ok in E as (gs & Egs & E). apply bind_Ok in E as (vs & Evs & E). apply bind_Ok in E as (ps & Eps & E).
  eapply bind_intro; [eapply members_order; [apply (@map_range_ok O1)|apply map_range_ok| |exact Egs]; intros k v'; apply IH|].
  eapply bind_intro; [eapply members_order; [apply (@map_range_ok O1)|apply map_range_ok|done|exact Evs]|].
  eapply bind_intro; [eapply members_order; [apply (@map_range_ok O1)|apply map_range_ok|done|exact Eps]|]. exact E.
Qed.

Lemma computeDeltaSet_order readSet writeSet : @computeDeltaSet O1 readSet writeSet = @computeDeltaSet O2 readSet writeSet.
Proof. apply map_eq. intros k. by rewrite !computeDeltaSet_lookup. Qed.

Context `{Codec} `{ProposalCodec}.
Context (unmarshal_ConfigUpdate : bytes → option ConfigUpdate).
Context (unmarshal_ConfigUpdateEnvelope : bytes → option ConfigUpdateEnvelope).

Lemma authorizeUpdate_order vi env full :
  @authorizeUpdate O1 _ unmarshal_ConfigUpdate vi env = Ok full → @authorizeUpdate O2 _ unmarshal_ConfigUpdate vi env = Ok full.
Proof.
  intros E. unfold authorizeUpdate in *. apply bind_Ok in E as (e & -> & E). cbn [mbind outcome_bind].
  apply bind_Ok in E as (cu & -> & E). cbn [mbind outcome_bind]. case_bool_decide; [|done]. cbn [negb] in *.
  apply bind_Ok in E as (rs & Hrs%with_message_Ok & E). rewrite (mapConfig_order _ _ _ Hrs).
  apply bind_Ok in E as ([] & Hv%with_message_Ok & E). apply bind_Ok in E as (ws & Hws%with_message_Ok & E).
  apply checks_order in Hv. change (@verifyReadSet O2 vi rs = Ok ()) in Hv.
  cbn [with_message mbind outcome_bind]. rewrite Hv, (mapConfig_order _ _ _ Hws).
  cbn [with_message mbind outcome_bind]. apply bind_Ok in E as (sd & -> & E). cbn [mbind outcome_bind].
  apply bind_Ok in E as ([] & Hd%with_message_Ok & E). apply bind_Ok in E as ([] & Hf%with_message_Ok & E).
  rewrite <- computeDeltaSet_order. unfold verifyDeltaSet in *. destruct (_ =? 0); [done|].
  rewrite (checks_order _ _ _ _ Hd). apply checks_order in Hf.
  cbn [with_message mbind outcome_bind]. unfold verifyFullProposedConfig. by rewrite Hf.
Qed.

Lemma update_validates (vi : ValidatorImpl) (tx : option Envelope) (env' : ConfigEnvelope) :
  @ProposeConfigUpdate O1 _ _ unmarshal_ConfigUpdate unmarshal_ConfigUpdateEnvelope vi tx = Ok env' →
  @configtx_Validate O2 _ _ unmarshal_ConfigUpdate unmarshal_ConfigUpdateEnvelope vi (Some env') = Ok ().
Proof.
  intros E. unfold ProposeConfigUpdate in E. apply bind_Ok in E as (cue & Hc%with_message_Ok & E).
  apply bind_Ok in E as (full & Hf%with_message_Ok & E). apply bind_Ok in E as (g & Hg%with_message_Ok & [= <-]).
  unfold configtx_Validate. cbn [from_option_err mbind outcome_bind ce_Config cfg_Sequence ce_LastUpdate cfg_ChannelGroup].
  rewrite Z.eqb_refl. cbn [negb]. rewrite Hc. cbn [mbind outcome_bind]. rewrite (authorizeUpdate_order _ _ _ Hf).
  cbn [mbind outcome_bind]. unfold configMapToConfig in *. rewrite (recurseConfigMap_order _ _ _ _ Hg).
  cbn [with_message mbind outcome_bind]. by rewrite bool_decide_eq_true_2.
Qed.

(** C29: A configuration that one node proposes for an update is accepted by every
    node at the same configuration, in whatever order each visits the maps. *)
Theorem proposed_update_validates (vi : ValidatorImpl) (tx : option Envelope) (env' : ConfigEnvelope) :
  @ProposeConfigUpdate O1 _ _ unmarshal_ConfigUpdate unmarshal_ConfigUpdateEnvelope vi tx = Ok env' →
  @configtx_Validate O2 _ _ unmarshal_ConfigUpdate unmarshal_ConfigUpdateEnvelope vi (Some env') = Ok ().
Proof. apply update_validates. Qed.
End orders.

(** A configuration at the next sequence that names no update is dereferenced. *)
Lemma missing_last_update_panics `{MapOrder} `{Codec} `{ProposalCodec} dec1 dec2 vi config :
  cfg_Sequence config = u64 (vi_sequence vi + 1) →
  is_panic (configtx_Validate dec1 dec2 vi (Some (mkConfigEnvelope (Some config) None))) = true.
Proof. intros E. unfold configtx_Validate. cbn [from_option_err mbind outcome_bind ce_Config]. by rewrite E, Z.eqb_refl. Qed.

(** ** An update of a channel of one organisation *)
Section sample.

Definition reversed_map_order : MapOrder :=
  {| map_range V _ _ m := reverse (keys_of m);
     map_range_ok V _ _ m := Permutation_trans (reverse_Permutation (keys_of m)) (keys_of_order m) |}.

(** The orderer signs a larger batch size. *)
Definition batch_update : ConfigUpdate :=
  mkConfigUpdate "ch" (Some (mkConfigGroup 0 ∅ ∅ ∅ ""))
    (Some (mkConfigGroup 0 ∅ {[ "BatchSize" := mkConfigValue 1 "20" "Admins" ]} ∅ "")).
Definition batch_update_env : ConfigUpdateEnvelope := mkConfigUpdateEnvelope "CU" [mkConfigSignature "S" "sig"].
Definition batch_tx : Envelope := mkEnvelope "P" "sig:P".

Definition batch_codec : Codec := {|
  unmarshal_Envelope _ := None;
  unmarshal_Payload s := if decide (s = "P") then Some (mkPayload (Some (mkHeader "H" "S")) "CUE") else None;
  unmarshal_ChannelHeader s := if decide (s = "H") then Some (mkChannelHeader 2 "ch" "" 0 "" 0 None None) else None;
  unmarshal_Transaction _ := None;
  unmarshal_ChaincodeAction _ := None;
  unmarshal_TxReadWriteSet _ := None;
  unmarshal_KVRWSet _ := None;
  unmarshal_HashedRWSet _ := None
|}.
Definition batch_proposal_codec : ProposalCodec := {|
  unmarshal_Proposal _ := None;
  unmarshal_Header _ := None;
  unmarshal_PChannelHeader _ := None;
  unmarshal_SignatureHeader s := if decide (s = "S") then Some (mkSignatureHeader "orderer" "n") else None;
  unmarshal_ChaincodeHeaderExtension _ := None;
  unmarshal_ChaincodeProposalPayload _ := None;
  unmarshal_ChaincodeInvocationSpec _ := None;
  marshal_ChaincodeProposalPayload _ := Err "unknown message";
  sha256 b := b;
  hex_encode b := b
|}.
#[local] Existing Instances batch_codec batch_proposal_codec.
Definition decode_update (s : bytes) : option ConfigUpdate := if decide (s = "CU") then Some batch_update else None.
Definition decode_update_env (s : bytes) : option ConfigUpdateEnvelope := if decide (s = "CUE") then Some batch_update_env else None.

Definition sample_config : Config := mkConfig 4 (Some sample_channel).
Definition sample_map : gmap string comparable :=
  match @mapConfig sorted_map_order (Some sample_channel) "Channel" with Ok m => m | _ => ∅ end.
Definition sample_validator : ValidatorImpl := mkValidatorImpl "ch" 4 sample_map sample_config "Channel" sample_managers.
Definition larger_batches : ConfigGroup :=
  mkConfigGroup 0 {[ "Org1" := sample_org ]} {[ "BatchSize" := mkConfigValue 1 "20" "Admins" ]}
    (<[ "Writers" := sample_policy "orderer" ]> {[ "Admins" := sample_policy "orderer" ]}) "Admins".
Definition larger_env : ConfigEnvelope := mkConfigEnvelope (Some (mkConfig 5 (Some larger_batches))) (Some batch_tx).

Lemma sample_validator_built :
  @NewValidatorImpl sorted_map_order "ch" (Some sample_config) "Channel" sample_managers = Ok sample_validator.
Proof. vm_compute. reflexivity. Qed.

Lemma larger_batches_proposed :
  @ProposeConfigUpdate sorted_map_order _ _ decode_update decode_update_env sample_validator (Some batch_tx) = Ok larger_env.
Proof. vm_compute. reflexivity. Qed.

Lemma sample_mapped : @mapConfig sorted_map_order (Some sample_channel) "Channel" = Ok sample_map.
Proof.
  assert (is_ok (@mapConfig sorted_map_order (Some sample_channel) "Channel") = true) as Hok by (vm_compute; reflexivity).
  unfold sample_map. by destruct (mapConfig (Some sample_channel) "Channel").
Qed.
Lemma sample_no_orderer : sample_map !! hackyFixOrdererCapabilities = None.
Proof. vm_compute. reflexivity. Qed.

Lemma config_map_roundtrip_witness :
  @mapConfig sorted_map_order (Some sample_channel) "Channel" = Ok sample_map ∧
  @configMapToConfig sorted_map_order sample_map "Channel" = Ok sample_channel.
Proof.
  split; [exact sample_mapped|].
  exact (@config_map_roundtrip sorted_map_order sample_channel "Channel" sample_map sample_mapped sample_no_orderer).
Defined.


Lemma proposed_update_validates_witness :
  @configtx_Validate reversed_map_order _ _ decode_update decode_update_env sample_validator (Some larger_env) = Ok () ∧
  ce_Config larger_env ≠ Some sample_config.
Proof.
  split; [|done].
  apply (@proposed_update_validates sorted_map_order reversed_map_order batch_codec batch_proposal_codec
    decode_update decode_update_env sample_validator (Some batch_tx) larger_env larger_batches_proposed).
Defined.
End sample.
