(* ===== verification/BlockCutter.v ===== *)
(** * BlockCutter: ordered messages into batches (orderer/common/blockcutter/blockcutter.go)

    The receiver collects ordered messages until their number or their size in
    bytes calls for a block. Sizes are 32-bit. The channel's configuration may
    change between messages: it is an argument of every call. Times and metrics
    have no counterpart. *)

From S2P Require Import Prelude GoText Protos.

(** [channelconfig.BatchSize]'s two limits. *)
Record BatchSize := mkBatchSize { bs_MaxMessageCount : Z; bs_PreferredMaxBytes : Z }.

Record receiver := mkReceiver {
  pendingBatch : list Envelope;
  pendingBatchSizeBytes : Z
}.

Definition NewReceiverImpl : receiver := mkReceiver [] 0.

Definition messageSizeBytes (message : Envelope) : Z :=
  u32 (Z.of_nat (String.length (env_Payload message) + String.length (env_Signature message))).

Definition Cut (r : receiver) : list Envelope * receiver := (pendingBatch r, mkReceiver [] 0).

(** The batches, whether messages are pending, and the receiver afterwards. *)
Definition Ordered (ordererConfig : option BatchSize) (r : receiver) (msg : Envelope)
    : outcome (list (list Envelope) * bool * receiver) :=
  match ordererConfig with
  | None => Panic "Could not retrieve orderer config to query batch parameters, block cutting is not possible"
  | Some batchSize =>
      let size := messageSizeBytes msg in
      if (bs_PreferredMaxBytes batchSize <? size)%Z then
        let '(messageBatches, r) :=
          if bool_decide (pendingBatch r = []) then ([], r)
          else let '(messageBatch, r) := Cut r in ([messageBatch], r) in
        Ok (messageBatches ++ [[msg]], false, r)
      else
        let '(messageBatches, r) :=
          if (bs_PreferredMaxBytes batchSize <? u32 (pendingBatchSizeBytes r + size))%Z
          then let '(messageBatch, r) := Cut r in ([messageBatch], r) else ([], r) in
        let r := mkReceiver (pendingBatch r ++ [msg]) (u32 (pendingBatchSizeBytes r + size)) in
        if (bs_MaxMessageCount batchSize <=? u32 (Z.of_nat (length (pendingBatch r))))%Z
        then let '(messageBatch, r) := Cut r in Ok (messageBatches ++ [messageBatch], false, r)
        else Ok (messageBatches, true, r)
  end.

(** A run: the configuration at each message. *)
Fixpoint run_receiver (r : receiver) (msgs : list (BatchSize * Envelope)) : outcome (list (list Envelope) * receiver) :=
  match msgs with
  | [] => Ok ([], r)
  | (config, msg) :: rest =>
      '(batches, _, r) ← Ordered (Some config) r msg;
      '(more, r) ← run_receiver r rest;
      Ok (batches ++ more, r)
  end.

(** ** What the batches are *)
Definition total_size (batch : list Envelope) : Z := foldr Z.add 0%Z (messageSizeBytes <$> batch).

(** A batch within the limits: one message may exceed the preferred size. *)
Definition good_batch (config : BatchSize) (batch : list Envelope) : Prop :=
  batch ≠ [] ∧ (Z.of_nat (length batch) ≤ bs_MaxMessageCount config)%Z ∧
  (length batch = 1 ∨ (total_size batch ≤ bs_PreferredMaxBytes config)%Z).

Definition good_pending (config : BatchSize) (r : receiver) : Prop :=
  (Z.of_nat (length (pendingBatch r)) < bs_MaxMessageCount config)%Z ∧
  pendingBatchSizeBytes r = total_size (pendingBatch r) ∧
  (total_size (pendingBatch r) ≤ bs_PreferredMaxBytes config)%Z.

(** The limits are 32-bit, and the size of two messages within the preferred
    size does not wrap. *)
Definition good_config (config : BatchSize) : Prop :=
  (1 ≤ bs_MaxMessageCount config < 2 ^ 32)%Z ∧ (0 ≤ bs_PreferredMaxBytes config < 2 ^ 31)%Z.

Lemma total_size_snoc batch msg : total_size (batch ++ [msg]) = (total_size batch + messageSizeBytes msg)%Z.
Proof. unfold total_size. rewrite fmap_app. induction (messageSizeBytes <$> batch) as [|x l IH]; cbn in *; lia. Qed.

Lemma messageSizeBytes_range msg : (0 ≤ messageSizeBytes msg < 2 ^ 32)%Z.
Proof. unfold messageSizeBytes, u32, wrap. apply Z.mod_pos_bound. lia. Qed.

Lemma total_size_nonneg batch : (0 ≤ total_size batch)%Z.
Proof.
  unfold total_size. induction batch as [|m batch IH]; cbn; [lia|]. pose proof (messageSizeBytes_range m).
  unfold total_size in IH. lia.
Qed.

Lemma good_batch_pending config r : good_pending config r → pendingBatch r ≠ [] → good_batch config (pendingBatch r).
Proof. intros (Hl & _ & Hs) Hne. split_and!; [done|lia|by right]. Qed.

(** One message: the number of batches and what is pending, as the comment of
    [Ordered] says of the impossible cases. *)
Lemma Ordered_shape config r msg batches pending r' :
  Ordered (Some config) r msg = Ok (batches, pending, r') →
  length batches ≤ 2 ∧ (batches = [] → pending = true) ∧ (length batches = 2 → pending = false) ∧
  (pending = true → pendingBatch r' ≠ []) ∧ List.concat batches ++ pendingBatch r' = pendingBatch r ++ [msg].
Proof.
  unfold Ordered, Cut. intros E. repeat case_match; simplify_eq/=; split_and!; try done; try lia;
    rewrite ?app_nil_r; try done; try (intros _; by destruct (pendingBatch _)).
  match goal with Hd : bool_decide _ = true |- _ => apply bool_decide_eq_true in Hd; by rewrite Hd end.
Qed.

Lemma Ordered_good config r msg :
  good_config config → good_pending config r →
  ∃ batches pending r', Ordered (Some config) r msg = Ok (batches, pending, r') ∧ good_pending config r' ∧
    Forall (good_batch config) batches.
Proof.
  intros [Hc Hp] Hg. pose proof Hg as (Hl & Hs & Ht).
  pose proof (messageSizeBytes_range msg) as Hm. pose proof (total_size_nonneg (pendingBatch r)) as Hn.
  assert (good_pending config (mkReceiver [] 0)) as Hempty by (split_and!; cbn; lia).
  assert (good_batch config [msg]) as Hone by (split_and!; cbn; try done; [lia|by left]).
  unfold Ordered, Cut.
  destruct (Z.ltb_spec (bs_PreferredMaxBytes config) (messageSizeBytes msg)) as [Hbig|Hsmall].
  - case_bool_decide as Hemp; do 3 eexists; (split; [reflexivity|]).
    + split; [done|]. constructor; [done|constructor].
    + split; [done|]. constructor; [by apply good_batch_pending|]. constructor; [done|constructor].
  - rewrite Hs. unfold u32, wrap. rewrite Z.mod_small by lia.
    destruct (Z.ltb_spec (bs_PreferredMaxBytes config) (total_size (pendingBatch r) + messageSizeBytes msg)) as [Hover|Hfits].
    + assert (pendingBatch r ≠ []) as Hne by (intros E; rewrite E in *; cbn in *; lia).
      cbn [pendingBatch pendingBatchSizeBytes app length]. rewrite (Z.mod_small (Z.of_nat 1)) by lia.
      destruct (Z.leb_spec (bs_MaxMessageCount config) (Z.of_nat 1)); do 3 eexists; (split; [reflexivity|]).
      * split; [done|]. constructor; [by apply good_batch_pending|]. constructor; [done|constructor].
      * split; [|constructor; [by apply good_batch_pending|constructor]].
        rewrite Z.mod_small by lia. split_and!; cbn; lia.
    + cbn [pendingBatch pendingBatchSizeBytes]. rewrite length_app. cbn [length].
      rewrite (Z.mod_small (Z.of_nat _)) by lia. rewrite Hs, (Z.mod_small (total_size _ + _)) by lia.
      destruct (Z.leb_spec (bs_MaxMessageCount config) (Z.of_nat (length (pendingBatch r) + 1))); do 3 eexists; (split; [reflexivity|]).
      * split; [done|]. constructor; [|constructor]. split_and!; [by destruct (pendingBatch r)|rewrite length_app; cbn [length]; lia|].
        right. rewrite total_size_snoc. done.
      * split; [|constructor]. split_and!; cbn [pendingBatch pendingBatchSizeBytes];
          rewrite ?length_app, ?total_size_snoc; cbn [length]; lia.
Qed.

(** C37: cutting blocks: under any configuration within the limits the receiver
    keeps every message once and in order; every batch it cuts has a message,
    at most the maximum number of them and, unless it is one message that is too
    large by itself, at most the preferred size; the messages that stay pending
    are within the limits too. *)
Theorem batches_spec (config : BatchSize) (msgs : list Envelope) :
  good_config config →
  ∃ batches r, run_receiver NewReceiverImpl (pair config <$> msgs) = Ok (batches, r) ∧
    List.concat batches ++ pendingBatch r = msgs ∧ Forall (good_batch config) batches ∧ good_pending config r.
Proof.
  intros Hc. enough (∀ r, good_pending config r → ∃ batches r', run_receiver r (pair config <$> msgs) = Ok (batches, r') ∧
    List.concat batches ++ pendingBatch r' = pendingBatch r ++ msgs ∧ Forall (good_batch config) batches ∧
    good_pending config r') as Hrun.
  { apply (Hrun NewReceiverImpl). destruct Hc. split_and!; cbn; lia. }
  induction msgs as [|msg msgs IH]; intros r Hr; cbn [fmap list_fmap run_receiver].
  - exists [], r. rewrite app_nil_r. split_and!; [done..|constructor|done].
  - destruct (Ordered_good config r msg Hc Hr) as (batches & pending & r1 & E & Hr1 & Hb). rewrite E. go_simpl.
    apply Ordered_shape in E as (_ & _ & _ & _ & Econs). destruct (IH r1 Hr1) as (more & r' & E' & Econs' & Hb' & Hr').
    rewrite E'. exists (batches ++ more), r'. split_and!; [done| |by apply Forall_app|done].
    rewrite concat_app, <- app_assoc, Econs', app_assoc, Econs, <- app_assoc. done.
Qed.

Lemma batches_spec_witness :
  ∃ batches r, run_receiver NewReceiverImpl (pair (mkBatchSize 2 5) <$>
      [mkEnvelope "aa" "b"; mkEnvelope "ccc" "d"; mkEnvelope "eeeeee" "f"; mkEnvelope "g" "h"]) = Ok (batches, r) ∧
    Forall (good_batch (mkBatchSize 2 5)) batches ∧ length batches = 3.
Proof.
  destruct (batches_spec (mkBatchSize 2 5)
    [mkEnvelope "aa" "b"; mkEnvelope "ccc" "d"; mkEnvelope "eeeeee" "f"; mkEnvelope "g" "h"]) as (bs & r & E & _ & Hb & _).
  { split; cbn; lia. }
  exists bs, r. split_and!; [done..|]. vm_compute in E. by injection E as <- _.
Defined.
