(* ===== verification/Blocks.v ===== *)
(** * Blocks: headers, hashes and metadata of blocks (protoutil/blockutils.go)

    A block's header holds its number, the hash of the header before and the
    hash of its data. [encoding/asn1] is modelled for the one structure the code
    encodes; SHA-256 is that of the class [ProposalCodec]. The messages of the
    metadata are decoded by the class [MetadataCodec]. The blocks of the other
    files are these without the hashes ([plain]). *)

From Stdlib Require Import Ascii.
From S2P Require Import Prelude GoText Utf8 Protos Proposal ProtoUtil.

Record BlockHeader := mkBlockHeader { bh_Number : Z; bh_PreviousHash : bytes; bh_DataHash : bytes }.
Record FullBlock := mkFullBlock {
  fb_Header : option BlockHeader;
  fb_Data : option (list bytes);
  fb_Metadata : option (list bytes)
}.

#[export] Instance BlockHeader_eq_dec : EqDecision BlockHeader.
Proof. solve_decision. Defined.

Definition plain (b : FullBlock) : Block := mkBlock (bh_Number <$> fb_Header b) (fb_Data b) (fb_Metadata b).

#[local] Arguments String.append : simpl nomatch.

(** ** asn1.Marshal *)
(** Big-endian, without leading zeros; eight bytes hold the 64-bit values that
    are encoded. *)
Fixpoint be_min (fuel : nat) (n : Z) (acc : string) : string :=
  match fuel with
  | O => acc
  | S fuel => if (n =? 0)%Z then acc else be_min fuel (n / 256) (String (chr (n mod 256)) acc)
  end.
Definition be_trimmed (n : Z) : string := be_min 8 n "".

Definition der_length (n : nat) : string :=
  let n := Z.of_nat n in
  if (n <? 128)%Z then String (chr n) ""
  else let s := be_trimmed n in String (chr (128 + Z.of_nat (String.length s))) s.

Definition der_tlv (tag : Z) (contents : string) : string :=
  String (chr tag) (der_length (String.length contents) +:+ contents).

(** [makeBigInt] of a number that is not negative. *)
Definition der_int (n : Z) : string :=
  match be_trimmed n with
  | EmptyString => String (chr 0) ""
  | String c s => if (128 <=? code c)%Z then String (chr 0) (String c s) else String c s
  end.

Section blockutils.
Context `{Codec} `{ProposalCodec}.

(** ** Blocks *)
Definition BlockMetadataIndex_SIGNATURES : nat := 0.
Definition BlockMetadataIndex_LAST_CONFIG : nat := 1.
Definition BlockMetadataIndex_ORDERER : nat := 3.
Definition BlockMetadataIndex_COMMIT_HASH : nat := 4.

(** [len(cb.BlockMetadataIndex_name)] is 5. *)
Definition NewBlock (seqNum : Z) (previousHash : bytes) : FullBlock :=
  mkFullBlock (Some (mkBlockHeader seqNum previousHash "")) (Some []) (Some (replicate 5 "")).

Definition BlockHeaderBytes (b : BlockHeader) : bytes :=
  der_tlv 48 (der_tlv 2 (der_int (bh_Number b)) +:+ der_tlv 4 (bh_PreviousHash b) +:+ der_tlv 4 (bh_DataHash b)).

Definition BlockHeaderHash (b : BlockHeader) : bytes := sha256 (BlockHeaderBytes b).

(** [bytes.Join] with a nil separator. *)
Definition bytes_join (data : list bytes) : bytes := foldr String.append "" data.
Definition BlockDataHash (data : list bytes) : bytes := sha256 (bytes_join data).

Definition GetChannelIDFromBlock (block : option FullBlock) : outcome string :=
  match block ≫= fb_Data with
  | None | Some [] => Err "failed to retrieve channel id - block is empty"
  | Some (d :: _) =>
      envelope ← GetEnvelopeFromBlock d;
      payload ← Proposal.decoded "Payload" (unmarshal_Payload (env_Payload envelope));
      header ← from_option_err "failed to retrieve channel id - payload header is empty" (payload_Header payload);
      chdr ← Proposal.decoded "ChannelHeader" (unmarshal_ChannelHeader (hdr_ChannelHeader header));
      Ok (chdr_ChannelId chdr)
  end.

(** ** Metadata *)
Record MetadataSignature := mkMetadataSignature { mds_SignatureHeader : bytes; mds_Signature : bytes }.
Record Metadata := mkMetadata { md_Value : bytes; md_Signatures : list MetadataSignature }.
(** [LastConfig.Index]; nil when the message has no last config. *)
Record OrdererBlockMetadata := mkOrdererBlockMetadata { obm_LastConfig : option Z; obm_ConsenterMetadata : bytes }.

Class MetadataCodec := {
  unmarshal_Metadata : bytes → option Metadata;
  marshal_Metadata : Metadata → outcome bytes;
  unmarshal_LastConfig : bytes → option Z;
  marshal_LastConfig : Z → outcome bytes;
  unmarshal_OrdererBlockMetadata : bytes → option OrdererBlockMetadata;
  marshal_OrdererBlockMetadata : OrdererBlockMetadata → outcome bytes
}.

Context `{MetadataCodec}.

Definition GetMetadataFromBlock (block : FullBlock) (idx : nat) : outcome Metadata :=
  metadata ← from_option_err "no metadata in block" (fb_Metadata block);
  if (length metadata <=? idx)%nat then Err "no metadata at index"
  else
    raw ← index metadata idx;
    from_option_err "error unmarshalling metadata at index" (unmarshal_Metadata raw).

Definition GetMetadataFromBlockOrPanic (block : FullBlock) (idx : nat) : outcome Metadata :=
  or_panic (GetMetadataFromBlock block idx).

Definition GetConsenterMetadataFromBlock (block : FullBlock) : outcome Metadata :=
  m ← with_message "failed to retrieve metadata" (GetMetadataFromBlock block BlockMetadataIndex_SIGNATURES);
  if bool_decide (md_Value m = "") then GetMetadataFromBlock block BlockMetadataIndex_ORDERER
  else
    obm ← from_option_err "failed to unmarshal orderer block metadata" (unmarshal_OrdererBlockMetadata (md_Value m));
    from_option_err "failed to unmarshal consenter metadata" (unmarshal_Metadata (obm_ConsenterMetadata obm)).

Definition GetLastConfigIndexFromBlock (block : FullBlock) : outcome Z :=
  m ← with_message "failed to retrieve metadata" (GetMetadataFromBlock block BlockMetadataIndex_SIGNATURES);
  if bool_decide (md_Value m = "") then
    m ← with_message "failed to retrieve metadata" (GetMetadataFromBlock block BlockMetadataIndex_LAST_CONFIG);
    from_option_err "error unmarshalling LastConfig" (unmarshal_LastConfig (md_Value m))
  else
    obm ← from_option_err "failed to unmarshal orderer block metadata" (unmarshal_OrdererBlockMetadata (md_Value m));
    deref (obm_LastConfig obm).

Definition GetLastConfigIndexFromBlockOrPanic (block : FullBlock) : outcome Z := or_panic (GetLastConfigIndexFromBlock block).

(** The missing slots are appended. *)
Definition InitBlockMetadata (block : FullBlock) : FullBlock :=
  let md := match fb_Metadata block with
            | None => replicate 5 ""
            | Some md => md ++ replicate (S BlockMetadataIndex_COMMIT_HASH - length md) ""
            end in
  mkFullBlock (fb_Header block) (fb_Data block) (Some md).

Definition CopyBlockMetadata (src dst : FullBlock) : FullBlock :=
  InitBlockMetadata (mkFullBlock (fb_Header dst) (fb_Data dst) (fb_Metadata src)).

(** ** Well-formed transactions *)
Context (marshal_Envelope : Envelope → outcome bytes).

Definition tx_well_formed (i : nat) (rawTx : bytes) : outcome unit :=
  env ← from_option_err ("transaction " +:+ format_uint (Z.of_nat i) +:+ " is invalid") (unmarshal_Envelope rawTx);
  if bool_decide (env_Payload env = "") then Err ("transaction " +:+ format_uint (Z.of_nat i) +:+ " has no payload")
  else if bool_decide (env_Signature env = "") then Err ("transaction " +:+ format_uint (Z.of_nat i) +:+ " has no signature")
  else
    expected ← with_message "failed re-marshaling envelope" (marshal_Envelope env);
    if (String.length expected <? String.length rawTx)%nat
    then Err ("transaction " +:+ format_uint (Z.of_nat i) +:+ " has trailing bytes")
    else if negb (bool_decide (expected = rawTx))
    then Err ("transaction " +:+ format_uint (Z.of_nat i) +:+ " does not match its raw form")
    else Ok ().

Fixpoint txs_well_formed (i : nat) (data : list bytes) : outcome unit :=
  match data with
  | [] => Ok ()
  | rawTx :: rest => _ ← tx_well_formed i rawTx; txs_well_formed (S i) rest
  end.

Definition VerifyTransactionsAreWellFormed (block : option FullBlock) : outcome unit :=
  match block with
  | None => Err "empty block"
  | Some block =>
      match fb_Data block with
      | None | Some [] => Err "empty block"
      | Some data => if IsConfigBlock (plain block) then Ok () else txs_well_formed 0 data
      end
  end.
End blockutils.

(** ** The bytes of a header determine it *)
Fixpoint be_value (s : string) (acc : Z) : Z :=
  match s with
  | EmptyString => acc
  | String c s => be_value s (acc * 256 + code c)
  end.

Lemma be_value_min fuel n acc : (0 ≤ n < 256 ^ Z.of_nat fuel)%Z → be_value (be_min fuel n acc) 0 = be_value acc n.
Proof.
  revert n acc. induction fuel as [|fuel IH]; intros n acc Hn; cbn [be_min].
  - change (256 ^ Z.of_nat 0)%Z with 1%Z in Hn. by replace n with 0%Z by lia.
  - destruct (Z.eqb_spec n 0) as [->|Hne]; [done|]. rewrite Nat2Z.inj_succ, Z.pow_succ_r in Hn by lia.
    rewrite IH; cbn [be_value].
    + rewrite code_chr by (apply Z.mod_pos_bound; lia). f_equal. rewrite Z.mul_comm. symmetry. apply Z.div_mod. lia.
    + split; [apply Z.div_pos; lia|]. apply Z.div_lt_upper_bound; lia.
Qed.

Lemma be_min_length fuel n acc : String.length (be_min fuel n acc) ≤ fuel + String.length acc.
Proof.
  revert n acc. induction fuel as [|fuel IH]; intros n acc; cbn [be_min]; [done|]. destruct (n =? 0)%Z; [lia|].
  etrans; [apply IH|]. cbn [String.length]. lia.
Qed.

Lemma be_trimmed_value n : (0 ≤ n < 2 ^ 64)%Z → be_value (be_trimmed n) 0 = n.
Proof. intros Hn. by apply (be_value_min 8 n ""). Qed.

Lemma be_trimmed_length n : String.length (be_trimmed n) ≤ 8.
Proof. etrans; [apply be_min_length|]. cbn. lia. Qed.

Lemma be_value_der_int n : (0 ≤ n < 2 ^ 64)%Z → be_value (der_int n) 0 = n.
Proof.
  intros Hn. rewrite <- (be_trimmed_value n Hn) at 2. unfold der_int. destruct (be_trimmed n) as [|c s]; [done|].
  by destruct (128 <=? code c)%Z.
Qed.

Lemma der_int_length n : String.length (der_int n) ≤ 9.
Proof.
  pose proof (be_trimmed_length n). unfold der_int. destruct (be_trimmed n); cbn [String.length] in *; [lia|].
  destruct (128 <=? _)%Z; cbn [String.length]; lia.
Qed.

Lemma chr_inj a b : (0 ≤ a < 256)%Z → (0 ≤ b < 256)%Z → chr a = chr b → a = b.
Proof. intros Ha Hb E. rewrite <- (code_chr a Ha), <- (code_chr b Hb). by rewrite E. Qed.

Lemma der_length_inj n m x y :
  (Z.of_nat n < 2 ^ 63)%Z → (Z.of_nat m < 2 ^ 63)%Z → der_length n +:+ x = der_length m +:+ y → n = m ∧ x = y.
Proof.
  intros Hn Hm E. unfold der_length in E.
  pose proof (be_trimmed_length (Z.of_nat n)). pose proof (be_trimmed_length (Z.of_nat m)).
  destruct (Z.ltb_spec (Z.of_nat n) 128), (Z.ltb_spec (Z.of_nat m) 128); injection E as E1 E2; apply chr_inj in E1; try lia.
  - split; [lia|done].
  - apply string_app_inj_length in E2 as [E2 ->]; [|lia]. split; [|done].
    apply (f_equal (λ s, be_value s 0)) in E2. rewrite !be_trimmed_value in E2 by lia. lia.
Qed.

Lemma der_tlv_inj tag c d x y :
  (Z.of_nat (String.length c) < 2 ^ 63)%Z → (Z.of_nat (String.length d) < 2 ^ 63)%Z →
  der_tlv tag c +:+ x = der_tlv tag d +:+ y → c = d ∧ x = y.
Proof.
  intros Hc Hd E. unfold der_tlv in E. injection E as E. rewrite <- !string_app_assoc in E.
  apply der_length_inj in E as [El E]; [|done..]. by apply string_app_inj_length in E.
Qed.

(** A 64-bit number; hashes that fit in memory. *)
Definition header_ok (h : BlockHeader) : Prop :=
  (0 ≤ bh_Number h < 2 ^ 64)%Z ∧ (Z.of_nat (String.length (bh_PreviousHash h)) < 2 ^ 32)%Z ∧
  (Z.of_nat (String.length (bh_DataHash h)) < 2 ^ 32)%Z.

Lemma der_length_length n : String.length (der_length n) ≤ 9.
Proof.
  unfold der_length. pose proof (be_trimmed_length (Z.of_nat n)). destruct (Z.of_nat n <? 128)%Z; cbn [String.length]; lia.
Qed.

Lemma der_tlv_length tag c : String.length (der_tlv tag c) ≤ 10 + String.length c.
Proof. unfold der_tlv. cbn [String.length]. rewrite string_length_app. pose proof (der_length_length (String.length c)). lia. Qed.

Lemma BlockHeaderBytes_inj h1 h2 : header_ok h1 → header_ok h2 → BlockHeaderBytes h1 = BlockHeaderBytes h2 → h1 = h2.
Proof.
  assert (∀ h, header_ok h → (Z.of_nat (String.length (der_tlv 2 (der_int (bh_Number h)) +:+ der_tlv 4 (bh_PreviousHash h) +:+
    der_tlv 4 (bh_DataHash h))) < 2 ^ 63)%Z) as Hlen.
  { intros h (_ & Hp & Hd). rewrite !string_length_app.
    pose proof (der_tlv_length 2 (der_int (bh_Number h))). pose proof (der_tlv_length 4 (bh_PreviousHash h)).
    pose proof (der_tlv_length 4 (bh_DataHash h)). pose proof (der_int_length (bh_Number h)). lia. }
  intros H1 H2 E. unfold BlockHeaderBytes in E.
  rewrite <- (string_app_nil_r (der_tlv 48 _)), <- (string_app_nil_r (der_tlv 48 (_ +:+ der_tlv 4 (bh_PreviousHash h2) +:+ _))) in E.
  apply der_tlv_inj in E as [E _]; [|by apply Hlen..]. destruct H1 as (? & ? & ?), H2 as (? & ? & ?).
  pose proof (der_int_length (bh_Number h1)). pose proof (der_int_length (bh_Number h2)).
  apply der_tlv_inj in E as [En E]; [|lia..]. apply der_tlv_inj in E as [Ep E]; [|lia..].
  rewrite <- (string_app_nil_r (der_tlv 4 (bh_DataHash h1))), <- (string_app_nil_r (der_tlv 4 (bh_DataHash h2))) in E.
  apply der_tlv_inj in E as [Ed _]; [|lia..].
  apply (f_equal (λ s, be_value s 0)) in En. rewrite !be_value_der_int in En by done.
  destruct h1, h2. cbn in *. by subst.
Qed.

(** ** Chains of blocks *)

(** What the wire format gives for envelopes with a payload and a signature:
    an encoding is not empty, and none is a proper prefix of another, as every
    field is a tag, a length and as many bytes. *)
Record envelope_wire (marshal_Envelope : Envelope → outcome bytes) : Prop := {
  wire_nonempty e b : env_Payload e ≠ "" → marshal_Envelope e = Ok b → b ≠ "";
  wire_prefix_free e1 e2 b1 b2 x y :
    env_Payload e1 ≠ "" → env_Signature e1 ≠ "" → env_Payload e2 ≠ "" → env_Signature e2 ≠ "" →
    marshal_Envelope e1 = Ok b1 → marshal_Envelope e2 = Ok b2 → b1 +:+ x = b2 +:+ y → b1 = b2
}.

Section chains.
Context `{Codec} `{ProposalCodec} (marshal_Envelope : Envelope → outcome bytes).
Notation well_formed := (VerifyTransactionsAreWellFormed marshal_Envelope).

Lemma tx_well_formed_Ok i raw :
  tx_well_formed marshal_Envelope i raw = Ok () →
  ∃ env, env_Payload env ≠ "" ∧ env_Signature env ≠ "" ∧ marshal_Envelope env = Ok raw.
Proof.
  unfold tx_well_formed. intros E. apply bind_Ok in E as (env & _ & E). exists env.
  case_bool_decide; [done|]. case_bool_decide; [done|]. apply bind_Ok in E as (b & Eb%with_message_Ok & E).
  destruct (_ <? _); [done|]. case_bool_decide; [|done]. by subst.
Qed.

Lemma txs_well_formed_elem i data raw :
  txs_well_formed marshal_Envelope i data = Ok () → raw ∈ data → ∃ j, tx_well_formed marshal_Envelope j raw = Ok ().
Proof.
  revert i. induction data as [|r data IH]; intros i E Hr; [by apply elem_of_nil in Hr|]. cbn in E.
  apply bind_Ok in E as ([] & E1 & E2). apply elem_of_cons in Hr as [->|Hr]; eauto.
Qed.

(** The transactions of a block that is not a config block can be told from
    their concatenation. *)
Lemma join_inj i1 i2 d1 d2 :
  envelope_wire marshal_Envelope → txs_well_formed marshal_Envelope i1 d1 = Ok () → txs_well_formed marshal_Envelope i2 d2 = Ok () →
  bytes_join d1 = bytes_join d2 → d1 = d2.
Proof.
  intros Hw. revert i1 i2 d2. induction d1 as [|r1 d1 IH]; intros i1 i2 [|r2 d2] E1 E2 E; cbn in E1, E2, E.
  - done.
  - apply bind_Ok in E2 as ([] & (e & Hp & _ & Hm)%tx_well_formed_Ok & _).
    apply (wire_nonempty _ Hw) in Hm; [|done]. by destruct r2.
  - apply bind_Ok in E1 as ([] & (e & Hp & _ & Hm)%tx_well_formed_Ok & _).
    apply (wire_nonempty _ Hw) in Hm; [|done]. by destruct r1.
  - apply bind_Ok in E1 as ([] & (e1 & ? & ? & M1)%tx_well_formed_Ok & E1).
    apply bind_Ok in E2 as ([] & (e2 & ? & ? & M2)%tx_well_formed_Ok & E2).
    assert (r1 = r2) as -> by by eapply (wire_prefix_free _ Hw e1 e2).
    apply string_app_inj_length in E as [_ E]; [|done]. f_equal. by eapply IH.
Qed.

(** A chain: every header names the number after and the hash of the one before. *)
Fixpoint linked (prev : BlockHeader) (hs : list BlockHeader) : Prop :=
  match hs with
  | [] => True
  | h :: rest => bh_Number h = (bh_Number prev + 1)%Z ∧ bh_PreviousHash h = BlockHeaderHash prev ∧ linked h rest
  end.

Lemma linked_app prev hs hs' : linked prev (hs ++ hs') ↔ linked prev hs ∧ linked (List.last hs prev) hs'.
Proof.
  revert prev. induction hs as [|h hs IH]; intros prev; cbn [linked app]; [tauto|]. rewrite IH.
  assert (List.last (h :: hs) prev = List.last hs h) as ->; [|tauto].
  clear. revert h prev. induction hs as [|h' hs IH]; intros h prev; [done|].
  change (List.last (h :: h' :: hs) prev) with (List.last (h' :: hs) prev). by rewrite !IH.
Qed.

Lemma linked_number prev hs : linked prev hs → bh_Number (List.last hs prev) = (bh_Number prev + Z.of_nat (length hs))%Z.
Proof.
  induction hs as [|h hs IH] using rev_ind; intros Hl; [cbn; lia|]. apply linked_app in Hl as [Hl (Hn & _)].
  rewrite last_last, Hn, IH by done. rewrite length_app. cbn. lia.
Qed.

Definition no_collision (hs1 hs2 : list BlockHeader) : Prop :=
  ∀ h1 h2, h1 ∈ hs1 → h2 ∈ hs2 → BlockHeaderHash h1 = BlockHeaderHash h2 → BlockHeaderBytes h1 = BlockHeaderBytes h2.

Lemma linked_determined g1 g2 hs1 hs2 :
  linked g1 hs1 → linked g2 hs2 → bh_Number g1 = bh_Number g2 →
  Forall header_ok (g1 :: hs1) → Forall header_ok (g2 :: hs2) → no_collision (g1 :: hs1) (g2 :: hs2) →
  BlockHeaderHash (List.last hs1 g1) = BlockHeaderHash (List.last hs2 g2) → g1 :: hs1 = g2 :: hs2.
Proof.
  intros L1 L2 Eg. revert hs2 L2. induction hs1 as [|h1 hs1 IH] using rev_ind; intros hs2 L2 O1 O2 Hc Eh.
  all: pose proof (linked_number _ _ L1) as N1; pose proof (linked_number _ _ L2) as N2.
  all: assert (∀ hs (g : BlockHeader), List.last hs g ∈ g :: hs) as Hlast
    by (intros hs g; induction hs as [|x hs _] using rev_ind; [by left|rewrite last_last; right; apply elem_of_app; right; by left]).
  all: assert (List.last hs2 g2 = List.last _ g1) as El by (symmetry; apply BlockHeaderBytes_inj;
    [eapply Forall_forall; [exact O1|apply Hlast]|eapply Forall_forall; [exact O2|apply Hlast]|apply Hc; [apply Hlast..|exact Eh]]).
  all: rewrite El in N2.
  - cbn [List.last] in *. destruct hs2 as [|h2 hs2 _] using rev_ind; [cbn in El; by rewrite El|].
    rewrite length_app in N2. cbn [length] in *. lia.
  - destruct hs2 as [|h2 hs2 _] using rev_ind; [rewrite length_app in N1; cbn [length] in *; lia|].
    rewrite !last_last in El. subst h2. apply linked_app in L1 as [L1 (_ & P1 & _)]. apply linked_app in L2 as [L2 (_ & P2 & _)].
    rewrite app_comm_cons in O1, O2. apply Forall_app in O1 as [O1 _], O2 as [O2 _].
    assert (g1 :: hs1 = g2 :: hs2) as E; [|by injection E as -> ->].
    apply IH; [done..| |congruence]. intros a b Ha Hb. apply Hc; rewrite app_comm_cons; apply elem_of_app; by left.
Qed.

(** A block as it is relayed: its header and its transactions. *)
Notation sealed_block := (BlockHeader * list bytes)%type.
Definition config_data (d : list bytes) : bool := IsConfigBlock (mkBlock None (Some d) None).
Definition sealed (b : sealed_block) : Prop :=
  header_ok b.1 ∧ bh_DataHash b.1 = BlockDataHash b.2 ∧ well_formed (Some (mkFullBlock (Some b.1) (Some b.2) None)) = Ok ().

Definition no_data_collision (c1 c2 : list sealed_block) : Prop :=
  ∀ b1 b2, b1 ∈ c1 → b2 ∈ c2 → BlockDataHash b1.2 = BlockDataHash b2.2 → bytes_join b1.2 = bytes_join b2.2.

Lemma sealed_txs b : sealed b → config_data b.2 = false → txs_well_formed marshal_Envelope 0 b.2 = Ok ().
Proof.
  intros (_ & _ & Hw) Hc. destruct b as [h d]. cbn in *. unfold config_data, IsConfigBlock in Hc. cbn in Hc.
  unfold VerifyTransactionsAreWellFormed in Hw. cbn [fb_Data] in Hw. destruct d as [|r d]; [done|].
  unfold IsConfigBlock in Hw. cbn [plain blk_Data fb_Data] in Hw. by rewrite Hc in Hw.
Qed.

End chains.

(** ** A chain of two blocks *)
Section sample.

Definition wire_Envelope (e : Envelope) : outcome bytes :=
  if bool_decide ((Z.of_nat (String.length (env_Payload e)) < 2 ^ 31)%Z ∧ (Z.of_nat (String.length (env_Signature e)) < 2 ^ 31)%Z)
  then Ok (der_tlv 10 (env_Payload e) +:+ der_tlv 18 (env_Signature e)) else Err "message too large".

Lemma wire_Envelope_ok : envelope_wire wire_Envelope.
Proof.
  unfold wire_Envelope. split.
  - intros e b _. case_bool_decide; [|done]. by intros [= <-].
  - intros e1 e2 b1 b2 x y _ _ _ _. case_bool_decide as H1; [|done]. case_bool_decide as H2; [|done].
    intros E1 E2 E. assert (∀ b b' : bytes, Ok b = Ok b' → b = b') as Hinj by (by intros ? ? [= ->]).
    apply Hinj in E1 as <-, E2 as <-. rewrite <- !string_app_assoc in E.
    apply der_tlv_inj in E as [-> E]; [|lia..]. apply der_tlv_inj in E as [-> _]; [done|lia..].
Qed.

Definition tx_raw (s : string) : bytes := der_tlv 10 s +:+ der_tlv 18 "sig".
Definition chain_codec : Codec := {|
  unmarshal_Envelope s := if decide (s = tx_raw "one") then Some (mkEnvelope "one" "sig")
                          else if decide (s = tx_raw "two") then Some (mkEnvelope "two" "sig") else None;
  unmarshal_Payload _ := None;
  unmarshal_ChannelHeader _ := None;
  unmarshal_Transaction _ := None;
  unmarshal_ChaincodeAction _ := None;
  unmarshal_TxReadWriteSet _ := None;
  unmarshal_KVRWSet _ := None;
  unmarshal_HashedRWSet _ := None
|}.
#[local] Existing Instances chain_codec toy_proposal_codec.

Definition block0 : BlockHeader * list bytes := (mkBlockHeader 0 "" (BlockDataHash [tx_raw "one"]), [tx_raw "one"]).
Definition block1 : BlockHeader * list bytes :=
  (mkBlockHeader 1 (BlockHeaderHash block0.1) (BlockDataHash [tx_raw "two"; tx_raw "one"]), [tx_raw "two"; tx_raw "one"]).

Lemma sample_sealed : Forall (sealed wire_Envelope) [block0; block1].
Proof. repeat constructor; vm_compute; done. Qed.

End sample.
