(* ===== verification/KvLedger.v ===== *)
(** * KvLedger: committing a block to all the stores, and recovering
      (core/ledger/kvledger/kv_ledger.go, core/ledger/kvledger/history/db.go,
      core/ledger/kvledger/txmgmt/txmgr/lockbased_txmgr.go, update_batch_bytes.go)

    A block goes to the private data store, to the block store, to the state
    database and to the history database, in this order. A peer that stops in
    between recommits from the block store what the databases miss. *)

From Stdlib Require Import Ascii.
From S2P Require Import Prelude GoText Protos TxFlags Proposal ProtoUtil Height StateDb PvtState RwSetUtil RangeQuery TxOps Mvcc BatchPreparer.
From S2P Require Import Replay PurgeMgr PurgeSpec PrivateExpiry TxValidator Blocks.

(** ** The stores *)
(** The block store and the private data store, which hold a block and its
    private data for every number below their height. *)
Class LedgerStores := {
  blockstore : Type;
  bs_Height : blockstore → Z;
  bs_AddBlock : blockstore → Block → outcome blockstore;
  bs_RetrieveBlockByNumber : blockstore → Z → outcome Block;
  pvtstore : Type;
  ps_LastCommittedBlockHeight : pvtstore → Z;
  (* the number of a block, its private data and the purge markers: namespace,
     collection, key hash and transaction *)
  ps_Commit : pvtstore → Z → list TxPvtData → list (compositeKey * Z) → outcome pvtstore;
  ps_GetPvtDataByBlockNum : pvtstore → Z → outcome (list TxPvtData);
  ps_FetchPrivateDataRawKey : pvtstore → string → string → bytes → outcome string
}.

(** ** update_batch_bytes.go *)
Record KVUpdate := mkKVUpdate {
  ku_Namespace : string;
  ku_Collection : string;
  ku_Key : bytes;
  ku_IsDelete : bool;
  ku_Value : option bytes;
  ku_VersionBytes : list Z
}.
Class UpdatesCodec := { marshal_Updates : list KVUpdate → outcome bytes }.

Definition genKVs (updates : gmap string VersionedValue) : outcome (list KVUpdate) :=
  foldM (λ l key,
    match updates !! key with
    | None => Ok l
    | Some val =>
        ver ← deref (vv_Version val);
        Ok (l ++ [mkKVUpdate "" "" key (bool_decide (vv_Value val = None)) (vv_Value val) (ToBytes ver)])
    end) [] (sorted_keys_of updates).

(** The first of some writes carries the collection, or the namespace. *)
Definition name_first (f : KVUpdate → KVUpdate) (kvs : list KVUpdate) : outcome (list KVUpdate) :=
  match kvs with
  | [] => Panic "index out of range"
  | kv :: kvs => Ok (f kv :: kvs)
  end.
Definition set_Collection (coll : string) (kv : KVUpdate) : KVUpdate :=
  mkKVUpdate (ku_Namespace kv) coll (ku_Key kv) (ku_IsDelete kv) (ku_Value kv) (ku_VersionBytes kv).
Definition set_Namespace (ns : string) (kv : KVUpdate) : KVUpdate :=
  mkKVUpdate ns (ku_Collection kv) (ku_Key kv) (ku_IsDelete kv) (ku_Value kv) (ku_VersionBytes kv).

Definition genKVsFromCollsUpdates (collsUpdates : UpdateBatch) : outcome (list KVUpdate) :=
  foldM (λ l collName,
    kvs ← genKVs (GetUpdates collsUpdates collName);
    kvs ← name_first (set_Collection collName) kvs;
    Ok (l ++ kvs)) [] (sorted_keys_of (Updates collsUpdates)).

Definition dedupAndSort {V W} (a : gmap string V) (b : gmap string W) : list string :=
  sorted_keys_of (((λ _, tt) <$> a) ∪ ((λ _, tt) <$> b)).

Definition deterministicBytesForPubAndHashUpdates `{UpdatesCodec} (u : PvtUpdateBatch) : outcome bytes :=
  kvWrites ← foldM (λ l ns,
    if bool_decide (ns = "") then Ok l
    else
      kvs ← genKVs (GetUpdates (PubUpdates u) ns);
      kvs ← match HashUpdates u !! ns with
            | None => Ok kvs
            | Some collsForNs => more ← genKVsFromCollsUpdates collsForNs; Ok (kvs ++ more)
            end;
      kvs ← name_first (set_Namespace ns) kvs;
      Ok (l ++ kvs)) [] (dedupAndSort (Updates (PubUpdates u)) (HashUpdates u));
  marshal_Updates kvWrites.

(** ** history/db.go *)
(** What [constructDataKey] puts into a key: chaincode, key, block and transaction. *)
Notation dataKey := (string * string * Z * Z)%type.
Record HistoryDB := mkHistoryDB { hdb_records : gset dataKey; hdb_savepoint : option Height }.

Section history.
Context `{Codec} `{TxCodec} `{RwsetCodec}.

Definition history_tx (blockNo : Z) (txsFilter : ValidationFlags) (st : gset dataKey * nat) (envBytes : bytes)
    : outcome (gset dataKey * nat) :=
  let '(dbBatch, tranNo) := st in
  invalid ← IsInvalid txsFilter tranNo;
  if invalid : bool then Ok (dbBatch, S tranNo)
  else
    env ← GetEnvelopeFromBlock envBytes;
    payload ← Proposal.decoded "Payload" (unmarshal_Payload (env_Payload env));
    header ← deref (payload_Header payload);
    chdr ← Proposal.decoded "ChannelHeader" (unmarshal_ChannelHeader (hdr_ChannelHeader header));
    if bool_decide (chdr_Type chdr = HeaderType_ENDORSER_TRANSACTION) then
      respPayload ← GetActionFromEnvelope envBytes;
      txRWSet ← FromProtoBytes (cca_Results respPayload);
      let dbBatch := foldl (λ b nsRWSet,
        foldl (λ b kvWrite, {[(nrw_NameSpace nsRWSet, kvw_Key kvWrite, blockNo, Z.of_nat tranNo)]} ∪ b) b
          (kv_Writes (nrw_KvRwSet nsRWSet))) dbBatch (NsRwSets txRWSet) in
      Ok (dbBatch, S tranNo)
    else Ok (dbBatch, S tranNo).

Definition history_Commit (d : HistoryDB) (block : Block) : outcome HistoryDB :=
  blockNo ← deref (blk_Number block);
  data ← deref (blk_Data block);
  txsFilter ← get_filter block;
  '(records, tranNo) ← foldM (history_tx blockNo txsFilter) (∅, 0%nat) data;
  Ok (mkHistoryDB (records ∪ hdb_records d) (Some (mkHeight blockNo (Z.of_nat tranNo)))).
End history.

(** Both databases decide alike whether they miss blocks. *)
Definition ShouldRecover (savepoint : option Height) (lastAvailableBlock : Z) : bool * Z :=
  match savepoint with
  | None => (true, 0%Z)
  | Some sp => (negb (BlockNum sp =? lastAvailableBlock)%Z, u64 (BlockNum sp + 1))
  end.

(** ** kv_ledger.go *)
Fixpoint varint_loop (fuel : nat) (n : Z) : string :=
  match fuel with
  | O => ""
  | S fuel =>
      if (n <? 128)%Z then String (ascii_of_N (Z.to_N n)) ""
      else String (ascii_of_N (Z.to_N (n mod 128 + 128))) (varint_loop fuel (n / 128))
  end.
(** [proto.EncodeVarint]: seven bits a byte, at most ten bytes. *)
Definition EncodeVarint (n : Z) : string := varint_loop 10 n.

Fixpoint varint_value (s : string) : Z :=
  match s with
  | "" => 0
  | String c s => let b := Z.of_N (N_of_ascii c) in if (b <? 128)%Z then b else b - 128 + 128 * varint_value s
  end.

Lemma varint_loop_value fuel n : (0 ≤ n < 128 ^ Z.of_nat fuel)%Z → varint_value (varint_loop fuel n) = n.
Proof.
  revert n. induction fuel as [|fuel IH]; intros n Hn; [change (128 ^ Z.of_nat 0)%Z with 1%Z in Hn; cbn; lia|]. cbn [varint_loop].
  assert (∀ m, (0 ≤ m < 256)%Z → Z.of_N (N_of_ascii (ascii_of_N (Z.to_N m))) = m) as Hb
    by (intros m Hm; rewrite N_ascii_embedding; lia).
  pose proof (Z.mod_pos_bound n 128 ltac:(lia)). pose proof (Z.div_mod n 128 ltac:(lia)) as Hdm.
  destruct (Z.ltb_spec n 128) as [Hlt|Hge]; cbn [varint_value]; rewrite Hb by lia.
  - by rewrite (proj2 (Z.ltb_lt _ _)).
  - rewrite (proj2 (Z.ltb_ge _ _)) by lia. rewrite IH; [lia|]. split; [by apply Z.div_pos; lia|].
    apply Z.div_lt_upper_bound; [lia|]. rewrite Nat2Z.inj_succ, Z.pow_succ_r in Hn by lia. lia.
Qed.

(** Ten bytes are enough for 64 bits. *)
Lemma EncodeVarint_value n : (0 ≤ n < 2 ^ 64)%Z → varint_value (EncodeVarint n) = n.
Proof. intros Hn. apply varint_loop_value. change (128 ^ Z.of_nat 10)%Z with (2 ^ 70)%Z. lia. Qed.

Definition convertTxPvtDataArrayToMap (txPvtData : list TxPvtData) : gmap Z TxPvtData :=
  foldl (λ m d, <[pvd_SeqInBlock d := d]> m) ∅ txPvtData.

(** The private data of the block's transactions in order; data that are
    missing are left out. *)
Definition constructPvtData (numTxs : nat) (pvtdata : gmap Z TxPvtData) : list TxPvtData :=
  omap (λ txNum : nat, pvtdata !! Z.of_nat txNum) (seq 0 numTxs).

Section ledger.
Context `{Codec} `{TxCodec} `{MetadataCodec} `{UpdatesCodec} `{LedgerStores} `{RwsetCodec} `{KeyOrder} `{PostOrder}.
Context `{MapOrder} `{ScheduleOrder} `{ExpiryCodec} `{BTLPolicy} `{Hashing} `{VersionedDB} `{Bookkeeper}.
Context (procs : gmap Z po_processor) (validateKVFunc : string → option bytes → outcome unit).
Context (hashFunc : bytes → outcome bytes).

(** The ledger: its stores, the transaction manager, the last block of the
    state database, the history database, the last commit hash, and whether
    the private data store was ahead when the ledger was opened. *)
Record kvLedger := mkKvLedger {
  l_blocks : blockstore;
  l_pvt : pvtstore;
  l_txmgr : LockBasedTxMgr;
  l_savepoint : option Height;
  l_history : HistoryDB;
  l_commitHash : bytes;
  l_ahead : bool
}.

Definition set_stores (l : kvLedger) (blocks : blockstore) (pvt : pvtstore) (ahead : bool) : kvLedger :=
  mkKvLedger blocks pvt (l_txmgr l) (l_savepoint l) (l_history l) (l_commitHash l) ahead.
Definition set_state (l : kvLedger) (t : LockBasedTxMgr) (sp : option Height) : kvLedger :=
  mkKvLedger (l_blocks l) (l_pvt l) t sp (l_history l) (l_commitHash l) (l_ahead l).
Definition set_history (l : kvLedger) (h : HistoryDB) : kvLedger :=
  mkKvLedger (l_blocks l) (l_pvt l) (l_txmgr l) (l_savepoint l) h (l_commitHash l) (l_ahead l).

(** [ValidateAndPrepare] of the transaction manager; its listeners are left out. *)
Definition txmgr_ValidateAndPrepare (t : LockBasedTxMgr) (block : Block) (pvtdata : gmap Z TxPvtData) (doMVCCValidation : bool)
    : outcome (PvtUpdateBatch * list (compositeKey * option Height) * bytes * Block * LockBasedTxMgr) :=
  '(batch, purges, _, block, db) ← ValidateAndPrepareBatch procs validateKVFunc hashFunc (tm_db t) block pvtdata doMVCCValidation;
  updateBytes ← deterministicBytesForPubAndHashUpdates batch;
  Ok (batch, purges, updateBytes, block, mkLockBasedTxMgr db (tm_purgeMgr t) (tm_usedOnce t)).

(** [maxTxNumber] of the updates. *)
Definition maxTxNumber (block : Block) : Z := u64 (Z.of_nat (length (default [] (blk_Data block))) - 1).

Definition addBlockCommitHash (commitHash : bytes) (block : Block) (updateBatchBytes : bytes) : outcome (bytes * Block) :=
  md ← deref (blk_Metadata block);
  txValidationCode ← index md BlockMetadataIndex_TRANSACTIONS_FILTER;
  let valueBytes := EncodeVarint (Z.of_nat (String.length txValidationCode)) +:+ txValidationCode +:+ updateBatchBytes +:+ commitHash in
  let commitHash := ComputeHash valueBytes in
  b ← or_panic (marshal_Metadata (mkMetadata commitHash []));
  _ ← index md BlockMetadataIndex_COMMIT_HASH;
  Ok (commitHash, set_Metadata block (<[BlockMetadataIndex_COMMIT_HASH := b]> md)).

(** The private keys of the hashes that are purged, as far as they are known. *)
Definition pvtKeysToDelete (l : kvLedger) (purges : list (compositeKey * option Height)) : outcome (gmap compositeKey (option Height)) :=
  foldM (λ keys '((ns, coll, keyHash), ver),
    pvtKey ← ps_FetchPrivateDataRawKey (l_pvt l) ns coll keyHash;
    Ok (if bool_decide (pvtKey = "") then keys else <[(ns, coll, pvtKey) := ver]> keys)) ∅ purges.

Definition purge_markers (purges : list (compositeKey * option Height)) : outcome (list (compositeKey * Z)) :=
  foldM (λ l '(ck, ver), v ← deref ver; Ok (l ++ [(ck, TxNum v)])) [] purges.

Definition purgeAppInitiatedPvtKeys (pvtUpdates : UpdateMap) (keys : gmap compositeKey (option Height)) : outcome UpdateMap :=
  foldM (λ b ck,
    match keys !! ck with
    | None => Ok b
    | Some ver =>
        let '(ns, coll, key) := ck in
        older ← match um_Get b ns coll key with
                | None => Ok true
                | Some vv => v ← deref (vv_Version vv); ver ← deref ver; Ok (Compare v ver <? 0)%Z
                end;
        Ok (if older : bool then um_Delete b ns coll key ver else b)
    end) pvtUpdates (key_range ["purgeAppInitiated"] 0 keys).

(** The first store of [commitToPvtAndBlockStore]. *)
Definition commit_pvt (l : kvLedger) (blockNum : Z) (block : Block) (pvtdata : gmap Z TxPvtData) (markers : list (compositeKey * Z))
    : outcome kvLedger :=
  if l_ahead l then Ok l
  else
    pvt ← ps_Commit (l_pvt l) blockNum (constructPvtData (length (default [] (blk_Data block))) pvtdata) markers;
    Ok (set_stores l (l_blocks l) pvt (l_ahead l)).

Definition commitToPvtAndBlockStore (l : kvLedger) (blockNum : Z) (block : Block) (pvtdata : gmap Z TxPvtData)
    (markers : list (compositeKey * Z)) : outcome kvLedger :=
  let pvtdataStoreHt := ps_LastCommittedBlockHeight (l_pvt l) in
  l ← commit_pvt l blockNum block pvtdata markers;
  blocks ← bs_AddBlock (l_blocks l) block;
  Ok (set_stores l blocks (l_pvt l) (if (pvtdataStoreHt =? u64 (blockNum + 1))%Z then false else l_ahead l)).

(** What [commit] computes before it writes anything. *)
Record prepared := mkPrepared {
  pr_num : Z;
  pr_block : Block;
  pr_pvtdata : gmap Z TxPvtData;
  pr_batch : PvtUpdateBatch;
  pr_keys : gmap compositeKey (option Height);
  pr_markers : list (compositeKey * Z);
  pr_ledger : kvLedger
}.

Definition commit_prepare (l : kvLedger) (block : Block) (pvtdata : gmap Z TxPvtData) (fetchPvtDataFromLedger : bool) : outcome prepared :=
  blockNo ← deref (blk_Number block);
  pvtdata ← (if fetchPvtDataFromLedger
             then txPvtData ← ps_GetPvtDataByBlockNum (l_pvt l) blockNo; Ok (convertTxPvtDataArrayToMap txPvtData)
             else Ok pvtdata);
  '(batch, purges, updateBatchBytes, block, t) ← txmgr_ValidateAndPrepare (l_txmgr l) block pvtdata true;
  '(commitHash, block) ← (if (blockNo =? 1)%Z || negb (bool_decide (l_commitHash l = ""))
                          then addBlockCommitHash (l_commitHash l) block updateBatchBytes else Ok (l_commitHash l, block));
  markers ← purge_markers purges;
  keys ← pvtKeysToDelete l purges;
  Ok (mkPrepared blockNo block pvtdata batch keys markers
        (mkKvLedger (l_blocks l) (l_pvt l) t (l_savepoint l) (l_history l) commitHash (l_ahead l))).

(** The updates with the private keys that are purged. *)
Definition purged_batch (batch : PvtUpdateBatch) (keys : gmap compositeKey (option Height)) : outcome PvtUpdateBatch :=
  pvt ← purgeAppInitiatedPvtKeys (PvtUpdates batch) keys;
  Ok (mkPvtUpdateBatch (PubUpdates batch) (HashUpdates batch) pvt).

Definition kv_commit (l : kvLedger) (block : Block) (pvtdata : gmap Z TxPvtData) (fetchPvtDataFromLedger : bool) : outcome kvLedger :=
  p ← commit_prepare l block pvtdata fetchPvtDataFromLedger;
  l ← commitToPvtAndBlockStore (pr_ledger p) (pr_num p) (pr_block p) (pr_pvtdata p) (pr_markers p);
  batch ← purged_batch (pr_batch p) (pr_keys p);
  t ← or_panic (txmgr_Commit (l_txmgr l) batch (pr_num p) (maxTxNumber (pr_block p)));
  let l := set_state l t (Some (mkHeight (pr_num p) (maxTxNumber (pr_block p)))) in
  h ← or_panic (history_Commit (l_history l) (pr_block p));
  Ok (set_history l h).

(** *** Recovery *)
Inductive recoverable := RState | RHistory.

Definition txmgr_CommitLostBlock (l : kvLedger) (block : Block) (pvtdata : gmap Z TxPvtData) : outcome kvLedger :=
  num ← deref (blk_Number block);
  '(batch, _, _, block, t) ← txmgr_ValidateAndPrepare (l_txmgr l) block pvtdata false;
  t ← txmgr_Commit t batch num (maxTxNumber block);
  Ok (set_state l t (Some (mkHeight num (maxTxNumber block)))).

Definition CommitLostBlock (block : Block) (pvtdata : gmap Z TxPvtData) (l : kvLedger) (r : recoverable) : outcome kvLedger :=
  match r with
  | RState => txmgr_CommitLostBlock l block pvtdata
  | RHistory => h ← history_Commit (l_history l) block; Ok (set_history l h)
  end.

Definition GetPvtDataAndBlockByNum (l : kvLedger) (blockNum : Z) : outcome (Block * gmap Z TxPvtData) :=
  block ← bs_RetrieveBlockByNumber (l_blocks l) blockNum;
  pvtdata ← ps_GetPvtDataByBlockNum (l_pvt l) blockNum;
  Ok (block, convertTxPvtDataArrayToMap pvtdata).

Definition recommitLostBlocks (firstBlockNum lastBlockNum : Z) (recoverables : list recoverable) (l : kvLedger) : outcome kvLedger :=
  foldM (λ l blockNumber,
    '(block, pvtdata) ← GetPvtDataAndBlockByNum l blockNumber;
    foldM (CommitLostBlock block pvtdata) l recoverables) l (seqZ firstBlockNum (lastBlockNum - firstBlockNum + 1)).

Definition savepoint_of (l : kvLedger) (r : recoverable) : option Height :=
  match r with RState => l_savepoint l | RHistory => hdb_savepoint (l_history l) end.

Definition check_recoverable (l : kvLedger) (lastBlockInBlockStore : Z) (recoverers : list (Z * recoverable)) (r : recoverable)
    : outcome (list (Z * recoverable)) :=
  let '(recoverFlag, nextRequiredBlock) := ShouldRecover (savepoint_of l r) lastBlockInBlockStore in
  if (u64 (lastBlockInBlockStore + 1) <? nextRequiredBlock)%Z then Err "the database is ahead of the block store"
  else Ok (if recoverFlag then recoverers ++ [(nextRequiredBlock, r)] else recoverers).

(** A ledger that was not created from a snapshot, with a history database. *)
Definition syncStateAndHistoryDBWithBlockstore (l : kvLedger) : outcome kvLedger :=
  let height := bs_Height (l_blocks l) in
  if (height =? 0)%Z then Ok l
  else
    let lastBlockInBlockStore := (height - 1)%Z in
    recoverers ← foldM (check_recoverable l lastBlockInBlockStore) [] [RState; RHistory];
    match recoverers with
    | [] => Ok l
    | [(next, r)] => recommitLostBlocks next lastBlockInBlockStore [r] l
    | (n0, r0) :: (n1, r1) :: _ =>
        let '((n0, r0), (n1, r1)) := if (n1 <? n0)%Z then ((n1, r1), (n0, r0)) else ((n0, r0), (n1, r1)) in
        l ← (if (n0 =? n1)%Z then Ok l else recommitLostBlocks n0 (n1 - 1) [r0] l);
        recommitLostBlocks n1 lastBlockInBlockStore [r0; r1] l
    end.

(** Opening the ledger when the peer starts; private data recorded by
    versions before 2.0 are left out. *)
Definition lastPersistedCommitHash (l : kvLedger) : outcome bytes :=
  if (bs_Height (l_blocks l) =? 0)%Z then Ok ""
  else
    block ← bs_RetrieveBlockByNumber (l_blocks l) (bs_Height (l_blocks l) - 1);
    md ← deref (blk_Metadata block);
    if (length md <? BlockMetadataIndex_COMMIT_HASH + 1)%nat then Ok ""
    else
      raw ← index md BlockMetadataIndex_COMMIT_HASH;
      commitHash ← from_option_err "error unmarshalling last persisted commit hash" (unmarshal_Metadata raw);
      Ok (md_Value commitHash).

Definition isPvtDataStoreAheadOfBlockStore (l : kvLedger) : bool :=
  (bs_Height (l_blocks l) <? ps_LastCommittedBlockHeight (l_pvt l))%Z.

Definition open_ledger (l : kvLedger) : outcome kvLedger :=
  commitHash ← lastPersistedCommitHash l;
  let t := NewLockBasedTxMgr (tm_db (l_txmgr l)) (pm_expKeeper (tm_purgeMgr (l_txmgr l))) in
  syncStateAndHistoryDBWithBlockstore
    (mkKvLedger (l_blocks l) (l_pvt l) t (l_savepoint l) (l_history l) commitHash (isPvtDataStoreAheadOfBlockStore l)).

(** ** What the stores promise *)
Record stores_ok : Prop := {
  so_block s b s' : bs_AddBlock s b = Ok s' →
    bs_Height s' = (bs_Height s + 1)%Z ∧ bs_RetrieveBlockByNumber s' (bs_Height s) = Ok b;
  so_pvt s n data s' : ps_Commit s n data [] = Ok s' →
    ps_LastCommittedBlockHeight s' = (n + 1)%Z ∧ ps_GetPvtDataByBlockNum s' n = Ok data
}.

(** A ledger whose next block is [n]: the databases are at the height of the
    block store; the private data store may be a block ahead. *)
Definition at_block (n : Z) (savepoint : option Height) : Prop :=
  match savepoint with None => n = 0%Z | Some h => BlockNum h = (n - 1)%Z end.

Record ledger_ok (btl : string → string → Z) (n : Z) (l : kvLedger) : Prop := {
  lo_num : (0 ≤ n)%Z ∧ (n + 1 < MaxUint64)%Z;
  lo_height : bs_Height (l_blocks l) = n;
  lo_pvt : ps_LastCommittedBlockHeight (l_pvt l) = (if l_ahead l then n + 1 else n)%Z;
  lo_mgr : ∃ m S, mgr_ok btl n m S (l_txmgr l);
  lo_state : at_block n (l_savepoint l);
  lo_history : at_block n (hdb_savepoint (l_history l))
}.

(** ** Reading after a commit *)
Definition reads (btl : string → string → Z) (n : Z) (b : PvtUpdateBatch) (db db' : DB) : Prop :=
  ∀ ns coll k, plain_ns ns →
    db_GetState db' ns k = (old ← db_GetState db ns k; Ok (after (Get (PubUpdates b) ns k) old)) ∧
    GetPrivateData db' ns coll k = (old ← GetPrivateData db ns coll k; Ok (survives btl n ns coll (um_Get (PvtUpdates b) ns coll k) old)) ∧
    GetValueHash db' ns coll k = (old ← GetValueHash db ns coll k; Ok (survives btl n ns coll (um_Get (HashUpdates b) ns coll k) old)).

Lemma reads_intro btl n b db db' m m' :
  holds (db_VersionedDB db) m → holds (db_VersionedDB db') m' →
  (∀ ns k, plain_ns ns → lookup_ns m' ns !! k = after (Get (PubUpdates b) ns k) (lookup_ns m ns !! k)) →
  (∀ ns coll k, plain_ns ns →
     hash_at m' ns coll k = survives btl n ns coll (um_Get (HashUpdates b) ns coll k) (hash_at m ns coll k) ∧
     pvt_at m' ns coll k = survives btl n ns coll (um_Get (PvtUpdates b) ns coll k) (pvt_at m ns coll k)) →
  reads btl n b db db'.
Proof.
  intros Hm Hm' Hpub Hsv ns coll k Hp. unfold GetPrivateData, GetValueHash, db_GetState. rewrite !(holds_state _ _ Hm), !(holds_state _ _ Hm').
  cbn. destruct (Hsv ns coll k Hp) as [Hh Hv]. unfold hash_at, pvt_at in Hh, Hv. by rewrite Hpub, Hh, Hv.
Qed.

Lemma commit_reads btl n m S t b mx :
  environment btl → mgr_ok btl n m S t → block_batch n b → (0 ≤ n)%Z → (n + 1 < MaxUint64)%Z →
  ∃ t' m' S', txmgr_Commit t b n mx = Ok t' ∧ mgr_ok btl (n + 1) m' S' t' ∧ reads btl n b (tm_db t) (tm_db t').
Proof.
  intros He Ht Hb Hn Hn'. destruct (txmgr_Commit_ok btl n m S t b mx He Ht Hb Hn Hn') as (t' & m' & S' & E & Hok & Hpub & Hsv).
  exists t', m', S'. split; [done|]. split; [done|]. eapply reads_intro; [by eapply mo_holds|by eapply mo_holds|done..].
Qed.

Lemma updates_reads btl n m S t b mx pm db :
  environment btl → mgr_ok btl n m S t → block_batch n b → (0 ≤ n)%Z → (n + 1 < MaxUint64)%Z → commit_updates t b n mx = Ok (pm, db) →
  ∃ m' S', mgr_ok btl (n + 1) m' S' (NewLockBasedTxMgr db (pm_expKeeper pm)) ∧ reads btl n b (tm_db t) db.
Proof.
  intros He Ht Hb Hn Hn' E. destruct (commit_updates_ok btl n m S t b mx He Ht Hb ltac:(lia)) as (p & db' & m' & S' & ws & E' & Hk & Hm & Ha & Hw & Hl & _ & _ & Hpub & Hsv).
  rewrite E in E'. injection E' as <- <-. exists m', S'. split; [|eapply reads_intro; [by eapply mo_holds|done..]].
  split; cbn; [done..|by eapply wf_sched_mono; [|done]; lia|done|done].
Qed.

Definition same_reads (db db' : DB) : Prop := ∀ ns coll k, plain_ns ns →
  db_GetState db ns k = db_GetState db' ns k ∧ GetPrivateData db ns coll k = GetPrivateData db' ns coll k ∧
  GetValueHash db ns coll k = GetValueHash db' ns coll k.

Lemma reads_same btl n b db db1 db2 : reads btl n b db db1 → reads btl n b db db2 → same_reads db1 db2.
Proof. intros H1' H2' ns coll k Hp. destruct (H1' ns coll k Hp) as (-> & -> & ->), (H2' ns coll k Hp) as (-> & -> & ->). done. Qed.

(** ** The block and its private data as they are stored *)
Definition pvt_of_block (block : Block) (pvtdata : gmap Z TxPvtData) : Prop := ∀ k d,
  pvtdata !! k = Some d → pvd_SeqInBlock d = k ∧ (0 ≤ k < Z.of_nat (length (default [] (blk_Data block))))%Z.

Lemma convert_lookup l k :
  convertTxPvtDataArrayToMap l !! k = last (filter (λ d, pvd_SeqInBlock d = k) l).
Proof.
  unfold convertTxPvtDataArrayToMap. rewrite (foldl_insert_last pvd_SeqInBlock id). destruct (last _); [done|]. by rewrite lookup_empty.
Qed.

Lemma convert_construct block pvtdata :
  pvt_of_block block pvtdata →
  convertTxPvtDataArrayToMap (constructPvtData (length (default [] (blk_Data block))) pvtdata) = pvtdata.
Proof.
  intros Hp. apply map_eq. intros k. rewrite convert_lookup. unfold constructPvtData.
  set (l := omap _ _). assert (∀ d, d ∈ l ↔ ∃ i, (i < length (default [] (blk_Data block)))%nat ∧ pvtdata !! Z.of_nat i = Some d) as Hl.
  { intros d. unfold l. rewrite list_elem_of_omap. split; intros (i & Hi & E); exists i; (split; [|done]); [apply elem_of_seq in Hi; lia|apply elem_of_seq; lia]. }
  destruct (last (filter _ l)) as [d|] eqn:E.
  - apply last_Some in E as [l1 E]. assert (d ∈ filter (λ d, pvd_SeqInBlock d = k) l) as [Hk (i & _ & Hi)%Hl]%list_elem_of_filter
      by (rewrite E; apply elem_of_app; right; by left). destruct (Hp _ _ Hi) as [Hs _]. by rewrite <- Hk, Hs.
  - apply last_None in E. destruct (pvtdata !! k) as [d|] eqn:Ed; [|done]. destruct (Hp _ _ Ed) as [Hs Hr].
    assert (d ∈ filter (λ d, pvd_SeqInBlock d = k) l) as Hf.
    { apply list_elem_of_filter. split; [done|]. apply Hl. exists (Z.to_nat k). rewrite Z2Nat.id by lia. split; [lia|done]. }
    rewrite E in Hf. by apply not_elem_of_nil in Hf.
Qed.

(** A block with another commit hash is prepared alike. *)
Lemma prepare_commit_hash db block block2 pvtdata batch purges stats block' db' :
  blk_Number block2 = blk_Number block → blk_Data block2 = blk_Data block → get_filter block2 = get_filter block →
  ValidateAndPrepareBatch procs validateKVFunc hashFunc db block pvtdata false = Ok (batch, purges, stats, block', db') →
  ∃ block2', ValidateAndPrepareBatch procs validateKVFunc hashFunc db block2 pvtdata false = Ok (batch, purges, stats, block2', db') ∧
    blk_Data block2' = blk_Data block2.
Proof.
  intros Hn Hd Hg (num & fl & data & fl1 & txs & st1 & db1 & txs' & u & ps & pvt & fl2 & Hnum & Hfl & Hdata & Ef & Hdb & Hv & Hp & Hg1 &
    Hpost & Hst & -> & -> & -> & Hg2 & ->)%prepare_pieces.
  exists (set_filter block2 fl2). split; [|apply set_filter_fields]. apply prepare_pieces.
  exists num, fl, data, fl1, txs, st1, db1, txs', u, ps, pvt, fl2. rewrite Hn, Hg, Hd.
  pose proof (preprocess_range _ _ _ _ _ _ _ _ _ _ (get_filter_range _ _ Hfl) Ef) as Hr1.
  assert (byte_flags fl2) as Hr2 by (eapply foldM_inv; [|exact Hr1|exact Hpost]; intros tx f f' _; apply set_flag_range).
  assert (get_filter block2 = Ok fl) as Hfl2 by (by rewrite Hg). split_and!; try done; by eapply get_set_filter.
Qed.

(** ** Preparing, storing, and reading back *)
Record prepared_ok (n : Z) (l : kvLedger) (block : Block) (pvtdata : gmap Z TxPvtData) (p : prepared) : Prop := {
  po_num : pr_num p = n;
  po_block : blk_Number (pr_block p) = Some n ∧ blk_Data (pr_block p) = blk_Data block;
  po_pvt : if l_ahead l then ∃ L, ps_GetPvtDataByBlockNum (l_pvt l) n = Ok L ∧ pr_pvtdata p = convertTxPvtDataArrayToMap L
           else pr_pvtdata p = pvtdata;
  po_ledger : ∃ ch, pr_ledger p = mkKvLedger (l_blocks l) (l_pvt l) (l_txmgr l) (l_savepoint l) (l_history l) ch (l_ahead l);
  po_again t : tm_db t = tm_db (l_txmgr l) → ∃ purges ub block', blk_Data block' = blk_Data block ∧
    txmgr_ValidateAndPrepare t (pr_block p) (pr_pvtdata p) false = Ok (pr_batch p, purges, ub, block', t)
}.

Lemma addBlockCommitHash_Ok ch block ub ch' block' :
  addBlockCommitHash ch block ub = Ok (ch', block') →
  blk_Number block' = blk_Number block ∧ blk_Data block' = blk_Data block ∧ get_filter block' = get_filter block.
Proof.
  unfold addBlockCommitHash. intros (md & Hmd%deref_Ok & E)%bind_Ok. apply bind_Ok in E as (code & Hc & E). apply bind_Ok in E as (b & _ & E).
  apply bind_Ok in E as (x & _ & [= _ <-]). split_and!; [done..|]. unfold get_filter, index. rewrite Hmd. cbn.
  by rewrite list_lookup_insert_ne by done.
Qed.

Lemma commit_prepare_ok n l block pvtdata p :
  processors_agree → IsBulkOptimizable = false → blk_Number block = Some n →
  commit_prepare l block pvtdata (l_ahead l) = Ok p → prepared_ok n l block pvtdata p.
Proof.
  intros Ha Hbulk Hn. unfold commit_prepare. intros (num & Hnum & E)%bind_Ok. rewrite Hn in Hnum. injection Hnum as <-.
  apply bind_Ok in E as (D & HD & E). apply bind_Ok in E as ([[[[batch purges] ub] block1] t1] & Ev & E). apply bind_Ok in E as ([ch block2] & Ech & E).
  apply bind_Ok in E as (markers & _ & E). apply bind_Ok in E as (keys & _ & [= <-]). unfold txmgr_ValidateAndPrepare in Ev.
  apply bind_Ok in Ev as ([[[[batch' purges'] stats] block1'] db1] & Ep & Ev). apply bind_Ok in Ev as (ub' & Eub & [= -> -> -> -> <-]).
  assert (blk_Number block1 = blk_Number block ∧ blk_Data block1 = blk_Data block ∧ db1 = tm_db (l_txmgr l)) as (Hn1 & Hd1 & ->).
  { apply prepare_pieces in Ep as (num & fl & data & fl1 & txs & st1 & db2 & txs' & u & ps & pvt & fl2 & _ & _ & _ & _ & Hdb & _ & _ & _ & _ & _ & _ & _ & -> & _ & ->).
    rewrite Hbulk in Hdb. injection Hdb as <-. by destruct (set_filter_fields block fl2) as [-> ->]. }
  assert (blk_Number block2 = blk_Number block1 ∧ blk_Data block2 = blk_Data block1 ∧ get_filter block2 = get_filter block1) as (Hn2 & Hd2 & Hg2).
  { destruct (_ || _); [by eapply addBlockCommitHash_Ok|by injection Ech as _ <-]. }
  destruct (replay_same_batch procs validateKVFunc hashFunc _ _ _ _ _ _ _ _ Ha Hbulk Ep) as [stats' Er].
  destruct (prepare_commit_hash _ _ block2 _ _ _ _ _ _ Hn2 Hd2 Hg2 Er) as (block3 & Er3 & Hd3).
  split; cbn; [done|split; congruence| |exists ch; by destruct (l_txmgr l)|].
  - destruct (l_ahead l); [|by injection HD as <-]. apply bind_Ok in HD as (L & HL & [= <-]). by exists L.
  - intros t Ht. exists purges, ub, block3. split; [congruence|]. unfold txmgr_ValidateAndPrepare. rewrite Ht, Er3. cbn. rewrite Eub. cbn. rewrite <- Ht. by destruct t.
Qed.

(** The stores once the block is in both. *)
Record stored_at (n : Z) (l : kvLedger) (p : prepared) (l1 : kvLedger) : Prop := {
  sa_height : bs_Height (l_blocks l1) = (n + 1)%Z;
  sa_pvt : ps_LastCommittedBlockHeight (l_pvt l1) = (n + 1)%Z;
  sa_read : GetPvtDataAndBlockByNum l1 n = Ok (pr_block p, pr_pvtdata p)
}.

Lemma commit_pvt_ok btl n l block pvtdata p l1 :
  stores_ok → ledger_ok btl n l → pvt_of_block block pvtdata → prepared_ok n l block pvtdata p → pr_markers p = [] →
  commit_pvt (pr_ledger p) (pr_num p) (pr_block p) (pr_pvtdata p) (pr_markers p) = Ok l1 →
  l_blocks l1 = l_blocks l ∧ l_txmgr l1 = l_txmgr l ∧ l_savepoint l1 = l_savepoint l ∧ l_history l1 = l_history l ∧ l_ahead l1 = l_ahead l ∧
  ps_LastCommittedBlockHeight (l_pvt l1) = (n + 1)%Z ∧
  ∃ L, ps_GetPvtDataByBlockNum (l_pvt l1) n = Ok L ∧ pr_pvtdata p = convertTxPvtDataArrayToMap L.
Proof.
  intros Hs Hl Hp Hpo Hmk. destruct (po_ledger _ _ _ _ _ Hpo) as [ch ->]. unfold commit_pvt. cbn [l_ahead l_pvt l_blocks]. rewrite (po_num _ _ _ _ _ Hpo), Hmk.
  pose proof (po_pvt _ _ _ _ _ Hpo) as Hpv. pose proof (lo_pvt _ _ _ Hl) as Hh. destruct (l_ahead l).
  - intros [= <-]. cbn. done.
  - intros (pvt & Hc & [= <-])%bind_Ok. destruct (so_pvt Hs _ _ _ _ Hc) as [Hh' Hg]. cbn. split_and!; try done. eexists. split; [exact Hg|].
    rewrite Hpv, (proj2 (po_block _ _ _ _ _ Hpo)). by rewrite convert_construct.
Qed.

Lemma commit_stores_ok btl n l block pvtdata p l1 :
  stores_ok → ledger_ok btl n l → pvt_of_block block pvtdata → prepared_ok n l block pvtdata p → pr_markers p = [] →
  commitToPvtAndBlockStore (pr_ledger p) (pr_num p) (pr_block p) (pr_pvtdata p) (pr_markers p) = Ok l1 →
  stored_at n l p l1 ∧ l_txmgr l1 = l_txmgr l ∧ l_savepoint l1 = l_savepoint l ∧ l_history l1 = l_history l ∧ l_ahead l1 = false.
Proof.
  intros Hs Hl Hp Hpo Hmk. unfold commitToPvtAndBlockStore. intros (l0 & Hc & E)%bind_Ok.
  destruct (commit_pvt_ok _ _ _ _ _ _ _ Hs Hl Hp Hpo Hmk Hc) as (Hb & Ht & Hsp & Hh & Hah & Hph & L & HL & HD).
  apply bind_Ok in E as (blocks & Hadd & [= <-]). destruct (so_block Hs _ _ _ Hadd) as [Hbh Hr]. rewrite Hb, (lo_height _ _ _ Hl) in Hbh, Hr.
  split; [split; cbn; [done..|]|].
  - unfold GetPvtDataAndBlockByNum. cbn. rewrite Hr, HL. cbn. by rewrite HD.
  - cbn. split_and!; try done. destruct (po_ledger _ _ _ _ _ Hpo) as [ch ->]. cbn [l_pvt]. rewrite (lo_pvt _ _ _ Hl), (po_num _ _ _ _ _ Hpo), Hah.
    destruct (lo_num _ _ _ Hl). unfold u64. rewrite wrap_small by (unfold MaxUint64 in *; lia). destruct (l_ahead l); [by rewrite Z.eqb_refl|].
    by rewrite (proj2 (Z.eqb_neq _ _)) by lia.
Qed.

(** ** Crashes *)
(** Where a peer may stop while it commits a block: what is on disk then, and
    whether that includes the block. *)
Inductive crash (l : kvLedger) (p : prepared) : bool → kvLedger → Prop :=
| crash_before : crash l p false l
| crash_pvt l1 : commit_pvt (pr_ledger p) (pr_num p) (pr_block p) (pr_pvtdata p) (pr_markers p) = Ok l1 → crash l p false l1
| crash_block l1 : commitToPvtAndBlockStore (pr_ledger p) (pr_num p) (pr_block p) (pr_pvtdata p) (pr_markers p) = Ok l1 → crash l p true l1
| crash_expiry l1 batch pm :
    commitToPvtAndBlockStore (pr_ledger p) (pr_num p) (pr_block p) (pr_pvtdata p) (pr_markers p) = Ok l1 →
    purged_batch (pr_batch p) (pr_keys p) = Ok batch →
    UpdateExpiryInfo (tm_purgeMgr (l_txmgr l1)) (PvtUpdates batch) (HashUpdates batch) = Ok pm →
    crash l p true (set_state l1 (mkLockBasedTxMgr (tm_db (l_txmgr l1)) pm (tm_usedOnce (l_txmgr l1))) (l_savepoint l1))
| crash_state l1 batch pm db :
    commitToPvtAndBlockStore (pr_ledger p) (pr_num p) (pr_block p) (pr_pvtdata p) (pr_markers p) = Ok l1 →
    purged_batch (pr_batch p) (pr_keys p) = Ok batch →
    commit_updates (l_txmgr l1) batch (pr_num p) (maxTxNumber (pr_block p)) = Ok (pm, db) →
    crash l p true (set_state l1 (mkLockBasedTxMgr db pm true) (Some (mkHeight (pr_num p) (maxTxNumber (pr_block p)))))
| crash_cleared l1 batch t :
    commitToPvtAndBlockStore (pr_ledger p) (pr_num p) (pr_block p) (pr_pvtdata p) (pr_markers p) = Ok l1 →
    purged_batch (pr_batch p) (pr_keys p) = Ok batch →
    txmgr_Commit (l_txmgr l1) batch (pr_num p) (maxTxNumber (pr_block p)) = Ok t →
    crash l p true (set_state l1 t (Some (mkHeight (pr_num p) (maxTxNumber (pr_block p)))))
| crash_after l1 batch t h :
    commitToPvtAndBlockStore (pr_ledger p) (pr_num p) (pr_block p) (pr_pvtdata p) (pr_markers p) = Ok l1 →
    purged_batch (pr_batch p) (pr_keys p) = Ok batch →
    txmgr_Commit (l_txmgr l1) batch (pr_num p) (maxTxNumber (pr_block p)) = Ok t →
    history_Commit (l_history l1) (pr_block p) = Ok h →
    crash l p true (set_history (set_state l1 t (Some (mkHeight (pr_num p) (maxTxNumber (pr_block p))))) h).

(** *** What is to be recovered *)
Lemma should_even n sp : (0 < n)%Z → (n < MaxUint64)%Z → at_block n sp → ShouldRecover sp (n - 1) = (false, n).
Proof.
  intros Hn Hm. unfold at_block, ShouldRecover. destruct sp as [h|]; [|lia]. intros ->. rewrite Z.eqb_refl. unfold u64.
  rewrite wrap_small by (unfold MaxUint64 in *; lia). cbn. f_equal. lia.
Qed.

Lemma should_behind n sp : (0 ≤ n)%Z → (n < MaxUint64)%Z → at_block n sp → ShouldRecover sp n = (true, n).
Proof.
  intros Hn Hm. unfold at_block, ShouldRecover. destruct sp as [h|]; [|by intros ->]. intros ->. rewrite (proj2 (Z.eqb_neq _ _)) by lia. unfold u64.
  rewrite wrap_small by (unfold MaxUint64 in *; lia). cbn. f_equal. lia.
Qed.

Lemma sync_even btl n l : ledger_ok btl n l → syncStateAndHistoryDBWithBlockstore l = Ok l.
Proof.
  intros Hl. unfold syncStateAndHistoryDBWithBlockstore. destruct (lo_num _ _ _ Hl) as [Hn Hm]. rewrite (lo_height _ _ _ Hl).
  destruct (Z.eqb_spec n 0) as [|Hne]; [done|]. cbn [foldM]. unfold check_recoverable. cbn [savepoint_of].
  rewrite (should_even n _), (should_even n _) by (lia || apply Hl). replace (n - 1 + 1)%Z with n by lia.
  unfold u64. rewrite wrap_small by (unfold MaxUint64 in *; lia). by rewrite (proj2 (Z.ltb_ge _ _)) by lia.
Qed.

(** The block is missing in the history, or in both databases. *)
Lemma sync_behind n l block pvtdata (state_done : bool) :
  (0 ≤ n)%Z → (n + 1 < MaxUint64)%Z → bs_Height (l_blocks l) = (n + 1)%Z → GetPvtDataAndBlockByNum l n = Ok (block, pvtdata) →
  at_block (if state_done then n + 1 else n)%Z (l_savepoint l) → at_block n (hdb_savepoint (l_history l)) →
  syncStateAndHistoryDBWithBlockstore l = foldM (CommitLostBlock block pvtdata) l (if state_done then [RHistory] else [RState; RHistory]).
Proof.
  intros Hn Hm Hh Hg Hs Hhi. unfold syncStateAndHistoryDBWithBlockstore. rewrite Hh. destruct (Z.eqb_spec (n + 1) 0) as [|_]; [lia|].
  replace (n + 1 - 1)%Z with n by lia. cbn [foldM]. unfold check_recoverable. cbn [savepoint_of]. rewrite (should_behind n (hdb_savepoint _)) by (lia || done).
  unfold u64. rewrite wrap_small by (unfold MaxUint64 in *; lia). rewrite (proj2 (Z.ltb_ge (n + 1) n)) by lia.
  assert (∀ rs, recommitLostBlocks n n rs l = foldM (CommitLostBlock block pvtdata) l rs) as Hr.
  { intros rs. unfold recommitLostBlocks. replace (n - n + 1)%Z with 1%Z by lia. change (seqZ n 1) with [(Z.of_nat 0 + n)%Z].
    cbn [foldM]. replace (Z.of_nat 0 + n)%Z with n by lia. rewrite Hg. cbn [mbind outcome_bind]. by destruct (foldM _ l rs). }
  destruct state_done.
  - pose proof (should_even (n + 1) _ ltac:(lia) ltac:(lia) Hs) as E. replace (n + 1 - 1)%Z with n in E by lia. rewrite E.
    rewrite (proj2 (Z.ltb_ge (n + 1) (n + 1))) by lia. cbn [mbind outcome_bind app]. apply Hr.
  - rewrite (should_behind n (l_savepoint l)) by (lia || done). rewrite (proj2 (Z.ltb_ge (n + 1) n)) by lia. cbn [mbind outcome_bind app].
    rewrite Z.ltb_irrefl, Z.eqb_refl. cbn [mbind outcome_bind]. apply Hr.
Qed.

(** What the recovered ledger agrees on with another. *)
Record same_data (l l' : kvLedger) : Prop := {
  sd_reads : same_reads (tm_db (l_txmgr l)) (tm_db (l_txmgr l'));
  sd_savepoint : l_savepoint l = l_savepoint l';
  sd_history : l_history l = l_history l'
}.

Lemma reopened_ok btl n m S t : mgr_ok btl n m S t → mgr_ok btl n m S (NewLockBasedTxMgr (tm_db t) (pm_expKeeper (tm_purgeMgr t))).
Proof. intros []. by split. Qed.

Lemma history_at_block d block d' n :
  history_Commit d block = Ok d' → blk_Number block = Some n → at_block (n + 1) (hdb_savepoint d').
Proof.
  unfold history_Commit. intros (num & Hn%deref_Ok & E)%bind_Ok Hnum. rewrite Hn in Hnum. injection Hnum as <-. apply bind_Ok in E as (data & _ & E).
  apply bind_Ok in E as (fl & _ & E). apply bind_Ok in E as ([recs k] & _ & [= <-]). cbn. lia.
Qed.

(** The recommitted block, on a manager that has the state from before it. *)
Lemma recommit_state btl n l block pvtdata p l1 m S :
  environment btl → prepared_ok n l block pvtdata p → block_batch n (pr_batch p) → (0 ≤ n)%Z → (n + 1 < MaxUint64)%Z →
  mgr_ok btl n m S (l_txmgr l1) → tm_db (l_txmgr l1) = tm_db (l_txmgr l) →
  ∃ t m' S', txmgr_CommitLostBlock l1 (pr_block p) (pr_pvtdata p) = Ok (set_state l1 t (Some (mkHeight n (maxTxNumber (pr_block p))))) ∧
    mgr_ok btl (n + 1) m' S' t ∧ reads btl n (pr_batch p) (tm_db (l_txmgr l)) (tm_db t).
Proof.
  intros He Hpo Hb Hn Hm Hok Hdb. destruct (po_again _ _ _ _ _ Hpo (l_txmgr l1) Hdb) as (purges & ub & block' & Hd & Ev).
  destruct (commit_reads btl n m S (l_txmgr l1) (pr_batch p) (maxTxNumber block') He Hok Hb Hn Hm) as (t & m' & S' & Et & Hok' & Hr).
  exists t, m', S'. unfold txmgr_CommitLostBlock. rewrite (proj1 (po_block _ _ _ _ _ Hpo)). cbn [deref mbind outcome_bind]. rewrite Ev. cbn [mbind outcome_bind].
  rewrite Et. cbn [mbind outcome_bind]. assert (maxTxNumber block' = maxTxNumber (pr_block p)) as ->.
  { unfold maxTxNumber. by rewrite Hd, (proj2 (po_block _ _ _ _ _ Hpo)). }
  split_and!; [done..|by rewrite Hdb in Hr].
Qed.

(** A block without purges leaves nothing to purge. *)
Lemma no_purges l block pvtdata fetch p : commit_prepare l block pvtdata fetch = Ok p → pr_markers p = [] → pr_keys p = ∅.
Proof.
  unfold commit_prepare. intros (num & _ & E)%bind_Ok. apply bind_Ok in E as (D & _ & E). apply bind_Ok in E as ([[[[batch purges] ub] block1] t1] & _ & E).
  apply bind_Ok in E as ([ch block2] & _ & E). apply bind_Ok in E as (markers & Em & E). apply bind_Ok in E as (keys & Ek & [= <-]). cbn. intros ->.
  destruct purges as [|[ck ver] purges] using rev_ind; [by injection Ek as <-|]. unfold purge_markers in Em. rewrite foldM_app in Em.
  apply bind_Ok in Em as (l0 & _ & Em). cbn in Em. apply bind_Ok in Em as (l1 & Hv & [= ->]). apply bind_Ok in Hv as (v & _ & [= E]). by destruct l0.
Qed.

Lemma nothing_purged batch : purged_batch batch ∅ = Ok batch.
Proof.
  unfold purged_batch, purgeAppInitiatedPvtKeys. assert (key_range ["purgeAppInitiated"] 0 (∅ : gmap compositeKey (option Height)) = []) as ->.
  { destruct (key_range _ _ _) as [|k ks] eqn:E; [done|]. exfalso. assert (k ∈ k :: ks) as Hk by (by left). rewrite <- E in Hk. apply key_range_elem in Hk. rewrite lookup_empty in Hk. by destruct Hk. }
  by destruct batch.
Qed.

(** The steps of a commit without purges. *)
Lemma kv_commit_pieces l block pvtdata fetch p l1 :
  kv_commit l block pvtdata fetch = Ok l1 → commit_prepare l block pvtdata fetch = Ok p → pr_markers p = [] →
  ∃ lst t h, commitToPvtAndBlockStore (pr_ledger p) (pr_num p) (pr_block p) (pr_pvtdata p) (pr_markers p) = Ok lst ∧
    purged_batch (pr_batch p) (pr_keys p) = Ok (pr_batch p) ∧
    txmgr_Commit (l_txmgr lst) (pr_batch p) (pr_num p) (maxTxNumber (pr_block p)) = Ok t ∧ history_Commit (l_history lst) (pr_block p) = Ok h ∧
    l1 = set_history (set_state lst t (Some (mkHeight (pr_num p) (maxTxNumber (pr_block p))))) h.
Proof.
  intros E Ep Hmk. unfold kv_commit in E. rewrite Ep in E. cbn [mbind outcome_bind] in E. apply bind_Ok in E as (lst & Hst & E). exists lst.
  assert (purged_batch (pr_batch p) (pr_keys p) = Ok (pr_batch p)) as Hpb by (rewrite (no_purges _ _ _ _ _ Ep Hmk); apply nothing_purged).
  rewrite Hpb in E. cbn [mbind outcome_bind] in E. apply bind_Ok in E as (t & Ht%or_panic_Ok & E). apply bind_Ok in E as (h & Hh%or_panic_Ok & [= <-]).
  by exists t, h.
Qed.

(** The ledger as it is opened, before it is synchronized. *)
Definition opened (l : kvLedger) (ch : bytes) : kvLedger :=
  mkKvLedger (l_blocks l) (l_pvt l) (NewLockBasedTxMgr (tm_db (l_txmgr l)) (pm_expKeeper (tm_purgeMgr (l_txmgr l)))) (l_savepoint l) (l_history l) ch
    (isPvtDataStoreAheadOfBlockStore l).

Lemma open_opened l ch : lastPersistedCommitHash l = Ok ch → open_ledger l = syncStateAndHistoryDBWithBlockstore (opened l ch).
Proof. intros E. unfold open_ledger. by rewrite E. Qed.

(** Databases that are at the tip stay as they are. *)
Lemma open_even btl n l ch m S :
  lastPersistedCommitHash l = Ok ch → (0 ≤ n)%Z → (n + 1 < MaxUint64)%Z → bs_Height (l_blocks l) = n →
  ps_LastCommittedBlockHeight (l_pvt l) = n ∨ ps_LastCommittedBlockHeight (l_pvt l) = (n + 1)%Z →
  mgr_ok btl n m S (NewLockBasedTxMgr (tm_db (l_txmgr l)) (pm_expKeeper (tm_purgeMgr (l_txmgr l)))) →
  at_block n (l_savepoint l) → at_block n (hdb_savepoint (l_history l)) →
  ledger_ok btl n (opened l ch) ∧ open_ledger l = Ok (opened l ch).
Proof.
  intros Hch Hn Hm Hh Hp Hok Hsp Hhi. assert (ledger_ok btl n (opened l ch)) as Hl.
  { split; cbn; [done..| |by exists m, S|done|done]. unfold isPvtDataStoreAheadOfBlockStore. rewrite Hh. destruct (Z.ltb_spec n (ps_LastCommittedBlockHeight (l_pvt l))); lia. }
  split; [done|]. rewrite (open_opened _ _ Hch). by eapply sync_even.
Qed.

Lemma same_reads_refl db : same_reads db db.
Proof. by intros ns coll k _. Qed.

(** A crash before the block is stored. *)
Lemma crash_unstored btl n l block pvtdata p l2 ch :
  stores_ok → ledger_ok btl n l → pvt_of_block block pvtdata → prepared_ok n l block pvtdata p → pr_markers p = [] →
  crash l p false l2 → lastPersistedCommitHash l2 = Ok ch →
  ∃ l3, open_ledger l2 = Ok l3 ∧ ledger_ok btl n l3 ∧ same_data l3 l.
Proof.
  intros Hs Hl Hp Hpo Hmk Hc Hch. destruct (lo_num _ _ _ Hl) as [Hn Hm]. destruct (lo_mgr _ _ _ Hl) as (m & S & Hok).
  assert (l_blocks l2 = l_blocks l ∧ l_txmgr l2 = l_txmgr l ∧ l_savepoint l2 = l_savepoint l ∧ l_history l2 = l_history l ∧
    (ps_LastCommittedBlockHeight (l_pvt l2) = n ∨ ps_LastCommittedBlockHeight (l_pvt l2) = (n + 1)%Z)) as (Hb & Ht & Hsp & Hh & Hph).
  { inversion Hc as [|l1 E| | | | |]; subst.
    - split_and!; [done..|]. rewrite (lo_pvt _ _ _ Hl). destruct (l_ahead l2); lia.
    - destruct (commit_pvt_ok _ _ _ _ _ _ _ Hs Hl Hp Hpo Hmk E) as (? & ? & ? & ? & _ & ? & _). split_and!; try done. by right. }
  destruct (open_even btl n l2 ch m S) as [Hl3 E]; [done..|by rewrite Hb, (lo_height _ _ _ Hl)|done|rewrite Ht; by apply reopened_ok|rewrite Hsp; apply Hl|rewrite Hh; apply Hl|].
  exists (opened l2 ch). split; [done|]. split; [done|]. split; cbn; [rewrite Ht; apply same_reads_refl|done..].
Qed.

(** A crash after it: what is left of the commit is done again. *)
Lemma recover_both btl n l block pvtdata p lst t h l2 ch m S :
  environment btl → ledger_ok btl n l → (n + 2 < MaxUint64)%Z → prepared_ok n l block pvtdata p → block_batch n (pr_batch p) → stored_at n l p lst →
  reads btl n (pr_batch p) (tm_db (l_txmgr l)) (tm_db t) → history_Commit (l_history l) (pr_block p) = Ok h →
  l_blocks l2 = l_blocks lst → l_pvt l2 = l_pvt lst → l_savepoint l2 = l_savepoint l → l_history l2 = l_history l →
  tm_db (l_txmgr l2) = tm_db (l_txmgr l) → mgr_ok btl n m S (NewLockBasedTxMgr (tm_db (l_txmgr l2)) (pm_expKeeper (tm_purgeMgr (l_txmgr l2)))) →
  lastPersistedCommitHash l2 = Ok ch →
  ∃ l3, open_ledger l2 = Ok l3 ∧ ledger_ok btl (n + 1) l3 ∧
    same_data l3 (set_history (set_state lst t (Some (mkHeight n (maxTxNumber (pr_block p))))) h).
Proof.
  intros He Hl Hm2 Hpo Hb Hst Hr Hh Eb Ev Es Eh Edb Hok Hch. destruct (lo_num _ _ _ Hl) as [Hn Hm].
  assert (isPvtDataStoreAheadOfBlockStore l2 = false) as Hah.
  { unfold isPvtDataStoreAheadOfBlockStore. rewrite Eb, Ev, (sa_height _ _ _ _ Hst), (sa_pvt _ _ _ _ Hst). apply Z.ltb_irrefl. }
  rewrite (open_opened _ _ Hch), (sync_behind n _ (pr_block p) (pr_pvtdata p) false);
    [|done|lia|cbn; rewrite Eb; apply Hst|unfold GetPvtDataAndBlockByNum; cbn; rewrite Eb, Ev; apply Hst|cbn; rewrite Es; apply Hl|cbn; rewrite Eh; apply Hl].
  destruct (recommit_state btl n l block pvtdata p (opened l2 ch) m S) as (t' & m' & S' & Et & Hok' & Hr'); [done..|].
  cbn [foldM CommitLostBlock]. rewrite Et. cbn [mbind outcome_bind set_state l_history opened]. rewrite Eh, Hh. cbn [mbind outcome_bind].
  eexists. split; [done|]. split.
  - split; cbn; [lia|rewrite Eb; apply Hst|rewrite Ev, Hah; apply Hst|by exists m', S'|lia|]. eapply history_at_block; [done|apply Hpo].
  - split; cbn; [by eapply reads_same|done..].
Qed.

(** Only the history is left. *)
Lemma recover_history btl n l p lst t h l2 ch m S :
  (0 ≤ n)%Z → (n + 2 < MaxUint64)%Z → stored_at n l p lst → blk_Number (pr_block p) = Some n → at_block n (hdb_savepoint (l_history l)) →
  history_Commit (l_history l) (pr_block p) = Ok h → l_blocks l2 = l_blocks lst → l_pvt l2 = l_pvt lst →
  l_savepoint l2 = Some (mkHeight n (maxTxNumber (pr_block p))) → l_history l2 = l_history l → same_reads (tm_db (l_txmgr l2)) (tm_db t) →
  mgr_ok btl (n + 1) m S (NewLockBasedTxMgr (tm_db (l_txmgr l2)) (pm_expKeeper (tm_purgeMgr (l_txmgr l2)))) →
  lastPersistedCommitHash l2 = Ok ch →
  ∃ l3, open_ledger l2 = Ok l3 ∧ ledger_ok btl (n + 1) l3 ∧
    same_data l3 (set_history (set_state lst t (Some (mkHeight n (maxTxNumber (pr_block p))))) h).
Proof.
  intros Hn Hm Hst Hnum Hhi Hh Eb Ev Es Eh Hr Hok Hch.
  assert (isPvtDataStoreAheadOfBlockStore l2 = false) as Hah.
  { unfold isPvtDataStoreAheadOfBlockStore. rewrite Eb, Ev, (sa_height _ _ _ _ Hst), (sa_pvt _ _ _ _ Hst). apply Z.ltb_irrefl. }
  rewrite (open_opened _ _ Hch), (sync_behind n _ (pr_block p) (pr_pvtdata p) true);
    [|done|lia|cbn; rewrite Eb; apply Hst|unfold GetPvtDataAndBlockByNum; cbn; rewrite Eb, Ev; apply Hst|cbn; rewrite Es; cbn; lia|cbn; by rewrite Eh].
  cbn [foldM CommitLostBlock opened l_history]. rewrite Eh, Hh. cbn [mbind outcome_bind]. eexists. split; [done|]. split.
  - split; cbn; [lia|rewrite Eb; apply Hst|rewrite Ev, Hah; apply Hst|by exists m, S|rewrite Es; cbn; lia|]. by eapply history_at_block.
  - split; cbn; [done|by rewrite Es|done].
Qed.

End ledger.

(** ** A concrete ledger: lists of blocks, and the small block of
    [BatchPreparer] as its first *)
Definition list_stores : LedgerStores := {|
  blockstore := list Block;
  bs_Height s := Z.of_nat (length s);
  bs_AddBlock s b := Ok (s ++ [b]);
  bs_RetrieveBlockByNumber s n := from_option_err "no such block" (s !! Z.to_nat n);
  pvtstore := list (Z * list TxPvtData);
  ps_LastCommittedBlockHeight s := match last s with Some (n, _) => n + 1 | None => 0 end%Z;
  ps_Commit s n data _ := Ok (s ++ [(n, data)]);
  ps_GetPvtDataByBlockNum s n :=
    match last s with Some (n', data) => if (n' =? n)%Z then Ok data else Err "no such block" | None => Err "no such block" end;
  ps_FetchPrivateDataRawKey _ _ _ _ := Ok ""
|}.
Definition no_updates_codec : UpdatesCodec := {| marshal_Updates _ := Ok "" |}.
Definition no_metadata_codec : MetadataCodec := {|
  unmarshal_Metadata _ := None; marshal_Metadata _ := Err "unused"; unmarshal_LastConfig _ := None; marshal_LastConfig _ := Err "unused";
  unmarshal_OrdererBlockMetadata _ := None; marshal_OrdererBlockMetadata _ := Err "unused"
|}.

#[local] Existing Instance list_stores.
#[local] Existing Instance no_updates_codec.
#[local] Existing Instance no_metadata_codec.
#[local] Existing Instance digits_codec.
#[local] Existing Instance list_schedule_order.
#[local] Existing Instance one_block.
#[local] Existing Instance entry_decoder.
#[local] Existing Instance action_decoder.
#[local] Existing Instance no_post_order.
#[local] Existing Instance mem_db.
#[local] Existing Instance mem_bk.
#[local] Existing Instance toy_hashing.
#[local] Existing Instance toy_rw_codec.
#[local] Existing Instance list_key_order.

Lemma list_stores_ok : stores_ok.
Proof.
  split; cbn.
  - intros s b s' [= <-]. rewrite length_app, Nat2Z.id, list_lookup_middle by done. cbn. split; [lia|done].
  - intros s n data s' [= <-]. rewrite last_snoc, Z.eqb_refl. done.
Qed.

Definition first_block : Block := mkBlock (Some 0%Z) (Some toy_data) (Some [""; ""; bytes_of_flags toy_flags]).
Definition new_ledger : kvLedger := mkKvLedger ([] : blockstore) ([] : pvtstore) (NewLockBasedTxMgr toy_db ∅) None (mkHistoryDB ∅ None) "" false.
Definition first_prepared : prepared :=
  match commit_prepare ∅ any_kv Ok new_ledger first_block ∅ false with
  | Ok p => p
  | _ => mkPrepared 0 first_block ∅ idle_block ∅ [] new_ledger
  end.
Definition first_stored : kvLedger :=
  match commitToPvtAndBlockStore new_ledger 0 (pr_block first_prepared) ∅ [] with Ok l => l | _ => new_ledger end.
Definition first_committed : kvLedger :=
  match kv_commit ∅ any_kv Ok new_ledger first_block ∅ false with Ok l => l | _ => new_ledger end.

Lemma no_processors : processors_agree.
Proof. by intros []. Qed.

Lemma new_ledger_ok : ledger_ok one 0 new_ledger.
Proof.
  split; [split; [done|reflexivity]|reflexivity|reflexivity| |reflexivity|reflexivity].
  exists ∅, ∅. exact (mgr_start one toy_db toy_environment (mem_holds ∅)).
Qed.

Lemma first_batch : block_batch 0 (pr_batch first_prepared).
Proof.
  assert (HashUpdates (pr_batch first_prepared) = ∅) as Hh by (vm_compute; reflexivity).
  assert (PvtUpdates (pr_batch first_prepared) = ∅) as Hp by (vm_compute; reflexivity).
  split; [split; [apply plain_by; vm_compute; reflexivity|rewrite Hh|rewrite Hp]|intros ns coll k vv; unfold um_Get; rewrite Hh|intros ns coll k vv; unfold um_Get; rewrite Hp];
    try (rewrite lookup_empty; done); apply plain_by; reflexivity.
Qed.

