(* ===== verification/MsgProcessor.v ===== *)
(** * MsgProcessor: what the orderer admits to a channel
      (orderer/common/msgprocessor/filter.go, sizefilter.go, sigfilter.go,
      expiration.go, maintenancefilter.go, standardchannel.go,
      orderer/common/multichannel/chainsupport.go, ledger_resources.go)

    A message passes the filters of the channel's current configuration; an
    update of the configuration is turned into the configuration that results,
    which passes them again. The configuration as the program sees it, a bundle,
    is made by channelconfig, which is the class [ChannelConfig]. The time, the
    nonce and the expiration of a certificate are arguments. *)

From S2P Require Import Prelude GoText Protos Proposal ProtoUtil Policy PolicyManager ConfigTx BlockCutter.

(** ** The channel's configuration *)
Record OrdererConf := mkOrdererConf {
  oc_BatchSize : BatchSize;
  oc_AbsoluteMaxBytes : Z;
  oc_ConsensusType : string;
  oc_ConsensusMetadata : bytes;
  oc_ConsensusState : Z;
  oc_ConsensusTypeMigration : bool;
  oc_ExpirationCheck : bool;
  oc_Supported : option string  (* the error of [Capabilities().Supported()] *)
}.
Record Bundle := mkBundle {
  b_OrdererConfig : option OrdererConf;
  b_PolicyManager : ManagerImpl;
  b_ConfigtxValidator : ValidatorImpl;
  b_ChannelSupported : option string
}.

Definition ConsensusType_STATE_NORMAL : Z := 0.
Definition ConsensusType_STATE_MAINTENANCE : Z := 1.
Definition ChannelWriters : string := "/Channel/Writers".
Definition ChannelOrdererWriters : string := "/Channel/Orderer/Writers".
Definition OrdererGroupKey : string := "Orderer".
Definition ConsensusTypeKey : string := "ConsensusType".

(** [channelconfig.NewBundle], [Bundle.ValidateNew] and the consenter's check of
    its metadata. *)
Class ChannelConfig := {
  NewBundle : string → option Config → outcome Bundle;
  ValidateNew : Bundle → Bundle → outcome unit;
  ValidateConsensusMetadata : OrdererConf → OrdererConf → bool → outcome unit
}.

Definition raise (e : option string) : outcome unit := match e with None => Ok () | Some e => Err e end.

Definition checkResources (res : Bundle) : outcome unit :=
  oc ← from_option_err "config does not contain orderer config" (b_OrdererConfig res);
  _ ← with_message "config requires unsupported orderer capabilities" (raise (oc_Supported oc));
  with_message "config requires unsupported channel capabilities" (raise (b_ChannelSupported res)).

Definition ordererConfig (res : Bundle) : outcome OrdererConf :=
  match b_OrdererConfig res with Some oc => Ok oc | None => Panic "Programming error: orderer config not found" end.

(** ** Filters *)
Definition Rule : Type := option Envelope → outcome unit.

Definition RuleSet_Apply (rules : list Rule) (message : option Envelope) : outcome unit :=
  foldM (λ _ rule, rule message) () rules.

Section filters.
Context `{Codec} `{ProposalCodec}.
(** Whether the decoder left the payload nil; when a certificate expires. *)
Context (payload_nil : Envelope → bool).
Context (ExpiresAt : bytes → option Z).

Definition emptyRejectRule : Rule := λ message,
  message ← deref message;
  if payload_nil message then Err "Message was empty" else Ok ().

Definition messageByteSize (message : Envelope) : Z :=
  u32 (Z.of_nat (String.length (env_Payload message) + String.length (env_Signature message))).

Definition MaxBytesRule (res : Bundle) : Rule := λ message,
  ordererConf ← ordererConfig res;
  message ← deref message;
  if (oc_AbsoluteMaxBytes ordererConf <? messageByteSize message)%Z then Err "message payload exceeds maximum allowed" else Ok ().

Definition SigFilter (normalPolicyName maintenancePolicyName : string) (res : Bundle) : Rule := λ message,
  ordererConf ← ordererConfig res;
  signedData ← with_message "could not convert message to signedData" (EnvelopeAsSignedData message);
  let policyName := if bool_decide (oc_ConsensusState ordererConf = ConsensusType_STATE_MAINTENANCE)
                    then maintenancePolicyName else normalPolicyName in
  policy ← manager_GetPolicy (b_PolicyManager res) policyName;
  policy ← from_option_err ("could not find policy " +:+ policyName) policy;
  match p_EvaluateSignedData policy signedData with
  | None => Ok ()
  | Some e => Err (e +:+ ": permission denied")
  end.

Definition expirationRejectRule (now : Z) (res : Bundle) : Rule := λ message,
  ordererConf ← ordererConfig res;
  if negb (oc_ExpirationCheck ordererConf) then Ok ()
  else
    signedData ← with_message "could not convert message to signedData" (EnvelopeAsSignedData message);
    sd ← index signedData 0;
    match ExpiresAt (sd_Identity sd) with
    | None => Ok ()
    | Some expirationTime => if (now <? expirationTime)%Z then Ok () else Err "broadcast client identity expired"
    end.

(** The rule on expiration comes before the one on signatures. *)
Definition CreateStandardChannelFilters (NoExpirationChecks : bool) (now : Z) (res : Bundle) : list Rule :=
  let rules := [emptyRejectRule; MaxBytesRule res; SigFilter ChannelWriters ChannelOrdererWriters res] in
  if negb NoExpirationChecks then take 2 rules ++ [expirationRejectRule now res] ++ drop 2 rules else rules.

(** ** Normal messages (standardchannel.go) *)
Definition Sequence (res : Bundle) : Z := vi_sequence (b_ConfigtxValidator res).

Context (NoExpirationChecks : bool).
Notation filters now res := (CreateStandardChannelFilters NoExpirationChecks now res).

Definition ProcessNormalMsg (now : Z) (res : Bundle) (env : option Envelope) : outcome Z :=
  oc ← ordererConfig res;
  if oc_ConsensusTypeMigration oc && negb (bool_decide (oc_ConsensusState oc = ConsensusType_STATE_NORMAL))
  then Err "normal transactions are rejected: maintenance mode"
  else
    _ ← RuleSet_Apply (filters now res) env;
    Ok (Sequence res).

(** ** What is admitted *)
Definition admitted (now : Z) (res : Bundle) (env : option Envelope) : Prop :=
  ∃ oc m sd p, b_OrdererConfig res = Some oc ∧ env = Some m ∧ payload_nil m = false ∧
    (messageByteSize m ≤ oc_AbsoluteMaxBytes oc)%Z ∧ EnvelopeAsSignedData env = Ok [sd] ∧
    (NoExpirationChecks = false → oc_ExpirationCheck oc = true → ∀ t, ExpiresAt (sd_Identity sd) = Some t → (now < t)%Z) ∧
    manager_GetPolicy (b_PolicyManager res)
      (if bool_decide (oc_ConsensusState oc = ConsensusType_STATE_MAINTENANCE) then ChannelOrdererWriters else ChannelWriters) =
      Ok (Some p) ∧
    p_EvaluateSignedData p [sd] = None.

Lemma EnvelopeAsSignedData_single env l : EnvelopeAsSignedData env = Ok l → ∃ sd, l = [sd].
Proof.
  unfold EnvelopeAsSignedData. intros E. apply bind_Ok in E as (e & _ & E). apply bind_Ok in E as (p & _ & E).
  apply bind_Ok in E as (h & _ & E). apply bind_Ok in E as (s & _ & [= <-]). eauto.
Qed.

Lemma SigFilter_Ok res env normal maintenance oc :
  b_OrdererConfig res = Some oc →
  SigFilter normal maintenance res env = Ok () ↔
  ∃ sd p, EnvelopeAsSignedData env = Ok sd ∧
    manager_GetPolicy (b_PolicyManager res)
      (if bool_decide (oc_ConsensusState oc = ConsensusType_STATE_MAINTENANCE) then maintenance else normal) = Ok (Some p) ∧
    p_EvaluateSignedData p sd = None.
Proof.
  intros Hoc. unfold SigFilter, ordererConfig. rewrite Hoc. cbn [mbind outcome_bind]. split.
  - intros E. apply bind_Ok in E as (sd & Hsd%with_message_Ok & E). apply bind_Ok in E as (op & Hp & E).
    apply bind_Ok in E as (p & ->%from_option_err_Ok & E). exists sd, p. by destruct (p_EvaluateSignedData p sd).
  - intros (sd & p & -> & Hp & He). cbn [with_message mbind outcome_bind]. rewrite Hp. cbn. by rewrite He.
Qed.

Lemma expirationRejectRule_Ok now res env oc sd :
  b_OrdererConfig res = Some oc → EnvelopeAsSignedData env = Ok [sd] →
  expirationRejectRule now res env = Ok () ↔
  (oc_ExpirationCheck oc = true → ∀ t, ExpiresAt (sd_Identity sd) = Some t → (now < t)%Z).
Proof.
  intros Hoc Hsd. unfold expirationRejectRule, ordererConfig. rewrite Hoc, Hsd. cbn [mbind outcome_bind with_message].
  destruct (oc_ExpirationCheck oc); cbn; [|done]. destruct (ExpiresAt (sd_Identity sd)) as [t|]; [|done].
  destruct (Z.ltb_spec now t); split; try done; [by intros _ _ t' [= <-]|]. intros Hx. specialize (Hx eq_refl t eq_refl). lia.
Qed.

Lemma rules_cons (r : Rule) rules message :
  RuleSet_Apply (r :: rules) message = Ok () ↔ r message = Ok () ∧ RuleSet_Apply rules message = Ok ().
Proof.
  unfold RuleSet_Apply. cbn [foldM]. destruct (r message) as [[]| |]; [tauto|..]; (split; [done|by intros [? _]]).
Qed.

Lemma filters_Ok now res env : RuleSet_Apply (filters now res) env = Ok () ↔ admitted now res env.
Proof.
  unfold CreateStandardChannelFilters, admitted.
  assert (∀ rest, RuleSet_Apply (emptyRejectRule :: MaxBytesRule res :: rest) env = Ok () ↔
    ∃ oc m, b_OrdererConfig res = Some oc ∧ env = Some m ∧ payload_nil m = false ∧
      (messageByteSize m ≤ oc_AbsoluteMaxBytes oc)%Z ∧ RuleSet_Apply rest env = Ok ()) as Hfirst.
  { intros rest. rewrite !rules_cons. unfold emptyRejectRule, MaxBytesRule, ordererConfig.
    destruct env as [m|]; cbn; [|split; [by intros [? _]|by intros (? & ? & _ & ? & _)]].
    destruct (payload_nil m) eqn:?; [split; [by intros [? _]|intros (? & ? & _ & [= ->] & ? & _); congruence]|].
    destruct (b_OrdererConfig res) as [oc|]; cbn; [|split; [by intros [_ [? _]]|by intros (? & ? & ? & _)]].
    destruct (Z.ltb_spec (oc_AbsoluteMaxBytes oc) (messageByteSize m)).
    - split; [by intros [_ [? _]]|intros (? & ? & [= ->] & [= ->] & _ & ? & _); lia].
    - split; [intros [_ [_ ?]]; by exists oc, m|by intros (? & ? & _ & _ & _ & _ & ?)]. }
  destruct NoExpirationChecks; cbn [negb take drop app].
  - rewrite Hfirst. split.
    + intros (oc & m & Hoc & ? & ? & ? & [(sd & p & Hsd & Hp & He)%(SigFilter_Ok _ _ _ _ oc Hoc) _]%rules_cons).
      pose proof (EnvelopeAsSignedData_single _ _ Hsd) as [sd0 ->]. exists oc, m, sd0, p. done.
    + intros (oc & m & sd & p & Hoc & ? & ? & ? & Hsd & _ & Hp & He). exists oc, m. split_and!; try done.
      apply rules_cons. split; [|done]. apply (SigFilter_Ok _ _ _ _ oc Hoc). eauto.
  - rewrite Hfirst. split.
    + intros (oc & m & Hoc & ? & ? & ? & [Hx [(sd & p & Hsd & Hp & He)%(SigFilter_Ok _ _ _ _ oc Hoc) _]%rules_cons]%rules_cons).
      pose proof (EnvelopeAsSignedData_single _ _ Hsd) as [sd0 ->]. exists oc, m, sd0, p.
      split_and!; try done. intros _. by apply (expirationRejectRule_Ok now res env oc sd0).
    + intros (oc & m & sd & p & Hoc & ? & ? & ? & Hsd & Hx & Hp & He). exists oc, m. split_and!; try done.
      apply rules_cons. split; [apply (expirationRejectRule_Ok now res env oc sd); auto|].
      apply rules_cons. split; [|done]. apply (SigFilter_Ok _ _ _ _ oc Hoc). eauto.
Qed.


End filters.

Section msgprocessor.
Context `{MapOrder} `{Codec} `{ProposalCodec} `{TxCodec} `{ChannelConfig}.
Context (unmarshal_ConfigUpdate : bytes → option ConfigUpdate).
Context (unmarshal_ConfigUpdateEnvelope : bytes → option ConfigUpdateEnvelope).
Context (unmarshal_ConfigEnvelope : bytes → option ConfigEnvelope).
Context (marshal_ConfigEnvelope : ConfigEnvelope → outcome bytes).
Context (valid_ConfigMetadata : bytes → bool).
Context (payload_nil : Envelope → bool).
Context (ExpiresAt : bytes → option Z).

(** ** Maintenance mode *)
Definition ensureConsensusTypeChangeOnly (configEnvelope : ConfigEnvelope) : outcome unit :=
  configUpdateEnv ← with_message "envelope to config update unmarshalling error"
    (EnvelopeToConfigUpdate unmarshal_ConfigUpdateEnvelope (ce_LastUpdate configEnvelope));
  configUpdate ← from_option_err "config update unmarshalling error" (unmarshal_ConfigUpdate (cue_ConfigUpdate configUpdateEnv));
  writeSet ← deref (cu_WriteSet configUpdate);
  if (size (cg_Groups writeSet) =? 0)%nat then Err "config update contains no changes"
  else if (0 <? size (cg_Values writeSet))%nat then Err "config update contains changes to values in group Channel"
  else if (1 <? size (cg_Groups writeSet))%nat then Err "config update contains changes to more than one group"
  else
    match cg_Groups writeSet !! OrdererGroupKey with
    | None => Err "update does not contain the Orderer group"
    | Some ordGroup =>
        if (0 <? size (cg_Groups ordGroup))%nat then Err "config update contains changes to groups within the Orderer group"
        else if negb (bool_decide (is_Some (cg_Values ordGroup !! ConsensusTypeKey)))
        then Err "config update does not contain the ConsensusType value"
        else if (1 <? size (cg_Values ordGroup))%nat
        then Err "config update contain more then just the ConsensusType value in the Orderer group"
        else Ok ()
    end.

Definition permittedTargetConsensusTypes : list string := ["etcdraft"; "solo"; "kafka"].

Definition inspect (channelID : string) (configEnvelope : ConfigEnvelope) (ordererConf : OrdererConf) : outcome unit :=
  match ce_LastUpdate configEnvelope with
  | None => Err "updated config does not include a config update"
  | Some _ =>
      bundle ← with_message "failed to parse config" (NewBundle channelID (ce_Config configEnvelope));
      next ← from_option_err "next config is missing orderer group" (b_OrdererConfig bundle);
      if negb (oc_ConsensusTypeMigration ordererConf) then
        if negb (bool_decide (oc_ConsensusState next = ConsensusType_STATE_NORMAL))
        then Err "next config attempted to change ConsensusType.State, but capability is disabled"
        else if negb (bool_decide (oc_ConsensusType ordererConf = oc_ConsensusType next))
        then Err "next config attempted to change ConsensusType.Type, but capability is disabled"
        else Ok ()
      else
        _ ← (if negb (bool_decide (oc_ConsensusState ordererConf = oc_ConsensusState next)) then
               _ ← ensureConsensusTypeChangeOnly configEnvelope;
               if negb (bool_decide (oc_ConsensusType ordererConf = oc_ConsensusType next))
               then Err "attempted to change ConsensusType.Type, but ConsensusType.State is changing"
               else if negb (bool_decide (oc_ConsensusMetadata next = oc_ConsensusMetadata ordererConf))
               then Err "attempted to change ConsensusType.Metadata, but ConsensusType.State is changing"
               else Ok ()
             else Ok ());
        if negb (bool_decide (oc_ConsensusType ordererConf = oc_ConsensusType next)) then
          if bool_decide (oc_ConsensusState ordererConf = ConsensusType_STATE_NORMAL)
          then Err "attempted to change consensus type, but current config ConsensusType.State is not in maintenance mode"
          else if bool_decide (oc_ConsensusState next = ConsensusType_STATE_NORMAL)
          then Err "attempted to change consensus type, but next config ConsensusType.State is not in maintenance mode"
          else if negb (bool_decide (oc_ConsensusType next ∈ permittedTargetConsensusTypes))
          then Err "attempted to change consensus type, transition not supported"
          else if bool_decide (oc_ConsensusType next = "etcdraft") && negb (valid_ConfigMetadata (oc_ConsensusMetadata next))
          then Err "failed to unmarshal etcdraft metadata configuration"
          else Ok ()
        else Ok ()
  end.

Definition MaintenanceFilter (channelID : string) (res : Bundle) : Rule := λ message,
  ordererConf ← ordererConfig res;
  message ← deref message;
  '(_, configEnvelope) ← with_message "envelope unmarshalling failed"
    (UnmarshalEnvelopeOfType unmarshal_ConfigEnvelope message HeaderType_CONFIG);
  with_message "config transaction inspection failed" (inspect channelID configEnvelope ordererConf).

(** ** Updates (chainsupport.go) *)
Definition chain_ProposeConfigUpdate (channelID : string) (res : Bundle) (configtx : option Envelope) : outcome ConfigEnvelope :=
  env ← ProposeConfigUpdate unmarshal_ConfigUpdate unmarshal_ConfigUpdateEnvelope (b_ConfigtxValidator res) configtx;
  bundle ← NewBundle channelID (ce_Config env);
  _ ← with_message "config update is not compatible" (checkResources bundle);
  _ ← ValidateNew res bundle;
  oldOrdererConfig ← ordererConfig res;
  newOrdererConfig ← from_option_err "new config is missing orderer group" (b_OrdererConfig bundle);
  _ ← with_message "consensus metadata update for channel config update is invalid"
    (ValidateConsensusMetadata oldOrdererConfig newOrdererConfig false);
  Ok env.

(** ** The processor of a channel (standardchannel.go) *)
Inductive Classification := NormalMsg | ConfigUpdateMsg | ConfigMsg.

Definition ClassifyMsg (chdr : ChannelHeader) : Classification :=
  if bool_decide (chdr_Type chdr = HeaderType_CONFIG_UPDATE) then ConfigUpdateMsg
  else if bool_decide (chdr_Type chdr = HeaderType_ORDERER_TRANSACTION) then ConfigMsg
  else if bool_decide (chdr_Type chdr = HeaderType_CONFIG) then ConfigMsg
  else NormalMsg.

Context (NoExpirationChecks : bool) (channelID : string).
Notation filters now res := (CreateStandardChannelFilters payload_nil ExpiresAt NoExpirationChecks now res).
Notation admitted := (admitted payload_nil ExpiresAt NoExpirationChecks).

Definition ProcessConfigUpdateMsg (now : Z) (nonce : outcome bytes) (signer : Signer) (res : Bundle) (env : option Envelope)
    : outcome (Envelope * Z) :=
  let seq := Sequence res in
  _ ← with_message "config update for existing channel did not pass initial checks" (RuleSet_Apply (filters now res) env);
  configEnvelope ← with_message "error applying config update to existing channel" (chain_ProposeConfigUpdate channelID res env);
  config ← CreateSignedEnvelopeWithTLSBinding now nonce HeaderType_CONFIG channelID (Some signer)
    (marshal_ConfigEnvelope configEnvelope) 0 0 None;
  _ ← with_message "config update for existing channel did not pass final checks" (RuleSet_Apply (filters now res) (Some config));
  _ ← with_message "config update for existing channel did not pass maintenance checks"
    (MaintenanceFilter channelID res (Some config));
  Ok (config, seq).

Definition ProcessConfigMsg (now : Z) (nonce : outcome bytes) (signer : Signer) (res : Bundle) (env : Envelope)
    : outcome (Envelope * Z) :=
  '(_, configEnvelope) ← UnmarshalEnvelopeOfType unmarshal_ConfigEnvelope env HeaderType_CONFIG;
  ProcessConfigUpdateMsg now nonce signer res (ce_LastUpdate configEnvelope).

Lemma signed_envelope_decodes now nonce typ signer {A} (unmarshal : bytes → option A) (msg : A) data version epoch tls env :
  tx_codec_laws → tls = unset tls → (∀ b, data = Ok b → unmarshal b = Some msg) →
  CreateSignedEnvelopeWithTLSBinding now nonce typ channelID (Some signer) data version epoch tls = Ok env →
  ∃ chdr, UnmarshalEnvelopeOfType unmarshal env typ = Ok (chdr, msg) ∧ chdr_ChannelId chdr = channelID ∧
    Sign signer (env_Payload env) = Ok (env_Signature env).
Proof.
  intros L Htls Hdata E. unfold CreateSignedEnvelopeWithTLSBinding in E. apply bind_Ok in E as (sh & _ & E).
  apply bind_Ok in E as (d & Hd%with_message_Ok & E). apply bind_Ok in E as (hdr & Hh & E).
  apply bind_Ok in E as (payl & Hp%or_panic_Ok & E). apply bind_Ok in E as (sig & Hs & [= <-]).
  unfold MakePayloadHeader in Hh. apply bind_Ok in Hh as (c & Hc%or_panic_Ok & Hh). apply bind_Ok in Hh as (s & _ & [= <-]).
  apply (law_ChannelHeader L) in Hc as [Hc _]; [|exact Htls]. apply (law_Payload L) in Hp. eexists. split.
  - unfold UnmarshalEnvelopeOfType. cbn [env_Payload]. rewrite Hp. cbn. rewrite Hc. cbn.
    rewrite bool_decide_eq_true_2 by done. cbn. rewrite (Hdata _ Hd). reflexivity.
  - split; [done|exact Hs].
Qed.

(** A configuration that is made of an update decodes to one that every node at
    the same configuration validates, whatever the order it visits the maps in;
    the update and the message the orderer signed are both admitted. *)
Theorem config_msg_sound (O2 : MapOrder) (now : Z) (nonce : outcome bytes) (signer : Signer) (res : Bundle)
    (env : option Envelope) (config : Envelope) (seq : Z) :
  tx_codec_laws → (∀ e b, marshal_ConfigEnvelope e = Ok b → unmarshal_ConfigEnvelope b = Some e) →
  ProcessConfigUpdateMsg now nonce signer res env = Ok (config, seq) →
  seq = Sequence res ∧ admitted now res env ∧ admitted now res (Some config) ∧
  Sign signer (env_Payload config) = Ok (env_Signature config) ∧
  ∃ chdr env', UnmarshalEnvelopeOfType unmarshal_ConfigEnvelope config HeaderType_CONFIG = Ok (chdr, env') ∧
    chdr_ChannelId chdr = channelID ∧ ce_LastUpdate env' = env ∧
    @configtx_Validate O2 _ _ unmarshal_ConfigUpdate unmarshal_ConfigUpdateEnvelope (b_ConfigtxValidator res) (Some env') = Ok ().
Proof.
  intros L Lc E. unfold ProcessConfigUpdateMsg in E.
  apply bind_Ok in E as ([] & K1%with_message_Ok%filters_Ok & E). apply bind_Ok in E as (env' & K2%with_message_Ok & E).
  apply bind_Ok in E as (cfg & K3 & E). apply bind_Ok in E as ([] & K4%with_message_Ok%filters_Ok & E).
  apply bind_Ok in E as ([] & _ & [= -> <-]).
  destruct (signed_envelope_decodes _ _ _ _ unmarshal_ConfigEnvelope env' _ _ _ _ _ L eq_refl (Lc env') K3) as (chdr & Hu & Hid & Hs).
  unfold chain_ProposeConfigUpdate in K2. apply bind_Ok in K2 as (e & Hp & K2).
  assert (e = env') as ->.
  { apply bind_Ok in K2 as (? & _ & K2). apply bind_Ok in K2 as (? & _ & K2). apply bind_Ok in K2 as (? & _ & K2).
    apply bind_Ok in K2 as (? & _ & K2). apply bind_Ok in K2 as (? & _ & K2). by apply bind_Ok in K2 as (? & _ & [= ->]). }
  split_and!; try done. exists chdr, env'. split_and!; try done.
  - unfold ProposeConfigUpdate in Hp. apply bind_Ok in Hp as (? & _ & Hp). apply bind_Ok in Hp as (? & _ & Hp).
    by apply bind_Ok in Hp as (? & _ & [= <-]).
  - by apply (update_validates _ O2) in Hp.
Qed.

(** ** Maintenance mode *)

(** The type of the consensus protocol changes only within maintenance mode, to
    one of the permitted types; entering or leaving the mode changes neither the
    type nor its metadata. *)
Theorem maintenance_rules (configEnvelope : ConfigEnvelope) (oc : OrdererConf) :
  inspect channelID configEnvelope oc = Ok () →
  ∃ bundle next, NewBundle channelID (ce_Config configEnvelope) = Ok bundle ∧ b_OrdererConfig bundle = Some next ∧
    (oc_ConsensusType next ≠ oc_ConsensusType oc →
       oc_ConsensusTypeMigration oc = true ∧ oc_ConsensusState oc ≠ ConsensusType_STATE_NORMAL ∧
       oc_ConsensusState next = oc_ConsensusState oc ∧ oc_ConsensusType next ∈ permittedTargetConsensusTypes) ∧
    (oc_ConsensusState next ≠ oc_ConsensusState oc →
       (oc_ConsensusTypeMigration oc = true ∧ oc_ConsensusMetadata next = oc_ConsensusMetadata oc ∨
        oc_ConsensusTypeMigration oc = false ∧ oc_ConsensusState next = ConsensusType_STATE_NORMAL) ∧
       oc_ConsensusType next = oc_ConsensusType oc).
Proof.
  unfold inspect. intros E. destruct (ce_LastUpdate configEnvelope); [|done].
  apply bind_Ok in E as (bundle & Hb%with_message_Ok & E). apply bind_Ok in E as (next & Hn%from_option_err_Ok & E).
  exists bundle, next. split; [done|]. split; [done|].
  destruct (bool_decide_reflect (oc_ConsensusType oc = oc_ConsensusType next)) as [Ht|Ht];
    destruct (bool_decide_reflect (oc_ConsensusState oc = oc_ConsensusState next)) as [Hs|Hs];
    (destruct (oc_ConsensusTypeMigration oc); cbn [negb] in E; [apply bind_Ok in E as ([] & E1 & E2)|]).
  - split; congruence.
  - split; congruence.
  - apply bind_Ok in E1 as ([] & _ & E1). case_bool_decide; [|done]. split; [congruence|]. auto.
  - case_bool_decide; [|done]. split; [congruence|]. auto.
  - repeat (case_bool_decide; [done|]; cbn [negb] in E2). split; [|congruence].
    destruct (bool_decide_reflect (oc_ConsensusType next ∈ permittedTargetConsensusTypes)); [auto|done].
  - by destruct (negb _).
  - by apply bind_Ok in E1 as ([] & _ & E1).
  - by destruct (negb _).
Qed.

(** The comment of [ensureConsensusTypeChangeOnly] allows no change but that of
    the value; the code does not look at policies: whatever policies an update
    writes along with the change of state, it passes. *)
Theorem mode_change_may_change_policies (configEnvelope : ConfigEnvelope) (cue : ConfigUpdateEnvelope) (cu : ConfigUpdate)
    (v v' : Z) (value : ConfigValue) (policies policies' : gmap string ConfigPolicy) (mp mp' : string) :
  EnvelopeToConfigUpdate unmarshal_ConfigUpdateEnvelope (ce_LastUpdate configEnvelope) = Ok cue →
  unmarshal_ConfigUpdate (cue_ConfigUpdate cue) = Some cu →
  cu_WriteSet cu = Some (mkConfigGroup v {[ OrdererGroupKey := mkConfigGroup v' ∅ {[ ConsensusTypeKey := value ]} policies' mp' ]}
    ∅ policies mp) →
  ensureConsensusTypeChangeOnly configEnvelope = Ok ().
Proof.
  intros E1 E2 E3. unfold ensureConsensusTypeChangeOnly. rewrite E1. cbn [with_message mbind outcome_bind]. rewrite E2.
  cbn [from_option_err mbind outcome_bind]. rewrite E3. cbn [deref mbind outcome_bind cg_Groups cg_Values].
  rewrite map_size_empty, map_size_singleton, lookup_singleton_eq. cbn [Nat.eqb Nat.ltb Nat.leb cg_Groups cg_Values].
  rewrite map_size_empty, map_size_singleton, lookup_singleton_eq. done.
Qed.
End msgprocessor.

(** ** An update of the sample channel *)
Section sample.
#[local] Existing Instances sorted_map_order SignatureHeader_eq_dec ChannelHeader_eq_dec Payload_eq_dec.

Definition config_header : ChannelHeader := mkChannelHeader 1 "ch" "" 0 "" 0 (Some 0%Z) None.
Definition config_payload : Payload := mkPayload (Some (mkHeader "CH" "CS")) "CE".

Definition orderer_codec : Codec := {|
  unmarshal_Envelope _ := None;
  unmarshal_Payload s := if decide (s = "CP") then Some config_payload else @unmarshal_Payload batch_codec s;
  unmarshal_ChannelHeader s := if decide (s = "CH") then Some config_header else @unmarshal_ChannelHeader batch_codec s;
  unmarshal_Transaction _ := None;
  unmarshal_ChaincodeAction _ := None;
  unmarshal_TxReadWriteSet _ := None;
  unmarshal_KVRWSet _ := None;
  unmarshal_HashedRWSet _ := None
|}.
Definition orderer_proposal_codec : ProposalCodec := {|
  unmarshal_Proposal _ := None;
  unmarshal_Header _ := None;
  unmarshal_PChannelHeader s := if decide (s = "CH") then Some config_header else None;
  unmarshal_SignatureHeader s := if decide (s = "CS") then Some (mkSignatureHeader "orderer" "nonce")
                                 else @unmarshal_SignatureHeader batch_proposal_codec s;
  unmarshal_ChaincodeHeaderExtension _ := None;
  unmarshal_ChaincodeProposalPayload _ := None;
  unmarshal_ChaincodeInvocationSpec _ := None;
  marshal_ChaincodeProposalPayload _ := Err "unknown message";
  sha256 b := b;
  hex_encode b := b
|}.
Definition orderer_tx_codec : TxCodec := {|
  marshal_ChaincodeAction _ := Err "unknown message";
  marshal_ProposalResponsePayload _ := Err "unknown message";
  unmarshal_ProposalResponsePayload _ := None;
  marshal_ChaincodeActionPayload _ := Err "unknown message";
  unmarshal_ChaincodeActionPayload _ := None;
  marshal_Transaction _ := Err "unknown message";
  marshal_Payload := enc1 "CP" config_payload;
  marshal_Header _ := Err "unknown message";
  marshal_ChannelHeader := enc1 "CH" config_header;
  marshal_SignatureHeader := enc1 "CS" (mkSignatureHeader "orderer" "nonce");
  marshal_ChaincodeHeaderExtension _ := Err "unknown message";
  marshal_ChaincodeInvocationSpec _ := Err "unknown message";
  marshal_Proposal _ := Err "unknown message";
  TimestampProto t := Ok t
|}.
#[local] Existing Instances orderer_codec orderer_proposal_codec orderer_tx_codec.

Lemma orderer_laws : tx_codec_laws.
Proof. split; intros *; cbn; intros E; try done; apply dec1_enc1 in E as (-> & -> & _); done. Qed.

Definition sample_conf : OrdererConf := mkOrdererConf (mkBatchSize 10 100) 1000 "etcdraft" "meta" 0 true true None.
Definition sample_bundle : Bundle := mkBundle (Some sample_conf) sample_managers sample_validator None.
Definition sample_channelconfig : ChannelConfig := {|
  NewBundle _ _ := Ok sample_bundle;
  ValidateNew _ _ := Ok ();
  ValidateConsensusMetadata _ _ _ := Ok ()
|}.
#[local] Existing Instance sample_channelconfig.

Definition encode_config (e : ConfigEnvelope) : outcome bytes :=
  match e with
  | mkConfigEnvelope (Some (mkConfig seq g)) (Some (mkEnvelope p s)) =>
      if bool_decide (seq = 5%Z ∧ g = Some larger_batches ∧ p = "P" ∧ s = "sig:P") then Ok "CE" else Err "unknown message"
  | _ => Err "unknown message"
  end.
Definition decode_config (s : bytes) : option ConfigEnvelope := if decide (s = "CE") then Some larger_env else None.

Lemma encode_config_ok e b : encode_config e = Ok b → decode_config b = Some e.
Proof.
  destruct e as [[[seq g]|] [[p s]|]]; try done. cbn. case_bool_decide as Hd; [|done].
  destruct Hd as (-> & -> & -> & ->). intros [= <-]. done.
Qed.

Definition orderer_signer : Signer := mkSigner (λ b, Ok ("sig:" +:+ b)) (Ok "orderer").
Notation process_update := (ProcessConfigUpdateMsg decode_update decode_update_env decode_config encode_config (λ _, true)
  (λ e, bool_decide (env_Payload e = "")) (λ _, Some 50%Z) false "ch" 7 (Ok "nonce") orderer_signer sample_bundle).

Lemma sample_update_processed : process_update (Some batch_tx) = Ok (mkEnvelope "CP" "sig:CP", 4%Z).
Proof. vm_compute. reflexivity. Qed.

Lemma config_msg_sound_witness :
  ∃ chdr env', UnmarshalEnvelopeOfType decode_config (mkEnvelope "CP" "sig:CP") HeaderType_CONFIG = Ok (chdr, env') ∧
    @configtx_Validate reversed_map_order _ _ decode_update decode_update_env sample_validator (Some env') = Ok ().
Proof.
  destruct (config_msg_sound decode_update decode_update_env decode_config encode_config (λ _, true)
    (λ e, bool_decide (env_Payload e = "")) (λ _, Some 50%Z) false "ch" reversed_map_order 7 (Ok "nonce") orderer_signer
    sample_bundle (Some batch_tx) (mkEnvelope "CP" "sig:CP") 4 orderer_laws encode_config_ok sample_update_processed)
    as (_ & _ & _ & _ & chdr & env' & Hu & _ & _ & Hv).
  by exists chdr, env'.
Defined.

Lemma maintenance_rules_witness :
  ∃ bundle next, NewBundle "ch" (ce_Config larger_env) = Ok bundle ∧ b_OrdererConfig bundle = Some next ∧
    (oc_ConsensusType next ≠ "etcdraft" → oc_ConsensusState sample_conf ≠ ConsensusType_STATE_NORMAL).
Proof.
  destruct (maintenance_rules decode_update decode_update_env (λ _, true) "ch" larger_env sample_conf)
    as (bundle & next & Hb & Hn & Ht & _); [vm_compute; reflexivity|]. exists bundle, next. split_and!; [done..|]. apply Ht.
Defined.

(** Leaving maintenance mode together with a new policy of the channel's admins. *)
Definition leave_update (s : bytes) : option ConfigUpdate :=
  Some (mkConfigUpdate "ch" None (Some (mkConfigGroup 0
    {[ OrdererGroupKey := mkConfigGroup 0 ∅ {[ ConsensusTypeKey := mkConfigValue 1 "normal" "Admins" ]} ∅ "" ]}
    ∅ {[ "Admins" := sample_policy "mallory" ]} ""))).

Lemma mode_change_may_change_policies_witness :
  ensureConsensusTypeChangeOnly leave_update decode_update_env larger_env = Ok ().
Proof.
  eapply (mode_change_may_change_policies leave_update decode_update_env larger_env batch_update_env); reflexivity.
Defined.
End sample.
