(* ===== verification/BlockWriter.v ===== *)
(** * BlockWriter: the orderer writes blocks to its ledger
      (orderer/common/multichannel/blockwriter.go)

    The writer annotates a block with the number of the last configuration block
    and with the orderer's signature, and appends it. A normal block is
    annotated and appended by a goroutine that holds a lock, while the caller
    goes on; a configuration block takes effect and is appended before the call
    returns. The ledger is the list of blocks appended, which accepts a block
    only after the one before (common/ledger/blkstorage/blockfile_mgr.go). *)

From S2P Require Import Prelude GoText Protos Proposal ProtoUtil PolicyManager ConfigTx BlockCutter Blocks MsgProcessor.

Record BlockWriter := mkBlockWriter {
  bw_support : Bundle;
  bw_lastConfigBlockNum : Z;
  bw_lastConfigSeq : Z;
  bw_lastBlock : FullBlock;
  (** The goroutine that holds [committingBlock], with the consenter's metadata. *)
  bw_committing : option bytes;
  bw_ledger : list FullBlock;
  (** The channels the registrar was asked to create. *)
  bw_newChains : list Envelope
}.

Section blockwriter.
Context `{MapOrder} `{Codec} `{ProposalCodec} `{TxCodec} `{ChannelConfig} `{MetadataCodec}.
Context (unmarshal_ConfigUpdate : bytes → option ConfigUpdate).
Context (unmarshal_ConfigUpdateEnvelope : bytes → option ConfigUpdateEnvelope).
Context (unmarshal_ConfigEnvelope : bytes → option ConfigEnvelope).
Context (marshal_Envelope : Envelope → outcome bytes).
Context (signer : Signer).

(** [blockfileMgr.addBlock]: the number is the height, the hash that of the last block. *)
Definition current_hash (ledger : list FullBlock) : bytes :=
  match last ledger with
  | Some b => match fb_Header b with Some h => BlockHeaderHash h | None => "" end
  | None => ""
  end.

Definition Append (ledger : list FullBlock) (block : FullBlock) : outcome (list FullBlock) :=
  header ← deref (fb_Header block);
  if negb (bh_Number header =? Z.of_nat (length ledger))%Z then Err "block number should have been another"
  else if negb (bool_decide (bh_PreviousHash header = current_hash ledger)) then Err "unexpected Previous block hash"
  else Ok (ledger ++ [block]).

Definition newBlockWriter (ledger : list FullBlock) (lastBlock : FullBlock) (support : Bundle) : outcome BlockWriter :=
  header ← deref (fb_Header lastBlock);
  lastConfigBlockNum ← (if (bh_Number header =? 0)%Z then Ok 0%Z else or_panic (GetLastConfigIndexFromBlock lastBlock));
  Ok (mkBlockWriter support lastConfigBlockNum (Sequence support) lastBlock None ledger []).

Definition marshal_all (messages : list Envelope) : outcome (list bytes) :=
  foldM (λ data msg, b ← or_panic (marshal_Envelope msg); Ok (data ++ [b])) [] messages.

Definition CreateNextBlock (bw : BlockWriter) (messages : list Envelope) : outcome FullBlock :=
  last ← deref (fb_Header (bw_lastBlock bw));
  let previousBlockHash := BlockHeaderHash last in
  data ← marshal_all messages;
  let block := NewBlock (u64 (bh_Number last + 1)) previousBlockHash in
  header ← deref (fb_Header block);
  Ok (mkFullBlock (Some (mkBlockHeader (bh_Number header) (bh_PreviousHash header) (BlockDataHash data))) (Some data)
        (fb_Metadata block)).

(** [block.Metadata.Metadata[idx] = value]. *)
Definition set_slot (block : FullBlock) (idx : nat) (value : bytes) : outcome FullBlock :=
  metadata ← deref (fb_Metadata block);
  if (idx <? length metadata)%nat then Ok (mkFullBlock (fb_Header block) (fb_Data block) (Some (<[idx := value]> metadata)))
  else Panic "index out of range".

Definition set_lastBlock (bw : BlockWriter) (block : FullBlock) : BlockWriter :=
  mkBlockWriter (bw_support bw) (bw_lastConfigBlockNum bw) (bw_lastConfigSeq bw) block (bw_committing bw) (bw_ledger bw)
    (bw_newChains bw).

Definition addLastConfig (bw : BlockWriter) : outcome BlockWriter :=
  let configSeq := Sequence (bw_support bw) in
  header ← deref (fb_Header (bw_lastBlock bw));
  let bw :=
    if (bw_lastConfigSeq bw <? configSeq)%Z
    then mkBlockWriter (bw_support bw) (bh_Number header) configSeq (bw_lastBlock bw) (bw_committing bw) (bw_ledger bw)
           (bw_newChains bw)
    else bw in
  lastConfigValue ← or_panic (marshal_LastConfig (bw_lastConfigBlockNum bw));
  md ← or_panic (marshal_Metadata (mkMetadata lastConfigValue []));
  block ← set_slot (bw_lastBlock bw) BlockMetadataIndex_LAST_CONFIG md;
  Ok (set_lastBlock bw block).

Definition addBlockSignature (nonce : outcome bytes) (bw : BlockWriter) (consenterMetadata : bytes) : outcome BlockWriter :=
  sh ← or_panic (NewSignatureHeader nonce signer);
  shdr ← or_panic (marshal_SignatureHeader sh);
  cm ← or_panic (marshal_Metadata (mkMetadata consenterMetadata []));
  blockSignatureValue ← or_panic (marshal_OrdererBlockMetadata (mkOrdererBlockMetadata (Some (bw_lastConfigBlockNum bw)) cm));
  header ← deref (fb_Header (bw_lastBlock bw));
  sig ← or_panic (Sign signer (blockSignatureValue +:+ shdr +:+ BlockHeaderBytes header));
  md ← or_panic (marshal_Metadata (mkMetadata blockSignatureValue [mkMetadataSignature shdr sig]));
  block ← set_slot (bw_lastBlock bw) BlockMetadataIndex_SIGNATURES md;
  Ok (set_lastBlock bw block).

Definition commitBlock (nonce : outcome bytes) (bw : BlockWriter) (encodedMetadataValue : bytes) : outcome BlockWriter :=
  bw ← addLastConfig bw;
  bw ← addBlockSignature nonce bw encodedMetadataValue;
  ledger ← or_panic (Append (bw_ledger bw) (bw_lastBlock bw));
  Ok (mkBlockWriter (bw_support bw) (bw_lastConfigBlockNum bw) (bw_lastConfigSeq bw) (bw_lastBlock bw) (bw_committing bw)
        ledger (bw_newChains bw)).

Definition set_committing (bw : BlockWriter) (c : option bytes) : BlockWriter :=
  mkBlockWriter (bw_support bw) (bw_lastConfigBlockNum bw) (bw_lastConfigSeq bw) (bw_lastBlock bw) c (bw_ledger bw)
    (bw_newChains bw).

(** The goroutine is started; it runs [commitBlock] later. *)
Definition WriteBlock (bw : BlockWriter) (block : FullBlock) (encodedMetadataValue : bytes) : BlockWriter :=
  set_committing (set_lastBlock bw block) (Some encodedMetadataValue).

Definition WriteBlockSync (nonce : outcome bytes) (bw : BlockWriter) (block : FullBlock) (encodedMetadataValue : bytes)
    : outcome BlockWriter :=
  commitBlock nonce (set_lastBlock bw block) encodedMetadataValue.

(** [configResources.Update]. *)
Definition update_bundle (bw : BlockWriter) (bundle : Bundle) : outcome BlockWriter :=
  _ ← or_panic (checkResources bundle);
  Ok (mkBlockWriter bundle (bw_lastConfigBlockNum bw) (bw_lastConfigSeq bw) (bw_lastBlock bw) (bw_committing bw) (bw_ledger bw)
        (bw_newChains bw)).

Definition WriteConfigBlock (nonce : outcome bytes) (bw : BlockWriter) (block : FullBlock) (encodedMetadataValue : bytes)
    : outcome BlockWriter :=
  ctx ← or_panic (ExtractEnvelope (plain block) 0);
  payload ← or_panic (Proposal.decoded "Payload" (unmarshal_Payload (env_Payload ctx)));
  header ← or_panic (from_option_err "configtx payload header is missing" (payload_Header payload));
  chdr ← or_panic (Proposal.decoded "ChannelHeader" (unmarshal_ChannelHeader (hdr_ChannelHeader header)));
  if bool_decide (chdr_Type chdr = HeaderType_ORDERER_TRANSACTION) then
    newChannelConfig ← or_panic (GetEnvelopeFromBlock (payload_Data payload));
    let bw := mkBlockWriter (bw_support bw) (bw_lastConfigBlockNum bw) (bw_lastConfigSeq bw) (bw_lastBlock bw)
                (bw_committing bw) (bw_ledger bw) (bw_newChains bw ++ [newChannelConfig]) in
    WriteBlockSync nonce bw block encodedMetadataValue
  else if bool_decide (chdr_Type chdr = HeaderType_CONFIG) then
    configEnvelope ← or_panic (from_option_err "did not have config envelope encoded" (unmarshal_ConfigEnvelope (payload_Data payload)));
    _ ← or_panic (configtx_Validate unmarshal_ConfigUpdate unmarshal_ConfigUpdateEnvelope
          (b_ConfigtxValidator (bw_support bw)) (Some configEnvelope));
    bundle ← or_panic (NewBundle (chdr_ChannelId chdr) (ce_Config configEnvelope));
    oc ← or_panic (from_option_err "OrdererConfig missing from bundle" (b_OrdererConfig bundle));
    current ← ordererConfig (bw_support bw);
    let encodedMetadataValue :=
      if negb (bool_decide (oc_ConsensusType current = oc_ConsensusType oc)) then "" else encodedMetadataValue in
    bw ← update_bundle bw bundle;
    WriteBlockSync nonce bw block encodedMetadataValue
  else Panic "Told to write a config block with unknown header type".

(** ** Steps

    A caller that wants the lock waits until the goroutine has let it go. Normal
    blocks go to [WriteBlock], configuration blocks to [WriteConfigBlock]. *)
Inductive bw_step : BlockWriter → BlockWriter → Prop :=
| step_write bw block md :
    bw_committing bw = None → IsConfigBlock (plain block) = false → bw_step bw (WriteBlock bw block md)
| step_commit bw md nonce bw' :
    bw_committing bw = Some md → commitBlock nonce (set_committing bw None) md = Ok bw' → bw_step bw bw'
| step_config bw block md nonce bw' :
    bw_committing bw = None → IsConfigBlock (plain block) = true → (0 ≤ Sequence (bw_support bw) + 1 < 2 ^ 64)%Z →
    WriteConfigBlock nonce bw block md = Ok bw' → bw_step bw bw'.

(** ** The last configuration block *)

(** What the encoding guarantees, and what [NewBundle] does with the sequence. *)
Record metadata_laws : Prop := {
  law_Metadata m b : marshal_Metadata m = Ok b → unmarshal_Metadata b = Some m;
  law_OrdererBlockMetadata m b : marshal_OrdererBlockMetadata m = Ok b → unmarshal_OrdererBlockMetadata b = Some m;
  law_last_config_not_empty m b : marshal_OrdererBlockMetadata m = Ok b → is_Some (obm_LastConfig m) → b ≠ "";
  law_NewBundle id c b : NewBundle id (Some c) = Ok b → Sequence b = cfg_Sequence c
}.

(** The block holds a new configuration of the channel. *)
Definition is_update_block (b : FullBlock) : bool :=
  match fb_Data b with
  | Some [raw] =>
      match (envelope ← unmarshal_Envelope raw; payload ← unmarshal_Payload (env_Payload envelope);
             header ← payload_Header payload; unmarshal_ChannelHeader (hdr_ChannelHeader header)) with
      | Some chdr => bool_decide (chdr_Type chdr = HeaderType_CONFIG)
      | None => false
      end
  | _ => false
  end.

(** The position of the last such block; the genesis block counts as one. *)
Fixpoint last_update_from (i : nat) (acc : Z) (blocks : list FullBlock) : Z :=
  match blocks with
  | [] => acc
  | b :: rest => last_update_from (S i) (if is_update_block b then Z.of_nat i else acc) rest
  end.
Definition last_update (blocks : list FullBlock) : Z := last_update_from 0 0 blocks.

Lemma last_update_snoc blocks b :
  last_update (blocks ++ [b]) = if is_update_block b then Z.of_nat (length blocks) else last_update blocks.
Proof.
  unfold last_update. rewrite <- (Nat.add_0_l (length blocks)). generalize 0%Z as acc. generalize 0 as i.
  induction blocks as [|a blocks IH]; intros i acc; cbn [app last_update_from length]; [by rewrite Nat.add_0_r|].
  rewrite IH. by replace (S i + length blocks) with (i + S (length blocks)) by lia.
Qed.

(** The headers follow each other. *)
Definition chain_ok (blocks : list FullBlock) : Prop :=
  ∀ i b b', blocks !! i = Some b → blocks !! S i = Some b' →
    ∃ h h', fb_Header b = Some h ∧ fb_Header b' = Some h' ∧ bh_Number h' = Z.of_nat (S i) ∧ bh_PreviousHash h' = BlockHeaderHash h.

Lemma set_slot_Ok block idx value block' :
  set_slot block idx value = Ok block' →
  fb_Header block' = fb_Header block ∧ fb_Data block' = fb_Data block ∧
  ∃ md, fb_Metadata block = Some md ∧ idx < length md ∧ fb_Metadata block' = Some (<[idx := value]> md).
Proof.
  unfold set_slot. intros E. apply bind_Ok in E as (md & Hmd%deref_Ok & E). destruct (Nat.ltb_spec idx (length md)); [|done].
  injection E as <-. cbn. eauto 10.
Qed.

(** What [commitBlock] does to the writer. *)
Lemma commitBlock_Ok nonce bw md bw' :
  metadata_laws → commitBlock nonce bw md = Ok bw' →
  ∃ h block', fb_Header (bw_lastBlock bw) = Some h ∧ fb_Header block' = Some h ∧ fb_Data block' = fb_Data (bw_lastBlock bw) ∧
    bh_Number h = Z.of_nat (length (bw_ledger bw)) ∧ bh_PreviousHash h = current_hash (bw_ledger bw) ∧
    GetConsenterMetadataFromBlock block' = Ok (mkMetadata md []) ∧
    let up := (bw_lastConfigSeq bw <? Sequence (bw_support bw))%Z in
    let n := if up then bh_Number h else bw_lastConfigBlockNum bw in
    GetLastConfigIndexFromBlock block' = Ok n ∧
    bw' = mkBlockWriter (bw_support bw) n (if up then Sequence (bw_support bw) else bw_lastConfigSeq bw) block'
            (bw_committing bw) (bw_ledger bw ++ [block']) (bw_newChains bw).
Proof.
  intros L E. unfold commitBlock in E. apply bind_Ok in E as (bw1 & E1 & E). apply bind_Ok in E as (bw2 & E2 & E).
  apply bind_Ok in E as (ledger & Ea%or_panic_Ok & [= <-]).
  unfold addLastConfig in E1. apply bind_Ok in E1 as (h & Hh%deref_Ok & E1). set (up := (_ <? _)%Z) in E1.
  apply bind_Ok in E1 as (lcv & _ & E1). apply bind_Ok in E1 as (md1 & _ & E1). apply bind_Ok in E1 as (blk1 & Hs1%set_slot_Ok & [= <-]).
  unfold addBlockSignature in E2. apply bind_Ok in E2 as (sh & _ & E2). apply bind_Ok in E2 as (shdr & _ & E2).
  apply bind_Ok in E2 as (cm & Hcm%or_panic_Ok & E2). apply bind_Ok in E2 as (val & Hval%or_panic_Ok & E2). apply bind_Ok in E2 as (h2 & _ & E2).
  apply bind_Ok in E2 as (sig & _ & E2). apply bind_Ok in E2 as (md2 & Hmd2%or_panic_Ok & E2).
  apply bind_Ok in E2 as (blk2 & Hs2%set_slot_Ok & [= <-]).
  cbn [bw_lastBlock set_lastBlock bw_ledger bw_support bw_lastConfigBlockNum bw_lastConfigSeq bw_committing bw_newChains] in *.
  destruct Hs1 as (Hh1 & Hd1 & m1 & Hm1 & Hl1 & Hm1'), Hs2 as (Hh2 & Hd2 & m2 & Hm2 & Hl2 & Hm2').
  assert (∀ A (f : BlockWriter → A), f (if up then mkBlockWriter (bw_support bw) (bh_Number h) (Sequence (bw_support bw))
    (bw_lastBlock bw) (bw_committing bw) (bw_ledger bw) (bw_newChains bw) else bw) =
    if up then f (mkBlockWriter (bw_support bw) (bh_Number h) (Sequence (bw_support bw))
    (bw_lastBlock bw) (bw_committing bw) (bw_ledger bw) (bw_newChains bw)) else f bw) as Hif by (by intros; destruct up).
  rewrite !Hif in *. cbn [bw_lastBlock bw_ledger bw_support bw_lastConfigBlockNum bw_lastConfigSeq bw_committing bw_newChains] in *.
  assert (∀ A (x : A), (if up then x else x) = x) as Hsame by (by intros; destruct up). rewrite !Hsame in *.
  unfold Append in Ea. apply bind_Ok in Ea as (h3 & Hh3%deref_Ok & Ea).
  assert (h3 = h) as -> by congruence. destruct (Z.eqb_spec (bh_Number h) (Z.of_nat (length (bw_ledger bw)))); [|done].
  case_bool_decide; [|done]. injection Ea as <-. exists h, blk2. split_and!; try done; try congruence.
  all: unfold GetConsenterMetadataFromBlock, GetLastConfigIndexFromBlock, GetMetadataFromBlock; rewrite Hm2';
    cbn [from_option_err mbind outcome_bind]; unfold BlockMetadataIndex_SIGNATURES in *; rewrite length_insert;
    (destruct (Nat.leb_spec (length m2) 0); [lia|]); unfold index; rewrite list_lookup_insert_eq by lia;
    cbn [mbind outcome_bind]; rewrite (law_Metadata L _ _ Hmd2); cbn [from_option_err with_message mbind outcome_bind md_Value];
    rewrite bool_decide_eq_false_2 by (eapply (law_last_config_not_empty L); [exact Hval|by eexists]);
    rewrite (law_OrdererBlockMetadata L _ _ Hval); cbn [from_option_err mbind outcome_bind obm_ConsenterMetadata].
  - by rewrite (law_Metadata L _ _ Hcm).
  - done.
Qed.

(** *** The invariant *)
Record good_writer (bw : BlockWriter) : Prop := {
  gw_indexed (i : nat) (b : FullBlock) : bw_ledger bw !! i = Some b → i ≠ 0 →
    GetLastConfigIndexFromBlock b = Ok (last_update (take (S i) (bw_ledger bw)));
  gw_num : bw_lastConfigBlockNum bw = last_update (bw_ledger bw);
  gw_seq : bw_lastConfigSeq bw = Sequence (bw_support bw);
  gw_last : bw_committing bw = None → last (bw_ledger bw) = Some (bw_lastBlock bw);
  gw_normal : bw_committing bw ≠ None → is_update_block (bw_lastBlock bw) = false;
  gw_numbered (i : nat) (b : FullBlock) : bw_ledger bw !! i = Some b → ∃ h, fb_Header b = Some h ∧ bh_Number h = Z.of_nat i;
  gw_chain : chain_ok (bw_ledger bw)
}.

Lemma is_update_config b : is_update_block b = true → IsConfigBlock (plain b) = true.
Proof.
  unfold is_update_block, IsConfigBlock, plain. cbn [blk_Data]. destruct (fb_Data b) as [[|raw [|]]|]; try done.
  destruct (unmarshal_Envelope raw) as [e|]; [|done]. cbn. destruct (unmarshal_Payload (env_Payload e)) as [p|]; [|done]. cbn.
  destruct (payload_Header p) as [hd|]; [|done]. cbn. destruct (unmarshal_ChannelHeader _) as [c|]; [|done].
  by intros ->.
Qed.

Lemma chain_ok_snoc blocks b h :
  chain_ok blocks → (∀ (i : nat) b, blocks !! i = Some b → ∃ h, fb_Header b = Some h ∧ bh_Number h = Z.of_nat i) →
  fb_Header b = Some h → bh_Number h = Z.of_nat (length blocks) → bh_PreviousHash h = current_hash blocks →
  chain_ok (blocks ++ [b]).
Proof.
  intros Hc Hn Hh Hnum Hprev i a a' Ha Ha'. apply lookup_app_Some in Ha' as [Ha'|[Hge Ha']].
  - apply (Hc i); [|done]. apply lookup_app_Some in Ha as [?|[? _]]; [done|]. apply lookup_lt_Some in Ha'. lia.
  - apply list_lookup_singleton_Some in Ha' as [Hi <-]. rewrite lookup_app_l in Ha by lia.
    destruct (Hn _ _ Ha) as (ha & Hha & _). exists ha, h. split_and!; [done..|rewrite Hnum; lia|]. rewrite Hprev.
    unfold current_hash. rewrite last_lookup. replace (Nat.pred (length blocks)) with i by lia. by rewrite Ha, Hha.
Qed.

(** Committing a block keeps the invariant, if the number that is written is that
    of the last configuration. *)
Lemma commit_good nonce bw md bw' :
  metadata_laws → commitBlock nonce bw md = Ok bw' → bw_ledger bw ≠ [] → bw_committing bw = None →
  (∀ (i : nat) b, bw_ledger bw !! i = Some b → i ≠ 0 → GetLastConfigIndexFromBlock b = Ok (last_update (take (S i) (bw_ledger bw)))) →
  (∀ (i : nat) b, bw_ledger bw !! i = Some b → ∃ h, fb_Header b = Some h ∧ bh_Number h = Z.of_nat i) → chain_ok (bw_ledger bw) →
  bw_lastConfigBlockNum bw = last_update (bw_ledger bw) → (bw_lastConfigSeq bw ≤ Sequence (bw_support bw))%Z →
  (is_update_block (bw_lastBlock bw) = true ↔ (bw_lastConfigSeq bw < Sequence (bw_support bw))%Z) →
  good_writer bw' ∧ bw_ledger bw' ≠ [].
Proof.
  intros L E Hne Hcom Hidx Hnum Hch Hlast Hle Hup.
  apply (commitBlock_Ok _ _ _ _ L) in E as (h & b & Hh & Hb & Hd & Hn & Hp & _ & Hg & ->).
  assert (is_update_block b = is_update_block (bw_lastBlock bw)) as Eu by (unfold is_update_block; by rewrite Hd).
  set (n := if (bw_lastConfigSeq bw <? Sequence (bw_support bw))%Z then bh_Number h else bw_lastConfigBlockNum bw) in *.
  assert (n = last_update (bw_ledger bw ++ [b])) as En.
  { subst n. rewrite last_update_snoc, Eu. destruct (Z.ltb_spec (bw_lastConfigSeq bw) (Sequence (bw_support bw))) as [Hlt|Hge].
    - by rewrite (proj2 Hup Hlt).
    - destruct (is_update_block (bw_lastBlock bw)); [|done]. pose proof (proj1 Hup eq_refl). lia. }
  split; [|by destruct (bw_ledger bw)]. split; cbn.
  - intros i a Ha Hi. apply lookup_app_Some in Ha as [Ha|[Hge Ha]].
    + rewrite take_app_le by (apply lookup_lt_Some in Ha; lia). by apply Hidx.
    + apply list_lookup_singleton_Some in Ha as [Hi' <-]. rewrite Hg, En. do 2 f_equal. symmetry. apply take_ge.
      rewrite length_app. cbn. lia.
  - exact En.
  - destruct (Z.ltb_spec (bw_lastConfigSeq bw) (Sequence (bw_support bw))); [done|lia].
  - intros _. by rewrite last_snoc.
  - by rewrite Hcom.
  - intros i a Ha. apply lookup_app_Some in Ha as [Ha|[Hge Ha]]; [by apply Hnum|].
    apply list_lookup_singleton_Some in Ha as [Hi' <-]. exists h. split; [done|]. rewrite Hn. lia.
  - by apply (chain_ok_snoc _ _ h).
Qed.

Lemma config_block_type raw (ctx : Envelope) payload header chdr b :
  fb_Data b = Some [raw] → unmarshal_Envelope raw = Some ctx → unmarshal_Payload (env_Payload ctx) = Some payload →
  payload_Header payload = Some header → unmarshal_ChannelHeader (hdr_ChannelHeader header) = Some chdr →
  is_update_block b = bool_decide (chdr_Type chdr = HeaderType_CONFIG).
Proof.
  intros Hd He Hp Hh Hc. unfold is_update_block. rewrite Hd, He. cbn. rewrite Hp. cbn. rewrite Hh. cbn. by rewrite Hc.
Qed.

Lemma configtx_Validate_sequence vi env :
  configtx_Validate unmarshal_ConfigUpdate unmarshal_ConfigUpdateEnvelope vi (Some env) = Ok () →
  ∃ c, ce_Config env = Some c ∧ cfg_Sequence c = u64 (vi_sequence vi + 1).
Proof.
  unfold configtx_Validate. cbn [from_option_err mbind outcome_bind]. intros E.
  apply bind_Ok in E as (c & Hc%from_option_err_Ok & E). exists c. split; [done|].
  destruct (Z.eqb_spec (cfg_Sequence c) (u64 (vi_sequence vi + 1))); done.
Qed.

Lemma decoded_Some {A} s (o : option A) a : Proposal.decoded s o = Ok a → o = Some a.
Proof. destruct o; [by intros [= ->]|done]. Qed.

Lemma config_good nonce bw block md bw' :
  metadata_laws → good_writer bw → bw_ledger bw ≠ [] → bw_committing bw = None → IsConfigBlock (plain block) = true →
  (0 ≤ Sequence (bw_support bw) + 1 < 2 ^ 64)%Z →
  WriteConfigBlock nonce bw block md = Ok bw' →
  good_writer bw' ∧ bw_ledger bw' ≠ [].
Proof.
  intros L G Hne Hcom Hcfg Hseq E. unfold WriteConfigBlock in E.
  apply bind_Ok in E as (ctx & He%or_panic_Ok & E). apply bind_Ok in E as (payload & Hp%or_panic_Ok%decoded_Some & E).
  apply bind_Ok in E as (header & Hh%or_panic_Ok%from_option_err_Ok & E).
  apply bind_Ok in E as (chdr & Hc%or_panic_Ok%decoded_Some & E).
  assert (is_update_block block = bool_decide (chdr_Type chdr = HeaderType_CONFIG)) as Hupd.
  { unfold IsConfigBlock, plain in Hcfg. cbn [blk_Data] in Hcfg. unfold ExtractEnvelope, plain in He. cbn [blk_Data] in He.
    destruct (fb_Data block) as [[|raw [|]]|] eqn:Ed; try done. cbn in He. unfold GetEnvelopeFromBlock in He.
    apply with_message_Ok, decoded_Some in He. by apply (config_block_type raw ctx payload header). }
  destruct (bool_decide_reflect (chdr_Type chdr = HeaderType_ORDERER_TRANSACTION)) as [Ho|Ho].
  - apply bind_Ok in E as (nc & _ & E). unfold WriteBlockSync in E. eapply commit_good in E; try apply G; try done.
    + cbn. by rewrite (gw_seq _ G).
    + cbn. rewrite Hupd, bool_decide_eq_false_2 by (rewrite Ho; done). rewrite (gw_seq _ G). split; [done|lia].
  - destruct (bool_decide_reflect (chdr_Type chdr = HeaderType_CONFIG)) as [Hconf|]; [|done]. apply bind_Ok in E as (ce & _ & E).
    apply bind_Ok in E as ([] & (c & Hce & Hcs)%or_panic_Ok%configtx_Validate_sequence & E).
    apply bind_Ok in E as (bundle & Hb%or_panic_Ok & E). apply bind_Ok in E as (oc & _ & E). apply bind_Ok in E as (cur & _ & E).
    apply bind_Ok in E as (bw1 & Hu & E). unfold update_bundle in Hu. apply bind_Ok in Hu as ([] & _ & [= <-]).
    rewrite Hce in Hb. apply (law_NewBundle L) in Hb. rewrite Hcs in Hb. change (vi_sequence _) with (Sequence (bw_support bw)) in Hb.
    unfold u64, wrap in Hb. rewrite Z.mod_small in Hb by lia.
    unfold WriteBlockSync in E. eapply commit_good in E; try apply G; try done; cbn; rewrite (gw_seq _ G), Hb; [lia|].
    rewrite Hupd. split; [lia|done].
Qed.

Lemma step_good bw bw' :
  metadata_laws → bw_step bw bw' →
  good_writer bw → bw_ledger bw ≠ [] → good_writer bw' ∧ bw_ledger bw' ≠ [].
Proof.
  intros L Hs G Hne. destruct Hs as [bw block md Hc Hn|bw md nonce bw' Hc E|bw block md nonce bw' Hc Hcfg Hseq E].
  - split; [|done]. split; try apply G; cbn; [done|]. intros _. destruct (is_update_block block) eqn:Eu; [|done].
    apply is_update_config in Eu. congruence.
  - eapply commit_good in E; try apply G; try done; cbn.
    + by rewrite (gw_seq _ G).
    + rewrite (gw_normal _ G) by (by rewrite Hc). rewrite (gw_seq _ G). split; [done|lia].
  - by eapply config_good.
Qed.

Lemma next_block_appends bw messages b :
  good_writer bw → bw_committing bw = None → (Z.of_nat (length (bw_ledger bw)) < 2 ^ 64)%Z →
  CreateNextBlock bw messages = Ok b → Append (bw_ledger bw) b = Ok (bw_ledger bw ++ [b]).
Proof.
  intros G Hc Hlen E. pose proof (gw_last _ G Hc) as Hl. pose proof Hl as Hl'. rewrite last_lookup in Hl'.
  destruct (gw_numbered _ G _ _ Hl') as (h & Hh & Hn). unfold CreateNextBlock in E. rewrite Hh in E. cbn in E.
  apply bind_Ok in E as (data & _ & [= <-]). unfold Append. cbn.
  assert (Z.of_nat (length (bw_ledger bw)) = (bh_Number h + 1)%Z) as -> by (destruct (bw_ledger bw); cbn in *; [done|lia]).
  unfold u64, wrap. rewrite Z.mod_small by lia. rewrite Z.eqb_refl. cbn. unfold current_hash. rewrite Hl, Hh.
  by rewrite bool_decide_eq_true_2.
Qed.

(** C26: the blocks an orderer writes form a chain, each naming the position of the
    last block that changed the configuration up to it; the block it creates next
    is one the ledger accepts; after a restart the writer knows the same. *)
Theorem written_blocks_spec (genesis : FullBlock) (res : Bundle) (bw0 bw : BlockWriter) :
  metadata_laws → bh_Number <$> fb_Header genesis = Some 0%Z →
  newBlockWriter [genesis] genesis res = Ok bw0 →
  rtc bw_step bw0 bw →
  chain_ok (bw_ledger bw) ∧
  (∀ (i : nat) b, bw_ledger bw !! i = Some b → i ≠ 0 →
     GetLastConfigIndexFromBlock b = Ok (last_update (take (S i) (bw_ledger bw)))) ∧
  (bw_committing bw = None → (Z.of_nat (length (bw_ledger bw)) < 2 ^ 64)%Z →
     ∀ messages b, CreateNextBlock bw messages = Ok b → Append (bw_ledger bw) b = Ok (bw_ledger bw ++ [b])) ∧
  (bw_committing bw = None →
     newBlockWriter (bw_ledger bw) (bw_lastBlock bw) (bw_support bw) =
     Ok (mkBlockWriter (bw_support bw) (bw_lastConfigBlockNum bw) (bw_lastConfigSeq bw) (bw_lastBlock bw) None (bw_ledger bw) [])).
Proof.
  intros L Hg E0 Hs. apply fmap_Some in Hg as (h & Hh & Hn).
  assert (good_writer bw ∧ bw_ledger bw ≠ []) as [G Hne].
  { assert (good_writer bw0 ∧ bw_ledger bw0 ≠ []) as Hstart.
    { unfold newBlockWriter in E0. rewrite Hh in E0. cbn in E0. rewrite <- Hn in E0. cbn in E0. injection E0 as <-.
      split; [|done]. split; cbn; try done.
      - by intros i b [-> ?]%list_lookup_singleton_Some.
      - unfold last_update. cbn. by destruct (is_update_block genesis).
      - intros i b [-> <-]%list_lookup_singleton_Some. exists h. by rewrite <- Hn. }
    clear E0. induction Hs as [|bw1 bw2 bw3 Hst _ IH]; [done|]. apply IH. destruct Hstart. by eapply step_good. }
  split_and!; [apply G..| |]; intros Hc; [intros Hlen ms b; by apply next_block_appends|].
  pose proof (gw_last _ G Hc) as Hl. rewrite last_lookup in Hl. destruct (gw_numbered _ G _ _ Hl) as (h' & Hh' & Hn'). unfold newBlockWriter. rewrite Hh'. cbn.
  rewrite (gw_num _ G), (gw_seq _ G). destruct (Z.eqb_spec (bh_Number h') 0) as [E|E]; cbn.
  - destruct (bw_ledger bw) as [|b [|]] eqn:Eb; [done| |cbn in Hn'; lia].
    repeat f_equal. unfold last_update. cbn. by destruct (is_update_block b).
  - rewrite (gw_indexed _ G _ _ Hl) by lia. rewrite take_ge by lia. done.
Qed.
End blockwriter.

(** ** A configuration block and a normal block *)
Section sample.
#[local] Existing Instances sorted_map_order orderer_proposal_codec orderer_tx_codec.
#[local] Instance Metadata_eq_dec : EqDecision Metadata.
Proof. unfold EqDecision, Decision. repeat decide equality. Defined.
#[local] Instance OrdererBlockMetadata_eq_dec : EqDecision OrdererBlockMetadata.
Proof. solve_decision. Defined.

Definition writer_codec : Codec := {|
  unmarshal_Envelope s := if decide (s = "E1") then Some (mkEnvelope "CP" "sig:CP") else None;
  unmarshal_Payload := @unmarshal_Payload orderer_codec;
  unmarshal_ChannelHeader := @unmarshal_ChannelHeader orderer_codec;
  unmarshal_Transaction _ := None;
  unmarshal_ChaincodeAction _ := None;
  unmarshal_TxReadWriteSet _ := None;
  unmarshal_KVRWSet _ := None;
  unmarshal_HashedRWSet _ := None
|}.
#[local] Existing Instance writer_codec.

(** A table of messages and their encodings. *)
Definition enc_table {A} `{EqDecision A} (l : list (bytes * A)) (m : A) : outcome bytes :=
  match filter (λ p, p.2 = m) l with p :: _ => Ok p.1 | [] => Err "unknown message" end.
Definition dec_table {A} (l : list (bytes * A)) (b : bytes) : option A :=
  match filter (λ p, p.1 = b) l with p :: _ => Some p.2 | [] => None end.

Lemma dec_enc_table {A} `{EqDecision A} (l : list (bytes * A)) m b :
  NoDup (fst <$> l) → enc_table l m = Ok b → dec_table l b = Some m ∧ (b, m) ∈ l.
Proof.
  unfold enc_table, dec_table. intros Hnd E. destruct (filter (λ p, p.2 = m) l) as [|[b' m'] r] eqn:Ef; [done|].
  injection E as <-. assert ((b', m') ∈ l ∧ m' = m) as [Hin ->].
  { assert ((b', m') ∈ filter (λ p : bytes * A, p.2 = m) l) as [? ?]%list_elem_of_filter by (rewrite Ef; left). done. }
  cbn. split; [|done]. destruct (filter (λ p, p.1 = b') l) as [|[b2 m2] r2] eqn:E2.
  - assert ((b', m) ∈ filter (λ p : bytes * A, p.1 = b') l) as Hf by (by apply list_elem_of_filter). rewrite E2 in Hf.
    by apply elem_of_nil in Hf.
  - assert ((b2, m2) ∈ filter (λ p : bytes * A, p.1 = b') l) as [Hb Hin2]%list_elem_of_filter by (rewrite E2; left).
    cbn in *. subst. f_equal. apply list_elem_of_lookup in Hin as [i Hi], Hin2 as [j Hj].
    assert (i = j) as <-; [|congruence]. eapply (NoDup_lookup (fst <$> l)); [done|..]; rewrite list_lookup_fmap, ?Hi, ?Hj; done.
Qed.

Definition obm_table : list (bytes * OrdererBlockMetadata) := [("O", mkOrdererBlockMetadata (Some 1%Z) "MC")].
Definition md_table : list (bytes * Metadata) :=
  [("ML", mkMetadata "L1" []); ("MC", mkMetadata "raft" []); ("MO", mkMetadata "O" [mkMetadataSignature "CS" "sig"])].
Definition writer_metadata_codec : MetadataCodec := {|
  unmarshal_Metadata := dec_table md_table;
  marshal_Metadata := enc_table md_table;
  unmarshal_LastConfig := dec_table [("L1", 1%Z)];
  marshal_LastConfig := enc_table [("L1", 1%Z)];
  unmarshal_OrdererBlockMetadata := dec_table obm_table;
  marshal_OrdererBlockMetadata := enc_table obm_table
|}.
#[local] Existing Instance writer_metadata_codec.

Definition bundle_of (c : Config) : Bundle :=
  mkBundle (Some sample_conf) sample_managers (mkValidatorImpl "ch" (cfg_Sequence c) sample_map c "Channel" sample_managers) None.
Definition writer_channelconfig : ChannelConfig := {|
  NewBundle _ c := match c with Some c => Ok (bundle_of c) | None => Err "no config" end;
  ValidateNew _ _ := Ok ();
  ValidateConsensusMetadata _ _ _ := Ok ()
|}.
#[local] Existing Instance writer_channelconfig.

Lemma writer_laws : metadata_laws.
Proof.
  split.
  - intros m b E. apply dec_enc_table in E as [? _]; [done|]. cbn; repeat constructor; set_solver.
  - intros m b E. apply dec_enc_table in E as [? _]; [done|]. cbn; repeat constructor; set_solver.
  - intros m b E _. apply dec_enc_table in E as [_ Hin]; [|cbn; repeat constructor; set_solver].
    apply list_elem_of_singleton in Hin. by injection Hin as ->.
  - by intros id c b [= <-].
Qed.

Definition empty_slots : option (list bytes) := Some (replicate 5 "").
Definition genesis_block : FullBlock := mkFullBlock (Some (mkBlockHeader 0 "" "d0")) (Some ["G"]) empty_slots.
Definition config_block : FullBlock :=
  mkFullBlock (Some (mkBlockHeader 1 (current_hash [genesis_block]) "d1")) (Some ["E1"]) empty_slots.
Definition signed_slots (b : FullBlock) : FullBlock :=
  mkFullBlock (fb_Header b) (fb_Data b) (Some ["MO"; "ML"; ""; ""; ""]).
Definition normal_block : FullBlock :=
  mkFullBlock (Some (mkBlockHeader 2 (current_hash [config_block]) "d2")) (Some ["T"]) empty_slots.

Definition writer_signer : Signer := mkSigner (λ _, Ok "sig") (Ok "orderer").
Notation step := (bw_step decode_update decode_update_env decode_config writer_signer).
Definition writer0 : BlockWriter := mkBlockWriter sample_bundle 0 4 genesis_block None [genesis_block] [].
Definition writer1 : BlockWriter :=
  mkBlockWriter (bundle_of (mkConfig 5 (Some larger_batches))) 1 5 (signed_slots config_block) None
    [genesis_block; signed_slots config_block] [].
Definition writer2 : BlockWriter :=
  mkBlockWriter (bundle_of (mkConfig 5 (Some larger_batches))) 1 5 (signed_slots normal_block) None
    [genesis_block; signed_slots config_block; signed_slots normal_block] [].

Lemma config_block_written :
  WriteConfigBlock decode_update decode_update_env decode_config writer_signer (Ok "nonce") writer0 config_block "raft" = Ok writer1.
Proof. vm_compute. reflexivity. Qed.

Lemma normal_block_committed : commitBlock writer_signer (Ok "nonce") (set_lastBlock writer1 normal_block) "raft" = Ok writer2.
Proof. vm_compute. reflexivity. Qed.

Lemma sample_run : rtc step writer0 writer2.
Proof.
  eapply rtc_l; [eapply (step_config _ _ _ _ writer0 config_block "raft" (Ok "nonce")); [done|done|done|exact config_block_written]|].
  eapply rtc_l; [eapply (step_write _ _ _ _ writer1 normal_block "raft"); done|].
  apply rtc_once. eapply (step_commit _ _ _ _ _ "raft" (Ok "nonce")); [done|exact normal_block_committed].
Qed.

Lemma written_blocks_spec_witness :
  chain_ok (bw_ledger writer2) ∧ GetLastConfigIndexFromBlock (signed_slots normal_block) = Ok 1%Z ∧
  newBlockWriter (bw_ledger writer2) (signed_slots normal_block) (bw_support writer2) = Ok writer2.
Proof.
  destruct (written_blocks_spec decode_update decode_update_env decode_config wire_Envelope writer_signer
    genesis_block sample_bundle writer0 writer2 writer_laws eq_refl eq_refl sample_run) as (Hc & Hl & _ & Hr).
  split_and!; [done| |exact (Hr eq_refl)]. exact (Hl 2 _ eq_refl ltac:(done)).
Defined.
End sample.
