(* ===== verification/RaftMembership.v ===== *)
(** * RaftMembership: changes of the set of consenters
      (orderer/consensus/etcdraft/membership.go, util.go)

    A consenter is known by its client TLS certificate and has a Raft node
    number. A new list of consenters is compared with the map of the old ones; at
    most one consenter is added, removed or replaced at a time. The loops over
    the map of consenters visit it in the order [consenter_range] gives. *)

From S2P Require Import Prelude GoText Protos.

Record Consenter := mkConsenter { con_Host : string; con_Port : Z; ClientTlsCert : bytes; ServerTlsCert : bytes }.
Record RaftMetadata := mkRaftMetadata { ConsenterIds : list Z; NextConsenterId : Z; RaftIndex : Z }.

Inductive ConfChangeType := ConfChangeAddNode | ConfChangeRemoveNode.
#[export] Instance ConfChangeType_eq_dec : EqDecision ConfChangeType.
Proof. solve_decision. Defined.
Record RaftConfChange := mkConfChange { cc_NodeID : Z; cc_Type : ConfChangeType }.
Definition raft_None : Z := 0.

Record MembershipChanges := mkMembershipChanges {
  NewBlockMetadata : RaftMetadata;
  NewConsenters : gmap Z Consenter;
  AddedNodes : list Consenter;
  RemovedNodes : list Consenter;
  mc_ConfChange : option RaftConfChange;
  RotatedNode : Z
}.

(** The order of a loop over the consenters. *)
Class ConsenterOrder := {
  consenter_range : string → gmap Z Consenter → list Z;
  consenter_range_ok site m : consenter_range site m ≡ₚ (map_to_list m).*1
}.

Section membership.
Context `{ConsenterOrder}.

Definition MembershipByCert (consenters : gmap Z Consenter) : gmap string Z :=
  foldl (λ set nodeID,
    match consenters !! nodeID with Some c => <[ClientTlsCert c := nodeID]> set | None => set end)
    ∅ (consenter_range "MembershipByCert" consenters).

Definition ConsentersToMap (consenters : list Consenter) : gset string :=
  foldl (λ set c, {[ClientTlsCert c]} ∪ set) ∅ consenters.

(** The loop over the new consenters: those that are known keep their number. *)
Fixpoint match_consenters (currentConsentersSet : gmap string Z) (i : nat) (newConsenters : list Consenter)
    (result : MembershipChanges) (addedNodeIndex : nat) : MembershipChanges * nat :=
  match newConsenters with
  | [] => (result, addedNodeIndex)
  | c :: rest =>
      let '(mkMembershipChanges (mkRaftMetadata ids next idx) consenters added removed cc rotated) := result in
      match currentConsentersSet !! ClientTlsCert c with
      | Some nodeID =>
          match_consenters currentConsentersSet (S i) rest
            (mkMembershipChanges (mkRaftMetadata (<[i := nodeID]> ids) next idx) (<[nodeID := c]> consenters) added removed cc rotated)
            addedNodeIndex
      | None =>
          match_consenters currentConsentersSet (S i) rest
            (mkMembershipChanges (mkRaftMetadata ids next idx) consenters (added ++ [c]) removed cc rotated) i
      end
  end.

(** The loop over the old consenters. *)
Definition removed_consenters (oldConsenters : gmap Z Consenter) (newConsentersSet : gset string) : list Consenter * Z :=
  foldl (λ '(removed, deletedNodeID) nodeID,
    match oldConsenters !! nodeID with
    | Some c => if bool_decide (ClientTlsCert c ∈ newConsentersSet) then (removed, deletedNodeID) else (removed ++ [c], nodeID)
    | None => (removed, deletedNodeID)
    end) ([], 0%Z) (consenter_range "ComputeMembershipChanges" oldConsenters).

Definition ComputeMembershipChanges (oldMetadata : RaftMetadata) (oldConsenters : gmap Z Consenter)
    (newConsenters : list Consenter) : outcome MembershipChanges :=
  let result := mkMembershipChanges
    (mkRaftMetadata (replicate (length newConsenters) 0%Z) (NextConsenterId oldMetadata) (RaftIndex oldMetadata)) ∅ [] [] None 0 in
  let '(result, addedNodeIndex) := match_consenters (MembershipByCert oldConsenters) 0 newConsenters result 0 in
  let '(removed, deletedNodeID) := removed_consenters oldConsenters (ConsentersToMap newConsenters) in
  let '(mkMembershipChanges (mkRaftMetadata ids next idx) consenters added _ cc rotated) := result in
  match added, removed with
  | [a], [_] =>
      Ok (mkMembershipChanges (mkRaftMetadata (<[addedNodeIndex := deletedNodeID]> ids) next idx)
            (<[deletedNodeID := a]> consenters) added removed cc deletedNodeID)
  | [a], [] =>
      Ok (mkMembershipChanges (mkRaftMetadata (<[addedNodeIndex := next]> ids) (u64 (next + 1)) idx)
            (<[next := a]> consenters) added removed (Some (mkConfChange next ConfChangeAddNode)) rotated)
  | [], [_] =>
      Ok (mkMembershipChanges (mkRaftMetadata ids next idx) (delete deletedNodeID consenters) added removed
            (Some (mkConfChange deletedNodeID ConfChangeRemoveNode)) rotated)
  | [], [] => Ok (mkMembershipChanges (mkRaftMetadata ids next idx) consenters added removed cc rotated)
  | _, _ => Err "update of more than one consenter at a time is not supported"
  end.

Definition Changed (mc : MembershipChanges) : bool :=
  (0 <? length (AddedNodes mc))%nat || (0 <? length (RemovedNodes mc))%nat.
Definition Rotated (mc : MembershipChanges) : bool :=
  (length (AddedNodes mc) =? 1)%nat && (length (RemovedNodes mc) =? 1)%nat.

Definition UnacceptableQuorumLoss (mc : MembershipChanges) (active : list Z) : bool :=
  let activeMap : gset Z := list_to_set active in
  let isCFT := (2 <? size (NewConsenters mc))%nat in
  let quorum := size (NewConsenters mc) / 2 + 1 in
  match mc_ConfChange mc with
  | Some (mkConfChange _ ConfChangeAddNode) => isCFT && (length active <? quorum)%nat
  | _ =>
      if negb (bool_decide (RotatedNode mc = raft_None)) then isCFT && (size (activeMap ∖ {[RotatedNode mc]}) <? quorum)%nat
      else
        match mc_ConfChange mc with
        | Some (mkConfChange nodeID ConfChangeRemoveNode) => (size (activeMap ∖ {[nodeID]}) <? quorum)%nat
        | _ => false
        end
  end.

(** ** Helpers (util.go) *)
Fixpoint has_duplication (consenters : list Consenter) (seen : gset string) : outcome unit :=
  match consenters with
  | [] => Ok ()
  | c :: rest =>
      if bool_decide (ServerTlsCert c ∈ seen) || bool_decide (ClientTlsCert c ∈ seen)
      then Err ("duplicate consenter: server cert: " +:+ ServerTlsCert c +:+ ", client cert: " +:+ ClientTlsCert c)
      else has_duplication rest ({[ClientTlsCert c]} ∪ ({[ServerTlsCert c]} ∪ seen))
  end.
Definition MetadataHasDuplication (md : option (list (option Consenter))) : outcome unit :=
  consenters ← from_option_err "nil metadata" md;
  consenters ← foldM (λ cs c, c ← from_option_err "nil consenter in metadata" c; Ok (cs ++ [c])) [] consenters;
  has_duplication consenters ∅.

Definition NodeExists (id : Z) (nodes : list Z) : bool := existsb (λ nodeID, (nodeID =? id)%Z) nodes.

Definition ConfChange (blockMetadata : RaftMetadata) (voters : list Z) : RaftConfChange :=
  if (length voters <? length (ConsenterIds blockMetadata))%nat
  then mkConfChange (foldl (λ n consenterID, if NodeExists consenterID voters then n else consenterID) 0%Z
         (ConsenterIds blockMetadata)) ConfChangeAddNode
  else mkConfChange (foldl (λ n nodeID, if NodeExists nodeID (ConsenterIds blockMetadata) then n else nodeID) 0%Z voters)
         ConfChangeRemoveNode.

Definition CreateConsentersMap (blockMetadata : RaftMetadata) (consenters : list Consenter) : outcome (gmap Z Consenter) :=
  foldM (λ m '(i, c), id ← index (ConsenterIds blockMetadata) i; Ok (<[id := c]> m)) ∅ (imap pair consenters).

(** ** Well-formed memberships *)
Record wf_members (md : RaftMetadata) (consenters : gmap Z Consenter) : Prop := {
  wm_NoDup : NoDup (ConsenterIds md);
  wm_ids id : id ∈ ConsenterIds md ↔ is_Some (consenters !! id);
  wm_certs i j c d : consenters !! i = Some c → consenters !! j = Some d → ClientTlsCert c = ClientTlsCert d → i = j;
  wm_range id : is_Some (consenters !! id) → (0 < id < NextConsenterId md)%Z
}.

Lemma MembershipByCert_spec consenters s id :
  (∀ i j c d, consenters !! i = Some c → consenters !! j = Some d → ClientTlsCert c = ClientTlsCert d → i = j) →
  MembershipByCert consenters !! s = Some id ↔ ∃ c, consenters !! id = Some c ∧ ClientTlsCert c = s.
Proof.
  intros Hc. unfold MembershipByCert.
  assert (∀ l (acc : gmap string Z),
    (∀ s id, acc !! s = Some id → ∃ c, consenters !! id = Some c ∧ ClientTlsCert c = s) →
    let r := foldl (λ set nodeID, match consenters !! nodeID with Some c => <[ClientTlsCert c := nodeID]> set | None => set end) acc l in
    (∀ s id, r !! s = Some id → ∃ c, consenters !! id = Some c ∧ ClientTlsCert c = s) ∧
    (∀ id c, (id ∈ l ∨ acc !! ClientTlsCert c = Some id) → consenters !! id = Some c → r !! ClientTlsCert c = Some id)) as Hl.
  { induction l as [|x l IH]; intros acc Hacc; cbn [foldl].
    - split; [done|]. intros i c [Hi|Hi] _; [by apply elem_of_nil in Hi|done].
    - destruct (consenters !! x) as [cx|] eqn:Ex.
      + destruct (IH (<[ClientTlsCert cx := x]> acc)) as [H1 H2].
        { intros s' i [[<- <-]|[_ ?]]%lookup_insert_Some; [by exists cx|by apply Hacc]. }
        split; [done|]. intros i c Hi Ei. apply H2; [|done]. destruct (decide (ClientTlsCert cx = ClientTlsCert c)) as [Eq|Hne].
        * right. rewrite Eq, lookup_insert_eq. f_equal. by apply (Hc _ _ _ _ Ex Ei).
        * rewrite lookup_insert_ne by done. destruct Hi as [[->|?]%elem_of_cons|?]; [congruence|by left|by right].
      + destruct (IH acc Hacc) as [H1 H2]. split; [done|]. intros i c Hi Ei. apply H2; [|done].
        destruct Hi as [[->|?]%elem_of_cons|?]; [congruence|by left|by right]. }
  destruct (Hl (consenter_range "MembershipByCert" consenters) ∅) as [H1 H2]; [by intros ? ? ?|].
  split; [apply H1|]. intros (c & Hi & <-). apply H2; [|done]. left. rewrite consenter_range_ok.
  apply list_elem_of_fmap. exists (id, c). split; [done|]. by apply elem_of_map_to_list.
Qed.

Lemma ConsentersToMap_spec consenters s : s ∈ ConsentersToMap consenters ↔ ∃ c, c ∈ consenters ∧ ClientTlsCert c = s.
Proof.
  unfold ConsentersToMap. assert (∀ acc : gset string, s ∈ foldl (λ set c, {[ClientTlsCert c]} ∪ set) acc consenters ↔
    s ∈ acc ∨ ∃ c, c ∈ consenters ∧ ClientTlsCert c = s) as ->; [|set_solver].
  induction consenters as [|x l IH]; intros acc; cbn [foldl]; [set_solver|]. rewrite IH. set_solver.
Qed.

(** *** The loop over the new consenters *)
Definition kept (cur : gmap string Z) (m : gmap Z Consenter) (new : list Consenter) : gmap Z Consenter :=
  foldl (λ m c, match cur !! ClientTlsCert c with Some id => <[id := c]> m | None => m end) m new.

Lemma match_consenters_spec cur new i r k r' k' :
  match_consenters cur i new r k = (r', k') →
  NewConsenters r' = kept cur (NewConsenters r) new ∧
  AddedNodes r' = AddedNodes r ++ filter (λ c, cur !! ClientTlsCert c = None) new ∧
  NextConsenterId (NewBlockMetadata r') = NextConsenterId (NewBlockMetadata r) ∧
  RaftIndex (NewBlockMetadata r') = RaftIndex (NewBlockMetadata r) ∧
  mc_ConfChange r' = mc_ConfChange r ∧ RotatedNode r' = RotatedNode r ∧
  length (ConsenterIds (NewBlockMetadata r')) = length (ConsenterIds (NewBlockMetadata r)) ∧
  (∀ j, j < i → ConsenterIds (NewBlockMetadata r') !! j = ConsenterIds (NewBlockMetadata r) !! j) ∧
  (∀ j c, new !! j = Some c → i + j < length (ConsenterIds (NewBlockMetadata r)) → ∀ id, cur !! ClientTlsCert c = Some id →
     ConsenterIds (NewBlockMetadata r') !! (i + j) = Some id) ∧
  ((∀ c, c ∈ new → cur !! ClientTlsCert c ≠ None) → k' = k) ∧
  (∀ j c, new !! j = Some c → cur !! ClientTlsCert c = None →
     (∀ j' c', new !! j' = Some c' → cur !! ClientTlsCert c' = None → j' = j) → k' = i + j).
Proof.
  revert i r k. induction new as [|c new IH]; intros i [[ids next ri] cs added removed cc rot] k E.
  - injection E as <- <-. cbn. rewrite app_nil_r. split_and!; try done.
  - cbn [match_consenters] in E. destruct (cur !! ClientTlsCert c) as [id|] eqn:Ec;
      apply IH in E as (E1 & E2 & E3 & E4 & E5 & E6 & E7 & E8 & E9 & E10 & E11);
      cbn [NewConsenters AddedNodes NewBlockMetadata NextConsenterId RaftIndex mc_ConfChange RotatedNode ConsenterIds] in *;
      rewrite ?length_insert in E7, E9; split_and!; try done.
    + unfold kept. cbn [foldl]. by rewrite Ec.
    + rewrite E2. f_equal. rewrite filter_cons_False; [done|congruence].
    + intros j Hj. rewrite E8 by lia. apply list_lookup_insert_ne. lia.
    + intros [|j] c' Hj Hlt id' Hid'; cbn in Hj.
      * injection Hj as <-. rewrite Nat.add_0_r in *. rewrite E8 by lia. rewrite list_lookup_insert_eq by lia. congruence.
      * replace (i + S j) with (S i + j) in * by lia. by eapply E9.
    + intros Hk. apply E10. intros; apply Hk. by right.
    + intros [|j] c' Hj Hn Hu; cbn in Hj; [congruence|]. replace (i + S j) with (S i + j) by lia. apply (E11 j c'); [done..|].
      intros j' c2 Hj' Hn'. assert (S j' = S j) as [= ?]; [|done]. by apply (Hu (S j') c2).
    + unfold kept. cbn [foldl]. by rewrite Ec.
    + rewrite E2, <- (assoc_L (++)). f_equal. by rewrite filter_cons_True.
    + intros j Hj. apply E8. lia.
    + intros [|j] c' Hj Hlt id' Hid'; cbn in Hj; [congruence|]. replace (i + S j) with (S i + j) in * by lia. by eapply E9.
    + intros Hk. exfalso. apply (Hk c); [by left|done].
    + intros [|j] c' Hj Hn Hu; cbn in Hj.
      * rewrite Nat.add_0_r. apply E10. intros c2 [j2 Hj2]%list_elem_of_lookup Hn2. by specialize (Hu (S j2) c2 Hj2 Hn2).
      * by specialize (Hu 0 c eq_refl Ec).
Qed.

Lemma kept_lookup cur new id c :
  NoDup (ClientTlsCert <$> new) → (∀ s s' i, cur !! s = Some i → cur !! s' = Some i → s = s') →
  kept cur ∅ new !! id = Some c ↔ c ∈ new ∧ cur !! ClientTlsCert c = Some id.
Proof.
  intros Hnd Hinj. assert (∀ m, kept cur m new !! id = Some c ↔ (c ∈ new ∧ cur !! ClientTlsCert c = Some id) ∨
    (m !! id = Some c ∧ ∀ c', c' ∈ new → cur !! ClientTlsCert c' ≠ Some id)) as ->.
  2: { rewrite lookup_empty. naive_solver. }
  unfold kept. induction new as [|x new IH]; intros m; cbn [foldl].
  - split; [intros ?; right; split; [done|]; intros ? Hn; by apply elem_of_nil in Hn|].
    intros [[Hn _]|[? _]]; [by apply elem_of_nil in Hn|done].
  - apply NoDup_cons in Hnd as [Hx Hnd]. rewrite IH by done. clear IH. rewrite elem_of_cons. setoid_rewrite elem_of_cons.
    destruct (cur !! ClientTlsCert x) as [ix|] eqn:Ex; [|naive_solver].
    destruct (decide (ix = id)) as [->|Hne].
    + rewrite lookup_insert_eq. split.
      * intros [[? ?]|[[= <-] _]]; [by left; split; [right|]|by left; split; [left|]].
      * intros [[[->|?] ?]|[_ Hf]]; [|by left|by destruct (Hf x (or_introl eq_refl))].
        right. split; [done|]. intros c' Hc' Ec'. destruct Hx. apply list_elem_of_fmap. exists c'. split; [|done].
        by apply (Hinj _ _ id).
    + rewrite lookup_insert_ne by done. naive_solver.
Qed.

(** *** The loop over the old consenters *)
Definition gone (old : gmap Z Consenter) (s : gset string) (id : Z) : bool :=
  match old !! id with Some c => negb (bool_decide (ClientTlsCert c ∈ s)) | None => false end.

Lemma removed_consenters_eq old s :
  let l := filter (λ id, gone old s id = true) (consenter_range "ComputeMembershipChanges" old) in
  removed_consenters old s = (omap (λ id, old !! id) l, default 0%Z (last l)).
Proof.
  unfold removed_consenters. generalize (consenter_range "ComputeMembershipChanges" old) as l. intros l.
  assert (∀ r d, foldl (λ '(removed, deletedNodeID) nodeID, match old !! nodeID with
    | Some c => if bool_decide (ClientTlsCert c ∈ s) then (removed, deletedNodeID) else (removed ++ [c], nodeID)
    | None => (removed, deletedNodeID) end) (r, d) l =
    (r ++ omap (λ id, old !! id) (filter (λ id, gone old s id = true) l), default d (last (filter (λ id, gone old s id = true) l)))) as Hf.
  { induction l as [|x l IH]; intros r d; cbn [foldl]; [by rewrite app_nil_r|].
    rewrite !filter_cons. assert (gone old s x = (match old !! x with Some c => negb (bool_decide (ClientTlsCert c ∈ s)) | None => false end))
      as -> by done. destruct (old !! x) as [c|] eqn:Ex; [|rewrite !decide_False by done; apply IH].
    case_bool_decide; cbn [negb]; [rewrite !decide_False by done; apply IH|]. rewrite !decide_True by done. rewrite IH.
    cbn [omap list_omap]. rewrite Ex, <- (assoc_L (++)). f_equal. rewrite last_cons. by destruct (last _). }
  apply Hf.
Qed.

Lemma removed_spec old s removed d :
  removed_consenters old s = (removed, d) →
  (removed = [] → ∀ id c, old !! id = Some c → ClientTlsCert c ∈ s) ∧
  (∀ c, removed = [c] → old !! d = Some c ∧ (ClientTlsCert c ∉ s) ∧
     ∀ id c', old !! id = Some c' → ClientTlsCert c' ∉ s → id = d).
Proof.
  rewrite removed_consenters_eq. set (l := filter _ _).
  assert (∀ id, id ∈ l ↔ ∃ c, old !! id = Some c ∧ ClientTlsCert c ∉ s) as Hl.
  { intros id. subst l. rewrite list_elem_of_filter, consenter_range_ok. unfold gone. split.
    - intros [Hg _]. destruct (old !! id) as [c|]; [|done]. case_bool_decide; [done|]. eauto.
    - intros (c & Hc & Hs). rewrite Hc, bool_decide_eq_false_2 by done. split; [done|].
      apply list_elem_of_fmap. exists (id, c). split; [done|]. by apply elem_of_map_to_list. }
  assert (∀ l', (∀ id, id ∈ l' → is_Some (old !! id)) → length (omap (λ id, old !! id) l') = length l') as Hlen.
  { induction l' as [|x l' IH]; intros Hs; cbn; [done|]. destruct (Hs x) as [c ->]; [by left|]. cbn. rewrite IH; [done|].
    intros; apply Hs. by right. }
  assert (length (omap (λ id, old !! id) l) = length l) as Hll.
  { apply Hlen. intros id (c & ? & _)%Hl. eauto. }
  intros [= <- <-]. split.
  - intros E id c Hc. rewrite E in Hll. destruct l; [|done]. destruct (decide (ClientTlsCert c ∈ s)); [done|].
    assert (id ∈ []) as Hn by (apply Hl; eauto). by apply elem_of_nil in Hn.
  - intros c E. rewrite E in Hll. destruct l as [|x [|]]; [done| |done]. cbn in E |- *.
    destruct (proj1 (Hl x)) as (cx & Hx & Hs); [by left|]. rewrite Hx in E. injection E as ->. split_and!; [done..|].
    intros id c' Hc' Hs'. assert (id ∈ [x]) as ?%list_elem_of_singleton by (apply Hl; eauto). done.
Qed.

(** *** The new membership *)

(** Every new consenter has a number, and every number a consenter. *)
Record placed (new : list Consenter) (ids : list Z) (cs : gmap Z Consenter) : Prop := {
  pl_length : length ids = length new;
  pl_at i c : new !! i = Some c → ∃ id, ids !! i = Some id ∧ cs !! id = Some c;
  pl_new id c : cs !! id = Some c → c ∈ new;
  pl_inj id id' c : cs !! id = Some c → cs !! id' = Some c → id = id'
}.

Lemma cert_determines new c c' : NoDup (ClientTlsCert <$> new) → c ∈ new → c' ∈ new → ClientTlsCert c = ClientTlsCert c' → c = c'.
Proof.
  intros Hnd [i Hi]%list_elem_of_lookup [j Hj]%list_elem_of_lookup E.
  assert (i = j) as <-; [|congruence]. eapply (NoDup_lookup (ClientTlsCert <$> new)); [done|..]; rewrite list_lookup_fmap.
  - by rewrite Hi.
  - by rewrite Hj, E.
Qed.

Lemma placed_wf new ids cs next idx :
  NoDup (ClientTlsCert <$> new) → placed new ids cs → (∀ id, is_Some (cs !! id) → (0 < id < next)%Z) →
  wf_members (mkRaftMetadata ids next idx) cs.
Proof.
  intros Hnd P Hr. split; cbn [ConsenterIds NextConsenterId]; [| | |done].
  - apply NoDup_alt. intros i j id Hi Hj. pose proof (lookup_lt_Some _ _ _ Hi) as Li. pose proof (lookup_lt_Some _ _ _ Hj) as Lj.
    rewrite (pl_length _ _ _ P) in Li, Lj. apply lookup_lt_is_Some_2 in Li as [c Hc], Lj as [d Hd].
    destruct (pl_at _ _ _ P _ _ Hc) as (i1 & Hi1 & Ec), (pl_at _ _ _ P _ _ Hd) as (j1 & Hj1 & Ed). simplify_eq.
    eapply (NoDup_lookup (ClientTlsCert <$> new)); [done|..]; rewrite list_lookup_fmap, ?Hc, ?Hd; done.
  - intros id. split.
    + intros [i Hi]%list_elem_of_lookup. pose proof (lookup_lt_Some _ _ _ Hi) as Li. rewrite (pl_length _ _ _ P) in Li.
      apply lookup_lt_is_Some_2 in Li as [c Hc]. destruct (pl_at _ _ _ P _ _ Hc) as (i1 & Hi1 & Ec). simplify_eq. eauto.
    + intros [c Hc]. destruct (proj1 (list_elem_of_lookup _ _) (pl_new _ _ _ P _ _ Hc)) as [i Hi].
      destruct (pl_at _ _ _ P _ _ Hi) as (id' & Hid' & Hc'). rewrite (pl_inj _ _ _ P _ _ _ Hc Hc'). by apply list_elem_of_lookup_2 in Hid'.
  - intros i j c d Hc Hd E. assert (c = d) as <- by (eapply cert_determines; eauto using pl_new). by eapply (pl_inj _ _ _ P).
Qed.

(** The kept consenters, and one more with a number that is free. *)
Lemma place_kept cur new ids0 :
  NoDup (ClientTlsCert <$> new) → (∀ s s' i, cur !! s = Some i → cur !! s' = Some i → s = s') → length ids0 = length new →
  (∀ j c id, new !! j = Some c → cur !! ClientTlsCert c = Some id → ids0 !! j = Some id) →
  (∀ c, c ∈ new → cur !! ClientTlsCert c ≠ None) → placed new ids0 (kept cur ∅ new).
Proof.
  intros Hnd Hinj Hlen Hids Hall. split; [done| | |].
  - intros i c Hc. destruct (cur !! ClientTlsCert c) as [id|] eqn:Ec.
    + exists id. split; [by eapply Hids|]. apply kept_lookup; [done..|]. split; [by apply list_elem_of_lookup_2 in Hc|done].
    + exfalso. eapply Hall; [by apply list_elem_of_lookup_2 in Hc|done].
  - intros id c [? _]%kept_lookup; done.
  - intros id id' c [_ ?]%kept_lookup [_ ?]%kept_lookup; [congruence|done..].
Qed.

Lemma place_one_more cur new ids0 j id a :
  NoDup (ClientTlsCert <$> new) → (∀ s s' i, cur !! s = Some i → cur !! s' = Some i → s = s') → length ids0 = length new →
  (∀ j c id, new !! j = Some c → cur !! ClientTlsCert c = Some id → ids0 !! j = Some id) →
  new !! j = Some a → cur !! ClientTlsCert a = None →
  (∀ j' c', new !! j' = Some c' → cur !! ClientTlsCert c' = None → j' = j) → kept cur ∅ new !! id = None →
  placed new (<[j := id]> ids0) (<[id := a]> (kept cur ∅ new)).
Proof.
  intros Hnd Hinj Hlen Hids Hj Ha Huniq Hfree.
  assert (∀ i c, kept cur ∅ new !! i = Some c → c ∈ new ∧ cur !! ClientTlsCert c = Some i) as Hk.
  { intros i c Hk. by apply kept_lookup in Hk. }
  split; [by rewrite length_insert| | |].
  - intros i c Hc. destruct (cur !! ClientTlsCert c) as [i'|] eqn:Ec.
    + assert (i ≠ j) as Hij by (intros ->; congruence). exists i'. rewrite list_lookup_insert_ne by done. split; [by eapply Hids|].
      assert (kept cur ∅ new !! i' = Some c) as Hk' by (apply kept_lookup; [done..|]; split; [by apply list_elem_of_lookup_2 in Hc|done]).
      rewrite lookup_insert_ne; [done|]. intros ->. congruence.
    + assert (i = j) as -> by by eapply Huniq. assert (c = a) as -> by congruence. exists id.
      rewrite list_lookup_insert_eq by (rewrite Hlen; by apply lookup_lt_Some in Hj). by rewrite lookup_insert_eq.
  - intros i c [[<- <-]|[_ ?%Hk]]%lookup_insert_Some; [by apply list_elem_of_lookup_2 in Hj|tauto].
  - intros i i' c [[<- <-]|[_ [_ Hi]%Hk]]%lookup_insert_Some [[<- Hc]|[_ [_ Hi']%Hk]]%lookup_insert_Some; congruence.
Qed.

(** *** Quorums *)
Lemma quorums_meet (Q1 Q2 U : gset Z) : Q1 ⊆ U → Q2 ⊆ U → size U < size Q1 + size Q2 → ∃ id, id ∈ Q1 ∧ id ∈ Q2.
Proof.
  intros H1 H2 Hs. destruct (decide (Q1 ## Q2)) as [Hd|Hd].
  - exfalso. assert (size (Q1 ∪ Q2) ≤ size U) as Hle by (apply subseteq_size; set_solver). rewrite size_union in Hle by done. lia.
  - destruct (decide (set_Exists (λ id, id ∈ Q2) Q1)) as [(id & ? & ?)|Hn]; [eauto|]. destruct Hd. intros id ? ?.
    apply Hn. by exists id.
Qed.

(** A majority of the old set and one of the new set share a node. *)
Definition quorums_intersect (old new : gset Z) : Prop :=
  ∀ Q1 Q2 : gset Z, Q1 ⊆ old → Q2 ⊆ new → size old < 2 * size Q1 → size new < 2 * size Q2 → ∃ id, id ∈ Q1 ∧ id ∈ Q2.

Lemma quorums_same old : quorums_intersect old old.
Proof. intros Q1 Q2 H1 H2 S1 S2. apply (quorums_meet Q1 Q2 old); [done..|lia]. Qed.
Lemma quorums_add old id : id ∉ old → quorums_intersect old ({[id]} ∪ old).
Proof.
  intros Hid Q1 Q2 H1 H2 S1 S2. rewrite size_union, size_singleton in S2 by set_solver.
  apply (quorums_meet Q1 Q2 ({[id]} ∪ old)); [set_solver..|]. rewrite size_union, size_singleton by set_solver. lia.
Qed.
Lemma quorums_remove new id : id ∉ new → quorums_intersect ({[id]} ∪ new) new.
Proof.
  intros Hid Q1 Q2 H1 H2 S1 S2. rewrite size_union, size_singleton in S1 by set_solver.
  apply (quorums_meet Q1 Q2 ({[id]} ∪ new)); [set_solver..|]. rewrite size_union, size_singleton by set_solver. lia.
Qed.

Lemma filter_none {A} (P : A → Prop) `{!∀ x, Decision (P x)} l : filter P l = [] → ∀ c, c ∈ l → ¬ P c.
Proof.
  intros E c Hc Hp. assert (c ∈ filter P l) as Hin by (by apply list_elem_of_filter). rewrite E in Hin. by apply elem_of_nil in Hin.
Qed.

Lemma filter_single {A} (P : A → Prop) `{!∀ x, Decision (P x)} l a :
  filter P l = [a] → ∃ j, l !! j = Some a ∧ P a ∧ ∀ j' c', l !! j' = Some c' → P c' → j' = j.
Proof.
  induction l as [|x l IH]; [done|]. rewrite filter_cons. case_decide as Hx.
  - intros [= -> E]. exists 0. split_and!; [done..|]. intros [|j] c Hj Hc; [done|]. exfalso. cbn in Hj.
    eapply filter_none; [exact E|by apply list_elem_of_lookup_2 in Hj|done].
  - intros (j & Hj & Ha & Hu)%IH. exists (S j). split_and!; [done..|]. intros [|j'] c' Hj' Hc'; [by injection Hj' as ->|].
    f_equal. by eapply Hu.
Qed.

(** All but one of the old consenters are kept. *)
Lemma kept_dom_removed (K old : gmap Z Consenter) (S : gset string) d r :
  (∀ id, is_Some (K !! id) ↔ ∃ c, old !! id = Some c ∧ ClientTlsCert c ∈ S) → old !! d = Some r →
  (∀ id c', old !! id = Some c' → ClientTlsCert c' ∉ S → id = d) → {[d]} ∪ dom K = dom old.
Proof.
  intros Hdom Hd Honly. apply set_eq. intros id. rewrite elem_of_union, elem_of_singleton, !elem_of_dom, Hdom. split.
  - intros [->|(c & ? & _)]; eauto.
  - intros [c Hc]. destruct (decide (ClientTlsCert c ∈ S)); [right; eauto|left; eauto].
Qed.

(** *** The four cases *)

(** What is claimed of a new membership. *)
Definition conf_change_shape (old new : gset Z) (cc : option RaftConfChange) : Prop :=
  match cc with
  | Some (mkConfChange id ConfChangeAddNode) => (id ∉ old) ∧ new = {[id]} ∪ old
  | Some (mkConfChange id ConfChangeRemoveNode) => (id ∉ new) ∧ old = {[id]} ∪ new
  | None => new = old
  end.

Lemma shape_quorums old new cc : conf_change_shape old new cc → quorums_intersect old new.
Proof.
  destruct cc as [[id []]|]; cbn.
  - intros [? ->]. by apply quorums_add.
  - intros [? ->]. by apply quorums_remove.
  - intros ->. apply quorums_same.
Qed.

Definition sound_change (old : gmap Z Consenter) (new : list Consenter) (md' : RaftMetadata) (cs : gmap Z Consenter)
    (cc : option RaftConfChange) : Prop :=
  wf_members md' cs ∧
  (∀ i c, new !! i = Some c → ∃ id, ConsenterIds md' !! i = Some id ∧ cs !! id = Some c) ∧
  (∀ id c c', old !! id = Some c → c' ∈ new → ClientTlsCert c' = ClientTlsCert c → cs !! id = Some c') ∧
  conf_change_shape (dom old) (dom cs) cc.

Section cases.
Context (md : RaftMetadata) (old : gmap Z Consenter) (new : list Consenter) (ids : list Z).
Context (W : wf_members md old) (Hnd : NoDup (ClientTlsCert <$> new)) (Elen : length ids = length new).
Notation cur := (MembershipByCert old).
Notation K := (kept cur ∅ new).
Context (Hids : ∀ j c id, new !! j = Some c → cur !! ClientTlsCert c = Some id → ids !! j = Some id).

Lemma cur_spec s id : cur !! s = Some id ↔ ∃ c, old !! id = Some c ∧ ClientTlsCert c = s.
Proof. apply MembershipByCert_spec. apply W. Qed.
Lemma cur_inj s s' i : cur !! s = Some i → cur !! s' = Some i → s = s'.
Proof. intros (c & Hc & <-)%cur_spec (c' & Hc' & <-)%cur_spec. congruence. Qed.

Lemma kept_dom id : is_Some (K !! id) ↔ ∃ c, old !! id = Some c ∧ ClientTlsCert c ∈ ConsentersToMap new.
Proof.
  split.
  - intros [c [Hin (c0 & Hc0 & Ec)%cur_spec]%kept_lookup]; [|done|apply cur_inj]. exists c0. split; [done|].
    apply ConsentersToMap_spec. eauto.
  - intros (c0 & Hc0 & (c & Hin & Ec)%ConsentersToMap_spec). exists c. apply kept_lookup; [done|apply cur_inj|]. split; [done|].
    apply cur_spec. eauto.
Qed.

Lemma kept_same id c c' : old !! id = Some c → c' ∈ new → ClientTlsCert c' = ClientTlsCert c → K !! id = Some c'.
Proof. intros Hc Hin Ec. apply kept_lookup; [done|apply cur_inj|]. split; [done|]. apply cur_spec. eauto. Qed.

Lemma kept_range id next : (NextConsenterId md ≤ next)%Z → is_Some (K !! id) → (0 < id < next)%Z.
Proof. intros Hle (c & Hc & _)%kept_dom. pose proof (wm_range _ _ W id ltac:(eauto)). lia. Qed.

Lemma kept_all : (∀ id c, old !! id = Some c → ClientTlsCert c ∈ ConsentersToMap new) → dom K = dom old.
Proof.
  intros Hall. apply set_eq. intros id. rewrite !elem_of_dom, kept_dom. split; [intros (c & ? & _); eauto|intros [c Hc]; eauto].
Qed.

Lemma unchanged_case idx :
  (∀ c, c ∈ new → cur !! ClientTlsCert c ≠ None) → (∀ id c, old !! id = Some c → ClientTlsCert c ∈ ConsentersToMap new) →
  sound_change old new (mkRaftMetadata ids (NextConsenterId md) idx) K None.
Proof.
  intros Hall Hold. pose proof (place_kept cur new ids Hnd cur_inj Elen Hids Hall) as P. split_and!; [|apply P|exact kept_same|].
  - apply (placed_wf new); [done..|]. intros id. by apply kept_range.
  - by apply kept_all.
Qed.

Section one_removed.
Context (d : Z) (r : Consenter) (Hd : old !! d = Some r) (Hnin : ClientTlsCert r ∉ ConsentersToMap new).
Context (Honly : ∀ id c', old !! id = Some c' → ClientTlsCert c' ∉ ConsentersToMap new → id = d).

Lemma removed_not_kept : K !! d = None.
Proof. apply eq_None_not_Some. intros (c & Hc & Hin)%kept_dom. congruence. Qed.
Lemma kept_removed : {[d]} ∪ dom K = dom old.
Proof. apply (kept_dom_removed K old (ConsentersToMap new) d r kept_dom Hd Honly). Qed.

Lemma removed_case idx :
  (∀ c, c ∈ new → cur !! ClientTlsCert c ≠ None) →
  sound_change old new (mkRaftMetadata ids (NextConsenterId md) idx) (delete d K) (Some (mkConfChange d ConfChangeRemoveNode)).
Proof.
  intros Hall. rewrite delete_id by apply removed_not_kept.
  pose proof (place_kept cur new ids Hnd cur_inj Elen Hids Hall) as P. split_and!; [|apply P|exact kept_same|].
  - apply (placed_wf new); [done..|]. intros id. by apply kept_range.
  - split; [apply not_elem_of_dom, removed_not_kept|]. by rewrite kept_removed.
Qed.

Lemma replaced_case idx j a :
  new !! j = Some a → cur !! ClientTlsCert a = None →
  (∀ j' c', new !! j' = Some c' → cur !! ClientTlsCert c' = None → j' = j) →
  sound_change old new (mkRaftMetadata (<[j := d]> ids) (NextConsenterId md) idx) (<[d := a]> K) None.
Proof.
  intros Hj Ha Hu. pose proof (place_one_more cur new ids j d a Hnd cur_inj Elen Hids Hj Ha Hu removed_not_kept) as P.
  split_and!; [|apply P| |].
  - apply (placed_wf new); [done..|]. intros id [c [[<- _]|[_ Hk]]%lookup_insert_Some]; [apply (wm_range _ _ W); eauto|].
    apply kept_range; [done|eauto].
  - intros id c c' Hc Hin Ec. rewrite lookup_insert_ne; [by eapply kept_same|]. intros <-. destruct Hnin.
    apply ConsentersToMap_spec. exists c'. split; [done|]. congruence.
  - cbn. by rewrite dom_insert_L, kept_removed.
Qed.
End one_removed.

Lemma added_case idx j a :
  (0 < NextConsenterId md)%Z → (NextConsenterId md + 1 < 2 ^ 64)%Z →
  (∀ id c, old !! id = Some c → ClientTlsCert c ∈ ConsentersToMap new) → new !! j = Some a → cur !! ClientTlsCert a = None →
  (∀ j' c', new !! j' = Some c' → cur !! ClientTlsCert c' = None → j' = j) →
  sound_change old new (mkRaftMetadata (<[j := NextConsenterId md]> ids) (u64 (NextConsenterId md + 1)) idx)
    (<[NextConsenterId md := a]> K) (Some (mkConfChange (NextConsenterId md) ConfChangeAddNode)).
Proof.
  intros Hnext Hwrap Hold Hj Ha Hu.
  assert (K !! NextConsenterId md = None) as Hkn.
  { apply eq_None_not_Some. intros Hs. apply (kept_range _ (NextConsenterId md)) in Hs; lia. }
  pose proof (place_one_more cur new ids j (NextConsenterId md) a Hnd cur_inj Elen Hids Hj Ha Hu Hkn) as P.
  split_and!; [|apply P| |].
  - apply (placed_wf new); [done..|]. unfold u64, wrap. rewrite Z.mod_small by lia.
    intros id [c [[<- _]|[_ Hk]]%lookup_insert_Some]; [lia|]. apply kept_range; [lia|eauto].
  - intros id c c' Hc Hin Ec. rewrite lookup_insert_ne; [by eapply kept_same|]. intros <-.
    pose proof (kept_same _ _ _ Hc Hin Ec). congruence.
  - cbn. rewrite dom_insert_L, kept_all by done. split; [|done]. rewrite <- kept_all by done. by apply not_elem_of_dom.
Qed.
End cases.

Lemma membership_change md old new mc :
  wf_members md old → NoDup (ClientTlsCert <$> new) → (0 < NextConsenterId md)%Z → (NextConsenterId md + 1 < 2 ^ 64)%Z →
  ComputeMembershipChanges md old new = Ok mc → sound_change old new (NewBlockMetadata mc) (NewConsenters mc) (mc_ConfChange mc).
Proof.
  intros W Hnd Hnext Hwrap E. unfold ComputeMembershipChanges in E.
  destruct (match_consenters _ _ _ _ _) as [[[ids next idx] cs added rem0 cc rot] k] eqn:Em.
  apply match_consenters_spec in Em as (Ecs & Eadd & Enext & _ & Ecc & _ & Elen & _ & Eids & _ & Ek).
  cbn [NewConsenters AddedNodes NewBlockMetadata NextConsenterId ConsenterIds mc_ConfChange app Nat.add] in *.
  rewrite length_replicate in *.
  destruct (removed_consenters old (ConsentersToMap new)) as [removed d] eqn:Er. apply removed_spec in Er as [Er0 Er1].
  subst cs added next cc.
  assert (∀ j c id, new !! j = Some c → MembershipByCert old !! ClientTlsCert c = Some id → ids !! j = Some id) as Hids.
  { intros j c id Hj Hc. eapply Eids; [done| |done]. by apply lookup_lt_Some in Hj. }
  destruct (filter _ new) as [|a [|]] eqn:Ef; destruct removed as [|r [|]]; try done; injection E as <-;
    cbn [NewBlockMetadata NewConsenters mc_ConfChange].
  - apply unchanged_case; [done..|exact (filter_none _ _ Ef)|by apply Er0].
  - destruct (Er1 r eq_refl) as (? & ? & ?). eapply removed_case; [done..|exact (filter_none _ _ Ef)].
  - apply filter_single in Ef as (j & Hj & Ha & Hu). rewrite (Ek j a Hj Ha Hu). apply added_case; try done. by apply Er0.
  - apply filter_single in Ef as (j & Hj & Ha & Hu). rewrite (Ek j a Hj Ha Hu). destruct (Er1 r eq_refl) as (? & ? & ?).
    by eapply replaced_case.
Qed.

(** C28: A change of the consenters gives each of the new ones a number of its own,
    the known ones keeping theirs, and changes so little that a majority of the
    old consenters and a majority of the new ones always share one. *)
Theorem membership_change_sound (md : RaftMetadata) (old : gmap Z Consenter) (new : list Consenter) (mc : MembershipChanges) :
  wf_members md old → NoDup (ClientTlsCert <$> new) → (0 < NextConsenterId md)%Z → (NextConsenterId md + 1 < 2 ^ 64)%Z →
  ComputeMembershipChanges md old new = Ok mc →
  wf_members (NewBlockMetadata mc) (NewConsenters mc) ∧
  (∀ i c, new !! i = Some c → ∃ id, ConsenterIds (NewBlockMetadata mc) !! i = Some id ∧ NewConsenters mc !! id = Some c) ∧
  (∀ id c c', old !! id = Some c → c' ∈ new → ClientTlsCert c' = ClientTlsCert c → NewConsenters mc !! id = Some c') ∧
  quorums_intersect (dom old) (dom (NewConsenters mc)).
Proof.
  intros W Hnd Hn Hw E. destruct (membership_change _ _ _ _ W Hnd Hn Hw E) as (W' & Hat & Hsame & Hs).
  split_and!; [done..|]. by eapply shape_quorums.
Qed.

(** *** A change that was not finished *)
Lemma members_length md cs : wf_members md cs → length (ConsenterIds md) = size (dom cs).
Proof.
  intros W. rewrite <- (size_list_to_set (C := gset Z)) by apply W. f_equal. apply set_eq. intros id.
  by rewrite elem_of_list_to_set, (wm_ids _ _ W), elem_of_dom.
Qed.

Lemma NodeExists_spec id nodes : NodeExists id nodes = true ↔ id ∈ nodes.
Proof.
  unfold NodeExists. rewrite existsb_exists. split.
  - intros (x & Hx & ->%Z.eqb_eq). by apply list_elem_of_In.
  - intros Hid. exists id. split; [by apply list_elem_of_In|apply Z.eqb_refl].
Qed.

(** The one element of [l] that is not among the others. *)
Lemma pick_only (l others : list Z) x :
  x ∈ l → x ∉ others → (∀ y, y ∈ l → y ≠ x → y ∈ others) →
  foldl (λ n y, if NodeExists y others then n else y) 0%Z l = x.
Proof.
  intros Hx Hn Hall. assert (∀ n, (x ∈ l ∨ n = x) → foldl (λ n y, if NodeExists y others then n else y) n l = x) as Hf.
  { clear Hx. induction l as [|y l IH]; intros n Hor; cbn [foldl].
    - destruct Hor as [Hl|?]; [by apply elem_of_nil in Hl|done].
    - apply IH; [intros z Hz; apply Hall; by right|]. destruct (decide (y = x)) as [->|Hyx].
      + right. destruct (NodeExists x others) eqn:E; [by apply NodeExists_spec in E|done].
      + rewrite (proj2 (NodeExists_spec y others)) by (apply Hall; [by left|done]).
        destruct Hor as [[<-|?]%elem_of_cons|?]; [done|by left|by right]. }
  apply Hf. by left.
Qed.

(** A new leader that finds the members of the last block ahead of those Raft
    knows proposes the change that the block called for. *)
Theorem conf_change_resumed (md : RaftMetadata) (old : gmap Z Consenter) (new : list Consenter) (mc : MembershipChanges)
    (cc : RaftConfChange) (voters : list Z) :
  wf_members md old → NoDup (ClientTlsCert <$> new) → (0 < NextConsenterId md)%Z → (NextConsenterId md + 1 < 2 ^ 64)%Z →
  ComputeMembershipChanges md old new = Ok mc → mc_ConfChange mc = Some cc → voters ≡ₚ ConsenterIds md →
  ConfChange (NewBlockMetadata mc) voters = cc.
Proof.
  intros W Hnd Hn Hw E Hcc Hv. destruct (membership_change _ _ _ _ W Hnd Hn Hw E) as (W' & _ & _ & Hs). rewrite Hcc in Hs.
  pose proof (members_length _ _ W) as L. pose proof (members_length _ _ W') as L'. unfold ConfChange. rewrite Hv.
  assert (∀ id, id ∈ voters ↔ id ∈ dom old) as Hvo by (intros id; by rewrite Hv, (wm_ids _ _ W), elem_of_dom).
  assert (∀ id, id ∈ ConsenterIds (NewBlockMetadata mc) ↔ id ∈ dom (NewConsenters mc)) as Hvn
    by (intros id; by rewrite (wm_ids _ _ W'), elem_of_dom).
  destruct cc as [id []]; cbn in Hs; destruct Hs as [Hid Hs].
  - rewrite L, L', Hs, size_union, size_singleton by set_solver. rewrite (proj2 (Nat.ltb_lt _ _)) by lia. f_equal.
    apply pick_only; [apply Hvn; set_solver|by rewrite Hvo|]. intros y Hy Hne. apply Hvo. apply Hvn in Hy. set_solver.
  - rewrite L, L', Hs, size_union, size_singleton by set_solver. rewrite (proj2 (Nat.ltb_ge _ _)) by lia. f_equal.
    apply pick_only; [apply Hvo; set_solver|by rewrite Hvn|]. intros y Hy Hne. apply Hvn. apply Hvo in Hy. set_solver.
Qed.
End membership.

(** ** Three consenters and a fourth *)
Section sample.
#[local] Instance key_order : ConsenterOrder :=
  {| consenter_range _ m := (map_to_list m).*1; consenter_range_ok _ m := Permutation_refl _ |}.

Definition consenter (n : string) : Consenter := mkConsenter ("orderer" +:+ n) 7050 ("client" +:+ n) ("server" +:+ n).
Definition three : gmap Z Consenter := <[1%Z := consenter "1"]> (<[2%Z := consenter "2"]> {[3%Z := consenter "3"]}).
Definition three_md : RaftMetadata := mkRaftMetadata [1; 2; 3]%Z 4 10.
Definition four : list Consenter := consenter <$> ["1"; "2"; "3"; "4"].

Lemma three_lookup id c : three !! id = Some c → (id, c) ∈ [(1%Z, consenter "1"); (2%Z, consenter "2"); (3%Z, consenter "3")].
Proof.
  unfold three. intros [[<- <-]|[_ [[<- <-]|[_ [<- <-]%lookup_singleton_Some]]%lookup_insert_Some]]%lookup_insert_Some; set_solver.
Qed.

Lemma three_wf : wf_members three_md three.
Proof.
  split.
  - cbn. repeat constructor; set_solver.
  - intros id. cbn [ConsenterIds three_md]. split.
    + intros Hid. repeat (apply elem_of_cons in Hid as [->|Hid]; [by eexists|]). by apply elem_of_nil in Hid.
    + intros [c Hc%three_lookup]. set_solver.
  - intros i j c d Hc%three_lookup Hd%three_lookup E.
    repeat (apply elem_of_cons in Hc as [[= -> ->]|Hc]; [repeat (apply elem_of_cons in Hd as [[= -> ->]|Hd]; [done|]); by apply elem_of_nil in Hd|]).
    by apply elem_of_nil in Hc.
  - intros id [c Hc%three_lookup]. cbn [NextConsenterId three_md].
    repeat (apply elem_of_cons in Hc as [[= -> ->]|Hc]; [lia|]). by apply elem_of_nil in Hc.
Qed.

Lemma four_NoDup : NoDup (ClientTlsCert <$> four).
Proof. cbn. repeat constructor; set_solver. Qed.

Definition fourth_added : MembershipChanges :=
  mkMembershipChanges (mkRaftMetadata [1; 2; 3; 4]%Z 5 10) (<[4%Z := consenter "4"]> three) [consenter "4"] []
    (Some (mkConfChange 4 ConfChangeAddNode)) 0.

Lemma fourth_computed : ComputeMembershipChanges three_md three four = Ok fourth_added.
Proof. vm_compute. reflexivity. Qed.

Lemma membership_change_sound_witness :
  wf_members (NewBlockMetadata fourth_added) (NewConsenters fourth_added) ∧
  quorums_intersect (dom three) (dom (NewConsenters fourth_added)).
Proof.
  destruct (membership_change_sound three_md three four fourth_added three_wf four_NoDup ltac:(done) ltac:(done) fourth_computed)
    as (W & _ & _ & Q). done.
Defined.

Lemma conf_change_resumed_witness : ConfChange (NewBlockMetadata fourth_added) [3; 1; 2]%Z = mkConfChange 4 ConfChangeAddNode.
Proof.
  apply (conf_change_resumed three_md three four fourth_added _ [3; 1; 2]%Z three_wf four_NoDup ltac:(done) ltac:(done) fourth_computed eq_refl).
  cbn. apply (Permutation_app_comm [3%Z] [1; 2]%Z).
Defined.
End sample.
