(* ===== verification/RaftChain.v ===== *)
(** * RaftChain: a channel ordered by Raft
      (orderer/consensus/etcdraft/chain.go, blockcreator.go, util.go, consenter.go,
      orderer/common/multichannel/chainsupport.go, common/configtx/util.go)

    The leader validates messages again where the configuration has advanced,
    cuts them into batches and creates blocks of them, which are proposed to
    Raft. Every node writes the blocks of the entries Raft commits. The messages
    of the loop are calls of the functions below. A snapshot is an index with a
    block, from which a node catches up. Raft itself, the transport, the storage
    of snapshots and metrics have no counterpart. *)

From S2P Require Import Prelude GoText Protos Proposal ProtoUtil Policy PolicyManager ConfigTx BlockCutter Blocks MsgProcessor BlockWriter RaftMembership.

(** ** Creating blocks (blockcreator.go) *)
Record blockCreator := mkBlockCreator { bc_hash : bytes; bc_number : Z }.

(** Of the options, the number of blocks in flight. *)
Record ConfigMetadata := mkConfigMetadata { cm_Consenters : list Consenter; cm_Options : option Z }.
Record SubmitRequest := mkSubmitRequest { sr_LastValidationSeq : Z; sr_Payload : Envelope }.

Record Chain := mkChain {
  ch_raftID : Z;
  ch_lastBlock : FullBlock;
  ch_appliedIndex : Z;
  ch_confChangeInProgress : option RaftConfChange;
  ch_configInflight : bool;
  ch_blockInflight : nat;
  ch_BlockMetadata : RaftMetadata;
  ch_Consenters : gmap Z Consenter;
  ch_cutter : receiver;
  (** The writer holds the channel's resources. *)
  ch_writer : BlockWriter
}.

Section chain.
Context `{MapOrder} `{Codec} `{ProposalCodec} `{TxCodec} `{ChannelConfig} `{MetadataCodec} `{ConsenterOrder}.
Context (unmarshal_ConfigUpdate : bytes → option ConfigUpdate).
Context (unmarshal_ConfigUpdateEnvelope : bytes → option ConfigUpdateEnvelope).
Context (unmarshal_ConfigEnvelope : bytes → option ConfigEnvelope).
Context (marshal_ConfigEnvelope : ConfigEnvelope → outcome bytes).
Context (marshal_Envelope : Envelope → outcome bytes).
(** The metadata of [orderer.ConsensusType]. *)
Context (unmarshal_ConsensusType : bytes → option bytes).
Context (unmarshal_ConfigMetadata : bytes → option ConfigMetadata).
Context (marshal_RaftMetadata : RaftMetadata → outcome bytes).
Context (unmarshal_RaftMetadata : bytes → option RaftMetadata).
Context (payload_nil : Envelope → bool) (channel_header_nil : Header → bool).
Context (ExpiresAt : bytes → option Z).
Context (signer : Signer) (NoExpirationChecks : bool) (channelID : string).
(** Reading certificates. *)
Context (pemToDER : bytes → outcome bytes) (CertificatesWithSamePublicKey : bytes → bytes → bool).

Definition createNextBlock (bc : blockCreator) (envs : list Envelope) : outcome (FullBlock * blockCreator) :=
  data ← marshal_all marshal_Envelope envs;
  let number := u64 (bc_number bc + 1) in
  let block := NewBlock number (bc_hash bc) in
  header ← deref (fb_Header block);
  let header := mkBlockHeader (bh_Number header) (bh_PreviousHash header) (BlockDataHash data) in
  Ok (mkFullBlock (Some header) (Some data) (fb_Metadata block), mkBlockCreator (BlockHeaderHash header) number).

(** ** Reading configuration (util.go, configtx/util.go) *)
Definition channel_header (env : Envelope) : outcome ChannelHeader :=
  payload ← Proposal.decoded "Payload" (unmarshal_Payload (env_Payload env));
  header ← from_option_err "header not set" (payload_Header payload);
  if channel_header_nil header then Err "channel header not set"
  else with_message "error unmarshalling channel header"
         (Proposal.decoded "ChannelHeader" (unmarshal_ChannelHeader (hdr_ChannelHeader header))).

Definition isConfig (env : Envelope) : outcome bool :=
  h ← channel_header env;
  Ok (bool_decide (chdr_Type h = HeaderType_CONFIG) || bool_decide (chdr_Type h = HeaderType_ORDERER_TRANSACTION)).

Definition UnmarshalConfigUpdateFromPayload (payload : Payload) : outcome ConfigUpdate :=
  configEnv ← from_option_err "error unmarshalling ConfigEnvelope" (unmarshal_ConfigEnvelope (payload_Data payload));
  configUpdateEnv ← EnvelopeToConfigUpdate unmarshal_ConfigUpdateEnvelope (ce_LastUpdate configEnv);
  from_option_err "error unmarshalling ConfigUpdate" (unmarshal_ConfigUpdate (cue_ConfigUpdate configUpdateEnv)).

Definition MetadataFromConfigValue (configValue : ConfigValue) : outcome ConfigMetadata :=
  metadata ← from_option_err "failed to unmarshal consensusType config update" (unmarshal_ConsensusType (cv_Value configValue));
  from_option_err "failed to unmarshal updated (new) etcdraft metadata configuration" (unmarshal_ConfigMetadata metadata).

Definition consensus_value (set : option ConfigGroup) : option ConfigValue :=
  set ← set;
  ordererConfigGroup ← cg_Groups set !! "Orderer";
  cg_Values ordererConfigGroup !! "ConsensusType".

(** Nil unless the update changes the version of the value. *)
Definition MetadataFromConfigUpdate (update : ConfigUpdate) : outcome (option ConfigMetadata) :=
  let baseVersion := match consensus_value (cu_ReadSet update) with Some val => cv_Version val | None => 0%Z end in
  match consensus_value (cu_WriteSet update) with
  | Some val =>
      if (baseVersion =? cv_Version val)%Z then Ok None
      else md ← MetadataFromConfigValue val; Ok (Some md)
  | None => Ok None
  end.

Definition ConfigChannelHeader (block : FullBlock) : outcome ChannelHeader :=
  envelope ← with_message "failed to extract envelope from the block" (ExtractEnvelope (plain block) 0);
  with_message "cannot extract channel header" (channel_header envelope).

Definition ConfigEnvelopeFromBlock (block : FullBlock) : outcome Envelope :=
  envelope ← with_message "failed to extract envelope from the block" (ExtractEnvelope (plain block) 0);
  channelHeader ← with_message "cannot extract channel header" (channel_header envelope);
  if bool_decide (chdr_Type channelHeader = HeaderType_ORDERER_TRANSACTION) then
    payload ← Proposal.decoded "Payload" (unmarshal_Payload (env_Payload envelope));
    GetEnvelopeFromBlock (payload_Data payload)
  else if bool_decide (chdr_Type channelHeader = HeaderType_CONFIG) then Ok envelope
  else Err "unexpected header type".

Definition ConsensusMetadataFromConfigBlock (block : FullBlock) : outcome (option ConfigMetadata) :=
  if negb (IsConfigBlock (plain block)) then Err "not a config block"
  else
    configEnvelope ← with_message "cannot read config update" (ConfigEnvelopeFromBlock block);
    payload ← Proposal.decoded "Payload" (unmarshal_Payload (env_Payload configEnvelope));
    configUpdate ← with_message "could not read config update" (UnmarshalConfigUpdateFromPayload payload);
    MetadataFromConfigUpdate configUpdate.

(** ** Ordering (chain.go) *)
Definition resources (c : Chain) : Bundle := bw_support (ch_writer c).

Definition set_cutter (c : Chain) (r : receiver) : Chain :=
  mkChain (ch_raftID c) (ch_lastBlock c) (ch_appliedIndex c) (ch_confChangeInProgress c) (ch_configInflight c) (ch_blockInflight c)
    (ch_BlockMetadata c) (ch_Consenters c) r (ch_writer c).

(** Any error counts as no. *)
Definition checkForEvictionNCertRotation (c : Chain) (env : Envelope) : outcome bool :=
  let membershipUpdates :=
    payload ← Proposal.decoded "Payload" (unmarshal_Payload (env_Payload env));
    configUpdate ← UnmarshalConfigUpdateFromPayload payload;
    configMeta ← MetadataFromConfigUpdate configUpdate;
    configMeta ← from_option_err "could not read config metadata" configMeta;
    ComputeMembershipChanges (ch_BlockMetadata c) (ch_Consenters c) (cm_Consenters configMeta) in
  match membershipUpdates with
  | Ok mc =>
      Ok (bool_decide (RotatedNode mc = ch_raftID c) || negb (bool_decide (is_Some (NewConsenters mc !! ch_raftID c))))
  | Err _ => Ok false
  | Panic e => Panic e
  end.

(** The batches and whether messages are pending. A configuration that evicts
    this leader is not ordered: leadership is handed over and it is submitted again. *)
Definition ordered (now : Z) (nonce : outcome bytes) (c : Chain) (msg : SubmitRequest)
    : outcome (list (list Envelope) * bool * Chain) :=
  let seq := Sequence (resources c) in
  isconfig ← with_message "bad message" (isConfig (sr_Payload msg));
  if isconfig : bool then
    payload ← (if (sr_LastValidationSeq msg <? seq)%Z then
                 '(config, _) ← with_message "bad config message"
                   (ProcessConfigMsg unmarshal_ConfigUpdate unmarshal_ConfigUpdateEnvelope unmarshal_ConfigEnvelope
                      marshal_ConfigEnvelope (λ b, bool_decide (is_Some (unmarshal_ConfigMetadata b))) payload_nil ExpiresAt
                      NoExpirationChecks channelID now nonce signer (resources c) (sr_Payload msg));
                 Ok config
               else Ok (sr_Payload msg));
    evicted ← checkForEvictionNCertRotation c payload;
    if evicted : bool then Ok ([], false, c)
    else
      let '(batch, r) := Cut (ch_cutter c) in
      let batches := if bool_decide (batch = []) then [] else [batch] in
      Ok (batches ++ [[payload]], false, set_cutter c r)
  else
    _ ← (if (sr_LastValidationSeq msg <? seq)%Z then
           with_message "bad normal message"
             (ProcessNormalMsg payload_nil ExpiresAt NoExpirationChecks now (resources c) (Some (sr_Payload msg)))
         else Ok 0%Z);
    '(batches, pending, r) ← Ordered (oc_BatchSize <$> b_OrdererConfig (resources c)) (ch_cutter c) (sr_Payload msg);
    Ok (batches, pending, set_cutter c r).

(** The channel to the goroutine that proposes to Raft: [MaxInflightBlocks]
    blocks fit; a full channel is a programming error. *)
Fixpoint propose (MaxInflightBlocks : nat) (c : Chain) (bc : blockCreator) (ch : list FullBlock) (batches : list (list Envelope))
    : outcome (Chain * blockCreator * list FullBlock) :=
  match batches with
  | [] => Ok (c, bc, ch)
  | batch :: rest =>
      '(b, bc) ← createNextBlock bc batch;
      if (length ch <? MaxInflightBlocks)%nat then
        let c := mkChain (ch_raftID c) (ch_lastBlock c) (ch_appliedIndex c) (ch_confChangeInProgress c)
                   (ch_configInflight c || IsConfigBlock (plain b)) (S (ch_blockInflight c)) (ch_BlockMetadata c)
                   (ch_Consenters c) (ch_cutter c) (ch_writer c) in
        propose MaxInflightBlocks c bc (ch ++ [b]) rest
      else Panic "Programming error: limit of in-flight blocks does not properly take effect or block is proposed by follower"
  end.

(** ** Writing *)
Definition detectConfChange (c : Chain) (block : FullBlock) : outcome (option MembershipChanges) :=
  configMetadata ← or_panic (ConsensusMetadataFromConfigBlock block);
  match configMetadata with
  | None => Ok None
  | Some md => changes ← or_panic (ComputeMembershipChanges (ch_BlockMetadata c) (ch_Consenters c) (cm_Consenters md)); Ok (Some changes)
  end.

(** The goroutine of the last [WriteBlock] is waited for. *)
Definition wait_committed (nonce : outcome bytes) (bw : BlockWriter) : outcome BlockWriter :=
  match bw_committing bw with
  | None => Ok bw
  | Some md => commitBlock signer nonce (set_committing bw None) md
  end.

Definition support_WriteConfigBlock (nonce : outcome bytes) (c : Chain) (block : FullBlock) (metadata : bytes) : outcome BlockWriter :=
  bw ← wait_committed nonce (ch_writer c);
  WriteConfigBlock unmarshal_ConfigUpdate unmarshal_ConfigUpdateEnvelope unmarshal_ConfigEnvelope signer nonce bw block metadata.

Definition set_RaftIndex (md : RaftMetadata) (i : Z) : RaftMetadata := mkRaftMetadata (ConsenterIds md) (NextConsenterId md) i.

Definition writeConfigBlock (nonce : outcome bytes) (c : Chain) (block : FullBlock) (idx : Z) : outcome Chain :=
  hdr ← or_panic (ConfigChannelHeader block);
  let c := mkChain (ch_raftID c) (ch_lastBlock c) (ch_appliedIndex c) (ch_confChangeInProgress c) false (ch_blockInflight c)
             (ch_BlockMetadata c) (ch_Consenters c) (ch_cutter c) (ch_writer c) in
  if bool_decide (chdr_Type hdr = HeaderType_CONFIG) then
    configMembership ← detectConfChange c block;
    let '(md, consenters) :=
      match configMembership with
      | Some mc => (NewBlockMetadata mc, NewConsenters mc)
      | None => (set_RaftIndex (ch_BlockMetadata c) idx, ch_Consenters c)
      end in
    blockMetadataBytes ← or_panic (marshal_RaftMetadata md);
    bw ← support_WriteConfigBlock nonce c block blockMetadataBytes;
    let '(cc, inflight) :=
      match configMembership ≫= mc_ConfChange with
      | Some cc => (Some cc, true)
      | None => (ch_confChangeInProgress c, ch_configInflight c)
      end in
    Ok (mkChain (ch_raftID c) (ch_lastBlock c) (ch_appliedIndex c) cc inflight (ch_blockInflight c) md consenters (ch_cutter c) bw)
  else if bool_decide (chdr_Type hdr = HeaderType_ORDERER_TRANSACTION) then
    let md := set_RaftIndex (ch_BlockMetadata c) idx in
    m ← or_panic (marshal_RaftMetadata md);
    bw ← support_WriteConfigBlock nonce c block m;
    Ok (mkChain (ch_raftID c) (ch_lastBlock c) (ch_appliedIndex c) (ch_confChangeInProgress c) (ch_configInflight c)
          (ch_blockInflight c) md (ch_Consenters c) (ch_cutter c) bw)
  else Panic "Programming error: unexpected config type".

Definition writeBlock (nonce : outcome bytes) (c : Chain) (block : FullBlock) (idx : Z) : outcome Chain :=
  header ← deref (fb_Header block);
  last ← deref (fb_Header (ch_lastBlock c));
  let expected := u64 (bh_Number last + 1) in
  if (expected <? bh_Number header)%Z then Panic "Got block, expect another block"
  else if (bh_Number header <? expected)%Z then Ok c
  else
    let c := mkChain (ch_raftID c) block (ch_appliedIndex c) (ch_confChangeInProgress c) (ch_configInflight c)
               (Nat.pred (ch_blockInflight c)) (ch_BlockMetadata c) (ch_Consenters c) (ch_cutter c) (ch_writer c) in
    if IsConfigBlock (plain block) then writeConfigBlock nonce c block idx
    else
      let md := set_RaftIndex (ch_BlockMetadata c) idx in
      m ← or_panic (marshal_RaftMetadata md);
      bw ← wait_committed nonce (ch_writer c);
      Ok (mkChain (ch_raftID c) (ch_lastBlock c) (ch_appliedIndex c) (ch_confChangeInProgress c) (ch_configInflight c)
            (ch_blockInflight c) md (ch_Consenters c) (ch_cutter c) (WriteBlock bw block m)).

(** ** Applying what Raft commits

    The data of a normal entry is the block it decodes to; an empty one is what
    a new leader appends. *)
Inductive raft_entry := EntryNormal (block : FullBlock) | EntryEmpty | EntryConfChange (cc : RaftConfChange).

Definition set_applied (c : Chain) (i : Z) : Chain :=
  mkChain (ch_raftID c) (ch_lastBlock c) i (ch_confChangeInProgress c) (ch_configInflight c) (ch_blockInflight c)
    (ch_BlockMetadata c) (ch_Consenters c) (ch_cutter c) (ch_writer c).

Definition apply_entry (nonce : outcome bytes) (c : Chain) (idx : Z) (e : raft_entry) : outcome Chain :=
  c ← match e with
      | EntryNormal block => if (idx <=? ch_appliedIndex c)%Z then Ok c else writeBlock nonce c block idx
      | EntryEmpty => Ok c
      | EntryConfChange cc =>
          match ch_confChangeInProgress c with
          | Some p =>
              if bool_decide (cc_NodeID p = cc_NodeID cc) && bool_decide (cc_Type p = cc_Type cc)
              then Ok (mkChain (ch_raftID c) (ch_lastBlock c) (ch_appliedIndex c) None false (ch_blockInflight c)
                         (ch_BlockMetadata c) (ch_Consenters c) (ch_cutter c) (ch_writer c))
              else Ok c
          | None => Ok c
          end
      end;
  Ok (if (ch_appliedIndex c <? idx)%Z then set_applied c idx else c).

Definition apply (nonce : outcome bytes) (c : Chain) (ents : list (Z * raft_entry)) : outcome Chain :=
  match ents with
  | [] => Ok c
  | (first, _) :: _ =>
      if (u64 (ch_appliedIndex c + 1) <? first)%Z then Panic "first index of committed entry should <= appliedIndex+1"
      else foldM (λ c '(idx, e), apply_entry nonce c idx e) c ents
  end.

Definition log_blocks (log : list raft_entry) : list FullBlock := omap (λ e, match e with EntryNormal b => Some b | _ => None end) log.

(** [apply] with the snapshot it offers to the goroutine that takes them, if that
    is [ready], once the blocks since the last one have reached the limit: the
    last block of the entries with the index applied. *)
Definition apply_and_offer (block_size : FullBlock → Z) (ready : bool) (nonce : outcome bytes) (sizeLimit accDataSize : Z) (c : Chain)
    (ents : list (Z * raft_entry)) : outcome (Chain * Z * option (Z * FullBlock)) :=
  c ← apply nonce c ents;
  let blocks := log_blocks (snd <$> ents) in
  let accDataSize := foldl (λ acc b, u32 (acc + block_size b)) accDataSize blocks in
  Ok match last blocks with
     | Some b =>
         if (sizeLimit <=? accDataSize)%Z && ready then (c, 0%Z, Some (ch_appliedIndex c, b)) else (c, accDataSize, None)
     | None => (c, accDataSize, None)
     end.

(** A leader that has applied all that was proposed before starts from its last block. *)
Definition start_serving (c : Chain) : outcome blockCreator :=
  header ← deref (fb_Header (ch_lastBlock c));
  Ok (mkBlockCreator (BlockHeaderHash header) (bh_Number header)).

(** [becomeFollower]: the pending messages are dropped. *)
Definition becomeFollower (c : Chain) : Chain :=
  let '(_, r) := Cut (ch_cutter c) in
  mkChain (ch_raftID c) (ch_lastBlock c) (ch_appliedIndex c) (ch_confChangeInProgress c) (ch_configInflight c) 0
    (ch_BlockMetadata c) (ch_Consenters c) r (ch_writer c).

(** [getInFlightConfChange]; [voters] is what Raft knows. *)
Definition getInFlightConfChange (c : Chain) (voters : list Z) : outcome (option RaftConfChange) :=
  match ch_confChangeInProgress c with
  | Some cc => Ok (Some cc)
  | None =>
      header ← deref (fb_Header (ch_lastBlock c));
      if (bh_Number header =? 0)%Z then Ok None
      else if negb (IsConfigBlock (plain (ch_lastBlock c))) then Ok None
      else if (length voters =? length (ConsenterIds (ch_BlockMetadata c)))%nat then Ok None
      else Ok (Some (ConfChange (ch_BlockMetadata c) voters))
  end.

(** ** Catching up from a snapshot

    A snapshot holds a block; the blocks before it come from the [puller]. The
    index is 0 in a snapshot that a node makes up to trigger this. *)
Definition set_last (c : Chain) (block : FullBlock) : Chain :=
  mkChain (ch_raftID c) block (ch_appliedIndex c) (ch_confChangeInProgress c) (ch_configInflight c) (ch_blockInflight c)
    (ch_BlockMetadata c) (ch_Consenters c) (ch_cutter c) (ch_writer c).
Definition set_writer (c : Chain) (bw : BlockWriter) : Chain :=
  mkChain (ch_raftID c) (ch_lastBlock c) (ch_appliedIndex c) (ch_confChangeInProgress c) (ch_configInflight c) (ch_blockInflight c)
    (ch_BlockMetadata c) (ch_Consenters c) (ch_cutter c) bw.

Definition chain_commitBlock (nonce : outcome bytes) (c : Chain) (block : FullBlock) : outcome Chain :=
  blockMeta ← or_panic (GetConsenterMetadataFromBlock block);
  if negb (IsConfigBlock (plain block)) then
    bw ← wait_committed nonce (ch_writer c);
    Ok (set_writer c (WriteBlock bw block (md_Value blockMeta)))
  else
    bw ← support_WriteConfigBlock nonce c block (md_Value blockMeta);
    let c := set_writer c bw in
    configMembership ← detectConfChange c block;
    Ok match configMembership with
       | Some mc =>
           if Changed mc
           then mkChain (ch_raftID c) (ch_lastBlock c) (ch_appliedIndex c) (ch_confChangeInProgress c) (ch_configInflight c)
                  (ch_blockInflight c) (NewBlockMetadata mc) (NewConsenters mc) (ch_cutter c) (ch_writer c)
           else c
       | None => c
       end.

(** The [n] blocks from [next]. *)
Fixpoint pull_blocks (nonce : outcome bytes) (PullBlock : Z → option FullBlock) (c : Chain) (next : Z) (n : nat) : outcome Chain :=
  match n with
  | 0 => Ok c
  | S n =>
      block ← from_option_err "failed to fetch block from cluster" (PullBlock next);
      c ← chain_commitBlock nonce c block;
      pull_blocks nonce PullBlock (set_last c block) (u64 (next + 1)) n
  end.

Definition catchUp (nonce : outcome bytes) (createPuller : outcome (Z → option FullBlock)) (c : Chain) (b : FullBlock) : outcome Chain :=
  last ← deref (fb_Header (ch_lastBlock c));
  header ← deref (fb_Header b);
  if (bh_Number header <=? bh_Number last)%Z then Ok c
  else if (bh_Number header =? u64 (bh_Number last + 1))%Z then
    c ← chain_commitBlock nonce c b; Ok (set_last c b)
  else
    PullBlock ← with_message "failed to create block puller" createPuller;
    let next := u64 (bh_Number last + 1) in
    pull_blocks nonce PullBlock c next (Z.to_nat (bh_Number header - next + 1)).

Definition process_snapshot (nonce : outcome bytes) (createPuller : outcome (Z → option FullBlock)) (c : Chain) (idx : Z)
    (b : FullBlock) : outcome Chain :=
  if (idx =? 0)%Z then or_panic (catchUp nonce createPuller c b)
  else if (idx <=? ch_appliedIndex c)%Z then Ok c
  else or_panic (catchUp nonce createPuller (set_applied c idx) b).

(** ** Starting from the ledger (consenter.go, multichannel/chainsupport.go) *)
Definition ReadBlockMetadata (blockMetadata : option Metadata) (configMetadata : ConfigMetadata) : outcome RaftMetadata :=
  let initial :=
    let n := length (cm_Consenters configMetadata) in
    mkRaftMetadata (Z.of_nat <$> seq 1 n) (Z.of_nat (S n)) 0 in
  match blockMetadata with
  | Some m =>
      if bool_decide (md_Value m = "") then Ok initial
      else from_option_err "failed to unmarshal block's metadata" (unmarshal_RaftMetadata (md_Value m))
  | None => Ok initial
  end.

Definition detectSelfID (cert : bytes) (consenters : gmap Z Consenter) : outcome Z :=
  thisNodeCertAsDER ← pemToDER cert;
  found ← foldM (λ (found : option Z) nodeID,
    match found, consenters !! nodeID with
    | Some id, _ => Ok (Some id)
    | None, Some cst =>
        certAsDER ← pemToDER (ServerTlsCert cst);
        Ok (if CertificatesWithSamePublicKey thisNodeCertAsDER certAsDER then Some nodeID else None)
    | None, None => Ok None
    end) None (consenter_range "detectSelfID" consenters);
  from_option_err "not in the channel" found.

Definition NewChain (raftID : Z) (blockMetadata : RaftMetadata) (consenters : gmap Z Consenter) (bw : BlockWriter) : outcome Chain :=
  b ← from_option_err "failed to get last block" (last (bw_ledger bw));
  Ok (mkChain raftID b (RaftIndex blockMetadata) None false 0 blockMetadata consenters NewReceiverImpl bw).

(** A node that is not among the consenters tracks the channel, if there is a
    registry of such channels: no chain then. The durations of the options are
    not read. *)
Definition HandleChain (InactiveChainRegistry : bool) (cert : bytes) (bw : BlockWriter) (metadata : option Metadata)
    : outcome (option Chain) :=
  oc ← ordererConfig (bw_support bw);
  m ← from_option_err "failed to unmarshal consensus metadata" (unmarshal_ConfigMetadata (oc_ConsensusMetadata oc));
  _ ← from_option_err "etcdraft options have not been provided" (cm_Options m);
  blockMetadata ← with_message "failed to read Raft metadata" (ReadBlockMetadata metadata m);
  consenters ← CreateConsentersMap blockMetadata (cm_Consenters m);
  match detectSelfID cert consenters with
  | Ok id => c ← NewChain id blockMetadata consenters bw; Ok (Some c)
  | Err e => if InactiveChainRegistry then Ok None else Err ("without a system channel, a follower should have been created: " +:+ e)
  | Panic e => Panic e
  end.

(** Of the consenters, this one. *)
Definition newChainSupport (InactiveChainRegistry : bool) (cert : bytes) (ledger : list FullBlock) (res : Bundle)
    : outcome (option Chain) :=
  lastBlock ← deref (last ledger);
  metadata ← with_message "error extracting orderer metadata for channel" (GetConsenterMetadataFromBlock lastBlock);
  bw ← newBlockWriter ledger lastBlock res;
  oc ← ordererConfig res;
  if negb (bool_decide (oc_ConsensusType oc = "etcdraft")) then Err "error retrieving consenter of type"
  else with_message "error creating consenter for channel" (HandleChain InactiveChainRegistry cert bw (Some metadata)).

(** ** Blocks that are created *)
Lemma createNextBlock_Ok bc envs b bc' :
  createNextBlock bc envs = Ok (b, bc') →
  ∃ h data, marshal_all marshal_Envelope envs = Ok data ∧ fb_Header b = Some h ∧ fb_Data b = Some data ∧
    fb_Metadata b = Some (replicate 5 "") ∧ h = mkBlockHeader (u64 (bc_number bc + 1)) (bc_hash bc) (BlockDataHash data) ∧
    bc' = mkBlockCreator (BlockHeaderHash h) (bh_Number h).
Proof.
  unfold createNextBlock. intros E. apply bind_Ok in E as (data & Hd & [= <- <-]). by eexists _, data.
Qed.

(** The creator stands at the header [h]. *)
Definition at_header (bc : blockCreator) (h : BlockHeader) : Prop := bc_hash bc = BlockHeaderHash h ∧ bc_number bc = bh_Number h.

Lemma createNextBlock_linked bc envs b bc' h :
  createNextBlock bc envs = Ok (b, bc') → at_header bc h → (0 ≤ bh_Number h + 1 < 2 ^ 64)%Z →
  ∃ h', fb_Header b = Some h' ∧ fb_Metadata b = Some (replicate 5 "") ∧ bh_Number h' = (bh_Number h + 1)%Z ∧
    bh_PreviousHash h' = BlockHeaderHash h ∧ at_header bc' h'.
Proof.
  intros (h' & data & _ & Hb & _ & Hm & Eh & ->)%createNextBlock_Ok [Eh1 En] Hn. exists h'. do 2 (split; [done|]).
  subst h'. cbn. rewrite En. unfold u64, wrap. rewrite Z.mod_small by lia. by rewrite Eh1.
Qed.

(** ** What is ordered *)

(** A normal message joins the pending ones, checked again if the configuration
    has advanced since; a configuration is a batch of its own after the pending
    messages, made again if the configuration has advanced. *)
Theorem ordered_sound (now : Z) (nonce : outcome bytes) (c c' : Chain) (msg : SubmitRequest) (batches : list (list Envelope))
    (pending : bool) :
  ordered now nonce c msg = Ok (batches, pending, c') →
  (isConfig (sr_Payload msg) = Ok false ∧
     List.concat batches ++ pendingBatch (ch_cutter c') = pendingBatch (ch_cutter c) ++ [sr_Payload msg] ∧
     ((sr_LastValidationSeq msg < Sequence (resources c))%Z →
        admitted payload_nil ExpiresAt NoExpirationChecks now (resources c) (Some (sr_Payload msg)))) ∨
  (isConfig (sr_Payload msg) = Ok true ∧ pending = false ∧
     (batches = [] ∧ c' = c ∨
      ∃ config, batches = (if bool_decide (pendingBatch (ch_cutter c) = []) then [] else [pendingBatch (ch_cutter c)]) ++ [[config]] ∧
        pendingBatch (ch_cutter c') = [] ∧
        ((Sequence (resources c) ≤ sr_LastValidationSeq msg)%Z → config = sr_Payload msg) ∧
        ((sr_LastValidationSeq msg < Sequence (resources c))%Z →
           admitted payload_nil ExpiresAt NoExpirationChecks now (resources c) (Some config)))).
Proof.
  unfold ordered. intros E. apply bind_Ok in E as ([] & Hc%with_message_Ok & E).
  - right. split; [done|]. apply bind_Ok in E as (payload & Hp & E). apply bind_Ok in E as (ev & _ & E).
    destruct ev; [injection E as <- <- <-; auto|]. injection E as <- <- <-. split; [done|]. right. exists payload. split_and!; [done|done| |].
    + intros Hge. rewrite (proj2 (Z.ltb_ge _ _)) in Hp by lia. by injection Hp as ->.
    + intros Hlt. rewrite (proj2 (Z.ltb_lt _ _)) in Hp by lia. apply bind_Ok in Hp as ([config sq] & Hm%with_message_Ok & [= <-]).
      unfold ProcessConfigMsg in Hm. apply bind_Ok in Hm as ([? ce] & _ & Hm). unfold ProcessConfigUpdateMsg in Hm.
      apply bind_Ok in Hm as (? & _ & Hm). apply bind_Ok in Hm as (? & _ & Hm). apply bind_Ok in Hm as (cfg & _ & Hm).
      apply bind_Ok in Hm as ([] & Hf & Hm). apply with_message_Ok, filters_Ok in Hf.
      apply bind_Ok in Hm as (? & _ & Hm). by injection Hm as <- _.
  - left. apply bind_Ok in E as (sq & Hp & E). apply bind_Ok in E as ([[bs p] r] & Ho & [= <- <- <-]). split; [done|]. split.
    + destruct (b_OrdererConfig (resources c)) as [oc|]; [|done]. apply Ordered_shape in Ho as (_ & _ & _ & _ & Econs). exact Econs.
    + intros Hlt. rewrite (proj2 (Z.ltb_lt _ _)) in Hp by lia. apply with_message_Ok in Hp. unfold ProcessNormalMsg in Hp.
      apply bind_Ok in Hp as (oc & _ & Hp). destruct (_ && _); [done|]. apply bind_Ok in Hp as ([] & Hf & _). by apply filters_Ok in Hf.
Qed.

(** *** The channel of proposals *)
Lemma createNextBlock_Ok_inv bc envs data :
  marshal_all marshal_Envelope envs = Ok data → ∃ b bc', createNextBlock bc envs = Ok (b, bc').
Proof. intros Hd. unfold createNextBlock. rewrite Hd. by eexists _, _. Qed.

(** C39: proposing the batches of one message panics exactly when they do not all fit
    into the channel. The number of blocks in flight is compared with the limit
    only after both batches of a message were sent, so that a leader with one
    place left panics on a message that is cut into two. *)
Theorem propose_overflow (MaxInflightBlocks : nat) (c : Chain) (bc : blockCreator) (ch : list FullBlock) (batches : list (list Envelope)) :
  length ch ≤ MaxInflightBlocks → (∀ batch, batch ∈ batches → is_ok (marshal_all marshal_Envelope batch) = true) →
  is_panic (propose MaxInflightBlocks c bc ch batches) = true ↔ MaxInflightBlocks < length ch + length batches.
Proof.
  revert c bc ch. induction batches as [|batch rest IH]; intros c bc ch Hle Hm; cbn [propose length].
  { cbn. split; [done|lia]. }
  destruct (marshal_all marshal_Envelope batch) as [data| |] eqn:Ed.
  2,3: by specialize (Hm batch (list_elem_of_here _ _)); rewrite Ed in Hm.
  destruct (createNextBlock_Ok_inv bc batch data Ed) as (b & bc' & ->). cbn [mbind outcome_bind].
  destruct (Nat.ltb_spec (length ch) MaxInflightBlocks).
  - rewrite IH; [rewrite length_app; cbn; lia|rewrite length_app; cbn; lia|]. intros; apply Hm. by right.
  - cbn. split; [lia|done].
Qed.

Lemma last_cons_default {A} (x d : A) (l : list A) : List.last (x :: l) d = List.last l x.
Proof. revert x d. induction l as [|y l IH]; intros x d; [done|]. change (List.last (y :: l) d = List.last (y :: l) x). by rewrite !IH. Qed.

Lemma last_app_default {A} (d : A) (l l' : list A) : List.last (l ++ l') d = List.last l' (List.last l d).
Proof. revert d. induction l as [|y l IH]; intros d; [done|]. by rewrite <- app_comm_cons, !last_cons_default. Qed.

Lemma lookup_last_default {A} (d : A) (l : list A) : (d :: l) !! length l = Some (List.last l d).
Proof. revert d. induction l as [|y l IH]; intros d; [done|]. rewrite last_cons_default. apply IH. Qed.

(** The blocks of the batches follow each other. *)
Lemma propose_linked N c bc ch batches c' bc' ch' h :
  propose N c bc ch batches = Ok (c', bc', ch') → at_header bc h →
  (0 ≤ bh_Number h)%Z → (bh_Number h + Z.of_nat (length batches) < 2 ^ 64)%Z →
  ∃ bs hs, ch' = ch ++ bs ∧ Forall2 (λ b h, fb_Header b = Some h ∧ fb_Metadata b = Some (replicate 5 "")) bs hs ∧
    linked h hs ∧ at_header bc' (List.last hs h) ∧ Forall (λ h', 0 ≤ bh_Number h' < 2 ^ 64)%Z hs.
Proof.
  revert c bc ch h. induction batches as [|batch rest IH]; intros c bc ch h E Hat Hnn Hn; cbn [propose] in E.
  - injection E as <- <- <-. exists [], []. by rewrite app_nil_r.
  - apply bind_Ok in E as ([b bc1] & Eb & E). destruct (length ch <? N); [|done]. cbn [length] in Hn.
    destruct (createNextBlock_linked _ _ _ _ _ Eb Hat) as (h1 & Hh1 & Hm1 & Hn1 & Hp1 & Hat1); [lia|].
    destruct (IH _ _ _ _ E Hat1) as (bs & hs & -> & HF & Hlk & Hat' & Hr); [lia..|].
    exists (b :: bs), (h1 :: hs). rewrite <- (assoc_L (++)), last_cons_default. split_and!; try done; constructor; try done. lia.
Qed.

(** *** Ordering leaves what is written alone *)
Definition same_ledger (c c' : Chain) : Prop :=
  ch_appliedIndex c' = ch_appliedIndex c ∧ ch_lastBlock c' = ch_lastBlock c ∧ ch_writer c' = ch_writer c.

Lemma propose_same N c bc ch batches c' bc' ch' : propose N c bc ch batches = Ok (c', bc', ch') →
  same_ledger c c' ∧ ch_BlockMetadata c' = ch_BlockMetadata c.
Proof.
  revert c bc ch. induction batches as [|batch rest IH]; intros c bc ch E; cbn [propose] in E; [by injection E as <- _ _|].
  apply bind_Ok in E as ([b bc1] & _ & E). destruct (length ch <? N); [|done]. by apply IH in E.
Qed.

Lemma ordered_same now nonce c msg batches pending c' : ordered now nonce c msg = Ok (batches, pending, c') →
  same_ledger c c' ∧ ch_BlockMetadata c' = ch_BlockMetadata c.
Proof.
  unfold ordered. intros E. apply bind_Ok in E as ([] & _ & E); apply bind_Ok in E as (? & _ & E).
  - apply bind_Ok in E as ([] & _ & E); by injection E as _ _ <-.
  - apply bind_Ok in E as ([[? ?] r] & _ & [= _ _ <-]). done.
Qed.

(** ** What is written

    The headers of the blocks of the ledger and of the one that is being
    committed, with the metadata of the consenter they carry. *)
Definition records (bw : BlockWriter) : list (option BlockHeader * outcome Metadata) :=
  ((λ b, (fb_Header b, GetConsenterMetadataFromBlock b)) <$> bw_ledger bw) ++
  match bw_committing bw with Some md => [(fb_Header (bw_lastBlock bw), Ok (mkMetadata md []))] | None => [] end.

Definition written (bw : BlockWriter) : list BlockHeader := omap fst (records bw).

(** What the encodings guarantee. *)
Record raft_laws : Prop := {
  law_metadata : metadata_laws;
  law_empty_Metadata : unmarshal_Metadata "" = Some (mkMetadata "" []);
  law_RaftMetadata m b : marshal_RaftMetadata m = Ok b → unmarshal_RaftMetadata b = Some m
}.

Section laws.
Context (L : raft_laws).

Lemma commitBlock_records nonce bw md bw' :
  commitBlock signer nonce bw md = Ok bw' → bw_committing bw = None →
  records bw' = records bw ++ [(fb_Header (bw_lastBlock bw), Ok (mkMetadata md []))] ∧ bw_committing bw' = None.
Proof.
  intros E Hn. destruct (commitBlock_Ok _ _ _ _ _ (law_metadata L) E) as (h & b & Hh & Hb & _ & _ & _ & Hm & _ & ->).
  unfold records. cbn. rewrite Hn, !app_nil_r, fmap_app. cbn. by rewrite Hm, Hb, Hh.
Qed.

Lemma wait_committed_records nonce bw bw' :
  wait_committed nonce bw = Ok bw' → records bw' = records bw ∧ bw_committing bw' = None.
Proof.
  unfold wait_committed. destruct (bw_committing bw) as [md|] eqn:Ec; [|by intros [= <-]].
  intros [-> ->]%commitBlock_records; [|done]. unfold records. cbn. by rewrite Ec, app_nil_r.
Qed.

(** The metadata is left out when the consensus type changes. *)
Lemma WriteConfigBlock_records nonce bw block md bw' :
  bw_committing bw = None →
  WriteConfigBlock unmarshal_ConfigUpdate unmarshal_ConfigUpdateEnvelope unmarshal_ConfigEnvelope signer nonce bw block md = Ok bw' →
  ∃ v, (v = md ∨ v = "") ∧ records bw' = records bw ++ [(fb_Header block, Ok (mkMetadata v []))].
Proof.
  intros Hn E.
  assert (∃ bw0 v, (v = md ∨ v = "") ∧ commitBlock signer nonce (set_lastBlock bw0 block) v = Ok bw' ∧ bw_ledger bw0 = bw_ledger bw ∧
    bw_committing bw0 = None) as (bw0 & v & Hv & Hc & El & Ec).
  { unfold WriteConfigBlock in E. apply bind_Ok in E as (? & _ & E). apply bind_Ok in E as (? & _ & E).
    apply bind_Ok in E as (? & _ & E). apply bind_Ok in E as (? & _ & E). case_bool_decide.
    - apply bind_Ok in E as (? & _ & E). eexists _, _. split; [by left|done].
    - case_bool_decide; [|done]. apply bind_Ok in E as (? & _ & E). apply bind_Ok in E as (? & _ & E).
      apply bind_Ok in E as (? & _ & E). apply bind_Ok in E as (? & _ & E). apply bind_Ok in E as (? & _ & E).
      apply bind_Ok in E as (bw1 & Hu & E). unfold update_bundle in Hu. apply bind_Ok in Hu as (? & _ & [= <-]).
      eexists _, _. split; [|done]. destruct (negb _); auto. }
  apply commitBlock_records in Hc as [-> _]; [|done]. exists v. split; [done|]. unfold records. cbn. by rewrite Ec, El, Hn.
Qed.

Lemma support_WriteConfigBlock_records nonce c block md bw :
  support_WriteConfigBlock nonce c block md = Ok bw →
  ∃ v, (v = md ∨ v = "") ∧ records bw = records (ch_writer c) ++ [(fb_Header block, Ok (mkMetadata v []))].
Proof.
  unfold support_WriteConfigBlock. intros E. apply bind_Ok in E as (bw1 & [<- Hn]%wait_committed_records & E).
  by apply WriteConfigBlock_records in E.
Qed.

(** *** The index of Raft that is recorded *)
Lemma match_consenters_index cur i new r k :
  RaftIndex (NewBlockMetadata (match_consenters cur i new r k).1) = RaftIndex (NewBlockMetadata r).
Proof.
  revert i r k. induction new as [|a new IH]; intros i [[ids next idx] cs added removed cc rot] k; [done|]. cbn [match_consenters].
  destruct (cur !! ClientTlsCert a); by rewrite IH.
Qed.

Lemma ComputeMembershipChanges_index md old new mc :
  ComputeMembershipChanges md old new = Ok mc → RaftIndex (NewBlockMetadata mc) = RaftIndex md.
Proof.
  unfold ComputeMembershipChanges. intros E.
  match type of E with context [match_consenters ?a ?b ?c ?d ?e] =>
    pose proof (match_consenters_index a b c d e) as Hi; destruct (match_consenters a b c d e) as [[[ids next idx] cs added r cc rot] k] end.
  destruct (removed_consenters old (ConsentersToMap new)) as [removed d]. cbn in Hi.
  destruct added as [|? [|]], removed as [|? [|]]; try done; by injection E as <-.
Qed.

Lemma detectConfChange_index c block mc :
  detectConfChange c block = Ok (Some mc) → RaftIndex (NewBlockMetadata mc) = RaftIndex (ch_BlockMetadata c).
Proof.
  unfold detectConfChange. intros E. apply bind_Ok in E as ([md|] & _ & E); [|done].
  apply bind_Ok in E as (ch & Hc%or_panic_Ok & [= <-]). by apply ComputeMembershipChanges_index in Hc.
Qed.

(** A block that is written next carries the metadata of the chain, which names
    the index of the block or an earlier one, or none. *)
Definition extends (c c' : Chain) (block : FullBlock) (idx : Z) : Prop :=
  ch_appliedIndex c' = ch_appliedIndex c ∧
  (RaftIndex (ch_BlockMetadata c') = idx ∨ RaftIndex (ch_BlockMetadata c') = RaftIndex (ch_BlockMetadata c)) ∧
  ∃ v, (marshal_RaftMetadata (ch_BlockMetadata c') = Ok v ∨ v = "") ∧
    records (ch_writer c') = records (ch_writer c) ++ [(fb_Header block, Ok (mkMetadata v []))].

Lemma writeConfigBlock_extends nonce c block idx c' :
  writeConfigBlock nonce c block idx = Ok c' → extends c c' block idx ∧ ch_lastBlock c' = ch_lastBlock c.
Proof.
  unfold writeConfigBlock. intros E. apply bind_Ok in E as (hdr & _ & E). case_bool_decide.
  - apply bind_Ok in E as (cm & Hcm & E).
    assert (∃ md consenters, match cm with Some mc => (NewBlockMetadata mc, NewConsenters mc)
      | None => (set_RaftIndex (ch_BlockMetadata c) idx, ch_Consenters c) end = (md, consenters) ∧
      (RaftIndex md = idx ∨ RaftIndex md = RaftIndex (ch_BlockMetadata c))) as (md & consenters & Em & Hi).
    { destruct cm as [mc|]; [|by eexists _, _; split; [done|left]]. eexists _, _. split; [done|right]. by apply detectConfChange_index in Hcm. }
    cbn [ch_BlockMetadata ch_Consenters] in E. rewrite Em in E. apply bind_Ok in E as (v & Hv%or_panic_Ok & E).
    apply bind_Ok in E as (bw & (v' & Hv' & Hb)%support_WriteConfigBlock_records & E).
    destruct (match cm ≫= mc_ConfChange with Some cc => _ | None => _ end) as [cc inflight]. injection E as <-.
    split; [|done]. split_and!; [done|done|]. exists v'. split; [|done]. destruct Hv' as [->| ->]; auto.
  - case_bool_decide; [|done]. apply bind_Ok in E as (v & Hv%or_panic_Ok & E).
    apply bind_Ok in E as (bw & (v' & Hv' & Hb)%support_WriteConfigBlock_records & [= <-]). split; [|done].
    split_and!; [done|by left|]. exists v'. split; [|done]. destruct Hv' as [->| ->]; auto.
Qed.

(** A block after the last one is written; one that is not is passed over. *)
Lemma writeBlock_extends nonce c block idx c' h last :
  writeBlock nonce c block idx = Ok c' → fb_Header block = Some h → fb_Header (ch_lastBlock c) = Some last →
  bh_Number h = u64 (bh_Number last + 1) ∧ ch_lastBlock c' = block ∧ extends c c' block idx ∨
  (bh_Number h < u64 (bh_Number last + 1))%Z ∧ c' = c.
Proof.
  intros E Hh Hl. unfold writeBlock in E. rewrite Hh, Hl in E. cbn [deref mbind outcome_bind] in E.
  destruct (Z.ltb_spec (u64 (bh_Number last + 1)) (bh_Number h)); [done|].
  destruct (Z.ltb_spec (bh_Number h) (u64 (bh_Number last + 1))); [injection E as <-; by right|].
  left. split; [lia|]. destruct (IsConfigBlock (plain block)).
  - by apply writeConfigBlock_extends in E as [? ?].
  - apply bind_Ok in E as (v & Hv%or_panic_Ok & E). apply bind_Ok in E as (bw & [Hr Hn]%wait_committed_records & [= <-]).
    split; [done|]. split_and!; [done|by left|]. exists v. split; [by left|]. cbn in *. rewrite <- Hr. unfold records, WriteBlock. cbn.
    by rewrite Hn, app_nil_r.
Qed.

Lemma chain_commitBlock_Ok nonce c block c' :
  chain_commitBlock nonce c block = Ok c' →
  ch_appliedIndex c' = ch_appliedIndex c ∧ RaftIndex (ch_BlockMetadata c') = RaftIndex (ch_BlockMetadata c) ∧
  ∃ m v, GetConsenterMetadataFromBlock block = Ok m ∧ (v = md_Value m ∨ v = "") ∧
    records (ch_writer c') = records (ch_writer c) ++ [(fb_Header block, Ok (mkMetadata v []))].
Proof.
  unfold chain_commitBlock. intros E. apply bind_Ok in E as (m & Hm%or_panic_Ok & E). destruct (IsConfigBlock (plain block)); cbn [negb] in E.
  - apply bind_Ok in E as (bw & (v & Hv & Hb)%support_WriteConfigBlock_records & E). apply bind_Ok in E as (cm & Hcm & [= <-]).
    destruct cm as [mc|]; [destruct (Changed mc)|]; cbn; split_and!; try done; try (by exists m, v). by apply detectConfChange_index in Hcm.
  - apply bind_Ok in E as (bw & [Hr Hn]%wait_committed_records & [= <-]). cbn. split_and!; [done..|]. exists m, (md_Value m).
    split_and!; [done|by left|]. rewrite <- Hr. unfold records, WriteBlock. cbn. by rewrite Hn, app_nil_r.
Qed.
Lemma fresh_block_metadata b : fb_Metadata b = Some (replicate 5 "") → GetConsenterMetadataFromBlock b = Ok (mkMetadata "" []).
Proof. intros Hb. unfold GetConsenterMetadataFromBlock, GetMetadataFromBlock. rewrite Hb. cbn. by rewrite (law_empty_Metadata L). Qed.

Lemma newChainSupport_Ok inactive cert ledger res c :
  newChainSupport inactive cert ledger res = Ok (Some c) →
  ∃ b m cm, last ledger = Some b ∧ GetConsenterMetadataFromBlock b = Ok m ∧ ReadBlockMetadata (Some m) cm = Ok (ch_BlockMetadata c) ∧
    ch_lastBlock c = b ∧ ch_appliedIndex c = RaftIndex (ch_BlockMetadata c) ∧ bw_ledger (ch_writer c) = ledger ∧
    bw_committing (ch_writer c) = None.
Proof.
  unfold newChainSupport. intros E. apply bind_Ok in E as (b & Hb%deref_Ok & E). apply bind_Ok in E as (m & Hm%with_message_Ok & E).
  apply bind_Ok in E as (bw & Hbw & E). apply bind_Ok in E as (oc & _ & E). destruct (negb _); [done|]. apply with_message_Ok in E.
  unfold newBlockWriter in Hbw. apply bind_Ok in Hbw as (? & _ & Hbw). apply bind_Ok in Hbw as (? & _ & [= <-]).
  unfold HandleChain in E. apply bind_Ok in E as (? & _ & E). apply bind_Ok in E as (cm & _ & E). apply bind_Ok in E as (? & _ & E).
  apply bind_Ok in E as (md & Hmd%with_message_Ok & E). apply bind_Ok in E as (cs & _ & E).
  destruct (detectSelfID cert cs) as [id| |]; [|by destruct inactive|done]. apply bind_Ok in E as (c1 & Hc & [= <-]).
  unfold NewChain in Hc. cbn in Hc. rewrite Hb in Hc. injection Hc as <-. by exists b, m, cm.
Qed.

(** C38: A node that misses one block takes it from the snapshot, where it is as it
    was proposed, without metadata: started again after that it numbers the
    consenters anew, whatever their numbers were. *)
Theorem snapshot_restart_renumbers (nonce nonce' : outcome bytes) (createPuller : outcome (Z → option FullBlock)) (c c' c'' : Chain)
    (bc bc' : blockCreator) (envs : list Envelope) (b : FullBlock) (h tip : BlockHeader) (bw : BlockWriter) (res : Bundle) (cert : bytes)
    (inactive : bool) :
  createNextBlock bc envs = Ok (b, bc') → fb_Header b = Some h → fb_Header (ch_lastBlock c) = Some tip →
  (0 ≤ bh_Number tip)%Z → bh_Number h = (bh_Number tip + 1)%Z → (bh_Number h < 2 ^ 64)%Z →
  catchUp nonce createPuller c b = Ok c' → wait_committed nonce' (ch_writer c') = Ok bw →
  newChainSupport inactive cert (bw_ledger bw) res = Ok (Some c'') →
  ∃ n, ch_BlockMetadata c'' = mkRaftMetadata (Z.of_nat <$> seq 1 n) (Z.of_nat (S n)) 0 ∧ ch_appliedIndex c'' = 0%Z.
Proof.
  intros (h' & ? & _ & _ & _ & Hs & _)%createNextBlock_Ok Hh Hl Hnn Hn Hr E Hw Hnew.
  apply fresh_block_metadata in Hs. unfold catchUp in E. rewrite Hh, Hl in E. cbn [deref mbind outcome_bind] in E.
  rewrite (proj2 (Z.leb_gt _ _)) in E by lia. unfold u64, wrap in E. rewrite Z.mod_small, (proj2 (Z.eqb_eq _ _)) in E by lia.
  apply bind_Ok in E as (c1 & (_ & _ & m & v & Hm & Hv & Hrec)%chain_commitBlock_Ok & [= <-]).
  rewrite Hs in Hm. injection Hm as <-. assert (v = "") as -> by (by destruct Hv).
  apply wait_committed_records in Hw as [Hw Hc]. cbn [ch_writer set_last] in Hw. rewrite Hrec in Hw.
  unfold records at 1 in Hw. rewrite Hc, app_nil_r in Hw.
  apply newChainSupport_Ok in Hnew as (b' & m & cm & Hlast & Hm & Hread & _ & Happ & _).
  assert (Ok m = Ok (mkMetadata "" [])) as [= ->].
  { rewrite <- Hm. apply (f_equal last) in Hw. rewrite last_snoc, fmap_last, Hlast in Hw. by injection Hw. }
  cbn in Hread. injection Hread as Hread. eexists. rewrite Happ, <- Hread. done.
Qed.
(** ** A cluster

    The log of Raft, how much of it is committed, the nodes, and the leader that
    serves, with its creator of blocks and the channel of the blocks it has
    proposed that are not in the log yet. The entry at position [k] has index
    [k + 1]. Committed entries are never lost; entries that are not may be when
    the leader changes, and the blocks in the channel are. *)
Record cluster := mkCluster {
  cl_log : list raft_entry;
  cl_commit : nat;
  cl_nodes : gmap Z Chain;
  cl_leader : option (Z * blockCreator * list FullBlock)
}.

(** The [n] entries of the log after the first [k]. *)
Definition entries_at (log : list raft_entry) (k n : nat) : list (Z * raft_entry) :=
  imap (λ i e, (Z.of_nat (k + S i), e)) (take n (drop k log)).

(** A block of the ledger of a node. *)
Definition peer_block (nodes : gmap Z Chain) (n : nat) (b : FullBlock) : Prop :=
  ∃ id c, nodes !! id = Some c ∧ bw_ledger (ch_writer c) !! n = Some b.

(** A snapshot of the log holds the last block before its index; one made up, of
    index 0, a block of another node. *)
Definition snapshot_of (log : list raft_entry) (commit : nat) (nodes : gmap Z Chain) (idx : Z) (b : FullBlock) : Prop :=
  (∃ s, idx = Z.of_nat s ∧ 0 < s ≤ commit ∧ last (log_blocks (take s log)) = Some b) ∨ (idx = 0%Z ∧ ∃ n, peer_block nodes n b).

Inductive cluster_step (MaxInflightBlocks : nat) : cluster → cluster → Prop :=
(** A node is given committed entries. *)
| cs_apply log commit nodes leader id c k n nonce c' :
    nodes !! id = Some c → k + n ≤ commit → apply nonce c (entries_at log k n) = Ok c' →
    cluster_step MaxInflightBlocks (mkCluster log commit nodes leader) (mkCluster log commit (<[id := c']> nodes) leader)
(** The goroutine that writes a block finishes. *)
| cs_committed log commit nodes leader id c nonce bw :
    nodes !! id = Some c → wait_committed nonce (ch_writer c) = Ok bw →
    cluster_step MaxInflightBlocks (mkCluster log commit nodes leader) (mkCluster log commit (<[id := set_writer c bw]> nodes) leader)
| cs_commit log commit nodes leader :
    commit < length log →
    cluster_step MaxInflightBlocks (mkCluster log commit nodes leader) (mkCluster log (S commit) nodes leader)
(** A new leader serves once it has applied all of its log. *)
| cs_serve log commit nodes leader id c m bc :
    commit ≤ m ≤ length log → nodes !! id = Some c → ch_appliedIndex c = Z.of_nat m → start_serving c = Ok bc →
    cluster_step MaxInflightBlocks (mkCluster log commit nodes leader) (mkCluster (take m log) commit nodes (Some (id, bc, [])))
(** The leader orders a message. *)
| cs_order log commit nodes id bc ch c now nonce msg batches pending c1 c2 bc' ch' :
    nodes !! id = Some c → ordered now nonce c msg = Ok (batches, pending, c1) →
    propose MaxInflightBlocks c1 bc ch batches = Ok (c2, bc', ch') →
    (bc_number bc + Z.of_nat (length batches) < 2 ^ 64)%Z →
    cluster_step MaxInflightBlocks (mkCluster log commit nodes (Some (id, bc, ch)))
      (mkCluster log commit (<[id := c2]> nodes) (Some (id, bc', ch')))
(** The batch timer of the leader expires. *)
| cs_timer log commit nodes id bc ch c batch r c2 bc' ch' :
    nodes !! id = Some c → Cut (ch_cutter c) = (batch, r) → batch ≠ [] →
    propose MaxInflightBlocks (set_cutter c r) bc ch [batch] = Ok (c2, bc', ch') → (bc_number bc + 1 < 2 ^ 64)%Z →
    cluster_step MaxInflightBlocks (mkCluster log commit nodes (Some (id, bc, ch)))
      (mkCluster log commit (<[id := c2]> nodes) (Some (id, bc', ch')))
(** A block of the channel is given to Raft. *)
| cs_send log commit nodes id bc b ch :
    cluster_step MaxInflightBlocks (mkCluster log commit nodes (Some (id, bc, b :: ch)))
      (mkCluster (log ++ [EntryNormal b]) commit nodes (Some (id, bc, ch)))
(** Entries without a block: those of a new leader, changes of the membership. *)
| cs_append log commit nodes leader e :
    (∀ b, e ≠ EntryNormal b) →
    cluster_step MaxInflightBlocks (mkCluster log commit nodes leader) (mkCluster (log ++ [e]) commit nodes leader)
(** The leader steps down. *)
| cs_lose log commit nodes id bc ch c m :
    commit ≤ m → nodes !! id = Some c →
    cluster_step MaxInflightBlocks (mkCluster log commit nodes (Some (id, bc, ch)))
      (mkCluster (take m log) commit (<[id := becomeFollower c]> nodes) None)
(** A node that does not serve stops at any moment, and starts from its ledger. *)
| cs_restart log commit nodes leader id c inactive cert res c' :
    nodes !! id = Some c → (∀ bc ch, leader ≠ Some (id, bc, ch)) →
    newChainSupport inactive cert (bw_ledger (ch_writer c)) res = Ok (Some c') →
    cluster_step MaxInflightBlocks (mkCluster log commit nodes leader) (mkCluster log commit (<[id := c']> nodes) leader)
(** A node is given a snapshot; it pulls blocks from the others. *)
| cs_snapshot log commit nodes leader id c nonce createPuller idx b c' :
    nodes !! id = Some c → snapshot_of log commit nodes idx b →
    (∀ PullBlock n b', createPuller = Ok PullBlock → PullBlock n = Some b' → peer_block nodes (Z.to_nat n) b') →
    process_snapshot nonce createPuller c idx b = Ok c' →
    cluster_step MaxInflightBlocks (mkCluster log commit nodes leader) (mkCluster log commit (<[id := c']> nodes) leader).

(** *** The log *)
Definition log_headers (log : list raft_entry) : list BlockHeader := omap fb_Header (log_blocks log).

Lemma log_blocks_app log log' : log_blocks (log ++ log') = log_blocks log ++ log_blocks log'.
Proof. apply omap_app. Qed.
Lemma log_headers_app log log' : log_headers (log ++ log') = log_headers log ++ log_headers log'.
Proof. unfold log_headers. by rewrite log_blocks_app, omap_app. Qed.

Definition proposed (b : FullBlock) : Prop := is_Some (fb_Header b) ∧ fb_Metadata b = Some (replicate 5 "").

Record log_ok (g : BlockHeader) (log : list raft_entry) : Prop := {
  lo_linked : linked g (log_headers log);
  lo_blocks : Forall proposed (log_blocks log);
  lo_range : Forall (λ h, 0 ≤ bh_Number h < 2 ^ 64)%Z (log_headers log)
}.

Lemma log_ok_app_l g log log' : log_ok g (log ++ log') → log_ok g log.
Proof.
  intros [Hl Hb Hr]. rewrite log_headers_app in Hl, Hr. rewrite log_blocks_app in Hb.
  apply linked_app in Hl as [? _]. by apply Forall_app in Hb as [? _], Hr as [? _].
Qed.

Lemma log_ok_take g log log' m : log_ok g (log ++ log') → log_ok g (take m log).
Proof. intros Hok%log_ok_app_l. rewrite <- (take_drop m log) in Hok. by apply log_ok_app_l in Hok. Qed.

Lemma log_blocks_normal bs : log_blocks (EntryNormal <$> bs) = bs.
Proof. induction bs as [|b bs IH]; [done|]. unfold log_blocks in *. cbn. by f_equal. Qed.

Lemma headers_of_blocks (P : FullBlock → Prop) bs hs :
  Forall2 (λ b h, fb_Header b = Some h ∧ P b) bs hs → log_headers (EntryNormal <$> bs) = hs.
Proof. unfold log_headers. rewrite log_blocks_normal. induction 1 as [|b h bs hs [Hb _] _ IH]; cbn; [done|]. rewrite Hb. by f_equal. Qed.

Lemma log_ok_blocks g log bs hs :
  log_ok g log → Forall2 (λ b h, fb_Header b = Some h ∧ fb_Metadata b = Some (replicate 5 "")) bs hs →
  linked (List.last (log_headers log) g) hs → Forall (λ h, 0 ≤ bh_Number h < 2 ^ 64)%Z hs → log_ok g (log ++ (EntryNormal <$> bs)).
Proof.
  intros [Hl Hb Hr] HF Hlk Hrs. pose proof (headers_of_blocks _ _ _ HF) as Eh. split.
  - by rewrite log_headers_app, Eh, linked_app.
  - rewrite log_blocks_app, log_blocks_normal, Forall_app. split; [done|]. clear -HF.
    induction HF as [|b h bs hs [Hb Hm] _ IH]; constructor; [|done]. split; [by exists h|done].
  - by rewrite log_headers_app, Eh, Forall_app.
Qed.

Lemma blocks_skip log e log' : (∀ b, e ≠ EntryNormal b) → log_blocks ((log ++ [e]) ++ log') = log_blocks (log ++ log').
Proof. intros He. rewrite !log_blocks_app. destruct e as [b| |]; [by destruct (He b)|..]; by rewrite app_nil_r. Qed.

Lemma log_ok_skip g log e log' : (∀ b, e ≠ EntryNormal b) → log_ok g (log ++ log') → log_ok g ((log ++ [e]) ++ log').
Proof. intros He [Hl Hb Hr]. unfold log_headers in *. split; unfold log_headers; by rewrite blocks_skip. Qed.

#[local] Arguments log_headers : simpl never.

Lemma entries_at_S log k n e :
  log !! k = Some e → entries_at log k (S n) = (Z.of_nat (S k), e) :: entries_at log (S k) n.
Proof.
  intros He. unfold entries_at. rewrite (drop_S _ _ _ He). cbn. f_equal; [do 2 f_equal; lia|].
  apply imap_ext. intros i x _. cbn. do 2 f_equal. lia.
Qed.

Lemma entries_at_snd log k n : snd <$> entries_at log k n = take n (drop k log).
Proof. unfold entries_at. rewrite fmap_imap. apply list_eq. intros i. rewrite list_lookup_imap. by destruct (take n (drop k log) !! i). Qed.

Lemma apply_entry_index nonce c idx e c' : apply_entry nonce c idx e = Ok c' → ch_appliedIndex c' = Z.max (ch_appliedIndex c) idx.
Proof.
  unfold apply_entry. intros E. apply bind_Ok in E as (c1 & E1 & [= <-]).
  assert (ch_appliedIndex c1 = ch_appliedIndex c) as Ha.
  { destruct e as [b| |cc]; [|by injection E1 as <-|].
    - destruct (idx <=? ch_appliedIndex c)%Z; [by injection E1 as <-|]. pose proof E1 as E2. unfold writeBlock in E2.
      apply bind_Ok in E2 as (h & Hh%deref_Ok & E2). apply bind_Ok in E2 as (l & Hl%deref_Ok & _).
      by destruct (writeBlock_extends _ _ _ _ _ _ _ E1 Hh Hl) as [(_ & _ & ? & _)|[_ ->]].
    - destruct (ch_confChangeInProgress c) as [p|]; [destruct (_ && _)|]; by injection E1 as <-. }
  destruct (Z.ltb_spec (ch_appliedIndex c1) idx); cbn; lia.
Qed.

Lemma applied_max log n k nonce c c' :
  k + S n ≤ length log → apply nonce c (entries_at log k (S n)) = Ok c' →
  ch_appliedIndex c' = Z.max (ch_appliedIndex c) (Z.of_nat (k + S n)).
Proof.
  intros Hlen E. assert (foldM (λ c '(idx, e), apply_entry nonce c idx e) c (entries_at log k (S n)) = Ok c') as Ef.
  { destruct (lookup_lt_is_Some_2 log k) as [e He]; [lia|]. unfold apply in E. rewrite (entries_at_S _ _ _ _ He) in *. by destruct (_ <? _)%Z. }
  clear E. revert k c Hlen Ef. induction n as [|n IH]; intros k c Hlen E; (destruct (lookup_lt_is_Some_2 log k) as [e He]; [lia|]);
    rewrite (entries_at_S _ _ _ _ He) in E; cbn [foldM] in E;
    (destruct (apply_entry nonce c (Z.of_nat (S k)) e) as [c1| |] eqn:E1; [|done..]); apply apply_entry_index in E1.
  - injection E as <-. rewrite E1. f_equal. lia.
  - apply IH in E; lia.
Qed.

(** *** Nodes

    What a node holds is a number of the blocks of the committed entries [log],
    at least those up to the index it has applied and, for every block, up to the
    index that is recorded with it. *)
Section nodes.
Context (g : BlockHeader) (Hg : bh_Number g = 0%Z).

Lemma linked_lookup hs m h : linked g hs → (g :: hs) !! m = Some h → bh_Number h = Z.of_nat m.
Proof.
  intros Hl. destruct m as [|m]; [intros [= <-]; lia|]. cbn. intros Hm.
  rewrite <- (take_drop_middle _ _ _ Hm) in Hl. apply linked_app in Hl as [Hl1 (Hn & _)]. apply linked_number in Hl1.
  apply lookup_lt_Some in Hm. rewrite length_take in Hl1. lia.
Qed.

Definition covers (log : list raft_entry) (r : Z) (n : nat) : Prop :=
  ∃ k, r = Z.of_nat k ∧ k ≤ length log ∧ length (log_headers (take k log)) ≤ n.

Definition recorded (log : list raft_entry) (n : nat) (om : outcome Metadata) : Prop :=
  ∀ m cm md, om = Ok m → ReadBlockMetadata (Some m) cm = Ok md → covers log (RaftIndex md) n.

Record node_at (log : list raft_entry) (n : nat) (c : Chain) : Prop := {
  na_length : n ≤ length (log_headers log);
  na_headers : fst <$> records (ch_writer c) = Some <$> (g :: take n (log_headers log));
  na_last : fb_Header (ch_lastBlock c) = (g :: log_headers log) !! n;
  na_index : covers log (RaftIndex (ch_BlockMetadata c)) n;
  na_recorded i r : records (ch_writer c) !! i = Some r → recorded log i r.2
}.

Definition node_ok (log : list raft_entry) (c : Chain) : Prop := ∃ n, node_at log n c ∧ covers log (ch_appliedIndex c) n.

Lemma covers_mono log log' r n n' : log `prefix_of` log' → n ≤ n' → covers log r n → covers log' r n'.
Proof.
  intros [l ->] Hn (k & -> & Hk & Hl). exists k. split; [done|]. rewrite length_app, take_app_le by done. lia.
Qed.

Lemma covers_0 log n : covers log 0 n.
Proof. exists 0. split_and!; [done|lia|exact (Nat.le_0_l n)]. Qed.

Lemma recorded_empty log n m : md_Value m = "" → recorded log n (Ok m).
Proof. intros Hm m' cm md [= <-] Hr. unfold ReadBlockMetadata in Hr. rewrite bool_decide_eq_true_2 in Hr by done. injection Hr as <-. apply covers_0. Qed.

Lemma recorded_value log n m m' : md_Value m = md_Value m' → recorded log n (Ok m) → recorded log n (Ok m').
Proof. intros Hv Hr ? cm md [= <-] E. eapply Hr; [done|]. unfold ReadBlockMetadata in *. by rewrite Hv. Qed.

Lemma recorded_marshalled log n md v : marshal_RaftMetadata md = Ok v → covers log (RaftIndex md) n → recorded log n (Ok (mkMetadata v [])).
Proof.
  intros Hv%(law_RaftMetadata L) Hc. destruct (decide (v = "")) as [->|Hne]; [by apply recorded_empty|].
  intros m cm md' [= <-] E. unfold ReadBlockMetadata in E. cbn in E. rewrite bool_decide_eq_false_2 in E by done. rewrite Hv in E.
  by injection E as <-.
Qed.

Lemma node_ok_mono log log' c : log `prefix_of` log' → node_ok log c → node_ok log' c.
Proof.
  intros Hp (n & [Hl Hh Hla Hi Hr] & Hc). pose proof Hp as [l ->]. exists n. split; [|by eapply covers_mono].
  pose proof (take_app_le (log_headers log) (log_headers l) n Hl) as Et. split.
  - rewrite log_headers_app, length_app. lia.
  - by rewrite log_headers_app, Et.
  - rewrite log_headers_app, app_comm_cons, lookup_app_l; [done|]. cbn. lia.
  - by eapply covers_mono.
  - intros i r Hir m cm md E Em. eapply covers_mono; [done|done|]. by eapply Hr.
Qed.

(** A chain with the same ledger. *)
Lemma node_at_same log n c c' : ch_writer c' = ch_writer c → ch_lastBlock c' = ch_lastBlock c →
  RaftIndex (ch_BlockMetadata c') = RaftIndex (ch_BlockMetadata c) → node_at log n c → node_at log n c'.
Proof. intros Ew El Em [? ? ? ? ?]. split; by rewrite ?Ew, ?El, ?Em. Qed.

(** The next block is appended. *)
Lemma node_at_append log n c c' h om :
  node_at log n c → (g :: log_headers log) !! S n = Some h → fb_Header (ch_lastBlock c') = Some h →
  records (ch_writer c') = records (ch_writer c) ++ [(Some h, om)] →
  covers log (RaftIndex (ch_BlockMetadata c')) (S n) → recorded log (S n) om → node_at log (S n) c'.
Proof.
  intros [Hl Hh Hla Hi Hr] Hn Hlast Hrec Hi' Hom. assert (length (records (ch_writer c)) = S n) as Elen.
  { apply (f_equal length) in Hh. rewrite !length_fmap in Hh. cbn in Hh. rewrite length_take in Hh. lia. }
  split.
  - apply lookup_lt_Some in Hn. cbn in Hn. lia.
  - rewrite Hrec, fmap_app, Hh. cbn in Hn. by rewrite (take_S_r _ _ _ Hn), app_comm_cons, fmap_app.
  - by rewrite Hlast.
  - done.
  - rewrite Hrec. intros i r Hir. apply lookup_app_Some in Hir as [Hir|[Hge Hir]]; [by eapply Hr|].
    apply list_lookup_singleton_Some in Hir as [Hi0 <-]. by replace i with (S n) by lia.
Qed.

(** *** Applying entries *)
Lemma block_position log p b :
  log_ok g log → log !! p = Some (EntryNormal b) →
  ∃ h, fb_Header b = Some h ∧ (g :: log_headers log) !! S (length (log_headers (take p log))) = Some h ∧
    bh_Number h = Z.of_nat (S (length (log_headers (take p log)))) ∧
    length (log_headers (take (S p) log)) = S (length (log_headers (take p log))).
Proof.
  intros Hok Hp. assert (b ∈ log_blocks log) as Hin.
  { apply list_elem_of_omap. exists (EntryNormal b). split; [by apply list_elem_of_lookup_2 in Hp|done]. }
  pose proof (lo_blocks _ _ Hok) as Hb. rewrite Forall_forall in Hb. destruct (Hb b Hin) as [[h Hh] _].
  assert (log_headers [EntryNormal b] = [h]) as Eh by (unfold log_headers; cbn; by rewrite Hh).
  assert ((g :: log_headers log) !! S (length (log_headers (take p log))) = Some h) as Hl.
  { assert (log_headers log = log_headers (take p log) ++ [h] ++ log_headers (drop (S p) log)) as ->.
    { rewrite <- Eh, <- !log_headers_app. by rewrite <- (take_drop_middle _ _ _ Hp) at 1. }
    rewrite lookup_cons_ne_0 by done. by apply list_lookup_middle. }
  exists h. split_and!; [done|done| |].
  - eapply linked_lookup; [apply Hok|done].
  - rewrite (take_S_r _ _ _ Hp), log_headers_app, Eh, length_app. cbn. lia.
Qed.

Lemma headers_range log n h : log_ok g log → (g :: log_headers log) !! n = Some h → (0 ≤ bh_Number h < 2 ^ 64)%Z.
Proof.
  intros Hok Hn. destruct n as [|n]; [injection Hn as <-; lia|]. cbn in Hn. apply list_elem_of_lookup_2 in Hn.
  pose proof (lo_range _ _ Hok) as Hr. rewrite Forall_forall in Hr. exact (Hr h Hn).
Qed.

Lemma extends_node log n c c' block h idx :
  node_at log n c → extends c c' block idx → fb_Header block = Some h → ch_lastBlock c' = block →
  (g :: log_headers log) !! S n = Some h → covers log idx (S n) → node_at log (S n) c'.
Proof.
  intros Hc (_ & Hi & v & Hv & Hrec) Hb Hl Hn Hcov. rewrite Hb in Hrec.
  assert (covers log (RaftIndex (ch_BlockMetadata c')) (S n)) as Hi'.
  { destruct Hi as [-> | ->]; [done|]. eapply covers_mono; [done| |apply (na_index _ _ _ Hc)]. lia. }
  eapply node_at_append; [done|done|by rewrite Hl|done|done|].
  destruct Hv as [Hv| ->]; [by eapply recorded_marshalled|by apply recorded_empty].
Qed.

(** A block that is not yet applied is written, or has been. *)
Lemma block_applied log n nonce c b p c' :
  log_ok g log → node_at log n c → log !! p = Some (EntryNormal b) → length (log_headers (take p log)) ≤ n →
  writeBlock nonce c b (Z.of_nat (S p)) = Ok c' →
  ∃ n', node_at log n' c' ∧ ch_appliedIndex c' = ch_appliedIndex c ∧ n ≤ n' ∧ length (log_headers (take (S p) log)) ≤ n'.
Proof.
  intros Hok Hc Hp Hcov E. destruct (block_position _ _ _ Hok Hp) as (h & Hh & Hl & Hnum & Elen).
  pose proof (na_last _ _ _ Hc) as Hlast. destruct (fb_Header (ch_lastBlock c)) as [last|] eqn:El.
  2: { symmetry in Hlast. apply lookup_ge_None in Hlast. cbn in Hlast. pose proof (na_length _ _ _ Hc). lia. }
  symmetry in Hlast. pose proof (headers_range _ _ _ Hok Hlast). pose proof (linked_lookup _ _ _ (lo_linked _ _ Hok) Hlast) as Hlnum.
  destruct (writeBlock_extends _ _ _ _ _ _ _ E Hh El) as [(Hw & Hlb & Hext)|[Hw ->]]; unfold u64, wrap in Hw.
  - assert (n = length (log_headers (take p log))) as En.
    { destruct (decide (bh_Number last + 1 = 2 ^ 64)%Z) as [Eq|Hne]; [rewrite Eq, Z_mod_same_full in Hw; lia|].
      rewrite Z.mod_small in Hw by lia. lia. }
    exists (S n). split_and!; [|apply Hext|lia|lia]. eapply extends_node; [done..| |]; [by rewrite En|].
    exists (S p). split_and!; [done|apply lookup_lt_Some in Hp; lia|lia].
  - exists n. split_and!; [done..|]. rewrite Elen. pose proof (Z.mod_le (bh_Number last + 1) (2 ^ 64)). lia.
Qed.

Lemma other_applied log n nonce c e p c' k :
  node_at log n c → log !! p = Some e → (∀ b, e ≠ EntryNormal b) → k ≤ n → length (log_headers (take p log)) ≤ k →
  apply_entry nonce c (Z.of_nat (S p)) e = Ok c' →
  ∃ c1, c' = (if (ch_appliedIndex c1 <? Z.of_nat (S p))%Z then set_applied c1 (Z.of_nat (S p)) else c1) ∧
    node_at log n c1 ∧ ch_appliedIndex c1 = ch_appliedIndex c ∧ length (log_headers (take (S p) log)) ≤ n.
Proof.
  intros Hc Hp He Hk Hcov E. unfold apply_entry in E. apply bind_Ok in E as (c1 & E1 & [= <-]). exists c1. split; [done|].
  assert (length (log_headers (take (S p) log)) ≤ n).
  { rewrite (take_S_r _ _ _ Hp), log_headers_app. destruct e; [by destruct (He block)|..]; rewrite app_nil_r; lia. }
  destruct e as [b| |cc]; [by destruct (He b)|by injection E1 as <-|].
  destruct (ch_confChangeInProgress c) as [p'|]; [destruct (_ && _)|]; injection E1 as <-; try done.
  split_and!; [|done..]. by eapply node_at_same; [..|exact Hc].
Qed.

Lemma entry_applied log p e nonce c c' :
  log_ok g log → node_ok log c → log !! p = Some e → (Z.of_nat p ≤ ch_appliedIndex c)%Z →
  apply_entry nonce c (Z.of_nat (S p)) e = Ok c' → node_ok log c' ∧ (Z.of_nat (S p) ≤ ch_appliedIndex c')%Z.
Proof.
  intros Hok (n & Hc & k & Hk & Hkl & Hcov) Hp Hle E.
  assert (length (log_headers (take p log)) ≤ length (log_headers (take k log))) as Hpk.
  { rewrite <- (Nat.min_l p k), <- take_take by lia. rewrite <- (take_drop p (take k log)) at 2. rewrite log_headers_app, length_app. lia. }
  assert (∃ c1 n1, c' = (if (ch_appliedIndex c1 <? Z.of_nat (S p))%Z then set_applied c1 (Z.of_nat (S p)) else c1) ∧
    node_at log n1 c1 ∧ ch_appliedIndex c1 = ch_appliedIndex c ∧ n ≤ n1 ∧
    ((ch_appliedIndex c < Z.of_nat (S p))%Z → length (log_headers (take (S p) log)) ≤ n1)) as (c1 & n1 & -> & Hc1 & Ha & Hn1 & Hs).
  { destruct e as [b| |cc].
    - unfold apply_entry in E. apply bind_Ok in E as (c1 & E1 & [= <-]). exists c1.
      destruct (Z.leb_spec (Z.of_nat (S p)) (ch_appliedIndex c)); [injection E1 as <-; exists n; split_and!; [done..|lia]|].
      destruct (block_applied _ _ _ _ _ _ _ Hok Hc Hp ltac:(lia) E1) as (n1 & ? & ? & ? & ?). by exists n1.
    - destruct (other_applied _ _ _ _ _ _ _ _ Hc Hp ltac:(done) Hcov Hpk E) as (c1 & ? & ? & ? & ?). by exists c1, n.
    - destruct (other_applied _ _ _ _ _ _ _ _ Hc Hp ltac:(done) Hcov Hpk E) as (c1 & ? & ? & ? & ?). by exists c1, n. }
  destruct (Z.ltb_spec (ch_appliedIndex c1) (Z.of_nat (S p))); (split; [exists n1; split|]); try done; cbn.
  - by eapply node_at_same; [..|exact Hc1].
  - exists (S p). split_and!; [done|apply lookup_lt_Some in Hp; lia|apply Hs; lia].
  - rewrite Ha, Hk. exists k. split_and!; [done|done|lia].
Qed.

Lemma entries_applied log n k nonce c c' :
  log_ok g log → node_ok log c → k + n ≤ length log → (Z.of_nat k ≤ ch_appliedIndex c)%Z →
  foldM (λ c '(idx, e), apply_entry nonce c idx e) c (entries_at log k n) = Ok c' → node_ok log c'.
Proof.
  intros Hok. revert k c. induction n as [|n IH]; intros k c Hc Hlen Hle E; [by injection E as <-|].
  destruct (lookup_lt_is_Some_2 log k) as [e He]; [lia|]. rewrite (entries_at_S _ _ _ _ He) in E. cbn [foldM] in E.
  destruct (apply_entry nonce c (Z.of_nat (S k)) e) as [c1| |] eqn:E1; [|done..].
  destruct (entry_applied _ _ _ _ _ _ Hok Hc He Hle E1) as [Hc1 Hle1]. eapply (IH (S k)); [done|lia|lia|exact E].
Qed.

Lemma node_applies log n k nonce c c' :
  log_ok g log → node_ok log c → k + n ≤ length log → apply nonce c (entries_at log k n) = Ok c' → node_ok log c'.
Proof.
  intros Hok Hc Hlen E. destruct n as [|n]; [by injection E as <-|]. destruct (lookup_lt_is_Some_2 log k) as [e He]; [lia|].
  unfold apply in E. rewrite (entries_at_S _ _ _ _ He) in E. destruct (Z.ltb_spec (u64 (ch_appliedIndex c + 1)) (Z.of_nat (S k))); [done|].
  rewrite <- (entries_at_S _ _ _ _ He) in E. eapply entries_applied; [done..| |exact E].
  destruct Hc as (? & _ & k0 & Hk0 & _). unfold u64, wrap in *. pose proof (Z.mod_le (ch_appliedIndex c + 1) (2 ^ 64)). lia.
Qed.

(** *** Catching up *)
Definition known (log : list raft_entry) (m : nat) (b : FullBlock) : Prop :=
  (∃ h, fb_Header b = Some h ∧ (g :: log_headers log) !! m = Some h) ∧ recorded log m (GetConsenterMetadataFromBlock b).

Lemma commit_known log n nonce c block c' :
  node_at log n c → known log (S n) block → chain_commitBlock nonce c block = Ok c' →
  node_at log (S n) (set_last c' block) ∧ ch_appliedIndex (set_last c' block) = ch_appliedIndex c.
Proof.
  intros Hc [(h & Hh & Hn) Hr] (Ha & Hi & m & v & Hm & Hv & Hrec)%chain_commitBlock_Ok. split; [|done]. rewrite Hh in Hrec.
  eapply node_at_append; [done..| |].
  - cbn. rewrite Hi. eapply covers_mono; [done| |apply (na_index _ _ _ Hc)]. lia.
  - destruct Hv as [-> | ->]; [|by apply recorded_empty]. rewrite Hm in Hr. by eapply recorded_value; [|exact Hr].
Qed.

Lemma blocks_pulled log PullBlock nonce cnt n c next c' :
  (∀ i b, PullBlock i = Some b → known log (Z.to_nat i) b) → node_at log n c → next = Z.of_nat (S n) →
  (Z.of_nat (n + cnt) < 2 ^ 64)%Z → pull_blocks nonce PullBlock c next cnt = Ok c' →
  node_at log (n + cnt) c' ∧ ch_appliedIndex c' = ch_appliedIndex c.
Proof.
  intros Hp. revert n c next. induction cnt as [|cnt IH]; intros n c next Hc -> Hr E; cbn [pull_blocks] in E.
  - injection E as <-. by rewrite Nat.add_0_r.
  - apply bind_Ok in E as (block & Hb%from_option_err_Ok & E). apply bind_Ok in E as (c1 & E1 & E).
    pose proof (Hp _ _ Hb) as Hk. rewrite Nat2Z.id in Hk. destruct (commit_known _ _ _ _ _ _ Hc Hk E1) as [Hc1 Ha].
    destruct cnt as [|cnt']; [injection E as <-; by rewrite Nat.add_1_r|].
    assert (u64 (Z.of_nat (S n) + 1) = Z.of_nat (S (S n))) as Enext by (unfold u64, wrap; rewrite Z.mod_small; lia).
    destruct (IH (S n) _ _ Hc1 Enext ltac:(lia) E) as [? ?].
    replace (n + S (S cnt')) with (S n + S cnt') by lia. split; [done|congruence].
Qed.

Lemma caught_up log n m nonce createPuller c b c' :
  log_ok g log → node_at log n c → known log m b →
  (∀ PullBlock i b', createPuller = Ok PullBlock → PullBlock i = Some b' → known log (Z.to_nat i) b') →
  catchUp nonce createPuller c b = Ok c' →
  ∃ n', node_at log n' c' ∧ n ≤ n' ∧ m ≤ n' ∧ ch_appliedIndex c' = ch_appliedIndex c.
Proof.
  intros Hok Hc Hk Hp E. pose proof Hk as [(h & Hh & Hm) _]. pose proof (na_last _ _ _ Hc) as Hlast. unfold catchUp in E.
  apply bind_Ok in E as (last & Hl%deref_Ok & E). apply bind_Ok in E as (h' & Hh'%deref_Ok & E). assert (h' = h) as -> by congruence.
  rewrite Hl in Hlast. symmetry in Hlast. pose proof (linked_lookup _ _ _ (lo_linked _ _ Hok) Hlast) as Hnl.
  pose proof (linked_lookup _ _ _ (lo_linked _ _ Hok) Hm) as Hnm. pose proof (headers_range _ _ _ Hok Hm).
  destruct (Z.leb_spec (bh_Number h) (bh_Number last)); [injection E as <-; exists n; split_and!; [done|lia..|done]|].
  unfold u64, wrap in E. rewrite Z.mod_small in E by lia. destruct (Z.eqb_spec (bh_Number h) (bh_Number last + 1)).
  - assert (m = S n) as -> by lia. apply bind_Ok in E as (c1 & E1 & [= <-]).
    destruct (commit_known _ _ _ _ _ _ Hc Hk E1) as [Hc1 Ha]. exists (S n). split_and!; [done|lia..|done].
  - apply bind_Ok in E as (PullBlock & HP%with_message_Ok & E).
    apply (blocks_pulled log _ _ _ n) in E as [Hc1 Ha]; [|by eauto|done|lia|lia].
    eexists. split_and!; [exact Hc1|lia..|done].
Qed.

Lemma snapshot_processed log m nonce createPuller c idx b c' :
  log_ok g log → node_ok log c → known log m b → covers log idx m →
  (∀ PullBlock i b', createPuller = Ok PullBlock → PullBlock i = Some b' → known log (Z.to_nat i) b') →
  process_snapshot nonce createPuller c idx b = Ok c' → node_ok log c'.
Proof.
  intros Hok (n & Hc & Hcov) Hk Hidx Hp E. unfold process_snapshot in E.
  destruct (idx =? 0)%Z; [|destruct (idx <=? ch_appliedIndex c)%Z; [injection E as <-; by exists n|]]; apply or_panic_Ok in E.
  - destruct (caught_up _ _ _ _ _ _ _ _ Hok Hc Hk Hp E) as (n' & Hc' & Hn & Hm & Ha). exists n'. split; [done|]. rewrite Ha.
    by apply (covers_mono log log _ n n').
  - assert (node_at log n (set_applied c idx)) as Hc0 by (by eapply node_at_same; [..|exact Hc]).
    destruct (caught_up _ _ _ _ _ _ _ _ Hok Hc0 Hk Hp E) as (n' & Hc' & Hn & Hm & Ha). exists n'. split; [done|]. rewrite Ha.
    by apply (covers_mono log log _ m n').
Qed.

(** *** Starting again *)
Lemma ledger_records bw i b : bw_ledger bw !! i = Some b → records bw !! i = Some (fb_Header b, GetConsenterMetadataFromBlock b).
Proof. intros Hi. unfold records. apply lookup_app_l_Some. by rewrite list_lookup_fmap, Hi. Qed.

Lemma ledger_known log n c i b : node_at log n c → bw_ledger (ch_writer c) !! i = Some b → known log i b ∧ i ≤ n.
Proof.
  intros Hc Hi%ledger_records. split; [split|].
  - pose proof (na_headers _ _ _ Hc) as Hh. apply (f_equal (.!! i)) in Hh. rewrite !list_lookup_fmap, Hi in Hh. cbn in Hh.
    destruct ((g :: take n (log_headers log)) !! i) as [h|] eqn:Eg; [|done]. injection Hh as Hh. exists h. split; [done|].
    destruct i as [|i]; [done|]. cbn in *. by apply lookup_take_Some in Eg as [? _].
  - apply (na_recorded _ _ _ Hc _ _ Hi).
  - apply lookup_lt_Some in Hi. pose proof (na_headers _ _ _ Hc) as Hh. apply (f_equal length) in Hh. rewrite !length_fmap in Hh.
    cbn in Hh. rewrite length_take in Hh. lia.
Qed.

Lemma restarted log c inactive cert res c' :
  node_ok log c → newChainSupport inactive cert (bw_ledger (ch_writer c)) res = Ok (Some c') → node_ok log c'.
Proof.
  intros (n & Hc & _) (b & m & cm & Hlast & Hm & Hread & Hlb & Ha & Hled & Hcom)%newChainSupport_Ok.
  rewrite last_lookup in Hlast. set (i := pred (length (bw_ledger (ch_writer c)))) in *.
  destruct (ledger_known _ _ _ _ _ Hc Hlast) as [[(h & Hh & Hg') Hr] Hi]. pose proof (Hr _ _ _ Hm Hread) as Hcov.
  assert (records (ch_writer c') = take (S i) (records (ch_writer c))) as Erec.
  { assert (length (bw_ledger (ch_writer c)) = S i) as Elen by (apply lookup_lt_Some in Hlast; lia).
    unfold records. rewrite Hcom, Hled, app_nil_r. rewrite take_app_le by (rewrite length_fmap; lia). symmetry. apply take_ge.
    rewrite length_fmap. lia. }
  exists i. split; [|by rewrite Ha]. pose proof (na_length _ _ _ Hc). split.
  - lia.
  - rewrite Erec, fmap_take, (na_headers _ _ _ Hc), <- fmap_take. cbn [take]. by rewrite take_take, Nat.min_l by lia.
  - by rewrite Hlb, Hh.
  - done.
  - rewrite Erec. intros i' r [Hir _]%lookup_take_Some. by apply (na_recorded _ _ _ Hc).
Qed.

(** *** The cluster *)

(** The log as it is when all the proposed blocks have arrived. *)
Definition whole (cl : cluster) : list raft_entry :=
  cl_log cl ++ match cl_leader cl with Some (_, _, ch) => EntryNormal <$> ch | None => [] end.
Definition committed (cl : cluster) : list raft_entry := take (cl_commit cl) (cl_log cl).

Record cluster_ok (cl : cluster) : Prop := {
  co_commit : cl_commit cl ≤ length (cl_log cl);
  co_log : log_ok g (whole cl);
  co_nodes id c : cl_nodes cl !! id = Some c → node_ok (committed cl) c;
  co_leader id bc ch : cl_leader cl = Some (id, bc, ch) → at_header bc (List.last (log_headers (whole cl)) g)
}.

Lemma co_committed cl : cluster_ok cl → log_ok g (committed cl).
Proof. intros C. by eapply log_ok_take, co_log. Qed.

(** One node changes. *)
Lemma update_ok log commit nodes leader id c' :
  cluster_ok (mkCluster log commit nodes leader) → node_ok (take commit log) c' →
  cluster_ok (mkCluster log commit (<[id := c']> nodes) leader).
Proof.
  intros C Hc'. split; try apply C. cbn. intros id' c2 [[<- <-]|[_ Hn]]%lookup_insert_Some; [done|by apply (co_nodes _ C id')].
Qed.

(** The log changes, but not what is committed. *)
Lemma relog_ok log log' commit nodes leader leader' :
  cluster_ok (mkCluster log commit nodes leader) → commit ≤ length log' → take commit log' = take commit log →
  log_ok g (whole (mkCluster log' commit nodes leader')) →
  (∀ id bc ch, leader' = Some (id, bc, ch) → at_header bc (List.last (log_headers (whole (mkCluster log' commit nodes leader'))) g)) →
  cluster_ok (mkCluster log' commit nodes leader').
Proof. intros C Hlen Et Hok Hld. split; try done. unfold committed. cbn. rewrite Et. apply (co_nodes _ C). Qed.

Lemma node_ok_same log c c' : same_ledger c c' → RaftIndex (ch_BlockMetadata c') = RaftIndex (ch_BlockMetadata c) → node_ok log c → node_ok log c'.
Proof. intros (Ea & El & Ew) Em (n & Hc & Hcov). exists n. rewrite Ea. split; [|done]. by eapply node_at_same. Qed.

(** The leader proposes the blocks of some batches. *)
Lemma propose_ok N log commit nodes id bc ch c c1 batches c2 bc' ch' :
  cluster_ok (mkCluster log commit nodes (Some (id, bc, ch))) → nodes !! id = Some c → same_ledger c c1 → ch_BlockMetadata c1 = ch_BlockMetadata c →
  propose N c1 bc ch batches = Ok (c2, bc', ch') → (bc_number bc + Z.of_nat (length batches) < 2 ^ 64)%Z →
  cluster_ok (mkCluster log commit (<[id := c2]> nodes) (Some (id, bc', ch'))).
Proof.
  intros C Hn Hs Em E Hnum. pose proof (co_leader _ C id bc ch eq_refl) as Hat. unfold whole in Hat. cbn in Hat.
  pose proof (co_log _ C) as Hok. unfold whole in Hok. cbn in Hok. pose proof (linked_number _ _ (lo_linked _ _ Hok)).
  destruct (propose_linked _ _ _ _ _ _ _ _ _ E Hat) as (bs & hs & -> & HF & Hlk & Hat' & Hr); [lia|by destruct Hat as [_ <-]|].
  pose proof (headers_of_blocks _ _ _ HF) as Eh. apply propose_same in E as [E Em2].
  apply (relog_ok log log) with (leader := Some (id, bc, ch)).
  - apply update_ok; [done|]. eapply node_ok_same; [exact E|by rewrite Em2|]. eapply node_ok_same; [done|by rewrite Em|].
    by apply (co_nodes _ C id).
  - apply (co_commit _ C).
  - done.
  - unfold whole. cbn. rewrite fmap_app, (assoc_L (++)). by eapply log_ok_blocks.
  - unfold whole. cbn. intros ? ? ? [= <- <- <-]. by rewrite fmap_app, (assoc_L (++)), log_headers_app, Eh, last_app_default.
Qed.

Lemma known_peer cl n b : cluster_ok cl → peer_block (cl_nodes cl) n b → known (committed cl) n b.
Proof. intros C (id & c & Hn & Hb). destruct (co_nodes _ C id c Hn) as (m & Hc & _). by destruct (ledger_known _ _ _ _ _ Hc Hb). Qed.

Lemma known_snapshot cl idx b :
  cluster_ok cl → snapshot_of (cl_log cl) (cl_commit cl) (cl_nodes cl) idx b → ∃ m, known (committed cl) m b ∧ covers (committed cl) idx m.
Proof.
  intros C [(s & -> & Hs & Hb)|(-> & n & Hb)]; [|exists n; split; [by apply known_peer|apply covers_0]].
  pose proof (co_committed _ C) as Hok. pose proof (co_commit _ C) as Hcl.
  assert (take s (cl_log cl) = take s (committed cl)) as Et by (unfold committed; by rewrite take_take, Nat.min_l by lia).
  rewrite Et in Hb. pose proof Hok as Hok'. rewrite <- (take_drop s (committed cl)) in Hok'. apply log_ok_app_l in Hok'.
  apply last_Some in Hb as [bs Hbs]. pose proof (lo_blocks _ _ Hok') as Hp. rewrite Hbs, Forall_app, Forall_singleton in Hp.
  destruct Hp as [_ [[h Hh] Hm]].
  assert (log_headers (take s (committed cl)) = omap fb_Header bs ++ [h]) as Eh by (unfold log_headers; rewrite Hbs, omap_app; cbn; by rewrite Hh).
  exists (S (length (omap fb_Header bs))). split; [split|].
  - exists h. split; [done|]. rewrite <- (take_drop s (committed cl)), log_headers_app, Eh. rewrite lookup_cons_ne_0 by done.
    rewrite <- (assoc_L (++)). by apply list_lookup_middle.
  - rewrite (fresh_block_metadata _ Hm). by apply recorded_empty.
  - exists s. split_and!; [done|unfold committed; rewrite length_take; lia|]. rewrite Eh, length_app. cbn. lia.
Qed.

Lemma serve_ok log commit nodes leader id c m bc :
  cluster_ok (mkCluster log commit nodes leader) → commit ≤ m ≤ length log → nodes !! id = Some c → ch_appliedIndex c = Z.of_nat m →
  start_serving c = Ok bc → cluster_ok (mkCluster (take m log) commit nodes (Some (id, bc, []))).
Proof.
  intros C Hm Hn Ha Hbc. pose proof (co_commit _ C) as Hcl. cbn in Hcl. destruct (co_nodes _ C id c Hn) as (n & Hc & k & Hk & Hkl & Hcov).
  unfold committed in *. cbn in *. assert (k = m) as -> by lia. rewrite length_take in Hkl. assert (m = commit) as -> by lia.
  rewrite (take_ge (take commit log)) in Hcov by (rewrite length_take; lia). pose proof (na_length _ _ _ Hc).
  assert (n = length (log_headers (take commit log))) as -> by lia. pose proof (co_log _ C) as Hok. unfold whole in Hok. cbn in Hok.
  eapply relog_ok; [exact C|rewrite length_take; lia|by rewrite take_take, Nat.min_id|..]; unfold whole; cbn; rewrite app_nil_r.
  - by eapply log_ok_take.
  - intros ? ? ? [= <- <- <-]. unfold start_serving in Hbc. apply bind_Ok in Hbc as (h & Hh%deref_Ok & [= <-]).
    rewrite (na_last _ _ _ Hc), lookup_last_default in Hh. by injection Hh as <-.
Qed.

Lemma cluster_step_ok N cl cl' : cluster_step N cl cl' → cluster_ok cl → cluster_ok cl'.
Proof.
  intros Hs C. pose proof (co_commit _ C) as Hc. pose proof (co_log _ C) as Hlog. pose proof (co_committed _ C) as Hcom. unfold whole in Hlog.
  destruct Hs as [log commit nodes leader id c k n nonce c' Hn Hkn E|log commit nodes leader id c nonce bw Hn E|log commit nodes leader Hlt|
    log commit nodes leader id c m bc Hm Hn Ha Hbc|log commit nodes id bc ch c now nonce msg batches p c1 c2 bc' ch' Hn Eo Ep Hb|
    log commit nodes id bc ch c batch r c2 bc' ch' Hn Er Hne Ep Hb|log commit nodes id bc b ch|log commit nodes leader e He|
    log commit nodes id bc ch c m Hm Hn|log commit nodes leader id c inactive cert res c' Hn _ E|
    log commit nodes leader id c nonce P idx b c' Hn Hs HP E]; cbn in Hc, Hlog.
  - apply update_ok; [done|]. eapply (node_applies _ n k); [exact Hcom|by apply (co_nodes _ C id)|rewrite length_take; cbn; lia|].
    unfold entries_at, committed in *. cbn. rewrite <- E. do 2 f_equal. rewrite skipn_firstn_comm, take_take. f_equal. lia.
  - apply update_ok; [done|]. destruct (co_nodes _ C id c Hn) as (n & [? ? ? ? ?] & Hcov). apply wait_committed_records in E as [Er _].
    exists n. split; [|done]. by split; cbn; rewrite ?Er.
  - split; try apply C; cbn; [lia|]. intros id c Hn. eapply node_ok_mono; [|by apply (co_nodes _ C id)]. unfold committed. cbn.
    destruct (lookup_lt_is_Some_2 log commit Hlt) as [e He]. rewrite (take_S_r _ _ _ He). by eexists.
  - by eapply serve_ok.
  - apply ordered_same in Eo as [Eo Em]. by eapply propose_ok.
  - by apply (propose_ok N log commit nodes id bc ch c (set_cutter c r) [batch] c2 bc' ch').
  - eapply relog_ok; [exact C|rewrite length_app; lia|by rewrite take_app_le|..]; unfold whole; cbn; rewrite <- (assoc_L (++)); [done|].
    intros ? ? ? [= <- <- <-]. by apply (co_leader _ C id bc (b :: ch)).
  - eapply relog_ok; [exact C|rewrite length_app; lia|by rewrite take_app_le|by apply log_ok_skip|].
    unfold whole, log_headers. cbn. intros id bc ch Hl. rewrite blocks_skip by done. by apply (co_leader _ C id bc ch).
  - apply update_ok; [|apply (node_ok_same _ c); [done|done|]].
    + eapply relog_ok; [exact C|rewrite length_take; lia|by rewrite take_take, Nat.min_l by lia| |done].
      unfold whole. cbn. rewrite app_nil_r. by eapply log_ok_take.
    + rewrite take_take, Nat.min_l by lia. by apply (co_nodes _ C id).
  - apply update_ok; [done|]. eapply restarted; [by apply (co_nodes _ C id)|done].
  - apply update_ok; [done|]. destruct (known_snapshot _ _ _ C Hs) as (m & Hk & Hcov).
    eapply (snapshot_processed _ m); [exact Hcom|by apply (co_nodes _ C id)|done|done| |exact E].
    intros PB i b' EP Eb. apply (known_peer _ _ _ C). by eapply HP.
Qed.

Lemma initial_node genesis m inactive cert res c :
  fb_Header genesis = Some g → GetConsenterMetadataFromBlock genesis = Ok m → md_Value m = "" →
  newChainSupport inactive cert [genesis] res = Ok (Some c) → node_ok [] c.
Proof.
  intros Hh Hm Hv (b & m' & cm & [= <-] & Hm' & Hread & Hlb & Ha & Hled & Hcom)%newChainSupport_Ok.
  assert (m' = m) as -> by congruence. pose proof (recorded_empty [] 0 m Hv) as Hr. pose proof (Hr _ _ _ eq_refl Hread) as Hcov.
  exists 0. split; [|by rewrite Ha]. assert (records (ch_writer c) = [(Some g, Ok m)]) as Erec.
  { unfold records. rewrite Hcom, Hled. cbn. by rewrite Hh, Hm. }
  split; [cbn; lia|by rewrite Erec|by rewrite Hlb|done|]. rewrite Erec. intros i r [-> <-]%list_lookup_singleton_Some. done.
Qed.

Lemma node_written cl id c :
  cluster_ok cl → cl_nodes cl !! id = Some c →
  written (ch_writer c) `prefix_of` g :: log_headers (take (cl_commit cl) (cl_log cl)) ∧
  g :: log_headers (take (Z.to_nat (ch_appliedIndex c)) (cl_log cl)) `prefix_of` written (ch_writer c).
Proof.
  intros C Hc. destruct (co_nodes _ C id c Hc) as (n & Hat & k & Hk & Hkl & Hcov). unfold committed in *.
  assert (written (ch_writer c) = g :: take n (log_headers (take (cl_commit cl) (cl_log cl)))) as ->.
  { unfold written. pose proof (na_headers _ _ _ Hat) as Hh. revert Hh. generalize (records (ch_writer c)) as rs.
    generalize (g :: take n (log_headers (take (cl_commit cl) (cl_log cl)))) as hs. intros hs rs. revert hs.
    induction rs as [|r rs IH]; intros [|h hs]; try done. cbn. intros [= E1 E2]. rewrite E1. f_equal. by apply IH. }
  split; apply prefix_cons; [apply prefix_take|]. rewrite Hk, Nat2Z.id. rewrite length_take in Hkl. rewrite take_take, Nat.min_l in Hcov by lia.
  rewrite <- (take_drop k (take (cl_commit cl) (cl_log cl))), log_headers_app, take_take, Nat.min_l by lia.
  rewrite take_app_ge by lia. by eexists.
Qed.
End nodes.


(** What [apply] offers as a snapshot. Entries that are given again, as they are
    after a node has started again, yield their last block with the index the node
    had reached before, which may lie after further blocks. *)
Theorem offered_snapshot_spec (block_size : FullBlock → Z) (ready : bool) (nonce : outcome bytes) (sizeLimit acc : Z) (c : Chain)
    (log : list raft_entry) (k n : nat) (c' : Chain) (acc' : Z) (i : Z) (b : FullBlock) :
  apply_and_offer block_size ready nonce sizeLimit acc c (entries_at log k n) = Ok (c', acc', Some (i, b)) → k + n ≤ length log →
  last (log_blocks (take (k + n) log)) = Some b ∧ i = Z.max (ch_appliedIndex c) (Z.of_nat (k + n)) ∧ acc' = 0%Z ∧
  (ch_appliedIndex c = Z.of_nat k → last (log_blocks (take (Z.to_nat i) log)) = Some b).
Proof.
  unfold apply_and_offer. intros E Hlen. apply bind_Ok in E as (c1 & Ea & E).
  rewrite entries_at_snd in E. destruct (last (log_blocks (take n (drop k log)))) as [b'|] eqn:Eb; [|done].
  destruct (_ && _); [|done]. injection E as <- <- <- <-.
  assert (last (log_blocks (take (k + n) log)) = Some b') as Hb.
  { rewrite <- (take_drop k (take (k + n) log)), skipn_firstn_comm, take_take, log_blocks_app, last_app.
    replace (k + n - k) with n by lia. by rewrite Eb. }
  assert (ch_appliedIndex c1 = Z.max (ch_appliedIndex c) (Z.of_nat (k + n))) as Hi.
  { destruct n as [|n]; [done|]. by eapply applied_max. }
  split_and!; [done|done|done|]. intros Hk. rewrite Hi, Hk, Z.max_r, Nat2Z.id by lia. done.
Qed.
End laws.
End chain.

(** ** Two nodes *)
Section sample.
#[local] Existing Instances sorted_map_order orderer_proposal_codec orderer_tx_codec writer_channelconfig key_order.
#[local] Existing Instances Metadata_eq_dec OrdererBlockMetadata_eq_dec.
#[local] Instance RaftMetadata_eq_dec : EqDecision RaftMetadata.
Proof. solve_decision. Defined.

Definition raft_codec : Codec := {|
  unmarshal_Envelope _ := None;
  unmarshal_Payload s := if decide (s = "T") then Some (mkPayload (Some (mkHeader "TH" "TS")) "tx") else None;
  unmarshal_ChannelHeader s := if decide (s = "TH") then Some (mkChannelHeader 3 "ch" "" 0 "" 0 None None) else None;
  unmarshal_Transaction _ := None;
  unmarshal_ChaincodeAction _ := None;
  unmarshal_TxReadWriteSet _ := None;
  unmarshal_KVRWSet _ := None;
  unmarshal_HashedRWSet _ := None
|}.
Definition raft_obm_table : list (bytes * OrdererBlockMetadata) :=
  [("O", mkOrdererBlockMetadata (Some 0%Z) "MR"); ("O2", mkOrdererBlockMetadata (Some 0%Z) "")].
Definition raft_md_table : list (bytes * Metadata) :=
  [("", mkMetadata "" []); ("ML", mkMetadata "L0" []); ("MR", mkMetadata "R1" []);
   ("MO", mkMetadata "O" [mkMetadataSignature "CS" "sig"]); ("MO2", mkMetadata "O2" [mkMetadataSignature "CS" "sig"])].
Definition raft_metadata_codec : MetadataCodec := {|
  unmarshal_Metadata := dec_table raft_md_table;
  marshal_Metadata := enc_table raft_md_table;
  unmarshal_LastConfig := dec_table [("L0", 0%Z)];
  marshal_LastConfig := enc_table [("L0", 0%Z)];
  unmarshal_OrdererBlockMetadata := dec_table raft_obm_table;
  marshal_OrdererBlockMetadata := enc_table raft_obm_table
|}.
#[local] Existing Instances raft_codec raft_metadata_codec.
Definition raft_table : list (bytes * RaftMetadata) := [("R1", mkRaftMetadata [1; 2]%Z 3 1)].

Definition two_consenters : ConfigMetadata := mkConfigMetadata [mkConsenter "a" 1 "ca" "sa"; mkConsenter "b" 2 "cb" "sb"] (Some 5%Z).
Definition decode_metadata (s : bytes) : option ConfigMetadata := if decide (s = "meta") then Some two_consenters else None.
Definition one_message : Bundle :=
  mkBundle (Some (mkOrdererConf (mkBatchSize 1 100) 1000 "etcdraft" "meta" 0 true true None)) sample_managers sample_validator None.

Lemma sample_raft_laws : raft_laws (enc_table raft_table) (dec_table raft_table).
Proof.
  split; [|done|].
  - split; intros *.
    + intros [? _]%dec_enc_table; [done|]. cbn; repeat constructor; set_solver.
    + intros [? _]%dec_enc_table; [done|]. cbn; repeat constructor; set_solver.
    + intros [_ Hin]%dec_enc_table _; [|cbn; repeat constructor; set_solver]. cbn in Hin. set_solver.
    + by intros [= <-].
  - intros m b [? _]%dec_enc_table; [done|]. cbn; repeat constructor; set_solver.
Qed.

Definition ok_or {A} (d : A) (o : outcome A) : A := match o with Ok a => a | _ => d end.
Lemma ok_or_Ok {A} (d : A) (o : outcome A) : is_ok o = true → o = Ok (ok_or d o).
Proof. by destruct o. Qed.

Notation start := (newChainSupport decode_metadata (dec_table raft_table) Ok String.eqb false).
Notation apply2 := (apply decode_update decode_update_env decode_config (λ _, None) decode_metadata (enc_table raft_table) (λ _, false)
  writer_signer (Ok "nonce")).
Notation catch_up := (process_snapshot decode_update decode_update_env decode_config (λ _, None) decode_metadata (λ _, false)
  writer_signer (Ok "nonce")).
Notation order := (ordered decode_update decode_update_env decode_config encode_config (λ _, None) decode_metadata (λ _, false) (λ _, false)
  (λ _, None) writer_signer true "ch" 7 (Ok "nonce")).
Notation step2 := (cluster_step decode_update decode_update_env decode_config encode_config wire_Envelope (λ _, None) decode_metadata
  (enc_table raft_table) (dec_table raft_table) (λ _, false) (λ _, false) (λ _, None) writer_signer true "ch" Ok String.eqb 5).

Definition node1 : Chain :=
  mkChain 1 genesis_block 0 None false 0 (mkRaftMetadata [1; 2]%Z 3 0) (<[1%Z := mkConsenter "a" 1 "ca" "sa"]> {[2%Z := mkConsenter "b" 2 "cb" "sb"]})
    NewReceiverImpl (mkBlockWriter one_message 0 4 genesis_block None [genesis_block] []).
Definition node2 : Chain := mkChain 2 (ch_lastBlock node1) 0 None false 0 (ch_BlockMetadata node1) (ch_Consenters node1) NewReceiverImpl (ch_writer node1).
Definition sample_tx : SubmitRequest := mkSubmitRequest 4 (mkEnvelope "T" "sig").
Definition creator0 : blockCreator := mkBlockCreator (current_hash [genesis_block]) 0.
Definition tx_block : FullBlock :=
  match createNextBlock wire_Envelope creator0 [sr_Payload sample_tx] with Ok (b, _) => b | _ => genesis_block end.
Definition creator1 : blockCreator := mkBlockCreator (current_hash [tx_block]) 1.
Definition leading : Chain := mkChain 1 genesis_block 0 None false 1 (ch_BlockMetadata node1) (ch_Consenters node1) NewReceiverImpl (ch_writer node1).
Definition applied1 : Chain := ok_or leading (apply2 leading [(1%Z, EntryNormal tx_block)]).
Definition caught2 : Chain := ok_or node2 (catch_up (Err "no puller") node2 1 tx_block).

Lemma nodes_started : start "sa" [genesis_block] one_message = Ok (Some node1) ∧ start "sb" [genesis_block] one_message = Ok (Some node2).
Proof. split; vm_compute; reflexivity. Qed.
Lemma nodes_start id c :
  (<[1%Z := node1]> {[2%Z := node2]} : gmap Z Chain) !! id = Some c →
  ∃ inactive cert res, newChainSupport decode_metadata (dec_table raft_table) Ok String.eqb inactive cert [genesis_block] res = Ok (Some c).
Proof.
  intros [[<- <-]|[_ [<- <-]%lookup_singleton_Some]]%lookup_insert_Some; eexists false, _, one_message; apply nodes_started.
Qed.
Lemma tx_ordered : order node1 sample_tx = Ok ([[sr_Payload sample_tx]], false, node1).
Proof. vm_compute. reflexivity. Qed.
Lemma tx_proposed : propose wire_Envelope 5 node1 creator0 [] [[sr_Payload sample_tx]] = Ok (leading, creator1, [tx_block]).
Proof. vm_compute. reflexivity. Qed.
Lemma tx_applied : apply2 leading [(1%Z, EntryNormal tx_block)] = Ok applied1.
Proof. apply ok_or_Ok. vm_compute. reflexivity. Qed.
Lemma tx_caught_up : catch_up (Err "no puller") node2 1 tx_block = Ok caught2.
Proof. apply ok_or_Ok. vm_compute. reflexivity. Qed.

(** The leader orders a message, which it applies; the other node takes the
    block from a snapshot. *)
Lemma sample_cluster_run :
  rtc step2 (mkCluster [] 0 (<[1%Z := node1]> {[2%Z := node2]}) None)
    (mkCluster [EntryNormal tx_block] 1 (<[2%Z := caught2]> (<[1%Z := applied1]> (<[1%Z := leading]> (<[1%Z := node1]> {[2%Z := node2]}))))
       (Some (1%Z, creator1, []))).
Proof.
  eapply rtc_l; [apply (cs_serve _ _ _ _ _ _ _ _ _ _ _ _ _ _ _ _ _ _ [] 0 _ None 1 node1 0 creator0); done|].
  eapply rtc_l; [eapply cs_order; [|exact tx_ordered|exact tx_proposed|]; done|].
  eapply rtc_l; [apply cs_send|]. eapply rtc_l; [apply cs_commit; cbn; lia|].
  eapply rtc_l; [eapply (cs_apply _ _ _ _ _ _ _ _ _ _ _ _ _ _ _ _ _ _ _ _ _ _ 1 leading 0 1); [by rewrite lookup_insert_eq|lia|exact tx_applied]|].
  apply rtc_once. eapply (cs_snapshot _ _ _ _ _ _ _ _ _ _ _ _ _ _ _ _ _ _ _ _ _ _ 2 node2); [| | |exact tx_caught_up];
    [by rewrite !lookup_insert_ne by done| |done].
  left. exists 1. split_and!; [done|lia|lia|done].
Qed.


(** A node whose consenters are 1 and 3 takes the block from the snapshot and is
    started again: they are 1 and 2. *)
Definition node13 : Chain :=
  mkChain 1 genesis_block 7 None false 0 (mkRaftMetadata [1; 3]%Z 4 7) (ch_Consenters node1) NewReceiverImpl (ch_writer node1).
Notation catch_up1 := (catchUp decode_update decode_update_env decode_config (λ _, None) decode_metadata (λ _, false) writer_signer (Ok "nonce")).
Definition caught13 : Chain := ok_or node13 (catch_up1 (Err "no puller") node13 tx_block).
Definition writer13 : BlockWriter := ok_or (ch_writer node13) (wait_committed writer_signer (Ok "nonce") (ch_writer caught13)).
Definition restarted13 : Chain := match start "sa" (bw_ledger writer13) one_message with Ok (Some c) => c | _ => node13 end.

Lemma node13_runs :
  catch_up1 (Err "no puller") node13 tx_block = Ok caught13 ∧ wait_committed writer_signer (Ok "nonce") (ch_writer caught13) = Ok writer13 ∧
  start "sa" (bw_ledger writer13) one_message = Ok (Some restarted13).
Proof.
  split_and!; [apply ok_or_Ok; vm_compute; reflexivity..|].
  assert (match start "sa" (bw_ledger writer13) one_message with Ok (Some _) => true | _ => false end = true) as Hs by (vm_compute; reflexivity).
  unfold restarted13. by destruct (start "sa" (bw_ledger writer13) one_message) as [[|]| |].
Qed.

Lemma snapshot_restart_renumbers_witness :
  ConsenterIds (ch_BlockMetadata caught13) = [1; 3]%Z ∧
  ∃ n, ch_BlockMetadata restarted13 = mkRaftMetadata (Z.of_nat <$> seq 1 n) (Z.of_nat (S n)) 0 ∧ ch_appliedIndex restarted13 = 0%Z.
Proof.
  split; [vm_compute; reflexivity|]. destruct node13_runs as (Hc & Hw & Hs).
  eapply (snapshot_restart_renumbers decode_update decode_update_env decode_config wire_Envelope (λ _, None) decode_metadata
    (enc_table raft_table) (dec_table raft_table) (λ _, false) writer_signer Ok String.eqb sample_raft_laws (Ok "nonce") (Ok "nonce")
    (Err "no puller") node13 caught13 restarted13 creator0 creator1 [sr_Payload sample_tx] tx_block
    (mkBlockHeader 1 (bc_hash creator0) (BlockDataHash (default [] (fb_Data tx_block)))) (mkBlockHeader 0 "" "d0"));
    [vm_compute; reflexivity|vm_compute; reflexivity|done|done|done|done|exact Hc|exact Hw|exact Hs].
Defined.

Lemma ordered_sound_witness :
  order node1 sample_tx = Ok ([[sr_Payload sample_tx]], false, node1) ∧ isConfig (λ _, false) (sr_Payload sample_tx) = Ok false.
Proof.
  split; [exact tx_ordered|].
  destruct (ordered_sound _ _ _ _ _ _ _ _ _ _ _ _ _ _ _ _ _ _ _ tx_ordered) as [[Hc _]|[Hc _]]; [exact Hc|].
  vm_compute in Hc. discriminate Hc.
Defined.

Lemma propose_overflow_witness :
  is_panic (propose wire_Envelope 1 node1 creator0 [] [[sr_Payload sample_tx]; [sr_Payload sample_tx]]) = true.
Proof.
  apply (propose_overflow wire_Envelope 1 node1 creator0 [] [[sr_Payload sample_tx]; [sr_Payload sample_tx]]); [cbn; lia| |cbn; lia].
  intros batch Hb. assert (batch = [sr_Payload sample_tx]) as -> by set_solver. vm_compute. reflexivity.
Defined.

(** Two blocks are applied; the first is given again, and makes a snapshot due. *)
Definition next_block : FullBlock :=
  match createNextBlock wire_Envelope creator1 [sr_Payload sample_tx] with Ok (b, _) => b | _ => genesis_block end.
Definition at_two : Chain :=
  mkChain 1 next_block 2 None false 0 (ch_BlockMetadata node1) (ch_Consenters node1) NewReceiverImpl (ch_writer node1).

Lemma offered_snapshot_spec_witness :
  apply_and_offer decode_update decode_update_env decode_config (λ _, None) decode_metadata (enc_table raft_table) (λ _, false)
    writer_signer (λ _, 60%Z) true (Ok "nonce") 100 50 at_two (entries_at [EntryNormal tx_block; EntryNormal next_block] 0 1) =
    Ok (at_two, 0%Z, Some (2%Z, tx_block)) ∧
  last (log_blocks (take 1 [EntryNormal tx_block; EntryNormal next_block])) = Some tx_block ∧
  last (log_blocks (take 2 [EntryNormal tx_block; EntryNormal next_block])) ≠ Some tx_block.
Proof.
  assert (apply_and_offer decode_update decode_update_env decode_config (λ _, None) decode_metadata (enc_table raft_table) (λ _, false)
    writer_signer (λ _, 60%Z) true (Ok "nonce") 100 50 at_two (entries_at [EntryNormal tx_block; EntryNormal next_block] 0 1) =
    Ok (at_two, 0%Z, Some (2%Z, tx_block))) as E by (vm_compute; reflexivity).
  split_and!; [exact E| |intros Hb; vm_compute in Hb; discriminate Hb].
  exact (proj1 (offered_snapshot_spec _ _ _ _ _ _ _ _ _ sample_raft_laws _ _ _ _ _ _ _ 0 1 _ _ _ _ E (le_S _ _ (le_n 1)))).
Defined.
End sample.
