(* ===== verification/BlockVerify.v ===== *)
(** * BlockVerify: an orderer verifies the blocks it pulls from others
      (orderer/common/cluster/util.go)

    A buffer of blocks is accepted when their hashes chain, and the configuration
    blocks and the last one are signed as the configuration in force asks. The
    verifier of a channel is replaced with every configuration block that is
    committed. *)

From S2P Require Import Prelude GoText Protos Proposal ProtoUtil PolicyManager ConfigTx BlockCutter Blocks MsgProcessor BlockWriter.

(** [BlockVerifier]; the configuration is nil for the one that is committed. *)
Definition BlockVerifier : Type := list SignedData → option ConfigEnvelope → outcome unit.

Section verify.
Context `{Codec} `{ProposalCodec} `{MetadataCodec} `{ChannelConfig}.
Context (marshal_Envelope : Envelope → outcome bytes).
Context (unmarshal_ConfigEnvelope : bytes → option ConfigEnvelope).

(** A configuration block has one transaction of type CONFIG, the genesis block
    whatever it holds; the error [errNotAConfig] is [Ok None]. *)
Definition ConfigFromBlock (block : FullBlock) : outcome (option ConfigEnvelope) :=
  match fb_Data block with
  | None | Some [] => Err "empty block"
  | Some (txn :: _) =>
      env ← GetEnvelopeFromBlock txn;
      payload ← Proposal.decoded "Payload" (unmarshal_Payload (env_Payload env));
      header ← deref (fb_Header block);
      if (bh_Number header =? 0)%Z then
        c ← from_option_err "invalid config envelope" (unmarshal_ConfigEnvelope (payload_Data payload)); Ok (Some c)
      else
        hdr ← from_option_err "nil header in payload" (payload_Header payload);
        chdr ← Proposal.decoded "ChannelHeader" (unmarshal_ChannelHeader (hdr_ChannelHeader hdr));
        if negb (bool_decide (chdr_Type chdr = HeaderType_CONFIG)) then Ok None
        else c ← from_option_err "invalid config envelope" (unmarshal_ConfigEnvelope (payload_Data payload)); Ok (Some c)
  end.

Definition VerifyBlockHash (indexInBuffer : nat) (blockBuff : list FullBlock) : outcome unit :=
  block ← from_option_err "index out of bounds" (blockBuff !! indexInBuffer);
  header ← from_option_err "missing block header" (fb_Header block);
  _ ← match VerifyTransactionsAreWellFormed marshal_Envelope (Some block) with
      | Err e => if (0 <? bh_Number header)%Z then Err ("block has malformed transactions: " +:+ e) else Ok ()
      | o => o
      end;
  data ← deref (fb_Data block);
  if negb (bool_decide (BlockDataHash data = bh_DataHash header)) then Err "computed hash of block doesn't match claimed hash"
  else
    match indexInBuffer with
    | 0 => Ok ()
    | S i =>
        prevBlock ← from_option_err "index out of bounds" (blockBuff !! i);
        prev ← from_option_err "previous block header is nil" (fb_Header prevBlock);
        if negb (u64 (bh_Number prev + 1) =? bh_Number header)%Z then Err "sequences were received consecutively"
        else if negb (bool_decide (bh_PreviousHash header = BlockHeaderHash prev)) then Err "block's hash mismatches prev block hash"
        else Ok ()
    end.

Definition SignatureSetFromBlock (block : FullBlock) : outcome (list SignedData) :=
  match fb_Metadata block with
  | None => Err "no metadata in block"
  | Some slots =>
      if (length slots <=? BlockMetadataIndex_SIGNATURES)%nat then Err "no metadata in block"
      else
        metadata ← with_message "failed unmarshalling medatata for signatures" (GetMetadataFromBlock block BlockMetadataIndex_SIGNATURES);
        foldM (λ signatureSet metadataSignature,
          sigHdr ← with_message "failed unmarshalling signature header for block"
            (Proposal.decoded "SignatureHeader" (unmarshal_SignatureHeader (mds_SignatureHeader metadataSignature)));
          header ← deref (fb_Header block);
          Ok (signatureSet ++ [mkSignedData (md_Value metadata +:+ mds_SignatureHeader metadataSignature +:+ BlockHeaderBytes header)
                                 (sh_Creator sigHdr) (mds_Signature metadataSignature)])) [] (md_Signatures metadata)
  end.

Definition VerifyBlockSignature (block : FullBlock) (verifier : BlockVerifier) (config : option ConfigEnvelope) : outcome unit :=
  signatureSet ← SignatureSetFromBlock block;
  verifier signatureSet config.

(** The second loop of [VerifyBlocks]: the configuration found last, and whether
    the last block was one. *)
Definition verify_config (signatureVerifier : BlockVerifier) (st : option ConfigEnvelope * bool) (block : FullBlock)
    : outcome (option ConfigEnvelope * bool) :=
  configFromBlock ← ConfigFromBlock block;
  match configFromBlock with
  | None => Ok (st.1, false)
  | Some c => _ ← VerifyBlockSignature block signatureVerifier st.1; Ok (Some c, true)
  end.

Definition VerifyBlocks (blockBuff : list FullBlock) (signatureVerifier : BlockVerifier) : outcome unit :=
  if bool_decide (blockBuff = []) then Err "buffer is empty"
  else
    _ ← foldM (λ _ i, VerifyBlockHash i blockBuff) () (seq 0 (length blockBuff));
    '(config, isLastBlockConfigBlock) ← foldM (verify_config signatureVerifier) (None, false) blockBuff;
    lastBlock ← deref (last blockBuff);
    if isLastBlockConfigBlock : bool then Ok () else VerifyBlockSignature lastBlock signatureVerifier config.

(** ** Policies *)
Definition BlockValidation : string := "/Channel/Orderer/BlockValidation".

(** [BlockValidationPolicyVerifier.VerifyBlockSignature]. *)
Definition policy_verifier (PolicyMgr : ManagerImpl) (Channel : string) : BlockVerifier := λ sd envelope,
  policyMgr ← match envelope with
              | None => Ok PolicyMgr
              | Some e => bundle ← NewBundle Channel (ce_Config e); Ok (b_PolicyManager bundle)
              end;
  policy ← manager_GetPolicy policyMgr BlockValidation;
  policy ← from_option_err ("policy " +:+ BlockValidation +:+ " wasn't found") policy;
  match p_EvaluateSignedData policy sd with None => Ok () | Some e => Err e end.

Definition VerifierFromConfig (configuration : ConfigEnvelope) (channel : string) : outcome BlockVerifier :=
  bundle ← with_message "failed extracting bundle from envelope" (NewBundle channel (ce_Config configuration));
  Ok (policy_verifier (b_PolicyManager bundle) channel).

(** ** The registry of verifiers *)
Notation registry := (gmap string BlockVerifier).

Definition RegisterVerifier (LoadVerifier : string → option BlockVerifier) (vr : registry) (chain : string) : registry :=
  match vr !! chain with
  | Some _ => vr
  | None => match LoadVerifier chain with Some v => <[chain := v]> vr | None => vr end
  end.

Definition BlockCommitted (vr : registry) (block : FullBlock) (channel : string) : outcome registry :=
  match ConfigFromBlock block with
  | Ok None | Err _ => Ok vr
  | Ok (Some conf) =>
      match VerifierFromConfig conf channel with
      | Ok verifier => Ok (<[channel := verifier]> vr)
      | Err _ => Ok vr
      | Panic e => Panic e
      end
  | Panic e => Panic e
  end.

(** [LedgerInterceptor.Append]: the registry is told also when the ledger refuses
    the block. *)
Definition interceptor_Append (append : FullBlock → outcome unit) (vr : registry) (block : FullBlock) (channel : string)
    : outcome (outcome unit * registry) :=
  let res := append block in
  vr ← BlockCommitted vr block channel;
  match res with Panic e => Panic e | _ => Ok (res, vr) end.

Definition LastConfigBlock (block : option FullBlock) (blockRetriever : option (Z → option FullBlock)) : outcome FullBlock :=
  block ← from_option_err "nil block" block;
  Block ← from_option_err "nil blockRetriever" blockRetriever;
  lastConfigBlockNum ← GetLastConfigIndexFromBlock block;
  from_option_err "unable to retrieve last config block" (Block lastConfigBlockNum).

(** ** What is verified *)

(** The hash of the transactions is the one of the header; they are well formed,
    except in the genesis block. *)
Definition block_sealed (block : FullBlock) (h : BlockHeader) : Prop :=
  fb_Header block = Some h ∧
  (∃ data, fb_Data block = Some data ∧ BlockDataHash data = bh_DataHash h) ∧
  (VerifyTransactionsAreWellFormed marshal_Envelope (Some block) = Ok () ∨
   (bh_Number h ≤ 0)%Z ∧ ∃ e, VerifyTransactionsAreWellFormed marshal_Envelope (Some block) = Err e).

Definition follows (prev h : BlockHeader) : Prop := bh_Number h = u64 (bh_Number prev + 1) ∧ bh_PreviousHash h = BlockHeaderHash prev.

Lemma VerifyBlockHash_Ok i buff :
  VerifyBlockHash i buff = Ok () ↔
  ∃ block h, buff !! i = Some block ∧ block_sealed block h ∧
    match i with
    | 0 => True
    | S j => ∃ b prev, buff !! j = Some b ∧ fb_Header b = Some prev ∧ follows prev h
    end.
Proof.
  unfold VerifyBlockHash. split.
  - intros E. apply bind_Ok in E as (block & Hb%from_option_err_Ok & E). apply bind_Ok in E as (h & Hh%from_option_err_Ok & E).
    apply bind_Ok in E as ([] & Hw & E). apply bind_Ok in E as (data & Hd%deref_Ok & E).
    destruct (bool_decide_reflect (BlockDataHash data = bh_DataHash h)) as [Hdh|]; [|done]. cbn [negb] in E. exists block, h. split; [done|]. split.
    + split_and!; [done|by exists data|]. destruct (VerifyTransactionsAreWellFormed marshal_Envelope (Some block)) as [[]|e|]; [by left| |done].
      right. destruct (Z.ltb_spec 0 (bh_Number h)); [done|]. by split; [|exists e].
    + destruct i as [|j]; [done|]. apply bind_Ok in E as (b & Hb'%from_option_err_Ok & E). apply bind_Ok in E as (prev & Hp%from_option_err_Ok & E).
      exists b, prev. split_and!; [done..|]. destruct (Z.eqb_spec (u64 (bh_Number prev + 1)) (bh_Number h)); [|done]. cbn [negb] in E.
      by destruct (bool_decide_reflect (bh_PreviousHash h = BlockHeaderHash prev)).
  - intros (block & h & Hb & (Hh & (data & Hd & Hdh) & Hw) & Hp). rewrite Hb. cbn [from_option_err mbind outcome_bind]. rewrite Hh.
    cbn [from_option_err mbind outcome_bind].
    assert (match VerifyTransactionsAreWellFormed marshal_Envelope (Some block) with
      | Err e => if (0 <? bh_Number h)%Z then Err ("block has malformed transactions: " +:+ e) else Ok ()
      | o => o end = Ok ()) as ->.
    { destruct Hw as [-> |[Hn [e ->]]]; [done|]. by rewrite (proj2 (Z.ltb_ge _ _)). }
    rewrite Hd. cbn [deref mbind outcome_bind]. rewrite bool_decide_eq_true_2 by done. cbn [negb]. destruct i as [|j]; [done|].
    destruct Hp as (b & prev & -> & Hp & Hn & Hprev). cbn [from_option_err mbind outcome_bind]. rewrite Hp. cbn [from_option_err mbind outcome_bind].
    rewrite Hn, Z.eqb_refl. cbn [negb]. by rewrite bool_decide_eq_true_2.
Qed.

(** The configuration found last; none if the one that is committed is in force. *)
Definition in_force (blocks : list FullBlock) : option ConfigEnvelope :=
  last (omap (λ b, match ConfigFromBlock b with Ok c => c | _ => None end) blocks).

Definition signed_under (v : BlockVerifier) (block : FullBlock) (config : option ConfigEnvelope) : Prop :=
  ∃ sd, SignatureSetFromBlock block = Ok sd ∧ v sd config = Ok ().

Lemma VerifyBlockSignature_Ok v block config : VerifyBlockSignature block v config = Ok () ↔ signed_under v block config.
Proof.
  unfold VerifyBlockSignature, signed_under. split; [intros E; apply bind_Ok in E as (sd & ? & ?); eauto|]. by intros (sd & -> & ?).
Qed.

Lemma in_force_snoc blocks b : in_force (blocks ++ [b]) = match ConfigFromBlock b with Ok (Some c) => Some c | _ => in_force blocks end.
Proof.
  unfold in_force. rewrite omap_app. cbn. destruct (ConfigFromBlock b) as [[c|]| |]; rewrite ?app_nil_r; try done. by rewrite last_snoc.
Qed.

(** The loop over the configuration blocks. *)
Lemma verify_configs_Ok v blocks config flag :
  foldM (verify_config v) (None, false) blocks = Ok (config, flag) ↔
  config = in_force blocks ∧
  flag = match last blocks with Some b => match ConfigFromBlock b with Ok (Some _) => true | _ => false end | None => false end ∧
  ∀ i b, blocks !! i = Some b → ∃ c, ConfigFromBlock b = Ok c ∧ (is_Some c → signed_under v b (in_force (take i blocks))).
Proof.
  revert config flag. induction blocks as [|b blocks IH] using rev_ind; intros config flag.
  { cbn. split; [by intros [= <- <-]|]. by intros (-> & -> & _). }
  rewrite foldM_app, in_force_snoc, last_snoc. split.
  - intros E. destruct (foldM (verify_config v) (None, false) blocks) as [[config0 flag0]| |] eqn:E0; [|done..].
    destruct (proj1 (IH config0 flag0) eq_refl) as (-> & -> & Hall). cbn [foldM] in E.
    destruct (verify_config v _ b) as [st| |] eqn:Ev; [|done..]. injection E as ->. unfold verify_config in Ev. cbn [fst] in Ev.
    apply bind_Ok in Ev as (c & Hc & Ev). rewrite Hc.
    assert ((∃ c0, ConfigFromBlock b = Ok c0 ∧ (is_Some c0 → signed_under v b (in_force blocks))) ∧
      config = match c with Some c => Some c | None => in_force blocks end ∧ flag = match c with Some _ => true | None => false end)
      as (Hb & -> & ->).
    { destruct c as [c|]; [apply bind_Ok in Ev as ([] & Hs%VerifyBlockSignature_Ok & [= <- <-])|injection Ev as <- <-];
        (split; [eexists; split; [done|]|done]); [done|by intros [? ?]]. }
    split_and!; [by destruct c..|]. intros i b' [Hi|[Hge Hi]]%lookup_app_Some.
    + rewrite take_app_le by (apply lookup_lt_Some in Hi; lia). by apply Hall.
    + apply list_lookup_singleton_Some in Hi as [Hi <-]. rewrite take_app_length' by lia. done.
  - intros (-> & -> & Hall). destruct (Hall (length blocks) b) as (c & Hc & Hs); [by rewrite list_lookup_middle|].
    rewrite take_app_length in Hs. rewrite Hc.
    assert (foldM (verify_config v) (None, false) blocks = Ok (in_force blocks, match last blocks with Some b =>
      match ConfigFromBlock b with Ok (Some _) => true | _ => false end | None => false end)) as ->.
    { apply IH. split_and!; [done..|]. intros i b' Hi. destruct (Hall i b') as (c' & Hc' & Hs'); [by apply lookup_app_l_Some|].
      exists c'. split; [done|]. rewrite take_app_le in Hs' by (apply lookup_lt_Some in Hi; lia). done. }
    cbn [mbind outcome_bind foldM]. unfold verify_config. rewrite Hc. cbn [mbind outcome_bind fst]. destruct c as [c|]; [|done].
    by rewrite (proj2 (VerifyBlockSignature_Ok _ _ _) (Hs (mk_is_Some _ _ eq_refl))).
Qed.

(** C16: A buffer of blocks is accepted exactly when every block carries the hash of
    its transactions and follows the one before, and every configuration block
    and the last block is signed under the configuration in force there: the one
    of the configuration block before it in the buffer, or the committed one. *)
Theorem verified_blocks_spec (v : BlockVerifier) (blocks : list FullBlock) :
  VerifyBlocks blocks v = Ok () ↔
  blocks ≠ [] ∧
  (∀ i b, blocks !! i = Some b → ∃ h, block_sealed b h) ∧
  (∀ i b b' h h', blocks !! i = Some b → blocks !! S i = Some b' → fb_Header b = Some h → fb_Header b' = Some h' → follows h h') ∧
  (∀ i b, blocks !! i = Some b → ∃ c, ConfigFromBlock b = Ok c ∧
     (is_Some c ∨ S i = length blocks → signed_under v b (in_force (take i blocks)))).
Proof.
  unfold VerifyBlocks. case_bool_decide as Hne; [by split; [|intros []]|].
  destruct (exists_last Hne) as (init & lastb & Hlast).
  assert (∀ i b, blocks !! i = Some b → ∀ c, ConfigFromBlock b = Ok c → S i = length blocks → b = lastb ∧ take i blocks = init) as Hend.
  { intros i b Hi _ _ Hl. rewrite Hlast in *. rewrite length_app in Hl. cbn in Hl. assert (i = length init) as -> by lia.
    rewrite list_lookup_middle in Hi by done. injection Hi as <-. by rewrite take_app_length. }
  split.
  - intros E. apply bind_Ok in E as ([] & Hh & E). apply bind_Ok in E as ([config flag] & (-> & -> & Hc)%verify_configs_Ok & E).
    apply bind_Ok in E as (b0 & Hb0%deref_Ok & E). rewrite Hlast, last_snoc in Hb0. injection Hb0 as <-.
    assert (∀ i b, blocks !! i = Some b → VerifyBlockHash i blocks = Ok ()) as Hv.
    { intros i b Hi%lookup_lt_Some. apply (foldM_checks _ _ Hh). apply elem_of_seq. lia. }
    split_and!; [done|..].
    + intros i b Hi. destruct (proj1 (VerifyBlockHash_Ok _ _) (Hv _ _ Hi)) as (b' & h & Hi' & Hs & _). exists h. congruence.
    + intros i b b' h h' Hi Hi' Hh1 Hh2. destruct (proj1 (VerifyBlockHash_Ok _ _) (Hv _ _ Hi')) as (b1 & h1 & Hb1 & (Hs & _) & b2 & p & Hb2 & Hp & Hf).
      congruence.
    + intros i b Hi. destruct (Hc i b Hi) as (c & Hcb & Hs). exists c. split; [done|]. intros [?|Hl]; [by apply Hs|].
      destruct (Hend _ _ Hi _ Hcb Hl) as [-> Et]. rewrite Hlast, last_snoc, Hcb in E. destruct c as [c|]; [apply Hs; by eexists|].
      apply VerifyBlockSignature_Ok in E. rewrite in_force_snoc, Hcb in E. by rewrite Et.
  - intros (_ & Hs & Hf & Hc).
    rewrite (foldM_checks_intro (λ _ i, VerifyBlockHash i blocks)).
    2: { intros i [_ Hi]%elem_of_seq. destruct (lookup_lt_is_Some_2 blocks i) as [b Hb]; [lia|]. destruct (Hs i b Hb) as [h Hbs].
      apply VerifyBlockHash_Ok. exists b, h. split_and!; [done..|]. destruct i as [|j]; [done|].
      destruct (lookup_lt_is_Some_2 blocks j) as [b' Hb']; [apply lookup_lt_Some in Hb; lia|]. destruct (Hs j b' Hb') as [prev Hbp].
      exists b', prev. split_and!; [done|apply Hbp|]. eapply Hf; [done..|apply Hbp|apply Hbs]. }
    cbn [mbind outcome_bind]. erewrite (proj2 (verify_configs_Ok v blocks _ _)).
    2: { split_and!; [done..|]. intros i b Hi. destruct (Hc i b Hi) as (c & ? & ?). exists c. auto. }
    cbn [mbind outcome_bind]. destruct (Hc (length init) lastb) as (c & Hcb & Hsig).
    { rewrite Hlast. by apply list_lookup_middle. }
    rewrite Hlast, last_snoc. cbn [deref mbind outcome_bind]. rewrite in_force_snoc, Hcb. destruct c as [c|]; [done|].
    apply VerifyBlockSignature_Ok. rewrite Hlast, take_app_length in Hsig. apply Hsig. right. rewrite length_app. cbn. lia.
Qed.

(** With the verifier made of a configuration: the block validation policy that
    the signatures satisfy is the one of the configuration in force. *)
Lemma policy_verifier_Ok pm channel sd config :
  policy_verifier pm channel sd config = Ok () ↔
  ∃ pm' p, match config with None => pm' = pm | Some e => ∃ b, NewBundle channel (ce_Config e) = Ok b ∧ pm' = b_PolicyManager b end ∧
    manager_GetPolicy pm' BlockValidation = Ok (Some p) ∧ p_EvaluateSignedData p sd = None.
Proof.
  unfold policy_verifier. split.
  - intros E. apply bind_Ok in E as (pm' & Hpm & E). apply bind_Ok in E as (op & Hp & E). apply bind_Ok in E as (p & ->%from_option_err_Ok & E).
    exists pm', p. split_and!; [|done|by destruct (p_EvaluateSignedData p sd)].
    destruct config as [e|]; [apply bind_Ok in Hpm as (b & ? & [= <-]); eauto|by injection Hpm as <-].
  - intros (pm' & p & Hc & Hp & He). assert (match config with None => Ok pm
      | Some e => bundle ← NewBundle channel (ce_Config e); Ok (b_PolicyManager bundle) end = Ok pm') as ->.
    { destruct config as [e|]; [by destruct Hc as (b & -> & ->)|by subst]. }
    cbn [mbind outcome_bind]. rewrite Hp. cbn [mbind outcome_bind from_option_err]. by rewrite He.
Qed.

(** A configuration block that the ledger refuses still replaces the verifier. *)
Lemma refused_block_replaces_verifier append vr block channel e conf bundle :
  append block = Err e → ConfigFromBlock block = Ok (Some conf) → NewBundle channel (ce_Config conf) = Ok bundle →
  ∃ vr', interceptor_Append append vr block channel = Ok (Err e, vr') ∧
    vr' !! channel = Some (policy_verifier (b_PolicyManager bundle) channel).
Proof.
  intros Ha Hc Hb. unfold interceptor_Append, BlockCommitted, VerifierFromConfig. rewrite Ha, Hc, Hb. cbn. eexists. split; [done|].
  by rewrite lookup_insert_eq.
Qed.
End verify.
