(* ===== verification/StateTransfer.v ===== *)
(** * StateTransfer: blocks reach the committer in order
      (gossip/state/payloads_buffer.go, state.go)

    Payloads arrive from the ordering service and from other peers in any order
    and more than once. The buffer keeps them by sequence number; a goroutine
    waits for the signal that the next one has arrived, pops all that follow and
    stores their blocks. Requests to other peers are left out. *)

From S2P Require Import Prelude GoText Protos Proposal Blocks.

Record GossipPayload := mkGossipPayload { SeqNum : Z; gp_Data : bytes; gp_PrivateData : option bytes }.

(** ** The buffer (payloads_buffer.go)

    The channel [readyChan] has one place. *)
Record PayloadsBuffer := mkPayloadsBuffer { pb_next : Z; pb_buf : gmap Z GossipPayload; pb_ready : bool }.

Definition NewPayloadsBuffer (next : Z) : PayloadsBuffer := mkPayloadsBuffer next ∅ false.

Definition Push (b : PayloadsBuffer) (payload : GossipPayload) : PayloadsBuffer :=
  let seqNum := SeqNum payload in
  if (seqNum <? pb_next b)%Z || bool_decide (is_Some (pb_buf b !! seqNum)) then b
  else mkPayloadsBuffer (pb_next b) (<[seqNum := payload]> (pb_buf b)) (pb_ready b || (seqNum =? pb_next b)%Z).

Definition drainReadChannel (b : PayloadsBuffer) : PayloadsBuffer :=
  if (size (pb_buf b) =? 0)%nat then mkPayloadsBuffer (pb_next b) (pb_buf b) false else b.

Definition Pop (b : PayloadsBuffer) : option GossipPayload * PayloadsBuffer :=
  match pb_buf b !! pb_next b with
  | Some result => (Some result, drainReadChannel (mkPayloadsBuffer (u64 (pb_next b + 1)) (delete (pb_next b) (pb_buf b)) (pb_ready b)))
  | None => (None, b)
  end.

(** ** Adding a payload (state.go)

    In the blocking mode a payload waits while the buffer is too large: no result then. *)
Definition addPayload (StateBlockBufferSize : Z) (blockingMode : bool) (LedgerHeight : outcome Z) (b : PayloadsBuffer)
    (payload : option GossipPayload) : outcome (option PayloadsBuffer) :=
  payload ← from_option_err "Given payload is nil" payload;
  height ← with_message "Failed obtaining ledger height" LedgerHeight;
  if negb blockingMode && (StateBlockBufferSize <=? u64 (SeqNum payload - height))%Z
  then Err "Ledger height is too low, cannot enqueue block"
  else if blockingMode && (StateBlockBufferSize * 2 <? Z.of_nat (size (pb_buf b)))%Z then Ok None
  else Ok (Some (Push b payload)).

(** Without blocking a payload is taken if it is at most [StateBlockBufferSize]
    blocks ahead of the ledger; one the ledger has is refused, as the difference
    wraps around. *)
Lemma payload_window size height b p :
  (0 ≤ SeqNum p < 2 ^ 63)%Z → (0 ≤ height < 2 ^ 63)%Z → (0 ≤ size < 2 ^ 63)%Z →
  addPayload size false (Ok height) b (Some p) = Ok (Some (Push b p)) ↔ (height ≤ SeqNum p < height + size)%Z.
Proof.
  intros Hp Hh Hs. unfold addPayload, u64, wrap. cbn [from_option_err with_message mbind outcome_bind negb andb].
  destruct (Z.leb_spec size ((SeqNum p - height) mod 2 ^ 64)) as [Hle|Hlt].
  - split; [done|]. intros Hw. rewrite Z.mod_small in Hle by lia. lia.
  - split; [intros _|done]. destruct (decide (height ≤ SeqNum p)%Z); [rewrite Z.mod_small in Hlt by lia; lia|].
    rewrite <- (Z_mod_plus_full _ 1) in Hlt. rewrite Z.mod_small in Hlt by lia. lia.
Qed.

(** ** Delivering (state.go) *)
Section deliver.
Context {L : Type}.
Context (unmarshal_Block : bytes → option FullBlock).
(** [PvtDataCollections.Unmarshal]. *)
Context {P : Type} (unmarshal_PvtData : bytes → option P).

(** What [StoreBlock] answers; validation that could not be executed is told
    apart from other errors. *)
Inductive store_result := Stored (l : L) | ExecutionFailure | StoreError.
Context (StoreBlock : L → FullBlock → option P → store_result).

Inductive mode := Waiting | Delivering | Aborted | Panicked.

(** With the history: the payloads given to [Push], those popped and the blocks stored. *)
Record provider := mkProvider {
  pr_payloads : PayloadsBuffer;
  pr_mode : mode;
  pr_ledger : L;
  pr_added : list GossipPayload;
  pr_popped : list GossipPayload;
  pr_stored : list FullBlock
}.

(** What a payload is turned into; nothing if it is dropped. *)
Definition block_of_payload (payload : GossipPayload) : option (FullBlock * option P) :=
  rawBlock ← unmarshal_Block (gp_Data payload);
  _ ← fb_Data rawBlock;
  _ ← fb_Header rawBlock;
  match gp_PrivateData payload with
  | None => Some (rawBlock, None)
  | Some d => p ← unmarshal_PvtData d; Some (rawBlock, Some p)
  end.

(** The body of the loop of [deliverPayloads], with [commitBlock]. *)
Definition deliver_payload (s : provider) (payload : GossipPayload) (b : PayloadsBuffer) : provider :=
  let popped := pr_popped s ++ [payload] in
  match block_of_payload payload with
  | None => mkProvider b Delivering (pr_ledger s) (pr_added s) popped (pr_stored s)
  | Some (block, p) =>
      match StoreBlock (pr_ledger s) block p with
      | Stored l => mkProvider b Delivering l (pr_added s) popped (pr_stored s ++ [block])
      | ExecutionFailure => mkProvider b Aborted (pr_ledger s) (pr_added s) popped (pr_stored s)
      | StoreError => mkProvider b Panicked (pr_ledger s) (pr_added s) popped (pr_stored s)
      end
  end.

(** One turn of the loop. *)
Definition deliver_turn (s : provider) : provider :=
  match pr_mode s with
  | Waiting =>
      if pb_ready (pr_payloads s)
      then mkProvider (mkPayloadsBuffer (pb_next (pr_payloads s)) (pb_buf (pr_payloads s)) false) Delivering (pr_ledger s)
             (pr_added s) (pr_popped s) (pr_stored s)
      else s
  | Delivering =>
      match Pop (pr_payloads s) with
      | (Some payload, b) => deliver_payload s payload b
      | (None, b) => mkProvider b Waiting (pr_ledger s) (pr_added s) (pr_popped s) (pr_stored s)
      end
  | Aborted | Panicked => s
  end.

Inductive provider_step (StateBlockBufferSize : Z) : provider → provider → Prop :=
| ps_add s payload blockingMode height b :
    (0 ≤ SeqNum payload < 2 ^ 64 - 1)%Z →
    addPayload StateBlockBufferSize blockingMode height (pr_payloads s) (Some payload) = Ok (Some b) →
    provider_step StateBlockBufferSize s (mkProvider b (pr_mode s) (pr_ledger s) (pr_added s ++ [payload]) (pr_popped s) (pr_stored s))
| ps_turn s : provider_step StateBlockBufferSize s (deliver_turn s).

(** ** Order *)
Record provider_ok (next0 : Z) (s : provider) : Prop := {
  po_popped : SeqNum <$> pr_popped s = seqZ next0 (Z.of_nat (length (pr_popped s)));
  po_next : pb_next (pr_payloads s) = (next0 + Z.of_nat (length (pr_popped s)))%Z;
  po_from p : p ∈ pr_popped s → p ∈ pr_added s;
  po_buf n p : pb_buf (pr_payloads s) !! n = Some p → SeqNum p = n ∧ p ∈ pr_added s ∧ (pb_next (pr_payloads s) ≤ n < 2 ^ 64 - 1)%Z;
  po_kept p : p ∈ pr_added s → (SeqNum p < pb_next (pr_payloads s))%Z ∨ is_Some (pb_buf (pr_payloads s) !! SeqNum p);
  po_awake : is_Some (pb_buf (pr_payloads s) !! pb_next (pr_payloads s)) → pr_mode s = Waiting → pb_ready (pr_payloads s) = true;
  po_range : (0 ≤ pb_next (pr_payloads s) < 2 ^ 64)%Z;
  po_stored : match pr_mode s with
              | Waiting | Delivering => pr_stored s = fst <$> omap block_of_payload (pr_popped s)
              | Aborted | Panicked => ∃ init p, pr_popped s = init ++ [p] ∧ pr_stored s = fst <$> omap block_of_payload init
              end
}.

Lemma add_ok next0 s payload b size blocking height :
  provider_ok next0 s → (0 ≤ SeqNum payload < 2 ^ 64 - 1)%Z →
  addPayload size blocking height (pr_payloads s) (Some payload) = Ok (Some b) →
  provider_ok next0 (mkProvider b (pr_mode s) (pr_ledger s) (pr_added s ++ [payload]) (pr_popped s) (pr_stored s)).
Proof.
  intros [H1 H2 H3 H4 H5 H6 H7 H8] Hr E. assert (b = Push (pr_payloads s) payload) as ->.
  { unfold addPayload in E. cbn [from_option_err mbind outcome_bind] in E. apply bind_Ok in E as (h & _ & E).
    destruct (_ && _); [done|]. destruct (_ && _); [done|]. by injection E as <-. }
  unfold Push. destruct (Z.ltb_spec (SeqNum payload) (pb_next (pr_payloads s))) as [Hlt|Hge]; cbn [orb].
  { split; cbn; try done; intros p; rewrite ?elem_of_app, ?list_elem_of_singleton; [set_solver| |].
    - intros p' Hp. destruct (H4 _ _ Hp) as (? & ? & ?). set_solver.
    - intros [?| ->]; [by apply H5|by left]. }
  case_bool_decide as Hin.
  { split; cbn; try done; intros p; rewrite ?elem_of_app, ?list_elem_of_singleton; [set_solver| |].
    - intros p' Hp. destruct (H4 _ _ Hp) as (? & ? & ?). set_solver.
    - intros [?| ->]; [by apply H5|by right]. }
  split; cbn; try done.
  - intros p Hp. apply elem_of_app. left. by apply H3.
  - intros n p [[<- <-]|[Hne Hp]]%lookup_insert_Some.
    + split_and!; [done|apply elem_of_app; right; by left|lia..].
    + destruct (H4 _ _ Hp) as (? & ? & ?). split_and!; [done|apply elem_of_app; by left|lia..].
  - intros p [Hp| ->%list_elem_of_singleton]%elem_of_app; [|right; by rewrite lookup_insert_eq].
    destruct (H5 p Hp) as [?|[q Hq]]; [by left|]. right. destruct (decide (SeqNum p = SeqNum payload)) as [->|Hne]; [by rewrite lookup_insert_eq|].
    rewrite lookup_insert_ne by done. by eexists.
  - intros Hnext Hm. destruct (Z.eqb_spec (SeqNum payload) (pb_next (pr_payloads s))); [by rewrite orb_true_r|].
    rewrite lookup_insert_ne in Hnext by done. by rewrite H6.
Qed.

(** Popping the next payload. *)
Lemma pop_ok next0 s payload b m l st :
  provider_ok next0 s → pr_mode s = Delivering → Pop (pr_payloads s) = (Some payload, b) → m ≠ Waiting →
  (match m with
   | Waiting | Delivering => st = fst <$> omap block_of_payload (pr_popped s ++ [payload])
   | Aborted | Panicked => st = pr_stored s
   end) →
  provider_ok next0 (mkProvider b m l (pr_added s) (pr_popped s ++ [payload]) st).
Proof.
  intros [H1 H2 H3 H4 H5 H6 H7 H8] Hm E Hnw Hst. unfold Pop in E. destruct (pb_buf (pr_payloads s) !! pb_next (pr_payloads s)) as [q|] eqn:Eq; [|done].
  injection E as -> <-. destruct (H4 _ _ Eq) as (Hseq & Hadd & Hr).
  assert (u64 (pb_next (pr_payloads s) + 1) = (pb_next (pr_payloads s) + 1)%Z) as En by (unfold u64, wrap; rewrite Z.mod_small; lia).
  set (b0 := mkPayloadsBuffer (u64 (pb_next (pr_payloads s) + 1)) (delete (pb_next (pr_payloads s)) (pb_buf (pr_payloads s))) (pb_ready (pr_payloads s))).
  assert (pb_next (drainReadChannel b0) = (pb_next (pr_payloads s) + 1)%Z ∧
    pb_buf (drainReadChannel b0) = delete (pb_next (pr_payloads s)) (pb_buf (pr_payloads s))) as [Enext Ebuf].
  { unfold drainReadChannel. rewrite <- En. by destruct (size (pb_buf b0) =? 0). }
  split; cbn [pr_payloads pr_mode pr_added pr_popped pr_stored]; rewrite ?Enext, ?Ebuf.
  - rewrite fmap_app, length_app, H1. cbn. rewrite Nat2Z.inj_add, seqZ_app by lia. do 2 f_equal. rewrite Hseq, H2. done.
  - rewrite length_app. cbn. lia.
  - intros p [Hp| ->%list_elem_of_singleton]%elem_of_app; [by apply H3|done].
  - intros n p [Hne Hp]%lookup_delete_Some. destruct (H4 _ _ Hp) as (? & ? & ?). split_and!; [done|done|lia..].
  - intros p Hp. destruct (H5 p Hp) as [?|[x Hx]]; [left; lia|]. destruct (decide (SeqNum p = pb_next (pr_payloads s))) as [->|Hne]; [left; lia|].
    right. rewrite lookup_delete_ne by done. by eexists.
  - done.
  - lia.
  - rewrite Hm in H8. destruct m; [done|done|..]; by exists (pr_popped s), payload; rewrite <- H8.
Qed.

Lemma turn_ok next0 s : provider_ok next0 s → provider_ok next0 (deliver_turn s).
Proof.
  intros Hs. unfold deliver_turn. destruct (pr_mode s) eqn:Em; [|..|done|done].
  - destruct (pb_ready (pr_payloads s)) eqn:Er; [|done]. destruct Hs as [H1 H2 H3 H4 H5 H6 H7 H8]. rewrite Em in H8. by split.
  - destruct (Pop (pr_payloads s)) as [[payload|] b] eqn:Ep.
    + assert (pr_stored s = fst <$> omap block_of_payload (pr_popped s)) as Hst by (pose proof (po_stored _ _ Hs) as H8; by rewrite Em in H8).
      assert (∀ x, block_of_payload payload = x → omap block_of_payload (pr_popped s ++ [payload]) = omap block_of_payload (pr_popped s) ++
        match x with Some y => [y] | None => [] end) as Ho by (intros x <-; rewrite omap_app; done).
      unfold deliver_payload. destruct (block_of_payload payload) as [[block p]|] eqn:Eb.
      * destruct (StoreBlock (pr_ledger s) block p); eapply pop_ok; try done. by rewrite (Ho _ eq_refl), fmap_app, Hst.
      * eapply pop_ok; try done. by rewrite (Ho _ eq_refl), app_nil_r.
    + unfold Pop in Ep. destruct (pb_buf (pr_payloads s) !! pb_next (pr_payloads s)) eqn:En; [done|]. injection Ep as <-.
      destruct Hs as [H1 H2 H3 H4 H5 H6 H7 H8]. rewrite Em in H8. split; try done. cbn. intros [? ?]. congruence.
Qed.

(** C15: payloads are taken up in the order of their numbers from the first on,
    without a gap and each number once, and the blocks of those that decode are
    stored in this order. When the goroutine waits and there is no signal, the
    next payload has not been added: nothing that could be delivered is left. *)
Theorem in_order_delivery (StateBlockBufferSize next0 : Z) (l : L) (s : provider) :
  (0 ≤ next0 < 2 ^ 64)%Z →
  rtc (provider_step StateBlockBufferSize) (mkProvider (NewPayloadsBuffer next0) Waiting l [] [] []) s →
  SeqNum <$> pr_popped s = seqZ next0 (Z.of_nat (length (pr_popped s))) ∧
  (∀ p, p ∈ pr_popped s → p ∈ pr_added s) ∧
  (pr_mode s = Waiting ∨ pr_mode s = Delivering → pr_stored s = fst <$> omap block_of_payload (pr_popped s)) ∧
  (pr_mode s = Waiting → pb_ready (pr_payloads s) = false →
   ∀ n, (∀ m, (next0 ≤ m ≤ n)%Z → ∃ p, p ∈ pr_added s ∧ SeqNum p = m) → (next0 ≤ n)%Z →
     ∃ p, p ∈ pr_popped s ∧ SeqNum p = n).
Proof.
  intros Hr Hs. assert (provider_ok next0 s) as Ok_s.
  { assert (provider_ok next0 (mkProvider (NewPayloadsBuffer next0) Waiting l [] [] [])) as H0.
    { split; cbn; try done; try set_solver; try lia. by intros [? ?]. }
    induction Hs as [|s1 s2 s3 Hst _ IH]; [done|]. apply IH. destruct Hst; [by eapply add_ok|by apply turn_ok]. }
  destruct Ok_s as [H1 H2 H3 H4 H5 H6 H7 H8]. split_and!; [done|done|by intros [E|E]; rewrite E in H8|].
  intros Hw Hnr n Hn Hle.
  assert (n < pb_next (pr_payloads s))%Z as Hlt.
  { destruct (decide (n < pb_next (pr_payloads s))%Z) as [|Hge]; [done|]. destruct (Hn (pb_next (pr_payloads s))) as (p & Hp & Ep); [lia|].
    destruct (H5 p Hp) as [?|Hin]; [lia|]. rewrite Ep in Hin. by rewrite H6 in Hnr. }
  assert (n ∈ SeqNum <$> pr_popped s) as (p & -> & Hp)%list_elem_of_fmap; [|by exists p]. rewrite H1. apply elem_of_seqZ. lia.
Qed.
End deliver.

(** ** Two blocks in the wrong order *)
Section sample.
Definition numbered (n : Z) : FullBlock := mkFullBlock (Some (mkBlockHeader n "" "")) (Some ["tx"]) None.
Definition decode_block (b : bytes) : option FullBlock := if decide (b = "b1") then Some (numbered 1) else if decide (b = "b2") then Some (numbered 2) else None.
Definition append_block (l : list FullBlock) (b : FullBlock) (_ : option unit) : store_result := Stored (l ++ [b]).
Definition payload1 : GossipPayload := mkGossipPayload 1 "b1" None.
Definition payload2 : GossipPayload := mkGossipPayload 2 "b2" None.
Notation turn := (deliver_turn decode_block (λ _, None) append_block).
Definition swapped : @provider (list FullBlock) :=
  mkProvider (Push (Push (NewPayloadsBuffer 1) payload2) payload1) Waiting [] [payload2; payload1] [] [].

Lemma sample_delivered :
  turn (turn (turn (turn swapped))) =
  mkProvider (mkPayloadsBuffer 3 ∅ false) Waiting [numbered 1; numbered 2] [payload2; payload1] [payload1; payload2] [numbered 1; numbered 2].
Proof. vm_compute. reflexivity. Qed.

Lemma sample_steps :
  rtc (provider_step decode_block (λ _, None) append_block 10) (mkProvider (NewPayloadsBuffer 1) Waiting [] [] [] [])
    (turn (turn (turn (turn swapped)))).
Proof.
  eapply rtc_l; [apply (ps_add _ _ _ _ _ payload2 true (Ok 1%Z) (Push (NewPayloadsBuffer 1) payload2)); [cbn; lia|reflexivity]|].
  eapply rtc_l; [apply (ps_add _ _ _ _ _ payload1 false (Ok 1%Z) (Push (Push (NewPayloadsBuffer 1) payload2) payload1)); [cbn; lia|reflexivity]|].
  do 4 (eapply rtc_l; [apply ps_turn|]). apply rtc_refl.
Qed.

Lemma in_order_delivery_witness :
  SeqNum <$> pr_popped (turn (turn (turn (turn swapped)))) = seqZ 1 2 ∧
  pr_stored (turn (turn (turn (turn swapped)))) = [numbered 1; numbered 2].
Proof.
  destruct (in_order_delivery decode_block (λ _, None) append_block 10 1 [] _ ltac:(lia) sample_steps) as (Hp & _ & Hs & _).
  rewrite sample_delivered in *. split; [exact Hp|]. exact (Hs (or_introl eq_refl)).
Defined.
End sample.
