(* ===== verification/KeyLevel.v ===== *)
(** * KeyLevel: endorsement policies of keys, collections and chaincodes
      (core/common/validation/statebased/validator_keylevel.go, v20.go, vpmanagerimpl.go;
      core/handlers/validation/builtin/v20/validation_logic.go)

    The default validation plugin checks the endorsements of a transaction
    against the policy of every key it writes. A transaction that follows an
    update of a key's policy in the same block has to wait for the verdict on
    the update, so the calls may wait: such a call has no result in the state
    it is made in, and is made again when the state changes. A dependency that
    nobody asked for is a new one; creating it cannot be observed. *)

From S2P Require Import Prelude GoText Utf8 Base64 Protos TxFlags Proposal ProtoUtil RwSetUtil Policy MsgValidation TxValidator.

(** [commonerrors.TxValidationError]. *)
Inductive tx_error := VSCCExecutionFailure (e : string) | VSCCEndorsementPolicy (e : string).

(** What retrieving a validation parameter may fail with. *)
Inductive vp_error :=
| ValidationParameterUpdatedError
| CollectionNotDefined (e : string)        (* CollConfigNotDefinedError, InvalidCollNameError *)
| OtherVpError (e : string).

Class StateBased := {
  FetchState : option string;
  GetMetadata : string → string → string → gmap string bytes + vp_error;   (* namespace, collection or "", key or its hash *)
  CollectionValidationInfo : string → string → bytes + tx_error;
  unmarshal_SignaturePolicyEnvelope : bytes → option SignaturePolicyEnvelope;
  marshal_ApplicationPolicy : ApplicationPolicy → bytes;
  Evaluate : bytes → list SignedData → outcome unit;                       (* the policy evaluator *)
  dep_order : gset Z → list Z;                                             (* Go's order of a map of dependencies *)
  dep_order_ok X : dep_order X ≡ₚ elements X
}.

(** ** The validation parameter manager (vpmanagerimpl.go) *)
Record txDependency := mkTxDependency {
  validationResultMap : gmap string (option string);
  depInserted : bool
}.
Definition newTxDependency : txDependency := mkTxDependency ∅ false.

Definition ledgerKeyID : Type := string * string * string.

Record validationContext := mkValidationContext {
  blockHeight : Z;
  depsByTxnumMap : gmap Z txDependency;
  depsByLedgerKeyIDMap : gmap ledgerKeyID (gset Z)
}.

Section keylevel.
Context `{Codec} `{ProposalCodec} `{TxCodec} `{StateBased}.

Definition forBlock (c : validationContext) (newHeight : Z) : outcome validationContext :=
  if (newHeight <? blockHeight c)%Z then Panic "programming error: block validated after a later block"
  else if (blockHeight c <? newHeight)%Z then Ok (mkValidationContext newHeight ∅ ∅)
  else Ok c.

Definition addDependency (c : validationContext) (kid : ledgerKeyID) (txnum : Z) : validationContext :=
  mkValidationContext (blockHeight c) (depsByTxnumMap c)
    (<[kid := {[txnum]} ∪ default ∅ (depsByLedgerKeyIDMap c !! kid)]> (depsByLedgerKeyIDMap c)).

Definition dependenciesForTxnum (c : validationContext) (kid : ledgerKeyID) (txnum : Z) : list Z :=
  filter (λ depTxnum, (depTxnum < txnum)%Z) (dep_order (default ∅ (depsByLedgerKeyIDMap c !! kid))).

Definition getOrCreateDependencyByTxnum (c : validationContext) (txnum : Z) : txDependency :=
  default newTxDependency (depsByTxnumMap c !! txnum).

Definition set_dependency (c : validationContext) (txnum : Z) (dep : txDependency) : validationContext :=
  mkValidationContext (blockHeight c) (<[txnum := dep]> (depsByTxnumMap c)) (depsByLedgerKeyIDMap c).

(** A channel is closed once. *)
Definition signalDepInserted (d : txDependency) : outcome txDependency :=
  if depInserted d then Panic "close of closed channel" else Ok (mkTxDependency (validationResultMap d) true).

Definition signalValidationResult (d : txDependency) (ns : string) (err : option string) : txDependency :=
  mkTxDependency (<[ns := err]> (validationResultMap d)) (depInserted d).

(** The loop over the dependencies: [None] while it waits, true at the first
    one that is valid. *)
Fixpoint some_valid (c : validationContext) (cc : string) (deps : list Z) : option bool :=
  match deps with
  | [] => Some false
  | dep :: rest =>
      match validationResultMap (getOrCreateDependencyByTxnum c dep) !! cc with
      | None => None
      | Some None => Some true
      | Some (Some _) => some_valid c cc rest
      end
  end.

Definition waitForValidationResults (c : validationContext) (kid : ledgerKeyID) (txnum : Z) : option bool :=
  some_valid c kid.1.1 (dependenciesForTxnum c kid txnum).

(** The keys whose validation parameters a transaction may change. *)
Definition metadata_keys (rws : NsRwSet) : list ledgerKeyID :=
  ((λ mw, (nrw_NameSpace rws, "", mw_Key mw)) <$> kv_MetadataWrites (nrw_KvRwSet rws)) ++
  flat_map (λ cw, (λ mw, (nrw_NameSpace rws, ch_CollectionName cw, mwh_KeyHash mw)) <$>
                    h_MetadataWrites (ch_HashedRwSet cw)) (nrw_CollHashedRwSets rws).

Definition ExtractValidationParameterDependency (c : validationContext) (blockNum txNum : Z) (rwsetBytes : option bytes)
    : outcome validationContext :=
  vCtx ← forBlock c blockNum;
  vCtx ← match FromProtoBytes rwsetBytes with
         | Ok rwset => Ok (foldl (λ v kid, addDependency v kid txNum) vCtx (flat_map metadata_keys (NsRwSets rwset)))
         | Err _ => Ok vCtx
         | Panic p => Panic p
         end;
  dep ← signalDepInserted (getOrCreateDependencyByTxnum vCtx txNum);
  Ok (set_dependency vCtx txNum dep).

(** [toApplicationPolicyTranslator]. *)
Definition Translate (b : bytes) : outcome bytes :=
  if bool_decide (b = "") then Ok b
  else
    spe ← from_option_err "could not unmarshal signature policy envelope" (unmarshal_SignaturePolicyEnvelope b);
    Ok (marshal_ApplicationPolicy (AP_SignaturePolicy (Some spe))).

Definition ledger_parameter (cc coll key : string) : bytes + vp_error :=
  match FetchState with
  | Some e => inr (OtherVpError ("could not retrieve ledger: " +:+ e))
  | None =>
      match GetMetadata cc coll key with
      | inr e => inr e
      | inl mdMap =>
          match Translate (default "" (mdMap !! "VALIDATION_PARAMETER")) with
          | Ok policy => inl policy
          | Err e | Panic e => inr (OtherVpError ("could not translate policy: " +:+ e))
          end
      end
  end.

(** [None] while the call waits. *)
Definition GetValidationParameterForKey (c : validationContext) (cc coll key : string) (blockNum txNum : Z)
    : outcome (validationContext * option (bytes + vp_error)) :=
  vCtx ← forBlock c blockNum;
  Ok (vCtx,
      if negb (forallb (λ i, depInserted (getOrCreateDependencyByTxnum vCtx i)) (seqZ 0 txNum)) then None
      else
        updated ← waitForValidationResults vCtx (cc, coll, key) txNum;
        Some (if (updated : bool) then inr ValidationParameterUpdatedError else ledger_parameter cc coll key)).

Definition SetTxValidationResult (c : validationContext) (ns : string) (blockNum txNum : Z) (err : option string)
    : outcome validationContext :=
  vCtx ← forBlock c blockNum;
  Ok (set_dependency vCtx txNum (signalValidationResult (getOrCreateDependencyByTxnum vCtx txNum) ns err)).

(** ** Policies of the chaincode and its collections (v20.go) *)
Record policyCheckerV20 := mkPolicyCheckerV20 { someEPChecked : bool; nsEPChecked : gset string }.

Definition fetchCollEP (cc coll : string) : bytes + tx_error :=
  match FetchState with
  | Some e => inr (VSCCExecutionFailure ("could not retrieve ledger: " +:+ e))
  | None => CollectionValidationInfo cc coll
  end.

Definition check_policy (p : policyCheckerV20) (ep : bytes) (coll : string) (sd : list SignedData)
    : outcome (policyCheckerV20 * option tx_error) :=
  match Evaluate ep sd with
  | Ok _ => Ok (mkPolicyCheckerV20 true ({[coll]} ∪ nsEPChecked p), None)
  | Err e => Ok (p, Some (VSCCEndorsementPolicy e))
  | Panic e => Panic e
  end.

Definition check_chaincode_policy (p : policyCheckerV20) (ccEP : bytes) (sd : list SignedData)
    : outcome (policyCheckerV20 * option tx_error) :=
  if bool_decide ("" ∈ nsEPChecked p) then Ok (p, None) else check_policy p ccEP "" sd.

Definition CheckCCEPIfNotChecked (p : policyCheckerV20) (ccEP : bytes) (cc coll : string) (sd : list SignedData)
    : outcome (policyCheckerV20 * option tx_error) :=
  if bool_decide (coll = "") then check_chaincode_policy p ccEP sd
  else if bool_decide (coll ∈ nsEPChecked p) then Ok (p, None)
  else
    match fetchCollEP cc coll with
    | inr e => Ok (p, Some e)
    | inl collEP =>
        if bool_decide (collEP = "") then check_chaincode_policy p ccEP sd else check_policy p collEP coll sd
    end.

Definition CheckCCEPIfNoEPChecked (p : policyCheckerV20) (ccEP : bytes) (sd : list SignedData)
    : outcome (policyCheckerV20 * option tx_error) :=
  if someEPChecked p then Ok (p, None) else check_policy p ccEP "" sd.

Definition SBEPChecked (p : policyCheckerV20) : policyCheckerV20 := mkPolicyCheckerV20 true (nsEPChecked p).

(** ** The evaluator of a read-write set (validator_keylevel.go) *)
Inductive verdict := Accepts | Rejects (e : tx_error) | Waits.

Definition of_error (e : option tx_error) : verdict := match e with None => Accepts | Some e => Rejects e end.

Definition checkSBAndCCEP (ccEP : bytes) (cc coll key : string) (blockNum txNum : Z) (sd : list SignedData)
    (c : validationContext) (p : policyCheckerV20) : outcome (verdict * validationContext * policyCheckerV20) :=
  '(c, r) ← GetValidationParameterForKey c cc coll key blockNum txNum;
  let by_chaincode :=
    '(p, e) ← CheckCCEPIfNotChecked p ccEP cc coll sd; Ok (of_error e, c, p) in
  match r with
  | None => Ok (Waits, c, p)
  | Some (inr ValidationParameterUpdatedError) => Ok (Rejects (VSCCEndorsementPolicy "validation parameters updated"), c, p)
  | Some (inr (OtherVpError e)) => Ok (Rejects (VSCCExecutionFailure e), c, p)
  | Some (inr (CollectionNotDefined _)) => by_chaincode
  | Some (inl vp) =>
      if bool_decide (vp = "") then by_chaincode
      else
        match Evaluate vp sd with
        | Ok _ => Ok (Accepts, c, SBEPChecked p)
        | Err e => Ok (Rejects (VSCCEndorsementPolicy e), c, p)
        | Panic e => Panic e
        end
  end.

(** The keys a namespace writes, in the order they are checked. *)
Definition written_keys (ns : NsRwSet) : list (string * string) :=
  (pair "" ∘ kvw_Key <$> kv_Writes (nrw_KvRwSet ns)) ++
  (pair "" ∘ mw_Key <$> kv_MetadataWrites (nrw_KvRwSet ns)) ++
  flat_map (λ c, pair (ch_CollectionName c) ∘ wh_KeyHash <$> h_HashedWrites (ch_HashedRwSet c)) (nrw_CollHashedRwSets ns) ++
  flat_map (λ c, pair (ch_CollectionName c) ∘ mwh_KeyHash <$> h_MetadataWrites (ch_HashedRwSet c)) (nrw_CollHashedRwSets ns).

Fixpoint check_keys (ccEP : bytes) (cc : string) (blockNum txNum : Z) (sd : list SignedData)
    (keys : list (string * string)) (c : validationContext) (p : policyCheckerV20)
    : outcome (verdict * validationContext * policyCheckerV20) :=
  match keys with
  | [] => Ok (Accepts, c, p)
  | (coll, key) :: rest =>
      '(v, c, p) ← checkSBAndCCEP ccEP cc coll key blockNum txNum sd c p;
      match v with
      | Accepts => check_keys ccEP cc blockNum txNum sd rest c p
      | _ => Ok (v, c, p)
      end
  end.

Definition keys_of_namespace (nss : list NsRwSet) (ns : string) : list (string * string) :=
  flat_map written_keys (filter (λ n, nrw_NameSpace n = ns) nss).

Definition base_Evaluate (ccEP : bytes) (blockNum txNum : Z) (nss : list NsRwSet) (ns : string) (sd : list SignedData)
    (c : validationContext) : outcome (verdict * validationContext) :=
  '(v, c, p) ← check_keys ccEP ns blockNum txNum sd (keys_of_namespace nss ns) c (mkPolicyCheckerV20 false ∅);
  match v with
  | Accepts => '(_, e) ← CheckCCEPIfNoEPChecked p ccEP sd; Ok (of_error e, c)
  | _ => Ok (v, c)
  end.

Definition signature_set (prp : bytes) (endorsements : list Endorsement) : list SignedData :=
  (λ e, mkSignedData (prp +:+ en_Endorser e) (en_Endorser e) (en_Signature e)) <$> endorsements.

Definition klv_Validate (c : validationContext) (cc : string) (blockNum txNum : Z) (rwsetBytes : option bytes)
    (prp ccEP : bytes) (endorsements : list Endorsement) : outcome (verdict * validationContext) :=
  match FromProtoBytes rwsetBytes with
  | Ok rwset => base_Evaluate ccEP blockNum txNum (NsRwSets rwset) cc (signature_set prp endorsements) c
  | Err e => Ok (Rejects (VSCCEndorsementPolicy ("txRWSet.FromProtoBytes failed: " +:+ e)), c)
  | Panic p => Panic p
  end.

(** ** KeyLevelValidator *)
Record blockDependency := mkBlockDependency { bd_blockNum : Z; bd_txDepOnce : list bool }.
Record KeyLevelValidator := mkKeyLevelValidator { klv_ctx : validationContext; klv_blockDep : blockDependency }.

Definition NewKeyLevelValidator : KeyLevelValidator :=
  mkKeyLevelValidator (mkValidationContext 0 ∅ ∅) (mkBlockDependency 0 []).

(** The results of a transaction's first action; [None] when it is skipped. *)
Definition results_in (envelopeBytes : bytes) : outcome (option (option bytes)) :=
  let payl := env ← unmarshal_Envelope envelopeBytes; unmarshal_Payload (env_Payload env) in
  match payl ≫= (λ p, unmarshal_Transaction (payload_Data p)) with
  | None => Ok None
  | Some tx =>
      act ← index (tx_Actions tx) 0;
      match unmarshal_ChaincodeActionPayload (action_Payload act) with
      | None => Ok None
      | Some cap =>
          action ← deref (cap_Action cap);
          let respPayload :=
            prp ← unmarshal_ProposalResponsePayload (default "" (cea_ProposalResponsePayload action));
            unmarshal_ChaincodeAction (default "" (prp_Extension prp)) in
          Ok (cca_Results <$> respPayload)
      end
  end.

Definition extractDependenciesForTx (c : validationContext) (blockNum txNum : Z) (envelopeBytes : bytes)
    : outcome validationContext :=
  results ← results_in envelopeBytes;
  match results with
  | None => Ok c
  | Some r => ExtractValidationParameterDependency c blockNum txNum r
  end.

(** [txDepOnce[i].Do]. *)
Definition extract_once (number : Z) (data : list bytes) (k : KeyLevelValidator) (i : nat) : outcome KeyLevelValidator :=
  done ← index (bd_txDepOnce (klv_blockDep k)) i;
  if (done : bool) then Ok k
  else
    d ← index data i;
    c ← extractDependenciesForTx (klv_ctx k) number (Z.of_nat i) d;
    Ok (mkKeyLevelValidator c (mkBlockDependency (bd_blockNum (klv_blockDep k)) (<[i := true]> (bd_txDepOnce (klv_blockDep k))))).

Definition PreValidate (k : KeyLevelValidator) (txNum : nat) (block : Block) : outcome KeyLevelValidator :=
  number ← deref (blk_Number block);
  data ← deref (blk_Data block);
  let dep := if negb (bd_blockNum (klv_blockDep k) =? number)%Z
             then mkBlockDependency number (replicate (length data) false) else klv_blockDep k in
  foldM (extract_once number data) (mkKeyLevelValidator (klv_ctx k) dep) (reverse (seq 0 (S txNum))).

Definition PostValidate (k : KeyLevelValidator) (cc : string) (blockNum txNum : Z) (err : option string)
    : outcome KeyLevelValidator :=
  c ← SetTxValidationResult (klv_ctx k) cc blockNum txNum err;
  Ok (mkKeyLevelValidator c (klv_blockDep k)).

(** ** The default validation plugin (builtin/v20/validation_logic.go) *)
Record validationArtifacts := mkValidationArtifacts {
  va_rwset : option bytes;
  va_prp : bytes;
  va_endorsements : list Endorsement
}.

Definition extractValidationArtifacts (block : Block) (txPosition actionPosition : nat) : outcome validationArtifacts :=
  data ← deref (blk_Data block);
  d ← index data txPosition;
  env ← GetEnvelopeFromBlock d;
  payl ← from_option_err "error unmarshalling Payload" (unmarshal_Payload (env_Payload env));
  hdr ← deref (payload_Header payl);
  chdr ← from_option_err "error unmarshalling ChannelHeader" (unmarshal_ChannelHeader (hdr_ChannelHeader hdr));
  if negb (bool_decide (chdr_Type chdr = HeaderType_ENDORSER_TRANSACTION))
  then Err "Only Endorser Transactions are supported"
  else
    tx ← from_option_err "error unmarshalling Transaction" (unmarshal_Transaction (payload_Data payl));
    act ← index (tx_Actions tx) actionPosition;
    cap ← from_option_err "error unmarshalling ChaincodeActionPayload" (unmarshal_ChaincodeActionPayload (action_Payload act));
    action ← deref (cap_Action cap);
    prp ← from_option_err "GetProposalResponsePayload error"
      (unmarshal_ProposalResponsePayload (default "" (cea_ProposalResponsePayload action)));
    extension ← from_option_err "nil pRespPayload.Extension" (prp_Extension prp);
    respPayload ← from_option_err "GetChaincodeAction error" (unmarshal_ChaincodeAction extension);
    Ok (mkValidationArtifacts (cca_Results respPayload) (default "" (cea_ProposalResponsePayload action))
          (cea_Endorsements action)).

Definition error_text (e : tx_error) : string :=
  match e with VSCCExecutionFailure e | VSCCEndorsementPolicy e => e end.

(** A call that waits has not come to [PostValidate]. *)
Definition vscc_Validate (k : KeyLevelValidator) (block : Block) (namespace : string) (txPosition actionPosition : nat)
    (policyBytes : bytes) : outcome (verdict * KeyLevelValidator) :=
  k ← PreValidate k txPosition block;
  number ← deref (blk_Number block);
  let txNum := Z.of_nat txPosition in
  match extractValidationArtifacts block txPosition actionPosition with
  | Panic p => Panic p
  | Err e =>
      k ← PostValidate k namespace number txNum (Some e);
      Ok (Rejects (VSCCEndorsementPolicy e), k)
  | Ok va =>
      '(v, c) ← klv_Validate (klv_ctx k) namespace number txNum (va_rwset va) (va_prp va) policyBytes (va_endorsements va);
      let k := mkKeyLevelValidator c (klv_blockDep k) in
      match v with
      | Waits => Ok (Waits, k)
      | Accepts => k ← PostValidate k namespace number txNum None; Ok (Accepts, k)
      | Rejects e => k ← PostValidate k namespace number txNum (Some (error_text e)); Ok (Rejects e, k)
      end
  end.
End keylevel.

(** ** What a transaction the validator accepts is endorsed by *)
Section acceptance.
Context `{Codec} `{StateBased}.

(** The policy that stands for the keys of a collection without their own. *)
Definition namespace_policy (ccEP : bytes) (cc coll : string) : option bytes :=
  if bool_decide (coll = "") then Some ccEP
  else match fetchCollEP cc coll with
       | inl collEP => Some (if bool_decide (collEP = "") then ccEP else collEP)
       | inr _ => None
       end.

Definition satisfied (sd : list SignedData) (ep : option bytes) : Prop :=
  match ep with Some ep => Evaluate ep sd = Ok () | None => False end.

(** The policy that governs a key accepts the signatures. *)
Definition key_policy (ccEP : bytes) (cc : string) (sd : list SignedData) (coll key : string) : Prop :=
  match ledger_parameter cc coll key with
  | inl vp => satisfied sd (if bool_decide (vp = "") then namespace_policy ccEP cc coll else Some vp)
  | inr (CollectionNotDefined _) => satisfied sd (namespace_policy ccEP cc coll)
  | inr _ => False
  end.

(** Nothing earlier in the block is in the way, and the key's policy accepts. *)
Definition key_endorsed (c : validationContext) (ccEP : bytes) (cc : string) (txNum : Z) (sd : list SignedData)
    (k : string * string) : Prop :=
  (∀ i, (0 ≤ i < txNum)%Z → depInserted (getOrCreateDependencyByTxnum c i) = true) ∧
  waitForValidationResults c (cc, k.1, k.2) txNum = Some false ∧ key_policy ccEP cc sd k.1 k.2.

(** Everything the checker remembers was accepted. *)
Definition checker_ok (ccEP : bytes) (cc : string) (sd : list SignedData) (p : policyCheckerV20) : Prop :=
  ∀ coll, coll ∈ nsEPChecked p → someEPChecked p = true ∧ satisfied sd (namespace_policy ccEP cc coll).

(** The check [r] passes exactly when [P] holds, in a state that satisfies [Q]. *)
Definition passes {S R} (ok : S → R) (P : Prop) (Q : S → Prop) (r : outcome R) : Prop :=
  (∀ s, r = Ok (ok s) → P ∧ Q s) ∧ (P → ∃ s, r = Ok (ok s)).

Definition checked (ccEP : bytes) (cc : string) (sd : list SignedData) (p : policyCheckerV20) : Prop :=
  checker_ok ccEP cc sd p ∧ someEPChecked p = true.

Notation check_passes ccEP cc sd P r :=
  (passes (λ p : policyCheckerV20, (p, @None tx_error)) P (checked ccEP cc sd) r).

Lemma check_policy_spec p ep coll ccEP cc sd :
  checker_ok ccEP cc sd p → namespace_policy ccEP cc coll = Some ep →
  check_passes ccEP cc sd (Evaluate ep sd = Ok ()) (check_policy p ep coll sd).
Proof.
  intros Hp Hep. unfold check_policy. destruct (Evaluate ep sd) as [[]| |] eqn:Ee; split; try done; [|by eauto].
  intros p' [= <-]. split; [done|]. split; [|done]. intros coll' [->%elem_of_singleton|Hin]%elem_of_union; (split; [done|]).
  - by rewrite Hep.
  - by apply Hp.
Qed.

Lemma checked_before ccEP cc sd p coll P :
  checker_ok ccEP cc sd p → coll ∈ nsEPChecked p → P = satisfied sd (namespace_policy ccEP cc coll) →
  check_passes ccEP cc sd P (Ok (p, @None tx_error)).
Proof. intros Hp Hin ->. destruct (Hp _ Hin) as [Hs Hsat]. split; [|by eauto]. by intros p' [= <-]. Qed.

Lemma check_chaincode_policy_spec p ccEP cc sd :
  checker_ok ccEP cc sd p → check_passes ccEP cc sd (Evaluate ccEP sd = Ok ()) (check_chaincode_policy p ccEP sd).
Proof.
  intros Hp. unfold check_chaincode_policy. case_bool_decide as Hin; [by eapply checked_before|by apply check_policy_spec].
Qed.

Lemma CheckCCEPIfNotChecked_spec p ccEP cc coll sd :
  checker_ok ccEP cc sd p →
  check_passes ccEP cc sd (satisfied sd (namespace_policy ccEP cc coll)) (CheckCCEPIfNotChecked p ccEP cc coll sd).
Proof.
  intros Hp. unfold CheckCCEPIfNotChecked.
  case_bool_decide as Hc; [subst coll; by apply check_chaincode_policy_spec|].
  case_bool_decide as Hin; [by eapply checked_before|].
  unfold namespace_policy. rewrite (bool_decide_eq_false_2 (coll = "")) by done.
  destruct (fetchCollEP cc coll) as [collEP|err] eqn:Ef; [|by split].
  case_bool_decide as He; [by apply check_chaincode_policy_spec|].
  apply check_policy_spec; [done|]. unfold namespace_policy.
  by rewrite (bool_decide_eq_false_2 (coll = "")), Ef, (bool_decide_eq_false_2 (collEP = "")).
Qed.

Lemma forBlock_same c : forBlock c (blockHeight c) = Ok c.
Proof. unfold forBlock. by rewrite !Z.ltb_irrefl. Qed.

Notation key_passes c ccEP cc sd P r :=
  (passes (λ p : policyCheckerV20, (Accepts, c, p)) P (checked ccEP cc sd) r).

Lemma passes_iff {S R} (ok : S → R) (P P' : Prop) (Q : S → Prop) r : (P ↔ P') → passes ok P Q r → passes ok P' Q r.
Proof. intros HP [H1 H2]. split; [|by rewrite <- HP]. intros s Hs. by rewrite <- HP; apply H1. Qed.

Lemma by_chaincode_passes ccEP cc sd (c : validationContext) P (r : outcome (policyCheckerV20 * option tx_error)) :
  check_passes ccEP cc sd P r → key_passes c ccEP cc sd P ('(p, e) ← r; Ok (of_error e, c, p)).
Proof.
  intros [Hs Hc]. split.
  - intros s E. apply bind_Ok in E as ([p e] & Er & [= E <-]). destruct e; [done|]. by apply Hs.
  - intros HP. destruct (Hc HP) as [p ->]. by exists p.
Qed.

(** One key, in the context of its block. *)
Lemma checkSBAndCCEP_spec ccEP cc coll key txNum sd c p :
  checker_ok ccEP cc sd p →
  key_passes c ccEP cc sd (key_endorsed c ccEP cc txNum sd (coll, key))
    (checkSBAndCCEP ccEP cc coll key (blockHeight c) txNum sd c p).
Proof.
  intros Hp. unfold checkSBAndCCEP, GetValidationParameterForKey. rewrite forBlock_same. go_simpl.
  unfold key_endorsed. cbn [fst snd].
  destruct (forallb _ (seqZ 0 txNum)) eqn:Eall; cbn [negb].
  2: { split; [done|]. intros (Hall & _). apply not_true_iff_false in Eall as []. apply forallb_forall.
    intros i Hi%list_elem_of_In%elem_of_seqZ. apply Hall. lia. }
  assert (∀ i, (0 ≤ i < txNum)%Z → depInserted (getOrCreateDependencyByTxnum c i) = true) as Hall.
  { intros i Hi. apply (proj1 (forallb_forall _ _) Eall). apply list_elem_of_In, elem_of_seqZ. lia. }
  destruct (waitForValidationResults _ _ _) as [[]|]; go_simpl; [by split; [done|]; intros (_ & ? & _)| |by split; [done|]; intros (_ & ? & _)].
  pose proof (by_chaincode_passes ccEP cc sd c _ _ (CheckCCEPIfNotChecked_spec p ccEP cc coll sd Hp)) as Hcc.
  eapply (passes_iff _ (key_policy ccEP cc sd coll key)); [tauto|]. unfold key_policy.
  destruct (ledger_parameter cc coll key) as [vp|[|e'|e']]; [|by split|done|by split].
  case_bool_decide as Hvp; [done|]. cbn [satisfied].
  destruct (Evaluate vp sd) as [[]| |] eqn:Ev; split; try done; [|by eauto].
  intros p' [= <-]. split; [done|]. split; [|done]. intros coll' Hin. split; [done|]. by apply Hp.
Qed.

Lemma checkSBAndCCEP_context ccEP cc coll key txNum sd c p v c' p' :
  checkSBAndCCEP ccEP cc coll key (blockHeight c) txNum sd c p = Ok (v, c', p') → c' = c.
Proof.
  unfold checkSBAndCCEP, GetValidationParameterForKey. rewrite forBlock_same. go_simpl.
  intros E. repeat case_match; simplify_eq; try done; apply bind_Ok in E as ([? ?] & _ & E); by simplify_eq.
Qed.

Lemma check_keys_context ccEP cc txNum sd c keys p v c' p' :
  check_keys ccEP cc (blockHeight c) txNum sd keys c p = Ok (v, c', p') → c' = c.
Proof.
  revert p. induction keys as [|[coll key] keys IH]; intros p; cbn [check_keys]; [by intros [= _ <- _]|].
  intros E. apply bind_Ok in E as ([[v1 c1] p1] & E1 & E). pose proof (checkSBAndCCEP_context _ _ _ _ _ _ _ _ _ _ _ E1) as ->.
  destruct v1; [by apply IH in E|by simplify_eq..].
Qed.

Lemma check_keys_spec ccEP cc txNum sd c keys p :
  checker_ok ccEP cc sd p →
  passes (λ p, (Accepts, c, p)) (∀ k, k ∈ keys → key_endorsed c ccEP cc txNum sd k)
    (λ p', checker_ok ccEP cc sd p' ∧ (keys ≠ [] → someEPChecked p' = true) ∧ (keys = [] → p' = p))
    (check_keys ccEP cc (blockHeight c) txNum sd keys c p).
Proof.
  revert p. induction keys as [|[coll key] keys IH]; intros p Hp; cbn [check_keys].
  - split; [|by eauto]. intros p' [= <-]. split; [|done]. intros k Hk. by apply elem_of_nil in Hk.
  - destruct (checkSBAndCCEP_spec ccEP cc coll key txNum sd c p Hp) as [Hs Hc]. split.
    + intros p' E. apply bind_Ok in E as ([[v c1] p1] & E1 & E). destruct v; [|by injection E..].
      pose proof (checkSBAndCCEP_context _ _ _ _ _ _ _ _ _ _ _ E1) as ->.
      destruct (Hs p1 E1) as [Hk [Hp1 Hs1]]. destruct (proj1 (IH p1 Hp1) p' E) as (Hks & ? & Hne & Hnil).
      split; [by intros k [->|?]%elem_of_cons; auto|]. split_and!; [done| |done]. intros _.
      destruct keys; [by rewrite Hnil|by apply Hne].
    + intros Hall. destruct Hc as [p1 E1]; [apply Hall; by left|]. rewrite E1. go_simpl.
      destruct (Hs p1 E1) as [_ [Hp1 _]]. apply (proj2 (IH p1 Hp1)). intros k Hk. apply Hall. by right.
Qed.

Lemma klv_Validate_context c cc txNum rwsetBytes prp ccEP endorsements v c' :
  klv_Validate c cc (blockHeight c) txNum rwsetBytes prp ccEP endorsements = Ok (v, c') → c' = c.
Proof.
  unfold klv_Validate. destruct (FromProtoBytes rwsetBytes); [|by intros [= _ <-]|done]. unfold base_Evaluate. intros E.
  apply bind_Ok in E as ([[v1 c1] p1] & E1 & E). apply check_keys_context in E1 as ->.
  destruct v1; [apply bind_Ok in E as ([? ?] & _ & E)|..]; by simplify_eq.
Qed.

Lemma keylevel_validate (c : validationContext) (cc : string) (txNum : Z) (rwsetBytes : option bytes)
    (rwset : TxRwSet) (prp ccEP : bytes) (endorsements : list Endorsement) :
  FromProtoBytes rwsetBytes = Ok rwset →
  let sd := signature_set prp endorsements in
  let keys := keys_of_namespace (NsRwSets rwset) cc in
  klv_Validate c cc (blockHeight c) txNum rwsetBytes prp ccEP endorsements = Ok (Accepts, c) ↔
    (∀ k, k ∈ keys → key_endorsed c ccEP cc txNum sd k) ∧ (keys = [] → Evaluate ccEP sd = Ok ()).
Proof.
  intros Er sd keys. unfold klv_Validate, base_Evaluate. rewrite Er. fold sd keys.
  destruct (check_keys_spec ccEP cc txNum sd c keys (mkPolicyCheckerV20 false ∅)) as [Hs Hc].
  { intros coll Hin. set_solver. }
  unfold CheckCCEPIfNoEPChecked, check_policy. split.
  - intros E. apply bind_Ok in E as ([[v c1] p1] & E1 & E). destruct v; [|by injection E..].
    assert (c1 = c) as -> by (apply bind_Ok in E as ([? ?] & _ & [= _ ->]); done).
    destruct (Hs p1 E1) as (Hall & _ & _ & Hnil). split; [done|]. intros Hk. rewrite (Hnil Hk) in E. revert E. cbn.
    by destruct (Evaluate ccEP sd) as [[]| |].
  - intros [Hall Hnk]. destruct (Hc Hall) as [p1 E1]. rewrite E1. go_simpl.
    destruct (Hs p1 E1) as (_ & _ & Hne & Hnil). destruct keys as [|k keys'] eqn:Ek.
    + rewrite (Hnil eq_refl). cbn [someEPChecked]. by rewrite Hnk.
    + by rewrite Hne.
Qed.

End acceptance.

(** ** Who endorsed a key: the validator with the policy evaluator *)
Section signers.
Context `{Codec} `{StateBased}.
Context (unmarshal_ApplicationPolicy : bytes → option ApplicationPolicy).
Context (deserialize : bytes → option MspIdentity) (channel_policy : string → option (list SignedData → outcome unit)).
Hypothesis evaluator_is : Evaluate = application_Evaluate unmarshal_ApplicationPolicy deserialize channel_policy.
Hypothesis application_policy_empty : unmarshal_ApplicationPolicy "" = Some AP_None.

Lemma key_signed (c c' : validationContext) (cc coll key : string) (txNum : Z) (rwsetBytes : option bytes)
    (rwset : TxRwSet) (prp ccEP vp : bytes) (endorsements : list Endorsement) (md : gmap string bytes)
    (envelope : SignaturePolicyEnvelope) :
  FromProtoBytes rwsetBytes = Ok rwset → (coll, key) ∈ keys_of_namespace (NsRwSets rwset) cc →
  FetchState = None → GetMetadata cc coll key = inl md → md !! "VALIDATION_PARAMETER" = Some vp → vp ≠ "" →
  unmarshal_SignaturePolicyEnvelope vp = Some envelope →
  let ap := AP_SignaturePolicy (Some envelope) in
  unmarshal_ApplicationPolicy (marshal_ApplicationPolicy ap) = Some ap →
  klv_Validate c cc (blockHeight c) txNum rwsetBytes prp ccEP endorsements = Ok (Accepts, c') →
  ∃ p ids S, spe_Rule envelope = Some p ∧ satisfied_by (spe_Identities envelope) ids p S ∧
    NoDup (identity_key <$> ids) ∧
    ∀ id, id ∈ ids → ∃ e, e ∈ endorsements ∧ deserialize (en_Endorser e) = Some id ∧
      mi_Verify id (prp +:+ en_Endorser e) (en_Signature e) = true.
Proof.
  intros Er Hkey Hf Hmd Hvp Hne Hspe ap Hap E. pose proof (klv_Validate_context _ _ _ _ _ _ _ _ _ E) as ->.
  apply (keylevel_validate c cc txNum rwsetBytes rwset prp ccEP endorsements Er) in E as [Hall _].
  destruct (Hall _ Hkey) as (_ & _ & Hpol). cbn [fst snd] in Hpol.
  unfold key_policy, ledger_parameter, Translate in Hpol. rewrite Hf, Hmd, Hvp in Hpol. cbn [from_option] in Hpol. unfold id in Hpol.
  rewrite bool_decide_eq_false_2 in Hpol by done. rewrite Hspe in Hpol. cbn in Hpol. fold ap in Hpol.
  rewrite bool_decide_eq_false_2 in Hpol.
  2: { intros He. rewrite He, application_policy_empty in Hap. done. }
  cbn [satisfied] in Hpol. rewrite evaluator_is in Hpol. unfold application_Evaluate in Hpol.
  rewrite Hap in Hpol. cbn in Hpol.
  destruct (signature_policy_satisfied _ _ _ Hpol) as (p & ids & S & Hp & Hs & Hnd & Hids). exists p, ids, S.
  split_and!; [done..|]. intros id Hid. destruct (Hids id Hid) as (sd & Hsd & Hd & Hv).
  apply list_elem_of_fmap in Hsd as (e & -> & He). by exists e.
Qed.

(** When a transaction is accepted, every key it writes that has a validation
    parameter in the ledger carries endorsements that verify, of distinct
    identities that satisfy the key's own signature policy. *)
Theorem accepted_key_signed (c c' : validationContext) (cc coll key : string) (txNum : Z) (rwsetBytes : option bytes)
    (rwset : TxRwSet) (prp ccEP vp : bytes) (endorsements : list Endorsement) (md : gmap string bytes)
    (envelope : SignaturePolicyEnvelope) :
  FromProtoBytes rwsetBytes = Ok rwset → (coll, key) ∈ keys_of_namespace (NsRwSets rwset) cc →
  FetchState = None → GetMetadata cc coll key = inl md → md !! "VALIDATION_PARAMETER" = Some vp → vp ≠ "" →
  unmarshal_SignaturePolicyEnvelope vp = Some envelope →
  let ap := AP_SignaturePolicy (Some envelope) in
  unmarshal_ApplicationPolicy (marshal_ApplicationPolicy ap) = Some ap →
  klv_Validate c cc (blockHeight c) txNum rwsetBytes prp ccEP endorsements = Ok (Accepts, c') →
  ∃ p ids S, spe_Rule envelope = Some p ∧ satisfied_by (spe_Identities envelope) ids p S ∧
    NoDup (identity_key <$> ids) ∧
    ∀ id, id ∈ ids → ∃ e, e ∈ endorsements ∧ deserialize (en_Endorser e) = Some id ∧
      mi_Verify id (prp +:+ en_Endorser e) (en_Signature e) = true.
Proof. apply key_signed. Qed.
End signers.

(** ** Transactions that wait for ever *)
Section liveness.
Context `{Codec} `{ProposalCodec} `{TxCodec} `{StateBased}.

(** What the goroutines validating a block do to the validator: begin with a
    transaction, look a parameter up, record a verdict. *)
Inductive kstep (block : Block) (number : Z) : KeyLevelValidator → KeyLevelValidator → Prop :=
| kstep_pre k n k' : PreValidate k n block = Ok k' → kstep block number k k'
| kstep_get k c : forBlock (klv_ctx k) number = Ok c → kstep block number k (mkKeyLevelValidator c (klv_blockDep k))
| kstep_post k cc txNum err k' : PostValidate k cc number txNum err = Ok k' → kstep block number k k'.

(** The dependencies of transaction [m] of the block have not been inserted. *)
Definition not_inserted (number m : Z) (c : validationContext) : Prop :=
  (blockHeight c ≤ number)%Z ∧
  (blockHeight c = number → depInserted (getOrCreateDependencyByTxnum c m) = false).

Lemma forBlock_not_inserted number m c c' :
  not_inserted number m c → forBlock c number = Ok c' → not_inserted number m c' ∧ blockHeight c' = number.
Proof.
  intros [Hh Hi]. unfold forBlock. destruct (Z.ltb_spec number (blockHeight c)); [done|].
  destruct (Z.ltb_spec (blockHeight c) number); intros [= <-].
  - split; [|done]. split; [cbn; lia|]. intros _. done.
  - split; [done|lia].
Qed.

Lemma set_dependency_other c i m dep :
  i ≠ m → getOrCreateDependencyByTxnum (set_dependency c i dep) m = getOrCreateDependencyByTxnum c m.
Proof. intros Hi. unfold getOrCreateDependencyByTxnum. cbn. by rewrite lookup_insert_ne. Qed.

Lemma addDependency_fold keys txNum v :
  blockHeight (foldl (λ v kid, addDependency v kid txNum) v keys) = blockHeight v ∧
  depsByTxnumMap (foldl (λ v kid, addDependency v kid txNum) v keys) = depsByTxnumMap v.
Proof. revert v. induction keys as [|kid keys IH]; intros v; [done|]. cbn. by destruct (IH (addDependency v kid txNum)) as [-> ->]. Qed.

Lemma Extract_not_inserted number m c i r c' :
  not_inserted number m c → i ≠ m → ExtractValidationParameterDependency c number i r = Ok c' → not_inserted number m c'.
Proof.
  intros Hn Hi. unfold ExtractValidationParameterDependency. intros E.
  apply bind_Ok in E as (v & Ev & E). destruct (forBlock_not_inserted _ _ _ _ Hn Ev) as [[Hh Hv] Heq].
  apply bind_Ok in E as (v' & Ev' & E). apply bind_Ok in E as (dep & _ & [= <-]).
  assert (blockHeight v' = blockHeight v ∧ depsByTxnumMap v' = depsByTxnumMap v) as [Eh Ed].
  { destruct (FromProtoBytes r); simplify_eq; [apply addDependency_fold|done]. }
  split; [cbn; lia|]. intros _. rewrite set_dependency_other by done. unfold getOrCreateDependencyByTxnum in *.
  rewrite Ed. auto.
Qed.

Lemma extract_once_not_inserted number data m d k i k' :
  data !! m = Some d → results_in d = Ok None → not_inserted number (Z.of_nat m) (klv_ctx k) →
  extract_once number data k i = Ok k' → not_inserted number (Z.of_nat m) (klv_ctx k').
Proof.
  intros Hd Hr Hn. unfold extract_once. intros E. apply bind_Ok in E as (b & _ & E). destruct b; [by injection E as <-|].
  apply bind_Ok in E as (d' & Hd' & E). apply bind_Ok in E as (c & Hc & E). injection E as <-. cbn [klv_ctx].
  unfold extractDependenciesForTx in Hc. apply bind_Ok in Hc as (r & Hr' & Hc).
  destruct (decide (i = m)) as [->|Hi].
  - unfold index in Hd'. rewrite Hd in Hd'. injection Hd' as <-. rewrite Hr in Hr'. injection Hr' as <-. by injection Hc as <-.
  - destruct r as [r|]; [|by injection Hc as <-]. eapply Extract_not_inserted; [done| |done]. lia.
Qed.

Lemma kstep_not_inserted block number data m d k k' :
  blk_Number block = Some number → blk_Data block = Some data → data !! m = Some d → results_in d = Ok None →
  kstep block number k k' → not_inserted number (Z.of_nat m) (klv_ctx k) → not_inserted number (Z.of_nat m) (klv_ctx k').
Proof.
  intros En Ed Hd Hr [k0 n k1 E|k0 c E|k0 cc txNum err k1 E] Hn.
  - unfold PreValidate in E. rewrite En, Ed in E. cbn [deref] in E. go_simpl.
    eapply (foldM_inv (λ k, not_inserted number (Z.of_nat m) (klv_ctx k))); [..|exact E]; [|done].
    intros i k2 k3 _ Hk. by eapply extract_once_not_inserted.
  - by eapply forBlock_not_inserted.
  - unfold PostValidate, SetTxValidationResult in E. ok_inv. injection E as <-.
    match goal with Hs : Ok _ = Ok _ |- _ => injection Hs as <- end.
    match goal with Hf : forBlock _ _ = Ok _ |- _ => destruct (forBlock_not_inserted _ _ _ _ Hn Hf) as [[Hh Hi] Heq] end.
    split; [done|]. intros Hb. cbn [klv_ctx]. unfold getOrCreateDependencyByTxnum in *. cbn.
    destruct (decide (txNum = Z.of_nat m)) as [->|Hne]; [rewrite lookup_insert_eq; cbn; auto|].
    rewrite lookup_insert_ne by done. auto.
Qed.

(** C36: A block with an entry whose transaction does not decode stops the channel:
    from then on, and whatever the goroutines do, no later transaction of the
    block that writes a key gets past the wait for the entry's dependencies. *)
Theorem undecodable_entry_blocks (block : Block) (number : Z) (data : list bytes) (m : nat) (d : bytes)
    (k0 k : KeyLevelValidator) (n : nat) (cc : string) (rwsetBytes : option bytes) (rwset : TxRwSet) (prp ccEP : bytes)
    (endorsements : list Endorsement) :
  blk_Number block = Some number → blk_Data block = Some data → data !! m = Some d → results_in d = Ok None →
  (blockHeight (klv_ctx k0) < number)%Z → rtc (kstep block number) k0 k → m < n →
  FromProtoBytes rwsetBytes = Ok rwset → keys_of_namespace (NsRwSets rwset) cc ≠ [] →
  ∃ c, klv_Validate (klv_ctx k) cc number (Z.of_nat n) rwsetBytes prp ccEP endorsements = Ok (Waits, c).
Proof.
  intros En Ed Hd Hr Hh Hsteps Hmn Er Hkeys.
  assert (not_inserted number (Z.of_nat m) (klv_ctx k)) as Hn.
  { assert (not_inserted number (Z.of_nat m) (klv_ctx k0)) as Hn0 by (split; lia).
    clear -En Ed Hd Hr Hsteps Hn0. induction Hsteps as [|k1 k2 k3 Hs _ IH]; [done|]. apply IH. by eapply kstep_not_inserted. }
  assert (∃ c, forBlock (klv_ctx k) number = Ok c) as [c Hc].
  { destruct Hn as [Hle _]. unfold forBlock. destruct (Z.ltb_spec number (blockHeight (klv_ctx k))); [lia|]. case_match; eauto. }
  destruct (forBlock_not_inserted _ _ _ _ Hn Hc) as [[_ Hi] Heq]. specialize (Hi Heq).
  exists c. unfold klv_Validate. rewrite Er. unfold base_Evaluate.
  destruct (keys_of_namespace (NsRwSets rwset) cc) as [|[coll key] keys]; [done|]. cbn [check_keys].
  unfold checkSBAndCCEP, GetValidationParameterForKey. rewrite Hc. go_simpl.
  destruct (forallb _ (seqZ 0 (Z.of_nat n))) eqn:Eall; [|done]. exfalso.
  assert (depInserted (getOrCreateDependencyByTxnum c (Z.of_nat m)) = true); [|congruence].
  apply (proj1 (forallb_forall _ _) Eall). apply list_elem_of_In, elem_of_seqZ. lia.
Qed.

(** ** Updates without a verdict *)

(** Steps that record no verdict on transaction [m] for the chaincode [cc]. *)
Inductive quiet_step (block : Block) (number m : Z) (cc : string) : KeyLevelValidator → KeyLevelValidator → Prop :=
| quiet_pre k n k' : PreValidate k n block = Ok k' → quiet_step block number m cc k k'
| quiet_get k c : forBlock (klv_ctx k) number = Ok c →
    quiet_step block number m cc k (mkKeyLevelValidator c (klv_blockDep k))
| quiet_post k cc' txNum err k' : (cc', txNum) ≠ (cc, m) → PostValidate k cc' number txNum err = Ok k' →
    quiet_step block number m cc k k'.

(** Once the dependencies of [m] are inserted its update of [kid] is among
    them, and there is no verdict on it. *)
Definition pending_update (number m : Z) (kid : ledgerKeyID) (c : validationContext) : Prop :=
  (blockHeight c ≤ number)%Z ∧
  (blockHeight c = number →
     validationResultMap (getOrCreateDependencyByTxnum c m) !! kid.1.1 = None ∧
     (depInserted (getOrCreateDependencyByTxnum c m) = true → m ∈ default ∅ (depsByLedgerKeyIDMap c !! kid))).

Lemma forBlock_pending number m kid c c' :
  pending_update number m kid c → forBlock c number = Ok c' → pending_update number m kid c' ∧ blockHeight c' = number.
Proof.
  intros [Hh Hi]. unfold forBlock. destruct (Z.ltb_spec number (blockHeight c)); [done|].
  destruct (Z.ltb_spec (blockHeight c) number); intros [= <-].
  - split; [|done]. split; [cbn; lia|]. intros _. done.
  - split; [done|lia].
Qed.

Lemma addDependency_fold_keys keys txNum v kid x :
  x ∈ default ∅ (depsByLedgerKeyIDMap (foldl (λ v kid, addDependency v kid txNum) v keys) !! kid) ↔
  x ∈ default ∅ (depsByLedgerKeyIDMap v !! kid) ∨ (x = txNum ∧ kid ∈ keys).
Proof.
  revert v. induction keys as [|k' keys IH]; intros v; cbn [foldl]; [set_solver|]. rewrite IH, elem_of_cons.
  cbn. destruct (decide (k' = kid)) as [->|Hne].
  - rewrite lookup_insert_eq. cbn. set_solver.
  - rewrite lookup_insert_ne by done. naive_solver.
Qed.

Lemma Extract_pending number m kid c i r c' :
  pending_update number m kid c →
  (i = m → ∃ rwset, FromProtoBytes r = Ok rwset ∧ kid ∈ flat_map metadata_keys (NsRwSets rwset)) →
  ExtractValidationParameterDependency c number i r = Ok c' → pending_update number m kid c'.
Proof.
  intros Hn Hi. unfold ExtractValidationParameterDependency. intros E.
  apply bind_Ok in E as (v & Ev & E). destruct (forBlock_pending _ _ _ _ _ Hn Ev) as [[Hh Hv] Heq].
  apply bind_Ok in E as (v' & Ev' & E). apply bind_Ok in E as (dep & Hdep & [= <-]). destruct (Hv Heq) as [Hres Hins].
  assert (blockHeight v' = number ∧ depsByTxnumMap v' = depsByTxnumMap v ∧
    (∀ x, x ∈ default ∅ (depsByLedgerKeyIDMap v !! kid) → x ∈ default ∅ (depsByLedgerKeyIDMap v' !! kid)) ∧
    (i = m → m ∈ default ∅ (depsByLedgerKeyIDMap v' !! kid))) as (Eh & Ed & Hkeep & Hm).
  { destruct (FromProtoBytes r) as [rwset| |]; simplify_eq.
    - destruct (addDependency_fold (flat_map metadata_keys (NsRwSets rwset)) i v) as [-> ->].
      split_and!; [done..| |]; [intros x; rewrite addDependency_fold_keys; auto|].
      intros ->. destruct (Hi eq_refl) as (? & [= <-] & Hin). rewrite addDependency_fold_keys. auto.
    - split_and!; try done. intros ->. by destruct (Hi eq_refl) as (? & ? & _). }
  split; [cbn; lia|]. intros _. cbn [depsByLedgerKeyIDMap set_dependency].
  unfold getOrCreateDependencyByTxnum, set_dependency in *. cbn. rewrite Ed in *.
  destruct (decide (i = m)) as [->|Hne].
  - rewrite lookup_insert_eq. cbn. unfold signalDepInserted in Hdep. case_match; [done|]. injection Hdep as <-. auto.
  - rewrite lookup_insert_ne by done. auto.
Qed.

Lemma extract_once_pending number data m d r rwset kid k i k' :
  data !! m = Some d → results_in d = Ok (Some r) → FromProtoBytes r = Ok rwset →
  kid ∈ flat_map metadata_keys (NsRwSets rwset) → pending_update number (Z.of_nat m) kid (klv_ctx k) →
  extract_once number data k i = Ok k' → pending_update number (Z.of_nat m) kid (klv_ctx k').
Proof.
  intros Hd Hr Hrw Hin Hn. unfold extract_once. intros E. apply bind_Ok in E as (b & _ & E). destruct b; [by injection E as <-|].
  apply bind_Ok in E as (d' & Hd' & E). apply bind_Ok in E as (c & Hc & E). injection E as <-. cbn [klv_ctx].
  unfold extractDependenciesForTx in Hc. apply bind_Ok in Hc as (r' & Hr' & Hc).
  destruct r' as [r'|]; [|by injection Hc as <-]. eapply Extract_pending; [done| |done]. intros Hi.
  assert (i = m) as -> by lia. unfold index in Hd'. rewrite Hd in Hd'. injection Hd' as <-.
  rewrite Hr in Hr'. injection Hr' as <-. eauto.
Qed.

Lemma quiet_step_pending block number data m d r rwset kid k k' :
  blk_Number block = Some number → blk_Data block = Some data → data !! m = Some d → results_in d = Ok (Some r) →
  FromProtoBytes r = Ok rwset → kid ∈ flat_map metadata_keys (NsRwSets rwset) →
  quiet_step block number (Z.of_nat m) kid.1.1 k k' →
  pending_update number (Z.of_nat m) kid (klv_ctx k) → pending_update number (Z.of_nat m) kid (klv_ctx k').
Proof.
  intros En Ed Hd Hr Hrw Hin [k0 n k1 E|k0 c E|k0 cc txNum err k1 Hne E] Hn.
  - unfold PreValidate in E. rewrite En, Ed in E. cbn [deref] in E. go_simpl.
    eapply (foldM_inv (λ k, pending_update number (Z.of_nat m) kid (klv_ctx k))); [..|exact E]; [|done].
    intros i k2 k3 _ Hk. by eapply extract_once_pending.
  - by eapply forBlock_pending.
  - unfold PostValidate, SetTxValidationResult in E. ok_inv. injection E as <-.
    match goal with Hs : Ok _ = Ok _ |- _ => injection Hs as <- end.
    match goal with Hf : forBlock _ _ = Ok _ |- _ => destruct (forBlock_pending _ _ _ _ _ Hn Hf) as [[Hh Hi] Heq] end.
    split; [done|]. intros Hb. cbn [klv_ctx]. destruct (Hi Heq) as [Hres Hins].
    unfold getOrCreateDependencyByTxnum, set_dependency in *. cbn.
    destruct (decide (txNum = Z.of_nat m)) as [->|Htx]; [|by rewrite lookup_insert_ne].
    rewrite lookup_insert_eq. cbn. rewrite lookup_insert_ne by congruence. auto.
Qed.

Lemma some_valid_pending c cc deps m :
  validationResultMap (getOrCreateDependencyByTxnum c m) !! cc = None → m ∈ deps → some_valid c cc deps ≠ Some false.
Proof.
  intros Hm. induction deps as [|d deps IH]; intros Hin; [by apply elem_of_nil in Hin|]. cbn [some_valid].
  apply elem_of_cons in Hin as [<-|Hin]; [by rewrite Hm|]. repeat case_match; auto.
Qed.

(** A transaction that updates the validation parameter of a key and is decided
    before its plugin runs (a forged signature, an id already in the ledger)
    never gets a verdict for the chaincode: whatever else the goroutines do, no
    later transaction of the block that writes the key is accepted. It waits, or
    is rejected for another update. *)
Theorem undecided_update_blocks (block : Block) (number : Z) (data : list bytes) (m : nat) (d : bytes)
    (r : option bytes) (rw : TxRwSet) (cc coll key : string) (k0 k : KeyLevelValidator) (n : nat)
    (rwsetBytes : option bytes) (rwset : TxRwSet) (prp ccEP : bytes) (endorsements : list Endorsement) :
  blk_Number block = Some number → blk_Data block = Some data → data !! m = Some d → results_in d = Ok (Some r) →
  FromProtoBytes r = Ok rw → (cc, coll, key) ∈ flat_map metadata_keys (NsRwSets rw) →
  (blockHeight (klv_ctx k0) < number)%Z → rtc (quiet_step block number (Z.of_nat m) cc) k0 k → m < n →
  FromProtoBytes rwsetBytes = Ok rwset → (coll, key) ∈ keys_of_namespace (NsRwSets rwset) cc →
  ∃ c, forBlock (klv_ctx k) number = Ok c ∧
    ∀ c', klv_Validate c cc number (Z.of_nat n) rwsetBytes prp ccEP endorsements ≠ Ok (Accepts, c').
Proof.
  intros En Ed Hd Hr Hrw Hin Hh Hsteps Hmn Er Hkey.
  assert (pending_update number (Z.of_nat m) (cc, coll, key) (klv_ctx k)) as Hn.
  { assert (pending_update number (Z.of_nat m) (cc, coll, key) (klv_ctx k0)) as Hn0 by (split; lia).
    clear -En Ed Hd Hr Hrw Hin Hsteps Hn0. induction Hsteps as [|k1 k2 k3 Hs _ IH]; [done|]. apply IH.
    by eapply (quiet_step_pending block number data m d r rw (cc, coll, key)). }
  assert (∃ c, forBlock (klv_ctx k) number = Ok c) as [c Hc].
  { destruct Hn as [Hle _]. unfold forBlock. destruct (Z.ltb_spec number (blockHeight (klv_ctx k))); [lia|]. case_match; eauto. }
  destruct (forBlock_pending _ _ _ _ _ Hn Hc) as [[_ Hi] Heq]. destruct (Hi Heq) as [Hres Hins].
  exists c. split; [done|].
  rewrite <- Heq. intros c' E. pose proof (klv_Validate_context _ _ _ _ _ _ _ _ _ E) as ->.
  apply (keylevel_validate c cc (Z.of_nat n) rwsetBytes rwset prp ccEP endorsements Er) in E as [Hall _].
  destruct (Hall _ Hkey) as (Hdep & Hwait & _). cbn [fst snd] in Hwait.
  apply (some_valid_pending c cc (dependenciesForTxnum c (cc, coll, key) (Z.of_nat n)) (Z.of_nat m)); [done| |done].
  unfold dependenciesForTxnum. apply list_elem_of_filter. split; [lia|]. rewrite dep_order_ok. apply elem_of_elements.
  apply Hins, Hdep. lia.
Qed.

(** ** Transactions that crash the validator *)
Definition no_err {A} (o : outcome A) : Prop := ∀ e, o ≠ Err e.

Lemma no_err_bind {A B} (o : outcome A) (f : A → outcome B) : no_err o → (∀ a, no_err (f a)) → no_err (o ≫= f).
Proof. intros Ho Hf e. destruct o; cbn; [apply Hf|by destruct (Ho msg)|done]. Qed.

Lemma index_no_err {A} (l : list A) i : no_err (index l i).
Proof. unfold index. by destruct (l !! i). Qed.

Lemma results_in_no_err d : no_err (results_in d).
Proof.
  unfold results_in. case_match; [|done]. apply no_err_bind; [apply index_no_err|]. intros act.
  case_match; [|done]. apply no_err_bind; [by destruct (cap_Action _)|done].
Qed.

Lemma extract_once_no_err number data k i : no_err (extract_once number data k i).
Proof.
  unfold extract_once. apply no_err_bind; [apply index_no_err|]. intros []; [done|].
  apply no_err_bind; [apply index_no_err|]. intros d. apply no_err_bind; [|done].
  unfold extractDependenciesForTx. apply no_err_bind; [apply results_in_no_err|]. intros [r|]; [|done].
  unfold ExtractValidationParameterDependency, forBlock, signalDepInserted.
  apply no_err_bind; [by repeat case_match|]. intros v.
  apply no_err_bind; [by destruct (FromProtoBytes r)|]. intros v'. apply no_err_bind; [by case_match|done].
Qed.

Lemma extract_panics number data m d l k :
  data !! m = Some d → is_panic (results_in d) = true → m ∈ l → NoDup l → bd_txDepOnce (klv_blockDep k) !! m = Some false →
  is_panic (foldM (extract_once number data) k l) = true.
Proof.
  intros Hd Hr. revert k. induction l as [|i l IH]; intros k Hin Hnd Hm; [by apply elem_of_nil in Hin|]. cbn [foldM].
  apply NoDup_cons in Hnd as [Hni Hnd]. destruct (decide (i = m)) as [->|Hi].
  - unfold extract_once, index. rewrite Hm. go_simpl. rewrite Hd. unfold extractDependenciesForTx.
    destruct (results_in d) as [r| |]; done.
  - destruct (extract_once number data k i) as [k'|e|] eqn:E; [|by apply extract_once_no_err in E|done].
    apply IH; [by apply elem_of_cons in Hin as [?|?]|done|]. unfold extract_once in E.
    apply bind_Ok in E as (b & _ & E). destruct b; [by injection E as <-|].
    apply bind_Ok in E as (d' & _ & E). apply bind_Ok in E as (c & _ & E). injection E as <-. cbn.
    by rewrite list_lookup_insert_ne.
Qed.

(** A transaction without actions is only marked invalid when its own turn
    comes, but the validation of every later transaction of the block that
    reaches the plugin indexes its missing action and crashes the peer. *)
Theorem actionless_tx_panics (block : Block) (number : Z) (data : list bytes) (m n : nat) (d : bytes) (env : Envelope)
    (payl : Payload) (k : KeyLevelValidator) (namespace : string) (policyBytes : bytes) :
  blk_Number block = Some number → blk_Data block = Some data → data !! m = Some d →
  unmarshal_Envelope d = Some env → unmarshal_Payload (env_Payload env) = Some payl →
  unmarshal_Transaction (payload_Data payl) = Some (mkTransaction []) →
  bd_blockNum (klv_blockDep k) ≠ number → m < n →
  is_panic (vscc_Validate k block namespace n 0 policyBytes) = true.
Proof.
  intros En Ed Hd He Hp Ht Hb Hmn. unfold vscc_Validate.
  assert (is_panic (PreValidate k n block) = true) as Hpan.
  { unfold PreValidate. rewrite En, Ed. cbn [deref]. go_simpl. rewrite (proj2 (Z.eqb_neq _ _) Hb). cbn [negb].
    change (0 :: seq 1 n) with (seq 0 (S n)). eapply extract_panics; [done| | | |].
    - unfold results_in. rewrite He. cbn. rewrite Hp. cbn. rewrite Ht. done.
    - rewrite elem_of_reverse, elem_of_seq. lia.
    - rewrite reverse_Permutation. apply NoDup_seq.
    - cbn. apply lookup_replicate. split; [done|]. by eapply lookup_lt_Some. }
  by destruct (PreValidate k n block).
Qed.
End liveness.

(** ** A concrete channel: the policy of one key asks for both organisations

    Entry ["E"] updates the policy of the key; ["A"] has no action; ["B"] does
    not decode. *)
#[local] Instance kl_codec : Codec := {|
  unmarshal_Envelope s := if decide (s = "E") then Some (mkEnvelope "Y" "sig:Y")
                          else if decide (s = "A") then Some (mkEnvelope "Z" "sig:Z") else None;
  unmarshal_Payload s := if decide (s = "Z") then Some (mkPayload (Some toy_hdr) "N")
                         else dec0 "Y" (mkPayload (Some toy_hdr) "T") (mkPayload None "") s;
  unmarshal_ChannelHeader := dec0 "c" toy_chdr no_header;
  unmarshal_Transaction s := if decide (s = "N") then Some (mkTransaction [])
                             else dec0 "T" toy_ptx (mkTransaction []) s;
  unmarshal_ChaincodeAction := dec0 "a" toy_action (mkChaincodeAction None "" None None);
  unmarshal_TxReadWriteSet := dec0 "r" (mkTxReadWriteSet [mkNsReadWriteSet "cc" "k" []]) (mkTxReadWriteSet []);
  unmarshal_KVRWSet := dec0 "k" (mkKVRWSet [] [] [mkKVWrite "k1" false (Some "v")] [mkKVMetadataWrite "k1" []])
                         (mkKVRWSet [] [] [] []);
  unmarshal_HashedRWSet _ := None
|}.
#[local] Existing Instances ex_proposal_codec ex_tx_codec.

Definition kl_unmarshal (b : bytes) : option ApplicationPolicy :=
  dec0 "ap" (AP_SignaturePolicy (Some org_envelope)) AP_None b.
Definition kl_deserialize (b : bytes) : option MspIdentity := Some (org_of b).

#[local] Instance kl_resources : StateBased := {|
  FetchState := None;
  GetMetadata _ _ _ := inl {["VALIDATION_PARAMETER" := "both"]};
  CollectionValidationInfo _ _ := inl "";
  unmarshal_SignaturePolicyEnvelope := dec1 "both" org_envelope;
  marshal_ApplicationPolicy _ := "ap";
  Evaluate := application_Evaluate kl_unmarshal kl_deserialize (λ _, None);
  dep_order := elements;
  dep_order_ok _ := reflexivity _
|}.

Definition kl_rwset : TxRwSet :=
  mkTxRwSet [mkNsRwSet "cc" (mkKVRWSet [] [] [mkKVWrite "k1" false (Some "v")] [mkKVMetadataWrite "k1" []]) []].
Lemma kl_rwset_decoded : FromProtoBytes (Some "r") = Ok kl_rwset.
Proof. vm_compute. reflexivity. Qed.
Lemma kl_results_B : results_in "B" = Ok None.
Proof. vm_compute. reflexivity. Qed.
Lemma kl_results_E : results_in "E" = Ok (Some (Some "r")).
Proof. vm_compute. reflexivity. Qed.

Definition kl_endorsements : list Endorsement := [mkEndorsement "org2" "sig:Rorg2"; mkEndorsement "org1" "sig:Rorg1"].
Definition kl_context : validationContext := mkValidationContext 7 ∅ ∅.
Definition kl_block (first : bytes) : Block := mkBlock (Some 7%Z) (Some [first; "E"]) None.


Lemma accepted_key_signed_witness :
  ∃ p ids S, spe_Rule org_envelope = Some p ∧ satisfied_by (spe_Identities org_envelope) ids p S ∧
    NoDup (identity_key <$> ids).
Proof.
  destruct (@accepted_key_signed kl_codec kl_resources kl_unmarshal kl_deserialize (λ _, None) eq_refl eq_refl kl_context kl_context
    "cc" "" "k1" 0 (Some "r") kl_rwset "R" "ep" "both" kl_endorsements {["VALIDATION_PARAMETER" := "both"]} org_envelope)
    as (p & ids & S & Hp & Hs & Hn & _); try (vm_compute; reflexivity); try done; [cbn; set_solver|]. by exists p, ids, S.
Defined.

Lemma is_ok_Ok {A} (o : outcome A) : is_ok o = true → ∃ a, o = Ok a.
Proof. destruct o; eauto; done. Qed.

(** The goroutine of entry 1 has begun: it inserts what it can. *)
Lemma kl_started_B : is_ok (PreValidate NewKeyLevelValidator 1 (kl_block "B")) = true.
Proof. vm_compute. reflexivity. Qed.
Lemma kl_started_E : is_ok (PreValidate NewKeyLevelValidator 1 (kl_block "E")) = true.
Proof. vm_compute. reflexivity. Qed.

Lemma undecodable_entry_blocks_witness :
  ∃ k c, PreValidate NewKeyLevelValidator 1 (kl_block "B") = Ok k ∧
    klv_Validate (klv_ctx k) "cc" 7 1 (Some "r") "R" "ep" kl_endorsements = Ok (Waits, c).
Proof.
  destruct (is_ok_Ok _ kl_started_B) as [k E]. exists k.
  destruct (undecodable_entry_blocks (kl_block "B") 7 ["B"; "E"] 0 "B" NewKeyLevelValidator k 1 "cc" (Some "r") kl_rwset
    "R" "ep" kl_endorsements eq_refl eq_refl eq_refl kl_results_B eq_refl (rtc_once _ _ (kstep_pre _ _ _ _ _ E)) ltac:(lia)
    kl_rwset_decoded ltac:(discriminate)) as [c Hc]. by exists c.
Defined.

Lemma undecided_update_blocks_witness :
  ∃ k c, PreValidate NewKeyLevelValidator 1 (kl_block "E") = Ok k ∧ forBlock (klv_ctx k) 7 = Ok c ∧
    ∀ c', klv_Validate c "cc" 7 1 (Some "r") "R" "ep" kl_endorsements ≠ Ok (Accepts, c').
Proof.
  destruct (is_ok_Ok _ kl_started_E) as [k E]. exists k.
  destruct (undecided_update_blocks (kl_block "E") 7 ["E"; "E"] 0 "E" (Some "r") kl_rwset "cc" "" "k1" NewKeyLevelValidator
    k 1 (Some "r") kl_rwset "R" "ep" kl_endorsements eq_refl eq_refl eq_refl kl_results_E kl_rwset_decoded ltac:(by left)
    eq_refl (rtc_once _ _ (quiet_pre _ _ _ _ _ _ _ E)) ltac:(lia) kl_rwset_decoded ltac:(by left)) as (c & Hc & Hv).
  by exists c.
Defined.

Lemma actionless_tx_panics_witness :
  is_panic (vscc_Validate NewKeyLevelValidator (kl_block "A") "cc" 1 0 "ep") = true.
Proof.
  apply (actionless_tx_panics (kl_block "A") 7 ["A"; "E"] 0 1 "A" (mkEnvelope "Z" "sig:Z") (mkPayload (Some toy_hdr) "N"));
    try (vm_compute; reflexivity); done || lia.
Defined.
