(* ===== verification/ValidationFlow.v ===== *)
(** * ValidationFlow: the transaction validator with its default plugin
      (core/committer/txvalidator/v20 with core/handlers/validation/builtin/v20 and core/policy)

    The validator asks the plugin of every namespace a transaction writes; the
    default plugin asks the policy of every key; the policy evaluator goes
    through the endorsements. Composed, they say who endorsed the keys of a
    transaction that is flagged VALID. *)

From S2P Require Import Prelude GoText Utf8 Base64 Protos TxFlags Proposal ProtoUtil RwSetUtil Policy MsgValidation TxValidator KeyLevel.

(** ** What the plugin validates is what the dispatcher read *)
Section flow.
Context `{Codec} `{ProposalCodec} `{TxCodec} `{Membership} `{ValidatorResources} `{MapOrder} `{StateBased}.

Lemma extractValidationArtifacts_Ok block data i d va :
  blk_Data block = Some data → data !! i = Some d → extractValidationArtifacts block i 0 = Ok va →
  (∃ env payl hdr chdr, unmarshal_Envelope d = Some env ∧ unmarshal_Payload (env_Payload env) = Some payl ∧
     payload_Header payl = Some hdr ∧ unmarshal_ChannelHeader (hdr_ChannelHeader hdr) = Some chdr ∧
     chdr_Type chdr = HeaderType_ENDORSER_TRANSACTION) ∧
  ∀ action, GetActionFromEnvelope d = Ok action → va_rwset va = cca_Results action.
Proof.
  intros Ed Hd. unfold extractValidationArtifacts, GetActionFromEnvelope, GetActionFromEnvelopeMsg, GetPayloads,
    GetEnvelopeFromBlock, Proposal.decoded, index. rewrite Ed. cbn. rewrite Hd. cbn.
  destruct (unmarshal_Envelope d) as [env|] eqn:Ee; cbn; [|done].
  destruct (unmarshal_Payload _) as [payl|] eqn:Ep; cbn; [|done].
  destruct (payload_Header payl) as [hdr|] eqn:Eh; cbn; [|done].
  destruct (unmarshal_ChannelHeader _) as [chdr|] eqn:Ec; cbn; [|done].
  case_bool_decide as Ht; cbn; [|done].
  destruct (unmarshal_Transaction _) as [[[|act acts]]|]; cbn; [done| |done].
  destruct (unmarshal_ChaincodeActionPayload _) as [[inp [[prp ends]|]]|]; cbn; [|done..].
  destruct (unmarshal_ProposalResponsePayload _) as [[h [ext|]]|] eqn:Er; cbn; [|done..].
  destruct (unmarshal_ChaincodeAction ext) as [cca|] eqn:Ea; cbn; [|done]. intros [= <-].
  split; [exists env, payl, hdr, chdr; by split_and!|]. destruct prp as [prp|]; cbn in *; [|done]. intros action. rewrite Er. cbn.
  rewrite Ea. by intros [= <-].
Qed.

Lemma existsb_false_elem {A} (f : A → bool) l : existsb f l = false → ∀ x, x ∈ l → f x = false.
Proof.
  intros Hl x Hx%list_elem_of_In. apply not_true_iff_false. intros Hf. apply not_true_iff_false in Hl as [].
  apply existsb_exists. by exists x.
Qed.

(** A key that is checked is in a namespace that counts as written. *)
Lemma keys_of_namespace_written nss cc k :
  k ∈ keys_of_namespace nss cc → ∃ ns, ns ∈ nss ∧ nrw_NameSpace ns = cc ∧ txWritesToNamespace ns = true.
Proof.
  unfold keys_of_namespace. intros (ns & Hns & Hk)%list_elem_of_In%in_flat_map.
  apply list_elem_of_In, list_elem_of_filter in Hns as [Hcc Hns]. exists ns. split_and!; [done..|].
  apply list_elem_of_In in Hk. unfold KeyLevel.written_keys in Hk. unfold txWritesToNamespace.
  apply not_false_iff_true. intros [[Hw Hc]%orb_false_iff Hm]%orb_false_iff.
  apply negb_false_iff, bool_decide_eq_true in Hw, Hm. rewrite Hw, Hm in Hk. cbn in Hk.
  pose proof (existsb_false_elem _ _ Hc) as Hcoll. clear Hc.
  apply elem_of_app in Hk as [Hk|Hk]; apply list_elem_of_In, in_flat_map in Hk as (c & Hin & Hk);
    apply list_elem_of_In, Hcoll, orb_false_iff in Hin as [Hhw Hhm];
    apply negb_false_iff, bool_decide_eq_true in Hhw, Hhm; by rewrite ?Hhw, ?Hhm in Hk.
Qed.

Lemma forBlock_idem c number c' : forBlock c number = Ok c' → forBlock c' number = Ok c' ∧ blockHeight c' = number.
Proof.
  unfold forBlock. destruct (Z.ltb_spec number (blockHeight c)); [done|].
  destruct (Z.ltb_spec (blockHeight c) number); intros [= <-]; cbn; [by rewrite !Z.ltb_irrefl|].
  destruct (Z.ltb_spec number (blockHeight c)); [lia|]. destruct (Z.ltb_spec (blockHeight c) number); [lia|]. split; [done|lia].
Qed.

(** A call that checks a key first moves the context to the block. *)
Lemma klv_Validate_forBlock c cc number txNum rwsetBytes rwset prp ccEP endorsements v c2 :
  FromProtoBytes rwsetBytes = Ok rwset → keys_of_namespace (NsRwSets rwset) cc ≠ [] →
  klv_Validate c cc number txNum rwsetBytes prp ccEP endorsements = Ok (v, c2) →
  ∃ c', blockHeight c' = number ∧
    klv_Validate c' cc (blockHeight c') txNum rwsetBytes prp ccEP endorsements = Ok (v, c2).
Proof.
  intros Er Hne. unfold klv_Validate, base_Evaluate. rewrite Er.
  destruct (keys_of_namespace (NsRwSets rwset) cc) as [|[coll key] keys]; [done|]. cbn [check_keys].
  unfold checkSBAndCCEP, GetValidationParameterForKey. destruct (forBlock c number) as [c'| |] eqn:Ef; [|done..].
  destruct (forBlock_idem _ _ _ Ef) as [Ef' Hh]. intros E. exists c'. split; [done|]. rewrite Hh, Ef'. exact E.
Qed.

Lemma vscc_Validate_accepts k block ns i policyBytes k' va rwset :
  vscc_Validate k block ns i 0 policyBytes = Ok (Accepts, k') → extractValidationArtifacts block i 0 = Ok va →
  FromProtoBytes (va_rwset va) = Ok rwset → keys_of_namespace (NsRwSets rwset) ns ≠ [] →
  ∃ c c', klv_Validate c ns (blockHeight c) (Z.of_nat i) (va_rwset va) (va_prp va) policyBytes (va_endorsements va)
    = Ok (Accepts, c').
Proof.
  unfold vscc_Validate. intros E Hva Er Hne. apply bind_Ok in E as (k1 & _ & E). apply bind_Ok in E as (number & _ & E).
  rewrite Hva in E. apply bind_Ok in E as ([v c2] & Ev & E). destruct v as [|e|]; [|by ok_inv|done].
  destruct (klv_Validate_forBlock _ _ _ _ _ _ _ _ _ _ _ Er Hne Ev) as (c' & _ & ?). eauto.
Qed.

(** ** The keys of a valid transaction *)
Context (unmarshal_ApplicationPolicy : bytes → option ApplicationPolicy).
Context (deserialize : bytes → option MspIdentity) (channel_policy : string → option (list SignedData → outcome unit)).
Hypothesis evaluator_is : Evaluate = application_Evaluate unmarshal_ApplicationPolicy deserialize channel_policy.
Hypothesis application_policy_empty : unmarshal_ApplicationPolicy "" = Some AP_None.
(** The plugin validator hands the call to the default plugin, in some state. *)
Hypothesis plugin_is : ∀ ctx, ValidateWithPlugin ctx = PluginAccepts →
  ∃ k k', vscc_Validate k (ctx_Block ctx) (ctx_Namespace ctx) (ctx_Seq ctx) 0 (ctx_Policy ctx) = Ok (Accepts, k').

(** C9: when the transaction validator flags an endorser transaction VALID, every
    key it writes that has a validation parameter in the ledger carries, among
    the transaction's endorsements, verified ones of distinct identities that
    satisfy the key's signature policy. *)
Theorem valid_tx_keys_signed (arrival : list nat) (block block' : Block) (data : list bytes) (i : nat) (d : bytes)
    (va : validationArtifacts) (rwset : TxRwSet) (cc coll key : string) (md : gmap string bytes) (vp : bytes)
    (envelope : SignaturePolicyEnvelope) :
  Validate arrival block = Ok block' → blk_Data block = Some data → arrival ≡ₚ seq 0 (length data) →
  data !! i = Some d → flags_in block' !! i = Some TxValidationCode_VALID →
  extractValidationArtifacts block i 0 = Ok va → FromProtoBytes (va_rwset va) = Ok rwset →
  (coll, key) ∈ keys_of_namespace (NsRwSets rwset) cc →
  FetchState = None → GetMetadata cc coll key = inl md → md !! "VALIDATION_PARAMETER" = Some vp → vp ≠ "" →
  unmarshal_SignaturePolicyEnvelope vp = Some envelope →
  let ap := AP_SignaturePolicy (Some envelope) in
  unmarshal_ApplicationPolicy (marshal_ApplicationPolicy ap) = Some ap →
  ∃ p ids S, spe_Rule envelope = Some p ∧ satisfied_by (spe_Identities envelope) ids p S ∧
    NoDup (identity_key <$> ids) ∧
    ∀ id, id ∈ ids → ∃ e, e ∈ va_endorsements va ∧ deserialize (en_Endorser e) = Some id ∧
      mi_Verify id (va_prp va +:+ en_Endorser e) (en_Signature e) = true.
Proof.
  intros EV Ed Hp Hd Hf Hva Er Hkey Hfetch Hmd Hvp Hne Hspe ap Hap.
  destruct (extractValidationArtifacts_Ok _ _ _ _ _ Ed Hd Hva) as [(env & payl & hdr & chdr & He & Hpl & Hh & Hc & Ht) Hres].
  destruct (valid_flag_sound _ _ _ _ _ _ EV Ed Hp Hd Hf) as [[txid Hend]|Hconf].
  - destruct Hend as (env' & payl' & hdr' & chdr' & _ & _ & _ & _ & _ & _ & Hend).
    destruct Hend as (? & chdr2 & ? & action & rwset' & ? & ? & _ & _ & _ & Ha & Er' & _ & _ & _ & _ & _ & _ & _ & Hns).
    rewrite (Hres _ Ha), Er' in Er. injection Er as ->.
    destruct (keys_of_namespace_written _ _ _ Hkey) as (ns & Hin & <- & Hw).
    destruct (Hns ns Hin Hw) as (plugin & args & _ & _ & _ & _ & (k & k' & Hv)%plugin_is). cbn in Hv.
    rewrite <- (Hres _ Ha) in Er'.
    destruct (vscc_Validate_accepts _ _ _ _ _ _ _ _ Hv Hva Er') as (c & c' & Hk); [by intros E; rewrite E in Hkey; apply elem_of_nil in Hkey|].
    by eapply (key_signed unmarshal_ApplicationPolicy deserialize channel_policy evaluator_is application_policy_empty).
  - destruct Hconf as (env' & payl' & hdr' & chdr' & conf & He' & (? & ? & ? & Hpl' & _) & Hh' & Hc' & Ht' & _).
    simplify_eq. rewrite Ht in *; done.
Qed.
End flow.

(** ** A concrete block: one transaction, whose key asks for the peer that endorsed it *)
#[local] Existing Instances kl_codec ex_proposal_codec ex_tx_codec ex_membership sorted_map_order.

Definition peer_id : MspIdentity :=
  mkMspIdentity "org1" "peer0" (λ p, bool_decide (mp_Principal p = "org1")) (λ _ s, bool_decide (s = "sig0")).
Definition peer_envelope : SignaturePolicyEnvelope := mkSignaturePolicyEnvelope 0 (Some (SignedBy 0)) [mkMSPPrincipal 0 "org1"].
Definition vf_unmarshal (b : bytes) : option ApplicationPolicy :=
  dec0 "ap" (AP_SignaturePolicy (Some peer_envelope)) AP_None b.
Definition vf_deserialize (b : bytes) : option MspIdentity := if decide (b = "peer0") then Some peer_id else None.

#[local] Instance vf_state : StateBased := {|
  FetchState := None;
  GetMetadata _ _ _ := inl {["VALIDATION_PARAMETER" := "org1"]};
  CollectionValidationInfo _ _ := inl "";
  unmarshal_SignaturePolicyEnvelope := dec1 "org1" peer_envelope;
  marshal_ApplicationPolicy _ := "ap";
  Evaluate := application_Evaluate vf_unmarshal vf_deserialize (λ _, None);
  dep_order := elements;
  dep_order_ok _ := reflexivity _
|}.

(** The plugin is called in its first state. *)
#[local] Instance vf_resources : ValidatorResources := {|
  ConfigEnvelope := ();
  UnmarshalConfigEnvelope _ := inl ();
  Apply _ := None;
  TxIDExists _ := inl false;
  NewQueryExecutor := None;
  ValidationInfo _ _ := ValidationInfo_found "vscc" "policy";
  ValidateWithPlugin ctx :=
    match vscc_Validate NewKeyLevelValidator (ctx_Block ctx) (ctx_Namespace ctx) (ctx_Seq ctx) 0 (ctx_Policy ctx) with
    | Ok (Accepts, _) => PluginAccepts
    | _ => PluginRejects "not endorsed"
    end;
  unmarshal_ChaincodeEvent _ := None;
  marshal_Envelope _ := inl "E"
|}.
Definition vf_block : Block := mkBlock (Some 7%Z) (Some ["E"]) None.
Definition vf_validated : Block :=
  mkBlock (Some 7%Z) (Some ["E"]) (Some [""; ""; bytes_of_flags [TxValidationCode_VALID]; ""; ""]).

Lemma vf_plugin (ctx : Context_) :
  ValidateWithPlugin ctx = PluginAccepts →
  ∃ k k', vscc_Validate k (ctx_Block ctx) (ctx_Namespace ctx) (ctx_Seq ctx) 0 (ctx_Policy ctx) = Ok (Accepts, k').
Proof. cbn. intros E. exists NewKeyLevelValidator. repeat case_match; try done. eauto. Qed.

Lemma vf_Validate : Validate [0] vf_block = Ok vf_validated.
Proof. vm_compute. reflexivity. Qed.

Lemma vf_artifacts :
  extractValidationArtifacts vf_block 0 0 = Ok (mkValidationArtifacts (Some "r") "R" [mkEndorsement "peer0" "sig0"]).
Proof. vm_compute. reflexivity. Qed.

Lemma valid_tx_keys_signed_witness :
  ∃ p ids S, spe_Rule peer_envelope = Some p ∧ satisfied_by (spe_Identities peer_envelope) ids p S ∧
    NoDup (identity_key <$> ids).
Proof.
  destruct (@valid_tx_keys_signed _ _ _ _ vf_resources _ vf_state vf_unmarshal vf_deserialize (λ _, None) eq_refl eq_refl
    vf_plugin [0] vf_block vf_validated ["E"] 0 "E" _ kl_rwset "cc" "" "k1" {["VALIDATION_PARAMETER" := "org1"]} "org1"
    peer_envelope vf_Validate eq_refl ltac:(reflexivity) eq_refl ltac:(vm_compute; reflexivity) vf_artifacts kl_rwset_decoded
    ltac:(by left) eq_refl eq_refl eq_refl ltac:(done) eq_refl eq_refl) as (p & ids & S & Hp & Hs & Hn & _).
  by exists p, ids, S.
Defined.
